(* ===== verification/_CoqProject ===== *)
-Q . S2P
Prelude.v
Mem.v
CType.v
KString.v
Words.v
Block.v
Bio.v
Log.v
Fs.v
FsBlock.v
FsTree.v
FsFile.v
FsInode.v
FsRel.v
FsPath.v
FsDir.v
RingBuf.v
Pipe.v
File.v
FsTxn.v
FileIO.v
Sysfile.v
FileRef.v
FileTx.v
Lock.v
Proc.v
ProcInv.v
ProcSys.v
Heap.v
HeapAlloc.v
Kalloc.v
Umalloc.v
Vm.v
VmTable.v
VmMap.v
VmUser.v
VmSpace.v
VmCopy.v
VmThm.v
Exec.v
ExecSpace.v
ExecLoad.v
ExecStack.v
ExecThm.v
ExecKeep.v
ExecFail.v
Syscall.v
Printf.v
LibStd.v
UString.v
Stdio.v
Libgen.v
Clock.v
Shell.v
Search.v
Qsort.v
Queue.v
