(* ===== verification/Prelude.v ===== *)
(** * Relix: a verification library

    Relix is a Unix-like kernel for x86-64 with its C library and programs.
    This library models the kernel's storage stack, its memory management, its
    processes and locks, the calls on files, and the parts of the shared and C
    libraries that have logic of their own, and proves what makes them correct.
    Definitions carry the names of the C functions; every one is executable.

    ** The program and the files that model it

    From the disk upwards:
    - Bio.v: the buffer cache and the disk (kernel/bio.c, ide.c).  Block.v
      states what the cache promises as the class [BlockLaws]; the log and the
      file system are proved against the class, and Bio.v discharges it.
    - Log.v: the write-ahead log (kernel/log.c).
    - Fs.v: blocks, inodes, directories and paths (kernel/fs.c).  FsBlock.v
      (bitmap), FsTree.v (the blocks of a file), FsFile.v (contents), FsInode.v
      (inodes on disk and in memory), FsRel.v (relations every operation
      respects), FsPath.v (references and path names) and FsDir.v (directories)
      hold its proofs.
    - RingBuf.v (lib/ring_buffer.c) and Pipe.v (kernel/pipe.c).
    - File.v: open files and descriptors (kernel/file.c); Sysfile.v: the calls
      on them (kernel/sysfile.c).  FsTxn.v, FileIO.v, FileRef.v and FileTx.v
      compose them with the file system and the log.
    Memory:
    - Heap.v, HeapAlloc.v: the Kernighan and Ritchie allocator both
      kernel/kalloc.c and userspace/libc/umalloc.c contain, over the interface
      [Core] for fresh memory; Kalloc.v and Umalloc.v are its two instances,
      Kalloc.v with the page allocator.
    - Vm.v: page tables (kernel/vm.c); VmTable.v, VmMap.v, VmUser.v, VmSpace.v,
      VmCopy.v and VmThm.v hold its proofs, from entries to address spaces.
    Program loading:
    - Exec.v: [execve] and [loaduvm] (kernel/exec.c, kernel/vm.c) over the page
      tables, the file system and the open files; ExecSpace.v an address space
      as its user sees it, ExecLoad.v the segments, ExecStack.v the arguments,
      ExecThm.v the whole call, ExecKeep.v what a call does to the other address
      spaces, ExecFail.v its failures.
    - Syscall.v: how a call gets its arguments from the registers and the memory
      of the process (kernel/syscall.c), and [sys_execve].
    Processes:
    - Lock.v: spin, ticket and sleep locks (kernel/spinlock.c, ticketlock.c,
      sleeplock.c) on interleaved CPUs.
    - Proc.v: the process table and the scheduler (kernel/proc.c), over the
      interface [ProcEnv] for memory and files; ProcInv.v its invariant,
      ProcSys.v the reachable states.
    Shared code:
    - Mem.v (byte-addressed memory), Words.v (buffers and their fields),
      CType.v (lib/ctype.c), KString.v (kernel/kernel_string.c), Search.v,
      Qsort.v and Queue.v (lib/search.c, qsort.c, queue.c).
    C library and clock:
    - Printf.v (userspace/libc/printf.c), with the arithmetic of [double] as
      the interface [Floating]; LibStd.v (stdlib.c: numbers, exit handlers);
      UString.v (string.c); Libgen.v (libgen.c); Stdio.v (stdio.c), over the
      interface [Kernel] for the calls it makes.
    - Clock.v: the clock chip (kernel/dev/lapic.c) and [localtime]
      (userspace/libc/time.c).
    - Shell.v: the parser of the shell (userspace/programs/sh.c).

    This file has what all share: the outcomes of an operation, the state
    monad [M] with the rules of total ([wp]) and partial ([wlp]) correctness,
    machine integers, and the tactics.

    ** How code becomes definitions

    An operation is a function from a component's state record to its result
    and the new state, or to the way it stops: a panic, an access C leaves
    undefined, a sleep, or the end of its fuel.  A pointer into a table of the
    kernel is an index; memory of which the bytes matter is a map from
    addresses.  Integers are [Z] with the wrap-around of their width written
    out.  Interleavings are step relations: the atomic instructions of the
    locks, the critical sections of pipes and processes, the operations of the
    log, the calls of processes on files.  Drivers behind [devsw] are
    parameters.

    ** What is proved

    - Storage: a crash at any disk write leaves the disk before or after a
      whole transaction ([fs_op_crash_atomic], [recovery_restartable]); the
      admission of the log, which protects a call until it has used its budget
      and not after ([log_admission], [log_admission_again]); a piece of a write
      to a file is atomic under crashes, down to the contents of the file
      ([write_crash_atomic]); files behave as byte lists ([file_write_read]),
      open files as byte lists with a position ([vfs_write_read]); directories,
      the bitmap, inodes and references ([dirlink_dirlookup],
      [block_alloc_free_roundtrip], [inode_update_reload], [namex_references]);
      the cache ([block_read_correct]).
    - Calls: over any sequence of calls that does not hit one of two leaking
      error paths, the count of an open file is the number of its descriptors,
      or, for the ends a FIFO keeps, at least that ([file_references]); every call closes the
      transactions it opens ([calls_close_transactions]), but for the error
      paths named there, one of which stops the kernel
      ([fchmod_bad_fd_breaks_log]).
    - Memory: the allocators ([kmalloc_correct], [kfree_correct],
      [malloc_block_size]); address spaces as the processor translates them, to
      an address and the rights to write it and to use it as a user
      ([mappages_translation], [copyuvm_copies], [allocuvm_deallocuvm],
      [freevm_reclaims], [copyout_correct], [kvmalloc_linear_map]).
    - Program loading: [execve] makes the process the program of the file
      ([execve_starts_program]); a call that fails leaves it and
      its memory alone ([execve_failure_keeps_process]); the strings a process passes to it
      arrive ([sys_execve_arguments]).
    - Processes: the invariant of the process table over every interleaving
      without stop and continue signals, and that [SIGCONT] breaks it; no lost
      exit, and a scheduler that runs a runnable process within a round
      ([process_table_invariant],
      [waitpid_no_lost_exit], [scheduler_bounded_wait], [waitpid_spec]); mutual
      exclusion of the locks ([spinlock_mutual_exclusion],
      [sleeplock_correct]); pipes as streams from the buffers of the writers to
      those of the readers, without lost wakeups ([pipe_stream],
      [pipe_no_lost_wakeup]).
    - Shared code: functional specifications of the string functions, the ring
      buffer, queues, [bsearch] and [qsort].
    - C library and clock: streams deliver what is put on them, in order
      ([stdio_streams]); printed numbers are numerals and are read back
      ([printint_correct], [printf_atoi_roundtrip]); [strtok_r] visits the
      tokens of a string ([strtok_r_tokens]); paths are split at their last
      name ([basename_dirname]); the date and time [localtime] gives are those
      of the Gregorian calendar, its weekday and day of the year are not, and it
      inverts [rtc_now] ([localtime_correct], [clock_roundtrip]).
    - Shell: a printed command is parsed back ([parse_print]); the parser ends on
      every line ([parsecmd_ends]).
    Where the code does not do what it means to, the theorem says what it does
    do: errors are results like any other.

    ** Bounds and fuel

    Loops that are not structural take fuel: the scans of strings get the size
    of the memory, since no address is read twice; the loops over pages get
    the number of pages; [malloc] gets the length of the free list; the loop of
    [vfs_write] one turn per piece; [qsort] the number of elements; a path walk
    the length of the path.  The theorems show that the fuel given in the
    definition is enough: they say that the operation returns.  Constants are
    those of the source ([BSIZE] 2048, [MAXOPBLOCKS] 10, [NPROC] 64, ...).
    User addresses lie below [UTOP], 510 * 2 MiB, where the directory of an
    address space keeps the pointers to the tables above it.

    ** Where a model is coarser than the code

    - A step of a lock's entry reads the lock and asserts at once; [fork] behind
      its first critical section and [exit] before its own are one step each.
    - The calls on files see the log as the count of open transactions: the
      sleeping of [begin_op] and the panics of [log_write] are in Log.v.
    - The streams of the C library are proved against the interface [Kernel],
      whose law speaks of the descriptors that take all they are given in one
      vector; the [sys_writev] of sysfile.c is in Sysfile.v, and for a regular
      file with free blocks [vfs_write_read] shows that all is taken.

    ** Not modelled

    - Hardware: the registers and ports behind the drivers (ahci.c, console.c,
      vga.c, uart.c, kernel/dev), interrupt controllers, timers, ACPI, CPU
      discovery, boot and assembly code, the entry and exit of traps.  What the
      kernel relies on is the behaviour of a device, not an algorithm of its
      own.
    - The bodies of system calls that only move values between registers and
      the kernel (sysproc.c, the table of syscall.c), and ioctl, mmap and
      getdents of sysfile.c.
    - The Rust crates, and the C code that only calls them.
    - mkfs, user programs but for the parser of the shell, tests, the locale and
      the scanf family of the C library, [atof], and the functions of stdlib.c
      and stdio.c that only make calls: they sit on the interfaces verified
      here. *)

From stdpp Require Export base list gmap strings.
From Stdlib Require Export ZArith Lia.

#[global] Open Scope Z_scope.
#[global] Set Default Goal Selector "!".
Coercion Z.of_nat : nat >-> Z.

(** ** Outcomes

    Every operation of the kernel and of the C library is modelled as a
    computation that either returns or stops in one of four ways:
    [panic()] (and a failed [kernel_assert]), an access the C standard leaves
    undefined (an unmapped byte, an overflowing [int]), a [sleep] that no other
    thread of the model can end, and a loop whose fuel ran out.  Fuel is an
    artefact of the model; the theorems show it is never what ends a call. *)
Inductive err : Type :=
| EPanic (msg : string)
| EFault
| EBlocked
| EFuel.

Inductive res (A : Type) : Type :=
| Ok (a : A)
| Err (e : err).
Arguments Ok {A} a.
Arguments Err {A} e.

#[global] Instance err_eq_dec : EqDecision err.
Proof. solve_decision. Defined.

#[global] Instance res_eq_dec {A} `{EqDecision A} : EqDecision (res A).
Proof. solve_decision. Defined.

#[global] Instance res_ret : MRet res := λ A, Ok.
#[global] Instance res_bind : MBind res := λ A B k r,
  match r with Ok a => k a | Err e => Err e end.

(** ** State passing

    A component's operations run on the component's own state record. *)
Definition M (S A : Type) : Type := S → res (A * S).

#[global] Instance M_ret S : MRet (M S) := λ A a s, Ok (a, s).
#[global] Instance M_bind S : MBind (M S) := λ A B k m s,
  match m s with Ok (a, s') => k a s' | Err e => Err e end.

Section ops.
Context {S : Type}.

Definition gets {A} (f : S → A) : M S A := λ s, Ok (f s, s).
Definition modify (f : S → S) : M S unit := λ s, Ok (tt, f s).
Definition fail {A} (e : err) : M S A := λ _, Err e.
Definition panic {A} (msg : string) : M S A := fail (EPanic msg).
Definition lift {A} (r : res A) : M S A := λ s,
  match r with Ok a => Ok (a, s) | Err e => Err e end.
Definition kernel_assert (b : bool) : M S unit :=
  if b then mret tt else panic "assertion failed".
Definition from_option {A} (o : option A) : M S A :=
  match o with Some a => mret a | None => fail EFault end.

(** Running a sub-component's operation on the field that holds its state. *)
Definition zoom {T A} (get : S → T) (set : T → S → S) (m : M T A) : M S A := λ s,
  match m (get s) with Ok (a, t) => Ok (a, set t s) | Err e => Err e end.

(** Total correctness: [m] returns from [s], and its result satisfies [Q]. *)
Definition wp {A} (m : M S A) (Q : A → S → Prop) (s : S) : Prop :=
  match m s with Ok (a, s') => Q a s' | Err _ => False end.
End ops.

Section wp_rules.
Context {S : Type}.
Implicit Types (s : S).

Lemma wp_ret {A} (a : A) Q s : Q a s → wp (mret a) Q s.
Proof. done. Qed.

Lemma wp_bind {A B} (m : M S A) (k : A → M S B) Q s :
  wp m (λ a s', wp (k a) Q s') s → wp (m ≫= k) Q s.
Proof. unfold wp, mbind, M_bind. by destruct (m s) as [[a s']|]. Qed.

Lemma wp_mono {A} (m : M S A) (Q Q' : A → S → Prop) s :
  wp m Q s → (∀ a s', Q a s' → Q' a s') → wp m Q' s.
Proof. unfold wp. destruct (m s) as [[a s']|]; auto. Qed.

Lemma wp_gets {A} (f : S → A) Q s : Q (f s) s → wp (gets f) Q s.
Proof. done. Qed.

Lemma wp_modify f Q s : Q tt (f s) → wp (modify f) Q s.
Proof. done. Qed.

Lemma wp_lift {A} (r : res A) a Q s : r = Ok a → Q a s → wp (lift r) Q s.
Proof. by intros ->. Qed.

Lemma wp_from_option {A} (o : option A) a Q s :
  o = Some a → Q a s → wp (from_option o) Q s.
Proof. by intros ->. Qed.

Lemma wp_assert b Q s : b = true → Q tt s → wp (kernel_assert b) Q s.
Proof. by intros ->. Qed.

Lemma wp_zoom {T A} (get : S → T) set (m : M T A) Q s :
  wp m (λ a t, Q a (set t s)) (get s) → wp (zoom get set m) Q s.
Proof. unfold wp, zoom. by destruct (m (get s)) as [[a t]|]. Qed.

Lemma wp_run {A} (m : M S A) Q s :
  wp m Q s ↔ ∃ a s', m s = Ok (a, s') ∧ Q a s'.
Proof.
  unfold wp. split.
  - destruct (m s) as [[a s']|]; naive_solver.
  - by intros (a & s' & -> & HQ).
Qed.

Lemma bind_ok {A B} (m : M S A) (k : A → M S B) s b s'' :
  (m ≫= k) s = Ok (b, s'') ↔
  ∃ a s', m s = Ok (a, s') ∧ k a s' = Ok (b, s'').
Proof.
  unfold mbind, M_bind. split.
  - destruct (m s) as [[a s']|]; [eauto|done].
  - by intros (a & s' & -> & ?).
Qed.

(** Running a computation step by step on a known state. *)
Lemma bind_run {A B} (m : M S A) (k : A → M S B) s a s' :
  m s = Ok (a, s') → (m ≫= k) s = k a s'.
Proof. unfold mbind, M_bind. by intros ->. Qed.

Lemma bind_err {A B} (m : M S A) (k : A → M S B) s e : m s = Err e → (m ≫= k) s = Err e.
Proof. unfold mbind, M_bind. by intros ->. Qed.

Lemma gets_bind {A B} (f : S → A) (k : A → M S B) s : (gets f ≫= k) s = k (f s) s.
Proof. done. Qed.

Lemma modify_bind {B} f (k : unit → M S B) s : (modify f ≫= k) s = k tt (f s).
Proof. done. Qed.

Lemma ret_bind {A B} (a : A) (k : A → M S B) s : (mret a ≫= k) s = k a s.
Proof. done. Qed.

Lemma assert_bind {B} b (k : unit → M S B) s : b = true → (kernel_assert b ≫= k) s = k tt s.
Proof. by intros ->. Qed.

Lemma from_option_bind {A B} (o : option A) a (k : A → M S B) s :
  o = Some a → (from_option o ≫= k) s = k a s.
Proof. by intros ->. Qed.

Lemma bind_assoc {A B C} (m : M S A) (k : A → M S B) (h : B → M S C) s :
  ((m ≫= k) ≫= h) s = (m ≫= λ a, k a ≫= h) s.
Proof. unfold mbind, M_bind. by destruct (m s) as [[]|]. Qed.
End wp_rules.

(** ** Partial correctness

    An operation may stop in a panic or wait for a lock; [wlp m Q s] says that
    [Q] holds where it returns. *)
Definition wlp {S A} (m : M S A) (Q : A → S → Prop) (s : S) : Prop :=
  match m s with Ok (a, s') => Q a s' | Err _ => True end.

Section wlp_rules.
Context {S : Type}.
Implicit Types s : S.

Lemma wlp_bind {A B} (m : M S A) (k : A → M S B) Q s :
  wlp m (λ a s', wlp (k a) Q s') s → wlp (m ≫= k) Q s.
Proof. unfold wlp, mbind, M_bind. by destruct (m s) as [[]|]. Qed.

Lemma wlp_mono {A} (m : M S A) (Q Q' : A → S → Prop) s :
  wlp m Q s → (∀ a s', Q a s' → Q' a s') → wlp m Q' s.
Proof. unfold wlp. destruct (m s) as [[]|]; auto. Qed.

Lemma wlp_ret {A} (a : A) Q s : Q a s → wlp (mret a) Q s.
Proof. done. Qed.

Lemma wlp_gets {A} (f : S → A) Q s : Q (f s) s → wlp (gets f) Q s.
Proof. done. Qed.

Lemma wlp_modify f Q s : Q tt (f s) → wlp (modify f) Q s.
Proof. done. Qed.

Lemma wlp_fail {A} e (Q : A → S → Prop) s : wlp (fail e) Q s.
Proof. done. Qed.

Lemma wlp_from_option {A} (o : option A) Q s :
  (∀ a, o = Some a → Q a s) → wlp (from_option o) Q s.
Proof. destruct o; [|done]. intros H. by apply H. Qed.

Lemma wlp_ok {A} (m : M S A) (Q : A → S → Prop) s a s' : wlp m Q s → m s = Ok (a, s') → Q a s'.
Proof. unfold wlp. intros H E. by rewrite E in H. Qed.

Lemma wlp_and {A} (m : M S A) (Q Q' : A → S → Prop) s :
  wlp m Q s → wlp m Q' s → wlp m (λ a s', Q a s' ∧ Q' a s') s.
Proof. unfold wlp. by destruct (m s) as [[]|]. Qed.

Lemma wlp_all {A} (m : M S A) (Q : A → S → Prop) s :
  wlp m Q s → ∀ a s', m s = Ok (a, s') → Q a s'.
Proof. intros H a s'. by apply wlp_ok. Qed.
End wlp_rules.

Lemma rbind_ok {A B} (r : res A) (k : A → res B) b :
  (r ≫= k) = Ok b ↔ ∃ a, r = Ok a ∧ k a = Ok b.
Proof. unfold mbind, res_bind. destruct r; split; [eauto|..]; (done || by intros (?&[= ->]&?)). Qed.

(** ** Machine integers

    An unsigned [w]-bit value is a [Z] in [0, 2^w); [wrap] is the modular
    reduction the hardware performs and [sx] reads the same bits as a two's
    complement number. *)
Definition wrap (w z : Z) : Z := z mod 2 ^ w.
Definition sx (w z : Z) : Z :=
  let u := z mod 2 ^ w in if u <? 2 ^ (w - 1) then u else u - 2 ^ w.

Abbreviation u8 := (wrap 8).
Abbreviation u32 := (wrap 32).
Abbreviation u64 := (wrap 64).
Abbreviation s8 := (sx 8).
Abbreviation s32 := (sx 32).
Abbreviation s64 := (sx 64).

Definition SIZE_MAX : Z := 2 ^ 64 - 1.
Definition INT_MAX : Z := 2 ^ 31 - 1.

Lemma wrap_range w z : 0 ≤ w → 0 ≤ wrap w z < 2 ^ w.
Proof. intros. apply Z.mod_pos_bound. lia. Qed.

Lemma wrap_small w z : 0 ≤ z < 2 ^ w → wrap w z = z.
Proof. apply Z.mod_small. Qed.

Lemma sx_small w z : 0 ≤ z < 2 ^ (w - 1) → 0 < w → sx w z = z.
Proof.
  intros Hz Hw. unfold sx.
  assert (2 ^ w = 2 * 2 ^ (w - 1)) as E.
  { rewrite <- Z.pow_succ_r by lia. f_equal. lia. }
  rewrite Z.mod_small by lia.
  destruct (Z.ltb_spec z (2 ^ (w - 1))); lia.
Qed.

Lemma s8_inj x y : 0 ≤ x < 256 → 0 ≤ y < 256 → s8 x = s8 y → x = y.
Proof.
  unfold sx. change (2 ^ 8) with 256. change (2 ^ (8 - 1)) with 128.
  intros. rewrite !Z.mod_small in * by lia.
  destruct (Z.ltb_spec x 128), (Z.ltb_spec y 128); lia.
Qed.

Lemma s8_0 x : 0 ≤ x < 256 → s8 x = 0 ↔ x = 0.
Proof.
  intros. split; [|by intros ->].
  intros. apply s8_inj; [lia|lia|]. done.
Qed.

(** ** Hint database and tactics *)
Create HintDb relix discriminated.

#[export] Hint Resolve wp_ret wp_gets wp_modify : relix.

(** Peel one monadic step of a [wp] goal. *)
Ltac wp_step :=
  match goal with
  | |- wp (mbind _ _) _ _ => apply wp_bind
  | |- wp (mret _) _ _ => apply wp_ret
  | |- wp (gets _) _ _ => apply wp_gets; cbn beta
  | |- wp (modify _) _ _ => apply wp_modify; cbn beta
  | |- wp (zoom _ _ _) _ _ => apply wp_zoom
  end.

(** Turn boolean comparisons of the context into propositions. *)
Ltac zbool :=
  repeat match goal with
  | H : (_ =? _)%Z = true |- _ => apply Z.eqb_eq in H
  | H : (_ =? _)%Z = false |- _ => apply Z.eqb_neq in H
  | H : (_ <? _)%Z = true |- _ => apply Z.ltb_lt in H
  | H : (_ <? _)%Z = false |- _ => apply Z.ltb_ge in H
  | H : (_ <=? _)%Z = true |- _ => apply Z.leb_le in H
  | H : (_ <=? _)%Z = false |- _ => apply Z.leb_gt in H
  end.

(** Case analysis on the comparison a goal is stuck on. *)
Ltac zcase :=
  match goal with
  | |- context [ (?a =? ?b)%Z ] => destruct (Z.eqb_spec a b)
  | |- context [ (?a <? ?b)%Z ] => destruct (Z.ltb_spec a b)
  | |- context [ (?a <=? ?b)%Z ] => destruct (Z.leb_spec a b)
  end.
