(* ===== verification/Mem.v ===== *)
(** * Byte-addressed memory

    The memory the C functions read and write: a finite map from addresses to
    bytes.  An address that is not in the map is not mapped, and touching it is
    a fault.  [bytes_at] and [cstr] describe what lies at an address,
    [set_bytes] is the memory after a range has been overwritten; the
    theorems about the string functions are stated with the three of them. *)

From S2P Require Import Prelude.

Abbreviation mem := (gmap Z Z).

Definition NULL : Z := 0.

(** [*(unsigned char * )a] and the store of one byte. *)
Definition load (m : mem) (a : Z) : res Z :=
  match m !! a with Some b => Ok b | None => Err EFault end.

Definition store (m : mem) (a v : Z) : res mem :=
  match m !! a with Some _ => Ok (<[a := u8 v]> m) | None => Err EFault end.

(** [char] is signed on x86-64: the value a [char] expression has. *)
Definition loadc (m : mem) (a : Z) : res Z := b ← load m a; mret (s8 b).

(** Fuel for a loop that visits a fresh mapped address on every iteration. *)
Definition fuel (m : mem) : nat := S (size m).

Fixpoint bytes_at (m : mem) (a : Z) (l : list Z) : Prop :=
  match l with
  | [] => True
  | b :: l => m !! a = Some b ∧ bytes_at m (a + 1) l
  end.

Fixpoint set_bytes (m : mem) (a : Z) (l : list Z) : mem :=
  match l with
  | [] => m
  | b :: l => set_bytes (<[a := b]> m) (a + 1) l
  end.

(** [a, a+n) is mapped. *)
Definition mapped (m : mem) (a : Z) (n : nat) : Prop :=
  ∀ i, 0 ≤ i < Z.of_nat n → is_Some (m !! (a + i)).

Abbreviation byte_ok := (λ b : Z, 0 ≤ b < 256).

Definition wf_mem (m : mem) : Prop := map_Forall (λ _ b, byte_ok b) m.

(** A NUL-terminated string [s] at [a]. *)
Definition cstr (m : mem) (a : Z) (s : list Z) : Prop :=
  bytes_at m a (s ++ [0]) ∧ Forall (λ b, 0 < b < 256) s.

Definition disjoint (a : Z) (n : nat) (b : Z) (k : nat) : Prop :=
  a + Z.of_nat n ≤ b ∨ b + Z.of_nat k ≤ a.

(** ** Loads and stores *)

Lemma load_ok m a b : m !! a = Some b → load m a = Ok b.
Proof. unfold load. by intros ->. Qed.

Lemma loadc_ok m a b : m !! a = Some b → loadc m a = Ok (s8 b).
Proof. unfold loadc. by intros ->%load_ok. Qed.

Lemma store_ok m a v : is_Some (m !! a) → 0 ≤ v < 256 → store m a v = Ok (<[a := v]> m).
Proof.
  unfold store. intros [x ->] Hv. rewrite wrap_small; [done|].
  change (2 ^ 8) with 256. lia.
Qed.

Lemma load_bind {B} m a b (k : Z → res B) : m !! a = Some b → (load m a ≫= k) = k b.
Proof. unfold load. by intros ->. Qed.

Lemma loadc_bind {B} m a b (k : Z → res B) : m !! a = Some b → (loadc m a ≫= k) = k (s8 b).
Proof. unfold loadc, load. by intros ->. Qed.

Lemma store_bind {B} m a v (k : mem → res B) :
  is_Some (m !! a) → 0 ≤ v < 256 → (store m a v ≫= k) = k (<[a := v]> m).
Proof. intros. by rewrite store_ok. Qed.

(** ** Ranges *)

Lemma bytes_at_app m a l1 l2 :
  bytes_at m a (l1 ++ l2) ↔ bytes_at m a l1 ∧ bytes_at m (a + length l1) l2.
Proof.
  revert a. induction l1 as [|b l1 IH]; intros a; cbn [bytes_at app length].
  - replace (a + 0%nat) with a by lia. tauto.
  - rewrite IH. replace (a + 1 + length l1) with (a + S (length l1)) by lia. tauto.
Qed.

Lemma bytes_at_lookup m a l i b :
  bytes_at m a l → l !! i = Some b → m !! (a + Z.of_nat i) = Some b.
Proof.
  revert a i. induction l as [|x l IH]; intros a [|i] Hl Hi; simplify_eq/=.
  - replace (a + 0%nat) with a by lia. tauto.
  - replace (a + S i) with (a + 1 + Z.of_nat i) by lia. apply IH; tauto.
Qed.

Lemma bytes_at_intro m a l :
  (∀ i b, l !! i = Some b → m !! (a + Z.of_nat i) = Some b) → bytes_at m a l.
Proof.
  revert a. induction l as [|x l IH]; intros a H; cbn; [done|split].
  - specialize (H 0%nat x eq_refl). by replace (a + 0%nat) with a in H by lia.
  - apply IH. intros i b Hi. specialize (H (S i) b Hi).
    by replace (a + S i) with (a + 1 + Z.of_nat i) in H by lia.
Qed.

Lemma lookup_set_bytes m a l x :
  set_bytes m a l !! x =
  if bool_decide (a ≤ x < a + length l) then l !! Z.to_nat (x - a) else m !! x.
Proof.
  revert m a. induction l as [|b l IH]; intros m a; cbn [set_bytes length].
  - rewrite bool_decide_false by lia. done.
  - rewrite IH. destruct (decide (x = a)) as [->|Hne].
    + rewrite bool_decide_false by lia. rewrite bool_decide_true by lia.
      replace (Z.to_nat (a - a)) with 0%nat by lia. by rewrite lookup_insert_eq.
    + rewrite lookup_insert_ne by done.
      destruct (decide (a + 1 ≤ x < a + 1 + length l)).
      * rewrite !bool_decide_true by lia.
        by replace (Z.to_nat (x - a)) with (S (Z.to_nat (x - (a + 1)))) by lia.
      * by rewrite !bool_decide_false by lia.
Qed.

Lemma set_bytes_in m a l i b :
  l !! i = Some b → set_bytes m a l !! (a + Z.of_nat i) = Some b.
Proof.
  intros Hi. rewrite lookup_set_bytes.
  pose proof (lookup_lt_Some _ _ _ Hi). rewrite bool_decide_true by lia.
  by replace (Z.to_nat (a + i - a)) with i by lia.
Qed.

Lemma set_bytes_out m a l x :
  x < a ∨ a + length l ≤ x → set_bytes m a l !! x = m !! x.
Proof. intros. rewrite lookup_set_bytes. by rewrite bool_decide_false by lia. Qed.

Lemma bytes_at_set_eq m a l : bytes_at (set_bytes m a l) a l.
Proof. apply bytes_at_intro. intros. by apply set_bytes_in. Qed.

Lemma bytes_at_frame (m m' : mem) a l :
  (∀ x, a ≤ x < a + length l → m' !! x = m !! x) → bytes_at m a l → bytes_at m' a l.
Proof.
  intros Hf Hl. apply bytes_at_intro. intros i b Hi.
  rewrite Hf; [by eapply bytes_at_lookup|]. apply lookup_lt_Some in Hi. lia.
Qed.

Lemma bytes_at_set_ne m a l b k :
  disjoint a (length l) b (length k) → bytes_at m b k → bytes_at (set_bytes m a l) b k.
Proof.
  intros Hd. apply bytes_at_frame. intros x Hx. apply set_bytes_out.
  unfold disjoint in Hd. lia.
Qed.

Lemma set_bytes_app m a l1 l2 :
  set_bytes m a (l1 ++ l2) = set_bytes (set_bytes m a l1) (a + length l1) l2.
Proof.
  revert m a. induction l1 as [|b l1 IH]; intros m a; cbn [set_bytes app length].
  - by replace (a + 0%nat) with a by lia.
  - rewrite IH. by replace (a + 1 + length l1) with (a + S (length l1)) by lia.
Qed.

Lemma set_bytes_self m a l : bytes_at m a l → set_bytes m a l = m.
Proof.
  intros Hl. apply map_eq. intros x. rewrite lookup_set_bytes.
  case_bool_decide as Hx; [|done].
  destruct (lookup_lt_is_Some_2 l (Z.to_nat (x - a))) as [b Hb]; [lia|].
  rewrite Hb. symmetry. pose proof (bytes_at_lookup _ _ _ _ _ Hl Hb) as E.
  by replace (a + Z.to_nat (x - a)) with x in E by lia.
Qed.

Lemma insert_set_bytes m a b c l :
  b < a ∨ a + length l ≤ b →
  <[b := c]> (set_bytes m a l) = set_bytes (<[b := c]> m) a l.
Proof.
  intros Hb. apply map_eq. intros x. rewrite lookup_set_bytes.
  destruct (decide (x = b)) as [->|Hne].
  - rewrite lookup_insert_eq, bool_decide_false, lookup_insert_eq by lia. done.
  - rewrite lookup_insert_ne by done. rewrite lookup_set_bytes.
    by rewrite lookup_insert_ne by done.
Qed.

Lemma dom_set_bytes m a l : mapped m a (length l) → dom (set_bytes m a l) = dom m.
Proof.
  intros Hm. apply set_eq. intros x. rewrite !elem_of_dom, lookup_set_bytes.
  case_bool_decide; [|done]. split; intros _.
  - replace x with (a + (x - a)) by lia. apply Hm. lia.
  - apply lookup_lt_is_Some_2. lia.
Qed.

Lemma mapped_set m a l b n : mapped m b n → mapped (set_bytes m a l) b n.
Proof.
  intros Hm i Hi. rewrite lookup_set_bytes. case_bool_decide; [|by apply Hm].
  apply lookup_lt_is_Some_2. lia.
Qed.

Lemma mapped_insert m a v b n : mapped m b n → mapped (<[a := v]> m) b n.
Proof. apply (mapped_set m a [v]). Qed.

Lemma mapped_cons m a n : mapped m a (S n) ↔ is_Some (m !! a) ∧ mapped m (a + 1) n.
Proof.
  split.
  - intros H. split.
    + replace a with (a + 0) by lia. apply H. lia.
    + intros i Hi. replace (a + 1 + i) with (a + (i + 1)) by lia. apply H. lia.
  - intros [H0 H] i Hi. destruct (decide (i = 0)) as [->|].
    + by rewrite Z.add_0_r.
    + replace (a + i) with (a + 1 + (i - 1)) by lia. apply H. lia.
Qed.

Lemma bytes_at_mapped m a l : bytes_at m a l → mapped m a (length l).
Proof.
  revert a. induction l as [|b l IH]; intros a.
  - intros _ i Hi. cbn in Hi. lia.
  - intros [H0 H]. apply mapped_cons. split; [by rewrite H0|by apply IH].
Qed.

Lemma mapped_size m a n : mapped m a n → (n ≤ size m)%nat.
Proof.
  intros Hm.
  assert (list_to_set (C := gset Z) (seqZ a n) ⊆ dom m) as Hsub.
  { intros x Hx. apply elem_of_list_to_set, elem_of_seqZ in Hx.
    apply elem_of_dom. replace x with (a + (x - a)) by lia. apply Hm. lia. }
  apply subseteq_size in Hsub. rewrite size_dom in Hsub.
  rewrite size_list_to_set in Hsub by apply NoDup_seqZ.
  rewrite length_seqZ in Hsub. lia.
Qed.

Lemma bytes_at_size m a l : bytes_at m a l → (length l ≤ size m)%nat.
Proof. intros H. by eapply mapped_size, bytes_at_mapped. Qed.

Lemma size_insert_mapped (m : mem) a v : is_Some (m !! a) → size (<[a := v]> m) = size m.
Proof. intros [x Hx]. by eapply map_size_insert_Some. Qed.

(** ** Strings *)

Lemma cstr_cons m a b s : cstr m a (b :: s) ↔ m !! a = Some b ∧ 0 < b < 256 ∧ cstr m (a + 1) s.
Proof. unfold cstr. cbn. rewrite Forall_cons. tauto. Qed.

Lemma cstr_nil m a : cstr m a [] ↔ m !! a = Some 0.
Proof.
  unfold cstr. cbn. split; [tauto|]. intros H. split; [by split|constructor].
Qed.

Lemma cstr_size m a s : cstr m a s → (S (length s) ≤ size m)%nat.
Proof. intros [H _]. apply bytes_at_size in H. rewrite length_app in H. cbn in H. lia. Qed.

Lemma cstr_app m a s1 s2 : cstr m a (s1 ++ s2) → cstr m (a + length s1) s2.
Proof.
  unfold cstr. rewrite <- (assoc_L (++)), bytes_at_app, Forall_app. tauto.
Qed.

Lemma cstr_prefix m a s1 s2 : cstr m a (s1 ++ s2) → bytes_at m a s1.
Proof. unfold cstr. rewrite <- (assoc_L (++)), bytes_at_app. tauto. Qed.

Lemma cstr_bytes m a s : cstr m a s → bytes_at m a s.
Proof. intros [H _]. by apply bytes_at_app in H as [??]. Qed.

Lemma cstr_end m a s : cstr m a s → m !! (a + length s) = Some 0.
Proof. intros [H _]. apply bytes_at_app in H as [? [? ?]]. done. Qed.

Lemma cstr_unique m a s1 s2 : cstr m a s1 → cstr m a s2 → s1 = s2.
Proof.
  revert a s2. induction s1 as [|b s1 IH]; intros a [|c s2].
  - done.
  - rewrite cstr_nil, cstr_cons. intros ? (?&?&?). simplify_eq. lia.
  - rewrite cstr_nil, cstr_cons. intros (?&?&?) ?. simplify_eq. lia.
  - rewrite !cstr_cons. intros (?&?&?) (?&?&?). simplify_eq. f_equal. eauto.
Qed.

Lemma cstr_frame (m m' : mem) a s :
  (∀ x, a ≤ x < a + S (length s) → m' !! x = m !! x) → cstr m a s → cstr m' a s.
Proof.
  intros Hf [H ?]. split; [|done]. revert H. apply bytes_at_frame.
  intros x Hx. apply Hf. rewrite length_app in Hx. cbn in Hx. lia.
Qed.

(** A loaded [char] is zero only at the terminator. *)
Lemma s8_pos_neq b : 0 < b < 256 → s8 b ≠ 0.
Proof. intros Hb Hs. apply (proj1 (s8_0 b ltac:(lia))) in Hs. lia. Qed.

#[export] Hint Resolve cstr_bytes cstr_end bytes_at_mapped mapped_set mapped_insert : relix.
