(* ===== verification/CType.v ===== *)
(** * Character classes (lib/ctype.c)

    Both the kernel and the C library link this file.  The predicates return a
    C [int] that is only ever tested for being non-zero, a [bool] here. *)

From S2P Require Import Prelude.

Module CType.

Definition isdigit (c : Z) : bool := (48 <=? c) && (c <=? 57).

Definition isupper (c : Z) : bool := (65 <=? c) && (c <=? 90).

Definition islower (c : Z) : bool := (97 <=? c) && (c <=? 122).

Definition toupper (c : Z) : Z :=
  if (97 <=? c) && (c <=? 122) then c - 0x20
  else if (65 <=? c) && (c <=? 90) then c
  else c.

Definition tolower (c : Z) : Z :=
  if (65 <=? c) && (c <=? 90) then c + 0x20
  else if (97 <=? c) && (c <=? 122) then c
  else c.

Definition isxdigit (c : Z) : bool :=
  ((48 <=? c) && (c <=? 57)) || ((97 <=? tolower c) && (tolower c <=? 122)).

Definition isspace (c : Z) : bool :=
  (c =? 32) || (c =? 12) || (c =? 10) || (c =? 13) || (c =? 9) || (c =? 11).

Definition isalpha (c : Z) : bool := islower c || isupper c.

Definition isgraph (c : Z) : bool := (33 <=? c) && (c <=? 126).

Definition isprint (c : Z) : bool := isgraph c || (c =? 32).

Definition ispunct (c : Z) : bool :=
  ((33 <=? c) && (c <=? 47)) || ((58 <=? c) && (c <=? 64)) ||
  ((91 <=? c) && (c <=? 96)) || ((123 <=? c) && (c <=? 126)).

Definition isalnum (c : Z) : bool := isalpha c || isdigit c.

Definition iscntrl (c : Z) : bool := (c <=? 31) || (c =? 127).

Definition isblank (c : Z) : bool := (c =? 32) || (c =? 9).

Definition isascii (c : Z) : bool := c <=? 127.

(** What the two case mappings compute. *)
Lemma tolower_spec c :
  (65 ≤ c ≤ 90 ∧ tolower c = c + 32) ∨ (¬ 65 ≤ c ≤ 90 ∧ tolower c = c).
Proof. unfold tolower. repeat (zcase; cbn [andb]); lia. Qed.

Lemma toupper_spec c :
  (97 ≤ c ≤ 122 ∧ toupper c = c - 32) ∨ (¬ 97 ≤ c ≤ 122 ∧ toupper c = c).
Proof. unfold toupper. repeat (zcase; cbn [andb]); lia. Qed.

(** Case mapping is idempotent and the two directions agree on letters. *)
Lemma tolower_idem c : tolower (tolower c) = tolower c.
Proof. pose proof (tolower_spec c). pose proof (tolower_spec (tolower c)). lia. Qed.

Lemma tolower_toupper c : tolower (toupper c) = tolower c.
Proof.
  pose proof (tolower_spec c). pose proof (tolower_spec (toupper c)).
  pose proof (toupper_spec c). lia.
Qed.

(** The values an [unsigned char] or [EOF] can have. *)
Definition char_range : list Z := seqZ (-1) 257.

Lemma char_range_forall (f : Z → bool) :
  forallb f char_range = true → ∀ c, -1 ≤ c ≤ 255 → f c = true.
Proof.
  intros H c Hc. rewrite forallb_forall in H. apply H.
  apply list_elem_of_In, elem_of_seqZ. lia.
Qed.

End CType.
