(* ===== verification/KString.v ===== *)
(** * The kernel's string functions (kernel/kernel_string.c)

    Every function takes the memory it reads and, when it writes, returns the
    memory it leaves.  A loop that scans a string gets [fuel m] iterations:
    each one reads an address the previous ones have not read, so a scan that
    neither stops nor faults cannot be longer than the memory. *)

From S2P Require Import Prelude Mem CType.

Module KString.

(** ** strcpy, strlen, comparison *)

Fixpoint strcpy_loop (n : nat) (m : mem) (s t : Z) : res mem :=
  match n with
  | O => Err EFuel
  | S n =>
      c ← load m t;
      m ← store m s c;
      if c =? 0 then mret m else strcpy_loop n m (s + 1) (t + 1)
  end.

Definition strcpy (m : mem) (s t : Z) : res (Z * mem) :=
  m' ← strcpy_loop (fuel m) m s t;
  mret (s, m').

(** [int n; for (n = 0; s[n]; n++);]: the counter is an [int]. *)
Fixpoint strlen_loop (k : nat) (m : mem) (s n : Z) : res Z :=
  match k with
  | O => Err EFuel
  | S k =>
      c ← load m (s + n);
      if c =? 0 then mret n
      else if INT_MAX <=? n then Err EFault
      else strlen_loop k m s (n + 1)
  end.

Definition strlen (m : mem) (s : Z) : res Z :=
  n ← strlen_loop (fuel m) m s 0;
  mret (u64 n).

Fixpoint strncmp_loop (k : nat) (m : mem) (p q n : Z) : res Z :=
  match k with
  | O => Err EFuel
  | S k =>
      if n =? 0 then mret 0
      else
        a ← load m p;
        if a =? 0 then b ← load m q; mret (a - b)
        else
          b ← load m q;
          if a =? b then strncmp_loop k m (p + 1) (q + 1) (n - 1)
          else mret (a - b)
  end.

Definition strncmp (m : mem) (p q n : Z) : res Z := strncmp_loop (fuel m) m p q n.

Definition strcmp (m : mem) (p q : Z) : res Z :=
  np ← strlen m p;
  nq ← strlen m q;
  strncmp m p q (u64 ((if np <? nq then np else nq) + 1)).

Fixpoint strncasecmp_loop (k : nat) (m : mem) (p q n : Z) : res Z :=
  match k with
  | O => Err EFuel
  | S k =>
      if n =? 0 then mret 0
      else
        a ← load m p;
        if a =? 0 then b ← load m q; mret (a - b)
        else
          b ← load m q;
          if CType.tolower (s8 a) =? CType.tolower (s8 b)
          then strncasecmp_loop k m (p + 1) (q + 1) (n - 1)
          else mret (a - b)
  end.

Definition strncasecmp (m : mem) (p q n : Z) : res Z :=
  strncasecmp_loop (fuel m) m p q n.

Definition strcasecmp (m : mem) (p q : Z) : res Z :=
  np ← strlen m p;
  nq ← strlen m q;
  strncasecmp m p q (if np <? nq then np else nq).

Fixpoint strnlen_loop (k : nat) (m : mem) (s size n : Z) : res Z :=
  match k with
  | O => Err EFuel
  | S k =>
      if negb (n <? size) then mret n
      else if s =? NULL then mret n
      else
        c ← load m (s + n);
        if c =? 0 then mret n else strnlen_loop k m s size (n + 1)
  end.

Definition strnlen (m : mem) (s size : Z) : res Z := strnlen_loop (fuel m) m s size 0.

(** ** Searching.  Pointers that may be [NULL] are addresses with [NULL = 0]. *)

(** The inner [while ( *p2 != '\0' && *p1 == *p2)]: where [p2] stops. *)
Fixpoint strstr_match (k : nat) (m : mem) (p1 p2 : Z) : res Z :=
  match k with
  | O => Err EFuel
  | S k =>
      b ← load m p2;
      if b =? 0 then mret p2
      else
        a ← load m p1;
        if a =? b then strstr_match k m (p1 + 1) (p2 + 1) else mret p2
  end.

Fixpoint strstr_loop (k : nat) (m : mem) (s1 s2 : Z) : res Z :=
  match k with
  | O => Err EFuel
  | S k =>
      c ← load m s1;
      if c =? 0 then mret NULL
      else
        p2 ← strstr_match (fuel m) m s1 s2;
        e ← load m p2;
        if e =? 0 then mret s1 else strstr_loop k m (s1 + 1) s2
  end.

Definition strstr (m : mem) (s1 s2 : Z) : res Z := strstr_loop (fuel m) m s1 s2.

(** [*s == c] compares a (signed) [char] with the [int] the caller passed. *)
Fixpoint strchr_loop (k : nat) (m : mem) (s c : Z) : res Z :=
  match k with
  | O => Err EFuel
  | S k =>
      x ← loadc m s;
      if x =? 0 then mret NULL
      else if x =? c then mret s
      else strchr_loop k m (s + 1) c
  end.

Definition strchr (m : mem) (s c : Z) : res Z := strchr_loop (fuel m) m s c.

(** [for (int i = strlen(s) - 1; i >= 0; i--)], [i + 1] as the structure. *)
Fixpoint strrchr_loop (i : nat) (m : mem) (s c : Z) : res Z :=
  match i with
  | O => mret NULL
  | S i =>
      x ← loadc m (s + Z.of_nat i);
      if x =? c then mret (s + Z.of_nat i) else strrchr_loop i m s c
  end.

Definition strrchr (m : mem) (s c : Z) : res Z :=
  n ← strlen m s;
  strrchr_loop (Z.to_nat (s32 (n - 1) + 1)) m s c.

(** The inner [while ( *p )] of strcspn, strspn and strpbrk: does [set]
    contain [c]? *)
Fixpoint in_set (k : nat) (m : mem) (c set : Z) : res bool :=
  match k with
  | O => Err EFuel
  | S k =>
      x ← load m set;
      if x =? 0 then mret false
      else if c =? x then mret true
      else in_set k m c (set + 1)
  end.

Fixpoint strcspn_loop (k : nat) (m : mem) (s1 s2 len : Z) : res Z :=
  match k with
  | O => Err EFuel
  | S k =>
      c ← load m (s1 + len);
      if c =? 0 then mret len
      else
        found ← in_set (fuel m) m c s2;
        if (found : bool) then mret len else strcspn_loop k m s1 s2 (len + 1)
  end.

Definition strcspn (m : mem) (s1 s2 : Z) : res Z := strcspn_loop (fuel m) m s1 s2 0.

Fixpoint strspn_loop (k : nat) (m : mem) (s1 s2 len : Z) : res Z :=
  match k with
  | O => Err EFuel
  | S k =>
      c ← load m (s1 + len);
      if c =? 0 then mret len
      else
        found ← in_set (fuel m) m c s2;
        if (found : bool) then strspn_loop k m s1 s2 (len + 1) else mret len
  end.

Definition strspn (m : mem) (s1 s2 : Z) : res Z := strspn_loop (fuel m) m s1 s2 0.

Fixpoint strpbrk_loop (k : nat) (m : mem) (p1 s2 : Z) : res Z :=
  match k with
  | O => Err EFuel
  | S k =>
      c ← load m p1;
      if c =? 0 then mret NULL
      else
        found ← in_set (fuel m) m c s2;
        if (found : bool) then mret p1 else strpbrk_loop k m (p1 + 1) s2
  end.

Definition strpbrk (m : mem) (s1 s2 : Z) : res Z := strpbrk_loop (fuel m) m s1 s2.

(** ** Copying *)

Fixpoint strncpy_pad (n : nat) (m : mem) (dst : Z) : res mem :=
  match n with
  | O => mret m
  | S n => m ← store m dst 0; strncpy_pad n m (dst + 1)
  end.

Fixpoint strncpy_loop (n : nat) (m : mem) (dst src : Z) : res mem :=
  match n with
  | O => mret m
  | S n' =>
      c ← load m src;
      if c =? 0 then strncpy_pad n m dst
      else m ← store m dst c; strncpy_loop n' m (dst + 1) (src + 1)
  end.

Definition strncpy (m : mem) (dst src n : Z) : res (Z * mem) :=
  m' ← strncpy_loop (Z.to_nat n) m dst src;
  mret (dst, m').

(** [n] is a [size_t], and [n--] in a failing test still decrements it: after
    the first loop has copied [n] bytes without meeting a NUL it is [SIZE_MAX]. *)
Fixpoint stpncpy_copy (k : nat) (m : mem) (dst src n : Z) : res (Z * Z * mem) :=
  match k with
  | O => Err EFuel
  | S k =>
      if 0 <? n then
        c ← load m src;
        m ← store m dst c;
        if c =? 0 then mret (dst + 1, u64 (n - 1), m)
        else stpncpy_copy k m (dst + 1) (src + 1) (u64 (n - 1))
      else mret (dst, u64 (n - 1), m)
  end.

Fixpoint stpncpy_pad (k : nat) (m : mem) (dst n : Z) : res (Z * mem) :=
  match k with
  | O => Err EFuel
  | S k =>
      if 1 <? n then m ← store m dst 0; stpncpy_pad k m (dst + 1) (u64 (n - 1))
      else mret (dst, m)
  end.

Definition stpncpy (m : mem) (dst src n : Z) : res (Z * mem) :=
  '(dst, n, m) ← stpncpy_copy (fuel m) m dst src n;
  stpncpy_pad (fuel m) m dst n.

(** The loop of [strtok]: advance while the membership of the current
    character in [delimeter] is [want]. *)
Fixpoint strtok_skip (k : nat) (m : mem) (want : bool) (tok delim : Z) : res Z :=
  match k with
  | O => Err EFuel
  | S k =>
      c ← loadc m tok;
      if c =? 0 then mret tok
      else
        p ← strchr m delim c;
        if Bool.eqb (negb (p =? NULL)) want then strtok_skip k m want (tok + 1) delim
        else mret tok
  end.

(** [tok] is the static [__strtok_token]; the result is the returned pointer,
    the new [__strtok_token] and the memory. *)
Definition strtok (m : mem) (tok str delim : Z) : res (Z * Z * mem) :=
  let tok := if str =? NULL then tok else str in
  if tok =? NULL then mret (NULL, tok, m)
  else
    tok ← strtok_skip (fuel m) m true tok delim;
    c ← load m tok;
    if c =? 0 then mret (NULL, tok, m)
    else
      let start := tok in
      tok ← strtok_skip (fuel m) m false tok delim;
      c ← load m tok;
      if c =? 0 then mret (start, tok, m)
      else m ← store m tok 0; mret (start, tok + 1, m).

(** ** Block operations *)

(** [rep stosb] and [rep stosl]: the count register is loaded from an [int]. *)
Fixpoint rep_stosb (cnt : nat) (m : mem) (a data : Z) : res mem :=
  match cnt with
  | O => mret m
  | S cnt => m ← store m a data; rep_stosb cnt m (a + 1) data
  end.

Fixpoint rep_stosl (cnt : nat) (m : mem) (a data : Z) : res mem :=
  match cnt with
  | O => mret m
  | S cnt =>
      m ← store m a data;
      m ← store m (a + 1) (Z.shiftr data 8);
      m ← store m (a + 2) (Z.shiftr data 16);
      m ← store m (a + 3) (Z.shiftr data 24);
      rep_stosl cnt m (a + 4) data
  end.

Definition stosb (m : mem) (a data cnt : Z) : res mem :=
  rep_stosb (Z.to_nat (u32 cnt)) m a data.

Definition stosl (m : mem) (a data cnt : Z) : res mem :=
  rep_stosl (Z.to_nat (u32 cnt)) m a data.

Definition memset (m : mem) (dst c n : Z) : res (Z * mem) :=
  m' ← (if (dst mod 4 =? 0) && (n mod 4 =? 0) then
          let c := Z.land c 0xFF in
          stosl m dst
            (Z.lor (Z.lor (Z.lor (Z.shiftl c 24) (Z.shiftl c 16)) (Z.shiftl c 8)) c)
            (n / 4)
        else stosb m dst c n);
  mret (dst, m').

Fixpoint memcmp_loop (n : nat) (m : mem) (dst s2 : Z) : res Z :=
  match n with
  | O => mret 0
  | S n =>
      a ← load m dst;
      b ← load m s2;
      if a =? b then memcmp_loop n m (dst + 1) (s2 + 1) else mret (a - b)
  end.

Definition memcmp (m : mem) (v1 v2 n : Z) : res Z := memcmp_loop (Z.to_nat n) m v1 v2.

Definition bcmp (m : mem) (v1 v2 n : Z) : res Z := memcmp m v1 v2 n.

(** [while (n--) *dest++ = *source++] *)
Fixpoint copy_forward (n : nat) (m : mem) (dest source : Z) : res mem :=
  match n with
  | O => mret m
  | S n => c ← load m source; m ← store m dest c; copy_forward n m (dest + 1) (source + 1)
  end.

(** [while (n--) *--dest = *--source], from the ends of the two ranges. *)
Fixpoint copy_backward (n : nat) (m : mem) (dest source : Z) : res mem :=
  match n with
  | O => mret m
  | S n =>
      c ← load m (source - 1);
      m ← store m (dest - 1) c;
      copy_backward n m (dest - 1) (source - 1)
  end.

Definition memmove (m : mem) (dst src n : Z) : res (Z * mem) :=
  if (dst =? src) || (n =? 0) then mret (dst, m)
  else if dst =? NULL then mret (NULL, m)
  else if dst <? src then m' ← copy_forward (Z.to_nat n) m dst src; mret (dst, m')
  else m' ← copy_backward (Z.to_nat n) m (dst + n) (src + n); mret (dst, m').

(** [rep movsq] moves eight bytes per iteration, [rep movsb] one; both return
    the advanced destination. *)
Fixpoint load_bytes (k : nat) (m : mem) (a : Z) : res (list Z) :=
  match k with
  | O => mret []
  | S k => b ← load m a; l ← load_bytes k m (a + 1); mret (b :: l)
  end.

Fixpoint store_bytes (l : list Z) (m : mem) (a : Z) : res mem :=
  match l with
  | [] => mret m
  | b :: l => m ← store m a b; store_bytes l m (a + 1)
  end.

Fixpoint rep_movsq (cnt : nat) (m : mem) (dst src : Z) : res (Z * mem) :=
  match cnt with
  | O => mret (dst, m)
  | S cnt =>
      q ← load_bytes 8 m src;
      m ← store_bytes q m dst;
      rep_movsq cnt m (dst + 8) (src + 8)
  end.

Fixpoint rep_movsb (cnt : nat) (m : mem) (dst src : Z) : res (Z * mem) :=
  match cnt with
  | O => mret (dst, m)
  | S cnt => c ← load m src; m ← store m dst c; rep_movsb cnt m (dst + 1) (src + 1)
  end.

Definition memcpy (m : mem) (dst src n : Z) : res (Z * mem) :=
  '(d, m') ← (if n mod 8 =? 0 then rep_movsq (Z.to_nat (n / 8)) m dst src
              else rep_movsb (Z.to_nat (n / 1)) m dst src);
  mret (d - n, m').

Definition mempcpy (m : mem) (dst src n : Z) : res (Z * mem) :=
  '(d, m') ← memcpy m dst src n;
  mret (d + n, m').

Definition stpcpy (m : mem) (dst src : Z) : res (Z * mem) :=
  n ← strlen m src;
  '(p, m) ← mempcpy m dst src n;
  m ← store m p 0;
  mret (p, m).

Definition strcat (m : mem) (dst src : Z) : res (Z * mem) :=
  n ← strlen m dst;
  '(_, m) ← stpcpy m (dst + n) src;
  mret (dst, m).

Definition strncat (m : mem) (dst src n : Z) : res (Z * mem) :=
  start ← strlen m dst;
  m' ← copy_forward (Z.to_nat (u64 (start + n) - start)) m (dst + start) src;
  mret (dst, m').

Fixpoint safestrcpy_loop (n : nat) (m : mem) (s t : Z) : res (Z * mem) :=
  match n with
  | O => mret (s, m)
  | S n =>
      c ← load m t;
      m ← store m s c;
      if c =? 0 then mret (s + 1, m) else safestrcpy_loop n m (s + 1) (t + 1)
  end.

Definition __safestrcpy (m : mem) (s t n : Z) : res (Z * mem) :=
  if n <=? 0 then mret (s, m)
  else
    '(s', m) ← safestrcpy_loop (Z.to_nat (n - 1)) m s t;
    m ← store m s' 0;
    mret (s, m).

Definition __strlcpy_nostrlen (m : mem) (dst src dst_len src_len : Z) : res (Z * mem) :=
  __safestrcpy m dst src (if dst_len <? src_len then dst_len else src_len).

(** ** Scans: what they return on a string, for any memory that holds it *)

Lemma strlen_loop_spec k m s x n :
  cstr m (s + n) x → 0 ≤ n → n + length x ≤ INT_MAX → (length x < k)%nat →
  strlen_loop k m s n = Ok (n + length x).
Proof.
  revert n k. induction x as [|c x IH]; intros n [|k] Hx Hn Hl Hk; cbn in Hk; try lia; cbn.
  - apply cstr_nil in Hx. rewrite (load_bind _ _ _ _ Hx). cbn.
    unfold mret, res_ret. f_equal. lia.
  - apply cstr_cons in Hx as (Hc & ? & Hx). rewrite (load_bind _ _ _ _ Hc).
    cbn [length] in Hl.
    rewrite (proj2 (Z.eqb_neq c 0)), (proj2 (Z.leb_gt _ n)) by lia.
    rewrite IH; [f_equal; lia | by rewrite Z.add_assoc | lia..].
Qed.

Lemma strlen_ok m s x :
  cstr m s x → length x ≤ INT_MAX → strlen m s = Ok (Z.of_nat (length x)).
Proof.
  intros Hx Hl. unfold strlen. pose proof (cstr_size _ _ _ Hx).
  rewrite (strlen_loop_spec _ _ _ x); [|by rewrite Z.add_0_r|lia|lia|unfold fuel; lia].
  cbn. unfold mret, res_ret. f_equal. apply wrap_small. unfold INT_MAX in Hl. lia.
Qed.

(** The comparison [strncmp] performs, on lists: the difference of the first
    pair of bytes that differ, with the terminator as a zero. *)
Fixpoint cmp_spec (n : nat) (x y : list Z) : Z :=
  match n with
  | O => 0
  | S n =>
      match x, y with
      | [], [] => 0
      | [], b :: _ => 0 - b
      | a :: _, [] => a - 0
      | a :: x, b :: y => if a =? b then cmp_spec n x y else a - b
      end
  end.

Lemma strncmp_loop_spec k m p q n x y :
  cstr m p x → cstr m q y → 0 ≤ n → (length x < k)%nat →
  strncmp_loop k m p q n = Ok (cmp_spec (Z.to_nat n) x y).
Proof.
  revert p q n y k. induction x as [|a x IH]; intros p q n y [|k] Hx Hy Hn Hk; cbn in Hk; try lia.
  - cbn [strncmp_loop]. destruct (Z.eqb_spec n 0) as [->|]; [done|].
    destruct (Z.to_nat n) eqn:En; [lia|]. apply cstr_nil in Hx.
    rewrite (load_bind _ _ _ _ Hx). cbn [Z.eqb].
    destruct y as [|b y].
    + apply cstr_nil in Hy. by rewrite (load_bind _ _ _ _ Hy).
    + apply cstr_cons in Hy as (Hb & _ & _). by rewrite (load_bind _ _ _ _ Hb).
  - cbn [strncmp_loop]. destruct (Z.eqb_spec n 0) as [->|]; [done|].
    destruct (Z.to_nat n) eqn:En; [lia|].
    apply cstr_cons in Hx as (Ha & ? & Hx). rewrite (load_bind _ _ _ _ Ha).
    rewrite (proj2 (Z.eqb_neq a 0)) by lia. destruct y as [|b y].
    + apply cstr_nil in Hy. rewrite (load_bind _ _ _ _ Hy).
      by rewrite (proj2 (Z.eqb_neq a 0)) by lia.
    + apply cstr_cons in Hy as (Hb & ? & Hy). rewrite (load_bind _ _ _ _ Hb). cbn.
      destruct (a =? b); [|done].
      rewrite (IH _ _ _ y); [|done..|lia|lia]. do 2 f_equal. lia.
Qed.

Lemma strncmp_ok m p q n x y :
  cstr m p x → cstr m q y → 0 ≤ n →
  strncmp m p q n = Ok (cmp_spec (Z.to_nat n) x y).
Proof.
  intros Hx Hy Hn. pose proof (cstr_size _ _ _ Hx).
  apply strncmp_loop_spec; auto. unfold fuel. lia.
Qed.

(** Beyond both terminators the bound no longer matters. *)
Lemma cmp_spec_stable n n' x y :
  (length x < n ∨ length y < n)%nat → (length x < n' ∨ length y < n')%nat →
  cmp_spec n x y = cmp_spec n' x y.
Proof.
  revert n' x y. induction n as [|n IH]; intros [|n'] [|a x] [|b y]; cbn; try lia.
  intros. destruct (a =? b); [|done]. apply IH; lia.
Qed.

Lemma cmp_spec_0_iff n x y :
  Forall (λ b, 0 < b < 256) x → Forall (λ b, 0 < b < 256) y →
  cmp_spec n x y = 0 ↔ take n x = take n y.
Proof.
  intros Hx Hy. revert x y Hx Hy.
  induction n as [|n IH]; intros [|a x] [|b y] Hx Hy; cbn; try done.
  - inversion_clear Hy. split; [lia|done].
  - inversion_clear Hx. split; [lia|done].
  - inversion_clear Hx. inversion_clear Hy. destruct (Z.eqb_spec a b) as [->|].
    + rewrite IH by done. split; [by intros ->|by intros [= ->]].
    + split; [lia|congruence].
Qed.

(** ** Block operations *)

(** Overwriting a byte outside a range leaves the range alone. *)
Lemma bytes_at_insert m x v a l :
  x < a ∨ a + length l ≤ x → bytes_at m a l → bytes_at (<[x := v]> m) a l.
Proof.
  intros Hx. apply bytes_at_frame. intros y Hy. apply lookup_insert_ne. lia.
Qed.

Lemma copy_forward_ok l m dst src :
  bytes_at m src l → Forall byte_ok l → mapped m dst (length l) →
  dst ≤ src ∨ src + length l ≤ dst →
  copy_forward (length l) m dst src = Ok (set_bytes m dst l).
Proof.
  revert m dst src. induction l as [|c l IH]; intros m dst src Hl Hb Hm Hd; [done|].
  cbn [length copy_forward] in *. destruct Hl as [Hc Hl].
  apply Forall_cons in Hb as [? Hb]. apply mapped_cons in Hm as [? Hm].
  rewrite (load_bind _ _ _ _ Hc), store_bind by done.
  apply IH; [|done|by apply mapped_insert|lia].
  apply bytes_at_insert; [lia|done].
Qed.

Lemma copy_backward_ok l m dst src :
  bytes_at m src l → Forall byte_ok l → mapped m dst (length l) → src ≤ dst →
  copy_backward (length l) m (dst + length l) (src + length l) = Ok (set_bytes m dst l).
Proof.
  revert m. induction l as [|c l IH] using rev_ind; intros m Hl Hb Hm Hd; [done|].
  rewrite length_app, Nat.add_1_r in *. cbn [copy_backward].
  apply bytes_at_app in Hl as [Hl [Hc _]]. apply Forall_app in Hb as [Hb Hbc].
  apply Forall_cons in Hbc as [? _].
  replace (src + S (length l) - 1) with (src + length l) by lia.
  replace (dst + S (length l) - 1) with (dst + length l) by lia.
  rewrite (load_bind _ _ _ _ Hc), store_bind by (done || apply Hm; lia).
  rewrite IH; [|apply bytes_at_insert; [lia|done]|done| |done].
  - rewrite <- insert_set_bytes by lia. by rewrite set_bytes_app.
  - apply mapped_insert. intros i Hi. apply Hm. lia.
Qed.

Lemma memmove_ok m dst src l :
  bytes_at m src l → Forall byte_ok l → mapped m dst (length l) → dst ≠ NULL →
  memmove m dst src (length l) = Ok (dst, set_bytes m dst l).
Proof.
  intros Hl Hb Hm Hnull. unfold memmove. rewrite Nat2Z.id.
  destruct (Z.eqb_spec dst src) as [->|Hne]; [by rewrite set_bytes_self|].
  destruct (Z.eqb_spec (length l) 0) as [He|_]; cbn [orb].
  { destruct l; [done|cbn in He; lia]. }
  rewrite (proj2 (Z.eqb_neq dst NULL)) by done.
  destruct (Z.ltb_spec dst src).
  - rewrite copy_forward_ok by (done || lia). done.
  - rewrite copy_backward_ok by (done || lia). done.
Qed.

Lemma load_bytes_ok m a l : bytes_at m a l → load_bytes (length l) m a = Ok l.
Proof.
  revert a. induction l as [|b l IH]; intros a; [done|]. intros [Hb Hl]. cbn.
  rewrite (load_bind _ _ _ _ Hb), IH by done. done.
Qed.

Lemma store_bytes_ok m a l :
  mapped m a (length l) → Forall byte_ok l → store_bytes l m a = Ok (set_bytes m a l).
Proof.
  revert m a. induction l as [|b l IH]; intros m a Hm Hb; [done|]. cbn [store_bytes length] in *.
  apply mapped_cons in Hm as [? Hm]. apply Forall_cons in Hb as [? Hb].
  rewrite store_bind by done. apply IH; [by apply mapped_insert|done].
Qed.

Lemma rep_movsb_ok l m dst src :
  bytes_at m src l → Forall byte_ok l → mapped m dst (length l) →
  disjoint dst (length l) src (length l) →
  rep_movsb (length l) m dst src = Ok (dst + length l, set_bytes m dst l).
Proof.
  revert m dst src. induction l as [|c l IH]; intros m dst src Hl Hb Hm Hd.
  { cbn. by rewrite Z.add_0_r. }
  unfold disjoint in *. cbn [length rep_movsb] in *. destruct Hl as [Hc Hl].
  apply Forall_cons in Hb as [? Hb]. apply mapped_cons in Hm as [? Hm].
  rewrite (load_bind _ _ _ _ Hc), store_bind by done.
  rewrite IH; [do 2 f_equal; lia| |done|by apply mapped_insert|unfold disjoint; lia].
  apply bytes_at_insert; [lia|done].
Qed.

Lemma rep_movsq_ok k l m dst src :
  length l = (8 * k)%nat → bytes_at m src l → Forall byte_ok l → mapped m dst (length l) →
  disjoint dst (length l) src (length l) →
  rep_movsq k m dst src = Ok (dst + length l, set_bytes m dst l).
Proof.
  revert l m dst src. induction k as [|k IH]; intros l m dst src Hk Hl Hb Hm Hd.
  { destruct l; [|cbn in Hk; lia]. cbn. by rewrite Z.add_0_r. }
  assert (∃ q r, l = q ++ r ∧ length q = 8%nat) as (q & r & -> & Hq).
  { exists (take 8 l), (drop 8 l). rewrite take_drop, length_take. split; [done|lia]. }
  rewrite length_app, Hq in *. cbn [rep_movsq].
  apply bytes_at_app in Hl as [Hql Hrl]. apply Forall_app in Hb as [Hqb Hrb].
  rewrite <- Hq at 1. rewrite load_bytes_ok by done. cbn [mbind res_bind].
  rewrite store_bytes_ok by (done || intros i Hi; apply Hm; lia). cbn [mbind res_bind].
  rewrite Hq in Hrl. unfold disjoint in *. rewrite (IH r).
  - rewrite set_bytes_app, Hq. do 2 f_equal. lia.
  - lia.
  - apply bytes_at_set_ne; [unfold disjoint; rewrite Hq; lia|done].
  - done.
  - apply mapped_set. intros i Hi. replace (dst + 8 + i) with (dst + (8 + i)) by lia.
    apply Hm. lia.
  - unfold disjoint. lia.
Qed.

Lemma memcpy_ok m dst src l :
  bytes_at m src l → Forall byte_ok l → mapped m dst (length l) →
  disjoint dst (length l) src (length l) →
  memcpy m dst src (length l) = Ok (dst, set_bytes m dst l).
Proof.
  intros Hl Hb Hm Hd. unfold memcpy. rewrite Z.div_1_r, Nat2Z.id.
  destruct (Z.eqb_spec (length l mod 8) 0) as [E|].
  - pose proof (Z.div_mod (length l) 8 ltac:(lia)). pose proof (Z.div_pos (length l) 8).
    rewrite (rep_movsq_ok _ l); [|lia|done..]. cbn. do 2 f_equal. lia.
  - rewrite rep_movsb_ok by done. cbn. do 2 f_equal. lia.
Qed.

Lemma rep_stosb_ok n m a c :
  mapped m a n → rep_stosb n m a c = Ok (set_bytes m a (replicate n (u8 c))).
Proof.
  revert m a. induction n as [|n IH]; intros m a Hm; [done|]. cbn [rep_stosb replicate set_bytes].
  apply mapped_cons in Hm as [[x Hx] Hm]. unfold store at 1. rewrite Hx. cbn.
  apply IH. by apply mapped_insert.
Qed.

Lemma rep_stosl_ok n m a c d :
  mapped m a (4 * n) → (∀ k, 0 ≤ k < 4 → u8 (Z.shiftr d (8 * k)) = c) →
  rep_stosl n m a d = Ok (set_bytes m a (replicate (4 * n) c)).
Proof.
  intros Hm Hd.
  assert (∀ k, 0 ≤ k < 4 → ∀ (m : mem) x, is_Some (m !! x) →
    store m x (Z.shiftr d (8 * k)) = Ok (<[x := c]> m)) as Hst.
  { intros k Hk m' x [v Hv]. unfold store. rewrite Hv. by rewrite Hd. }
  pose proof (Hst 0 ltac:(lia)) as H0. pose proof (Hst 1 ltac:(lia)) as H1.
  pose proof (Hst 2 ltac:(lia)) as H2. pose proof (Hst 3 ltac:(lia)) as H3.
  rewrite Z.shiftr_0_r in H0. cbn [Z.mul Pos.mul] in *. clear Hst Hd.
  revert m a Hm. induction n as [|n IH]; intros m a Hm; [done|].
  replace (4 * S n)%nat with (S (S (S (S (4 * n))))) in * by lia.
  cbn [rep_stosl replicate set_bytes].
  apply mapped_cons in Hm as [Ha Hm]. apply mapped_cons in Hm as [Hb Hm].
  apply mapped_cons in Hm as [Hc Hm]. apply mapped_cons in Hm as [Hd Hm].
  replace (a + 1 + 1) with (a + 2) in * by lia. replace (a + 2 + 1) with (a + 3) in * by lia.
  replace (a + 3 + 1) with (a + 4) in * by lia.
  rewrite H0 by done. cbn [mbind res_bind].
  rewrite H1 by (rewrite lookup_insert_ne by lia; done). cbn [mbind res_bind].
  rewrite H2 by (rewrite !lookup_insert_ne by lia; done). cbn [mbind res_bind].
  rewrite H3 by (rewrite !lookup_insert_ne by lia; done). cbn [mbind res_bind].
  apply IH. by repeat apply mapped_insert.
Qed.

(** The pattern [memset] stores with [stosl] holds the byte four times. *)
Lemma memset_pattern c k :
  0 ≤ k < 4 →
  u8 (Z.shiftr (Z.lor (Z.lor (Z.lor (Z.shiftl (Z.land c 0xFF) 24) (Z.shiftl (Z.land c 0xFF) 16))
    (Z.shiftl (Z.land c 0xFF) 8)) (Z.land c 0xFF)) (8 * k)) = u8 c.
Proof.
  intros Hk. change 0xFF with (Z.ones 8). rewrite Z.land_ones by lia. fold (u8 c).
  pose proof (wrap_range 8 c ltac:(lia)) as Hr. change (2 ^ 8) with 256 in Hr.
  set (P := λ x k : Z, u8 (Z.shiftr (Z.lor (Z.lor (Z.lor (Z.shiftl x 24) (Z.shiftl x 16))
    (Z.shiftl x 8)) x) (8 * k)) =? x).
  assert (forallb (λ x, forallb (P x) (seqZ 0 4)) (seqZ 0 256) = true) as H by (vm_compute; reflexivity).
  rewrite forallb_forall in H. specialize (H (u8 c)).
  rewrite forallb_forall in H. apply Z.eqb_eq, H; apply list_elem_of_In, elem_of_seqZ; lia.
Qed.

Lemma memset_ok m dst c (n : nat) :
  mapped m dst n → n < 2 ^ 32 →
  memset m dst c n = Ok (dst, set_bytes m dst (replicate n (u8 c))).
Proof.
  intros Hm Hn. unfold memset.
  destruct (Z.eqb_spec (dst mod 4) 0), (Z.eqb_spec (n mod 4) 0) as [E|]; cbn [andb];
    try (unfold stosb; rewrite wrap_small, Nat2Z.id by lia; by rewrite rep_stosb_ok by done).
  pose proof (Z.div_mod n 4 ltac:(lia)). pose proof (Z.div_pos n 4).
  unfold stosl. rewrite wrap_small by lia.
  replace n with (4 * Z.to_nat (n / 4))%nat in Hm |- * at 2 by lia.
  rewrite (rep_stosl_ok _ _ _ (u8 c)); [done|done|]. apply memset_pattern.
Qed.

(** ** Bounded copies *)

Lemma strncpy_pad_ok n m dst :
  mapped m dst n → strncpy_pad n m dst = Ok (set_bytes m dst (replicate n 0)).
Proof.
  revert m dst. induction n as [|n IH]; intros m dst Hm; [done|]. cbn [strncpy_pad replicate].
  apply mapped_cons in Hm as [? Hm]. rewrite store_bind by (done || lia).
  apply IH. by apply mapped_insert.
Qed.

Lemma cstr_insert m x v a s :
  x < a ∨ a + length s < x → cstr m a s → cstr (<[x := v]> m) a s.
Proof. intros Hx. apply cstr_frame. intros y Hy. apply lookup_insert_ne. lia. Qed.

Lemma strncpy_loop_ok n m dst src x :
  cstr m src x → mapped m dst n → disjoint dst n src (S (length x)) →
  strncpy_loop n m dst src = Ok (set_bytes m dst (take n (x ++ replicate n 0))).
Proof.
  revert m dst src x. induction n as [|n IH]; intros m dst src x Hx Hm Hd; [by rewrite take_0|].
  cbn [strncpy_loop]. destruct x as [|c x].
  - apply cstr_nil in Hx. rewrite (load_bind _ _ _ _ Hx). cbn [Z.eqb app].
    rewrite strncpy_pad_ok by done. by rewrite take_ge by (rewrite length_replicate; lia).
  - apply cstr_cons in Hx as (Hc & ? & Hx). rewrite (load_bind _ _ _ _ Hc).
    rewrite (proj2 (Z.eqb_neq c 0)) by lia.
    apply mapped_cons in Hm as [? Hm]. rewrite store_bind by (done || lia).
    unfold disjoint in *. cbn [length] in Hd.
    rewrite (IH _ _ _ x); [|apply cstr_insert; [lia|done]|by apply mapped_insert|unfold disjoint; lia].
    cbn [app take set_bytes]. do 2 f_equal.
    rewrite !take_app, !take_replicate. do 2 f_equal. lia.
Qed.

Lemma strncpy_ok m dst src (n : nat) x :
  cstr m src x → mapped m dst n → disjoint dst n src (S (length x)) →
  strncpy m dst src n = Ok (dst, set_bytes m dst (take n (x ++ replicate n 0))).
Proof. intros. unfold strncpy. rewrite Nat2Z.id, (strncpy_loop_ok _ _ _ _ x) by done. done. Qed.

Lemma safestrcpy_loop_ok n m s t x :
  cstr m t x → mapped m s n → disjoint s n t (S (length x)) →
  safestrcpy_loop n m s t =
    Ok (s + Z.min n (S (length x)), set_bytes m s (take n (x ++ [0]))).
Proof.
  revert m s t x. induction n as [|n IH]; intros m s t x Hx Hm Hd.
  { rewrite take_0. cbn. do 2 f_equal. lia. }
  cbn [safestrcpy_loop]. apply mapped_cons in Hm as [? Hm]. destruct x as [|c x].
  - apply cstr_nil in Hx. rewrite (load_bind _ _ _ _ Hx), store_bind by (done || lia).
    cbn [Z.eqb app take length]. rewrite take_nil. cbn [set_bytes].
    unfold mret, res_ret. do 2 f_equal. lia.
  - apply cstr_cons in Hx as (Hc & ? & Hx).
    rewrite (load_bind _ _ _ _ Hc), store_bind by (done || lia).
    rewrite (proj2 (Z.eqb_neq c 0)) by lia. unfold disjoint in *. cbn [length] in Hd.
    rewrite (IH _ _ _ x); [|apply cstr_insert; [lia|done]|by apply mapped_insert|unfold disjoint; lia].
    cbn [app take set_bytes length]. do 2 f_equal. lia.
Qed.

Lemma safestrcpy_ok m s t (n : nat) x :
  (0 < n)%nat → cstr m t x → mapped m s n → disjoint s n t (S (length x)) →
  __safestrcpy m s t n = Ok (s, set_bytes m s (take (n - 1) (x ++ [0]) ++ [0])).
Proof.
  intros Hn Hx Hm Hd. unfold __safestrcpy. unfold disjoint in Hd.
  rewrite (proj2 (Z.leb_gt _ 0)) by lia. replace (Z.to_nat (n - 1)) with (n - 1)%nat by lia.
  assert (mapped m s (n - 1)) by (intros i Hi; apply Hm; lia).
  rewrite (safestrcpy_loop_ok _ _ _ _ x) by (done || unfold disjoint; lia).
  cbn [mbind res_bind]. rewrite store_bind; [| |lia].
  - rewrite set_bytes_app. cbn [set_bytes]. do 3 f_equal.
    rewrite length_take, length_app. cbn [length]. lia.
  - apply mapped_set with (n := n); [done|]. lia.
Qed.

(** ** Tokens *)

Lemma strchr_loop_ok k m s c x :
  cstr m s x → 0 < c < 256 → 0 < s → (length x < k)%nat →
  ∃ p, strchr_loop k m s (s8 c) = Ok p ∧ (p ≠ NULL ↔ c ∈ x).
Proof.
  revert s k. induction x as [|b x IH]; intros s [|k] Hx Hc Hs Hk; cbn in Hk; try lia.
  - apply cstr_nil in Hx. cbn [strchr_loop]. rewrite (loadc_bind _ _ _ _ Hx).
    exists NULL. split; [done|]. split; [done|]. by intros ?%elem_of_nil.
  - apply cstr_cons in Hx as (Hb & ? & Hx). cbn [strchr_loop].
    rewrite (loadc_bind _ _ _ _ Hb). rewrite (proj2 (Z.eqb_neq _ 0)) by by apply s8_pos_neq.
    destruct (Z.eqb_spec (s8 b) (s8 c)) as [E|E].
    + apply s8_inj in E as ->; [|lia..]. exists s. split; [done|].
      split; [|unfold NULL; lia]. intros _. apply list_elem_of_here.
    + destruct (IH (s + 1) k Hx Hc ltac:(lia) ltac:(lia)) as (p & -> & Hp).
      exists p. split; [done|]. rewrite Hp, elem_of_cons. naive_solver.
Qed.

Lemma strchr_member m s c x :
  cstr m s x → 0 < c < 256 → 0 < s →
  ∃ p, strchr m s (s8 c) = Ok p ∧ (p ≠ NULL ↔ c ∈ x).
Proof.
  intros Hx Hc Hs. pose proof (cstr_size _ _ _ Hx).
  apply strchr_loop_ok; auto. unfold fuel. lia.
Qed.

(** The scan stops at the first character whose membership is not [want]. *)
Lemma strtok_skip_ok k m want tok delim d x y :
  cstr m tok (x ++ y) → cstr m delim d → 0 < delim → (length x < k)%nat →
  Forall (λ c, bool_decide (c ∈ d) = want) x →
  (∀ c, head y = Some c → bool_decide (c ∈ d) = negb want) →
  strtok_skip k m want tok delim = Ok (tok + length x).
Proof.
  revert tok k. induction x as [|b x IH]; intros tok [|k] Hx Hd Hpos Hk Hw Hy;
    cbn in Hk; try lia; cbn [strtok_skip app length] in *.
  - rewrite Z.add_0_r. destruct y as [|c y].
    + apply cstr_nil in Hx. by rewrite (loadc_bind _ _ _ _ Hx).
    + apply cstr_cons in Hx as (Hc & ? & Hx). rewrite (loadc_bind _ _ _ _ Hc).
      rewrite (proj2 (Z.eqb_neq _ 0)) by by apply s8_pos_neq.
      destruct (strchr_member m delim c d) as (p & -> & Hp); [done..|]. cbn [mbind res_bind].
      specialize (Hy c eq_refl).
      destruct (Z.eqb_spec p NULL); case_bool_decide; destruct want; naive_solver.
  - apply cstr_cons in Hx as (Hc & ? & Hx). rewrite (loadc_bind _ _ _ _ Hc).
    rewrite (proj2 (Z.eqb_neq _ 0)) by by apply s8_pos_neq.
    destruct (strchr_member m delim b d) as (p & -> & Hp); [done..|]. cbn [mbind res_bind].
    apply Forall_cons in Hw as [Hb Hw].
    replace (Bool.eqb (negb (p =? NULL)) want) with true.
    + rewrite IH by (done || lia). f_equal. lia.
    + destruct (Z.eqb_spec p NULL); case_bool_decide; destruct want; naive_solver.
Qed.

Lemma strtok_next m tok str delim dl x t y :
  (if str =? NULL then tok else str) = x → 0 < x → 0 < delim →
  cstr m delim dl → t ≠ [] →
  ∀ d, cstr m x (d ++ t ++ y) →
  Forall (λ c, c ∈ dl) d → Forall (λ c, c ∉ dl) t → (∀ c, head y = Some c → c ∈ dl) →
  strtok m tok str delim =
    Ok (x + length d,
        if bool_decide (y = []) then x + length d + length t else x + length d + length t + 1,
        if bool_decide (y = []) then m else <[x + length d + length t := 0]> m).
Proof.
  intros Hx Hx0 Hdel0 Hdl Ht d Hs Hd Htd Hy. unfold strtok. rewrite Hx.
  rewrite (proj2 (Z.eqb_neq _ NULL)) by (unfold NULL; lia).
  pose proof (cstr_size _ _ _ Hs) as Hsz. rewrite !length_app in Hsz.
  pose proof (cstr_app _ _ _ _ Hs) as Hty.
  rewrite (strtok_skip_ok _ m true x delim dl d (t ++ y)); [|done..|unfold fuel; lia| |].
  2: { eapply Forall_impl; [done|]. intros c ?. by rewrite bool_decide_true. }
  2: { destruct t as [|c t]; [done|]. intros ? [= <-]. apply Forall_cons in Htd as [? _].
       by rewrite bool_decide_false. }
  cbn [mbind res_bind]. destruct t as [|c t]; [done|].
  pose proof Hty as Hc. apply cstr_cons in Hc as (Hc & ? & _).
  rewrite (load_bind _ _ _ _ Hc). rewrite (proj2 (Z.eqb_neq c 0)) by lia.
  rewrite (strtok_skip_ok _ m false (x + length d) delim dl (c :: t) y); [|done..| | |].
  2: { unfold fuel. lia. }
  2: { eapply Forall_impl; [done|]. intros b ?. by rewrite bool_decide_false. }
  2: { intros b Hb. rewrite bool_decide_true by eauto. done. }
  cbn [mbind res_bind]. pose proof (cstr_app _ _ _ _ Hty) as Hyc.
  destruct y as [|b y].
  - apply cstr_nil in Hyc. rewrite (load_bind _ _ _ _ Hyc). done.
  - apply cstr_cons in Hyc as (Hb & ? & _). rewrite (load_bind _ _ _ _ Hb).
    rewrite (proj2 (Z.eqb_neq b 0)) by lia. rewrite store_bind by (eauto || lia). done.
Qed.

(** ** The two size_t loops of stpncpy *)

Lemma stpncpy_copy_full k m dst src x :
  bytes_at m src x → Forall (λ b, 0 < b < 256) x → mapped m dst (length x) →
  disjoint dst (length x) src (length x) → (length x < k)%nat → length x < 2 ^ 64 →
  stpncpy_copy k m dst src (length x) = Ok (dst + length x, SIZE_MAX, set_bytes m dst x).
Proof.
  revert m dst src k. induction x as [|c x IH]; intros m dst src [|k] Hx Hb Hm Hd Hk Hlen;
    cbn in Hk; try lia; cbn [stpncpy_copy].
  { cbn. by rewrite Z.add_0_r. }
  cbn [length] in *. rewrite (proj2 (Z.ltb_lt 0 _)) by lia.
  destruct Hx as [Hc Hx]. apply Forall_cons in Hb as [? Hb]. apply mapped_cons in Hm as [? Hm].
  rewrite (load_bind _ _ _ _ Hc), store_bind by (done || lia).
  rewrite (proj2 (Z.eqb_neq c 0)) by lia. rewrite wrap_small by lia.
  replace (S (length x) - 1) with (Z.of_nat (length x)) by lia.
  unfold disjoint in *. rewrite IH; [|apply bytes_at_insert; [lia|done]|done
    |by apply mapped_insert|unfold disjoint; lia|lia|lia].
  cbn [set_bytes]. do 3 f_equal. lia.
Qed.

Lemma stpncpy_pad_runs_off (k : nat) m dst n :
  k < n → n < 2 ^ 64 →
  stpncpy_pad k m dst n = Err EFault ∨ mapped m dst k.
Proof.
  revert m dst n. induction k as [|k IH]; intros m dst n Hk Hn.
  { right. intros i Hi. lia. }
  cbn [stpncpy_pad]. rewrite (proj2 (Z.ltb_lt 1 n)) by lia.
  unfold store. destruct (m !! dst) as [v|] eqn:Hv; cbn [mbind res_bind]; [|by left].
  rewrite (wrap_small 64) by lia.
  destruct (IH (<[dst := u8 0]> m) (dst + 1) (n - 1) ltac:(lia) ltac:(lia)) as [E|Hm]; [by left|].
  right. apply mapped_cons. split; [by rewrite Hv|]. intros i Hi.
  specialize (Hm i Hi). rewrite lookup_insert_ne in Hm by lia. done.
Qed.

Lemma size_set_bytes m a l : mapped m a (length l) → size (set_bytes m a l) = size m.
Proof. intros H. by rewrite <- !size_dom, dom_set_bytes. Qed.

(** ** Case-insensitive comparison *)

Lemma strncasecmp_prefix k m p q x y z :
  cstr m p (x ++ y) → cstr m q (x ++ z) → (length x < k)%nat →
  strncasecmp_loop k m p q (length x) = Ok 0.
Proof.
  revert p q k. induction x as [|a x IH]; intros p q [|k] Hp Hq Hk; cbn in Hk; try lia; [done|].
  cbn [app strncasecmp_loop length] in *. rewrite (proj2 (Z.eqb_neq _ 0)) by lia.
  apply cstr_cons in Hp as (Ha & ? & Hp). apply cstr_cons in Hq as (Hb & ? & Hq).
  rewrite (load_bind _ _ _ _ Ha). rewrite (proj2 (Z.eqb_neq a 0)) by lia.
  rewrite (load_bind _ _ _ _ Hb), Z.eqb_refl.
  replace (S (length x) - 1) with (Z.of_nat (length x)) by lia. apply IH; [done..|lia].
Qed.

(** ** Properties *)

(** [memmove] is a correct copy whatever the overlap of the two ranges: it
    returns [dst], the destination then holds the bytes the source held before
    the call, and no byte outside the destination has changed. *)
Theorem memmove_correct m dst src l :
  bytes_at m src l → Forall byte_ok l → mapped m dst (length l) → dst ≠ NULL →
  ∃ m', memmove m dst src (length l) = Ok (dst, m') ∧ bytes_at m' dst l ∧
    ∀ x, x < dst ∨ dst + length l ≤ x → m' !! x = m !! x.
Proof.
  intros. exists (set_bytes m dst l). rewrite memmove_ok by done.
  split; [done|]. split; [apply bytes_at_set_eq|]. intros. by apply set_bytes_out.
Qed.

(** On ranges that do not overlap, [memcpy] (eight bytes at a time with
    [rep movsq] when the length is a multiple of eight, one at a time with
    [rep movsb] otherwise) and [memmove] compute the same result. *)
Theorem memcpy_agrees_with_memmove m dst src l :
  bytes_at m src l → Forall byte_ok l → mapped m dst (length l) →
  disjoint dst (length l) src (length l) → dst ≠ NULL →
  memcpy m dst src (length l) = memmove m dst src (length l).
Proof. intros. by rewrite memcpy_ok, memmove_ok. Qed.

(** [memset] stores the low byte of its argument [n] times and nothing
    else, on the aligned path ([rep stosl] of a 32-bit pattern) and on the
    byte path alike, for every length that fits the 32-bit count register. *)
Theorem memset_correct m dst c (n : nat) :
  mapped m dst n → n < 2 ^ 32 →
  memset m dst c n = Ok (dst, set_bytes m dst (replicate n (u8 c))).
Proof. apply memset_ok. Qed.

(** [strcmp] terminates on every pair of strings the [int] counter of
    [strlen] can measure; it returns zero exactly on equal strings, and
    otherwise the difference of the bytes at the first position where the
    strings (with their terminators) differ. *)
Theorem strcmp_correct m p q x y :
  cstr m p x → cstr m q y → length x ≤ INT_MAX → length y ≤ INT_MAX →
  ∃ r, strcmp m p q = Ok r ∧ (r = 0 ↔ x = y) ∧
    r = cmp_spec (S (max (length x) (length y))) x y.
Proof.
  intros Hx Hy Hlx Hly. unfold strcmp.
  rewrite (strlen_ok m p x), (strlen_ok m q y) by done. cbn [mbind res_bind].
  unfold INT_MAX in *. set (k := (if _ <? _ then _ else _)).
  assert (k = Z.min (length x) (length y)) as -> by (unfold k; zcase; lia).
  rewrite wrap_small by lia. rewrite (strncmp_ok _ _ _ _ x y) by (done || lia).
  eexists. split; [done|].
  rewrite (cmp_spec_stable _ (S (max (length x) (length y)))) by lia. split; [|done].
  rewrite cmp_spec_0_iff by apply Hx || apply Hy. by rewrite !take_ge by lia.
Qed.

(** Whatever the length of the source, [__safestrcpy] leaves a
    NUL-terminated string in the first [n] bytes of the destination: the
    longest prefix of the source that fits; no byte beyond them is written. *)
Theorem safestrcpy_terminates_string m s t (n : nat) x :
  (0 < n)%nat → cstr m t x → mapped m s n → disjoint s n t (S (length x)) →
  ∃ m', __safestrcpy m s t n = Ok (s, m') ∧ cstr m' s (take (n - 1) x) ∧
    ∀ a, a < s ∨ s + n ≤ a → m' !! a = m !! a.
Proof.
  intros Hn Hx Hm Hd. eexists. rewrite (safestrcpy_ok _ _ _ _ x) by done.
  set (w := take (n - 1) (x ++ [0]) ++ [0]).
  assert (∃ e, w = (take (n - 1) x ++ [0]) ++ e) as [e He].
  { unfold w. rewrite take_app. destruct (n - 1 - length x)%nat as [|j] eqn:Ej.
    - exists []. by rewrite take_0, !app_nil_r.
    - exists [0]. cbn [take]. by rewrite take_nil. }
  split; [done|]. split; [split|].
  - pose proof (bytes_at_set_eq m s w) as H. rewrite He in H at 2.
    by apply bytes_at_app in H as [H _].
  - apply Forall_take, Hx.
  - intros a Ha. apply set_bytes_out. unfold w.
    rewrite length_app, length_take, length_app. cbn [length]. lia.
Qed.

(** [strtok] on a string made of leading delimiters [d], a token [t] and
    a rest [y] returns the address of the token, which it has terminated in
    place, and saves the position after the delimiter that ended it. *)
Theorem strtok_token m tok str delim dl x d t y :
  (if str =? NULL then tok else str) = x → 0 < x → 0 < delim →
  cstr m delim dl → t ≠ [] → cstr m x (d ++ t ++ y) →
  Forall (λ c, c ∈ dl) d → Forall (λ c, c ∉ dl) t → (∀ c, head y = Some c → c ∈ dl) →
  ∃ tok' m', strtok m tok str delim = Ok (x + length d, tok', m') ∧
    cstr m' (x + length d) t ∧ cstr m' tok' (tail y).
Proof.
  intros Hx ? ? Hdl Ht Hs Hd Htd Hy. do 2 eexists.
  split; [by eapply strtok_next|].
  pose proof (cstr_app _ _ _ _ Hs) as Hty. pose proof (cstr_app _ _ _ _ Hty) as Hyc.
  destruct y as [|b y]; [rewrite !bool_decide_true by done|rewrite !bool_decide_false by done].
  - rewrite app_nil_r in Hty. done.
  - apply cstr_cons in Hyc as (? & ? & Hyc). split; [|apply cstr_insert; [lia|done]].
    destruct Hty as [Hty Hf]. apply Forall_app in Hf as [? _]. split; [|done].
    rewrite <- (assoc_L (++)) in Hty. apply bytes_at_app in Hty as [Hty _].
    apply bytes_at_app. split; [apply bytes_at_insert; [lia|done]|].
    cbn. by rewrite lookup_insert_eq.
Qed.

(** When the first [n] bytes of the source hold no NUL, the [size_t]
    counter of [stpncpy] has wrapped to [SIZE_MAX] at the end of the copy and
    the padding loop runs until it faults, although every byte the call was
    entitled to touch is mapped. *)
Theorem stpncpy_overruns m dst src x :
  bytes_at m src x → Forall (λ b, 0 < b < 256) x → mapped m dst (length x) →
  disjoint dst (length x) src (length x) → size m < 2 ^ 32 →
  stpncpy m dst src (length x) = Err EFault.
Proof.
  intros Hx Hb Hm Hd Hsz. pose proof (bytes_at_size _ _ _ Hx) as Hlen. unfold stpncpy.
  rewrite stpncpy_copy_full by (done || unfold fuel; lia). cbn [mbind res_bind].
  unfold fuel. rewrite size_set_bytes by done.
  destruct (stpncpy_pad_runs_off (S (size m)) (set_bytes m dst x) (dst + length x) SIZE_MAX
    ltac:(unfold SIZE_MAX; lia) ltac:(unfold SIZE_MAX; lia)) as [E|Hoff]; [done|].
  apply mapped_size in Hoff. rewrite size_set_bytes in Hoff by done. lia.
Qed.

(** [strcasecmp] compares only as many characters as the shorter string
    has: it reports a string equal to any of its extensions. *)
Theorem strcasecmp_prefix_equal m p q x z :
  cstr m p x → cstr m q (x ++ z) → length (x ++ z) ≤ INT_MAX →
  strcasecmp m p q = Ok 0.
Proof.
  intros Hp Hq Hl. unfold strcasecmp. rewrite length_app in Hl.
  rewrite (strlen_ok m p x), (strlen_ok m q (x ++ z)) by (done || rewrite ?length_app; lia).
  cbn [mbind res_bind]. rewrite length_app. set (k := (if _ <? _ then _ else _)).
  assert (k = length x) as -> by (unfold k; zcase; lia). unfold strncasecmp.
  pose proof (cstr_size _ _ _ Hp).
  eapply (strncasecmp_prefix _ _ _ _ x []); [by rewrite app_nil_r|done|unfold fuel; lia].
Qed.

(** ** The properties at concrete inputs *)

(** A NUL-terminated string at 100, another at 200 and a buffer at 300. *)
Definition demo : mem :=
  set_bytes (set_bytes (set_bytes ∅ 100 [44; 97; 98; 44; 99; 0; 0; 0])
    200 [44; 97; 98; 44; 99; 100; 0]) 300 [1; 2; 3; 4; 5; 6; 7; 8].

(** The delimiter set at 400. *)
Definition demo_delim : mem := set_bytes demo 400 [44; 0].

Ltac demo_bytes := vm_compute; repeat split.
Ltac demo_cstr := split; [demo_bytes | repeat constructor].
Ltac demo_mapped l := apply (bytes_at_mapped _ _ l); demo_bytes.

Lemma memmove_correct_witness :
  ∃ m', memmove demo 102 100 6 = Ok (102, m') ∧ bytes_at m' 102 [44; 97; 98; 44; 99; 0] ∧
    ∀ x, x < 102 ∨ 102 + 6 ≤ x → m' !! x = demo !! x.
Proof.
  apply (memmove_correct demo 102 100 [44; 97; 98; 44; 99; 0]).
  - demo_bytes.
  - repeat constructor; lia.
  - demo_mapped [98; 44; 99; 0; 0; 0].
  - done.
Defined.

Lemma memcpy_agrees_witness : memcpy demo 300 100 8 = memmove demo 300 100 8.
Proof.
  apply (memcpy_agrees_with_memmove demo 300 100 [44; 97; 98; 44; 99; 0; 0; 0]).
  - demo_bytes.
  - repeat constructor; lia.
  - demo_mapped [1; 2; 3; 4; 5; 6; 7; 8].
  - right. cbn. lia.
  - done.
Defined.

Lemma memset_correct_witness :
  memset demo 300 511 8 = Ok (300, set_bytes demo 300 (replicate 8 255)).
Proof.
  apply (memset_correct demo 300 511 8).
  - demo_mapped [1; 2; 3; 4; 5; 6; 7; 8].
  - done.
Defined.

Lemma strcmp_correct_witness :
  ∃ r, strcmp demo 100 200 = Ok r ∧
    (r = 0 ↔ [44; 97; 98; 44; 99] = [44; 97; 98; 44; 99; 100]) ∧
    r = cmp_spec 7 [44; 97; 98; 44; 99] [44; 97; 98; 44; 99; 100].
Proof.
  apply (strcmp_correct demo 100 200 [44; 97; 98; 44; 99] [44; 97; 98; 44; 99; 100]).
  - demo_cstr.
  - demo_cstr.
  - done.
  - done.
Defined.

Lemma safestrcpy_terminates_witness :
  ∃ m', __safestrcpy demo 300 100 4 = Ok (300, m') ∧ cstr m' 300 [44; 97; 98] ∧
    ∀ a, a < 300 ∨ 300 + 4 ≤ a → m' !! a = demo !! a.
Proof.
  apply (safestrcpy_terminates_string demo 300 100 4 [44; 97; 98; 44; 99]).
  - lia.
  - demo_cstr.
  - demo_mapped [1; 2; 3; 4].
  - right. cbn. lia.
Defined.

Lemma strtok_token_witness :
  ∃ tok' m', strtok demo_delim 0 100 400 = Ok (101, tok', m') ∧
    cstr m' 101 [97; 98] ∧ cstr m' tok' [99].
Proof.
  apply (strtok_token demo_delim 0 100 400 [44] 100 [44] [97; 98] [44; 99]).
  - done.
  - lia.
  - lia.
  - demo_cstr.
  - done.
  - demo_cstr.
  - repeat constructor.
  - repeat constructor; set_solver.
  - intros c [= <-]. set_solver.
Defined.

Lemma stpncpy_overruns_witness : stpncpy demo 300 100 4 = Err EFault.
Proof.
  apply (stpncpy_overruns demo 300 100 [44; 97; 98; 44]).
  - demo_bytes.
  - repeat constructor.
  - demo_mapped [1; 2; 3; 4].
  - right. cbn. lia.
  - vm_compute. done.
Defined.

Lemma strcasecmp_prefix_witness : strcasecmp demo 100 200 = Ok 0.
Proof.
  apply (strcasecmp_prefix_equal demo 100 200 [44; 97; 98; 44; 99] [100]).
  - demo_cstr.
  - demo_cstr.
  - done.
Defined.

End KString.
