(* ===== verification/Words.v ===== *)
(** * Buffers and the little-endian words in them

    A disk block, a user buffer or a C struct read from a block is a list of
    bytes.  [get_bytes] and [put_bytes] are [memmove] out of and into such a
    buffer, [get_le] and [put_le] read and write a field of a given width. *)

From S2P Require Import Prelude.

Definition get_bytes (d : list Z) (off n : nat) : list Z := take n (drop off d).

Definition put_bytes (d : list Z) (off : nat) (l : list Z) : list Z :=
  take off d ++ l ++ drop (off + length l) d.

Fixpoint le_val (l : list Z) : Z :=
  match l with [] => 0 | b :: l => b + 256 * le_val l end.

Fixpoint le_bytes (n : nat) (v : Z) : list Z :=
  match n with O => [] | S n => v mod 256 :: le_bytes n (v / 256) end.

Definition get_le (w : nat) (d : list Z) (off : nat) : Z := le_val (get_bytes d off w).

Definition put_le (w : nat) (d : list Z) (off : nat) (v : Z) : list Z :=
  put_bytes d off (le_bytes w v).

Abbreviation get64 := (get_le 8).
Abbreviation put64 := (put_le 8).

(** ** Byte ranges *)

Lemma length_get_bytes d off n : (off + n ≤ length d)%nat → length (get_bytes d off n) = n.
Proof. intros. unfold get_bytes. rewrite length_take, length_drop. lia. Qed.

Lemma length_put_bytes d off l :
  (off + length l ≤ length d)%nat → length (put_bytes d off l) = length d.
Proof.
  intros. unfold put_bytes. rewrite !length_app, length_take, length_drop. lia.
Qed.

Lemma lookup_get_bytes d off n i :
  get_bytes d off n !! i = if decide (i < n)%nat then d !! (off + i)%nat else None.
Proof.
  unfold get_bytes. case_decide.
  - rewrite lookup_take_lt by done. by rewrite lookup_drop.
  - rewrite lookup_take_ge by lia. done.
Qed.

Lemma lookup_put_bytes d off l i :
  (off + length l ≤ length d)%nat →
  put_bytes d off l !! i =
  if decide (off ≤ i < off + length l)%nat then l !! (i - off)%nat else d !! i.
Proof.
  intros Hl. unfold put_bytes. case_decide.
  - rewrite lookup_app_r by (rewrite length_take; lia).
    rewrite length_take, Nat.min_l by lia. by rewrite lookup_app_l by lia.
  - destruct (decide (i < off)%nat).
    + rewrite lookup_app_l by (rewrite length_take; lia). by rewrite lookup_take_lt by done.
    + rewrite lookup_app_r by (rewrite length_take; lia).
      rewrite length_take, Nat.min_l by lia. rewrite lookup_app_r by lia.
      rewrite lookup_drop. f_equal. lia.
Qed.

Lemma get_put_bytes_eq d off l :
  (off + length l ≤ length d)%nat → get_bytes (put_bytes d off l) off (length l) = l.
Proof.
  intros. apply list_eq. intros i. rewrite lookup_get_bytes. case_decide.
  - rewrite lookup_put_bytes, decide_True by lia. f_equal. lia.
  - symmetry. apply lookup_ge_None. lia.
Qed.

Lemma get_put_bytes_ne d off l off' n :
  (off + length l ≤ length d)%nat →
  (off' + n ≤ off ∨ off + length l ≤ off')%nat →
  get_bytes (put_bytes d off l) off' n = get_bytes d off' n.
Proof.
  intros. apply list_eq. intros i. rewrite !lookup_get_bytes. case_decide; [|done].
  rewrite lookup_put_bytes, decide_False by lia. done.
Qed.

Lemma put_get_bytes d off n :
  (off + n ≤ length d)%nat → put_bytes d off (get_bytes d off n) = d.
Proof.
  intros. apply list_eq. intros i.
  rewrite lookup_put_bytes by (rewrite length_get_bytes; lia).
  rewrite length_get_bytes by lia. case_decide; [|done].
  rewrite lookup_get_bytes, decide_True by lia. f_equal. lia.
Qed.

(** ** Little-endian fields *)

Lemma length_le_bytes n v : length (le_bytes n v) = n.
Proof. revert v. induction n as [|n IH]; intros v; cbn; [done|]. by rewrite IH. Qed.

Lemma le_bytes_range n v : Forall (λ b, 0 ≤ b < 256) (le_bytes n v).
Proof.
  revert v. induction n as [|n IH]; intros v; cbn; constructor; [|done].
  apply Z.mod_pos_bound. lia.
Qed.

Lemma le_val_bytes n v : 0 ≤ v < 256 ^ Z.of_nat n → le_val (le_bytes n v) = v.
Proof.
  revert v. induction n as [|n IH]; intros v Hv; cbn [le_bytes le_val].
  { cbn in Hv. lia. }
  rewrite Nat2Z.inj_succ, Z.pow_succ_r in Hv by lia. rewrite IH.
  - pose proof (Z.div_mod v 256). lia.
  - split; [apply Z.div_pos; lia|]. apply Z.div_lt_upper_bound; lia.
Qed.

Lemma le_bytes_val l : Forall (λ b, 0 ≤ b < 256) l → le_bytes (length l) (le_val l) = l.
Proof.
  induction 1 as [|b l Hb Hl IH]; [done|]. cbn [length le_val le_bytes].
  rewrite (Z.mul_comm 256), Z.mod_add, Z.div_add, Z.mod_small, Z.div_small by lia.
  by rewrite Z.add_0_l, IH.
Qed.

Lemma le_val_range l : Forall (λ b, 0 ≤ b < 256) l → 0 ≤ le_val l < 256 ^ Z.of_nat (length l).
Proof.
  induction 1 as [|b l Hb Hl IH]; [done|]. cbn [length le_val].
  rewrite Nat2Z.inj_succ, Z.pow_succ_r by lia. lia.
Qed.

Lemma length_put_le w d off v :
  (off + w ≤ length d)%nat → length (put_le w d off v) = length d.
Proof. intros. apply length_put_bytes. by rewrite length_le_bytes. Qed.

Lemma get_put_le_eq w d off v :
  (off + w ≤ length d)%nat → 0 ≤ v < 256 ^ Z.of_nat w →
  get_le w (put_le w d off v) off = v.
Proof.
  intros. pose proof (get_put_bytes_eq d off (le_bytes w v)) as E.
  rewrite length_le_bytes in E. unfold get_le, put_le. rewrite E by done.
  by apply le_val_bytes.
Qed.

Lemma get_put_le_ne w w' d off off' v :
  (off + w ≤ length d)%nat → (off' + w' ≤ off ∨ off + w ≤ off')%nat →
  get_le w' (put_le w d off v) off' = get_le w' d off'.
Proof.
  intros. unfold get_le, put_le. rewrite get_put_bytes_ne; rewrite ?length_le_bytes; [done|lia..].
Qed.

