(* ===== verification/Block.v ===== *)
(** * What the buffer cache promises to the rest of the file system

    The log and the file system call [block_read], [block_write] and
    [block_release], look at and overwrite the data of the buffers they hold,
    and pin a buffer with [B_DIRTY].  [BlockOps] names these operations,
    [BlockLaws] states what each does to an abstract block device: the
    contents on disk, the modified blocks pinned in memory, and the blocks
    the caller currently holds with the data it has put in them. *)

From S2P Require Import Prelude Words.

Module Block.

Definition BSIZE : nat := 2048.
Definition FSSIZE : Z := 10 * 2048.
Definition NBUF : nat := 30.
Definition ROOTDEV : Z := 1.

Record abs := mkabs {
  a_disk : gmap Z (list Z);
  a_mem : gmap Z (list Z);
  a_held : gmap Z (list Z);
}.

(** The content a reader of block [k] gets. *)
Definition view (A : abs) (k : Z) : option (list Z) :=
  match a_mem A !! k with Some d => Some d | None => a_disk A !! k end.

Definition hold (k : Z) (d : list Z) (A : abs) : abs :=
  mkabs (a_disk A) (a_mem A) (<[k := d]> (a_held A)).
Definition unhold (k : Z) (A : abs) : abs :=
  mkabs (a_disk A) (a_mem A) (delete k (a_held A)).
Definition pin (k : Z) (d : list Z) (A : abs) : abs :=
  mkabs (a_disk A) (<[k := d]> (a_mem A)) (a_held A).
Definition flush (k : Z) (d : list Z) (A : abs) : abs :=
  mkabs (<[k := d]> (a_disk A)) (delete k (a_mem A)) (a_held A).

Record abs_ok (A : abs) : Prop := {
  ok_disk k d : a_disk A !! k = Some d → 0 ≤ k < FSSIZE ∧ length d = BSIZE;
  ok_mem k d : a_mem A !! k = Some d → is_Some (a_disk A !! k) ∧ length d = BSIZE;
  ok_held k d : a_held A !! k = Some d → is_Some (a_disk A !! k) ∧ length d = BSIZE;
}.

(** A buffer is free for [k]: [k] is pinned (so it is cached), or fewer than
    [NBUF] blocks are pinned or held. *)
Definition room (A : abs) (k : Z) : Prop :=
  is_Some (a_mem A !! k) ∨ (size (dom (a_mem A) ∪ dom (a_held A)) < NBUF)%nat.

Class BlockOps (S : Type) := {
  block_read : Z → Z → M S nat;
  block_write : nat → M S unit;
  block_release : nat → M S unit;
  buf_blockno : nat → M S Z;
  buf_data : nat → M S (list Z);
  buf_store : nat → list Z → M S unit;
  buf_pin : nat → M S unit;
}.

(** [rep c A]: state [c] represents device [A]; [handle c i k]: buffer [i] is
    held and caches block [k]; [trace c]: the blocks written to disk so far. *)
Class BlockLaws (S : Type) `{BlockOps S} := {
  rep : S → abs → Prop;
  handle : S → nat → Z → Prop;
  trace : S → list (Z * list Z);
  rep_ok c A : rep c A → abs_ok A;
  handle_key c i k k' : handle c i k → handle c i k' → k = k';
  block_read_law c A k d :
    rep c A → a_held A !! k = None → view A k = Some d → room A k →
    wp (block_read ROOTDEV k) (λ i c', rep c' (hold k d A) ∧ handle c' i k ∧
      trace c' = trace c ∧ ∀ j k', handle c j k' → handle c' j k') c;
  block_write_law c A i k d :
    rep c A → handle c i k → a_held A !! k = Some d →
    wp (block_write i) (λ _ c', rep c' (flush k d A) ∧
      trace c' = trace c ++ [(k, d)] ∧ ∀ j k', handle c j k' → handle c' j k') c;
  block_release_law c A i k d :
    rep c A → handle c i k → a_held A !! k = Some d → view A k = Some d →
    wp (block_release i) (λ _ c', rep c' (unhold k A) ∧ trace c' = trace c ∧
      ∀ j k', j ≠ i → handle c j k' → handle c' j k') c;
  buf_blockno_law c A i k :
    rep c A → handle c i k → wp (buf_blockno i) (λ r c', r = k ∧ c' = c) c;
  buf_data_law c A i k d :
    rep c A → handle c i k → a_held A !! k = Some d →
    wp (buf_data i) (λ r c', r = d ∧ c' = c) c;
  buf_store_law c A i k d d' :
    rep c A → handle c i k → a_held A !! k = Some d → length d' = BSIZE →
    wp (buf_store i d') (λ _ c', rep c' (hold k d' A) ∧ trace c' = trace c ∧
      ∀ j k', handle c j k' → handle c' j k') c;
  buf_pin_law c A i k d :
    rep c A → handle c i k → a_held A !! k = Some d →
    wp (buf_pin i) (λ _ c', rep c' (pin k d A) ∧ trace c' = trace c ∧
      ∀ j k', handle c j k' → handle c' j k') c;
}.

(** ** Lookups in an updated device *)

Lemma view_hold A k d j : view (hold k d A) j = view A j.
Proof. done. Qed.

Lemma view_unhold A k j : view (unhold k A) j = view A j.
Proof. done. Qed.

Lemma view_pin A k d j : view (pin k d A) j = if decide (j = k) then Some d else view A j.
Proof.
  unfold view, pin. cbn. case_decide as E; [subst; by rewrite lookup_insert_eq|].
  by rewrite lookup_insert_ne by done.
Qed.

Lemma view_flush A k d j : view (flush k d A) j = if decide (j = k) then Some d else view A j.
Proof.
  unfold view, flush. cbn. case_decide as E.
  - subst. by rewrite lookup_delete_eq, lookup_insert_eq.
  - by rewrite lookup_delete_ne, lookup_insert_ne by done.
Qed.

Lemma view_range A k d : abs_ok A → view A k = Some d → 0 ≤ k < FSSIZE ∧ length d = BSIZE.
Proof.
  intros [Hd Hm _]. unfold view. destruct (a_mem A !! k) eqn:E.
  - intros [= <-]. apply Hm in E as [[? E] ?]. split; [|done]. by eapply Hd.
  - apply Hd.
Qed.

Lemma hold_hold k d d' A : hold k d (hold k d' A) = hold k d A.
Proof. unfold hold. cbn. by rewrite insert_insert_eq. Qed.

Lemma unhold_hold k d A : a_held A !! k = None → unhold k (hold k d A) = A.
Proof. intros H. unfold unhold, hold. cbn. rewrite delete_insert_id by done. by destruct A. Qed.

Lemma room_mono A A' k :
  (∀ j, is_Some (a_mem A !! j) ↔ is_Some (a_mem A' !! j)) →
  (size (dom (a_mem A') ∪ dom (a_held A')) ≤ size (dom (a_mem A) ∪ dom (a_held A)))%nat →
  room A k → room A' k.
Proof. unfold room. intros Hm Hs [H|H]; [left; by apply Hm|right; lia]. Qed.

End Block.
