(* ===== verification/Bio.v ===== *)
(** * The buffer cache and the disk under it (kernel/bio.c, kernel/ide.c)

    The state is [block_cache] as one thread of the kernel sees it: the [NBUF]
    buffers, the doubly linked LRU list as the list of buffer indices from
    [head.next] to [head.prev], and the disk.  A buffer pointer is an index.
    The spin lock is the flag "this thread holds it".

    [disk] maps (drive, block number) to the block's bytes; [writes] is a
    history variable that records every block written, oldest first: the
    disk after a crash is the initial disk with a prefix of these writes. *)

From S2P Require Import Prelude Words Block.

Module Bio.

Import Block(abs, mkabs, a_disk, a_mem, a_held, view, hold, unhold, pin, flush, room,
  abs_ok, BSIZE, NBUF, FSSIZE, ROOTDEV).

Definition B_VALID : Z := 0x2.
Definition B_DIRTY : Z := 0x4.

(** [blockno] is declared [ssize_t] but only ever compared with unsigned
    values, so it is kept as the unsigned value those comparisons see. *)
Record block_buffer := mkbuf {
  flags : Z;
  dev : Z;
  blockno : Z;
  lock_locked : bool;
  lock_pid : Z;
  refcnt : Z;
  data : list Z;
}.

Record block_cache := mkcache {
  lock : bool;
  buf : list block_buffer;
  lru : list nat;
  disk : gmap (Z * Z) (list Z);
  bad : gset (Z * Z);
  havedisk1 : bool;
  writes : list ((Z * Z) * list Z);
  curpid : Z;
}.

Definition has (fl b : Z) : bool := negb (Z.land fl b =? 0).

(** ** Field updates *)

Definition set_flags (f : Z) (b : block_buffer) : block_buffer :=
  mkbuf f (dev b) (blockno b) (lock_locked b) (lock_pid b) (refcnt b) (data b).
Definition set_lock (l : bool) (pid : Z) (b : block_buffer) : block_buffer :=
  mkbuf (flags b) (dev b) (blockno b) l pid (refcnt b) (data b).
Definition set_refcnt (r : Z) (b : block_buffer) : block_buffer :=
  mkbuf (flags b) (dev b) (blockno b) (lock_locked b) (lock_pid b) r (data b).
Definition set_data (d : list Z) (b : block_buffer) : block_buffer :=
  mkbuf (flags b) (dev b) (blockno b) (lock_locked b) (lock_pid b) (refcnt b) d.

Definition set_spin (l : bool) (c : block_cache) : block_cache :=
  mkcache l (buf c) (lru c) (disk c) (bad c) (havedisk1 c) (writes c) (curpid c).
Definition set_buf (bs : list block_buffer) (c : block_cache) : block_cache :=
  mkcache (lock c) bs (lru c) (disk c) (bad c) (havedisk1 c) (writes c) (curpid c).
Definition set_lru (l : list nat) (c : block_cache) : block_cache :=
  mkcache (lock c) (buf c) l (disk c) (bad c) (havedisk1 c) (writes c) (curpid c).
Definition disk_write (k : Z * Z) (d : list Z) (c : block_cache) : block_cache :=
  mkcache (lock c) (buf c) (lru c) (<[k := d]> (disk c)) (bad c) (havedisk1 c)
    (writes c ++ [(k, d)]) (curpid c).

Abbreviation B := (M block_cache).

(** [&block_cache.buf[i]] and its update in place. *)
Definition get_buf (i : nat) : B block_buffer :=
  c ← gets buf; from_option (c !! i).
Definition upd_buf (i : nat) (f : block_buffer → block_buffer) : B unit :=
  b ← get_buf i; modify (λ c, set_buf (<[i := f b]> (buf c)) c).

(** ** Locks, as the running thread sees them *)

Definition acquire : B unit :=
  l ← gets lock;
  _ ← kernel_assert (negb l);
  modify (set_spin true).

Definition release : B unit :=
  l ← gets lock;
  _ ← kernel_assert l;
  modify (set_spin false).

(** A sleep lock that is taken puts the thread to sleep until its holder
    releases it; a thread that waits for itself never runs again. *)
Definition acquiresleep (i : nat) : B unit :=
  b ← get_buf i;
  if lock_locked b then fail EBlocked
  else pid ← gets curpid; upd_buf i (set_lock true pid).

Definition releasesleep (i : nat) : B unit := upd_buf i (set_lock false 0).

Definition holdingsleep (i : nat) : B bool :=
  b ← get_buf i;
  pid ← gets curpid;
  mret (lock_locked b && (lock_pid b =? pid)).

(** ** The disk driver *)

(** The drive is selected by the low bit of the device number. *)
Definition disk_key (d b : Z) : Z * Z := (Z.land d 1, b).

(** [iderw] with the request it queues, [idestart] and the completion
    interrupt [ideintr] folded into one step: a dirty buffer is written, any
    other is read (a read the controller reports as failed leaves the data as
    it was), and the buffer ends valid and clean. *)
Definition iderw (i : nat) : B unit :=
  h ← holdingsleep i;
  if negb h then panic "iderw: buf not locked"
  else
    b ← get_buf i;
    if Z.land (flags b) (Z.lor B_VALID B_DIRTY) =? B_VALID then panic "iderw: nothing to do"
    else
      hd ← gets havedisk1;
      if negb (dev b =? 0) && negb hd then panic "iderw: ide disk 1 not present"
      else if FSSIZE <=? blockno b then panic "incorrect blockno"
      else
        let k := disk_key (dev b) (blockno b) in
        _ ← (if has (flags b) B_DIRTY then modify (disk_write k (data b))
             else
               bd ← gets bad;
               if bool_decide (k ∈ bd) then mret tt
               else dk ← gets disk; d ← from_option (dk !! k); upd_buf i (set_data d));
        upd_buf i (λ b, set_flags (Z.land (Z.lor (flags b) B_VALID) (Z.lnot B_DIRTY)) b).

(** ** bio.c *)

(** [block_init]: every buffer is pushed at the head of the list in turn. *)
Definition block_init : B unit :=
  _ ← modify (set_spin false);
  _ ← modify (λ c, set_buf (set_lock false 0 <$> buf c) c);
  modify (set_lru (fold_left (λ l i, i :: l) (seq 0 NBUF) [])).

(** The first buffer in the given order that passes the test. *)
Fixpoint scan (P : block_buffer → bool) (bs : list block_buffer) (order : list nat) : option nat :=
  match order with
  | [] => None
  | i :: order =>
      match bs !! i with
      | Some b => if P b then Some i else scan P bs order
      | None => scan P bs order
      end
  end.

Definition block_get (d bn : Z) : B nat :=
  _ ← acquire;
  bs ← gets buf;
  order ← gets lru;
  match scan (λ b, (dev b =? d) && (blockno b =? bn)) bs order with
  | Some i =>
      _ ← upd_buf i (λ b, set_refcnt (u32 (refcnt b + 1)) b);
      _ ← release;
      _ ← acquiresleep i;
      mret i
  | None =>
      match scan (λ b, (refcnt b =? 0) && negb (has (flags b) B_DIRTY)) bs (rev order) with
      | Some i =>
          _ ← upd_buf i (λ b, mkbuf 0 d bn (lock_locked b) (lock_pid b) 1 (data b));
          _ ← release;
          _ ← acquiresleep i;
          mret i
      | None => panic "bget: no buffers"
      end
  end.

Definition block_read (d bn : Z) : B nat :=
  i ← block_get d bn;
  b ← get_buf i;
  _ ← (if has (flags b) B_VALID then mret tt else iderw i);
  mret i.

Definition block_write (i : nat) : B unit :=
  h ← holdingsleep i;
  _ ← kernel_assert h;
  _ ← upd_buf i (λ b, set_flags (Z.lor (flags b) B_DIRTY) b);
  iderw i.

(** Unlink and push at the head when the last reference goes. *)
Definition block_release (i : nat) : B unit :=
  h ← holdingsleep i;
  _ ← kernel_assert h;
  _ ← releasesleep i;
  _ ← acquire;
  _ ← upd_buf i (λ b, set_refcnt (u32 (refcnt b - 1)) b);
  b ← get_buf i;
  _ ← (if refcnt b =? 0
       then modify (λ c, set_lru (i :: List.remove Nat.eq_dec i (lru c)) c)
       else mret tt);
  release.

(** What callers do with a buffer they hold: read its fields, overwrite its
    data, pin it. *)
Definition buf_blockno (i : nat) : B Z := b ← get_buf i; mret (blockno b).
Definition buf_data (i : nat) : B (list Z) := b ← get_buf i; mret (data b).
Definition buf_store (i : nat) (d : list Z) : B unit := upd_buf i (set_data d).
Definition buf_pin (i : nat) : B unit :=
  upd_buf i (λ b, set_flags (Z.lor (flags b) B_DIRTY) b).

#[export] Instance bio_ops : Block.BlockOps block_cache := {
  Block.block_read := block_read;
  Block.block_write := block_write;
  Block.block_release := block_release;
  Block.buf_blockno := buf_blockno;
  Block.buf_data := buf_data;
  Block.buf_store := buf_store;
  Block.buf_pin := buf_pin;
}.

(** ** The device a cache represents *)

(** Between calls a buffer is either untouched since boot, or holds a valid
    copy of a block of the root device, pinned when dirty, and held by the
    running thread when locked. *)
Definition buf_ok (pid : Z) (A : abs) (b : block_buffer) : Prop :=
  (dev b = 0 ∧ flags b = 0 ∧ refcnt b = 0 ∧ lock_locked b = false) ∨
  (dev b = 1 ∧
   flags b = (match a_mem A !! blockno b with Some _ => 6 | None => 2 end) ∧
   if lock_locked b
   then lock_pid b = pid ∧ refcnt b = 1 ∧ a_held A !! blockno b = Some (data b)
   else refcnt b = 0 ∧ a_held A !! blockno b = None ∧ view A (blockno b) = Some (data b)).

Definition cached (c : block_cache) (k : Z) : Prop :=
  ∃ i b, buf c !! i = Some b ∧ dev b = 1 ∧ blockno b = k.

Definition handle (c : block_cache) (i : nat) (k : Z) : Prop :=
  ∃ b, buf c !! i = Some b ∧ dev b = 1 ∧ blockno b = k ∧ lock_locked b = true.

Record rep (c : block_cache) (A : abs) : Prop := {
  r_ok : abs_ok A;
  r_lock : lock c = false;
  r_len : length (buf c) = NBUF;
  r_lru : lru c ≡ₚ seq 0 NBUF;
  r_bad : bad c = ∅;
  r_hd : havedisk1 c = true;
  r_disk k : disk c !! (1, k) = a_disk A !! k;
  r_buf i b : buf c !! i = Some b → buf_ok (curpid c) A b;
  r_uniq i j b b' : buf c !! i = Some b → buf c !! j = Some b' →
    dev b = 1 → dev b' = 1 → blockno b = blockno b' → i = j;
  r_used k : is_Some (a_mem A !! k) ∨ is_Some (a_held A !! k) → cached c k;
}.

(** The blocks of the root device among the recorded writes. *)
Definition trace (c : block_cache) : list (Z * list Z) :=
  (λ w : (Z * Z) * list Z, (w.1.2, w.2)) <$> writes c.

(** ** One buffer changes *)

Definition agree_except (k : Z) (A A' : abs) : Prop :=
  ∀ j, j ≠ k → a_disk A' !! j = a_disk A !! j ∧ a_mem A' !! j = a_mem A !! j ∧
    a_held A' !! j = a_held A !! j.

Lemma buf_ok_other pid A A' k b :
  agree_except k A A' → (dev b = 1 → blockno b ≠ k) → buf_ok pid A b → buf_ok pid A' b.
Proof.
  intros Ha Hk [Hb|(Hd & Hf & Hb)]; [by left|right].
  destruct (Ha _ (Hk Hd)) as (E1 & E2 & E3).
  split; [done|]. rewrite E2. split; [done|]. unfold view. rewrite E1, E2, E3. done.
Qed.

(** Buffer [i] becomes [b'], which caches [k]; it cached [k] before, or [k]
    was nowhere in the cache and what [i] cached was neither pinned nor held. *)
Lemma rep_update c A A' i b b' dk l ws :
  rep c A → buf c !! i = Some b → dev b' = 1 →
  ((dev b = 1 ∧ blockno b = blockno b') ∨
   (¬ cached c (blockno b') ∧
    (dev b = 1 → a_mem A !! blockno b = None ∧ a_held A !! blockno b = None))) →
  agree_except (blockno b') A A' → buf_ok (curpid c) A' b' → l ≡ₚ seq 0 NBUF →
  (∀ j, dk !! (1, j) = a_disk A' !! j) → abs_ok A' →
  rep (mkcache false (<[i := b']> (buf c)) l dk (bad c) (havedisk1 c) ws (curpid c)) A'.
Proof.
  intros Hr Hi Hd' Hkey Ha Hb' Hl Hdk Hok.
  assert (i < length (buf c))%nat as Hlt by by eapply lookup_lt_Some.
  assert (∀ j b0, j ≠ i → buf c !! j = Some b0 → dev b0 = 1 → blockno b0 ≠ blockno b') as Hne.
  { intros j b0 Hj Hb0 Hd0 E. destruct Hkey as [[Hd E']|[Hn _]].
    - apply Hj. eapply (r_uniq _ _ Hr); [done|done|done|done|congruence].
    - apply Hn. by exists j, b0. }
  split; cbn.
  - done.
  - done.
  - by rewrite length_insert, (r_len _ _ Hr).
  - done.
  - apply (r_bad _ _ Hr).
  - apply (r_hd _ _ Hr).
  - done.
  - intros j b0. rewrite list_lookup_insert. case_decide as E.
    + intros [= <-]. done.
    + intros Hj. eapply buf_ok_other; [done| |by eapply (r_buf _ _ Hr)].
      intros. eapply Hne; [|done..]. intros ->. apply E. done.
  - intros j1 j2 b1 b2. rewrite !list_lookup_insert.
    case_decide as E1; case_decide as E2; intros H1 H2 Hd1 Hd2 E; simplify_eq.
    + by destruct E1, E2; subst.
    + exfalso. destruct E1 as [<- ?]. eapply (Hne j2); [|done..].
      intros ->. by apply E2.
    + exfalso. destruct E2 as [<- ?]. eapply (Hne j1); [|done..].
      intros ->. by apply E1.
    + eapply (r_uniq _ _ Hr); done.
  - intros k Hk. destruct (decide (k = blockno b')) as [->|Hkne].
    { exists i, b'. cbn. by rewrite list_lookup_insert_eq. }
    destruct (Ha _ Hkne) as (_ & E2 & E3). rewrite E2, E3 in Hk.
    destruct (r_used _ _ Hr _ Hk) as (j & b0 & Hj & Hd0 & Hb0).
    exists j, b0. cbn. rewrite list_lookup_insert_ne; [done|]. intros <-.
    rewrite Hi in Hj. injection Hj as ->. subst k.
    destruct Hkey as [[_ ?]|[_ Hno]]; [done|]. destruct (Hno Hd0) as [E4 E5].
    rewrite E4, E5 in Hk. destruct Hk as [[? ?]|[? ?]]; done.
Qed.

(** ** Searching the cache *)

Lemma scan_Some P bs o i :
  scan P bs o = Some i → i ∈ o ∧ ∃ b, bs !! i = Some b ∧ P b = true.
Proof.
  induction o as [|j o IH]; cbn; [done|]. rewrite elem_of_cons.
  destruct (bs !! j) as [b|] eqn:Hj; [destruct (P b) eqn:HP|].
  - intros [= ->]. eauto.
  - intros (? & ?)%IH. eauto.
  - intros (? & ?)%IH. eauto.
Qed.

Lemma scan_None P bs o i b :
  scan P bs o = None → i ∈ o → bs !! i = Some b → P b = false.
Proof.
  induction o as [|j o IH]; cbn; [by intros _ ?%elem_of_nil|]. rewrite elem_of_cons.
  destruct (bs !! j) as [b'|] eqn:Hj; [destruct (P b') eqn:HP|]; try done.
  - intros Hs [->|?] ?; [congruence|eauto].
  - intros Hs [->|?] ?; [congruence|eauto].
Qed.

Lemma rep_in_lru c A i b : rep c A → buf c !! i = Some b → i ∈ lru c ∧ i ∈ rev (lru c).
Proof.
  intros Hr Hi. pose proof (lookup_lt_Some _ _ _ Hi) as Hlt. rewrite (r_len _ _ Hr) in Hlt.
  assert (i ∈ lru c) as H.
  { rewrite (r_lru _ _ Hr). apply list_elem_of_In, in_seq. lia. }
  split; [done|]. by rewrite list_elem_of_In, <- in_rev, <- list_elem_of_In.
Qed.

(** A buffer that [block_get] may recycle. *)
Definition idle (b : block_buffer) : bool := (refcnt b =? 0) && negb (has (flags b) B_DIRTY).

Lemma buf_ok_not_idle pid A b :
  buf_ok pid A b → idle b = false →
  dev b = 1 ∧ (is_Some (a_mem A !! blockno b) ∨ is_Some (a_held A !! blockno b)).
Proof.
  intros [(Hd & Hf & Hr & _)|(Hd & Hf & Hb)]; unfold idle.
  - rewrite Hf, Hr. done.
  - rewrite Hf. destruct (a_mem A !! blockno b) eqn:Em; [by eauto|].
    destruct (lock_locked b).
    + destruct Hb as (_ & _ & ->). eauto.
    + destruct Hb as (-> & _). done.
Qed.

(** While fewer than [NBUF] blocks are pinned or held, some buffer is idle. *)
Lemma idle_exists c A :
  rep c A → (size (dom (a_mem A) ∪ dom (a_held A)) < NBUF)%nat →
  ∃ i b, buf c !! i = Some b ∧ idle b = true.
Proof.
  intros Hr Hsz. destruct (decide (Exists (λ b, idle b = true) (buf c))) as [He|Hn].
  { apply Exists_exists in He as (b & Hb & Hid).
    apply list_elem_of_lookup in Hb as [i Hi]. eauto. }
  exfalso. rewrite <- Forall_Exists_neg, Forall_lookup in Hn.
  assert (∀ i b, buf c !! i = Some b →
    dev b = 1 ∧ blockno b ∈ dom (a_mem A) ∪ dom (a_held A)) as Hall.
  { intros i b Hi. rewrite elem_of_union, !elem_of_dom. eapply buf_ok_not_idle.
    - by eapply (r_buf _ _ Hr).
    - destruct (idle b) eqn:E; [|done]. by destruct (Hn _ _ Hi). }
  assert (NoDup (blockno <$> buf c)) as Hnd.
  { apply NoDup_alt. intros i j x. rewrite !list_lookup_fmap, !fmap_Some.
    intros (b1 & H1 & ->) (b2 & H2 & E).
    eapply (r_uniq _ _ Hr); [done|done|by eapply Hall..|done]. }
  assert (list_to_set (C := gset Z) (blockno <$> buf c) ⊆ dom (a_mem A) ∪ dom (a_held A)) as Hsub.
  { intros k Hk. apply elem_of_list_to_set, list_elem_of_fmap in Hk as (b & -> & Hb).
    apply list_elem_of_lookup in Hb as [i Hi]. by eapply Hall. }
  apply subseteq_size in Hsub. rewrite size_list_to_set in Hsub by done.
  rewrite length_fmap, (r_len _ _ Hr) in Hsub. lia.
Qed.

(** ** Running the primitive steps *)

Section runs.
Context (c : block_cache) (i : nat) (b : block_buffer).
Hypothesis Hi : buf c !! i = Some b.

Lemma get_buf_run : get_buf i c = Ok (b, c).
Proof. unfold get_buf, mbind, M_bind, gets. by rewrite Hi. Qed.

Lemma upd_buf_run f : upd_buf i f c = Ok (tt, set_buf (<[i := f b]> (buf c)) c).
Proof. unfold upd_buf, mbind, M_bind. by rewrite get_buf_run. Qed.

Lemma holdingsleep_run : holdingsleep i c = Ok (lock_locked b && (lock_pid b =? curpid c), c).
Proof. unfold holdingsleep, mbind, M_bind. by rewrite get_buf_run. Qed.

Lemma set_buf_lookup f : buf (set_buf (<[i := f]> (buf c)) c) !! i = Some f.
Proof. cbn. apply list_lookup_insert_eq. by eapply lookup_lt_Some. Qed.
End runs.

Lemma set_buf_twice c i f g :
  set_buf (<[i := g]> (buf (set_buf (<[i := f]> (buf c)) c))) (set_buf (<[i := f]> (buf c)) c) =
  set_buf (<[i := g]> (buf c)) c.
Proof. unfold set_buf. cbn. by rewrite list_insert_insert_eq. Qed.

(** ** block_get, block_read *)

Definition with_buf (i : nat) (b : block_buffer) (c : block_cache) : block_cache :=
  mkcache false (<[i := b]> (buf c)) (lru c) (disk c) (bad c) (havedisk1 c) (writes c) (curpid c).

Lemma with_buf_set i b b' c : set_buf (<[i := b']> (buf (with_buf i b c))) (with_buf i b c) = with_buf i b' c.
Proof. unfold with_buf, set_buf. cbn. by rewrite list_insert_insert_eq. Qed.

Lemma with_buf_lookup i b b0 c : buf c !! i = Some b0 → buf (with_buf i b c) !! i = Some b.
Proof. intros. cbn. apply list_lookup_insert_eq. by eapply lookup_lt_Some. Qed.

Lemma acquiresleep_run c i b :
  buf c !! i = Some b → lock_locked b = false →
  acquiresleep i c = Ok (tt, set_buf (<[i := set_lock true (curpid c) b]> (buf c)) c).
Proof.
  intros Hi Hl. unfold acquiresleep. rewrite (bind_run _ _ _ _ _ (get_buf_run _ _ _ Hi)), Hl.
  unfold mbind, M_bind, gets. by rewrite (upd_buf_run _ _ _ Hi).
Qed.

Lemma acquire_run c : lock c = false → acquire c = Ok (tt, set_spin true c).
Proof. intros E. unfold acquire. rewrite gets_bind, E. done. Qed.

Lemma release_run c : lock c = true → release c = Ok (tt, set_spin false c).
Proof. intros E. unfold release. rewrite gets_bind, E. done. Qed.

(** The tail both branches of [block_get] share, [f] being what they write. *)
Lemma block_get_finish c i b f :
  lock c = false → buf c !! i = Some b → lock_locked (f b) = false →
  (upd_buf i f ≫= λ _, release ≫= λ _, acquiresleep i ≫= λ _, mret i) (set_spin true c) =
  Ok (i, with_buf i (set_lock true (curpid c) (f b)) c).
Proof.
  intros Hlock Hi Hl. pose proof (lookup_lt_Some _ _ _ Hi) as Hlt.
  rewrite (bind_run _ _ _ _ _ (upd_buf_run (set_spin true c) i b Hi f)).
  erewrite bind_run by by apply release_run.
  erewrite bind_run; [|apply (acquiresleep_run _ i (f b)); [by apply list_lookup_insert_eq|done]].
  unfold mret, M_ret, with_buf, set_buf. cbn. by rewrite list_insert_insert_eq.
Qed.

Definition matches (k : Z) (b : block_buffer) : bool := (dev b =? ROOTDEV) && (blockno b =? k).

Lemma block_get_hit c k i b :
  lock c = false → scan (matches k) (buf c) (lru c) = Some i →
  buf c !! i = Some b → lock_locked b = false → refcnt b = 0 →
  block_get ROOTDEV k c =
    Ok (i, with_buf i (mkbuf (flags b) (dev b) (blockno b) true (curpid c) 1 (data b)) c).
Proof.
  intros Hlock Hs Hi Hl Hr. unfold block_get.
  rewrite (bind_run _ _ _ _ _ (acquire_run _ Hlock)), !gets_bind. cbn [buf lru set_spin].
  fold (matches k). rewrite Hs, (block_get_finish _ _ b) by done.
  unfold set_refcnt, set_lock. cbn. by rewrite Hr.
Qed.

Lemma block_get_miss c k i b :
  lock c = false → scan (matches k) (buf c) (lru c) = None →
  scan idle (buf c) (rev (lru c)) = Some i → buf c !! i = Some b → lock_locked b = false →
  block_get ROOTDEV k c =
    Ok (i, with_buf i (mkbuf 0 ROOTDEV k true (curpid c) 1 (data b)) c).
Proof.
  intros Hlock Hs Hs' Hi Hl. unfold block_get.
  rewrite (bind_run _ _ _ _ _ (acquire_run _ Hlock)), !gets_bind. cbn [buf lru set_spin].
  fold (matches k) idle. rewrite Hs, Hs'. by rewrite (block_get_finish _ _ b).
Qed.

(** Reading a block the cache does not hold valid. *)
Lemma iderw_read c i b d :
  buf c !! i = Some b → flags b = 0 → dev b = 1 → lock_locked b = true →
  lock_pid b = curpid c → havedisk1 c = true → bad c = ∅ → blockno b < FSSIZE →
  disk c !! (1, blockno b) = Some d →
  iderw i c = Ok (tt, set_buf (<[i := mkbuf 2 (dev b) (blockno b) (lock_locked b)
    (lock_pid b) (refcnt b) d]> (buf c)) c).
Proof.
  intros Hi Hf Hd Hl Hp Hhd Hbad Hlt Hdk. unfold iderw.
  rewrite (bind_run _ _ _ _ _ (holdingsleep_run _ _ _ Hi)), Hl, Hp, Z.eqb_refl. cbn [andb negb].
  rewrite (bind_run _ _ _ _ _ (get_buf_run _ _ _ Hi)), Hf.
  change (Z.land 0 _ =? B_VALID) with false. cbv iota.
  rewrite gets_bind, Hhd, Hd. cbn [Z.eqb negb andb].
  rewrite (proj2 (Z.leb_gt _ _)) by done. change (has 0 B_DIRTY) with false.
  change (disk_key 1 (blockno b)) with (1, blockno b). cbv iota zeta.
  rewrite bind_assoc, gets_bind, Hbad, bool_decide_false by set_solver.
  rewrite bind_assoc, gets_bind, bind_assoc, (from_option_bind _ d) by done.
  rewrite (bind_run _ _ _ _ _ (upd_buf_run _ _ _ Hi _)).
  erewrite upd_buf_run by by eapply set_buf_lookup. rewrite set_buf_twice.
  unfold set_flags, set_data. cbn. by rewrite Hf, Hd, Hl, Hp.
Qed.

(** Writing a dirty buffer. *)
Lemma iderw_write c i b :
  buf c !! i = Some b → flags b = 6 → dev b = 1 → lock_locked b = true →
  lock_pid b = curpid c → havedisk1 c = true → blockno b < FSSIZE →
  iderw i c = Ok (tt, set_buf (<[i := set_flags 2 b]> (buf c))
    (disk_write (1, blockno b) (data b) c)).
Proof.
  intros Hi Hf Hd Hl Hp Hhd Hlt. unfold iderw.
  rewrite (bind_run _ _ _ _ _ (holdingsleep_run _ _ _ Hi)), Hl, Hp, Z.eqb_refl. cbn [andb negb].
  rewrite (bind_run _ _ _ _ _ (get_buf_run _ _ _ Hi)), Hf.
  change (Z.land 6 _ =? B_VALID) with false. cbv iota.
  rewrite gets_bind, Hhd, Hd. cbn [Z.eqb negb andb].
  rewrite (proj2 (Z.leb_gt _ _)) by done. change (has 6 B_DIRTY) with true.
  change (disk_key 1 (blockno b)) with (1, blockno b). cbv iota zeta.
  rewrite modify_bind, (upd_buf_run (disk_write _ _ c) i b) by done.
  by rewrite Hf.
Qed.

Lemma with_buf_handle c i b b' j k :
  buf c !! i = Some b → (dev b = 1 → lock_locked b = true → dev b' = 1 ∧ blockno b' = blockno b ∧ lock_locked b' = true) →
  handle c j k → handle (with_buf i b' c) j k.
Proof.
  intros Hi Hb (b0 & Hj & Hd & Hk & Hl). pose proof (lookup_lt_Some _ _ _ Hi).
  destruct (decide (i = j)) as [->|Hne].
  - rewrite Hi in Hj. injection Hj as ->. destruct (Hb Hd Hl) as (? & ? & ?).
    exists b'. cbn. rewrite list_lookup_insert_eq by done. by subst.
  - exists b0. cbn. by rewrite list_lookup_insert_ne by done.
Qed.

(** ** The laws *)

Lemma abs_ok_hold A k d : abs_ok A → is_Some (a_disk A !! k) → length d = BSIZE → abs_ok (hold k d A).
Proof.
  intros [H1 H2 H3] Hk Hd. split; cbn; [done..|]. intros j e.
  rewrite lookup_insert_Some. intros [[<- <-]|[_ ?]]; [done|]. by eapply H3.
Qed.

Lemma abs_ok_unhold A k : abs_ok A → abs_ok (unhold k A).
Proof.
  intros [H1 H2 H3]. split; cbn; [done..|]. intros j e [_ ?]%lookup_delete_Some. by eapply H3.
Qed.

Lemma abs_ok_pin A k d : abs_ok A → is_Some (a_disk A !! k) → length d = BSIZE → abs_ok (pin k d A).
Proof.
  intros [H1 H2 H3] Hk Hd. split; cbn; [done| |done]. intros j e.
  rewrite lookup_insert_Some. intros [[<- <-]|[_ ?]]; [done|]. by eapply H2.
Qed.

Lemma abs_ok_flush A k d : abs_ok A → is_Some (a_disk A !! k) → length d = BSIZE → abs_ok (flush k d A).
Proof.
  intros [H1 H2 H3] Hk Hd. pose proof Hk as [x Hx]. destruct (H1 _ _ Hx) as [Hr _].
  assert (∀ j, is_Some (a_disk A !! j) → is_Some (<[k := d]> (a_disk A) !! j)) as Hs.
  { intros j. rewrite lookup_insert. case_decide; eauto. }
  split; cbn.
  - intros j e. rewrite lookup_insert_Some. intros [[<- <-]|[_ ?]]; [done|]. by eapply H1.
  - intros j e [_ He]%lookup_delete_Some. destruct (H2 _ _ He). auto.
  - intros j e He. destruct (H3 _ _ He). auto.
Qed.

Lemma rep_view_disk c A k d : rep c A → view A k = Some d → is_Some (a_disk A !! k).
Proof.
  intros Hr. unfold view. destruct (a_mem A !! k) eqn:E; [|eauto].
  intros _. by eapply (Block.ok_mem _ (r_ok _ _ Hr)).
Qed.

Lemma agree_hold k d A : agree_except k A (hold k d A).
Proof. intros j Hj. cbn. by rewrite lookup_insert_ne by done. Qed.

(** Taking hold of block [k] in buffer [i], which then contains [d]. *)
Lemma rep_take c A i b k d :
  rep c A → buf c !! i = Some b → lock_locked b = false → view A k = Some d →
  ((dev b = 1 ∧ blockno b = k) ∨
   (¬ cached c k ∧ (dev b = 1 → a_mem A !! blockno b = None ∧ a_held A !! blockno b = None))) →
  let b' := mkbuf (match a_mem A !! k with Some _ => 6 | None => 2 end) 1 k true (curpid c) 1 d in
  rep (with_buf i b' c) (hold k d A) ∧ handle (with_buf i b' c) i k ∧
  trace (with_buf i b' c) = trace c ∧ ∀ j k', handle c j k' → handle (with_buf i b' c) j k'.
Proof.
  intros Hr Hi Hl Hv Hk b'. split; [|split; [|split]].
  - eapply rep_update; [done..|apply agree_hold| | | |].
    + right. cbn. split; [done|]. split; [done|]. by rewrite lookup_insert_eq.
    + apply (r_lru _ _ Hr).
    + apply (r_disk _ _ Hr).
    + apply abs_ok_hold; [apply (r_ok _ _ Hr)|by eapply rep_view_disk|].
      by eapply Block.view_range; [apply (r_ok _ _ Hr)|].
  - exists b'. split; [by eapply with_buf_lookup|done].
  - done.
  - intros j k'. eapply with_buf_handle; [done|]. congruence.
Qed.

Lemma rep_hit c A k i :
  rep c A → a_held A !! k = None → scan (matches k) (buf c) (lru c) = Some i →
  ∃ b, buf c !! i = Some b ∧ dev b = 1 ∧ blockno b = k ∧ lock_locked b = false ∧ refcnt b = 0 ∧
    view A k = Some (data b) ∧ flags b = match a_mem A !! k with Some _ => 6 | None => 2 end.
Proof.
  intros Hr Hh (_ & b & Hi & Hm)%scan_Some. unfold matches, ROOTDEV in Hm.
  apply andb_true_iff in Hm as [Hd Hk]. zbool. exists b.
  destruct (r_buf _ _ Hr _ _ Hi) as [(? & _)|(_ & Hf & Hb)]; [lia|]. rewrite Hk in *.
  destruct (lock_locked b); [destruct Hb as (_ & _ & ?); congruence|].
  destruct Hb as (? & _ & ?). auto 10.
Qed.

Lemma rep_miss c A k :
  rep c A → scan (matches k) (buf c) (lru c) = None → ¬ cached c k.
Proof.
  intros Hr Hs (i & b & Hi & Hd & Hk).
  pose proof (scan_None _ _ _ _ _ Hs (proj1 (rep_in_lru _ _ _ _ Hr Hi)) Hi) as H.
  unfold matches, ROOTDEV in H. by rewrite Hd, Hk, !Z.eqb_refl in H.
Qed.

Lemma rep_idle c A i b :
  rep c A → buf c !! i = Some b → idle b = true →
  lock_locked b = false ∧ (dev b = 1 → a_mem A !! blockno b = None ∧ a_held A !! blockno b = None).
Proof.
  intros Hr Hi Hid. unfold idle in Hid. apply andb_true_iff in Hid as [Hz Hd]. zbool.
  destruct (r_buf _ _ Hr _ _ Hi) as [(? & _ & _ & ?)|(_ & Hf & Hb)]; [split; [done|lia]|].
  destruct (lock_locked b); [lia|]. split; [done|]. intros _.
  rewrite Hf in Hd. destruct (a_mem A !! blockno b); [done|]. by destruct Hb as (_ & ? & _).
Qed.

Lemma block_read_ok c A k d :
  rep c A → a_held A !! k = None → view A k = Some d → room A k →
  wp (block_read ROOTDEV k) (λ i c', rep c' (hold k d A) ∧ handle c' i k ∧
    trace c' = trace c ∧ ∀ j k', handle c j k' → handle c' j k') c.
Proof.
  intros Hr Hh Hv Hroom. unfold block_read. apply wp_run.
  destruct (scan (matches k) (buf c) (lru c)) as [i|] eqn:Hs.
  - destruct (rep_hit _ _ _ _ Hr Hh Hs) as (b & Hi & Hd & Hk & Hl & Hrc & Hvd & Hf).
    rewrite Hv in Hvd. injection Hvd as Hvd.
    rewrite (bind_run _ _ _ _ _ (block_get_hit _ _ _ _ (r_lock _ _ Hr) Hs Hi Hl Hrc)).
    rewrite (bind_run _ _ _ _ _ (get_buf_run _ _ _ (with_buf_lookup _ _ _ _ Hi))). cbn [flags].
    replace (has (flags b) B_VALID) with true by (rewrite Hf; by destruct (a_mem A !! k)).
    rewrite ret_bind, Hf, Hd, Hk, <- Hvd. do 2 eexists. split; [done|].
    eapply rep_take; eauto.
  - pose proof (rep_miss _ _ _ Hr Hs) as Hnc.
    assert (a_mem A !! k = None) as Hm.
    { destruct (a_mem A !! k) eqn:E; [|done]. exfalso. apply Hnc, (r_used _ _ Hr). rewrite E. eauto. }
    assert ((size (dom (a_mem A) ∪ dom (a_held A)) < NBUF)%nat) as Hsz.
    { destruct Hroom as [H|H]; [rewrite Hm in H; by destruct H|done]. }
    destruct (scan idle (buf c) (rev (lru c))) as [i|] eqn:Hs'.
    2: { destruct (idle_exists _ _ Hr Hsz) as (i & b & Hi & Hid).
         pose proof (scan_None _ _ _ _ _ Hs' (proj2 (rep_in_lru _ _ _ _ Hr Hi)) Hi). congruence. }
    pose proof Hs' as (_ & b & Hi & Hid)%scan_Some.
    destruct (rep_idle _ _ _ _ Hr Hi Hid) as [Hl Hno].
    rewrite (bind_run _ _ _ _ _ (block_get_miss _ _ _ _ (r_lock _ _ Hr) Hs Hs' Hi Hl)).
    rewrite (bind_run _ _ _ _ _ (get_buf_run _ _ _ (with_buf_lookup _ _ _ _ Hi))).
    change (has (flags _) B_VALID) with false. cbv iota.
    pose proof (Block.view_range _ _ _ (r_ok _ _ Hr) Hv) as [? _].
    unfold view in Hv. rewrite Hm in Hv.
    erewrite bind_run; [|eapply iderw_read; [by eapply with_buf_lookup|done..|apply (r_hd _ _ Hr)
      |apply (r_bad _ _ Hr)|cbn; lia|by rewrite <- Hv, <- (r_disk _ _ Hr)]].
    rewrite with_buf_set. cbn. do 2 eexists. split; [done|].
    pose proof (rep_take c A i b k d Hr Hi Hl) as Ht. rewrite Hm in Ht. apply Ht; [|auto].
    unfold view. by rewrite Hm.
Qed.

(** The buffer behind a handle. *)
Lemma rep_handle c A i k d :
  rep c A → handle c i k → a_held A !! k = Some d →
  buf c !! i = Some (mkbuf (match a_mem A !! k with Some _ => 6 | None => 2 end)
    1 k true (curpid c) 1 d).
Proof.
  intros Hr (b & Hi & Hd & Hk & Hl) Hh.
  destruct (r_buf _ _ Hr _ _ Hi) as [(? & _)|(_ & Hf & Hb)]; [lia|].
  rewrite Hl in Hb. destruct Hb as (Hp & Hrc & Hdata). rewrite Hk in *.
  destruct b as [f dv bn l p r da]. cbn in *. by simplify_eq.
Qed.

Lemma set_buf_with_buf c A i b : rep c A → set_buf (<[i := b]> (buf c)) c = with_buf i b c.
Proof. intros Hr. unfold set_buf, with_buf. by rewrite (r_lock _ _ Hr). Qed.

Lemma handle_self_update c A i k d b' j k' :
  rep c A → handle c i k → a_held A !! k = Some d →
  dev b' = 1 → blockno b' = k → lock_locked b' = true →
  handle c j k' → handle (with_buf i b' c) j k'.
Proof.
  intros Hr Hi Hh ? ? ?. eapply with_buf_handle; [by eapply rep_handle|]. cbn. auto.
Qed.

Lemma block_write_ok c A i k d :
  rep c A → handle c i k → a_held A !! k = Some d →
  wp (block_write i) (λ _ c', rep c' (flush k d A) ∧ trace c' = trace c ++ [(k, d)] ∧
    ∀ j k', handle c j k' → handle c' j k') c.
Proof.
  intros Hr Hh Hd. pose proof (rep_handle _ _ _ _ _ Hr Hh Hd) as Hi.
  destruct (Block.ok_held _ (r_ok _ _ Hr) _ _ Hd) as [Hk Hlen]. pose proof Hk as [x Hx].
  destruct (Block.ok_disk _ (r_ok _ _ Hr) _ _ Hx) as [Hrange _].
  unfold block_write. apply wp_run.
  rewrite (bind_run _ _ _ _ _ (holdingsleep_run _ _ _ Hi)). cbn [lock_locked lock_pid].
  rewrite assert_bind by (by rewrite Z.eqb_refl).
  rewrite (bind_run _ _ _ _ _ (upd_buf_run _ _ _ Hi _)).
  set (b1 := mkbuf 6 1 k true (curpid c) 1 d).
  replace (set_flags _ _) with b1 by (unfold b1, set_flags; cbn; by destruct (a_mem A !! k)).
  rewrite (set_buf_with_buf _ _ _ _ Hr).
  erewrite iderw_write; [|by eapply with_buf_lookup|done..|apply (r_hd _ _ Hr)|cbn; lia].
  do 2 eexists. split; [done|]. split; [|split].
  - unfold set_buf, disk_write, with_buf. cbn. rewrite list_insert_insert_eq.
    eapply rep_update; [done..|by left| | |apply (r_lru _ _ Hr)| |].
    + intros j Hj. cbn. by rewrite lookup_insert_ne, lookup_delete_ne by done.
    + right. cbn. rewrite lookup_delete_eq. auto.
    + intros j. cbn. rewrite !lookup_insert, (r_disk _ _ Hr).
      repeat case_decide; congruence.
    + by apply abs_ok_flush; [apply (r_ok _ _ Hr)|..].
  - unfold trace. cbn. by rewrite fmap_app.
  - intros j k' Hj.
    assert (handle (with_buf i (set_flags 2 b1) c) j k') as (b & Hb & ?)
      by by eapply handle_self_update.
    exists b. split; [|done]. cbn in *. by rewrite list_insert_insert_eq.
Qed.

Lemma block_release_ok c A i k d :
  rep c A → handle c i k → a_held A !! k = Some d → view A k = Some d →
  wp (block_release i) (λ _ c', rep c' (unhold k A) ∧ trace c' = trace c ∧
    ∀ j k', j ≠ i → handle c j k' → handle c' j k') c.
Proof.
  intros Hr Hh Hd Hv. pose proof (rep_handle _ _ _ _ _ Hr Hh Hd) as Hi.
  pose proof (lookup_lt_Some _ _ _ Hi) as Hlt.
  unfold block_release. apply wp_run.
  rewrite (bind_run _ _ _ _ _ (holdingsleep_run _ _ _ Hi)). cbn [lock_locked lock_pid].
  rewrite assert_bind by (by rewrite Z.eqb_refl).
  unfold releasesleep. rewrite (bind_run _ _ _ _ _ (upd_buf_run _ _ _ Hi _)).
  rewrite (set_buf_with_buf _ _ _ _ Hr).
  erewrite bind_run by by apply acquire_run.
  set (b1 := set_lock false 0 _). set (c1 := set_spin true (with_buf i b1 c)).
  assert (buf c1 !! i = Some b1) as Hi1 by by apply list_lookup_insert_eq.
  rewrite (bind_run _ _ _ _ _ (upd_buf_run _ _ _ Hi1 _)).
  erewrite bind_run by by eapply get_buf_run, set_buf_lookup.
  cbn [b1 set_lock refcnt set_refcnt]. change (u32 (1 - 1) =? 0) with true. cbv iota.
  rewrite modify_bind. rewrite release_run by done. do 2 eexists. split; [done|].
  unfold c1, with_buf, set_spin, set_lru, set_buf. cbn. rewrite list_insert_insert_eq.
  split; [|split; [done|]].
  - eapply rep_update; [done..|by left| | | |apply (r_disk _ _ Hr)|].
    + intros j Hj. cbn. by rewrite lookup_delete_ne by done.
    + right. cbn. split; [done|]. split; [done|]. split; [done|].
      split; [apply lookup_delete_eq|done].
    + rewrite <- (r_lru _ _ Hr). symmetry. pose proof (rep_in_lru _ _ _ _ Hr Hi) as [Hin _].
      assert (NoDup (lru c)) as Hnd by (rewrite (r_lru _ _ Hr); apply NoDup_ListNoDup, seq_NoDup).
      revert Hin Hnd. generalize (lru c). induction l as [|j l IH]; [by intros ?%elem_of_nil|].
      rewrite elem_of_cons, NoDup_cons. cbn. intros Hin [Hj Hnd].
      destruct (Nat.eq_dec i j) as [->|Hne].
      * rewrite notin_remove by (by rewrite <- list_elem_of_In). done.
      * destruct Hin as [->|Hin]; [done|]. rewrite (IH Hin Hnd) at 1. apply perm_swap.
    + apply abs_ok_unhold, (r_ok _ _ Hr).
  - intros j k' Hne (b & Hb & ?). exists b. cbn. by rewrite list_lookup_insert_ne.
Qed.

Lemma buf_store_ok c A i k d d' :
  rep c A → handle c i k → a_held A !! k = Some d → length d' = BSIZE →
  wp (buf_store i d') (λ _ c', rep c' (hold k d' A) ∧ trace c' = trace c ∧
    ∀ j k', handle c j k' → handle c' j k') c.
Proof.
  intros Hr Hh Hd Hlen. pose proof (rep_handle _ _ _ _ _ Hr Hh Hd) as Hi.
  unfold buf_store. apply wp_run. rewrite (upd_buf_run _ _ _ Hi).
  rewrite (set_buf_with_buf _ _ _ _ Hr). do 2 eexists. split; [done|]. split; [|split; [done|]].
  - eapply rep_update; [done..|by left|apply agree_hold| |apply (r_lru _ _ Hr)|apply (r_disk _ _ Hr)|].
    + right. cbn. split; [done|]. split; [done|]. by rewrite lookup_insert_eq.
    + apply abs_ok_hold; [apply (r_ok _ _ Hr)| |done].
      by eapply (Block.ok_held _ (r_ok _ _ Hr)).
  - intros j k'. by eapply handle_self_update.
Qed.

Lemma buf_pin_ok c A i k d :
  rep c A → handle c i k → a_held A !! k = Some d →
  wp (buf_pin i) (λ _ c', rep c' (pin k d A) ∧ trace c' = trace c ∧
    ∀ j k', handle c j k' → handle c' j k') c.
Proof.
  intros Hr Hh Hd. pose proof (rep_handle _ _ _ _ _ Hr Hh Hd) as Hi.
  destruct (Block.ok_held _ (r_ok _ _ Hr) _ _ Hd) as [Hk Hlen].
  unfold buf_pin. apply wp_run. rewrite (upd_buf_run _ _ _ Hi).
  rewrite (set_buf_with_buf _ _ _ _ Hr). do 2 eexists. split; [done|]. split; [|split; [done|]].
  - eapply rep_update; [done..|by left| | |apply (r_lru _ _ Hr)|apply (r_disk _ _ Hr)|].
    + intros j Hj. cbn. by rewrite lookup_insert_ne by done.
    + right. cbn. split; [done|]. rewrite lookup_insert_eq.
      split; [by destruct (a_mem A !! k)|]. auto.
    + by apply abs_ok_pin; [apply (r_ok _ _ Hr)|..].
  - intros j k'. by eapply handle_self_update.
Qed.

(** The cache implements the block device interface. *)
#[export] Program Instance bio_laws : Block.BlockLaws block_cache := {
  Block.rep := rep;
  Block.handle := handle;
  Block.trace := trace;
}.
Next Obligation. intros c A Hr. apply (r_ok _ _ Hr). Qed.
Next Obligation. intros c i k k' (b & Hb & _ & <- & _) (b' & Hb' & _ & <- & _). congruence. Qed.
Next Obligation. intros c A k d. apply block_read_ok. Qed.
Next Obligation. intros c A i k d. apply block_write_ok. Qed.
Next Obligation. intros c A i k d. apply block_release_ok. Qed.
Next Obligation.
  intros c A i k Hr (b & Hi & _ & Hk & _). cbn. unfold buf_blockno.
  apply wp_run. rewrite (bind_run _ _ _ _ _ (get_buf_run _ _ _ Hi)). eauto.
Qed.
Next Obligation.
  intros c A i k d Hr Hh Hd. cbn. unfold buf_data. apply wp_run.
  rewrite (bind_run _ _ _ _ _ (get_buf_run _ _ _ (rep_handle _ _ _ _ _ Hr Hh Hd))). eauto.
Qed.
Next Obligation. intros c A i k d d'. apply buf_store_ok. Qed.
Next Obligation. intros c A i k d. apply buf_pin_ok. Qed.

(** ** Boot and exhaustion *)

(** The statically allocated (zeroed) cache, over a disk. *)
Definition blank : block_buffer := mkbuf 0 0 0 false 0 0 (replicate BSIZE 0).
Definition boot (dk : gmap (Z * Z) (list Z)) (pid : Z) : block_cache :=
  mkcache false (replicate NBUF blank) [] dk ∅ true [] pid.

Lemma block_init_ok dk pid (A : gmap Z (list Z)) :
  (∀ k, dk !! (1, k) = A !! k) → abs_ok (mkabs A ∅ ∅) →
  wp block_init (λ _ c', rep c' (mkabs A ∅ ∅) ∧ trace c' = []) (boot dk pid).
Proof.
  intros Hdk Hok. apply wp_run.
  exists tt, (mkcache false (replicate NBUF blank) (rev (seq 0 NBUF)) dk ∅ true [] pid).
  split; [reflexivity|]. split; [|done].
  assert (∀ i b, replicate NBUF blank !! i = Some b → b = blank) as Hb.
  { by intros i b [-> _]%lookup_replicate_1. }
  split; cbn -[replicate NBUF BSIZE seq]; try done.
  - symmetry. apply Permutation_rev.
  - intros i b ->%Hb. by left.
  - intros i j b b' ->%Hb. done.
  - intros k. rewrite !lookup_empty. intros [[? ?]|[? ?]]; done.
Qed.

(** The cache after [block_init]. *)
Definition booted (dk : gmap (Z * Z) (list Z)) (pid : Z) : block_cache :=
  match block_init (boot dk pid) with Ok (_, c) => c | Err _ => boot dk pid end.

Lemma booted_rep dk pid (A : gmap Z (list Z)) :
  (∀ k, dk !! (1, k) = A !! k) → abs_ok (mkabs A ∅ ∅) → rep (booted dk pid) (mkabs A ∅ ∅).
Proof.
  intros Hdk Hok. pose proof (block_init_ok dk pid A Hdk Hok) as H. unfold wp in H. unfold booted.
  destruct (block_init _) as [[u c]|]; [apply H|done].
Qed.

(** With every buffer pinned or held, a block that is not cached cannot be read. *)
Lemma block_read_full c A k :
  rep c A → (∀ i b, buf c !! i = Some b → idle b = false) → ¬ cached c k →
  block_read ROOTDEV k c = Err (EPanic "bget: no buffers").
Proof.
  intros Hr Hid Hc. unfold block_read. apply bind_err. unfold block_get.
  rewrite (bind_run _ _ _ _ _ (acquire_run _ (r_lock _ _ Hr))), !gets_bind. cbn [buf lru set_spin].
  fold (matches k) idle.
  destruct (scan (matches k) (buf c) (lru c)) as [i|] eqn:Hs.
  { exfalso. apply Hc. apply scan_Some in Hs as (_ & b & Hi & Hm). exists i, b.
    unfold matches, ROOTDEV in Hm. apply andb_true_iff in Hm as [??]. by zbool. }
  destruct (scan idle (buf c) (rev (lru c))) as [i|] eqn:Hs'; [|done].
  apply scan_Some in Hs' as (_ & b & Hi & Hm). rewrite (Hid _ _ Hi) in Hm. done.
Qed.

(** ** Properties *)

(** C28. [block_read] returns, whatever mix of hits and recycling it takes, a
    locked buffer that caches the requested block with its latest content: the
    pinned modification if there is one and the disk content otherwise.  It
    writes nothing to disk, evicts no pinned block and invalidates no buffer
    the caller already holds. *)
Theorem block_read_correct c A k d :
  rep c A → a_held A !! k = None → view A k = Some d → room A k →
  ∃ i c', block_read ROOTDEV k c = Ok (i, c') ∧ rep c' (hold k d A) ∧
    handle c' i k ∧ buf_data i c' = Ok (d, c') ∧ trace c' = trace c ∧
    ∀ j k', handle c j k' → handle c' j k'.
Proof.
  intros Hr Hh Hv Hroom.
  destruct (proj1 (wp_run _ _ _) (block_read_ok _ _ _ _ Hr Hh Hv Hroom))
    as (i & c' & E & Hr' & Hi & Ht & Hf).
  exists i, c'. repeat (split; [done|]). split; [|done].
  assert (a_held (hold k d A) !! k = Some d) as Hk by apply lookup_insert_eq.
  unfold buf_data. by rewrite (bind_run _ _ _ _ _ (get_buf_run _ _ _ (rep_handle _ _ _ _ _ Hr' Hi Hk))).
Qed.

(** When every one of the [NBUF] buffers is pinned by the log or held,
    reading a block that is not in the cache is a kernel panic. *)
Theorem block_read_exhausted c A k :
  rep c A → (∀ i b, buf c !! i = Some b → idle b = false) → ¬ cached c k →
  block_read ROOTDEV k c = Err (EPanic "bget: no buffers").
Proof. apply block_read_full. Qed.

(** A disk with two blocks, at boot; and the cache when it is full of pinned
    copies of thirty blocks. *)
Definition demo_disk : gmap Z (list Z) :=
  {[ 2 := replicate BSIZE 7; 3 := replicate BSIZE 9 ]}.
Definition demo_cells : gmap (Z * Z) (list Z) :=
  {[ (1, 2) := replicate BSIZE 7; (1, 3) := replicate BSIZE 9 ]}.
Definition demo_abs : abs := mkabs demo_disk ∅ ∅.
Definition demo_boot : block_cache := booted demo_cells 5.

Lemma demo_abs_ok : abs_ok demo_abs.
Proof.
  split; unfold demo_abs, demo_disk; cbn -[BSIZE].
  - intros k d [[<- <-]|[_ [<- <-]%lookup_singleton_Some]]%lookup_insert_Some;
      by rewrite length_replicate.
  - by intros k d ?%lookup_empty_Some.
  - by intros k d ?%lookup_empty_Some.
Qed.

Lemma demo_boot_rep : rep demo_boot demo_abs.
Proof.
  assert (∀ k, demo_cells !! (1, k) = demo_disk !! k) as Hdk.
  { intros k. unfold demo_cells, demo_disk.
    destruct (decide (k = 2)) as [->|]; [by rewrite !lookup_insert_eq|].
    rewrite !lookup_insert_ne by congruence.
    destruct (decide (k = 3)) as [->|]; [by rewrite !lookup_singleton_eq|].
    by rewrite !lookup_singleton_ne by congruence. }
  by apply booted_rep; [|apply demo_abs_ok].
Qed.

Lemma block_read_correct_witness :
  ∃ i c', block_read ROOTDEV 2 demo_boot = Ok (i, c') ∧
    rep c' (hold 2 (replicate BSIZE 7) demo_abs) ∧ handle c' i 2 ∧
    buf_data i c' = Ok (replicate BSIZE 7, c') ∧ trace c' = trace demo_boot ∧
    ∀ j k', handle demo_boot j k' → handle c' j k'.
Proof.
  apply (block_read_correct demo_boot demo_abs 2 (replicate BSIZE 7)).
  - apply demo_boot_rep.
  - reflexivity.
  - reflexivity.
  - right. vm_compute. lia.
Defined.

(** A cache all of whose buffers are pinned. *)
Definition full_blocks : gmap Z (list Z) :=
  list_to_map ((λ i : nat, (Z.of_nat i, replicate BSIZE 0)) <$> seq 0 NBUF).
Definition full_cache : block_cache :=
  mkcache false ((λ i : nat, mkbuf 6 1 (Z.of_nat i) false 0 0 (replicate BSIZE 0)) <$> seq 0 NBUF)
    (seq 0 NBUF) (kmap (pair 1) full_blocks) ∅ true [] 5.

Lemma full_blocks_lookup k d :
  full_blocks !! k = Some d → 0 ≤ k < 30 ∧ d = replicate BSIZE 0.
Proof.
  intros H%elem_of_list_to_map_2. apply list_elem_of_fmap in H as (i & [= -> ->] & Hi).
  apply elem_of_seq in Hi. unfold NBUF in Hi. split; [lia|done].
Qed.

Lemma full_blocks_some k : 0 ≤ k < 30 → full_blocks !! k = Some (replicate BSIZE 0).
Proof.
  intros Hk. destruct (full_blocks !! k) as [d|] eqn:E.
  { by apply full_blocks_lookup in E as [_ ->]. }
  exfalso. apply not_elem_of_list_to_map_2 in E. apply E.
  rewrite <- list_fmap_compose. apply list_elem_of_fmap. exists (Z.to_nat k). cbn -[seq NBUF].
  split; [lia|]. apply elem_of_seq. unfold NBUF. lia.
Qed.

Lemma full_buf i b :
  buf full_cache !! i = Some b →
  (i < 30)%nat ∧ b = mkbuf 6 1 (Z.of_nat i) false 0 0 (replicate BSIZE 0).
Proof.
  unfold full_cache. cbn -[NBUF BSIZE seq]. rewrite list_lookup_fmap, fmap_Some.
  intros (j & [-> Hj]%lookup_seq & ->). by rewrite Nat.add_0_l.
Qed.

Lemma full_rep : rep full_cache (mkabs full_blocks full_blocks ∅).
Proof.
  assert (abs_ok (mkabs full_blocks full_blocks ∅)) as Hok.
  { split; cbn -[BSIZE].
    - intros k d [? ->]%full_blocks_lookup. unfold FSSIZE. rewrite length_replicate. lia.
    - intros k d Hk. split; [by exists d|]. apply full_blocks_lookup in Hk as [_ ->].
      apply length_replicate.
    - by intros k d ?%lookup_empty_Some. }
  split; try done.
  - intros k. apply (lookup_kmap (M1 := gmap Z) (M2 := gmap (Z * Z)) (pair 1)).
  - intros i b [Hi ->]%full_buf. right. cbn -[full_blocks BSIZE].
    rewrite full_blocks_some by lia. unfold view. cbn -[full_blocks BSIZE].
    rewrite full_blocks_some by lia. auto 10.
  - intros i j b b' [_ ->]%full_buf [_ ->]%full_buf. cbn. lia.
  - intros k. cbn -[full_blocks]. rewrite lookup_empty. intros [[d Hd]|[? ?]]; [|done].
    apply full_blocks_lookup in Hd as [Hk _].
    exists (Z.to_nat k), (mkbuf 6 1 k false 0 0 (replicate BSIZE 0)).
    unfold full_cache. cbn -[NBUF BSIZE seq]. rewrite list_lookup_fmap.
    rewrite lookup_seq_lt by (unfold NBUF; lia). cbn -[BSIZE]. rewrite Z2Nat.id by lia. done.
Qed.

Lemma block_read_exhausted_witness :
  block_read ROOTDEV 31 full_cache = Err (EPanic "bget: no buffers").
Proof.
  apply (block_read_exhausted full_cache (mkabs full_blocks full_blocks ∅) 31).
  - apply full_rep.
  - by intros i b [_ ->]%full_buf.
  - intros (i & b & [Hi ->]%full_buf & _ & E). cbn in E. lia.
Defined.

End Bio.
