(* ===== verification/Log.v ===== *)
(** * The write-ahead log (kernel/log.c)

    The log runs on any block device that satisfies [Block.BlockLaws]; the
    buffer cache of [Bio] is one.  [log] is the structure of log.c as the
    thread that runs the operation sees it. *)

From S2P Require Import Prelude Words Block Bio.

Module Log.

Import Block.

Definition MAXOPBLOCKS : Z := 10.
Definition LOGSIZE : nat := 30.

Section log.
Context {D : Type} `{ops : BlockOps D}.

(** [lh_block] is the array [lh.block[LOGSIZE]]; [wakeups] counts the calls
    [wakeup(&log)] and [dev] is the block device the log lives on. *)
Record log := mklog {
  lock : bool;
  start : Z;
  size : Z;
  outstanding : Z;
  committing : bool;
  ldev : Z;
  lh_n : Z;
  lh_block : list Z;
  wakeups : nat;
  dev : D;
}.

Definition set_lock (b : bool) (l : log) : log :=
  mklog b (start l) (size l) (outstanding l) (committing l) (ldev l) (lh_n l) (lh_block l) (wakeups l) (dev l).
Definition set_outstanding (n : Z) (l : log) : log :=
  mklog (lock l) (start l) (size l) n (committing l) (ldev l) (lh_n l) (lh_block l) (wakeups l) (dev l).
Definition set_committing (b : bool) (l : log) : log :=
  mklog (lock l) (start l) (size l) (outstanding l) b (ldev l) (lh_n l) (lh_block l) (wakeups l) (dev l).
Definition set_n (n : Z) (l : log) : log :=
  mklog (lock l) (start l) (size l) (outstanding l) (committing l) (ldev l) n (lh_block l) (wakeups l) (dev l).
Definition set_blocks (bs : list Z) (l : log) : log :=
  mklog (lock l) (start l) (size l) (outstanding l) (committing l) (ldev l) (lh_n l) bs (wakeups l) (dev l).
Definition set_dev (d : D) (l : log) : log :=
  mklog (lock l) (start l) (size l) (outstanding l) (committing l) (ldev l) (lh_n l) (lh_block l) (wakeups l) d.
Definition wake (l : log) : log :=
  mklog (lock l) (start l) (size l) (outstanding l) (committing l) (ldev l) (lh_n l) (lh_block l)
    (S (wakeups l)) (dev l).

Abbreviation L := (M log).

(** A buffer cache operation, run on the device the log sits on. *)
Definition bio {A} (m : M D A) : L A := zoom dev set_dev m.

Definition acquire : L unit :=
  b ← gets lock; _ ← kernel_assert (negb b); modify (set_lock true).
Definition release : L unit :=
  b ← gets lock; _ ← kernel_assert b; modify (set_lock false).

(** [log.lh.block[i] = v]: a store past the array is undefined. *)
Definition store_block (i v : Z) : L unit :=
  bs ← gets lh_block;
  if i <? LOGSIZE then modify (set_blocks (<[Z.to_nat i := v]> bs)) else fail EFault.

Definition load_block (i : Z) : L Z :=
  bs ← gets lh_block; from_option (bs !! Z.to_nat i).

(** [for (tail = 0; tail < log.lh.n; tail++)], [k] iterations left. *)
Fixpoint install_loop (k : nat) (tail : Z) : L unit :=
  match k with
  | O => mret tt
  | S k =>
      d ← gets ldev;
      st ← gets start;
      lbuf ← bio (block_read d (st + tail + 1));
      home ← load_block tail;
      dbuf ← bio (block_read d home);
      src ← bio (buf_data lbuf);
      _ ← bio (buf_store dbuf src);
      _ ← bio (block_write dbuf);
      _ ← bio (block_release lbuf);
      _ ← bio (block_release dbuf);
      install_loop k (tail + 1)
  end.

Definition install_trans : L unit := n ← gets lh_n; install_loop (Z.to_nat n) 0.

(** The header block: [n] in its first eight bytes, then the block numbers. *)
Definition hdr_n (d : list Z) : Z := get64 d 0.
Definition hdr_block (d : list Z) (i : nat) : Z := get64 d (8 + 8 * i).

Fixpoint read_head_loop (k : nat) (i : nat) (d : list Z) : L unit :=
  match k with
  | O => mret tt
  | S k => _ ← store_block i (hdr_block d i); read_head_loop k (i + 1) d
  end.

Definition read_head : L unit :=
  dv ← gets ldev;
  st ← gets start;
  buf ← bio (block_read dv st);
  d ← bio (buf_data buf);
  _ ← modify (set_n (hdr_n d));
  _ ← read_head_loop (Z.to_nat (hdr_n d)) 0 d;
  bio (block_release buf).

Fixpoint write_head_loop (k : nat) (i : nat) (d : list Z) : L (list Z) :=
  match k with
  | O => mret d
  | S k => b ← load_block i; write_head_loop k (i + 1) (put64 d (8 + 8 * i) b)
  end.

Definition write_head : L unit :=
  dv ← gets ldev;
  st ← gets start;
  buf ← bio (block_read dv st);
  n ← gets lh_n;
  d ← bio (buf_data buf);
  d ← write_head_loop (Z.to_nat n) 0 (put64 d 0 n);
  _ ← bio (buf_store buf d);
  _ ← bio (block_write buf);
  bio (block_release buf).

Definition recover_from_log : L unit :=
  _ ← read_head;
  _ ← install_trans;
  _ ← modify (set_n 0);
  write_head.

(** [sb_nlog] and [sb_logstart] are fields of the superblock in block 1. *)
Definition sb_nlog (d : list Z) : Z := get64 d 32.
Definition sb_logstart (d : list Z) : Z := get64 d 40.

(** [sizeof(struct logheader)]: [n] and the block numbers, eight bytes each. *)
Definition logheader_size : nat := 8 + 8 * LOGSIZE.

Definition initlog (dv : Z) : L unit :=
  _ ← (if bool_decide (BSIZE ≤ logheader_size)%nat then panic "initlog: too big logheader"
       else mret tt);
  _ ← modify (set_lock false);
  bp ← bio (block_read dv 1);
  sb ← bio (buf_data bp);
  _ ← bio (block_release bp);
  _ ← modify (λ l, mklog (lock l) (sb_logstart sb) (sb_nlog sb) (outstanding l)
                    (committing l) dv (lh_n l) (lh_block l) (wakeups l) (dev l));
  recover_from_log.

(** [begin_op] sleeps while it cannot be admitted; alone, it sleeps forever. *)
Definition begin_op : L unit :=
  _ ← acquire;
  c ← gets committing;
  n ← gets lh_n;
  o ← gets outstanding;
  if (c : bool) then fail EBlocked
  else if LOGSIZE <? u64 (n + (o + 1) * MAXOPBLOCKS) then fail EBlocked
  else _ ← modify (set_outstanding (u64 (o + 1))); release.

Fixpoint write_log_loop (k : nat) (tail : Z) : L unit :=
  match k with
  | O => mret tt
  | S k =>
      d ← gets ldev;
      st ← gets start;
      to ← bio (block_read d (st + tail + 1));
      home ← load_block tail;
      from ← bio (block_read d home);
      src ← bio (buf_data from);
      _ ← bio (buf_store to src);
      _ ← bio (block_write to);
      _ ← bio (block_release from);
      _ ← bio (block_release to);
      write_log_loop k (tail + 1)
  end.

Definition write_log : L unit := n ← gets lh_n; write_log_loop (Z.to_nat n) 0.

Definition commit : L unit :=
  n ← gets lh_n;
  if 0 <? n then
    _ ← write_log;
    _ ← write_head;
    _ ← install_trans;
    _ ← modify (set_n 0);
    write_head
  else mret tt.

Definition end_op : L unit :=
  _ ← acquire;
  _ ← modify (λ l, set_outstanding (u64 (outstanding l - 1)) l);
  c ← gets committing;
  if (c : bool) then panic "log.committing"
  else
    o ← gets outstanding;
    if o =? 0 then
      _ ← modify (set_committing true);
      _ ← release;
      _ ← commit;
      _ ← acquire;
      _ ← modify (set_committing false);
      _ ← modify wake;
      release
    else _ ← modify wake; release.

(** [log_write] records a modified buffer in the header and pins it.  The index
    its search ends at: the first slot with this block,
    or [n]. *)
Fixpoint find_slot (k : nat) (i : Z) (bs : list Z) (b : Z) : Z :=
  match k with
  | O => i
  | S k => if bool_decide (bs !! Z.to_nat i = Some b) then i else find_slot k (i + 1) bs b
  end.

Definition too_big (l : log) : bool := (LOGSIZE <=? lh_n l) || (u64 (size l - 1) <=? lh_n l).

Definition log_write (buf : nat) : L unit :=
  n ← gets lh_n;
  big ← gets too_big;
  o ← gets outstanding;
  if (big : bool) then panic "too big a transaction"
  else if o <? 1 then panic "log_write outside of trans"
  else
    _ ← acquire;
    b ← bio (buf_blockno buf);
    bs ← gets lh_block;
    let i := find_slot (Z.to_nat n) 0 bs b in
    _ ← store_block i b;
    _ ← (if i =? n then modify (set_n (n + 1)) else mret tt);
    _ ← bio (buf_pin buf);
    release.

End log.

Section laws.
Context {D : Type} {ops : BlockOps D} {laws : BlockLaws D}.
Implicit Types (l : @log D) (A : abs).

Lemma wp_bio {T} (m : M D T) Q l : wp m (λ a d, Q a (set_dev d l)) (dev l) → wp (bio m) Q l.
Proof. apply wp_zoom. Qed.

Lemma set_dev_eq l d d' : set_dev d (set_dev d' l) = set_dev d l.
Proof. done. Qed.

Lemma set_dev_id l : set_dev (dev l) l = l.
Proof. by destruct l. Qed.

Lemma wp_load_block l i h Q :
  lh_block l !! Z.to_nat i = Some h → Q h l → wp (load_block i) Q l.
Proof. intros Hi HQ. unfold load_block. wp_step. wp_step. by eapply wp_from_option. Qed.

(** ** Copying one block over another through the cache *)

Lemma unhold_pair A h k c e :
  h ≠ k → a_held A !! h = None → a_held A !! k = None →
  unhold h (unhold k (flush h c (hold h c (hold k e A)))) = flush h c A.
Proof.
  intros Hne Hh Hk. unfold unhold, flush, hold. cbn. f_equal.
  rewrite (delete_insert_ne _ k h), (delete_insert_id _ k), delete_insert_id by done. done.
Qed.

(** One iteration of [install_trans]: log block [src] is copied to [dst]. *)
Lemma copy_from_log l A tail src dst c x K (Q : unit → log → Prop) :
  rep (dev l) A → lh_block l !! Z.to_nat tail = Some dst → a_held A = ∅ → src ≠ dst →
  view A src = Some c → view A dst = Some x → room A src → room (hold src c A) dst →
  (∀ d', rep d' (flush dst c A) → trace d' = trace (dev l) ++ [(dst, c)] → wp K Q (set_dev d' l)) →
  wp (lbuf ← bio (block_read ROOTDEV src);
      home ← load_block tail;
      dbuf ← bio (block_read ROOTDEV home);
      s ← bio (buf_data lbuf);
      _ ← bio (buf_store dbuf s);
      _ ← bio (block_write dbuf);
      _ ← bio (block_release lbuf);
      _ ← bio (block_release dbuf);
      K) Q l.
Proof.
  intros Hr Hlb Hh Hne Hs Hd Hroom Hroom' HQ.
  apply wp_bind, wp_bio. eapply wp_mono; [eapply (block_read_law _ _ _ _ Hr); [by rewrite Hh|done..]|].
  intros lb d1 (R1 & L1 & T1 & _). cbn beta.
  apply wp_bind, (wp_load_block (set_dev d1 l) _ _ _ Hlb). apply wp_bind, wp_bio. eapply wp_mono.
  { eapply (block_read_law _ _ _ _ R1); [cbn; by rewrite lookup_insert_ne, Hh by done|exact Hd|done]. }
  intros db d2 (R2 & L2 & T2 & F2). pose proof (F2 _ _ L1) as L1'.
  apply wp_bind, wp_bio. eapply wp_mono.
  { eapply (buf_data_law _ _ _ _ c R2 L1'). cbn. rewrite lookup_insert_ne by done. apply lookup_insert_eq. }
  intros s d3 [-> ->].
  apply wp_bind, wp_bio. eapply wp_mono.
  { eapply (buf_store_law _ _ _ _ _ c R2 L2); [cbn; apply lookup_insert_eq|].
    eapply view_range; [by eapply rep_ok|exact Hs]. }
  intros [] d4 (R4 & T4 & F4). rewrite hold_hold in R4.
  apply wp_bind, wp_bio. eapply wp_mono.
  { eapply (block_write_law _ _ _ _ c R4 (F4 _ _ L2)). cbn. apply lookup_insert_eq. }
  intros [] d5 (R5 & T5 & F5).
  apply wp_bind, wp_bio. eapply wp_mono.
  { eapply (block_release_law _ _ _ _ c R5 (F5 _ _ (F4 _ _ L1'))).
    - cbn. rewrite lookup_insert_ne by done. apply lookup_insert_eq.
    - rewrite view_flush, decide_False by done. done. }
  intros [] d6 (R6 & T6 & F6).
  assert (db ≠ lb) as Hb. { intros ->. apply Hne. by eapply handle_key. }
  apply wp_bind, wp_bio. eapply wp_mono.
  { eapply (block_release_law _ _ _ _ c R6 (F6 _ _ Hb (F5 _ _ (F4 _ _ L2)))).
    - cbn. rewrite lookup_delete_ne by done. apply lookup_insert_eq.
    - rewrite view_unhold, view_flush, decide_True by done. done. }
  intros [] d7 (R7 & T7 & _). rewrite unhold_pair in R7 by (done || by rewrite Hh).
  rewrite !set_dev_eq. apply HQ; [done|]. cbn in *. congruence.
Qed.

(** One iteration of [write_log]: the pinned block [src] is copied to [dst]. *)
Lemma copy_to_log l A tail src dst c x K (Q : unit → log → Prop) :
  rep (dev l) A → lh_block l !! Z.to_nat tail = Some src → a_held A = ∅ → src ≠ dst →
  view A src = Some c → view A dst = Some x → room A dst → room (hold dst x A) src →
  (∀ d', rep d' (flush dst c A) → trace d' = trace (dev l) ++ [(dst, c)] → wp K Q (set_dev d' l)) →
  wp (to ← bio (block_read ROOTDEV dst);
      home ← load_block tail;
      from ← bio (block_read ROOTDEV home);
      s ← bio (buf_data from);
      _ ← bio (buf_store to s);
      _ ← bio (block_write to);
      _ ← bio (block_release from);
      _ ← bio (block_release to);
      K) Q l.
Proof.
  intros Hr Hlb Hh Hne Hs Hd Hroom Hroom' HQ.
  apply wp_bind, wp_bio. eapply wp_mono; [eapply (block_read_law _ _ _ _ Hr); [by rewrite Hh|done..]|].
  intros tb d1 (R1 & L1 & T1 & _). cbn beta.
  apply wp_bind, (wp_load_block (set_dev d1 l) _ _ _ Hlb). apply wp_bind, wp_bio. eapply wp_mono.
  { eapply (block_read_law _ _ _ _ R1); [cbn; by rewrite lookup_insert_ne, Hh by done|exact Hs|done]. }
  intros fb d2 (R2 & L2 & T2 & F2). pose proof (F2 _ _ L1) as L1'.
  apply wp_bind, wp_bio. eapply wp_mono.
  { eapply (buf_data_law _ _ _ _ c R2 L2). cbn. apply lookup_insert_eq. }
  intros s d3 [-> ->].
  assert (length c = BSIZE) as Hlen by (eapply view_range; [by eapply rep_ok|exact Hs]).
  apply wp_bind, wp_bio. eapply wp_mono.
  { eapply (buf_store_law _ _ _ _ _ c R2 L1'); [|done].
    cbn. rewrite lookup_insert_ne by done. apply lookup_insert_eq. }
  intros [] d4 (R4 & T4 & F4).
  apply wp_bind, wp_bio. eapply wp_mono.
  { eapply (block_write_law _ _ _ _ c R4 (F4 _ _ L1')). cbn. apply lookup_insert_eq. }
  intros [] d5 (R5 & T5 & F5).
  apply wp_bind, wp_bio. eapply wp_mono.
  { eapply (block_release_law _ _ _ _ c R5 (F5 _ _ (F4 _ _ L2))).
    - cbn. rewrite lookup_insert_ne by done. apply lookup_insert_eq.
    - rewrite view_flush, decide_False by done. done. }
  intros [] d6 (R6 & T6 & F6).
  assert (tb ≠ fb) as Hb. { intros ->. apply Hne. by eapply handle_key. }
  apply wp_bind, wp_bio. eapply wp_mono.
  { eapply (block_release_law _ _ _ _ c R6 (F6 _ _ Hb (F5 _ _ (F4 _ _ L1')))).
    - cbn. rewrite lookup_delete_ne by done. apply lookup_insert_eq.
    - rewrite view_unhold, view_flush, decide_True by done. done. }
  intros [] d7 (R7 & T7 & _).
  assert (unhold dst (unhold src (flush dst c (hold dst c (hold src c (hold dst x A))))) =
          flush dst c A) as E.
  { unfold unhold, flush, hold. cbn. f_equal. rewrite Hh. apply map_eq. intros j.
    rewrite !lookup_delete, !lookup_insert, lookup_empty. repeat case_decide; congruence. }
  rewrite E in R7. rewrite !set_dev_eq. apply HQ; [done|]. cbn in *. congruence.
Qed.

(** ** The two copying loops *)

Definition flush_all (ws : list (Z * list Z)) (A : abs) : abs :=
  fold_left (λ A w, flush w.1 w.2 A) ws A.

Lemma held_flush_all ws A : a_held (flush_all ws A) = a_held A.
Proof. revert A. induction ws as [|w ws IH]; intros A; [done|]. cbn. by rewrite IH. Qed.

Lemma size_mem_flush k d A : (base.size (dom (a_mem (flush k d A))) ≤ base.size (dom (a_mem A)))%nat.
Proof. cbn. apply subseteq_size. rewrite dom_delete_L. set_solver. Qed.

(** Where the [j]th logged block is: its home, its slot in the log and its
    content, which the slot or the home holds. *)
Record logged (l : @log D) (tail : Z) (A : abs) (ws : list (Z * list Z)) : Prop := {
  lg_home (j : nat) h c : ws !! j = Some (h, c) → lh_block l !! Z.to_nat (tail + j) = Some h;
  lg_view (j : nat) h c : ws !! j = Some (h, c) → is_Some (view A h);
  lg_slot (j : nat) h c : ws !! j = Some (h, c) → is_Some (view A (start l + (tail + j) + 1));
  lg_ne (j : nat) h c (i : nat) : ws !! j = Some (h, c) → (i < length ws)%nat →
    h ≠ start l + (tail + i) + 1;
}.

Lemma view_flush_some A k d j : is_Some (view A j) → is_Some (view (flush k d A) j).
Proof. rewrite view_flush. case_decide; [eauto|done]. Qed.

Lemma logged_step l tail A w ws k d d' :
  0 ≤ tail → logged l tail A (w :: ws) → logged (set_dev d l) (tail + 1) (flush k d' A) ws.
Proof.
  intros Ht [H1 H2 H3 H4]. split.
  - intros j h c Hj. cbn. replace (tail + 1 + j) with (tail + S j) by lia. by eapply (H1 (S j)).
  - intros j h c Hj. apply view_flush_some. by eapply (H2 (S j)).
  - intros j h c Hj. apply view_flush_some. cbn.
    replace (tail + 1 + j) with (tail + S j) by lia. by eapply (H3 (S j)).
  - intros j h c i Hj Hi. cbn. replace (tail + 1 + i) with (tail + S i) by lia.
    eapply (H4 (S j)); [done|]. cbn. lia.
Qed.

Lemma install_loop_ok ws l A tail :
  rep (dev l) A → a_held A = ∅ → ldev l = ROOTDEV → 0 ≤ tail → logged l tail A ws →
  (∀ (j : nat) h c, ws !! j = Some (h, c) → view A (start l + (tail + j) + 1) = Some c) →
  NoDup ws.*1 → (base.size (dom (a_mem A)) < NBUF)%nat →
  (∀ h, h ∈ ws.*1 → is_Some (a_mem A !! h)) ∨ (S (base.size (dom (a_mem A))) < NBUF)%nat →
  wp (install_loop (length ws) tail) (λ _ l', l' = set_dev (dev l') l ∧
    rep (dev l') (flush_all ws A) ∧ trace (dev l') = trace (dev l) ++ ws) l.
Proof.
  revert l A tail. induction ws as [|[h c] ws IH]; intros l A tail Hr Hh Hdev Ht Hlg Hc Hnd Hsz Hroom.
  { cbn. apply wp_ret. by rewrite set_dev_id, app_nil_r. }
  cbn [length install_loop]. wp_step. wp_step. wp_step. wp_step. rewrite Hdev.
  pose proof (lg_home _ _ _ _ Hlg 0%nat _ _ eq_refl) as Hhome. rewrite Z.add_0_r in Hhome.
  destruct (lg_view _ _ _ _ Hlg 0%nat _ _ eq_refl) as [x Hx].
  pose proof (Hc 0%nat _ _ eq_refl) as Hc0. rewrite Z.add_0_r in Hc0.
  pose proof (lg_ne _ _ _ _ Hlg 0%nat _ _ 0%nat eq_refl ltac:(cbn; lia)) as Hne.
  rewrite Z.add_0_r in Hne. cbn in Hnd. apply NoDup_cons in Hnd as [Hnin Hnd].
  eapply (copy_from_log _ _ _ _ h c x); [done..| | |].
  { right. by rewrite Hh, dom_empty_L, union_empty_r_L. }
  { destruct Hroom as [Hm|Hm]; [left; apply Hm; left|right].
    cbn. rewrite Hh, dom_insert_L, dom_empty_L, union_empty_r_L.
    rewrite (comm_L (∪)). eapply Nat.le_lt_trans; [|apply Hm].
    rewrite size_union_alt, size_singleton.
    pose proof (subseteq_size (dom (a_mem A) ∖ {[start l + tail + 1]}) (dom (a_mem A)) ltac:(set_solver)).
    lia. }
  intros d' Hr' Ht'. eapply wp_mono; [apply (IH _ (flush h c A))|].
  - done.
  - done.
  - done.
  - lia.
  - by eapply logged_step.
  - intros j h' c' Hj. rewrite view_flush, decide_False.
    + cbn. replace (tail + 1 + j) with (tail + S j) by lia. by eapply (Hc (S j)).
    + cbn. replace (tail + 1 + j) with (tail + S j) by lia. apply not_eq_sym.
      apply (lg_ne _ _ _ _ Hlg 0%nat _ _ (S j) eq_refl).
      apply lookup_lt_Some in Hj. cbn. lia.
  - done.
  - pose proof (size_mem_flush h c A). lia.
  - destruct Hroom as [Hm|Hm].
    + left. intros h' Hh'. cbn. rewrite lookup_delete_ne by (intros ->; done). apply Hm. by right.
    + right. pose proof (size_mem_flush h c A). lia.
  - intros [] l' (El & Hr'' & Ht''). split; [by rewrite El|]. split; [done|].
    rewrite Ht''. cbn [dev set_dev]. rewrite Ht'. by rewrite <- app_assoc.
Qed.

Lemma write_log_loop_ok ws l A tail :
  rep (dev l) A → a_held A = ∅ → ldev l = ROOTDEV → 0 ≤ tail → logged l tail A ws →
  (∀ h c, (h, c) ∈ ws → a_mem A !! h = Some c) →
  (base.size (dom (a_mem A)) < NBUF)%nat →
  wp (write_log_loop (length ws) tail) (λ _ l', l' = set_dev (dev l') l ∧
    let ws' := imap (λ j w, (start l + (tail + Z.of_nat j) + 1, w.2)) ws in
    rep (dev l') (flush_all ws' A) ∧ trace (dev l') = trace (dev l) ++ ws') l.
Proof.
  revert l A tail. induction ws as [|[h c] ws IH]; intros l A tail Hr Hh Hdev Ht Hlg Hc Hsz.
  { cbn. apply wp_ret. by rewrite set_dev_id, app_nil_r. }
  cbn [length write_log_loop]. wp_step. wp_step. wp_step. wp_step. rewrite Hdev.
  pose proof (lg_home _ _ _ _ Hlg 0%nat _ _ eq_refl) as Hhome. rewrite Z.add_0_r in Hhome.
  destruct (lg_slot _ _ _ _ Hlg 0%nat _ _ eq_refl) as [x Hx]. rewrite Z.add_0_r in Hx.
  pose proof (Hc h c ltac:(left)) as Hc0.
  pose proof (lg_ne _ _ _ _ Hlg 0%nat _ _ 0%nat eq_refl ltac:(cbn; lia)) as Hne.
  rewrite Z.add_0_r in Hne.
  eapply (copy_to_log _ _ _ h _ c x); [done..| | | | |].
  { unfold view. by rewrite Hc0. }
  { done. }
  { right. by rewrite Hh, dom_empty_L, union_empty_r_L. }
  { left. cbn. by rewrite Hc0. }
  intros d' Hr' Ht'. eapply wp_mono; [apply (IH _ (flush (start l + tail + 1) c A))|].
  - done.
  - done.
  - done.
  - lia.
  - by eapply logged_step.
  - intros h' c' Hin. cbn. rewrite lookup_delete_ne; [apply Hc; by right|].
    apply list_elem_of_lookup in Hin as [j Hj].
    pose proof (lg_ne _ _ _ _ Hlg (S j) _ _ 0%nat Hj ltac:(cbn; lia)) as Hn.
    rewrite Z.add_0_r in Hn. congruence.
  - pose proof (size_mem_flush (start l + tail + 1) c A). lia.
  - intros [] l' (El & Hr'' & Ht''). split; [by rewrite El|].
    assert (imap (λ j w, (start l + (tail + 1 + Z.of_nat j) + 1, w.2)) ws =
      imap (λ j w, (start l + (tail + Z.of_nat (S j)) + 1, w.2)) ws) as E.
    { apply imap_ext. intros j w _. do 2 f_equal. lia. }
    cbn [imap fst snd] in *. rewrite Z.add_0_r. cbn [start set_dev] in *. rewrite E in *.
    split; [done|]. rewrite Ht''. cbn [dev set_dev]. rewrite Ht'. by rewrite <- app_assoc.
Qed.

(** ** The header block *)

(** [d] is a header block that lists the blocks [ns]. *)
Definition is_hdr (d : list Z) (ns : list Z) : Prop :=
  length d = BSIZE ∧ hdr_n d = length ns ∧ ∀ j h, ns !! j = Some h → hdr_block d j = h.

(** Blocks and disks that hold bytes. *)
Abbreviation bytes d := (Forall (λ b, 0 ≤ b < 256) d).
Definition bytes_in (m : gmap Z (list Z)) : Prop := ∀ k d, m !! k = Some d → bytes d.
Definition bytes_all (ws : list (Z * list Z)) : Prop := ∀ w, w ∈ ws → bytes w.2.

Lemma bytes_put64 d off v : bytes d → bytes (put64 d off v).
Proof.
  intros Hd. unfold put64, put_le, put_bytes. rewrite !Forall_app.
  split_and!; [by apply Forall_take|apply le_bytes_range|by apply Forall_drop].
Qed.

Lemma bytes_all_prefix p ws : p `prefix_of` ws → bytes_all ws → bytes_all p.
Proof. intros [r ->] H w Hw. apply H, elem_of_app. by left. Qed.

Lemma write_head_loop_ok k i d l :
  (i + k ≤ LOGSIZE)%nat → length d = BSIZE → length (lh_block l) = LOGSIZE →
  (∀ j b, (j < i + k)%nat → lh_block l !! j = Some b → 0 ≤ b < 2 ^ 64) →
  wp (write_head_loop k i d) (λ d' l', l' = l ∧ length d' = BSIZE ∧ hdr_n d' = hdr_n d ∧
    (∀ j, (j < i)%nat → hdr_block d' j = hdr_block d j) ∧
    (∀ j h, (i ≤ j < i + k)%nat → lh_block l !! j = Some h → hdr_block d' j = h) ∧ (bytes d → bytes d')) l.
Proof.
  unfold LOGSIZE. revert i d. induction k as [|k IH]; intros i d Hk Hd Hlen Hb.
  { cbn. apply wp_ret. split_and!; try done. intros. lia. }
  cbn [write_head_loop]. destruct (lookup_lt_is_Some_2 (lh_block l) i) as [b Hi]; [lia|].
  apply wp_bind, (wp_load_block _ _ b); [by rewrite Nat2Z.id|].
  assert (0 ≤ b < 256 ^ 8) as Hrange by (apply Hb in Hi; lia).
  assert (8 + 8 * i + 8 ≤ length d)%nat as Hoff by (rewrite Hd; unfold BSIZE; lia).
  eapply wp_mono; [apply IH; [lia|by rewrite length_put_le|done|intros j b' Hj; apply Hb; lia]|].
  intros d' l' (-> & Hd' & Hn & Hlo & Hhi & Hby). split_and!; try done; [..|intros H; by apply Hby, bytes_put64].
  - rewrite Hn. unfold hdr_n. rewrite get_put_le_ne; [done|lia|lia].
  - intros j Hj. rewrite Hlo by lia. unfold hdr_block. rewrite get_put_le_ne; [done|lia|lia].
  - intros j h Hj Hjh. destruct (decide (j = i)) as [->|Hne]; [|apply Hhi; [lia|done]].
    rewrite Hlo by lia. unfold hdr_block. rewrite get_put_le_eq by done. congruence.
Qed.

Lemma lookup_take_n (bs : list Z) (n j : nat) h : take n bs !! j = Some h → (j < n)%nat ∧ bs !! j = Some h.
Proof.
  intros H. destruct (decide (j < n)%nat); [by rewrite lookup_take_lt in H|].
  by rewrite lookup_take_ge in H by lia.
Qed.

(** Operations on one block at a time: read it, change it, write it through. *)
Lemma write_head_ok l A (n : nat) d0 :
  rep (dev l) A → a_held A = ∅ → ldev l = ROOTDEV → lh_n l = n → (n ≤ LOGSIZE)%nat →
  length (lh_block l) = LOGSIZE →
  (∀ j b, (j < n)%nat → lh_block l !! j = Some b → 0 ≤ b < 2 ^ 64) →
  view A (start l) = Some d0 → (base.size (dom (a_mem A)) < NBUF)%nat →
  wp write_head (λ _ l', ∃ d, l' = set_dev (dev l') l ∧ rep (dev l') (flush (start l) d A) ∧
    trace (dev l') = trace (dev l) ++ [(start l, d)] ∧ is_hdr d (take n (lh_block l)) ∧ (bytes d0 → bytes d)) l.
Proof.
  intros Hr Hh Hdev Hn Hle Hlen Hb Hv Hsz. unfold write_head.
  do 4 wp_step. rewrite Hdev. apply wp_bind, wp_bio.
  eapply wp_mono; [eapply (block_read_law _ _ _ _ Hr); [by rewrite Hh|done|]|].
  { right. by rewrite Hh, dom_empty_L, union_empty_r_L. }
  intros buf d1 (R1 & L1 & T1 & _). do 2 wp_step. cbn [lh_n set_dev]. rewrite Hn.
  apply wp_bind, wp_bio. eapply wp_mono.
  { eapply (buf_data_law _ _ _ _ d0 R1 L1). cbn. apply lookup_insert_eq. }
  intros dd d2 [-> ->]. rewrite Nat2Z.id. apply wp_bind.
  assert (length d0 = BSIZE) as Hd0 by (eapply view_range; [by eapply rep_ok|done]).
  assert (n < 256 ^ 8) by (unfold LOGSIZE in Hle; lia).
  eapply wp_mono; [apply (write_head_loop_ok n 0 (put64 d0 0 n));
    [lia|rewrite length_put_le; [done|rewrite Hd0; unfold BSIZE; lia]|done|done]|].
  intros d ? (-> & Hd & Hdn & _ & Hblk & Hby). apply wp_bind, wp_bio. eapply wp_mono.
  { eapply (buf_store_law _ _ _ _ _ d R1 L1); [cbn; apply lookup_insert_eq|done]. }
  intros [] d3 (R3 & T3 & F3). rewrite hold_hold in R3. apply wp_bind, wp_bio. eapply wp_mono.
  { eapply (block_write_law _ _ _ _ d R3 (F3 _ _ L1)). cbn. apply lookup_insert_eq. }
  intros [] d4 (R4 & T4 & F4). apply wp_bio. eapply wp_mono.
  { eapply (block_release_law _ _ _ _ d R4 (F4 _ _ (F3 _ _ L1))).
    - cbn. apply lookup_insert_eq.
    - by rewrite view_flush, decide_True. }
  intros [] d5 (R5 & T5 & _). exists d. split; [done|].
  split; [|split; [cbn in *; congruence|split; [split|intros Hb0; by apply Hby, bytes_put64]]].
  - replace (flush (start l) d A) with (unhold (start l) (flush (start l) d (hold (start l) d A)));
      [done|]. unfold unhold, flush, hold. cbn. by rewrite delete_insert_id by (by rewrite Hh).
  - done.
  - split.
    + rewrite Hdn. unfold hdr_n. rewrite get_put_le_eq by (rewrite ?Hd0; unfold BSIZE; lia).
      rewrite length_take. unfold LOGSIZE in *. lia.
    + intros j h [Hj Hjh]%lookup_take_n. apply Hblk; [lia|done].
Qed.

Lemma read_head_loop_ok k i d l :
  (i + k ≤ LOGSIZE)%nat → length (lh_block l) = LOGSIZE →
  wp (read_head_loop k i d) (λ _ l', ∃ bs, l' = set_blocks bs l ∧ length bs = LOGSIZE ∧
    (∀ j, (j < i)%nat → bs !! j = lh_block l !! j) ∧
    (∀ j, (i ≤ j < i + k)%nat → bs !! j = Some (hdr_block d j))) l.
Proof.
  unfold LOGSIZE. revert i l. induction k as [|k IH]; intros i l Hk Hlen.
  { apply wp_ret. exists (lh_block l). split_and!; try done; [by destruct l|intros; lia]. }
  cbn [read_head_loop]. wp_step. unfold store_block. do 2 wp_step.
  rewrite (proj2 (Z.ltb_lt _ _)) by (unfold LOGSIZE; lia). wp_step. rewrite Nat2Z.id.
  eapply wp_mono; [apply IH; [lia|cbn; by rewrite length_insert]|].
  intros [] l' (bs & -> & Hbs & Hlo & Hhi). exists bs. split_and!; try done.
  - intros j Hj. rewrite Hlo by lia. cbn. by rewrite list_lookup_insert_ne by lia.
  - intros j Hj. destruct (decide (j = i)) as [->|]; [|apply Hhi; lia].
    rewrite Hlo by lia. cbn. rewrite list_lookup_insert_eq by lia. done.
Qed.

Lemma read_head_ok l A d ns :
  rep (dev l) A → a_held A = ∅ → ldev l = ROOTDEV → length (lh_block l) = LOGSIZE →
  view A (start l) = Some d → is_hdr d ns → (length ns ≤ LOGSIZE)%nat →
  (base.size (dom (a_mem A)) < NBUF)%nat →
  wp read_head (λ _ l', ∃ d' bs, l' = set_dev d' (set_blocks bs (set_n (length ns) l)) ∧
    length bs = LOGSIZE ∧ (∀ (j : nat) h, ns !! j = Some h → bs !! j = Some h) ∧
    rep d' A ∧ trace d' = trace (dev l)) l.
Proof.
  intros Hr Hh Hdev Hlen Hv (Hd & Hn & Hblk) Hns Hsz. unfold read_head.
  do 4 wp_step. rewrite Hdev. apply wp_bind, wp_bio.
  eapply wp_mono; [eapply (block_read_law _ _ _ _ Hr); [by rewrite Hh|done|]|].
  { right. by rewrite Hh, dom_empty_L, union_empty_r_L. }
  intros buf d1 (R1 & L1 & T1 & _). apply wp_bind, wp_bio. eapply wp_mono.
  { eapply (buf_data_law _ _ _ _ d R1 L1). cbn. apply lookup_insert_eq. }
  intros dd d2 [-> ->]. do 2 wp_step. rewrite Hn, Nat2Z.id. apply wp_bind.
  eapply wp_mono; [apply read_head_loop_ok; [lia|done]|].
  intros [] l' (bs & -> & Hbs & _ & Hget). apply wp_bio. cbn. eapply wp_mono.
  { eapply (block_release_law _ _ _ _ d R1 L1); [cbn; apply lookup_insert_eq|done]. }
  intros [] d3 (R3 & T3 & _). exists d3, bs. split_and!; try done.
  - intros j h Hj. rewrite Hget by (apply lookup_lt_Some in Hj; lia). f_equal. by apply Hblk.
  - rewrite unhold_hold in R3 by (by rewrite Hh). done.
  - congruence.
Qed.

(** ** Commit and recovery *)

Definition apply_writes (ws : list (Z * list Z)) (dk : gmap Z (list Z)) : gmap Z (list Z) :=
  fold_left (λ dk w, <[w.1 := w.2]> dk) ws dk.

Lemma apply_writes_app ws ws' dk : apply_writes (ws ++ ws') dk = apply_writes ws' (apply_writes ws dk).
Proof. apply fold_left_app. Qed.

Lemma apply_writes_out ws dk k : k ∉ ws.*1 → apply_writes ws dk !! k = dk !! k.
Proof.
  revert dk. induction ws as [|[h c] ws IH]; intros dk; [done|]. cbn. rewrite not_elem_of_cons.
  intros [Hne Hin]. rewrite IH by done. by rewrite lookup_insert_ne by done.
Qed.

Lemma apply_writes_in ws dk k c : NoDup ws.*1 → (k, c) ∈ ws → apply_writes ws dk !! k = Some c.
Proof.
  revert dk. induction ws as [|[h e] ws IH]; intros dk; [by intros _ ?%elem_of_nil|].
  cbn. rewrite NoDup_cons, elem_of_cons. intros [Hnin Hnd] [[= -> ->]|Hin]; [|by apply IH].
  rewrite apply_writes_out by done. apply lookup_insert_eq.
Qed.

Lemma apply_writes_bytes ws dk : bytes_in dk → bytes_all ws → bytes_in (apply_writes ws dk).
Proof.
  revert dk. induction ws as [|w ws IH]; intros dk Hd Hw; [done|]. cbn. apply IH; [|intros x Hx; apply Hw; by right].
  intros k d. rewrite lookup_insert_Some. intros [[_ <-]|[_ H]]; [apply Hw; by left|by apply (Hd k)].
Qed.

Lemma apply_writes_some ws dk k : is_Some (dk !! k) → is_Some (apply_writes ws dk !! k).
Proof.
  revert dk. induction ws as [|[h e] ws IH]; intros dk Hk; [done|]. cbn. apply IH.
  rewrite lookup_insert. case_decide; eauto.
Qed.

Lemma disk_flush_all ws A : a_disk (flush_all ws A) = apply_writes ws (a_disk A).
Proof. revert A. induction ws as [|w ws IH]; intros A; [done|]. cbn. by rewrite IH. Qed.

Lemma mem_flush_out ws A k : k ∉ ws.*1 → a_mem (flush_all ws A) !! k = a_mem A !! k.
Proof.
  revert A. induction ws as [|[h c] ws IH]; intros A; [done|]. cbn. rewrite not_elem_of_cons.
  intros [??]. rewrite IH by done. cbn. by rewrite lookup_delete_ne.
Qed.

Lemma mem_flush_in ws A k : k ∈ ws.*1 → a_mem (flush_all ws A) !! k = None.
Proof.
  revert A. induction ws as [|[h c] ws IH]; intros A; [by intros ?%elem_of_nil|]. cbn.
  rewrite elem_of_cons. destruct (decide (k ∈ ws.*1)); [intros _; by apply IH|].
  intros [->|?]; [|done]. rewrite mem_flush_out by done. cbn. apply lookup_delete_eq.
Qed.

Lemma view_clean dk h k : view (mkabs dk ∅ h) k = dk !! k.
Proof. unfold view. cbn. by rewrite lookup_empty. Qed.

Lemma clean_room dk h : (base.size (dom (a_mem (mkabs dk ∅ h))) < NBUF)%nat.
Proof. cbn [a_mem]. rewrite dom_empty_L, size_empty. unfold NBUF. lia. Qed.

(** Flushing every pinned block leaves nothing pinned. *)
Lemma flush_all_mem ws A :
  a_held A = ∅ → (∀ k, is_Some (a_mem A !! k) → k ∈ ws.*1) →
  flush_all ws A = mkabs (apply_writes ws (a_disk A)) ∅ ∅.
Proof.
  intros Hh Hm. pose proof (disk_flush_all ws A) as E1. pose proof (held_flush_all ws A) as E3.
  assert (a_mem (flush_all ws A) = ∅) as E2.
  { apply map_eq. intros k. rewrite lookup_empty.
    destruct (decide (k ∈ ws.*1)) as [|Hk]; [by apply mem_flush_in|].
    rewrite mem_flush_out by done. destruct (a_mem A !! k) eqn:E; [|done].
    exfalso. apply Hk, Hm. by rewrite E. }
  destruct (flush_all ws A). cbn in *. f_equal; congruence.
Qed.

Lemma flush_all_clean ws dk : flush_all ws (mkabs dk ∅ ∅) = mkabs (apply_writes ws dk) ∅ ∅.
Proof.
  apply flush_all_mem; [done|]. intros k. cbn. rewrite lookup_empty. by intros [? ?].
Qed.

Definition in_log (l : @log D) (k : Z) : Prop := start l ≤ k < start l + size l.

(** The header lists [ns]; slot [j] of the log holds the [j]th of [ws]. *)
Record recoverable (st : Z) (dk : gmap Z (list Z)) (ws : list (Z * list Z)) : Prop := {
  rc_hdr : ∃ hd, dk !! st = Some hd ∧ is_hdr hd ws.*1;
  rc_slot (j : nat) h c : ws !! j = Some (h, c) → dk !! (st + j + 1) = Some c;
  rc_home h c : (h, c) ∈ ws → is_Some (dk !! h);
  rc_sep h c (j : nat) : (h, c) ∈ ws → (j ≤ length ws)%nat → h ≠ st + j;
  rc_nodup : NoDup ws.*1;
  rc_len : (length ws ≤ LOGSIZE)%nat;
}.

(** What recovery replays was in the log on the disk. *)
Lemma recoverable_bytes st dk ws : recoverable st dk ws → bytes_in dk → bytes_all ws.
Proof.
  intros Hrc Hd [h c] Hw. apply list_elem_of_lookup in Hw as [j Hj]. by apply (Hd _ _ (rc_slot _ _ _ Hrc j h c Hj)).
Qed.

Lemma recover_ok l dk ws :
  rep (dev l) (mkabs dk ∅ ∅) → ldev l = ROOTDEV → length (lh_block l) = LOGSIZE →
  recoverable (start l) dk ws →
  wp recover_from_log (λ _ l', ∃ hd, is_hdr hd [] ∧
    trace (dev l') = trace (dev l) ++ ws ++ [(start l, hd)] ∧
    rep (dev l') (mkabs (apply_writes (ws ++ [(start l, hd)]) dk) ∅ ∅) ∧
    lh_n l' = 0 ∧ length (lh_block l') = LOGSIZE ∧ start l' = start l ∧ size l' = size l ∧
    ldev l' = ldev l ∧ outstanding l' = outstanding l ∧ committing l' = committing l ∧
    lock l' = lock l ∧ (bytes_in dk → bytes hd)) l.
Proof.
  intros Hr Hdev Hlen Hrc. pose proof Hrc as [(hd & Hhd & His) Hslot Hhome Hsep Hnd Hle].
  unfold recover_from_log. apply wp_bind. eapply wp_mono.
  { eapply (read_head_ok _ _ hd ws.*1 Hr); try done; [by rewrite length_fmap|apply clean_room]. }
  intros [] l1 (d1 & bs & -> & Hbs & Hget & R1 & T1). rewrite length_fmap. apply wp_bind.
  unfold install_trans. do 2 wp_step. cbn [lh_n set_dev set_blocks set_n]. rewrite Nat2Z.id.
  eapply wp_mono; [eapply (install_loop_ok ws _ _ 0); cbn [dev set_dev set_blocks set_n ldev start]|].
  - exact R1.
  - done.
  - done.
  - lia.
  - split; cbn [lh_block set_dev set_blocks start set_n].
    + intros j h c Hj. rewrite Z.add_0_l, Nat2Z.id. apply Hget. rewrite list_lookup_fmap, Hj. done.
    + intros j h c Hj. rewrite view_clean. eapply Hhome.
      eapply list_elem_of_lookup; eauto.
    + intros j h c Hj. rewrite view_clean, Z.add_0_l. erewrite Hslot; [eauto|done].
    + intros j h c i Hj Hi. replace (start l + (0 + i) + 1) with (start l + S i) by lia.
      eapply Hsep; [eapply list_elem_of_lookup; eauto|lia].
  - intros j h c Hj. rewrite view_clean, Z.add_0_l. by apply Hslot with (h := h).
  - done.
  - apply clean_room.
  - right. cbn [a_mem]. rewrite dom_empty_L, size_empty. unfold NBUF. lia.
  - intros [] l2 (E2 & R2 & T2). do 2 wp_step.
    rewrite flush_all_clean in R2. rewrite E2.
    destruct (apply_writes_some ws dk (start l)) as [d0 Hd0]; [by rewrite Hhd|].
    eapply wp_mono; [eapply (write_head_ok _ _ 0 d0); cbn [dev set_dev set_blocks set_n ldev start lh_block lh_n]|].
    + exact R2.
    + done.
    + done.
    + done.
    + lia.
    + done.
    + intros. lia.
    + by rewrite view_clean.
    + apply clean_room.
    + intros [] l3 (hd' & -> & R3 & T3 & Hhd' & Hby). exists hd'. cbn in Hhd', R3, T3 |- *.
      split_and!; try done; [cbn in T2; by rewrite T3, T2, T1, <- app_assoc| |].
      2: { intros Hd. apply Hby, (apply_writes_bytes ws dk Hd (recoverable_bytes _ _ _ Hrc Hd) _ _ Hd0). }
      rewrite apply_writes_app. unfold flush in R3. cbn in R3. by rewrite delete_empty in R3.
Qed.

(** The state in which [commit] runs: [ws] lists the logged blocks with their
    pinned contents, the log area is on disk with an empty header, and the log
    has room for the transaction. *)
Record committable (l : @log D) (A : abs) (ws : list (Z * list Z)) : Prop := {
  cm_rep : rep (dev l) A;
  cm_held : a_held A = ∅;
  cm_dev : ldev l = ROOTDEV;
  cm_arr : length (lh_block l) = LOGSIZE;
  cm_n : lh_n l = length ws;
  cm_blocks : take (length ws) (lh_block l) = ws.*1;
  cm_nodup : NoDup ws.*1;
  cm_mem h c : (h, c) ∈ ws → a_mem A !! h = Some c;
  cm_all h : is_Some (a_mem A !! h) → h ∈ ws.*1;
  cm_home h : h ∈ ws.*1 → ¬ in_log l h;
  cm_area k : in_log l k → is_Some (a_disk A !! k);
  cm_hdr hd : a_disk A !! start l = Some hd → is_hdr hd [];
  cm_room : (length ws < NBUF)%nat;
  cm_size : length ws < size l;
}.

(** The slots of the log, with what [write_log] puts in them. *)
Definition slots (l : @log D) (ws : list (Z * list Z)) : list (Z * list Z) :=
  imap (λ j w, (start l + (0 + Z.of_nat j) + 1, w.2)) ws.

Lemma slots_lookup l ws (j : nat) : slots l ws !! j = (λ w, (start l + j + 1, w.2)) <$> ws !! j.
Proof. unfold slots. rewrite list_lookup_imap. by rewrite Z.add_0_l. Qed.

Lemma slots_key l ws k :
  k ∈ (slots l ws).*1 → start l < k ≤ start l + length ws.
Proof.
  intros (w & -> & Hw)%list_elem_of_fmap. apply list_elem_of_lookup in Hw as [j Hj].
  rewrite slots_lookup, fmap_Some in Hj. destruct Hj as (x & Hx & ->).
  apply lookup_lt_Some in Hx. cbn. lia.
Qed.

Lemma slots_nodup l ws : NoDup (slots l ws).*1.
Proof.
  apply NoDup_alt. intros i j k. rewrite !list_lookup_fmap, !slots_lookup, !fmap_Some.
  intros (x & (? & ? & ->)%fmap_Some & ->) (y & (? & ? & ->)%fmap_Some & E). cbn in E. lia.
Qed.

Section commit.
Context (l : @log D) (A : abs) (ws : list (Z * list Z)).
Hypothesis Hcm : committable l A ws.

Lemma cm_key_range h : h ∈ ws.*1 → 0 ≤ h < FSSIZE.
Proof.
  intros ([h' c] & -> & Hw)%list_elem_of_fmap. apply (cm_mem _ _ _ Hcm) in Hw.
  pose proof (rep_ok _ _ (cm_rep _ _ _ Hcm)) as Hok.
  destruct (ok_mem _ Hok _ _ Hw) as [[x Hx] _]. by destruct (ok_disk _ Hok _ _ Hx).
Qed.

Lemma cm_sep h k : h ∈ ws.*1 → start l ≤ k ≤ start l + length ws → h ≠ k.
Proof.
  intros Hh Hk ->. apply (cm_home _ _ _ Hcm _ Hh). pose proof (cm_size _ _ _ Hcm).
  unfold in_log. lia.
Qed.

Lemma cm_logged (d : D) A' :
  a_held A' = ∅ → (∀ k, is_Some (view A k) → is_Some (view A' k)) →
  logged (set_dev d l) 0 A' ws.
Proof.
  intros Hh Hv. split; cbn [lh_block start set_dev].
  - intros j h c Hj. rewrite Z.add_0_l, Nat2Z.id.
    assert (take (length ws) (lh_block l) !! j = Some h) as H.
    { rewrite (cm_blocks _ _ _ Hcm), list_lookup_fmap, Hj. done. }
    by apply lookup_take_n in H as [_ ?].
  - intros j h c Hj. apply Hv. unfold view.
    rewrite (cm_mem _ _ _ Hcm h c); [eauto|]. eapply list_elem_of_lookup; eauto.
  - intros j h c Hj. apply Hv. unfold view.
    destruct (a_mem A !! _); [eauto|]. apply (cm_area _ _ _ Hcm).
    apply lookup_lt_Some in Hj. pose proof (cm_size _ _ _ Hcm). unfold in_log. lia.
  - intros j h c i Hj Hi. apply cm_sep; [|lia].
    apply list_elem_of_fmap. exists (h, c). split; [done|]. eapply list_elem_of_lookup; eauto.
Qed.

Lemma cm_size_mem : (base.size (dom (a_mem A)) < NBUF)%nat.
Proof.
  assert (dom (a_mem A) ⊆ list_to_set (C := gset Z) ws.*1) as Hsub.
  { intros k Hk%elem_of_dom. apply elem_of_list_to_set. by apply (cm_all _ _ _ Hcm). }
  apply subseteq_size in Hsub. rewrite size_list_to_set in Hsub by apply (cm_nodup _ _ _ Hcm).
  rewrite length_fmap in Hsub. pose proof (cm_room _ _ _ Hcm). lia.
Qed.

Lemma cm_mem_slots k : k ∈ (slots l ws).*1 ∨ k = start l → a_mem A !! k = None.
Proof.
  intros Hk. destruct (a_mem A !! k) eqn:E; [|done]. exfalso.
  assert (k ∈ ws.*1) as Hin by (apply (cm_all _ _ _ Hcm); by rewrite E).
  destruct Hk as [Hk%slots_key| ->].
  - by apply (cm_sep k k); [|lia|].
  - by apply (cm_sep (start l) (start l)); [|lia|].
Qed.

(** After [write_log] the same blocks are pinned. *)
Lemma cm_mem_written k : a_mem (flush_all (slots l ws) A) !! k = a_mem A !! k.
Proof.
  destruct (decide (k ∈ (slots l ws).*1)) as [Hk|]; [|by apply mem_flush_out].
  rewrite mem_flush_in by done. by rewrite cm_mem_slots by auto.
Qed.

Definition after_head (hd : list Z) : abs := flush (start l) hd (flush_all (slots l ws) A).

Lemma cm_mem_head hd k : a_mem (after_head hd) !! k = a_mem A !! k.
Proof.
  cbn. destruct (decide (k = start l)) as [->|].
  - rewrite lookup_delete_eq. by rewrite cm_mem_slots by auto.
  - rewrite lookup_delete_ne by done. apply cm_mem_written.
Qed.

Lemma cm_size_eq (m : gmap Z (list Z)) :
  (∀ k, m !! k = a_mem A !! k) → (base.size (dom m) < NBUF)%nat.
Proof. intros H. replace m with (a_mem A); [apply cm_size_mem|]. by apply map_eq. Qed.

Lemma cm_view_some A' :
  (∀ k, a_mem A' !! k = a_mem A !! k) → (∀ k, is_Some (a_disk A !! k) → is_Some (a_disk A' !! k)) →
  ∀ k, is_Some (view A k) → is_Some (view A' k).
Proof. intros Hm Hd k. unfold view. rewrite Hm. destruct (a_mem A !! k); [done|apply Hd]. Qed.

Lemma cm_disk_head hd k :
  is_Some (a_disk A !! k) → is_Some (a_disk (after_head hd) !! k).
Proof.
  intros Hk. cbn. rewrite disk_flush_all, lookup_insert.
  case_decide; [eauto|]. by apply apply_writes_some.
Qed.

(** The slots hold the pinned contents once the header is written. *)
Lemma cm_slot_content hd (j : nat) h c :
  ws !! j = Some (h, c) → a_disk (after_head hd) !! (start l + j + 1) = Some c.
Proof.
  intros Hj. cbn. rewrite disk_flush_all, lookup_insert_ne by lia.
  apply apply_writes_in; [apply slots_nodup|]. eapply list_elem_of_lookup.
  exists j. by rewrite slots_lookup, Hj.
Qed.

Lemma cm_hdr_area : is_Some (a_disk A !! start l).
Proof.
  apply (cm_area _ _ _ Hcm). pose proof (cm_size _ _ _ Hcm). unfold in_log. lia.
Qed.

Lemma cm_block_range j b :
  (j < length ws)%nat → lh_block l !! j = Some b → 0 ≤ b < 2 ^ 64.
Proof.
  intros Hj Hb. assert (b ∈ ws.*1) as Hin.
  { rewrite <- (cm_blocks _ _ _ Hcm). eapply list_elem_of_lookup. exists j.
    by rewrite lookup_take_lt. }
  pose proof (cm_key_range _ Hin). unfold FSSIZE in *. lia.
Qed.

Lemma cm_len : (length ws ≤ LOGSIZE)%nat.
Proof. pose proof (cm_room _ _ _ Hcm). unfold NBUF, LOGSIZE in *. lia. Qed.

(** What [commit] writes, in order. *)
Definition commit_writes (hd1 hd0 : list Z) : list (Z * list Z) :=
  slots l ws ++ [(start l, hd1)] ++ ws ++ [(start l, hd0)].

Lemma commit_install hd (d : D) :
  rep d (after_head hd) →
  wp install_trans (λ _ l', l' = set_dev (dev l') l ∧
    rep (dev l') (mkabs (apply_writes ws (a_disk (after_head hd))) ∅ ∅) ∧
    trace (dev l') = trace d ++ ws) (set_dev d l).
Proof.
  intros Hr. assert (a_held (after_head hd) = ∅) as Hh.
  { cbn. by rewrite held_flush_all, (cm_held _ _ _ Hcm). }
  unfold install_trans. do 2 wp_step. cbn [lh_n set_dev]. rewrite (cm_n _ _ _ Hcm), Nat2Z.id.
  eapply wp_mono; [apply (install_loop_ok ws _ (after_head hd))|].
  - done.
  - done.
  - apply (cm_dev _ _ _ Hcm).
  - lia.
  - apply cm_logged; [done|]. apply cm_view_some; [apply cm_mem_head|apply cm_disk_head].
  - intros j h c Hj. cbn [start set_dev]. rewrite Z.add_0_l. unfold view. rewrite cm_mem_head.
    rewrite cm_mem_slots; [by eapply cm_slot_content|]. left. apply list_elem_of_fmap.
    exists (start l + j + 1, c). split; [done|]. eapply list_elem_of_lookup. exists j.
    by rewrite slots_lookup, Hj.
  - apply (cm_nodup _ _ _ Hcm).
  - apply cm_size_eq, cm_mem_head.
  - left. intros h ([h' c] & -> & Hw)%list_elem_of_fmap. rewrite cm_mem_head.
    cbn. rewrite (cm_mem _ _ _ Hcm _ c); eauto.
  - intros [] l' (E & R & T). split; [done|]. split; [|done].
    rewrite flush_all_mem in R; [done|done|]. intros k. rewrite cm_mem_head.
    apply (cm_all _ _ _ Hcm).
Qed.

(** Everything [commit] writes is made of bytes. *)
Lemma ws_bytes : bytes_in (a_mem A) → bytes_all ws.
Proof. intros Hm [h c] Hw. by apply (Hm _ _ (cm_mem _ _ _ Hcm h c Hw)). Qed.

Lemma slots_all : bytes_in (a_mem A) → bytes_all (slots l ws).
Proof.
  intros Hm w Hw. apply list_elem_of_lookup in Hw as [j Hj]. rewrite slots_lookup, fmap_Some in Hj.
  destruct Hj as (x & Hx & ->). cbn. apply (ws_bytes Hm). by eapply list_elem_of_lookup_2.
Qed.

Lemma slots_bytes : bytes_in (a_disk A) → bytes_in (a_mem A) → ∀ d, view (flush_all (slots l ws) A) (start l) = Some d → bytes d.
Proof.
  intros Hd Hm d. unfold view. rewrite cm_mem_written, disk_flush_all. destruct (a_mem A !! start l) eqn:E.
  - intros [= <-]. by apply (Hm _ _ E).
  - by apply (apply_writes_bytes _ _ Hd (slots_all Hm)).
Qed.

Lemma commit_bytes : bytes_in (a_disk A) → bytes_in (a_mem A) → ∀ hd1 hd0, bytes hd1 → bytes hd0 → bytes_all (commit_writes hd1 hd0).
Proof.
  intros Hd Hm hd1 hd0 H1 H0 w. unfold commit_writes. rewrite !elem_of_app, !list_elem_of_singleton.
  intros [Hw|[-> |[Hw| ->]]]; [by apply slots_all|done|by apply ws_bytes|done].
Qed.

Lemma commit_ok :
  ws ≠ [] →
  wp commit (λ _ l', ∃ hd1 hd0, is_hdr hd1 ws.*1 ∧ is_hdr hd0 [] ∧
    l' = set_dev (dev l') (set_n 0 l) ∧ trace (dev l') = trace (dev l) ++ commit_writes hd1 hd0 ∧
    rep (dev l') (mkabs (apply_writes (commit_writes hd1 hd0) (a_disk A)) ∅ ∅) ∧
    (bytes_in (a_disk A) → bytes_in (a_mem A) → bytes_all (commit_writes hd1 hd0))) l.
Proof.
  intros Hne. unfold commit. do 2 wp_step. rewrite (cm_n _ _ _ Hcm).
  rewrite (proj2 (Z.ltb_lt 0 _)) by (destruct ws; [done|cbn; lia]).
  apply wp_bind. unfold write_log. do 2 wp_step. rewrite (cm_n _ _ _ Hcm), Nat2Z.id.
  pose proof (cm_logged (dev l) A (cm_held _ _ _ Hcm) ltac:(done)) as Hlg. rewrite set_dev_id in Hlg.
  eapply wp_mono; [apply (write_log_loop_ok ws l A 0); [apply (cm_rep _ _ _ Hcm)|apply (cm_held _ _ _ Hcm)
    |apply (cm_dev _ _ _ Hcm)|lia|done|apply (cm_mem _ _ _ Hcm)|apply cm_size_mem]|].
  intros [] l1 (E1 & R1 & T1). fold (slots l ws) in R1, T1. rewrite E1.
  destruct (cm_view_some (flush_all (slots l ws) A) cm_mem_written) with (k := start l) as [d0 Hd0].
  { intros k. rewrite disk_flush_all. apply apply_writes_some. }
  { unfold view. destruct (a_mem A !! start l); [eauto|apply cm_hdr_area]. }
  apply wp_bind. eapply wp_mono; [eapply (write_head_ok (set_dev (dev l1) l) _ (length ws) d0 R1);
    [by rewrite held_flush_all, (cm_held _ _ _ Hcm)|apply (cm_dev _ _ _ Hcm)|apply (cm_n _ _ _ Hcm)
    |apply cm_len|apply (cm_arr _ _ _ Hcm)|apply cm_block_range|done|apply cm_size_eq, cm_mem_written]|].
  intros [] l2 (hd1 & -> & R2 & T2 & Hhd1 & Hby1). cbn [lh_block set_dev start] in *.
  rewrite (cm_blocks _ _ _ Hcm) in Hhd1. rewrite set_dev_eq.
  apply wp_bind. eapply wp_mono; [by apply commit_install|]. intros [] l3 (E3 & R3 & T3).
  do 2 wp_step. rewrite E3.
  destruct (apply_writes_some ws (a_disk (after_head hd1)) (start l)) as [d1 Hd1].
  { by apply cm_disk_head, cm_hdr_area. }
  eapply wp_mono; [eapply (write_head_ok (set_n 0 (set_dev (dev l3) l)) _ 0 d1 R3); [done|apply (cm_dev _ _ _ Hcm)|done|lia
    |apply (cm_arr _ _ _ Hcm)|intros; lia|by rewrite view_clean|apply clean_room]|].
  intros [] l4 (hd0 & -> & R4 & T4 & Hhd0 & Hby0). exists hd1, hd0. split; [done|]. split; [done|].
  split; [done|]. cbn in T4, T3, T2, T1, R4 |- *. split; [|split].
  - rewrite T4, T3, T2, T1. unfold commit_writes. cbn. by rewrite <- !app_assoc.
  - unfold commit_writes. rewrite !apply_writes_app. cbn. unfold flush in R4. cbn in R4.
    rewrite delete_empty, disk_flush_all in R4. done.
  - intros Hd Hm. assert (bytes hd1) as H1 by (by apply Hby1, (slots_bytes Hd Hm _ Hd0)).
    apply (commit_bytes Hd Hm hd1 hd0 H1). apply Hby0. refine (apply_writes_bytes ws _ _ (ws_bytes Hm) _ _ Hd1).
    unfold after_head, flush. cbn. rewrite disk_flush_all. intros k d. rewrite lookup_insert_Some.
    intros [[_ <-]|[_ H]]; [done|]. by apply (apply_writes_bytes _ _ Hd (slots_all Hm) k).
Qed.
End commit.

(** ** Crashes *)

Lemma prefix_app_cases {T} (p a b : list T) :
  p `prefix_of` a ++ b → p `prefix_of` a ∨ ∃ q, p = a ++ q ∧ q `prefix_of` b.
Proof.
  intros [r E]. revert p E. induction a as [|x a IH]; intros p E.
  { right. exists p. split; [done|]. by exists r. }
  destruct p as [|y p]; [left; by exists (x :: a)|]. cbn in E. injection E as <- E.
  destruct (IH _ E) as [Hp|(q & -> & Hq)]; [left|right; by exists q].
  by apply prefix_cons.
Qed.

Lemma prefix_snoc_cases {T} (p a : list T) x : p `prefix_of` a ++ [x] → p `prefix_of` a ∨ p = a ++ [x].
Proof.
  intros [Hp|(q & -> & Hq)]%prefix_app_cases; [by left|]. destruct q as [|y q].
  { left. by rewrite app_nil_r. }
  destruct Hq as [r E]. injection E as <- E. destruct q; [by right|done].
Qed.

Lemma prefix_key (p ws : list (Z * list Z)) k : p `prefix_of` ws → k ∈ p.*1 → k ∈ ws.*1.
Proof. intros [r ->] Hk. rewrite fmap_app. apply elem_of_app. by left. Qed.

(** At boot: the superblock names the log, and recovery replays it. *)
Lemma initlog_ok l dk ws sb :
  rep (dev l) (mkabs dk ∅ ∅) → length (lh_block l) = LOGSIZE → dk !! 1 = Some sb →
  recoverable (sb_logstart sb) dk ws →
  wp (initlog ROOTDEV) (λ _ l', ∃ hd, is_hdr hd [] ∧
    trace (dev l') = trace (dev l) ++ ws ++ [(sb_logstart sb, hd)] ∧
    rep (dev l') (mkabs (apply_writes (ws ++ [(sb_logstart sb, hd)]) dk) ∅ ∅) ∧ lh_n l' = 0 ∧
    (bytes_in dk → bytes hd)) l.
Proof.
  intros Hr Hlen Hsb Hrc. unfold initlog.
  rewrite bool_decide_eq_false_2 by (unfold BSIZE, logheader_size, LOGSIZE; lia). do 4 wp_step. apply wp_bind, wp_bio.
  assert (view (mkabs dk ∅ ∅) 1 = Some sb) as Hv by by rewrite view_clean.
  eapply wp_mono; [eapply (block_read_law _ _ _ _ Hr); [done|done|]|].
  { right. cbn [a_mem a_held]. rewrite dom_empty_L, union_empty_l_L, size_empty. unfold NBUF. lia. }
  intros bp d1 (R1 & L1 & T1 & _). apply wp_bind, wp_bio. eapply wp_mono.
  { eapply (buf_data_law _ _ _ _ sb R1 L1). cbn. apply lookup_insert_eq. }
  intros x d2 [-> ->]. apply wp_bind, wp_bio. eapply wp_mono.
  { eapply (block_release_law _ _ _ _ sb R1 L1); [cbn; apply lookup_insert_eq|done]. }
  intros [] d3 (R3 & T3 & _). rewrite unhold_hold in R3 by done. do 2 wp_step.
  eapply wp_mono; [apply (recover_ok _ dk ws); done|].
  intros [] l' (hd & H1 & H2 & H3 & H4 & _ & _ & _ & _ & _ & _ & _ & H5). exists hd. cbn in *. split_and!; [done| |done..].
  rewrite H2. cbn. congruence.
Qed.

Lemma recoverable_nil st dk : (∃ hd, dk !! st = Some hd ∧ is_hdr hd []) → recoverable st dk [].
Proof.
  intros Hhd. split; cbn; try done.
  - by intros h c ?%elem_of_nil.
  - by intros h c j ?%elem_of_nil.
  - constructor.
  - lia.
Qed.

Section crash.
Context (l : @log D) (A : abs) (ws : list (Z * list Z)) (hd1 hd0 : list Z).
Hypothesis Hcm : committable l A ws.
Hypothesis Hhd1 : is_hdr hd1 ws.*1.
Hypothesis Hhd0 : is_hdr hd0 [].

(** Installing the transaction over the old contents gives the new ones. *)
Lemma installed_view dk k :
  dk !! k = a_disk A !! k → apply_writes ws dk !! k = view A k.
Proof.
  intros Hk. unfold view. destruct (decide (k ∈ ws.*1)) as [Hin|Hin].
  - apply list_elem_of_fmap in Hin as ([h c] & -> & Hw). cbn.
    rewrite (apply_writes_in _ _ _ c); [|apply (cm_nodup _ _ _ Hcm)|done].
    by rewrite (cm_mem _ _ _ Hcm _ _ Hw).
  - rewrite apply_writes_out by done. destruct (a_mem A !! k) eqn:E; [|done].
    exfalso. apply Hin, (cm_all _ _ _ Hcm). by rewrite E.
Qed.

Lemma slots_out dk p k :
  p `prefix_of` slots l ws → ¬ (start l < k ≤ start l + length ws) → apply_writes p dk !! k = dk !! k.
Proof.
  intros Hp Hk. apply apply_writes_out. intros Hin. apply Hk, (slots_key l ws).
  by eapply prefix_key.
Qed.

Lemma outside_slot k : ¬ in_log l k → k ≠ start l ∧ ¬ (start l < k ≤ start l + length ws).
Proof. unfold in_log. pose proof (cm_size _ _ _ Hcm). lia. Qed.

(** The state of the disk after the slots and the header, and a part of the
    home locations, have been written. *)
Lemma crash_after_head q :
  q `prefix_of` ws →
  let dk := apply_writes q (<[start l := hd1]> (apply_writes (slots l ws) (a_disk A))) in
  recoverable (start l) dk ws ∧
  ∀ k, ¬ in_log l k → apply_writes ws dk !! k = view A k.
Proof.
  intros Hq dk.
  assert (∀ k, start l ≤ k ≤ start l + length ws → k ∉ q.*1) as Hlow.
  { intros k Hk Hin. by apply (cm_sep _ _ _ Hcm k k); [eapply prefix_key| |]. }
  split; [split|].
  - exists hd1. split; [|done]. unfold dk. rewrite apply_writes_out by (apply Hlow; lia).
    apply lookup_insert_eq.
  - intros j h c Hj. pose proof (lookup_lt_Some _ _ _ Hj). unfold dk.
    rewrite apply_writes_out by (apply Hlow; lia). rewrite lookup_insert_ne by lia.
    apply apply_writes_in; [apply slots_nodup|]. eapply list_elem_of_lookup. exists j.
    by rewrite slots_lookup, Hj.
  - intros h c Hw. unfold dk. apply apply_writes_some. rewrite lookup_insert.
    case_decide; [eauto|]. apply apply_writes_some.
    eapply (ok_mem _ (rep_ok _ _ (cm_rep _ _ _ Hcm))). by apply (cm_mem _ _ _ Hcm).
  - intros h c j Hw Hj. apply (cm_sep _ _ _ Hcm); [|lia].
    apply list_elem_of_fmap. by exists (h, c).
  - apply (cm_nodup _ _ _ Hcm).
  - apply (cm_len _ _ _ Hcm).
  - intros k Hk. destruct (outside_slot _ Hk) as [Hne Hns]. unfold dk.
    destruct (decide (k ∈ ws.*1)) as [Hin|Hin].
    + rewrite <- (installed_view (a_disk A) k) by done.
      apply list_elem_of_fmap in Hin as ([h c] & -> & Hw). cbn.
      by rewrite !(apply_writes_in ws _ _ c) by (done || apply (cm_nodup _ _ _ Hcm)).
    + apply installed_view. rewrite apply_writes_out by (intros ?; by eapply Hin, prefix_key).
      rewrite lookup_insert_ne by done. by apply slots_out.
Qed.

(** Which disk a crash leaves, and what recovery will replay on it. *)
Definition crash_outcome (p ws' : list (Z * list Z)) : Prop :=
  recoverable (start l) (apply_writes p (a_disk A)) ws' ∧
  ∀ k hd, ¬ in_log l k →
    apply_writes (ws' ++ [(start l, hd)]) (apply_writes p (a_disk A)) !! k =
    if decide (length p ≤ length ws)%nat then a_disk A !! k else view A k.

Lemma replay_outside ws' dk k hd :
  ¬ in_log l k → apply_writes (ws' ++ [(start l, hd)]) dk !! k = apply_writes ws' dk !! k.
Proof.
  intros Hk. rewrite apply_writes_app. cbn. apply lookup_insert_ne.
  by destruct (outside_slot _ Hk).
Qed.

Lemma length_slots : length (slots l ws) = length ws.
Proof. apply length_imap. Qed.

Lemma crash_before_head p : p `prefix_of` slots l ws → crash_outcome p [].
Proof.
  intros Hp. split.
  - apply recoverable_nil. destruct (cm_hdr_area _ _ _ Hcm) as [hd Hhd]. exists hd.
    rewrite slots_out by (done || lia). split; [done|]. by apply (cm_hdr _ _ _ Hcm).
  - intros k hd Hk. rewrite replay_outside by done. cbn.
    pose proof (prefix_length _ _ Hp) as Hlen. rewrite length_slots in Hlen.
    rewrite decide_True by lia. apply slots_out; [done|]. by destruct (outside_slot _ Hk).
Qed.

Lemma crash_recovery p : p `prefix_of` commit_writes l ws hd1 hd0 → ∃ ws', crash_outcome p ws'.
Proof.
  intros [Hp|(q & -> & Hq)]%prefix_app_cases; [exists []; by apply crash_before_head|].
  destruct q as [|w q]; [exists []; rewrite app_nil_r; by apply crash_before_head|].
  destruct Hq as [r E]. cbn in E. injection E as <- E.
  assert (q `prefix_of` ws ++ [(start l, hd0)]) as Hq by by exists r. clear r E.
  assert (∀ q', length (slots l ws ++ (start l, hd1) :: q') > length ws)%nat as Hlen.
  { intros q'. rewrite length_app, length_slots. cbn. lia. }
  assert (∀ q', apply_writes (slots l ws ++ (start l, hd1) :: q') (a_disk A) =
    apply_writes q' (<[start l := hd1]> (apply_writes (slots l ws) (a_disk A)))) as Happ.
  { intros q'. by rewrite apply_writes_app. }
  apply prefix_app_cases in Hq as [Hq|(r & -> & Hr)].
  - destruct (crash_after_head q Hq) as [Hrc Hk]. exists ws. split; rewrite Happ; [done|].
    intros k hd Hout. rewrite replay_outside by done. rewrite decide_False by (specialize (Hlen q); lia).
    by apply Hk.
  - destruct (crash_after_head [] ltac:(apply prefix_nil)) as [_ Hk]. cbn in Hk.
    destruct (crash_after_head ws ltac:(done)) as [Hrc Hk'].
    destruct r as [|w r].
    + rewrite app_nil_r. exists ws. split; rewrite Happ; [done|].
      intros k hd Hout. rewrite replay_outside by done.
      rewrite decide_False by (specialize (Hlen ws); lia). by apply Hk'.
    + destruct Hr as [r' E]. cbn in E. injection E as <- E. destruct r; [|done]. exists [].
      split; rewrite Happ, apply_writes_app.
      * apply recoverable_nil. exists hd0. split; [|done]. apply lookup_insert_eq.
      * intros k hd Hout. rewrite replay_outside by done.
        rewrite decide_False by (specialize (Hlen (ws ++ [(start l, hd0)])); lia). cbn.
        rewrite lookup_insert_ne by (by destruct (outside_slot _ Hout)). by apply Hk.
Qed.
End crash.

(** ** Transactions *)

(** Between [begin_op] and the commit: the blocks pinned in the cache are
    exactly the blocks [ns] the in-memory header lists. *)
Record in_txn (l : @log D) (A : abs) (ns : list Z) : Prop := {
  tx_rep : rep (dev l) A;
  tx_dev : ldev l = ROOTDEV;
  tx_arr : length (lh_block l) = LOGSIZE;
  tx_n : lh_n l = length ns;
  tx_blocks : take (length ns) (lh_block l) = ns;
  tx_nodup : NoDup ns;
  tx_mem h : is_Some (a_mem A !! h) ↔ h ∈ ns;
  tx_home h : h ∈ ns → ¬ in_log l h;
  tx_area k : in_log l k → is_Some (a_disk A !! k);
  tx_hdr hd : a_disk A !! start l = Some hd → is_hdr hd [];
}.

Lemma find_slot_spec k i bs b :
  0 ≤ i → (Z.to_nat i + k ≤ length bs)%nat →
  let r := find_slot k i bs b in
  (i ≤ r < i + k ∧ bs !! Z.to_nat r = Some b) ∨
  (r = i + k ∧ ∀ j, (Z.to_nat i ≤ j < Z.to_nat i + k)%nat → bs !! j ≠ Some b).
Proof.
  revert i. induction k as [|k IH]; intros i Hi Hlen; cbn [find_slot].
  { right. split; [lia|]. intros j Hj. lia. }
  case_bool_decide as E; [left; split; [lia|done]|].
  destruct (IH (i + 1) ltac:(lia) ltac:(lia)) as [[Hr Hb]|[Hr Hb]]; [left|right].
  { split; [lia|done]. }
  split; [lia|]. intros j Hj. destruct (decide (j = Z.to_nat i)) as [->|]; [done|].
  apply Hb. lia.
Qed.

Lemma take_insert_app (bs ns : list Z) b :
  take (length ns) bs = ns → (length ns < length bs)%nat →
  take (S (length ns)) (<[length ns := b]> bs) = ns ++ [b].
Proof.
  intros Ht Hlt. rewrite (take_S_r _ _ b) by by apply list_lookup_insert_eq.
  by rewrite take_insert_ge, Ht by lia.
Qed.

Lemma log_write_run l A ns b k d :
  in_txn l A ns → handle (dev l) b k → a_held A !! k = Some d → lock l = false →
  length ns < LOGSIZE → length ns < u64 (size l - 1) → 1 ≤ outstanding l →
  ∃ d', log_write b l = Ok (tt,
    set_lock false (set_dev d' (
      if decide (k ∈ ns) then l
      else set_n (S (length ns)) (set_blocks (<[length ns := k]> (lh_block l)) l)))) ∧
    rep d' (pin k d A) ∧ trace d' = trace (dev l) ∧ ∀ j k', handle (dev l) j k' → handle d' j k'.
Proof.
  intros Htx Hb Hd Hlock Hns Hsz Ho. pose proof (tx_arr _ _ _ Htx) as Harr.
  unfold log_write. rewrite !gets_bind, (tx_n _ _ _ Htx).
  unfold too_big. rewrite (tx_n _ _ _ Htx), (proj2 (Z.leb_gt _ _) Hns), (proj2 (Z.leb_gt _ _) Hsz). cbn [orb].
  rewrite (proj2 (Z.ltb_ge _ _) Ho).
  erewrite bind_run; [|unfold acquire; rewrite gets_bind, Hlock; reflexivity].
  destruct (proj1 (wp_run _ _ _) (buf_blockno_law _ _ _ _ (tx_rep _ _ _ Htx) Hb)) as (? & ? & E & -> & ->).
  erewrite bind_run by (unfold bio, zoom; cbn [dev set_lock]; by rewrite E).
  rewrite gets_bind. cbn [set_dev set_lock lh_block]. rewrite Nat2Z.id. clear E.
  destruct (proj1 (wp_run _ _ _) (buf_pin_law _ _ _ _ _ (tx_rep _ _ _ Htx) Hb Hd))
    as ([] & d' & E & R & T & F).
  destruct (find_slot_spec (length ns) 0 (lh_block l) k ltac:(lia) ltac:(cbn; lia)) as [[Hr Hi]|[Hr Hi]];
    set (i := find_slot _ _ _ _) in *; clearbody i; rewrite ?Z.add_0_l in Hr.
  - rewrite decide_True; cycle 1.
    { rewrite <- (tx_blocks _ _ _ Htx). eapply list_elem_of_lookup. exists (Z.to_nat i).
      rewrite lookup_take_lt by lia. done. }
    erewrite bind_run; [|unfold store_block; rewrite gets_bind, (proj2 (Z.ltb_lt _ _)) by lia; reflexivity].
    cbn [set_blocks lh_block]. rewrite list_insert_id by done.
    rewrite (proj2 (Z.eqb_neq _ _)) by lia. rewrite ret_bind.
    erewrite bind_run by (unfold bio, zoom; cbn [dev set_dev set_lock set_blocks]; by rewrite E).
    exists d'. split; [|done]. destruct l. reflexivity.
  - rewrite decide_False; cycle 1.
    { intros Hin. rewrite <- (tx_blocks _ _ _ Htx) in Hin.
      apply list_elem_of_lookup in Hin as [j [Hj1 Hj2]%lookup_take_n]. eapply Hi; [|done]. cbn. lia. }
    erewrite bind_run; [|unfold store_block; rewrite gets_bind, (proj2 (Z.ltb_lt _ _)) by lia; reflexivity].
    rewrite (proj2 (Z.eqb_eq _ _)), modify_bind by lia.
    erewrite bind_run by (unfold bio, zoom; cbn [dev set_dev set_lock set_blocks set_n]; by rewrite E).
    exists d'. split; [|done]. rewrite Hr, Nat2Z.id.
    replace (length ns + 1) with (Z.of_nat (S (length ns))) by lia. destruct l. reflexivity.
Qed.

(** [log_write] keeps the pinned blocks and the header in step, and absorbs
    repeated writes of a block. *)
Lemma log_write_ok l A ns b k d :
  in_txn l A ns → handle (dev l) b k → a_held A !! k = Some d → lock l = false →
  ¬ in_log l k → length ns < LOGSIZE → length ns < u64 (size l - 1) → 1 ≤ outstanding l →
  wp (log_write b) (λ _ l', in_txn l' (pin k d A) (if decide (k ∈ ns) then ns else ns ++ [k]) ∧
    lock l' = false ∧ outstanding l' = outstanding l ∧ trace (dev l') = trace (dev l) ∧
    ∀ j k', handle (dev l) j k' → handle (dev l') j k') l.
Proof.
  intros Htx Hb Hd Hlock Hk Hns Hsz Ho. apply wp_run.
  destruct (log_write_run _ _ _ _ _ _ Htx Hb Hd Hlock Hns Hsz Ho) as (d' & E & R & T & F).
  do 2 eexists. split; [exact E|]. clear E.
  pose proof (tx_arr _ _ _ Htx) as Harr.
  assert (∀ h, is_Some (a_mem (pin k d A) !! h) ↔ h = k ∨ h ∈ ns) as Hmem.
  { intros h. cbn. rewrite lookup_insert. case_decide as E; [subst; naive_solver|].
    rewrite (tx_mem _ _ _ Htx). naive_solver. }
  destruct (decide (k ∈ ns)) as [Hin|Hin]; (split; [split|by destruct l]); cbn -[pin].
  all: try apply Htx. all: try done.
  - intros h. rewrite Hmem. naive_solver.
  - by rewrite length_insert.
  - rewrite length_app. cbn. lia.
  - rewrite length_app, Nat.add_1_r. apply take_insert_app; [apply (tx_blocks _ _ _ Htx)|].
    rewrite Harr. lia.
  - apply NoDup_app. split; [apply (tx_nodup _ _ _ Htx)|]. split; [set_solver|apply NoDup_singleton].
  - intros h. rewrite Hmem. set_solver.
  - intros h [Hh| ->%list_elem_of_singleton]%elem_of_app; [|done]. by apply (tx_home _ _ _ Htx).
Qed.

(** The logged blocks with their pinned contents. *)
Definition pinned (A : abs) (ns : list Z) : list (Z * list Z) :=
  (λ h, (h, default [] (a_mem A !! h))) <$> ns.

Lemma pinned_keys A ns : (pinned A ns).*1 = ns.
Proof. unfold pinned. rewrite <- list_fmap_compose. by rewrite list_fmap_id. Qed.

Lemma txn_committable l A ns :
  in_txn l A ns → a_held A = ∅ → (length ns < NBUF)%nat → length ns < size l →
  committable l A (pinned A ns).
Proof.
  intros Htx Hh Hn Hs. assert (length (pinned A ns) = length ns) as Hlen by apply length_fmap.
  split; rewrite ?Hlen, ?pinned_keys; try apply Htx; try done.
  intros h c (x & [= -> ->] & Hx)%list_elem_of_fmap. apply (tx_mem _ _ _ Htx) in Hx as [d Hd].
  by rewrite Hd.
Qed.

Lemma in_txn_set_lock l A ns b : in_txn (set_lock b l) A ns ↔ in_txn l A ns.
Proof. split; intros []; by split. Qed.

(** Stopping after any part [p] of the writes [tr] leaves a disk that recovery
    turns into [dk] or into [vw], outside the log area; blocks outside of the
    log and of [ns] are not touched. *)
Definition crash_atomic (l : @log D) (dk : gmap Z (list Z)) (vw : Z → option (list Z)) (ns : list Z)
    (tr : list (Z * list Z)) : Prop :=
  ∀ p, p `prefix_of` tr → ∃ ws', recoverable (start l) (apply_writes p dk) ws' ∧
    (∀ k, ¬ in_log l k → k ∉ ns → apply_writes p dk !! k = dk !! k) ∧
    ((∀ k hd, ¬ in_log l k → apply_writes (ws' ++ [(start l, hd)]) (apply_writes p dk) !! k = dk !! k) ∨
     (∀ k hd, ¬ in_log l k → apply_writes (ws' ++ [(start l, hd)]) (apply_writes p dk) !! k = vw k)).

Lemma crash_atomic_nil l dk ns hd :
  dk !! start l = Some hd → is_hdr hd [] → 0 < size l → crash_atomic l dk (λ k, dk !! k) ns [].
Proof.
  intros Hd Hhd Hs p ->%prefix_nil_inv. exists []. split; [apply recoverable_nil; eauto|].
  split; [done|]. left. intros k hd' Hk. apply lookup_insert_ne. cbn. unfold in_log in Hk. lia.
Qed.

Lemma commit_crash_atomic l A ws hd1 hd0 :
  committable l A ws → is_hdr hd1 ws.*1 → is_hdr hd0 [] →
  crash_atomic l (a_disk A) (view A) ws.*1 (commit_writes l ws hd1 hd0).
Proof.
  intros Hcm H1 H0 p Hp. destruct (crash_recovery _ _ _ _ _ Hcm H1 H0 p Hp) as (ws' & Hrc & Hout).
  exists ws'. split; [done|]. split.
  - intros k Hk Hns. apply apply_writes_out. intros Hin%(prefix_key _ _ _ Hp). unfold commit_writes in Hin.
    rewrite !fmap_app, !elem_of_app in Hin. destruct (outside_slot _ _ _ Hcm _ Hk) as [Hs Hsl]. cbn in Hin.
    rewrite !list_elem_of_singleton in Hin. destruct Hin as [Hin%slots_key|[Hin|[Hin|Hin]]]; done.
  - destruct (decide (length p ≤ length ws)%nat); [left|right]; intros k hd Hk; by apply Hout.
Qed.

(** The state [commit] leaves is again outside of any transaction. *)
Lemma commit_txn l A ns :
  in_txn l A ns → a_held A = ∅ → (length ns < NBUF)%nat → length ns < size l →
  wp commit (λ _ l', ∃ dk tr, l' = set_dev (dev l') (set_n 0 l) ∧ in_txn l' (mkabs dk ∅ ∅) [] ∧
    (∀ k, ¬ in_log l k → dk !! k = view A k) ∧
    trace (dev l') = trace (dev l) ++ tr ∧ crash_atomic l (a_disk A) (view A) ns tr ∧
    (bytes_in (a_disk A) → bytes_in (a_mem A) → bytes_all tr)) l.
Proof.
  intros Htx Hh Hn Hs. pose proof (txn_committable _ _ _ Htx Hh Hn Hs) as Hcm.
  destruct ns as [|h ns].
  - unfold commit. do 2 wp_step. rewrite (tx_n _ _ _ Htx). cbn [length Z.of_nat]. apply wp_ret.
    assert (a_mem A = ∅) as Em.
    { apply map_empty. intros k. destruct (a_mem A !! k) eqn:E; [|done]. exfalso.
      assert (k ∈ []) as []%elem_of_nil. apply (tx_mem _ _ _ Htx). by rewrite E. }
    destruct A as [dk mm hh]. cbn in Em, Hh. subst. exists dk, [].
    destruct (cm_hdr_area _ _ _ Hcm) as [hd Hhd].
    split; [pose proof (tx_n _ _ _ Htx); destruct l; cbn in *; by subst|]. split; [done|].
    split; [intros k _; by rewrite view_clean|]. split; [by rewrite app_nil_r|].
    split; [|by intros _ _ w ?%elem_of_nil]. eapply crash_atomic_nil; [exact Hhd|by apply (tx_hdr _ _ _ Htx)|cbn in Hs; lia].
  - eapply wp_mono; [apply (commit_ok _ _ _ Hcm); discriminate|].
    intros [] l' (hd1 & hd0 & H1 & H0 & El & T & R & Hby).
    pose proof (commit_crash_atomic _ _ _ _ _ Hcm H1 H0) as Hcr. rewrite pinned_keys in Hcr.
    set (tr := commit_writes _ _ _ _) in *. exists (apply_writes tr (a_disk A)), tr.
    destruct (Hcr tr ltac:(done)) as (_ & _ & _ & _). split; [done|].
    assert (∀ k, ¬ in_log l k → apply_writes tr (a_disk A) !! k = view A k) as Hview.
    { intros k Hk. destruct (outside_slot _ _ _ Hcm _ Hk) as [Hne Hns]. unfold tr, commit_writes.
      rewrite !apply_writes_app, (apply_writes_out [_]) by (cbn; set_solver).
      apply (installed_view _ _ _ Hcm). rewrite (apply_writes_out [_]) by (cbn; set_solver).
      by eapply slots_out. }
    assert (apply_writes tr (a_disk A) !! start l = Some hd0) as Hstart.
    { unfold tr, commit_writes. rewrite !app_assoc, apply_writes_app.
      apply (apply_writes_in [_]); [apply NoDup_singleton|by left]. }
    clearbody tr. split; [|done]. rewrite El. split; cbn; try apply Htx; try done.
    + constructor.
    + intros k. rewrite lookup_empty. split; [by intros [? ?]|by intros ?%elem_of_nil].
    + by intros k ?%elem_of_nil.
    + intros k Hk. apply apply_writes_some. by apply (tx_area _ _ _ Htx).
    + intros hd Hd. rewrite Hstart in Hd. by injection Hd as <-.
Qed.

(** Recovery interrupted after the writes [p] leaves a disk it can start over
    from, with the same outcome. *)
Lemma recover_prefix st dk ws hd p :
  recoverable st dk ws → is_hdr hd [] → p `prefix_of` ws ++ [(st, hd)] →
  ∃ ws', recoverable st (apply_writes p dk) ws' ∧
    ∀ k hd', k ≠ st → apply_writes (ws' ++ [(st, hd')]) (apply_writes p dk) !! k =
      apply_writes (ws ++ [(st, hd)]) dk !! k.
Proof.
  intros Hrc Hhd Hp.
  assert (∀ dk' k hd' ws', k ≠ st → apply_writes (ws' ++ [(st, hd')]) dk' !! k = apply_writes ws' dk' !! k)
    as Hlast. { intros dk' k hd' ws' Hk. rewrite apply_writes_app. cbn. by rewrite lookup_insert_ne. }
  apply prefix_snoc_cases in Hp as [Hp| ->].
  - assert (∀ j : nat, (j ≤ length ws)%nat → st + j ∉ p.*1) as Hsep.
    { intros j Hj Hin. apply (prefix_key _ _ _ Hp), list_elem_of_fmap in Hin as ([h c] & E & Hw).
      by apply (rc_sep _ _ _ Hrc h c j Hw Hj). }
    exists ws. split; [split|]; try apply Hrc.
    + destruct (rc_hdr _ _ _ Hrc) as (hd1 & E & H1). exists hd1. split; [|done].
      rewrite apply_writes_out; [done|]. specialize (Hsep 0%nat). rewrite Z.add_0_r in Hsep. apply Hsep. lia.
    + intros j h c Hj. rewrite apply_writes_out; [by eapply (rc_slot _ _ _ Hrc)|].
      replace (st + j + 1) with (st + S j) by lia. apply Hsep. by apply lookup_lt_Some in Hj.
    + intros h c Hw. by eapply apply_writes_some, (rc_home _ _ _ Hrc).
    + intros k hd' Hk. rewrite !Hlast by done.
      destruct (decide (k ∈ ws.*1)) as [Hin|Hin].
      * apply list_elem_of_fmap in Hin as ([h c] & -> & Hw).
        by rewrite !(apply_writes_in _ _ _ c) by (done || apply Hrc).
      * rewrite !(apply_writes_out ws), apply_writes_out; [done| |done..].
        intros H. by apply Hin, (prefix_key _ _ _ Hp).
  - exists []. split; [|by intros k hd' Hk; rewrite Hlast].
    apply recoverable_nil. exists hd. split; [|done]. rewrite apply_writes_app. apply lookup_insert_eq.
Qed.


(** ** Whole operations *)

(** The use log.c documents: read a block, modify it, log it, release it. *)
Definition log_update (w : Z * list Z) : M (@log D) unit :=
  b ← bio (block_read ROOTDEV w.1);
  _ ← bio (buf_store b w.2);
  _ ← log_write b;
  bio (block_release b).

Fixpoint log_updates (ws : list (Z * list Z)) : M (@log D) unit :=
  match ws with [] => mret tt | w :: ws => _ ← log_update w; log_updates ws end.

(** A file system call that makes the updates [ws]. *)
Definition fs_op (ws : list (Z * list Z)) : M (@log D) unit :=
  _ ← begin_op; _ ← log_updates ws; end_op.

Definition add_block (ns : list Z) (w : Z * list Z) : list Z :=
  if decide (w.1 ∈ ns) then ns else ns ++ [w.1].

(** The log between the calls of one operation. *)
Record running (l : @log D) (A : abs) (ns : list Z) : Prop := {
  rn_txn : in_txn l A ns;
  rn_held : a_held A = ∅;
  rn_lock : lock l = false;
  rn_out : 1 ≤ outstanding l;
}.

Lemma room_pinned l A ns k : in_txn l A ns → a_held A = ∅ → (length ns < NBUF)%nat → room A k.
Proof.
  intros Htx Hh Hn. right. rewrite Hh, dom_empty_L, union_empty_r_L.
  assert (dom (a_mem A) ⊆ list_to_set (C := gset Z) ns) as Hsub.
  { intros h Hk%elem_of_dom. apply elem_of_list_to_set. by apply (tx_mem _ _ _ Htx). }
  apply subseteq_size in Hsub. rewrite size_list_to_set in Hsub by apply (tx_nodup _ _ _ Htx). lia.
Qed.

Lemma in_txn_dev l A A' ns d :
  in_txn l A ns → rep d A' → a_disk A' = a_disk A → a_mem A' = a_mem A → in_txn (set_dev d l) A' ns.
Proof. intros Htx Hr Ed Em. split; rewrite ?Ed, ?Em; try apply Htx. done. Qed.

Lemma log_update_ok l A ns k d :
  running l A ns → ¬ in_log l k → is_Some (a_disk A !! k) → length d = BSIZE →
  (length ns < NBUF)%nat → length ns < u64 (size l - 1) →
  wp (log_update (k, d)) (λ _ l', running l' (pin k d A) (add_block ns (k, d)) ∧
    start l' = start l ∧ size l' = size l ∧ outstanding l' = outstanding l ∧
    committing l' = committing l ∧ wakeups l' = wakeups l ∧ trace (dev l') = trace (dev l)) l.
Proof.
  intros [Htx Hh Hlk Ho] Hk Hdk Hd Hn Hs. unfold log_update. cbn [fst snd].
  assert (is_Some (view A k)) as [x Hx]. { unfold view. destruct (a_mem A !! k); eauto. }
  apply wp_bind, wp_bio. eapply wp_mono.
  { eapply (block_read_law _ _ _ _ (tx_rep _ _ _ Htx)); [by rewrite Hh|done|by eapply room_pinned]. }
  intros b d1 (R1 & L1 & T1 & _). apply wp_bind, wp_bio. eapply wp_mono.
  { eapply (buf_store_law _ _ _ _ _ d R1 L1); [apply lookup_insert_eq|done]. }
  intros [] d2 (R2 & T2 & F2). rewrite hold_hold in R2. rewrite set_dev_eq.
  assert (in_txn (set_dev d2 l) (hold k d A) ns) as Htx2 by by eapply in_txn_dev.
  apply wp_bind. apply wp_run.
  destruct (log_write_run _ _ _ b k d Htx2 (F2 _ _ L1) ltac:(apply lookup_insert_eq) Hlk
    ltac:(unfold NBUF, LOGSIZE in *; lia) Hs Ho) as (d3 & E & R3 & T3 & F3).
  destruct (proj1 (wp_run _ _ _) (log_write_ok _ _ _ b k d Htx2 (F2 _ _ L1) ltac:(apply lookup_insert_eq)
    Hlk Hk ltac:(unfold NBUF, LOGSIZE in *; lia) Hs Ho)) as ([] & l3 & E' & Htx3 & Hlk3 & Ho3 & Ht3 & F3').
  rewrite E' in E. injection E as ->. do 2 eexists. split; [exact E'|]. clear E'.
  set (l3 := set_lock false _) in *. apply wp_bio.
  eapply wp_mono.
  { eapply (block_release_law _ _ _ _ d (tx_rep _ _ _ Htx3) (F3' _ _ (F2 _ _ L1)));
      [apply lookup_insert_eq|]. by rewrite view_pin, decide_True. }
  intros [] d4 (R4 & T4 & _).
  assert (unhold k (pin k d (hold k d A)) = pin k d A) as E.
  { unfold unhold, pin, hold. cbn. by rewrite delete_insert_id by by rewrite Hh. }
  rewrite E in R4. split; [split|].
  - by eapply in_txn_dev.
  - done.
  - done.
  - unfold l3. by case_decide.
  - cbn. rewrite T4. split_and!; try (unfold l3; by case_decide). rewrite Ht3. cbn. congruence.
Qed.

Definition pins (ws : list (Z * list Z)) (A : abs) : abs := fold_left (λ A w, pin w.1 w.2 A) ws A.

Lemma length_add_blocks ws ns : (length (fold_left add_block ws ns) ≥ length ns)%nat.
Proof.
  revert ns. induction ws as [|w ws IH]; intros ns; cbn; [lia|]. pose proof (IH (add_block ns w)) as H.
  unfold add_block in *. case_decide; [lia|]. rewrite length_app in H. cbn in H. lia.
Qed.

Lemma log_updates_ok ws l A ns :
  running l A ns →
  (∀ k d, (k, d) ∈ ws → ¬ in_log l k ∧ is_Some (a_disk A !! k) ∧ length d = BSIZE) →
  (length (fold_left add_block ws ns) < NBUF)%nat →
  length (fold_left add_block ws ns) < u64 (size l - 1) →
  wp (log_updates ws) (λ _ l', running l' (pins ws A) (fold_left add_block ws ns) ∧
    start l' = start l ∧ size l' = size l ∧ outstanding l' = outstanding l ∧
    committing l' = committing l ∧ wakeups l' = wakeups l ∧ trace (dev l') = trace (dev l)) l.
Proof.
  revert l A ns. induction ws as [|[k d] ws IH]; intros l A ns Hrun Hws Hn Hs; [by apply wp_ret|].
  cbn in Hn, Hs. pose proof (length_add_blocks ws (add_block ns (k, d))) as H1.
  assert (length (add_block ns (k, d)) ≥ length ns)%nat as H2.
  { unfold add_block. case_decide; [lia|]. rewrite length_app. cbn. lia. }
  destruct (Hws k d ltac:(left)) as (Hk & Hdk & Hd).
  cbn [log_updates]. apply wp_bind. eapply wp_mono; [apply log_update_ok; try done; lia|].
  intros [] l1 (Hrun1 & E1 & E2 & E3 & E4 & E5 & E6). eapply wp_mono.
  - apply IH; [done| |done|by rewrite E2].
    intros k' d' Hin. unfold in_log. rewrite E1, E2. apply Hws. by right.
  - intros [] l2 (? & ? & ? & ? & ? & ? & ?). split_and!; [done|congruence..].
Qed.

Lemma pins_disk ws A : a_disk (pins ws A) = a_disk A.
Proof. revert A. induction ws as [|w ws IH]; intros A; [done|]. cbn. by rewrite IH. Qed.

Lemma pins_bytes ws A : bytes_in (a_mem A) → bytes_all ws → bytes_in (a_mem (pins ws A)).
Proof.
  revert A. induction ws as [|w ws IH]; intros A Hm Hw; [done|]. cbn. apply IH; [|intros x Hx; apply Hw; by right].
  intros k d. cbn. rewrite lookup_insert_Some. intros [[_ <-]|[_ H]]; [apply Hw; by left|by apply (Hm k)].
Qed.

Lemma view_pins ws A k dk :
  dk !! k = view A k → view (pins ws A) k = apply_writes ws dk !! k.
Proof.
  revert A dk. induction ws as [|[h c] ws IH]; intros A dk E; [done|]. cbn. apply IH.
  rewrite view_pin, lookup_insert. repeat case_decide; congruence.
Qed.

(** Idle: no operation runs, nothing is pinned or held. *)
Record idle (l : @log D) (dk : gmap Z (list Z)) : Prop := {
  id_txn : in_txn l (mkabs dk ∅ ∅) [];
  id_lock : lock l = false;
  id_out : outstanding l = 0;
  id_com : committing l = false;
}.

Lemma begin_op_run l :
  lock l = false → committing l = false → 0 ≤ outstanding l < 2 ^ 32 →
  0 ≤ lh_n l → lh_n l + (outstanding l + 1) * MAXOPBLOCKS ≤ LOGSIZE →
  begin_op l = Ok (tt, set_outstanding (outstanding l + 1) l).
Proof.
  intros Hl Hc Ho Hn Hg. unfold begin_op, MAXOPBLOCKS, LOGSIZE in *.
  erewrite bind_run; [|unfold acquire; rewrite gets_bind, Hl; reflexivity].
  rewrite !gets_bind. cbn [committing set_lock lh_n outstanding]. rewrite Hc.
  rewrite !wrap_small by lia. rewrite (proj2 (Z.ltb_ge _ _)) by lia.
  rewrite modify_bind. unfold release. rewrite gets_bind. destruct l. cbn in *. by subst.
Qed.

Lemma wp_acquire l Q : lock l = false → Q tt (set_lock true l) → wp acquire Q l.
Proof. intros Hl HQ. unfold acquire. do 2 wp_step. rewrite Hl. apply wp_bind, wp_assert; [done|]. by apply wp_modify. Qed.

Lemma wp_release l Q : lock l = true → Q tt (set_lock false l) → wp release Q l.
Proof. intros Hl HQ. unfold release. do 2 wp_step. rewrite Hl. apply wp_bind, wp_assert; [done|]. by apply wp_modify. Qed.

Lemma end_op_last l A ns :
  running l A ns → outstanding l = 1 → committing l = false →
  (length ns < NBUF)%nat → length ns < size l →
  wp end_op (λ _ l', ∃ dk tr, idle l' dk ∧ wakeups l' = S (wakeups l) ∧
    start l' = start l ∧ size l' = size l ∧ (∀ k, ¬ in_log l k → dk !! k = view A k) ∧
    trace (dev l') = trace (dev l) ++ tr ∧ crash_atomic l (a_disk A) (view A) ns tr ∧
    (bytes_in (a_disk A) → bytes_in (a_mem A) → bytes_all tr)) l.
Proof.
  intros [Htx Hh Hl Ho] Ho1 Hc Hn Hs. unfold end_op.
  apply wp_bind, wp_acquire; [done|]. do 4 wp_step. cbn [committing set_outstanding set_lock]. rewrite Hc.
  do 2 wp_step. cbn [outstanding set_outstanding set_lock]. rewrite Ho1.
  rewrite (wrap_small 64 (1 - 1)) by lia. rewrite (proj2 (Z.eqb_eq (1 - 1) 0)) by lia.
  do 2 wp_step. apply wp_bind, wp_release; [done|]. apply wp_bind. eapply wp_mono.
  { eapply (commit_txn _ A ns); [|done..]. destruct Htx. by split. }
  intros [] l' (dk & tr & El & Htx' & Hk & T & Hcr & Hby). apply wp_bind, wp_acquire; [by rewrite El|]. do 4 wp_step.
  apply wp_release; [done|]. exists dk, tr. rewrite El in *. cbn in *. split; [|done].
  split; [|done..]. destruct Htx'. by split.
Qed.

(** One whole operation, from idle to idle. *)
Lemma fs_op_ok l dk ws :
  idle l dk →
  (∀ k d, (k, d) ∈ ws → ¬ in_log l k ∧ is_Some (dk !! k) ∧ length d = BSIZE) →
  (length (fold_left add_block ws []) ≤ 10)%nat → 11 < size l < 2 ^ 64 →
  wp (fs_op ws) (λ _ l', ∃ dk' tr, idle l' dk' ∧ start l' = start l ∧ size l' = size l ∧
    (∀ k, ¬ in_log l k → dk' !! k = apply_writes ws dk !! k) ∧
    trace (dev l') = trace (dev l) ++ tr ∧
    crash_atomic l dk (λ k, apply_writes ws dk !! k) (fold_left add_block ws []) tr ∧
    (bytes_in dk → bytes_all ws → bytes_all tr)) l.
Proof.
  intros [Htx Hl Ho Hc] Hws Hlen Hs. unfold fs_op. apply wp_bind, wp_run. do 2 eexists. split.
  { apply begin_op_run; [done|done|lia|..]; rewrite (tx_n _ _ _ Htx), ?Ho; cbn; [lia|].
    unfold MAXOPBLOCKS, LOGSIZE. lia. }
  rewrite Ho. apply wp_bind. eapply wp_mono; [apply (log_updates_ok ws _ (mkabs dk ∅ ∅) [])|].
  - split; [destruct Htx; by split|done..].
  - done.
  - unfold NBUF. lia.
  - cbn [size set_outstanding]. rewrite wrap_small by lia. lia.
  - intros [] l1 (Hrun & E1 & E2 & E3 & E4 & E5 & E6). cbn in E1, E2, E3, E4, E5, E6.
    eapply wp_mono; [apply (end_op_last _ _ _ Hrun); [done|congruence|unfold NBUF; lia|lia]|].
    intros [] l2 (dk' & tr & Hid & _ & F1 & F2 & Hk & T & Hcr & Hby).
    assert (∀ k, view (pins ws (mkabs dk ∅ ∅)) k = apply_writes ws dk !! k) as Hv.
    { intros k. apply view_pins. by rewrite view_clean. }
    exists dk', tr. rewrite F1, F2, T, E6. split_and!; try done.
    + intros k Hin. rewrite <- Hv. apply Hk. unfold in_log. by rewrite E1, E2.
    + intros p Hp. destruct (Hcr p Hp) as (ws' & Hrc & Hsame & Hor). rewrite pins_disk in Hrc, Hsame, Hor.
      unfold in_log in *. rewrite E1, ?E2 in *. exists ws'. split; [done|]. split; [done|].
      destruct Hor as [Hor|Hor]; [by left|right]. intros k hd Hin. rewrite <- Hv. by apply Hor.
    + intros Hd Hw. apply Hby; [by rewrite pins_disk|]. apply pins_bytes; [|done]. intros k d; cbn; by intros ?%lookup_empty_Some.
Qed.

(** ** Admission of concurrent operations

    Several system calls share one transaction.  [os] records, for each
    running call, the blocks it has logged.  Each call of [begin_op],
    [log_write] and [end_op] is one step: the first two run under [log.lock],
    and while [end_op] commits no other call can take a step, since none is
    outstanding and [begin_op] waits for [committing] to be cleared. *)
Abbreviation opmap := (gmap nat (gset Z)).

Inductive step : @log D * opmap → @log D * opmap → Prop :=
| step_begin t l os l' :
    os !! t = None → begin_op l = Ok (tt, l') → step (l, os) (l', <[t := ∅]> os)
| step_cache l os d : step (l, os) (set_dev d l, os)
| step_write t s b k d l os l' :
    os !! t = Some s → buf_blockno b (dev l) = Ok (k, d) →
    base.size ({[k]} ∪ s) ≤ MAXOPBLOCKS → log_write b l = Ok (tt, l') →
    step (l, os) (l', <[t := {[k]} ∪ s]> os)
| step_end t s l os l' :
    os !! t = Some s → end_op l = Ok (tt, l') → step (l, os) (l', delete t os).

(** The blocks the running calls may still add. *)
Definition budget (os : opmap) : Z := map_fold (λ _ s z, z + (MAXOPBLOCKS - base.size s)) 0 os.

Definition header (l : @log D) : gset Z := list_to_set (take (Z.to_nat (lh_n l)) (lh_block l)).

Record admitted (l : @log D) (os : opmap) : Prop := {
  ad_out : outstanding l = base.size os;
  ad_few : base.size os ≤ 3;
  ad_com : committing l = false;
  ad_n : 0 ≤ lh_n l;
  ad_arr : length (lh_block l) = LOGSIZE;
  ad_ops t s : os !! t = Some s → s ⊆ header l ∧ base.size s ≤ MAXOPBLOCKS;
  ad_budget : lh_n l + budget os ≤ LOGSIZE;
}.

Lemma budget_insert os t s :
  os !! t = None → budget (<[t := s]> os) = budget os + (MAXOPBLOCKS - base.size s).
Proof. intros H. unfold budget. rewrite map_fold_insert_L; [done|lia|done]. Qed.

Lemma budget_delete os t s :
  os !! t = Some s → budget os = budget (delete t os) + (MAXOPBLOCKS - base.size s).
Proof.
  intros H. rewrite <- (insert_delete_id os t s) at 1 by done.
  rewrite budget_insert; [done|apply lookup_delete_eq].
Qed.

Lemma budget_empty : budget ∅ = 0.
Proof. reflexivity. Qed.

Lemma budget_nonneg os :
  (∀ t s, os !! t = Some s → base.size s ≤ MAXOPBLOCKS) → 0 ≤ budget os.
Proof.
  induction os as [|t s os Hn IH] using map_ind; intros H; [by rewrite budget_empty|].
  rewrite budget_insert by done. pose proof (H t s (lookup_insert_eq _ _ _)).
  cut (0 ≤ budget os); [lia|]. apply IH. intros t' s' Ht. eapply H.
  rewrite lookup_insert_ne; [done|]. intros ->. congruence.
Qed.

(** An operation that touches the device only. *)
Definition dev_only {T} (m : M (@log D) T) : Prop :=
  ∀ l a l', m l = Ok (a, l') → l' = set_dev (dev l') l.

Lemma dev_only_bio {T} (m : M D T) : dev_only (bio m).
Proof.
  intros l a l'. unfold bio, zoom. destruct (m (dev l)) as [[x d]|]; [|done]. by intros [= <- <-].
Qed.

Lemma dev_only_bind {T U} (m : M (@log D) T) (k : T → M (@log D) U) :
  dev_only m → (∀ a, dev_only (k a)) → dev_only (m ≫= k).
Proof.
  intros Hm Hk l b l' (a & l1 & E & E')%bind_ok. apply Hm in E. apply Hk in E'. rewrite E in E'. done.
Qed.

Lemma dev_only_gets {T} (f : @log D → T) : dev_only (gets f).
Proof. intros l a l' [= <- <-]. by rewrite set_dev_id. Qed.

Lemma dev_only_ret {T} (a : T) : dev_only (mret a).
Proof. intros l b l' [= <- <-]. by rewrite set_dev_id. Qed.

Lemma dev_only_load_block i : dev_only (load_block i).
Proof.
  apply dev_only_bind; [apply dev_only_gets|]. intros bs l a l'. unfold from_option.
  destruct (bs !! _); [|done]. apply dev_only_ret.
Qed.

Create HintDb devonly.

#[local] Hint Resolve dev_only_bio dev_only_gets dev_only_ret dev_only_load_block : devonly.

Ltac dev_only :=
  repeat (first [apply dev_only_bind; [by auto with devonly|intros ?] | solve [auto with devonly]]).

Lemma dev_only_install k tail : dev_only (install_loop k tail).
Proof. revert tail. induction k as [|k IH]; intros tail; cbn [install_loop]; dev_only. Qed.

Lemma dev_only_write_log k tail : dev_only (write_log_loop k tail).
Proof. revert tail. induction k as [|k IH]; intros tail; cbn [write_log_loop]; dev_only. Qed.

Lemma dev_only_write_head_loop k i d : dev_only (write_head_loop k i d).
Proof. revert i d. induction k as [|k IH]; intros i d; cbn [write_head_loop]; dev_only. Qed.

#[local] Hint Resolve dev_only_install dev_only_write_log dev_only_write_head_loop : devonly.

Lemma dev_only_write_head : dev_only write_head.
Proof. unfold write_head. dev_only. Qed.

(** [commit] empties the header and changes nothing else but the device. *)
Lemma commit_frame l l' : commit l = Ok (tt, l') → 0 ≤ lh_n l → l' = set_dev (dev l') (set_n 0 l).
Proof.
  unfold commit. rewrite gets_bind. zcase; cycle 1.
  { intros [= <-] Hn. assert (lh_n l = 0) as E by lia. destruct l; cbn in *. by subst. }
  intros (? & l1 & E1 & E)%bind_ok _. apply bind_ok in E as (? & l2 & E2 & E).
  apply bind_ok in E as (? & l3 & E3 & E). rewrite modify_bind in E.
  apply (dev_only_bind (gets lh_n) _ (dev_only_gets _) (λ n, dev_only_write_log _ _)) in E1.
  apply dev_only_write_head in E2.
  apply (dev_only_bind (gets lh_n) _ (dev_only_gets _) (λ n, dev_only_install _ _)) in E3.
  apply dev_only_write_head in E. rewrite E, E3, E2, E1. done.
Qed.

Lemma acquire_ok l l' : acquire l = Ok (tt, l') → lock l = false ∧ l' = set_lock true l.
Proof.
  unfold acquire. rewrite gets_bind. destruct (lock l); [done|]. cbn. by intros [= <-].
Qed.

Lemma release_ok l l' : release l = Ok (tt, l') → l' = set_lock false l.
Proof.
  unfold release. rewrite gets_bind. destruct (lock l); [|done]. cbn. by intros [= <-].
Qed.

(** What a successful [begin_op], [end_op] or [log_write] did. *)
Lemma begin_op_inv l l' :
  begin_op l = Ok (tt, l') →
  committing l = false ∧ u64 (lh_n l + (outstanding l + 1) * MAXOPBLOCKS) ≤ LOGSIZE ∧
  l' = set_lock false (set_outstanding (u64 (outstanding l + 1)) l).
Proof.
  unfold begin_op. intros ([] & l1 & [_ ->]%acquire_ok & E)%bind_ok. rewrite !gets_bind in E.
  cbn [committing set_lock lh_n outstanding] in E. destruct (committing l); [done|].
  destruct (Z.ltb_spec LOGSIZE (u64 (lh_n l + (outstanding l + 1) * MAXOPBLOCKS))); [done|].
  rewrite modify_bind in E. apply release_ok in E as ->. done.
Qed.

Lemma end_op_inv l l' :
  end_op l = Ok (tt, l') → 0 ≤ lh_n l →
  let o := u64 (outstanding l - 1) in
  committing l = false ∧
  l' = set_dev (dev l') (set_lock false (set_outstanding o (wake (if o =? 0 then set_n 0 l else l)))).
Proof.
  unfold end_op. intros ([] & l1 & [_ ->]%acquire_ok & E)%bind_ok Hn. rewrite modify_bind, gets_bind in E.
  cbn [committing set_lock set_outstanding] in E. destruct (committing l) eqn:Hc; [done|]. split; [done|].
  rewrite gets_bind in E. cbn [outstanding set_outstanding set_lock] in E.
  destruct (u64 (outstanding l - 1) =? 0).
  - rewrite modify_bind in E. apply bind_ok in E as ([] & l2 & ->%release_ok & E).
    apply bind_ok in E as ([] & l3 & ->%commit_frame & E); [|done].
    apply bind_ok in E as ([] & l4 & [_ ->]%acquire_ok & E). rewrite !modify_bind in E.
    apply release_ok in E as ->. destruct l. cbn in *. by subst.
  - rewrite modify_bind in E. apply release_ok in E as ->. by destruct l.
Qed.

Lemma log_write_inv b k d l l' :
  buf_blockno b (dev l) = Ok (k, d) → log_write b l = Ok (tt, l') →
  let i := find_slot (Z.to_nat (lh_n l)) 0 (lh_block l) k in
  lh_n l < LOGSIZE ∧
  l' = set_dev (dev l') (set_lock false (set_n (if i =? lh_n l then lh_n l + 1 else lh_n l)
         (set_blocks (<[Z.to_nat i := k]> (lh_block l)) l))).
Proof.
  intros Hb. unfold log_write. rewrite !gets_bind.
  destruct (too_big l) eqn:G; [done|].
  apply orb_false_iff in G as [G _]. zbool. destruct (outstanding l <? 1); [done|].
  intros ([] & l1 & [_ ->]%acquire_ok & E)%bind_ok. apply bind_ok in E as (k' & l2 & E2 & E).
  unfold bio, zoom in E2. cbn [dev set_lock] in E2. rewrite Hb in E2. injection E2 as <- <-.
  rewrite gets_bind in E. cbn [lh_block set_dev set_lock] in E. set (i := find_slot _ _ _ _) in *.
  apply bind_ok in E as ([] & l3 & E3 & E). unfold store_block in E3. rewrite gets_bind in E3.
  destruct (i <? LOGSIZE); [|done]. injection E3 as <-. apply bind_ok in E as ([] & l4 & E4 & E).
  apply bind_ok in E as ([] & l5 & E5%dev_only_bio & E). apply release_ok in E as ->.
  split; [done|]. cbn in E4 |- *. destruct (i =? lh_n l).
  - injection E4 as <-. rewrite E5. by destruct l.
  - injection E4 as <-. rewrite E5. by destruct l.
Qed.

Lemma header_keep l l' : lh_n l' = lh_n l → lh_block l' = lh_block l → header l' = header l.
Proof. unfold header. by intros -> ->. Qed.

Lemma admitted_begin t l os l' :
  admitted l os → os !! t = None → begin_op l = Ok (tt, l') → admitted l' (<[t := ∅]> os).
Proof.
  intros [Ho Hf Hc Hn Ha Hs Hb] Ht (_ & Hg & ->)%begin_op_inv.
  pose proof (budget_nonneg os ltac:(intros t' s' H; by destruct (Hs t' s' H))) as Hb0.
  unfold MAXOPBLOCKS, LOGSIZE in *. rewrite wrap_small in Hg by lia.
  split; cbn [outstanding set_outstanding set_lock lh_n lh_block committing]; try done.
  - rewrite wrap_small by lia. rewrite map_size_insert_None by done. lia.
  - rewrite map_size_insert_None by done. lia.
  - intros t' s' [[<- <-]|[_ H]]%lookup_insert_Some; [|by apply (Hs t')].
    rewrite size_empty. unfold MAXOPBLOCKS. split; [set_solver|lia].
  - rewrite budget_insert by done. rewrite size_empty. unfold MAXOPBLOCKS, LOGSIZE in *.
    assert (budget os ≤ base.size os * 10) as Hle; [|lia].
    clear. induction os as [|t s os Ht IH] using map_ind; [done|].
    rewrite budget_insert, map_size_insert_None by done. unfold MAXOPBLOCKS. lia.
Qed.

Lemma header_snoc l l' k :
  0 ≤ lh_n l < LOGSIZE → length (lh_block l) = LOGSIZE → lh_n l' = lh_n l + 1 →
  lh_block l' = <[Z.to_nat (lh_n l) := k]> (lh_block l) → header l' = {[k]} ∪ header l.
Proof.
  intros Hn Ha En Eb. unfold header. rewrite En, Eb, Z.add_1_r, Z2Nat.inj_succ by lia.
  rewrite (take_S_r _ _ k) by (apply list_lookup_insert_eq; lia).
  rewrite take_insert_ge by lia. rewrite list_to_set_app_L. cbn. set_solver.
Qed.

Lemma admitted_write t s b k d l os l' :
  admitted l os → os !! t = Some s → buf_blockno b (dev l) = Ok (k, d) →
  base.size ({[k]} ∪ s) ≤ MAXOPBLOCKS → log_write b l = Ok (tt, l') →
  admitted l' (<[t := {[k]} ∪ s]> os).
Proof.
  intros [Ho Hf Hc Hn Ha Hs Hb] Ht Hbk Hsz [Hlt El]%(log_write_inv _ _ _ _ _ Hbk).
  destruct (find_slot_spec (Z.to_nat (lh_n l)) 0 (lh_block l) k ltac:(lia) ltac:(cbn; lia)) as [[Hr Hi]|[Hr Hi]];
    set (i := find_slot _ _ _ _) in *; clearbody i.
  - rewrite (proj2 (Z.eqb_neq _ _)), list_insert_id in El by (done || lia).
    assert (header l' = header l) as Hh by by rewrite El.
    assert (k ∈ header l) as Hk.
    { apply elem_of_list_to_set. eapply list_elem_of_lookup. exists (Z.to_nat i).
      by rewrite lookup_take_lt by lia. }
    assert (base.size s ≤ base.size ({[k]} ∪ s)) as Hle.
    { apply inj_le, subseteq_size. set_solver. }
    rewrite <- Hh in Hk, Hs. rewrite El. split; cbn; try done.
    + by rewrite map_size_insert_Some.
    + by rewrite map_size_insert_Some.
    + rewrite <- El. intros t' s' [[<- <-]|[_ H]]%lookup_insert_Some; [|by eapply Hs].
      split; [|done]. destruct (Hs _ _ Ht). set_solver.
    + rewrite (budget_delete (<[t := _]> os) t ({[k]} ∪ s)) by apply lookup_insert_eq.
      rewrite delete_insert_eq. rewrite (budget_delete os t s) in Hb by done. lia.
  - rewrite Z.add_0_l, Z2Nat.id in Hr by done. subst i. rewrite Z.eqb_refl in El.
    assert (header l' = {[k]} ∪ header l) as Hh. { apply header_snoc; [lia|done|by rewrite El..]. }
    assert (k ∉ header l) as Hk.
    { intros Hin%elem_of_list_to_set. apply list_elem_of_lookup in Hin as [j [Hj1 Hj2]%lookup_take_n].
      eapply Hi; [|done]. cbn. lia. }
    assert (k ∉ s) as Hks by (destruct (Hs _ _ Ht); set_solver).
    rewrite El. split; cbn; try done.
    + by rewrite map_size_insert_Some.
    + by rewrite map_size_insert_Some.
    + lia.
    + by rewrite length_insert.
    + rewrite <- El, Hh. intros t' s' [[<- <-]|[_ H]]%lookup_insert_Some.
      * split; [|done]. destruct (Hs _ _ Ht). set_solver.
      * destruct (Hs _ _ H). set_solver.
    + rewrite (budget_delete (<[t := _]> os) t ({[k]} ∪ s)) by apply lookup_insert_eq.
      rewrite delete_insert_eq. rewrite (budget_delete os t s) in Hb by done.
      rewrite size_union, size_singleton by set_solver. lia.
Qed.

(** The guard of [log_write], on a log area with a slot for every entry of the
    header. *)
Lemma too_big_full l : LOGSIZE < size l < 2 ^ 64 → 0 ≤ lh_n l ≤ LOGSIZE → too_big l = true ↔ lh_n l = LOGSIZE.
Proof.
  intros Hsz Hn. unfold too_big. rewrite wrap_small by (unfold LOGSIZE in *; lia). rewrite orb_true_iff, !Z.leb_le. lia.
Qed.

Lemma admitted_end t s l os l' :
  admitted l os → os !! t = Some s → end_op l = Ok (tt, l') → admitted l' (delete t os).
Proof.
  intros [Ho Hf Hc Hn Ha Hs Hb] Ht [_ El]%end_op_inv; [|done].
  pose proof (map_size_delete_Some t os (mk_is_Some _ _ Ht)) as Hsz.
  assert (base.size os ≠ 0%nat) as Hne by (apply map_size_ne_0_lookup; exists t; by rewrite Ht).
  pose proof (budget_delete os t s Ht) as Hbd. destruct (Hs t s Ht) as [_ Hms].
  rewrite wrap_small in El by lia. rewrite El.
  destruct (Z.eqb_spec (outstanding l - 1) 0) as [E|E].
  - assert (delete t os = ∅) as ->. { apply map_size_empty_inv. lia. }
    split; cbn; try done; lia.
  - split; cbn [outstanding set_outstanding set_lock set_dev wake lh_n lh_block committing]; try done; try lia.
    rewrite <- El. intros t' s' [_ H]%lookup_delete_Some. rewrite (header_keep l l') by by rewrite El.
    by eapply Hs.
Qed.

Lemma admitted_step x y : step x y → admitted x.1 x.2 → admitted y.1 y.2.
Proof.
  intros [] Had; cbn in *.
  - by eapply admitted_begin.
  - by destruct Had; split.
  - by eapply admitted_write.
  - by eapply admitted_end.
Qed.

Lemma admitted_idle l : outstanding l = 0 → committing l = false → lh_n l = 0 →
  length (lh_block l) = LOGSIZE → admitted l ∅.
Proof. intros Ho Hc Hn Ha. split; rewrite ?Ho, ?Hn; cbn; try done; lia. Qed.

(** ** Properties *)

(** C2. Crash safety of a file system call.  From an idle log, a call that
    logs the block updates [ws] (at most [MAXOPBLOCKS] distinct blocks) returns
    with the log idle again and the updates on disk.  Stop it after any prefix
    [p] of its disk writes and reboot on the disk this leaves: [initlog]
    returns with an empty log, and outside the log area the disk is either the
    one before the call or the one after it, never a mix. *)
Theorem fs_op_crash_atomic l dk ws sb :
  idle l dk →
  (∀ k d, (k, d) ∈ ws → ¬ in_log l k ∧ is_Some (dk !! k) ∧ length d = BSIZE) →
  (length (fold_left add_block ws []) ≤ 10)%nat → 11 < size l < 2 ^ 64 →
  dk !! 1 = Some sb → sb_logstart sb = start l → ¬ in_log l 1 → 1 ∉ fold_left add_block ws [] →
  ∃ l' dk' tr, fs_op ws l = Ok (tt, l') ∧ idle l' dk' ∧ trace (dev l') = trace (dev l) ++ tr ∧
    (∀ k, ¬ in_log l k → dk' !! k = apply_writes ws dk !! k) ∧
    ∀ p l0, p `prefix_of` tr → length (lh_block l0) = LOGSIZE →
      rep (dev l0) (mkabs (apply_writes p dk) ∅ ∅) →
      ∃ l1 dk1, initlog ROOTDEV l0 = Ok (tt, l1) ∧ rep (dev l1) (mkabs dk1 ∅ ∅) ∧ lh_n l1 = 0 ∧
        ((∀ k, ¬ in_log l k → dk1 !! k = dk !! k) ∨
         (∀ k, ¬ in_log l k → dk1 !! k = apply_writes ws dk !! k)).
Proof.
  intros Hid Hws Hlen Hs Hsb Hst H1 H1'.
  destruct (proj1 (wp_run _ _ _) (fs_op_ok _ _ _ Hid Hws Hlen Hs))
    as ([] & l' & E & dk' & tr & Hid' & _ & _ & Hk & T & Hcr & _).
  exists l', dk', tr. split_and!; [done..|]. intros p l0 Hp Hlen0 Hr0.
  destruct (Hcr p Hp) as (ws' & Hrc & Hsame & Hor). rewrite <- Hst in Hrc.
  pose proof (Hsame 1 H1 H1') as Hsb'. rewrite Hsb in Hsb'.
  destruct (proj1 (wp_run _ _ _) (initlog_ok _ _ _ _ Hr0 Hlen0 Hsb' Hrc))
    as ([] & l1 & E1 & hd & _ & _ & R1 & Hn1 & _).
  eexists l1, _. split; [done|]. split; [exact R1|]. split; [done|].
  rewrite Hst. destruct Hor as [Hor|Hor]; [left|right]; intros k Hin; by apply Hor.
Qed.

(** C3. Recovery may itself be interrupted: whatever prefix of its block
    writes reached the disk, running [initlog] again yields, outside the log
    header, the disk an uninterrupted recovery would have produced. *)
Theorem recovery_restartable l dk ws sb :
  rep (dev l) (mkabs dk ∅ ∅) → length (lh_block l) = LOGSIZE → dk !! 1 = Some sb →
  recoverable (sb_logstart sb) dk ws → 1 ≠ sb_logstart sb → 1 ∉ ws.*1 →
  ∃ l' dk' tr, initlog ROOTDEV l = Ok (tt, l') ∧ rep (dev l') (mkabs dk' ∅ ∅) ∧
    trace (dev l') = trace (dev l) ++ tr ∧
    ∀ p l0, p `prefix_of` tr → length (lh_block l0) = LOGSIZE →
      rep (dev l0) (mkabs (apply_writes p dk) ∅ ∅) →
      ∃ l1 dk1, initlog ROOTDEV l0 = Ok (tt, l1) ∧ rep (dev l1) (mkabs dk1 ∅ ∅) ∧
        ∀ k, k ≠ sb_logstart sb → dk1 !! k = dk' !! k.
Proof.
  intros Hr Hlen Hsb Hrc Hne1 Hn1. set (st := sb_logstart sb) in *.
  destruct (proj1 (wp_run _ _ _) (initlog_ok _ _ _ _ Hr Hlen Hsb Hrc))
    as ([] & l' & E & hd & Hhd & T & R & _). fold st in T, R.
  exists l', (apply_writes (ws ++ [(st, hd)]) dk), (ws ++ [(st, hd)]). split_and!; [done..|].
  intros p l0 Hp Hlen0 Hr0.
  destruct (recover_prefix _ _ _ _ _ Hrc Hhd Hp) as (ws' & Hrc' & Hk).
  assert (apply_writes p dk !! 1 = Some sb) as Hsb'.
  { rewrite apply_writes_out; [done|]. intros Hin%(prefix_key _ _ _ Hp).
    rewrite fmap_app, elem_of_app in Hin. cbn in Hin. rewrite list_elem_of_singleton in Hin. naive_solver. }
  destruct (proj1 (wp_run _ _ _) (initlog_ok _ _ _ _ Hr0 Hlen0 Hsb' Hrc'))
    as ([] & l1 & E1 & hd' & _ & _ & R1 & _).
  eexists l1, _. split; [done|]. split; [exact R1|]. intros k Hne. by apply Hk.
Qed.

(** C4. Admission control.  Start from an idle log and let any number of
    system calls run, interleaved, each logging at most [MAXOPBLOCKS] blocks.
    The in-memory header never overflows and lists every block logged by a
    running call.  If the log area has a header and [LOGSIZE] slots,
    the test for "too big a transaction" in [log_write] succeeds exactly when
    the header is full, and a call that has logged fewer than [MAXOPBLOCKS] blocks never
    meets a full header.  One that has used its whole budget may, even for a
    block it logged before. *)
Theorem log_admission l0 l os :
  outstanding l0 = 0 → committing l0 = false → lh_n l0 = 0 → length (lh_block l0) = LOGSIZE →
  rtc step (l0, ∅) (l, os) →
  0 ≤ lh_n l ≤ LOGSIZE ∧ outstanding l = base.size os ∧ (∀ t s, os !! t = Some s → s ⊆ header l) ∧
  (LOGSIZE < size l < 2 ^ 64 →
    (too_big l = true ↔ lh_n l = LOGSIZE) ∧
    ∀ t s, os !! t = Some s → base.size s < MAXOPBLOCKS → too_big l = false).
Proof.
  intros Ho Hc Hn Ha Hst. pose proof (admitted_idle _ Ho Hc Hn Ha) as Had.
  assert (admitted l os) as [H1 H2 H3 H4 H5 H6 H7].
  { remember (l0, ∅) as x eqn:Ex. remember (l, os) as y eqn:Ey.
    assert (admitted x.1 x.2) as Hx by by rewrite Ex.
    cut (admitted y.1 y.2); [by rewrite Ey|]. clear -Hst Hx.
    induction Hst as [|x y z Hxy _ IH]; [done|]. apply IH. by eapply admitted_step. }
  assert (0 ≤ budget os) as Hb. { apply budget_nonneg. intros t s H. by destruct (H6 t s H). }
  split; [lia|]. split; [done|]. split; [intros t s H; by destruct (H6 t s H)|].
  intros Hsz. assert (too_big l = true ↔ lh_n l = LOGSIZE) as Hfull by (apply too_big_full; lia). split; [done|].
  intros t s Ht Hs. pose proof (budget_delete os t s Ht) as Hd.
  assert (0 ≤ budget (delete t os)) as Hb'.
  { apply budget_nonneg. intros t' s' [_ H]%lookup_delete_Some. by destruct (H6 t' s' H). }
  apply not_true_iff_false. rewrite Hfull. lia.
Qed.

End laws.

#[local] Existing Instance Bio.bio_ops.
#[local] Existing Instance Bio.bio_laws.

(** ** Example disks

    A formatted disk as mkfs lays it out: superblock, a log of thirty blocks
    with an empty header, and forty more blocks. *)
Definition ex_sb : list Z := put64 (put64 (replicate BSIZE 0) 32 30) 40 2.
Definition ex_blocks : list (Z * list Z) :=
  (λ i : nat, (Z.of_nat i, if decide (i = 1)%nat then ex_sb else replicate BSIZE 0)) <$> seq 0 72.
Definition ex_disk : gmap Z (list Z) := list_to_map ex_blocks.
Definition ex_log : @log Bio.block_cache :=
  mklog false 2 30 0 false ROOTDEV 0 (replicate LOGSIZE 0) 0
    (Bio.booted (kmap (pair 1) ex_disk) 5).

Lemma ex_disk_lookup k d :
  ex_disk !! k = Some d → 0 ≤ k < 72 ∧ d = if decide (k = 1) then ex_sb else replicate BSIZE 0.
Proof.
  intros H%elem_of_list_to_map_2. apply list_elem_of_fmap in H as (i & [= -> ->] & Hi).
  apply elem_of_seq in Hi. split; [lia|]. repeat case_decide; (done || lia).
Qed.

Lemma ex_disk_some k : 0 ≤ k < 72 → is_Some (ex_disk !! k).
Proof.
  intros Hk. destruct (ex_disk !! k) as [d|] eqn:E; [eauto|].
  exfalso. apply not_elem_of_list_to_map_2 in E. apply E. unfold ex_blocks.
  rewrite <- list_fmap_compose. apply list_elem_of_fmap. exists (Z.to_nat k). cbn -[seq].
  split; [lia|]. apply elem_of_seq. lia.
Qed.

Lemma length_ex_sb : length ex_sb = BSIZE.
Proof. vm_compute. reflexivity. Qed.

Lemma ex_disk_ok : abs_ok (mkabs ex_disk ∅ ∅).
Proof.
  split; cbn -[BSIZE ex_disk].
  - intros k d [Hk ->]%ex_disk_lookup. unfold FSSIZE. split; [lia|].
    case_decide; [apply length_ex_sb|apply length_replicate].
  - by intros k d ?%lookup_empty_Some.
  - by intros k d ?%lookup_empty_Some.
Qed.

Lemma ex_log_idle : idle ex_log ex_disk.
Proof.
  split; [split|done..].
  - apply Bio.booted_rep; [|apply ex_disk_ok].
    intros k. apply (lookup_kmap (M1 := gmap Z) (M2 := gmap (Z * Z)) (pair 1)).
  - done.
  - done.
  - done.
  - done.
  - constructor.
  - intros h. cbn [a_mem]. rewrite lookup_empty. split; [by intros [? ?]|by intros ?%elem_of_nil].
  - by intros h ?%elem_of_nil.
  - intros k Hk. apply ex_disk_some. unfold in_log in Hk. cbn in Hk. lia.
  - intros hd [_ ->]%ex_disk_lookup. cbn [start ex_log]. rewrite decide_False by done.
    split_and!; [apply length_replicate|vm_compute; reflexivity|done].
Qed.

Definition ex_updates : list (Z * list Z) :=
  [(40, replicate BSIZE 7); (41, replicate BSIZE 8); (40, replicate BSIZE 9)].

Lemma fs_op_crash_atomic_witness :
  ∃ l' dk' tr, fs_op ex_updates ex_log = Ok (tt, l') ∧ idle l' dk' ∧
    trace (dev l') = trace (dev ex_log) ++ tr ∧
    (∀ k, ¬ in_log ex_log k → dk' !! k = apply_writes ex_updates ex_disk !! k) ∧
    ∀ p l0, p `prefix_of` tr → length (lh_block l0) = LOGSIZE →
      rep (dev l0) (mkabs (apply_writes p ex_disk) ∅ ∅) →
      ∃ l1 dk1, initlog ROOTDEV l0 = Ok (tt, l1) ∧ rep (dev l1) (mkabs dk1 ∅ ∅) ∧ lh_n l1 = 0 ∧
        ((∀ k, ¬ in_log ex_log k → dk1 !! k = ex_disk !! k) ∨
         (∀ k, ¬ in_log ex_log k → dk1 !! k = apply_writes ex_updates ex_disk !! k)).
Proof.
  apply (fs_op_crash_atomic ex_log ex_disk ex_updates ex_sb).
  - apply ex_log_idle.
  - intros k d Hin. unfold in_log. cbn [start size ex_log].
    assert (40 ≤ k ≤ 41 ∧ length d = BSIZE) as [Hk Hd].
    { unfold ex_updates in Hin. rewrite !elem_of_cons, elem_of_nil, !pair_equal_spec in Hin.
      destruct Hin as [[-> ->]|[[-> ->]|[[-> ->]|[]]]]; (split; [lia|apply length_replicate]). }
    split; [lia|]. split; [|done]. apply ex_disk_some. lia.
  - vm_compute. lia.
  - cbn. lia.
  - destruct (ex_disk_some 1) as [d Hd]; [lia|]. pose proof Hd as H. apply ex_disk_lookup in H as [_ ->].
    by rewrite decide_True in Hd.
  - vm_compute. reflexivity.
  - unfold in_log. cbn. lia.
  - replace (fold_left add_block ex_updates []) with [40; 41] by (vm_compute; reflexivity).
    rewrite !elem_of_cons, elem_of_nil. lia.
Defined.

(** The disk as a crash leaves it between the header write and the install:
    block 40 is logged, its new content in the first slot. *)
Definition ex_hdr : list Z := put64 (put64 (replicate BSIZE 0) 0 1) 8 40.
Definition ex_crashed : gmap Z (list Z) :=
  <[2 := ex_hdr]> (<[3 := replicate BSIZE 7]> ex_disk).
Definition ex_reboot : @log Bio.block_cache :=
  mklog false 0 0 0 false 0 0 (replicate LOGSIZE 0) 0 (Bio.booted (kmap (pair 1) ex_crashed) 5).

Lemma ex_crashed_ok : abs_ok (mkabs ex_crashed ∅ ∅).
Proof.
  split; cbn -[BSIZE ex_crashed].
  - intros k d H. unfold ex_crashed in H.
    apply lookup_insert_Some in H as [[<- <-]|[_ [[<- <-]|[_ H]]%lookup_insert_Some]].
    + split; [done|vm_compute; reflexivity].
    + split; [done|apply length_replicate].
    + by apply (ok_disk _ ex_disk_ok).
  - by intros k d ?%lookup_empty_Some.
  - by intros k d ?%lookup_empty_Some.
Qed.

Lemma ex_recoverable : recoverable 2 ex_crashed [(40, replicate BSIZE 7)].
Proof.
  split; unfold ex_crashed.
  - exists ex_hdr. split; [by rewrite lookup_insert_eq|].
    split_and!; [vm_compute; reflexivity..|]. intros [|j] h; [|done]. intros [= <-]. vm_compute. reflexivity.
  - intros [|j] h c; [|done]. intros [_ <-]%(inj Some)%pair_equal_spec.
    rewrite lookup_insert_ne, lookup_insert_eq by done. done.
  - intros h c [-> _]%list_elem_of_singleton%pair_equal_spec.
    rewrite !lookup_insert_ne by done. apply ex_disk_some. lia.
  - intros h c j [-> _]%list_elem_of_singleton%pair_equal_spec. cbn [length]. lia.
  - apply NoDup_singleton.
  - unfold LOGSIZE. cbn. lia.
Qed.

Lemma recovery_restartable_witness :
  ∃ l' dk' tr, initlog ROOTDEV ex_reboot = Ok (tt, l') ∧ rep (dev l') (mkabs dk' ∅ ∅) ∧
    trace (dev l') = trace (dev ex_reboot) ++ tr ∧
    ∀ p l0, p `prefix_of` tr → length (lh_block l0) = LOGSIZE →
      rep (dev l0) (mkabs (apply_writes p ex_crashed) ∅ ∅) →
      ∃ l1 dk1, initlog ROOTDEV l0 = Ok (tt, l1) ∧ rep (dev l1) (mkabs dk1 ∅ ∅) ∧
        ∀ k, k ≠ sb_logstart ex_sb → dk1 !! k = dk' !! k.
Proof.
  assert (sb_logstart ex_sb = 2) as E by (vm_compute; reflexivity).
  apply (recovery_restartable ex_reboot ex_crashed [(40, replicate BSIZE 7)] ex_sb).
  - apply Bio.booted_rep; [|apply ex_crashed_ok].
    intros k. apply (lookup_kmap (M1 := gmap Z) (M2 := gmap (Z * Z)) (pair 1)).
  - reflexivity.
  - unfold ex_crashed. rewrite !lookup_insert_ne by done.
    destruct (ex_disk_some 1) as [d Hd]; [lia|]. pose proof Hd as H. apply ex_disk_lookup in H as [_ ->].
    by rewrite decide_True in Hd.
  - rewrite E. apply ex_recoverable.
  - by rewrite E.
  - cbn. rewrite elem_of_cons, elem_of_nil. lia.
Defined.

(** A log area of a header and thirty slots.  Two calls have begun, and the
    first has logged block 40. *)
Definition ex_log31 : @log Bio.block_cache := 
  mklog false 2 31 0 false ROOTDEV 0 (replicate LOGSIZE 0) 0 (Bio.booted (kmap (pair 1) ex_disk) 5).
Definition after {S A} (m : M S A) (s : S) : S := match m s with Ok (_, t) => t | Err _ => s end.

Lemma after_ok {S A} (m : M S A) s a : match m s with Ok (b, _) => b = a | Err _ => False end → m s = Ok (a, after m s).
Proof. unfold after. destruct (m s) as [[b t]|]; [|done]. by intros ->. Qed.

Definition ex_begun1 : @log Bio.block_cache := after begin_op ex_log31.
Definition ex_begun2 : @log Bio.block_cache := after begin_op ex_begun1.
Definition ex_buffer : @log Bio.block_cache := set_dev (after (block_read ROOTDEV 40) (dev ex_begun2)) ex_begun2.
Definition ex_logged : @log Bio.block_cache := after (log_write 0) ex_buffer.
Definition ex_calls : gmap nat (gset Z) := <[0%nat := {[40]} ∪ ∅]> (<[1%nat := ∅]> (<[0%nat := ∅]> ∅)).

Lemma log_admission_witness :
  (0 ≤ lh_n ex_logged ≤ LOGSIZE ∧ outstanding ex_logged = base.size ex_calls ∧
   ∀ t s, ex_calls !! t = Some s → s ⊆ header ex_logged) ∧
  too_big ex_logged = false.
Proof.
  destruct (log_admission ex_log31 ex_logged ex_calls) as (H1 & H2 & H3 & H4); [reflexivity..| |].
  - eapply rtc_l; [apply (step_begin 0%nat ex_log31 ∅ ex_begun1); [done|apply (after_ok begin_op ex_log31 tt)]|].
    { vm_compute. reflexivity. }
    eapply rtc_l; [apply (step_begin 1%nat ex_begun1 _ ex_begun2); [done|apply (after_ok begin_op ex_begun1 tt)]|].
    { vm_compute. reflexivity. }
    eapply rtc_l; [apply (step_cache ex_begun2 _ (after (block_read ROOTDEV 40) (dev ex_begun2)))|]. fold ex_buffer.
    apply rtc_once. apply (step_write 0%nat ∅ 0%nat 40 (after (buf_blockno 0%nat) (dev ex_buffer)) ex_buffer _ ex_logged).
    + reflexivity.
    + apply (after_ok (buf_blockno 0%nat) (dev ex_buffer) 40). vm_compute. reflexivity.
    + vm_compute. discriminate.
    + apply (after_ok (log_write 0%nat) ex_buffer tt). vm_compute. reflexivity.
  - split; [split; [exact H1|split; [exact H2|exact H3]]|]. destruct H4 as [_ H4]; [vm_compute; split; reflexivity|].
    apply (H4 1%nat ∅); [reflexivity|vm_compute; reflexivity].
Defined.

(** With as many blocks as [begin_op] promises the header can be full while a
    call is still running, and logging one of its own blocks again, which
    takes no new slot, panics. *)
Theorem log_admission_again :
  let op n : list (Z * list Z) := (λ i : nat, (n + Z.of_nat i, replicate BSIZE 1)) <$> seq 0 10 in
  (_ ← begin_op; _ ← begin_op; _ ← begin_op;
   _ ← log_updates (op 40); _ ← log_updates (op 50); _ ← log_updates (op 60);
   log_update (60, replicate BSIZE 2)) ex_log31 =
  Err (EPanic "too big a transaction").
Proof. vm_compute. reflexivity. Qed.

(** The log mkfs makes is one block short of what [begin_op] promises:
    three calls are admitted together, and although each logs only its
    [MAXOPBLOCKS] distinct blocks, the last one panics. *)
Theorem log_admission_gap :
  let op n : list (Z * list Z) := (λ i : nat, (n + Z.of_nat i, replicate BSIZE 1)) <$> seq 0 10 in
  (_ ← begin_op; _ ← begin_op; _ ← begin_op;
   _ ← log_updates (op 40); _ ← log_updates (op 50); log_updates (op 60)) ex_log =
  Err (EPanic "too big a transaction").
Proof. vm_compute. reflexivity. Qed.

End Log.
