(* ===== verification/Fs.v ===== *)
(** * The file system (kernel/fs.c)

    Blocks, inodes, directories and path names.  The operations run on the
    disk as the current transaction sees it: [a_disk] of the device with the
    logged blocks [a_mem] over it (Block.v), the buffers the process holds, the
    in-memory inode table and the superblock.  [writes] records the [log_write]
    calls in order. *)

From S2P Require Import Prelude Mem Words Block CType KString.

Module Fs.
Import Block.

Definition NDIRECT : Z := 8.
Definition NINDIRECT : Z := BSIZE / 8.
Definition MAXFILE : Z := NDIRECT + NINDIRECT + NINDIRECT * NINDIRECT.
Definition NINODE : nat := 50.
Definition NDEV : Z := 10.
Definition DIRSIZ : nat := 254.
Definition ROOTINO : Z := 1.
Definition BPB : Z := BSIZE * 8.
Definition DINODE_SIZE : nat := 128.
Definition IPB : Z := BSIZE / DINODE_SIZE.
Definition DIRENT_SIZE : nat := 260.

Definition ENOSPC : Z := 28.
Definition ENODEV : Z := 19.
Definition EDOM : Z := 33.
Definition EEXIST : Z := 17.

Definition S_IFMT : Z := 0xF000.
Definition S_IFIFO : Z := 0x1000.
Definition S_IFCHR : Z := 0x2000.
Definition S_IFDIR : Z := 0x4000.
Definition S_IFBLK : Z := 0x6000.
Definition S_IFREG : Z := 0x8000.
Definition S_IFLNK : Z := 0xA000.
Definition S_IFSOCK : Z := 0xC000.
Definition S_ISTYPE (mode mask : Z) : bool := Z.land mode S_IFMT =? mask.
Definition S_ISDIR (mode : Z) : bool := S_ISTYPE mode S_IFDIR.
Definition S_ISCHR (mode : Z) : bool := S_ISTYPE mode S_IFCHR.
Definition S_ISANY (mode : Z) : bool :=
  S_ISDIR mode || S_ISCHR mode || S_ISTYPE mode S_IFBLK || S_ISTYPE mode S_IFREG ||
  S_ISTYPE mode S_IFIFO || S_ISTYPE mode S_IFLNK || S_ISTYPE mode S_IFSOCK.

(** ** Data *)

Record superblock := mksb {
  signature : list Z;
  sb_size : Z;
  nblocks : Z;
  ninodes : Z;
  nlog : Z;
  logstart : Z;
  inodestart : Z;
  bmapstart : Z;
}.

Definition decode_sb (d : list Z) : superblock :=
  mksb (get_bytes d 0 8) (get64 d 8) (get64 d 16) (get64 d 24) (get64 d 32) (get64 d 40)
    (get64 d 48) (get64 d 56).

(** The fields an inode has on disk. *)
Record dinode := mkdinode {
  ctime : Z;
  atime : Z;
  mtime : Z;
  size : Z;
  mode : Z;
  gid : Z;
  uid : Z;
  addrs : list Z;
  major : Z;
  minor : Z;
  nlink : Z;
}.

(** [ip->addrs] has [NDIRECT + 2] entries. *)
Definition NADDRS : nat := 10.

Definition get_addrs (d : list Z) (off : nat) : list Z :=
  (λ i, get64 d (off + 8 * i)) <$> seq 0 NADDRS.

Fixpoint put_addrs (d : list Z) (off : nat) (l : list Z) : list Z :=
  match l with [] => d | a :: l => put_addrs (put64 d off a) (off + 8) l end.

Definition get_dinode (d : list Z) (off : nat) : dinode :=
  mkdinode (get64 d off) (get64 d (off + 8)) (get64 d (off + 16)) (get64 d (off + 24))
    (get_le 4 d (off + 32)) (get_le 2 d (off + 36)) (get_le 2 d (off + 38)) (get_addrs d (off + 40))
    (sx 16 (get_le 2 d (off + 120))) (sx 16 (get_le 2 d (off + 122))) (sx 16 (get_le 2 d (off + 124))).

(** In-memory inodes; [locked] is the sleep lock. *)
Record inode := mkinode {
  dev : Z;
  inum : Z;
  ref : Z;
  locked : bool;
  valid : bool;
  di : dinode;
}.

Record fs := mkfs {
  store : abs;
  writes : list (Z * list Z);
  sb : superblock;
  itable : list inode;
  now : Z;
}.

Abbreviation FS := (M fs).

Definition set_store (v : abs) (s : fs) : fs := mkfs v (writes s) (sb s) (itable s) (now s).
Definition set_writes v (s : fs) : fs := mkfs (store s) v (sb s) (itable s) (now s).
Definition set_sb v (s : fs) : fs := mkfs (store s) (writes s) v (itable s) (now s).
Definition set_itable v (s : fs) : fs := mkfs (store s) (writes s) (sb s) v (now s).

Definition set_ref v (ip : inode) : inode := mkinode (dev ip) (inum ip) v (locked ip) (valid ip) (di ip).
Definition set_locked v (ip : inode) : inode := mkinode (dev ip) (inum ip) (ref ip) v (valid ip) (di ip).
Definition set_valid v (ip : inode) : inode := mkinode (dev ip) (inum ip) (ref ip) (locked ip) v (di ip).
Definition set_di v (ip : inode) : inode := mkinode (dev ip) (inum ip) (ref ip) (locked ip) (valid ip) v.

Definition set_size v (d : dinode) : dinode :=
  mkdinode (ctime d) (atime d) (mtime d) v (mode d) (gid d) (uid d) (addrs d) (major d) (minor d) (nlink d).
Definition set_mode v (d : dinode) : dinode :=
  mkdinode (ctime d) (atime d) (mtime d) (size d) v (gid d) (uid d) (addrs d) (major d) (minor d) (nlink d).
Definition set_addrs v (d : dinode) : dinode :=
  mkdinode (ctime d) (atime d) (mtime d) (size d) (mode d) (gid d) (uid d) v (major d) (minor d) (nlink d).

(** ** Buffers

    A buffer is named by its block.  A process that reads a block it already
    holds waits for itself. *)
Definition block_read (dv b : Z) : FS unit :=
  A ← gets store;
  match a_held A !! b, view A b with
  | Some _, _ => fail EBlocked
  | None, Some d => modify (set_store (hold b d A))
  | None, None => fail EFault
  end.

Definition data (b : Z) : FS (list Z) := λ s, from_option (a_held (store s) !! b) s.

Definition store_data (b : Z) (d : list Z) : FS unit :=
  _ ← data b;
  modify (λ s, set_store (hold b d (store s)) s).

Definition log_write (b : Z) : FS unit :=
  d ← data b;
  modify (λ s, set_writes (writes s ++ [(b, d)]) (set_store (pin b d (store s)) s)).

(** Releasing a buffer that was changed and not logged would leave the change
    in the cache only; no caller does. *)
Definition block_release (b : Z) : FS unit :=
  d ← data b;
  A ← gets store;
  if decide (view A b = Some d) then modify (set_store (unhold b A)) else fail EFault.

Definition get_sb : FS superblock := gets sb.

(** ** Blocks *)

Definition read_superblock (dv : Z) : FS superblock :=
  _ ← block_read dv 1;
  d ← data 1;
  _ ← block_release 1;
  mret (decode_sb d).

Definition block_zero (dv bno : Z) : FS unit :=
  _ ← block_read dv bno;
  _ ← store_data bno (replicate BSIZE 0);
  _ ← log_write bno;
  block_release bno.

Definition BBLOCK (b : Z) (s : superblock) : Z := b / BPB + bmapstart s.
Definition IBLOCK (i : Z) (s : superblock) : Z := i / IPB + inodestart s.

(** [m = 1 << (bi % 8)] *)
Definition bit_mask (bi : Z) : Z := Z.shiftl 1 (bi mod 8).

Definition bit_of (d : list Z) (bi : Z) : res bool :=
  match d !! Z.to_nat (bi / 8) with
  | Some x => Ok (negb (Z.land x (bit_mask bi) =? 0))
  | None => Err EFault
  end.

Definition set_bit (d : list Z) (bi : Z) : list Z :=
  alter (λ x, u8 (Z.lor x (bit_mask bi))) (Z.to_nat (bi / 8)) d.

Definition clear_bit (d : list Z) (bi : Z) : list Z :=
  alter (λ x, u8 (Z.land x (Z.lnot (bit_mask bi)))) (Z.to_nat (bi / 8)) d.

(** The inner loop of [block_alloc]: the first clear bit of the bitmap block
    [d] that stands for a block below [lim], from bit [bi] on. *)
Fixpoint find_free (d : list Z) (b bi lim : Z) (k : nat) : res (option Z) :=
  match k with
  | O => Ok None
  | S k =>
      if b + bi <? lim then
        x ← bit_of d bi;
        if (x : bool) then find_free d b (bi + 1) lim k else Ok (Some bi)
      else Ok None
  end.

Fixpoint block_alloc_loop (dv : Z) (b : Z) (k : nat) : FS Z :=
  match k with
  | O => fail EFuel
  | S k =>
      s ← get_sb;
      if b <? sb_size s then
        let bb := BBLOCK b s in
        _ ← block_read dv bb;
        d ← data bb;
        o ← lift (find_free d b 0 (sb_size s) (Z.to_nat BPB));
        match o with
        | Some bi =>
            _ ← store_data bb (set_bit d bi);
            _ ← log_write bb;
            _ ← block_release bb;
            _ ← block_zero dv (b + bi);
            mret (b + bi)
        | None => _ ← block_release bb; block_alloc_loop dv (b + BPB) k
        end
      else mret (u64 (- ENOSPC))
  end.

(** One turn per bitmap block, and one to leave. *)
Definition block_alloc (dv : Z) : FS Z :=
  s ← get_sb;
  block_alloc_loop dv 0 (Z.to_nat (sb_size s / BPB) + 2).

Definition block_free (dv b : Z) : FS unit :=
  s ← get_sb;
  let bb := BBLOCK b s in
  _ ← block_read dv bb;
  d ← data bb;
  x ← lift (bit_of d (b mod BPB));
  if negb x then panic "freeing free block"
  else
    _ ← store_data bb (clear_bit d (b mod BPB));
    _ ← log_write bb;
    block_release bb.

(** ** Inodes *)

Definition the_inode (ip : nat) : FS inode := λ s, from_option (itable s !! ip) s.
Definition upd_inode (ip : nat) (f : inode → inode) : FS unit :=
  modify (λ s, set_itable (alter f ip (itable s)) s).
Definition upd_di (ip : nat) (f : dinode → dinode) : FS unit :=
  upd_inode ip (λ i, set_di (f (di i)) i).

Definition holdingsleep (ip : nat) : FS bool := i ← the_inode ip; mret (locked i).
Definition acquiresleep (ip : nat) : FS unit :=
  i ← the_inode ip;
  if locked i then fail EBlocked else upd_inode ip (set_locked true).
Definition releasesleep (ip : nat) : FS unit := upd_inode ip (set_locked false).

(** "RELIXFS0" *)
Definition SIGNATURE : list Z := [82; 69; 76; 73; 88; 70; 83; 48].

Definition inode_init (dv : Z) : FS unit :=
  _ ← modify (λ s, set_itable (set_locked false <$> itable s) s);
  b ← read_superblock dv;
  _ ← modify (set_sb b);
  if decide (signature b = SIGNATURE) then mret tt
  else panic "Cannot find any recognized filesytem.".

(** [inode_get]: the scan finds the entry of the inode, or else the first entry
    with no references. *)
Fixpoint find_inode (dv i : Z) (l : list inode) : option nat :=
  match l with
  | [] => None
  | ip :: l => if (0 <? ref ip) && (dev ip =? dv) && (inum ip =? i) then Some 0%nat
               else S <$> find_inode dv i l
  end.

Fixpoint find_empty (l : list inode) : option nat :=
  match l with
  | [] => None
  | ip :: l => if ref ip =? 0 then Some 0%nat else S <$> find_empty l
  end.

Definition recycle (dv i : Z) (ip : inode) : inode := mkinode dv i 1 (locked ip) false (di ip).

Definition inode_get (dv i : Z) : FS nat :=
  l ← gets itable;
  match find_inode dv i l, find_empty l with
  | Some ip, _ => _ ← upd_inode ip (λ p, set_ref (s32 (ref p + 1)) p); mret ip
  | None, Some ip => _ ← upd_inode ip (recycle dv i); mret ip
  | None, None => panic "inode_get: no inodes"
  end.

Definition inode_dup (ip : nat) : FS nat :=
  _ ← the_inode ip;
  _ ← upd_inode ip (λ p, set_ref (s32 (ref p + 1)) p);
  mret ip.

(** The offset of an inode in its block. *)
Definition ioff (i : Z) : nat := (DINODE_SIZE * Z.to_nat (i mod IPB))%nat.

Definition put_dinode (d : list Z) (off : nat) (t : Z) (x : dinode) : list Z :=
  let d := put_le 2 d (off + 120) (major x) in
  let d := put_le 2 d (off + 122) (minor x) in
  let d := put_le 2 d (off + 124) (nlink x) in
  let d := put64 d (off + 24) (size x) in
  let d := put_le 4 d (off + 32) (mode x) in
  let d := put64 d (off + 16) t in
  let d := put64 d (off + 8) t in
  let d := put64 d off (ctime x) in
  put_addrs d (off + 40) (addrs x).

Definition inode_update (ip : nat) : FS unit :=
  i ← the_inode ip;
  s ← get_sb;
  let bb := IBLOCK (inum i) s in
  _ ← block_read (dev i) bb;
  d ← data bb;
  t ← gets now;
  _ ← store_data bb (put_dinode d (ioff (inum i)) t (di i));
  _ ← log_write bb;
  block_release bb.

(** [memset(dip, 0, ..)] and the fields of a fresh inode. *)
Definition fresh_dinode (d : list Z) (off : nat) (t md : Z) : list Z :=
  let d := put_bytes d off (replicate DINODE_SIZE 0) in
  let d := put_le 4 d (off + 32) md in
  let d := put_le 2 d (off + 36) 0 in
  let d := put_le 2 d (off + 38) 0 in
  let d := put64 d off t in
  let d := put64 d (off + 8) t in
  put64 d (off + 16) t.

Fixpoint inode_alloc_loop (dv md : Z) (i : Z) (k : nat) : FS nat :=
  match k with
  | O => fail EFuel
  | S k =>
      s ← get_sb;
      if i <? ninodes s then
        let bb := IBLOCK i s in
        _ ← block_read dv bb;
        d ← data bb;
        if negb (S_ISANY (get_le 4 d (ioff i + 32))) then
          t ← gets now;
          _ ← store_data bb (fresh_dinode d (ioff i) t md);
          _ ← log_write bb;
          _ ← block_release bb;
          inode_get dv i
        else _ ← block_release bb; inode_alloc_loop dv md (i + 1) k
      else panic "inode_alloc: no inodes"
  end.

Definition inode_alloc (dv md : Z) : FS nat :=
  s ← get_sb;
  inode_alloc_loop dv md 1 (S (Z.to_nat (ninodes s))).

Definition inode_lock (ip : nat) : FS unit :=
  i ← the_inode ip;
  if ref i <? 1 then panic "inode_lock: ip->ref < 1"
  else
    h ← holdingsleep ip;
    _ ← kernel_assert (negb h);
    _ ← acquiresleep ip;
    if valid i then mret tt
    else
      s ← get_sb;
      let bb := IBLOCK (inum i) s in
      _ ← block_read (dev i) bb;
      d ← data bb;
      let x := get_dinode d (ioff (inum i)) in
      _ ← upd_di ip (λ _, x);
      _ ← block_release bb;
      _ ← upd_inode ip (set_valid true);
      if mode x =? 0 then panic "inode_lock: no mode" else mret tt.

Definition inode_unlock (ip : nat) : FS unit :=
  i ← the_inode ip;
  if ref i <? 1 then panic "inode_unlock"
  else
    h ← holdingsleep ip;
    _ ← kernel_assert h;
    releasesleep ip.

(** ** The blocks of a file *)

(** [a[j]] in a block of 64-bit block numbers. *)
Definition get_ptr (d : list Z) (j : Z) : Z := get64 d (8 * Z.to_nat j).
Definition put_ptr (d : list Z) (j v : Z) : list Z := put64 d (8 * Z.to_nat j) v.

Definition get_addr (ip : nat) (j : Z) : FS Z :=
  i ← the_inode ip;
  from_option (addrs (di i) !! Z.to_nat j).

Definition put_addr (ip : nat) (j v : Z) : FS unit :=
  upd_di ip (λ x, set_addrs (<[Z.to_nat j := v]> (addrs x)) x).

(** [if ((addr = ip->addrs[j]) == 0) ip->addrs[j] = addr = block_alloc(..)] *)
Definition addr_or_alloc (ip : nat) (dv j : Z) : FS Z :=
  a ← get_addr ip j;
  if a =? 0 then a ← block_alloc dv; _ ← put_addr ip j a; mret a else mret a.

(** The same for entry [j] of the block of numbers at [bb], which is read,
    logged if it changed, and released. *)
Definition ptr_or_alloc (dv bb j : Z) : FS Z :=
  _ ← block_read dv bb;
  d ← data bb;
  a ← (if get_ptr d j =? 0 then
         a ← block_alloc dv;
         _ ← store_data bb (put_ptr d j a);
         _ ← log_write bb;
         mret a
       else mret (get_ptr d j));
  _ ← block_release bb;
  mret a.

Definition bmap (ip : nat) (bn : Z) : FS Z :=
  h ← holdingsleep ip;
  _ ← kernel_assert h;
  i ← the_inode ip;
  if bn <? NDIRECT then addr_or_alloc ip (dev i) bn
  else
    let bn := bn - NDIRECT in
    if bn <? NINDIRECT then
      a ← addr_or_alloc ip (dev i) NDIRECT;
      ptr_or_alloc (dev i) a bn
    else
      let bn := bn - NINDIRECT in
      if bn <? NINDIRECT * NINDIRECT then
        a ← addr_or_alloc ip (dev i) (NDIRECT + 1);
        a ← ptr_or_alloc (dev i) a (bn / NINDIRECT);
        ptr_or_alloc (dev i) a (bn mod NINDIRECT)
      else panic "bmap: out of range".

(** ** [inode_truncate] *)

Fixpoint free_direct (ip : nat) (dv : Z) (j : Z) (k : nat) : FS unit :=
  match k with
  | O => mret tt
  | S k =>
      a ← get_addr ip j;
      _ ← (if a =? 0 then mret tt else _ ← block_free dv a; put_addr ip j 0);
      free_direct ip dv (j + 1) k
  end.

(** The loop over a block of numbers; it stops at the first entry that is 0. *)
Fixpoint free_ptrs (dv : Z) (d : list Z) (j : Z) (k : nat) : FS unit :=
  match k with
  | O => mret tt
  | S k =>
      if get_ptr d j =? 0 then mret tt
      else _ ← block_free dv (get_ptr d j); free_ptrs dv d (j + 1) k
  end.

Definition free_indirect (dv bb : Z) : FS unit :=
  _ ← block_read dv bb;
  d ← data bb;
  _ ← free_ptrs dv d 0 (Z.to_nat NINDIRECT);
  _ ← block_release bb;
  block_free dv bb.

Fixpoint free_double (dv : Z) (d : list Z) (j : Z) (k : nat) : FS unit :=
  match k with
  | O => mret tt
  | S k =>
      _ ← (if get_ptr d j =? 0 then mret tt else free_indirect dv (get_ptr d j));
      free_double dv d (j + 1) k
  end.

Definition inode_truncate (ip : nat) : FS unit :=
  i ← the_inode ip;
  let dv := dev i in
  _ ← free_direct ip dv 0 (Z.to_nat NDIRECT);
  a ← get_addr ip NDIRECT;
  _ ← (if a =? 0 then mret tt else _ ← free_indirect dv a; put_addr ip NDIRECT 0);
  a ← get_addr ip (NDIRECT + 1);
  _ ← (if a =? 0 then mret tt
       else
         _ ← block_read dv a;
         d ← data a;
         _ ← free_double dv d 0 (Z.to_nat NINDIRECT);
         _ ← block_release a;
         _ ← block_free dv a;
         put_addr ip (NDIRECT + 1) 0);
  _ ← upd_di ip (set_size 0);
  inode_update ip.

Definition inode_put (ip : nat) : FS unit :=
  i ← the_inode ip;
  _ ← (if (ref i =? 1) && valid i && (nlink (di i) =? 0) then
         _ ← acquiresleep ip;
         _ ← inode_truncate ip;
         _ ← upd_di ip (set_mode 0);
         _ ← inode_update ip;
         _ ← upd_inode ip (set_valid false);
         releasesleep ip
       else mret tt);
  upd_inode ip (λ p, set_ref (s32 (ref p - 1)) p).

Definition inode_unlockput (ip : nat) : FS unit :=
  _ ← inode_unlock ip;
  inode_put ip.

(** ** [inode_stat] *)

Record stat := mkstat {
  st_dev : Z; st_rdev : Z; st_ino : Z; st_nlink : Z; st_size : Z; st_mode : Z; st_uid : Z;
  st_gid : Z; st_atime : Z; st_ctime : Z; st_mtime : Z; st_blocks : Z; st_blksize : Z;
}.

Definition makedev (maj min : Z) : Z := Z.lor (u64 (Z.shiftl (u64 maj) 32)) (u64 min).

Definition inode_stat (ip : nat) : FS stat :=
  h ← holdingsleep ip;
  _ ← kernel_assert h;
  i ← the_inode ip;
  let x := di i in
  mret (mkstat 0 (makedev (major x) (minor x)) (inum i) (nlink x) (s64 (size x)) (mode x) (uid x)
    (gid x) (atime x) (ctime x) (mtime x)
    (u64 (u64 (size x + (BSIZE - 1)) / BSIZE * BSIZE) / 512) BSIZE).

(** ** Reading and writing *)

Section devices.

(** [devsw[major].read] and [.write], [None] where the table has none. *)
Context (dev_read : Z → option (Z → nat → Z → FS (Z * list Z))).
Context (dev_write : Z → option (Z → nat → list Z → FS Z)).

Definition dev_of {T} (tab : Z → option T) (i : inode) : option T :=
  let mj := major (di i) in
  if (mj <? 0) || (NDEV <=? mj) then None else tab mj.

(** [ckd_add(&result, off, n)] on an [off_t] result. *)
Definition ckd_add_off (off n : Z) : bool := negb ((- 2 ^ 63 <=? off + n) && (off + n <? 2 ^ 63)).

(** The copy loops; fuel for one turn per block and one to leave. *)
Fixpoint read_loop (ip : nat) (dv n tot off : Z) (acc : list Z) (k : nat) : FS (Z * list Z) :=
  match k with
  | O => fail EFuel
  | S k =>
      if tot <? n then
        map ← bmap ip (off / BSIZE);
        if map =? 0 then mret (- ENOSPC, acc)
        else
          _ ← block_read dv map;
          d ← data map;
          let m := Z.min (n - tot) (BSIZE - off mod BSIZE) in
          _ ← block_release map;
          read_loop ip dv n (tot + m) (off + m)
            (acc ++ get_bytes d (Z.to_nat (off mod BSIZE)) (Z.to_nat m)) k
      else mret (n, acc)
  end.

Definition loop_fuel (n : Z) : nat := Z.to_nat (n / BSIZE) + 3.

(** [inode_read] returns what it returns and the bytes it stored at [dst]. *)
Definition inode_read (ip : nat) (off n : Z) : FS (Z * list Z) :=
  h ← holdingsleep ip;
  _ ← kernel_assert h;
  i ← the_inode ip;
  if S_ISCHR (mode (di i)) then
    match dev_of dev_read i with
    | None => mret (- ENODEV, [])
    | Some f => f (minor (di i)) ip n
    end
  else if (size (di i) <? u64 off) || ckd_add_off off n then mret (- EDOM, [])
  else
    let n := if size (di i) <? u64 (off + n) then size (di i) - off else n in
    read_loop ip (dev i) n 0 off [] (loop_fuel n).

Fixpoint write_loop (ip : nat) (dv : Z) (src : list Z) (n tot off : Z) (k : nat) : FS (Z + Z) :=
  match k with
  | O => fail EFuel
  | S k =>
      if tot <? n then
        map ← bmap ip (off / BSIZE);
        if map =? 0 then mret (inl (- ENOSPC))
        else
          _ ← block_read dv map;
          d ← data map;
          let m := Z.min (n - tot) (BSIZE - off mod BSIZE) in
          _ ← store_data map
                (put_bytes d (Z.to_nat (off mod BSIZE)) (get_bytes src (Z.to_nat tot) (Z.to_nat m)));
          _ ← log_write map;
          _ ← block_release map;
          write_loop ip dv src n (tot + m) (off + m) k
      else mret (inr off)
  end.

(** [src] holds the [n] bytes to write. *)
Definition inode_write (ip : nat) (src : list Z) (off : Z) : FS Z :=
  let n := Z.of_nat (length src) in
  h ← holdingsleep ip;
  _ ← kernel_assert h;
  i ← the_inode ip;
  if S_ISCHR (mode (di i)) then
    match dev_of dev_write i with
    | None => mret (- ENODEV)
    | Some f => f (minor (di i)) ip src
    end
  else if (size (di i) <? u64 off) || ckd_add_off off n then mret (- EDOM)
  else if MAXFILE * BSIZE <? u64 (off + n) then mret (- EDOM)
  else
    r ← write_loop ip (dev i) src n 0 off (loop_fuel n);
    match r with
    | inl e => mret e
    | inr off =>
        i ← the_inode ip;
        _ ← (if (0 <? n) && (size (di i) <? off) then
               _ ← upd_di ip (set_size off); inode_update ip
             else mret tt);
        mret n
    end.

(** ** Directories

    An entry is a 32-bit inode number and a name of [NAME_MAX + 1] bytes; the
    local variable [de] starts out with whatever is on the stack. *)
Definition de_ino (de : list Z) : Z := get_le 4 de 0.
Definition de_name (de : list Z) : list Z := get_bytes de 4 255.

(** The two strings in memory, for [strncmp]. *)
Definition arena (x y : list Z) : mem := set_bytes (set_bytes ∅ 4096 x) 8192 y.

Definition namecmp (x y : list Z) : res Z := KString.strncmp (arena x y) 4096 8192 DIRSIZ.

Fixpoint dirlookup_loop (dp : nat) (name de : list Z) (off : Z) (k : nat) : FS (option (Z * nat)) :=
  match k with
  | O => fail EFuel
  | S k =>
      i ← the_inode dp;
      if off <? size (di i) then
        '(r, bs) ← inode_read dp off DIRENT_SIZE;
        let de := put_bytes de 0 bs in
        if r <? 0 then panic "dirlookup read"
        else if de_ino de =? 0 then dirlookup_loop dp name de (off + DIRENT_SIZE) k
        else
          c ← lift (namecmp (name ++ [0]) (de_name de));
          if c =? 0 then
            ip ← inode_get (dev i) (de_ino de);
            mret (Some (off, ip))
          else dirlookup_loop dp name de (off + DIRENT_SIZE) k
      else mret None
  end.

Definition dir_fuel (n : Z) : nat := Z.to_nat (n / DIRENT_SIZE) + 2.

(** The inode found and the offset of its entry ([*poff]). *)
Definition dirlookup (de : list Z) (dp : nat) (name : list Z) : FS (option (Z * nat)) :=
  h ← holdingsleep dp;
  _ ← kernel_assert h;
  i ← the_inode dp;
  if negb (S_ISDIR (mode (di i))) then panic "dirlookup not DIR"
  else dirlookup_loop dp name de 0 (dir_fuel (size (di i))).

(** [dirlink]'s search for a free entry; [inl] is the error of a failed read. *)
Fixpoint free_entry (dp : nat) (de : list Z) (off : Z) (k : nat) : FS (Z + Z * list Z) :=
  match k with
  | O => fail EFuel
  | S k =>
      i ← the_inode dp;
      if off <? size (di i) then
        '(r, bs) ← inode_read dp off DIRENT_SIZE;
        let de := put_bytes de 0 bs in
        if s32 r <? 0 then mret (inl (s32 r))
        else if de_ino de =? 0 then mret (inr (off, de))
        else free_entry dp de (off + DIRENT_SIZE) k
      else mret (inr (off, de))
  end.

(** [strncpy(de.d_name, name, DIRSIZ); de.d_ino = inum;] *)
Definition fill_entry (de name : list Z) (i : Z) : list Z :=
  put_le 4 (put_bytes de 4 (take DIRSIZ (name ++ replicate DIRSIZ 0))) 0 i.

Definition dirlink (de : list Z) (dp : nat) (name : list Z) (i : Z) : FS Z :=
  o ← dirlookup de dp name;
  match o with
  | Some (_, ip) => _ ← inode_put ip; mret (- EEXIST)
  | None =>
      d ← the_inode dp;
      e ← free_entry dp de 0 (dir_fuel (size (di d)));
      match e with
      | inl err => mret err
      | inr (off, de) =>
          r ← inode_write dp (fill_entry de name i) off;
          if s32 r <? 0 then mret (s32 r) else mret 0
      end
  end.

(** ** Path names *)

Definition SLASH : Z := 47.

Fixpoint skip_slashes (path : list Z) : list Z :=
  match path with
  | c :: rest => if c =? SLASH then skip_slashes rest else path
  | [] => []
  end.

(** The element up to the next slash, and the rest of the path. *)
Fixpoint span_elem (path : list Z) : list Z * list Z :=
  match path with
  | c :: rest => if c =? SLASH then ([], path) else let '(e, r) := span_elem rest in (c :: e, r)
  | [] => ([], [])
  end.

(** [Some (name, rest)]; [name] is what [namecmp] sees of the buffer: at most
    [DIRSIZ] bytes. *)
Definition skipelem (path : list Z) : option (list Z * list Z) :=
  match skip_slashes path with
  | [] => None
  | p => let '(e, r) := span_elem p in Some (take DIRSIZ e, skip_slashes r)
  end.

Fixpoint namex_loop (de : list Z) (ip : nat) (path : list Z) (parent : bool) (name : list Z) (k : nat)
    : FS (option (nat * list Z)) :=
  match k with
  | O => fail EFuel
  | S k =>
      match skipelem path with
      | None => if parent then _ ← inode_put ip; mret None else mret (Some (ip, name))
      | Some (name, path) =>
          _ ← inode_lock ip;
          i ← the_inode ip;
          if negb (S_ISDIR (mode (di i))) then _ ← inode_unlockput ip; mret None
          else if parent && bool_decide (path = []) then _ ← inode_unlock ip; mret (Some (ip, name))
          else
            o ← dirlookup de ip name;
            match o with
            | None => _ ← inode_unlockput ip; mret None
            | Some (_, next) => _ ← inode_unlockput ip; namex_loop de next path parent name k
            end
      end
  end.

(** [from] is the directory a relative path starts at: the current directory,
    or the one open at [dirfd]. *)
Definition namex (de : list Z) (from : nat) (path : list Z) (parent : bool) : FS (option (nat * list Z)) :=
  ip ← (match path with
        | c :: _ => if c =? SLASH then inode_get ROOTDEV ROOTINO else inode_dup from
        | [] => inode_dup from
        end);
  namex_loop de ip path parent [] (S (length path)).

Definition namei (de : list Z) (cwd : nat) (path : list Z) : FS (option nat) :=
  o ← namex de cwd path false;
  mret (fst <$> o).

Definition nameiparent (de : list Z) (cwd : nat) (path : list Z) : FS (option (nat * list Z)) :=
  namex de cwd path true.

End devices.
End Fs.
