(* ===== verification/FsBlock.v ===== *)
(** * The block bitmap

    What [block_alloc] and [block_free] of Fs.v do to the disk, as equations
    between states, and the list of free blocks they manage. *)

From S2P Require Import Prelude Mem Words Block Fs.

Module FsBlock.
Import Block Fs.

(** ** One logged block

    The state after [block_read], a change to the data, [log_write] and
    [block_release]. *)
Definition V (s : fs) (b : Z) : option (list Z) := view (store s) b.
Definition held (s : fs) (b : Z) : option (list Z) := a_held (store s) !! b.

Definition opened (b : Z) (d : list Z) (s : fs) : fs := set_store (hold b d (store s)) s.
Definition logged (b : Z) (d : list Z) (s : fs) : fs :=
  set_writes (writes s ++ [(b, d)]) (set_store (pin b d (store s)) s).

Lemma block_read_run dv b d s :
  held s b = None → V s b = Some d → block_read dv b s = Ok (tt, opened b d s).
Proof. unfold held, V, block_read. intros H1 H2. rewrite gets_bind, H1, H2. done. Qed.

Lemma data_run b d s : held s b = Some d → data b s = Ok (d, s).
Proof. unfold held, data. by intros ->. Qed.

Lemma held_opened b d s b' : held (opened b d s) b' = if decide (b' = b) then Some d else held s b'.
Proof.
  unfold held, opened. cbn. case_decide as E; [subst; by rewrite lookup_insert_eq|].
  by rewrite lookup_insert_ne.
Qed.

Lemma V_opened b d s b' : V (opened b d s) b' = V s b'.
Proof. done. Qed.

Lemma V_logged b d s b' : V (logged b d s) b' = if decide (b' = b) then Some d else V s b'.
Proof. apply view_pin. Qed.

Lemma held_logged b d s b' : held (logged b d s) b' = held s b'.
Proof. done. Qed.

Lemma opened_logged b d b' d' s : opened b d (logged b' d' s) = logged b' d' (opened b d s).
Proof. done. Qed.

Lemma buffer_release_run b d s :
  held s b = None → V s b = Some d → block_release b (opened b d s) = Ok (tt, s).
Proof.
  intros Hh Hv. unfold block_release.
  rewrite (bind_run _ _ _ d (opened b d s)) by (apply data_run; by rewrite held_opened, decide_True).
  rewrite gets_bind. cbn [store opened set_store]. rewrite view_hold. fold (V s b).
  rewrite decide_True by done. unfold modify, set_store, opened, hold, unhold. cbn.
  rewrite delete_insert_id by done. destruct s as [[] ? ? ? ?]. done.
Qed.

(** Storing new data in a block, logging and releasing it. *)
Lemma write_back_run b d d' s :
  held s b = None → V s b = Some d →
  (store_data b d' ≫= λ _, log_write b ≫= λ _, block_release b) (opened b d s) = Ok (tt, logged b d' s).
Proof.
  intros Hh Hv.
  assert (store_data b d' (opened b d s) = Ok (tt, opened b d' s)) as E.
  { unfold store_data. rewrite (bind_run _ _ _ d (opened b d s)) by (apply data_run; by rewrite held_opened, decide_True).
    unfold modify, opened. cbn. rewrite hold_hold. done. }
  rewrite (bind_run _ _ _ _ _ E). clear E. unfold log_write.
  rewrite bind_assoc, (bind_run _ _ _ d' (opened b d' s)) by (apply data_run; by rewrite held_opened, decide_True).
  rewrite modify_bind. change (block_release b (opened b d' (logged b d' s)) = Ok (tt, logged b d' s)).
  apply buffer_release_run; [done|]. by rewrite V_logged, decide_True.
Qed.

Lemma write_back_bind {B} b d d' s (k : unit → FS B) :
  held s b = None → V s b = Some d →
  (store_data b d' ≫= λ _, log_write b ≫= λ _, block_release b ≫= k) (opened b d s) = k tt (logged b d' s).
Proof.
  intros Hh Hv. pose proof (write_back_run b d d' s Hh Hv) as E. revert E.
  unfold mbind, M_bind. destruct (store_data b d' (opened b d s)) as [[[] s1]|]; [|done].
  destruct (log_write b s1) as [[[] s2]|]; [|done].
  by intros ->.
Qed.

(** Reading a block and the data of its buffer. *)
Lemma read_bind {B} dv b d s (k : list Z → FS B) :
  held s b = None → V s b = Some d →
  (block_read dv b ≫= λ _, data b ≫= k) s = k d (opened b d s).
Proof.
  intros Hh Hv. rewrite (bind_run _ _ _ _ _ (block_read_run dv b d s Hh Hv)).
  by rewrite (bind_run _ _ _ d (opened b d s)) by (apply data_run; by rewrite held_opened, decide_True).
Qed.

Lemma release_bind {B} b d s (k : unit → FS B) :
  held s b = None → V s b = Some d → (block_release b ≫= k) (opened b d s) = k tt s.
Proof. intros Hh Hv. by rewrite (bind_run _ _ _ _ _ (buffer_release_run b d s Hh Hv)). Qed.

Lemma block_zero_run dv b d s :
  held s b = None → V s b = Some d → block_zero dv b s = Ok (tt, logged b (replicate BSIZE 0) s).
Proof.
  intros Hh Hv. unfold block_zero. rewrite (bind_run _ _ _ _ _ (block_read_run dv b d s Hh Hv)).
  by apply write_back_run.
Qed.

(** ** Bits *)

Lemma mask_testbit bi n : Z.testbit (bit_mask bi) n = (bi mod 8 =? n).
Proof.
  unfold bit_mask. rewrite Z.shiftl_1_l. apply Z.pow2_bits_eqb. apply Z.mod_pos_bound. lia.
Qed.

Lemma bit_of_testbit d bi x :
  d !! Z.to_nat (bi / 8) = Some x → bit_of d bi = Ok (Z.testbit x (bi mod 8)).
Proof.
  intros E. unfold bit_of. rewrite E. f_equal.
  destruct (Z.eqb_spec (Z.land x (bit_mask bi)) 0) as [Hz|Hz].
  - apply (f_equal (λ z, Z.testbit z (bi mod 8))) in Hz.
    rewrite Z.land_spec, mask_testbit, Z.eqb_refl, andb_true_r, Z.bits_0 in Hz. by rewrite Hz.
  - destruct (Z.testbit x (bi mod 8)) eqn:T; [done|]. destruct Hz.
    apply Z.bits_inj'. intros n Hn. rewrite Z.land_spec, mask_testbit, Z.bits_0.
    destruct (Z.eqb_spec (bi mod 8) n) as [<-|]; [by rewrite T|apply andb_false_r].
Qed.

(** The bit numbered [bi] is bit [bi mod 8] of byte [bi / 8]. *)
Lemma bit_index bi bj :
  0 ≤ bi → 0 ≤ bj → Z.to_nat (bi / 8) = Z.to_nat (bj / 8) → bi mod 8 = bj mod 8 → bi = bj.
Proof.
  intros Hi Hj E1 E2. rewrite (Z.div_mod bi 8), (Z.div_mod bj 8), E2 by lia. f_equal. f_equal.
  apply Z2Nat.inj; [by apply Z.div_pos..|done].
Qed.

(** A change of one bit, by [f] on its byte, is seen at that bit only. *)
Lemma bit_of_alter d bi bj (f : Z → Z) v :
  0 ≤ bi → 0 ≤ bj →
  (∀ x n, 0 ≤ x < 256 → 0 ≤ n < 8 → Z.testbit (f x) n = if bi mod 8 =? n then v else Z.testbit x n) →
  Forall byte_ok d → bj / 8 < length d →
  bit_of (alter f (Z.to_nat (bi / 8)) d) bj = if bi =? bj then Ok v else bit_of d bj.
Proof.
  intros Hi Hj Hf Hd Hlen. assert (0 ≤ bj / 8) by by apply Z.div_pos.
  pose proof (Z.mod_pos_bound bj 8 ltac:(lia)).
  destruct (lookup_lt_is_Some_2 d (Z.to_nat (bj / 8))) as [x Hx]; [lia|].
  pose proof (Forall_lookup_1 _ _ _ _ Hd Hx) as Hxr. cbn in Hxr.
  rewrite (bit_of_testbit d bj x) by done.
  destruct (decide (Z.to_nat (bi / 8) = Z.to_nat (bj / 8))) as [E|E].
  - rewrite (bit_of_testbit _ bj (f x)) by (rewrite E, list_lookup_alter_eq, Hx; done).
    rewrite Hf by lia. destruct (Z.eqb_spec (bi mod 8) (bj mod 8)) as [E2|E2].
    + rewrite (bit_index bi bj Hi Hj E E2), Z.eqb_refl. done.
    + rewrite (proj2 (Z.eqb_neq bi bj)) by congruence. done.
  - rewrite (bit_of_testbit _ bj x) by (rewrite list_lookup_alter_ne; done).
    rewrite (proj2 (Z.eqb_neq bi bj)) by congruence. done.
Qed.

Lemma u8_testbit x n : 0 ≤ n < 8 → Z.testbit (u8 x) n = Z.testbit x n.
Proof. intros. unfold wrap. apply Z.mod_pow2_bits_low. lia. Qed.

Lemma bit_of_set d bi bj :
  0 ≤ bi → 0 ≤ bj → Forall byte_ok d → bj / 8 < length d →
  bit_of (set_bit d bi) bj = if bi =? bj then Ok true else bit_of d bj.
Proof.
  intros. apply bit_of_alter; [done..| |done|done]. intros x n Hx Hn.
  rewrite u8_testbit, Z.lor_spec, mask_testbit by done.
  destruct (Z.eqb_spec (bi mod 8) n); [apply orb_true_r|apply orb_false_r].
Qed.

Lemma bit_of_clear d bi bj :
  0 ≤ bi → 0 ≤ bj → Forall byte_ok d → bj / 8 < length d →
  bit_of (clear_bit d bi) bj = if bi =? bj then Ok false else bit_of d bj.
Proof.
  intros. apply bit_of_alter; [done..| |done|done]. intros x n Hx Hn.
  rewrite u8_testbit, Z.land_spec, Z.lnot_spec, mask_testbit by lia.
  destruct (Z.eqb_spec (bi mod 8) n); [apply andb_false_r|apply andb_true_r].
Qed.

Lemma set_bit_bytes d bi : Forall byte_ok d → Forall byte_ok (set_bit d bi).
Proof. intros. apply Forall_alter; [done|]. intros x _ _. apply (wrap_range 8). lia. Qed.

Lemma clear_bit_bytes d bi : Forall byte_ok d → Forall byte_ok (clear_bit d bi).
Proof. intros. apply Forall_alter; [done|]. intros x _ _. apply (wrap_range 8). lia. Qed.

Lemma bit_of_total d bi : 0 ≤ bi → bi / 8 < length d → ∃ x, bit_of d bi = Ok x.
Proof.
  intros Hi Hl. assert (0 ≤ bi / 8) by by apply Z.div_pos.
  destruct (lookup_lt_is_Some_2 d (Z.to_nat (bi / 8))) as [x Hx]; [lia|].
  eexists. by apply bit_of_testbit.
Qed.

(** ** The disk *)

Definition block_ok (d : list Z) : Prop := length d = BSIZE ∧ Forall byte_ok d.

(** The bit of block [b] in the bitmap. *)
Definition bit_at (s : fs) (b : Z) : option bool :=
  match V s (BBLOCK b (sb s)) with
  | Some d => match bit_of d (b mod BPB) with Ok x => Some x | Err _ => None end
  | None => None
  end.

Definition used (s : fs) (b : Z) : Prop := bit_at s b = Some true.

Definition in_fs (s : fs) (b : Z) : Prop := 0 ≤ b < sb_size (sb s).

Definition is_bitmap (s : fs) (b : Z) : Prop := ∃ b', in_fs s b' ∧ b = BBLOCK b' (sb s).

(** Every block below the size of the file system can be read, the bitmap lies
    inside, and its own blocks and the boot block are marked as used. *)
Record disk_ok (s : fs) : Prop := {
  ok_size : sb_size (sb s) < 2 ^ 62;
  ok_blocks b : in_fs s b → ∃ d, V s b = Some d ∧ block_ok d;
  ok_bitmap b : is_bitmap s b → in_fs s b ∧ used s b;
  ok_boot : in_fs s 0 ∧ used s 0;
}.

(** The buffers the caller holds are in use and not of the bitmap. *)
Definition held_ok (s : fs) : Prop :=
  ∀ b, is_Some (held s b) → used s b ∧ ¬ is_bitmap s b.

Definition free_blocks (s : fs) : list Z :=
  filter (λ b, bit_at s b = Some false) (seqZ 0 (sb_size (sb s))).

Lemma mod_BPB b : 0 ≤ b mod BPB < BPB ∧ (b mod BPB) / 8 < BSIZE.
Proof.
  assert (0 ≤ b mod BPB < BPB) as H by (apply Z.mod_pos_bound; done). split; [done|].
  apply Z.div_lt_upper_bound; [lia|]. unfold BPB, BSIZE in *. lia.
Qed.

Lemma bit_at_total s b : disk_ok s → in_fs s b → ∃ x, bit_at s b = Some x.
Proof.
  intros Hok Hb. destruct (ok_bitmap s Hok (BBLOCK b (sb s))) as [Hin _]; [by exists b|].
  destruct (ok_blocks s Hok _ Hin) as (d & Hd & Hl & _). unfold bit_at. rewrite Hd.
  pose proof (mod_BPB b). destruct (bit_of_total d (b mod BPB)) as [x ->]; [lia|rewrite Hl; lia|]. by exists x.
Qed.

Lemma free_not_held s b : held_ok s → bit_at s b = Some false → held s b = None.
Proof.
  intros Hh Hb. destruct (held s b) eqn:E; [|done]. destruct (Hh b) as [Hu _]; [by rewrite E|].
  unfold used in Hu. congruence.
Qed.

Lemma bitmap_not_held s b : held_ok s → is_bitmap s b → held s b = None.
Proof. intros Hh Hb. destruct (held s b) eqn:E; [|done]. by destruct (Hh b) as [_ ?]; [rewrite E|]. Qed.

(** ** Searching *)

Lemma find_free_spec d b lim bi (k : nat) :
  0 ≤ bi → bi + k ≤ BPB → length d = BSIZE →
  (∃ j, find_free d b bi lim k = Ok (Some j) ∧ bi ≤ j < bi + k ∧ b + j < lim ∧ bit_of d j = Ok false ∧
     ∀ i, bi ≤ i < j → bit_of d i = Ok true) ∨
  (find_free d b bi lim k = Ok None ∧ ∀ i, bi ≤ i < bi + k → b + i < lim → bit_of d i = Ok true).
Proof.
  intros H0 Hk Hl. revert bi H0 Hk. induction k as [|k IH]; intros bi H0 Hk; cbn [find_free].
  { right. split; [done|]. intros. lia. }
  destruct (Z.ltb_spec (b + bi) lim) as [Hlt|Hge].
  2: { right. split; [done|]. intros. lia. }
  destruct (bit_of_total d bi) as [x Hx]; [done|rewrite Hl; apply Z.div_lt_upper_bound; unfold BPB, BSIZE in *; lia|].
  rewrite Hx. cbn [mbind res_bind]. destruct x.
  - destruct (IH (bi + 1)) as [(j & E & Hj & ? & ? & Hi)|(E & Hi)]; [lia..| |].
    + left. exists j. split_and!; [done|lia..|done|]. intros i Hi'.
      destruct (decide (i = bi)) as [->|]; [done|]. apply Hi. lia.
    + right. split; [done|]. intros i Hi'. destruct (decide (i = bi)) as [->|]; [done|]. apply Hi. lia.
  - left. exists bi. split_and!; [done|lia..|done|]. intros. lia.
Qed.

Definition first_free (s : fs) (b : Z) : Prop :=
  in_fs s b ∧ bit_at s b = Some false ∧ ∀ b', 0 ≤ b' < b → used s b'.

Definition all_used (s : fs) : Prop := ∀ b, in_fs s b → used s b.

Definition bitmap_data (s : fs) (b : Z) : list Z := default [] (V s (BBLOCK b (sb s))).

(** The state after block [b] has been allocated, and after it has been freed. *)
Definition allocated (b : Z) (s : fs) : fs :=
  logged b (replicate BSIZE 0) (logged (BBLOCK b (sb s)) (set_bit (bitmap_data s b) (b mod BPB)) s).
Definition freed (b : Z) (s : fs) : fs :=
  logged (BBLOCK b (sb s)) (clear_bit (bitmap_data s b) (b mod BPB)) s.

Lemma BBLOCK_group j bi sb : 0 ≤ bi < BPB → BBLOCK (BPB * j + bi) sb = BBLOCK (BPB * j) sb ∧ (BPB * j + bi) mod BPB = bi.
Proof.
  intros H. assert (BPB ≠ 0) by done. unfold BBLOCK. rewrite !(Z.mul_comm BPB), Z.div_add_l, Z.div_small, Z.div_mul by lia.
  split; [f_equal; lia|]. rewrite Z.add_comm, Z.mod_add by lia. by apply Z.mod_small.
Qed.

(** The bits of one bitmap block are the blocks of its group. *)
Lemma bit_at_group s j bi d x :
  0 ≤ bi < BPB → V s (BBLOCK (BPB * j) (sb s)) = Some d → bit_of d bi = Ok x →
  bit_at s (BPB * j + bi) = Some x.
Proof.
  intros H Hd Hx. destruct (BBLOCK_group j bi (sb s) H) as [E1 E2].
  unfold bit_at. by rewrite E1, E2, Hd, Hx.
Qed.

Lemma group_used s j d n :
  0 ≤ j → (∀ b', 0 ≤ b' < BPB * j → used s b') → n ≤ BPB →
  V s (BBLOCK (BPB * j) (sb s)) = Some d → (∀ i, 0 ≤ i < n → bit_of d i = Ok true) →
  ∀ b', 0 ≤ b' < BPB * j + n → used s b'.
Proof.
  intros Hj Hbelow Hn Hd Hbits b' Hb'. destruct (decide (b' < BPB * j)); [apply Hbelow; lia|].
  replace b' with (BPB * j + (b' - BPB * j)) by lia. eapply bit_at_group; [lia|done|]. apply Hbits. lia.
Qed.

Lemma alloc_in_group dv s j d bi :
  disk_ok s → held_ok s → V s (BBLOCK (BPB * j) (sb s)) = Some d → is_bitmap s (BBLOCK (BPB * j) (sb s)) →
  0 ≤ bi < BPB → in_fs s (BPB * j + bi) → bit_of d bi = Ok false →
  (store_data (BBLOCK (BPB * j) (sb s)) (set_bit d bi) ≫= λ _, log_write (BBLOCK (BPB * j) (sb s)) ≫= λ _,
     block_release (BBLOCK (BPB * j) (sb s)) ≫= λ _, block_zero dv (BPB * j + bi) ≫= λ _, mret (BPB * j + bi))
    (opened (BBLOCK (BPB * j) (sb s)) d s) = Ok (BPB * j + bi, allocated (BPB * j + bi) s).
Proof.
  intros Hok Hh Hd Hbm Hbi Hin Hbit. set (bb := BBLOCK (BPB * j) (sb s)) in *.
  destruct (BBLOCK_group j bi (sb s) Hbi) as [E1 E2].
  assert (bit_at s (BPB * j + bi) = Some false) as Hfree by by eapply bit_at_group.
  assert (BPB * j + bi ≠ bb) as Hne.
  { intros E. destruct (ok_bitmap s Hok bb Hbm) as [_ Hu]. unfold used in Hu. congruence. }
  rewrite write_back_bind by (done || by apply bitmap_not_held).
  destruct (ok_blocks s Hok _ Hin) as (dz & Hdz & _).
  rewrite (bind_run _ _ _ tt (logged (BPB * j + bi) (replicate BSIZE 0) (logged bb (set_bit d bi) s))).
  - unfold allocated, bitmap_data. rewrite E1, E2. fold bb. by rewrite Hd.
  - apply (block_zero_run dv _ dz); [rewrite held_logged; by apply free_not_held|].
    by rewrite V_logged, decide_False.
Qed.

Lemma block_alloc_loop_run dv s j (k : nat) :
  disk_ok s → held_ok s → 0 ≤ j → (∀ b', 0 ≤ b' < BPB * j → used s b') →
  sb_size (sb s) ≤ BPB * (j + k) →
  (∃ b, first_free s b ∧ block_alloc_loop dv (BPB * j) (S k) s = Ok (b, allocated b s)) ∨
  (all_used s ∧ block_alloc_loop dv (BPB * j) (S k) s = Ok (u64 (- ENOSPC), s)).
Proof.
  intros Hok Hh. revert j. induction k as [|k IH]; intros j Hj Hbelow Hk;
    cbn [block_alloc_loop]; unfold get_sb; rewrite gets_bind; cbn beta;
    destruct (Z.ltb_spec (BPB * j) (sb_size (sb s))) as [Hlt|Hge].
  - lia.
  - right. split; [|done]. intros b Hb. apply Hbelow. unfold in_fs in Hb. lia.
  - assert (0 < BPB) as Hpos by done. assert (in_fs s (BPB * j)) as Hin by (unfold in_fs; nia).
    assert (is_bitmap s (BBLOCK (BPB * j) (sb s))) as Hbm by by exists (BPB * j).
    destruct (ok_bitmap s Hok _ Hbm) as [Hbin _].
    destruct (ok_blocks s Hok _ Hbin) as (d & Hd & Hl & _).
    pose proof (bitmap_not_held s _ Hh Hbm) as Hnh.
    rewrite (read_bind dv _ d) by done.
    destruct (find_free_spec d (BPB * j) (sb_size (sb s)) 0 (Z.to_nat BPB)) as
      [(bi & E & Hbi & Hlim & Hbit & Hbits)|(E & Hbits)]; [lia|lia|done| |].
    + left. exists (BPB * j + bi). split.
      * split_and!; [unfold in_fs; nia|eapply bit_at_group; [lia|done..]|].
        intros b' Hb'. eapply (group_used s j d bi); [done..|lia|done|done|lia].
      * rewrite (bind_run _ _ _ (Some bi) (opened (BBLOCK (BPB * j) (sb s)) d s)) by (by rewrite E).
        apply alloc_in_group; done || (unfold in_fs; nia).
    + rewrite (bind_run _ _ _ None (opened (BBLOCK (BPB * j) (sb s)) d s)) by (by rewrite E).
      rewrite release_bind by done. replace (BPB * j + BPB) with (BPB * (j + 1)) by lia.
      destruct (decide (BPB * (j + 1) < sb_size (sb s))) as [Hmore|Hlast].
      * apply IH; [lia| |nia]. intros b' Hb'.
        eapply (group_used s j d BPB); [done..| |lia]. intros i Hi. apply Hbits; lia.
      * right. assert (all_used s) as Hall.
        { intros b Hb. unfold in_fs in Hb.
          eapply (group_used s j d (sb_size (sb s) - BPB * j)); [done..|lia|done| |lia].
          intros i Hi. apply Hbits; lia. }
        split; [done|]. cbn [block_alloc_loop]. unfold get_sb. rewrite gets_bind. cbn beta.
        rewrite (proj2 (Z.ltb_ge _ _)) by lia. done.
  - right. split; [|done]. intros b Hb. apply Hbelow. unfold in_fs in Hb. lia.
Qed.

Lemma block_alloc_run dv s :
  disk_ok s → held_ok s →
  (∃ b, first_free s b ∧ block_alloc dv s = Ok (b, allocated b s)) ∨
  (all_used s ∧ block_alloc dv s = Ok (u64 (- ENOSPC), s)).
Proof.
  intros Hok Hh. unfold block_alloc, get_sb. rewrite gets_bind. cbn beta.
  destruct (decide (sb_size (sb s) ≤ 0)) as [Hz|Hz].
  - right. split; [intros b Hb; unfold in_fs in Hb; lia|].
    rewrite Nat.add_comm. cbn [Nat.add block_alloc_loop]. unfold get_sb. rewrite gets_bind. cbn beta.
    rewrite (proj2 (Z.ltb_ge _ _)) by lia. done.
  - replace (Z.to_nat (sb_size (sb s) / BPB) + 2)%nat with (S (Z.to_nat (sb_size (sb s) / BPB + 1))).
    2: { assert (0 ≤ sb_size (sb s) / BPB) by (apply Z.div_pos; [lia|done]). lia. }
    apply (block_alloc_loop_run dv s 0); try done; [intros; lia|].
    assert (0 ≤ sb_size (sb s) / BPB) by (apply Z.div_pos; [lia|done]).
    pose proof (Z.div_mod (sb_size (sb s)) BPB ltac:(done)). pose proof (Z.mod_pos_bound (sb_size (sb s)) BPB ltac:(done)).
    nia.
Qed.

Lemma block_free_run dv b s :
  disk_ok s → held_ok s → in_fs s b → used s b → block_free dv b s = Ok (tt, freed b s).
Proof.
  intros Hok Hh Hin Hu. unfold block_free, get_sb. rewrite gets_bind. cbn beta.
  assert (is_bitmap s (BBLOCK b (sb s))) as Hbm by by exists b.
  destruct (ok_bitmap s Hok _ Hbm) as [Hbin _].
  destruct (ok_blocks s Hok _ Hbin) as (d & Hd & Hl & _).
  pose proof (bitmap_not_held s _ Hh Hbm) as Hnh. rewrite (read_bind dv _ d) by done.
  assert (bit_of d (b mod BPB) = Ok true) as Hbit.
  { unfold used, bit_at in Hu. rewrite Hd in Hu. by destruct (bit_of d (b mod BPB)); simplify_eq. }
  rewrite (bind_run _ _ _ true (opened (BBLOCK b (sb s)) d s)) by (by rewrite Hbit). cbn [negb].
  unfold freed, bitmap_data. rewrite Hd. by apply write_back_run.
Qed.

(** Freeing a block that is free is a panic. *)
Lemma block_free_panics dv b s :
  disk_ok s → held_ok s → in_fs s b → bit_at s b = Some false →
  block_free dv b s = Err (EPanic "freeing free block").
Proof.
  intros Hok Hh Hin Hu. unfold block_free, get_sb. rewrite gets_bind. cbn beta.
  assert (is_bitmap s (BBLOCK b (sb s))) as Hbm by by exists b.
  destruct (ok_bitmap s Hok _ Hbm) as [Hbin _].
  destruct (ok_blocks s Hok _ Hbin) as (d & Hd & Hl & _).
  pose proof (bitmap_not_held s _ Hh Hbm) as Hnh. rewrite (read_bind dv _ d) by done.
  assert (bit_of d (b mod BPB) = Ok false) as Hbit.
  { unfold bit_at in Hu. rewrite Hd in Hu. by destruct (bit_of d (b mod BPB)); simplify_eq. }
  by rewrite (bind_run _ _ _ false (opened (BBLOCK b (sb s)) d s)) by (by rewrite Hbit).
Qed.

(** ** The bitmap after an operation *)

Lemma in_fs_logged x d s b : in_fs (logged x d s) b ↔ in_fs s b.
Proof. done. Qed.

Lemma is_bitmap_logged x d s b : is_bitmap (logged x d s) b ↔ is_bitmap s b.
Proof. done. Qed.

Lemma bit_at_logged_other x d s b : ¬ is_bitmap s x → in_fs s b → bit_at (logged x d s) b = bit_at s b.
Proof.
  intros Hx Hb. unfold bit_at. rewrite V_logged. change (sb (logged x d s)) with (sb s).
  rewrite decide_False; [done|]. intros <-. apply Hx. by exists b.
Qed.

Lemma BBLOCK_inj s b b' : BBLOCK b s = BBLOCK b' s → b mod BPB = b' mod BPB → b = b'.
Proof.
  unfold BBLOCK. intros E1 E2. rewrite (Z.div_mod b BPB), (Z.div_mod b' BPB), E2 by done.
  assert (b / BPB = b' / BPB) as -> by lia. done.
Qed.

(** One bit of a bitmap block changes to [v]. *)
Lemma bit_at_logged_bit b d d' v s b' :
  V s (BBLOCK b (sb s)) = Some d → length d = BSIZE →
  (∀ bj, 0 ≤ bj → bj / 8 < length d → bit_of d' bj = if b mod BPB =? bj then Ok v else bit_of d bj) →
  bit_at (logged (BBLOCK b (sb s)) d' s) b' = if decide (b' = b) then Some v else bit_at s b'.
Proof.
  intros Hd Hl Hbit. unfold bit_at. rewrite V_logged. change (sb (logged _ d' s)) with (sb s).
  pose proof (mod_BPB b') as [Hr Hr8]. rewrite <- Hl in Hr8.
  destruct (decide (BBLOCK b' (sb s) = BBLOCK b (sb s))) as [E|E].
  - rewrite E, Hd, Hbit by lia. destruct (Z.eqb_spec (b mod BPB) (b' mod BPB)) as [E2|E2].
    + rewrite decide_True by (symmetry; by eapply BBLOCK_inj). done.
    + rewrite decide_False by (by intros ->). done.
  - rewrite decide_False by (by intros ->). done.
Qed.

Lemma bitmap_block s b : disk_ok s → in_fs s b →
  ∃ d, V s (BBLOCK b (sb s)) = Some d ∧ block_ok d ∧ bitmap_data s b = d ∧ is_bitmap s (BBLOCK b (sb s)).
Proof.
  intros Hok Hb. assert (is_bitmap s (BBLOCK b (sb s))) as Hbm by by exists b.
  destruct (ok_bitmap s Hok _ Hbm) as [Hbin _]. destruct (ok_blocks s Hok _ Hbin) as (d & Hd & Hdok).
  exists d. split_and!; [done..| |done]. unfold bitmap_data. by rewrite Hd.
Qed.

Lemma free_not_bitmap s b : disk_ok s → bit_at s b = Some false → ¬ is_bitmap s b.
Proof. intros Hok Hf Hbm. destruct (ok_bitmap s Hok b Hbm) as [_ Hu]. unfold used in Hu. congruence. Qed.

Lemma bit_at_allocated b s b' :
  disk_ok s → in_fs s b → bit_at s b = Some false → in_fs s b' →
  bit_at (allocated b s) b' = if decide (b' = b) then Some true else bit_at s b'.
Proof.
  intros Hok Hb Hf Hb'. destruct (bitmap_block s b Hok Hb) as (d & Hd & [Hl Hbytes] & E & _).
  unfold allocated. rewrite bit_at_logged_other; [|by apply (free_not_bitmap s b)|done].
  rewrite E. apply (bit_at_logged_bit b d); [done|done|]. intros bj H1 H2.
  pose proof (mod_BPB b). apply bit_of_set; done || lia.
Qed.

Lemma bit_at_freed b s b' :
  disk_ok s → in_fs s b → bit_at (freed b s) b' = if decide (b' = b) then Some false else bit_at s b'.
Proof.
  intros Hok Hb. destruct (bitmap_block s b Hok Hb) as (d & Hd & [Hl Hbytes] & E & _).
  unfold freed. rewrite E. apply (bit_at_logged_bit b d); [done|done|]. intros bj H1 H2.
  pose proof (mod_BPB b). apply bit_of_clear; done || lia.
Qed.

Lemma V_allocated b s x : V (allocated b s) x =
  if decide (x = b) then Some (replicate BSIZE 0)
  else if decide (x = BBLOCK b (sb s)) then Some (set_bit (bitmap_data s b) (b mod BPB)) else V s x.
Proof. unfold allocated. by rewrite !V_logged. Qed.

(** The rest of the invariant is about the data of the blocks. *)
Lemma disk_ok_logged x d s :
  disk_ok s → block_ok d → (∀ b, in_fs s b → is_bitmap s b ∨ b = 0 → used (logged x d s) b) →
  disk_ok (logged x d s).
Proof.
  intros Hok Hd Hu. split.
  - apply Hok.
  - intros b Hb. rewrite V_logged. case_decide; [by exists d|by apply (ok_blocks s Hok)].
  - intros b Hb. destruct (ok_bitmap s Hok b Hb). auto.
  - destruct (ok_boot s Hok). auto.
Qed.

Lemma zeros_ok : block_ok (replicate BSIZE 0).
Proof. split; [apply length_replicate|]. apply Forall_replicate. lia. Qed.

Lemma set_bit_ok d bi : block_ok d → block_ok (set_bit d bi).
Proof. intros [??]. split; [by unfold set_bit; rewrite length_alter|by apply set_bit_bytes]. Qed.

Lemma clear_bit_ok d bi : block_ok d → block_ok (clear_bit d bi).
Proof. intros [??]. split; [by unfold clear_bit; rewrite length_alter|by apply clear_bit_bytes]. Qed.

Lemma disk_ok_allocated b s :
  disk_ok s → in_fs s b → bit_at s b = Some false → disk_ok (allocated b s).
Proof.
  intros Hok Hb Hf. destruct (bitmap_block s b Hok Hb) as (d & Hd & Hdok & E & _).
  assert (∀ x, in_fs s x → is_bitmap s x ∨ x = 0 → used (allocated b s) x) as Hu.
  { intros x Hx Hor. unfold used. rewrite bit_at_allocated by done. case_decide; [done|].
    destruct Hor as [Hbm| ->]; [by apply (ok_bitmap s Hok)|apply (ok_boot s Hok)]. }
  unfold allocated in *. apply disk_ok_logged; [apply disk_ok_logged; [done| |]|apply zeros_ok|done].
  - rewrite E. by apply set_bit_ok.
  - intros x Hx Hor. unfold used. rewrite <- (Hu x Hx Hor). symmetry. apply bit_at_logged_other; [|done].
    by apply (free_not_bitmap s b).
Qed.

Lemma disk_ok_freed b s :
  disk_ok s → in_fs s b → ¬ is_bitmap s b → b ≠ 0 → disk_ok (freed b s).
Proof.
  intros Hok Hb Hnb Hnz. destruct (bitmap_block s b Hok Hb) as (d & Hd & Hdok & E & _).
  apply disk_ok_logged; [done|rewrite E; by apply clear_bit_ok|].
  intros x Hx Hor. change (used (freed b s) x). unfold used. rewrite bit_at_freed by done.
  rewrite decide_False by (intros ->; tauto).
  destruct Hor as [Hbm| ->]; [by apply (ok_bitmap s Hok)|apply (ok_boot s Hok)].
Qed.

(** ** The list of free blocks *)

Lemma elem_of_free s b : b ∈ free_blocks s ↔ in_fs s b ∧ bit_at s b = Some false.
Proof. unfold free_blocks, in_fs. rewrite list_elem_of_filter, elem_of_seqZ. split; [intros []; split; [lia|done]|naive_solver lia]. Qed.

Lemma filter_ext_in {A} (P Q : A → Prop) `{!∀ x, Decision (P x), !∀ x, Decision (Q x)} (l : list A) :
  (∀ x, x ∈ l → P x ↔ Q x) → filter P l = filter Q l.
Proof.
  induction l as [|x l IH]; intros HPQ; [done|]. rewrite !filter_cons, IH by set_solver.
  specialize (HPQ x ltac:(set_solver)). repeat case_decide; tauto || done.
Qed.

Lemma filter_all {A} (P : A → Prop) `{!∀ x, Decision (P x)} (l : list A) :
  (∀ x, x ∈ l → P x) → filter P l = l.
Proof. induction l as [|x l IH]; intros HP; [done|]. rewrite filter_cons, decide_True, IH by set_solver. done. Qed.

Lemma filter_none {A} (P : A → Prop) `{!∀ x, Decision (P x)} (l : list A) :
  (∀ x, x ∈ l → ¬ P x) → filter P l = [].
Proof. induction l as [|x l IH]; intros HP; [done|]. rewrite filter_cons, decide_False, IH by set_solver. done. Qed.

(** The free list with one block more and with one block less in use. *)
Lemma free_blocks_allocated b s :
  disk_ok s → in_fs s b → bit_at s b = Some false →
  free_blocks (allocated b s) = filter (λ x, x ≠ b) (free_blocks s).
Proof.
  intros Hok Hb Hf. unfold free_blocks. rewrite list_filter_filter. apply filter_ext_in.
  intros x Hx%elem_of_seqZ. rewrite bit_at_allocated by (done || (unfold in_fs; cbn in Hx; lia)).
  case_decide; naive_solver.
Qed.

Lemma free_blocks_freed b s :
  disk_ok s → in_fs s b → used s b → filter (λ x, x ≠ b) (free_blocks (freed b s)) = free_blocks s ∧
    b ∈ free_blocks (freed b s).
Proof.
  intros Hok Hb Hu. split.
  - unfold free_blocks. rewrite list_filter_filter. apply filter_ext_in.
    intros x Hx%elem_of_seqZ. rewrite bit_at_freed by done. unfold used in Hu. case_decide; naive_solver.
  - apply elem_of_free. split; [done|]. rewrite bit_at_freed, decide_True by done. done.
Qed.

Lemma NoDup_free s : NoDup (free_blocks s).
Proof. apply NoDup_filter, NoDup_seqZ. Qed.

Lemma free_tail s b rest : free_blocks s = b :: rest → filter (λ x, x ≠ b) (free_blocks s) = rest.
Proof.
  intros E. pose proof (NoDup_free s) as Hnd. rewrite E in Hnd |- *. apply NoDup_cons in Hnd as [Hb _].
  rewrite filter_cons, decide_False by (by intros []). apply filter_all. intros x Hx ->. done.
Qed.

(** The first free block is the head of the list. *)
Lemma first_free_head s b : first_free s b → ∃ rest, free_blocks s = b :: rest.
Proof.
  intros (Hin & Hf & Hbelow). unfold free_blocks, in_fs in *.
  replace (sb_size (sb s)) with (b + (1 + (sb_size (sb s) - b - 1))) by lia.
  rewrite seqZ_app, filter_app by lia.
  assert (filter (λ x, bit_at s x = Some false) (seqZ 0 b) = []) as ->.
  { apply filter_none. intros x Hx%elem_of_seqZ Hxf. specialize (Hbelow x ltac:(lia)).
    unfold used in Hbelow. congruence. }
  rewrite Z.add_0_l, seqZ_cons by lia. rewrite filter_cons, decide_True by done. cbn. eauto.
Qed.

Lemma all_used_nil s : all_used s → free_blocks s = [].
Proof.
  intros Hall. apply filter_none. intros x Hx%elem_of_seqZ Hxf.
  specialize (Hall x ltac:(unfold in_fs; lia)). unfold used in Hall. congruence.
Qed.

(** What [block_alloc] does, by the free list. *)
Lemma block_alloc_free dv s :
  disk_ok s → held_ok s →
  match free_blocks s with
  | [] => block_alloc dv s = Ok (u64 (- ENOSPC), s)
  | b :: rest => block_alloc dv s = Ok (b, allocated b s) ∧ free_blocks (allocated b s) = rest
  end.
Proof.
  intros Hok Hh. destruct (block_alloc_run dv s Hok Hh) as [(b & Hb & E)|(Hall & E)].
  - destruct (first_free_head s b Hb) as [rest Hrest]. rewrite Hrest. split; [done|].
    destruct Hb as (Hin & Hf & _). rewrite free_blocks_allocated by done. by apply free_tail.
  - by rewrite all_used_nil.
Qed.

Lemma used_allocated b s x :
  disk_ok s → in_fs s b → bit_at s b = Some false → in_fs s x → used s x → used (allocated b s) x.
Proof. intros. unfold used. rewrite bit_at_allocated by done. by case_decide. Qed.

Definition held_in (s : fs) : Prop := ∀ b, is_Some (held s b) → in_fs s b.

Lemma held_ok_allocated b s :
  disk_ok s → held_ok s → held_in s → in_fs s b → bit_at s b = Some false → held_ok (allocated b s).
Proof.
  intros Hok Hh Hi Hb Hf x Hx. destruct (Hh x Hx). split; [|done].
  apply used_allocated; try done. by apply Hi.
Qed.

(** ** Checking a concrete disk *)

Definition block_okb (d : list Z) : bool :=
  (length d =? BSIZE)%nat && forallb (λ x, (0 <=? x) && (x <? 256)) d.

Definition usedb (s : fs) (b : Z) : bool := bool_decide (bit_at s b = Some true).

Definition disk_okb (s : fs) : bool :=
  (0 <? sb_size (sb s)) && (sb_size (sb s) <? 2 ^ 62) &&
  forallb (λ b,
    match V s b with Some d => block_okb d | None => false end &&
    (0 <=? BBLOCK b (sb s)) && (BBLOCK b (sb s) <? sb_size (sb s)) && usedb s (BBLOCK b (sb s)))
    (seqZ 0 (sb_size (sb s))) &&
  usedb s 0.

Lemma block_okb_ok d : block_okb d = true → block_ok d.
Proof.
  unfold block_okb. intros [H1%Nat.eqb_eq H2]%andb_prop. split; [done|].
  apply Forall_forall. intros x Hx. rewrite forallb_forall in H2.
  specialize (H2 x ltac:(by apply list_elem_of_In)). apply andb_prop in H2 as [??]. zbool. lia.
Qed.

Lemma disk_okb_ok s : disk_okb s = true → disk_ok s.
Proof.
  unfold disk_okb. intros [[[Hpos Hsz]%andb_prop Hb]%andb_prop H0]%andb_prop. zbool.
  rewrite forallb_forall in Hb. unfold usedb in *. apply bool_decide_eq_true in H0.
  assert (∀ b, in_fs s b → (∃ d, V s b = Some d ∧ block_ok d) ∧
    in_fs s (BBLOCK b (sb s)) ∧ used s (BBLOCK b (sb s))) as H.
  { intros b Hin. unfold in_fs in *. specialize (Hb b).
    assert (In b (seqZ 0 (sb_size (sb s)))) as HIn by (apply list_elem_of_In, elem_of_seqZ; lia).
    apply Hb in HIn. apply andb_prop in HIn as [[[E1 E2]%andb_prop E3]%andb_prop E4%bool_decide_eq_true].
    zbool. split_and!; [|lia|lia|done]. destruct (V s b) as [d|]; [|done]. exists d. split; [done|].
    by apply block_okb_ok. }
  split; [done|..].
  - intros b Hin. by apply H.
  - intros b (b' & Hin & ->). by apply H.
  - split; [unfold in_fs; lia|done].
Qed.

(** C12. [block_alloc] takes the lowest-numbered free block: it marks it in the
    bitmap, fills it with zeros and changes no other block, and returns
    [-ENOSPC] with nothing changed exactly when no block is free.  Freeing the
    block again gives back the same list of free blocks. *)
Theorem block_alloc_free_roundtrip dv s :
  disk_ok s → held_ok s → held_in s →
  match free_blocks s with
  | [] => block_alloc dv s = Ok (u64 (- ENOSPC), s)
  | b :: rest =>
      ∃ s', block_alloc dv s = Ok (b, s') ∧ free_blocks s' = rest ∧
        view (store s') b = Some (replicate BSIZE 0) ∧
        (∀ x, x ≠ b → ¬ is_bitmap s x → view (store s') x = view (store s) x) ∧
        disk_ok s' ∧
        ∃ s'', block_free dv b s' = Ok (tt, s'') ∧ free_blocks s'' = b :: rest ∧ disk_ok s''
  end.
Proof.
  intros Hok Hh Hi. pose proof (block_alloc_free dv s Hok Hh) as Ha.
  destruct (free_blocks s) as [|b rest] eqn:Hfl; [done|]. destruct Ha as [Ha Hrest].
  assert (b ∈ free_blocks s) as [Hin Hf]%elem_of_free by (rewrite Hfl; set_solver).
  pose proof (free_not_bitmap s b Hok Hf) as Hnb.
  assert (Hok' : disk_ok (allocated b s)) by by apply disk_ok_allocated.
  assert (used (allocated b s) b) as Hub by (unfold used; by rewrite bit_at_allocated, decide_True by done).
  exists (allocated b s). split_and!; [done|done| | |done|].
  - change (V (allocated b s) b = Some (replicate BSIZE 0)). by rewrite V_allocated, decide_True.
  - intros x Hx Hxb. change (V (allocated b s) x = V s x). rewrite V_allocated, !decide_False; [done| |done].
    intros ->. apply Hxb. by exists b.
  - exists (freed b (allocated b s)). split_and!.
    + apply block_free_run; [done|by apply held_ok_allocated|done|done].
    + rewrite <- Hfl. unfold free_blocks. apply filter_ext_in. intros x Hx%elem_of_seqZ.
      rewrite bit_at_freed by done. case_decide as E; [subst; naive_solver|].
      rewrite bit_at_allocated, decide_False by (done || (unfold in_fs; cbn in Hx; lia)). done.
    + apply disk_ok_freed; [done|done|done|]. intros ->.
      destruct (ok_boot s Hok) as [_ H0]. unfold used in H0. congruence.
Qed.

(** A disk of 24 blocks: the bitmap is block 4, and blocks 0 to 5 are in use. *)
Definition sample_bitmap : list Z := 63 :: replicate (BSIZE - 1) 0.
Definition sample_disk : gmap Z (list Z) :=
  <[4 := sample_bitmap]> (list_to_map ((λ b, (b, replicate BSIZE 0)) <$> seqZ 0 24)).
Definition sample_sb : superblock := mksb SIGNATURE 24 18 16 1 2 3 4.
Definition sample_fs : fs := mkfs (mkabs sample_disk ∅ ∅) [] sample_sb [] 0.

Lemma block_alloc_free_roundtrip_witness :
  free_blocks sample_fs = seqZ 6 18 ∧
  ∃ s', block_alloc 1 sample_fs = Ok (6, s') ∧ free_blocks s' = seqZ 7 17 ∧
    view (store s') 6 = Some (replicate BSIZE 0) ∧
    (∀ x, x ≠ 6 → ¬ is_bitmap sample_fs x → view (store s') x = view (store sample_fs) x) ∧
    disk_ok s' ∧
    ∃ s'', block_free 1 6 s' = Ok (tt, s'') ∧ free_blocks s'' = 6 :: seqZ 7 17 ∧ disk_ok s''.
Proof.
  assert (free_blocks sample_fs = 6 :: seqZ 7 17) as E by (vm_compute; reflexivity).
  split; [exact E|].
  pose proof (block_alloc_free_roundtrip 1 sample_fs) as H. rewrite E in H. apply H.
  - apply disk_okb_ok. vm_compute. reflexivity.
  - intros b [d Hd]. discriminate Hd.
  - intros b [d Hd]. discriminate Hd.
Defined.

End FsBlock.
