(* ===== verification/FsTree.v ===== *)
(** * The blocks of a file

    An inode names its data blocks through [addrs], one indirect and one doubly
    indirect block.  Every place that holds a block number is a [slot]; the
    invariant [tree_ok] says that the slots of a file name different blocks of
    the data area, all of them marked in the bitmap.  [bmap] fills the slots on
    the way to a data block and changes nothing else. *)

From S2P Require Import Prelude Mem Words Block Fs FsBlock.

Module FsTree.
Import Block Fs FsBlock.

(** ** Slots *)

Inductive slot :=
| SAddr (i : Z)
| SInd (j : Z)
| SDbl (j : Z)
| SDbl2 (j k : Z).

#[global] Instance slot_eq_dec : EqDecision slot.
Proof. solve_decision. Defined.

Definition slot_ok (σ : slot) : Prop :=
  match σ with
  | SAddr i => 0 ≤ i < NDIRECT + 2
  | SInd j | SDbl j => 0 ≤ j < NINDIRECT
  | SDbl2 j k => 0 ≤ j < NINDIRECT ∧ 0 ≤ k < NINDIRECT
  end.

(** The slot of the block a slot lies in, and its index there. *)
Definition parent (σ : slot) : option (slot * Z) :=
  match σ with
  | SAddr _ => None
  | SInd j => Some (SAddr NDIRECT, j)
  | SDbl j => Some (SAddr (NDIRECT + 1), j)
  | SDbl2 j k => Some (SDbl j, k)
  end.

(** Slots that name data blocks, and the one of block [bn] of the file. *)
Definition leaf (σ : slot) : Prop :=
  match σ with SAddr i => i < NDIRECT | SInd _ | SDbl2 _ _ => True | SDbl _ => False end.

Definition dslot (bn : Z) : slot :=
  if bn <? NDIRECT then SAddr bn
  else if bn - NDIRECT <? NINDIRECT then SInd (bn - NDIRECT)
  else SDbl2 ((bn - NDIRECT - NINDIRECT) / NINDIRECT) ((bn - NDIRECT - NINDIRECT) mod NINDIRECT).

(** The number in entry [j] of block [b]; block 0 stands for no block. *)
Definition ptr (s : fs) (b j : Z) : Z :=
  if b =? 0 then 0 else match V s b with Some d => get_ptr d j | None => 0 end.

Definition val (s : fs) (a : list Z) (σ : slot) : Z :=
  let addr i := default 0 (a !! Z.to_nat i) in
  match σ with
  | SAddr i => addr i
  | SInd j => ptr s (addr NDIRECT) j
  | SDbl j => ptr s (addr (NDIRECT + 1)) j
  | SDbl2 j k => ptr s (ptr s (addr (NDIRECT + 1)) j) k
  end.

Lemma val_parent s a σ π j : parent σ = Some (π, j) → val s a σ = ptr s (val s a π) j.
Proof. by destruct σ; intros [= <- <-]. Qed.

Lemma parent_inj σ τ p : parent σ = Some p → parent τ = Some p → σ = τ.
Proof. destruct σ, τ; cbn; intros; simplify_eq; done. Qed.

Lemma parent_ok σ π j : parent σ = Some (π, j) → slot_ok σ → slot_ok π ∧ 0 ≤ j < NINDIRECT ∧ ¬ leaf π ∧ π ≠ σ.
Proof.
  destruct σ; intros [= <- <-]; cbn; intros; split_and!; try done; unfold NDIRECT, NINDIRECT in *; lia.
Qed.

(** Induction from the inode down to a slot. *)
Lemma slot_ind' (P : slot → Prop) :
  (∀ i, P (SAddr i)) → (∀ σ π j, parent σ = Some (π, j) → P π → P σ) → ∀ σ, P σ.
Proof.
  intros H0 HS σ. destruct σ as [i|j|j|j k]; [done|by eapply HS..|].
  eapply HS; [done|]. by eapply HS.
Qed.

Lemma dslot_ok bn : 0 ≤ bn < MAXFILE → slot_ok (dslot bn) ∧ leaf (dslot bn).
Proof.
  unfold dslot, MAXFILE. intros H. repeat zcase; cbn [slot_ok leaf]; split; try done; [unfold NDIRECT in *; lia|lia|].
  assert (0 < NINDIRECT) by done. split; [|by apply Z.mod_pos_bound].
  split; [apply Z.div_pos; lia|]. apply Z.div_lt_upper_bound; lia.
Qed.

Lemma dslot_inj bn bn' : 0 ≤ bn → 0 ≤ bn' → dslot bn = dslot bn' → bn = bn'.
Proof.
  unfold dslot. intros H0 H0'. repeat zcase; intros E; simplify_eq; try lia.
  pose proof (Z.div_mod (bn - NDIRECT - NINDIRECT) NINDIRECT ltac:(done)).
  pose proof (Z.div_mod (bn' - NDIRECT - NINDIRECT) NINDIRECT ltac:(done)). lia.
Qed.

(** ** The invariant *)

Definition is_inode (s : fs) (b : Z) : Prop := ∃ i, 0 ≤ i < ninodes (sb s) ∧ b = IBLOCK i (sb s).

(** The inode blocks are in use and apart from the bitmap. *)
Definition inodes_ok (s : fs) : Prop :=
  ∀ b, is_inode s b → in_fs s b ∧ used s b ∧ ¬ is_bitmap s b.

Definition data_block (s : fs) (b : Z) : Prop :=
  in_fs s b ∧ used s b ∧ ¬ is_bitmap s b ∧ ¬ is_inode s b.

Record tree_ok (s : fs) (a : list Z) : Prop := {
  tree_len : length a = NADDRS;
  tree_inj σ τ : slot_ok σ → slot_ok τ → val s a σ ≠ 0 → val s a σ = val s a τ → σ = τ;
  tree_data σ : slot_ok σ → val s a σ ≠ 0 → data_block s (val s a σ);
}.

(** ** States that agree on the disk *)

Definition same_disk (s s' : fs) : Prop := sb s' = sb s ∧ ∀ b, V s' b = V s b.

Lemma same_bit s s' b : same_disk s s' → bit_at s' b = bit_at s b.
Proof. intros [E HV]. unfold bit_at. by rewrite E, HV. Qed.

Lemma same_used s s' b : same_disk s s' → used s' b ↔ used s b.
Proof. intros H. unfold used. by rewrite (same_bit s s'). Qed.

Lemma same_in_fs s s' b : same_disk s s' → in_fs s' b ↔ in_fs s b.
Proof. intros [E _]. unfold in_fs. by rewrite E. Qed.

Lemma same_is_bitmap s s' b : same_disk s s' → is_bitmap s' b ↔ is_bitmap s b.
Proof. intros [E _]. unfold is_bitmap, in_fs. by rewrite E. Qed.

Lemma same_is_inode s s' b : same_disk s s' → is_inode s' b ↔ is_inode s b.
Proof. intros [E _]. unfold is_inode. by rewrite E. Qed.

Lemma same_ptr s s' b j : same_disk s s' → ptr s' b j = ptr s b j.
Proof. intros [_ HV]. unfold ptr. by rewrite HV. Qed.

Lemma same_val s s' a σ : same_disk s s' → val s' a σ = val s a σ.
Proof. intros H. destruct σ; cbn; rewrite ?(same_ptr s s') by done; done. Qed.

Lemma same_disk_ok s s' : same_disk s s' → disk_ok s → disk_ok s'.
Proof.
  intros H [H1 H2 H3 H4]. pose proof H as [E HV]. split.
  - by rewrite E.
  - intros b. rewrite (same_in_fs s s'), HV by done. apply H2.
  - intros b. rewrite (same_is_bitmap s s'), (same_in_fs s s'), (same_used s s') by done. apply H3.
  - by rewrite (same_in_fs s s'), (same_used s s') by done.
Qed.

Lemma same_inodes_ok s s' : same_disk s s' → inodes_ok s → inodes_ok s'.
Proof.
  intros H Hi b. rewrite (same_is_inode s s'), (same_in_fs s s'), (same_used s s'), (same_is_bitmap s s') by done. apply Hi.
Qed.

Lemma same_data_block s s' b : same_disk s s' → data_block s' b ↔ data_block s b.
Proof.
  intros H. unfold data_block. by rewrite (same_is_inode s s'), (same_in_fs s s'), (same_used s s'), (same_is_bitmap s s') by done.
Qed.

Lemma same_tree_ok s s' a : same_disk s s' → tree_ok s a → tree_ok s' a.
Proof.
  intros H [H1 H2 H3]. split; [done|..].
  - intros σ τ. rewrite !(same_val s s') by done. apply H2.
  - intros σ. rewrite !(same_val s s'), (same_data_block s s') by done. apply H3.
Qed.

Lemma same_free s s' : same_disk s s' → free_blocks s' = free_blocks s.
Proof.
  intros H. unfold free_blocks. destruct H as [E HV]. rewrite E. apply filter_ext_in.
  intros x _. by rewrite (same_bit s s') by done.
Qed.

(** ** Blocks of block numbers *)

Lemma ptr_range j : 0 ≤ j < NINDIRECT → (8 * Z.to_nat j + 8 ≤ BSIZE)%nat.
Proof. unfold NINDIRECT, BSIZE. change (2048%nat / 8) with 256. lia. Qed.

Lemma get_put_ptr d j j' v :
  length d = BSIZE → 0 ≤ j < NINDIRECT → 0 ≤ j' < NINDIRECT → 0 ≤ v < 2 ^ 64 →
  get_ptr (put_ptr d j v) j' = if decide (j' = j) then v else get_ptr d j'.
Proof.
  intros Hd Hj Hj' Hv. pose proof (ptr_range j Hj). pose proof (ptr_range j' Hj').
  unfold get_ptr, put_ptr. case_decide as E; [subst j'|].
  - apply get_put_le_eq; [by rewrite Hd|done].
  - apply get_put_le_ne; [by rewrite Hd|lia].
Qed.

Lemma put_ptr_ok d j v : block_ok d → 0 ≤ j < NINDIRECT → block_ok (put_ptr d j v).
Proof.
  intros [Hl Hb] Hj. pose proof (ptr_range j Hj). split.
  - unfold put_ptr. rewrite length_put_le by (by rewrite Hl). done.
  - unfold put_ptr, put_le, put_bytes. rewrite !Forall_app. split_and!.
    + by apply Forall_take.
    + apply le_bytes_range.
    + by apply Forall_drop.
Qed.

Lemma le_val_zeros n : le_val (replicate n 0) = 0.
Proof. induction n as [|n IH]; cbn; [done|]. by rewrite IH. Qed.

Lemma get_ptr_zeros j : get_ptr (replicate BSIZE 0) j = 0.
Proof.
  unfold get_ptr, get_le, get_bytes. rewrite drop_replicate, take_replicate. apply le_val_zeros.
Qed.

(** ** Filling one slot *)

Lemma val_0_child s a σ π j : parent σ = Some (π, j) → val s a π = 0 → val s a σ = 0.
Proof. intros Hp H. rewrite (val_parent s a σ π j Hp), H. done. Qed.

Section grow.
Context (s s' : fs) (a : list Z) (b : Z).
Hypothesis Htree : tree_ok s a.
Hypothesis Hb : b ≠ 0.
Hypothesis Hfresh : ¬ data_block s b.
Hypothesis Hzero : V s' b = Some (replicate BSIZE 0).

Lemma val_not_fresh τ : slot_ok τ → val s a τ ≠ 0 → val s a τ ≠ b.
Proof. intros Ht Hv E. apply Hfresh. rewrite <- E. by apply (tree_data s a Htree). Qed.

(** In the inode itself. *)
Lemma val_grow_addr i :
  slot_ok (SAddr i) → val s a (SAddr i) = 0 → (∀ x, data_block s x → V s' x = V s x) →
  ∀ τ, slot_ok τ → val s' (<[Z.to_nat i := b]> a) τ = if decide (τ = SAddr i) then b else val s a τ.
Proof.
  intros Hi Hv Hsame τ. induction τ as [k|τ π j Hp IH] using slot_ind'; intros Ht.
  - cbn in Hi, Ht |- *. destruct (decide (k = i)) as [->|Hne].
    + rewrite decide_True by done. rewrite list_lookup_insert_eq; [done|].
      rewrite (tree_len s a Htree). unfold NADDRS, NDIRECT in *. lia.
    + rewrite decide_False by congruence. rewrite list_lookup_insert_ne by lia. done.
  - destruct (parent_ok _ _ _ Hp Ht) as (Hπ & Hj & _ & Hne). specialize (IH Hπ).
    rewrite (val_parent s' _ _ _ _ Hp), (decide_False (P := τ = SAddr i)) by (intros ->; done).
    destruct (decide (π = SAddr i)) as [->|Hπi].
    + rewrite IH. unfold ptr. rewrite (proj2 (Z.eqb_neq b 0)), Hzero, get_ptr_zeros by done.
      symmetry. by eapply val_0_child.
    + rewrite IH, (val_parent s a _ _ _ Hp). destruct (decide (val s a π = 0)) as [E|E].
      * by rewrite E.
      * unfold ptr. rewrite Hsame; [done|]. by apply (tree_data s a Htree).
Qed.

(** In the block that the slot's parent names. *)
Lemma val_grow_ptr σ π j d :
  slot_ok σ → parent σ = Some (π, j) → val s a π ≠ 0 → val s a σ = 0 → 0 ≤ b < 2 ^ 64 →
  V s (val s a π) = Some d → length d = BSIZE → V s' (val s a π) = Some (put_ptr d j b) →
  (∀ x, data_block s x → x ≠ val s a π → V s' x = V s x) →
  ∀ τ, slot_ok τ → val s' a τ = if decide (τ = σ) then b else val s a τ.
Proof.
  intros Hσ Hpσ HP Hv Hb64 Hd Hl Hd' Hsame τ. induction τ as [k|τ ρ k Hp IH] using slot_ind'; intros Ht.
  - rewrite decide_False by (by intros <-). done.
  - destruct (parent_ok _ _ _ Hp Ht) as (Hρ & Hk & _ & Hne). specialize (IH Hρ).
    destruct (parent_ok _ _ _ Hpσ Hσ) as (Hπ & Hj & _ & _).
    rewrite (val_parent s' _ _ _ _ Hp). destruct (decide (ρ = σ)) as [->|Hρσ].
    { rewrite IH. unfold ptr. rewrite (proj2 (Z.eqb_neq b 0)), Hzero, get_ptr_zeros by done.
      rewrite decide_False by congruence. symmetry. by eapply val_0_child. }
    rewrite IH, (val_parent s a _ _ _ Hp). destruct (decide (val s a ρ = 0)) as [E|E].
    { rewrite E, decide_False; [done|]. intros ->. rewrite Hp in Hpσ. by simplify_eq. }
    unfold ptr. rewrite (proj2 (Z.eqb_neq _ 0)) by done.
    destruct (decide (ρ = π)) as [->|Hρπ].
    + rewrite Hd', Hd, get_put_ptr by done. destruct (decide (k = j)) as [->|Hkj].
      * by rewrite decide_True by (by eapply parent_inj).
      * rewrite decide_False; [done|]. intros ->. rewrite Hp in Hpσ. congruence.
    + rewrite decide_False by (intros ->; congruence).
      rewrite Hsame; [done|by apply (tree_data s a Htree)|].
      intros E2. apply Hρπ. by apply (tree_inj s a Htree).
Qed.

End grow.

(** ** Growing a file

    [ext s s' a a' Σ n]: the file of [s] with the addresses [a] has become the
    one of [s'] with [a'] by filling some of the slots [Σ] with at most [n]
    fresh blocks.  A fresh data block is zeroed; nothing else changed.  Filling
    the slot [τ] logs the new block, its bitmap block and the block [τ] lies in. *)
Definition touched (s s' : fs) (a a' : list Z) (τ : slot) (x : Z) : Prop :=
  val s a τ = 0 ∧ val s' a' τ ≠ 0 ∧
  (x = val s' a' τ ∨ x = BBLOCK (val s' a' τ) (sb s) ∨ ∃ π j, parent τ = Some (π, j) ∧ x = val s' a' π).

Record ext (s s' : fs) (a a' : list Z) (Σ : list slot) (n : nat) : Prop := {
  ext_sb : sb s' = sb s;
  ext_now : now s' = now s;
  ext_held x : held s' x = held s x;
  ext_disk : disk_ok s';
  ext_inodes : inodes_ok s';
  ext_tree : tree_ok s' a';
  ext_keep τ : slot_ok τ → τ ∉ Σ → val s' a' τ = val s a τ;
  ext_fill τ : slot_ok τ → val s a τ ≠ 0 → val s' a' τ = val s a τ;
  ext_fresh τ : slot_ok τ → val s a τ = 0 → val s' a' τ ≠ 0 → ¬ used s (val s' a' τ);
  ext_data τ : slot_ok τ → leaf τ → val s a τ ≠ 0 → V s' (val s a τ) = V s (val s a τ);
  ext_zero τ : slot_ok τ → leaf τ → val s a τ = 0 → val s' a' τ ≠ 0 →
    V s' (val s' a' τ) = Some (replicate BSIZE 0);
  ext_frame x : data_block s x → (∀ τ, slot_ok τ → val s a τ ≠ x) → V s' x = V s x;
  ext_used x : in_fs s x → used s x → used s' x;
  ext_free : (length (free_blocks s) ≤ length (free_blocks s') + n)%nat;
  ext_log w : w ∈ writes s' → w ∈ writes s ∨
    block_ok w.2 ∧ ∃ τ, τ ∈ Σ ∧ slot_ok τ ∧ touched s s' a a' τ w.1;
}.

Lemma ext_in_fs s s' x : sb s' = sb s → in_fs s' x ↔ in_fs s x.
Proof. intros E. unfold in_fs. by rewrite E. Qed.

Lemma ext_is_bitmap s s' x : sb s' = sb s → is_bitmap s' x ↔ is_bitmap s x.
Proof. intros E. unfold is_bitmap, in_fs. by rewrite E. Qed.

Lemma ext_is_inode s s' x : sb s' = sb s → is_inode s' x ↔ is_inode s x.
Proof. intros E. unfold is_inode. by rewrite E. Qed.

Lemma ext_data_block s s' x :
  sb s' = sb s → (∀ x, in_fs s x → used s x → used s' x) → data_block s x → data_block s' x.
Proof.
  intros E Hu (H1 & H2 & H3 & H4). unfold data_block.
  rewrite (ext_in_fs s s'), (ext_is_bitmap s s'), (ext_is_inode s s') by done. auto.
Qed.

Lemma ext_refl s a Σ n : disk_ok s → inodes_ok s → tree_ok s a → ext s s a a Σ n.
Proof. intros. split; try done; [lia|auto]. Qed.

(** What was logged on the way to an intermediate state. *)
Lemma touched_later s1 s2 s3 a1 a2 a3 Σ n τ x :
  slot_ok τ → ext s2 s3 a2 a3 Σ n → sb s2 = sb s1 → touched s1 s2 a1 a2 τ x → touched s1 s3 a1 a3 τ x.
Proof.
  intros Hτ He Esb (Hz & Hv & Hx). pose proof (ext_fill _ _ _ _ _ _ He τ Hτ Hv) as E.
  split_and!; [done|congruence|]. rewrite E. destruct Hx as [Hx|[Hx|(π & j & Hp & Hx)]]; [by left|by right; left|].
  right; right. exists π, j. split; [done|]. destruct (parent_ok _ _ _ Hp Hτ) as (Hπ & _).
  rewrite (ext_fill _ _ _ _ _ _ He); [done|done|]. intros E0. apply Hv. by eapply val_0_child.
Qed.

Lemma touched_sooner s1 s2 s3 a1 a2 a3 Σ n τ x :
  slot_ok τ → ext s1 s2 a1 a2 Σ n → touched s2 s3 a2 a3 τ x → touched s1 s3 a1 a3 τ x.
Proof.
  intros Hτ He (Hz & Hv & Hx). rewrite (ext_sb _ _ _ _ _ _ He) in Hx. split_and!; [|done|done].
  destruct (decide (val s1 a1 τ = 0)) as [|Hn]; [done|]. by rewrite (ext_fill _ _ _ _ _ _ He) in Hz.
Qed.

Lemma ext_trans s1 s2 s3 a1 a2 a3 Σ1 Σ2 n1 n2 :
  tree_ok s1 a1 → ext s1 s2 a1 a2 Σ1 n1 → ext s2 s3 a2 a3 Σ2 n2 → ext s1 s3 a1 a3 (Σ1 ++ Σ2) (n1 + n2).
Proof.
  intros Ht1 He1 He2. pose proof He1 as [E1 N1 H1 D1 I1 T1 K1 F1 R1 A1 Z1 X1 U1 L1 W1].
  pose proof He2 as [E2 N2 H2 D2 I2 T2 K2 F2 R2 A2 Z2 X2 U2 L2 W2].
  assert (∀ x, in_fs s2 x ↔ in_fs s1 x) as Hin by (intros; by apply ext_in_fs).
  split.
  - congruence.
  - congruence.
  - intros. by rewrite H2.
  - done.
  - done.
  - done.
  - intros τ Hτ Hn. rewrite not_elem_of_app in Hn. destruct Hn. by rewrite K2, K1.
  - intros τ Hτ Hv. rewrite F2 by (done || by rewrite F1). by apply F1.
  - intros τ Hτ Hv Hv3 Hu. destruct (decide (val s2 a2 τ = 0)) as [E|E].
    + apply (R2 τ); [done..|]. apply U1; [|done]. apply Hin.
      apply (ext_in_fs s2 s3); [done|]. by apply (tree_data s3 a3 T2).
    + rewrite F2 in Hu by done. by apply (R1 τ).
  - intros τ Hτ Hl Hv. rewrite <- (F1 τ) at 1 by done. rewrite A2 by (rewrite ?F1; done).
    rewrite F1 by done. by apply A1.
  - intros τ Hτ Hl Hv Hv3. destruct (decide (val s2 a2 τ = 0)) as [E|E]; [by apply Z2|].
    rewrite F2 by done. rewrite A2 by done. by apply Z1.
  - intros x Hx Hnot. rewrite X2; [by apply X1|by apply (ext_data_block s1 s2)|].
    intros τ Hτ E. destruct (decide (val s1 a1 τ = 0)) as [Ez|Ez].
    + assert (x ≠ 0) as Hx0. { intros ->. by apply (Hnot τ). }
      apply (R1 τ Hτ Ez); [congruence|]. rewrite E. apply Hx.
    + rewrite F1 in E by done. by apply (Hnot τ).
  - intros x Hx Hu. apply U2; [by apply Hin|auto].
  - lia.
  - intros w [Hw|(Hok & τ & Hin2 & Hτ & Htc)]%W2; [apply W1 in Hw as [Hw|(Hok & τ & Hin1 & Hτ & Htc)]; [by left|]|];
      right; (split; [done|]); exists τ; rewrite elem_of_app; split_and!; [by left|done| |by right|done|].
    + by eapply touched_later.
    + by eapply touched_sooner.
Qed.

(** States that agree on the disk and on the buffers are interchangeable. *)
Lemma ext_same s s1 s2 a a' Σ n :
  ext s s1 a a' Σ n → same_disk s1 s2 → now s2 = now s1 → writes s2 = writes s1 →
  (∀ x, held s2 x = held s1 x) → ext s s2 a a' Σ n.
Proof.
  intros [E N H D I T K F R A Z X U L W] Hs Hn Hw Hh. pose proof Hs as [Esb HV]. split.
  - congruence.
  - congruence.
  - intros. by rewrite Hh.
  - by apply (same_disk_ok s1).
  - by apply (same_inodes_ok s1).
  - by apply (same_tree_ok s1).
  - intros. rewrite (same_val s1 s2) by done. auto.
  - intros. rewrite (same_val s1 s2) by done. auto.
  - intros τ. rewrite (same_val s1 s2) by done. apply R.
  - intros. rewrite HV. auto.
  - intros τ. rewrite (same_val s1 s2), HV by done. apply Z.
  - intros. rewrite HV. auto.
  - intros. rewrite (same_used s1 s2) by done. auto.
  - by rewrite (same_free s1 s2).
  - intros w. rewrite Hw. intros [?|(? & τ & ? & ? & ? & ? & Hx)]%W; [by left|right]. split; [done|].
    exists τ. unfold touched. rewrite (same_val s1 s2) by done. split_and!; try done.
    destruct Hx as [?|[?|(π & j & ? & ?)]]; auto. right; right. exists π, j. by rewrite (same_val s1 s2).
Qed.

(** The first free block can be used for a file. *)
Lemma fill_block s b rest :
  disk_ok s → free_blocks s = b :: rest →
  in_fs s b ∧ bit_at s b = Some false ∧ b ≠ 0 ∧ ¬ used s b ∧ ¬ data_block s b ∧ 0 ≤ b < 2 ^ 64.
Proof.
  intros Hdisk Hfree.
  assert (b ∈ free_blocks s) as [Hin Hb]%elem_of_free by (rewrite Hfree; set_solver).
  assert (¬ used s b) by (unfold used; congruence).
  pose proof (ok_size s Hdisk). destruct (ok_boot s Hdisk) as [_ Hboot].
  split_and!; try done; [by intros ->|by intros (_ & ? & _)|unfold in_fs in Hin; lia..].
Qed.

(** One slot filled with the first free block. *)
Section fill.
Context (s s' : fs) (a a' : list Z) (σ : slot) (b : Z) (rest : list Z).
Hypothesis Hdisk : disk_ok s.
Hypothesis Hino : inodes_ok s.
Hypothesis Htree : tree_ok s a.
Hypothesis Hfree : free_blocks s = b :: rest.
Hypothesis Hσ : slot_ok σ.
Hypothesis Hσ0 : val s a σ = 0.

Hypothesis Hsb : sb s' = sb s.
Hypothesis Hnow : now s' = now s.
Hypothesis Hheld : ∀ x, held s' x = held s x.
Hypothesis Hdisk' : disk_ok s'.
Hypothesis Hlen : length a' = NADDRS.
Hypothesis Hbits : ∀ x, in_fs s x → bit_at s' x = if decide (x = b) then Some true else bit_at s x.
Hypothesis Hval : ∀ τ, slot_ok τ → val s' a' τ = if decide (τ = σ) then b else val s a τ.
Hypothesis Hzero : V s' b = Some (replicate BSIZE 0).
Hypothesis Hframe : ∀ x, data_block s x → (∀ τ, slot_ok τ → ¬ leaf τ → val s a τ ≠ x) → V s' x = V s x.
Hypothesis Hlog : ∀ w, w ∈ writes s' → w ∈ writes s ∨ block_ok w.2 ∧
  (w.1 = b ∨ w.1 = BBLOCK b (sb s) ∨ ∃ π j, parent σ = Some (π, j) ∧ w.1 = val s a π).

Lemma fill_used x : in_fs s x → used s x → used s' x.
Proof. intros Hin Hu. unfold used. rewrite Hbits by done. by case_decide. Qed.

Lemma fill_tree : tree_ok s' a'.
Proof.
  destruct (fill_block s b rest Hdisk Hfree) as (Hin & Hbit & Hb0 & Hnu & Hnd & _). split; [done|..].
  - intros τ ρ Hτ Hρ. rewrite !Hval by done. repeat case_decide; subst; intros Hv E; try done.
    + destruct (val_not_fresh s a b Htree Hnd ρ Hρ); congruence.
    + by destruct (val_not_fresh s a b Htree Hnd τ Hτ Hv).
    + by apply (tree_inj s a Htree).
  - intros τ Hτ. rewrite Hval by done. case_decide; intros Hv.
    + split_and!.
      * by apply (ext_in_fs s s').
      * unfold used. by rewrite Hbits, decide_True by done.
      * rewrite (ext_is_bitmap s s') by done. by apply free_not_bitmap.
      * rewrite (ext_is_inode s s') by done. intros Hi. by apply Hino in Hi as (_ & ? & _).
    + apply (ext_data_block s s'); [done|apply fill_used|]. by apply (tree_data s a Htree).
Qed.

Lemma fill_ext : ext s s' a a' [σ] 1.
Proof.
  destruct (fill_block s b rest Hdisk Hfree) as (Hin & Hbit & Hb0 & Hnu & Hnd & _). split; try done.
  - intros x Hx. rewrite (ext_is_inode s s') in Hx by done. apply Hino in Hx as (? & ? & ?).
    rewrite (ext_in_fs s s'), (ext_is_bitmap s s') by done. split_and!; [done|by apply fill_used|done].
  - apply fill_tree.
  - intros τ Hτ Hn. rewrite not_elem_of_cons in Hn. by rewrite Hval, decide_False by (done || apply Hn).
  - intros τ Hτ Hv. rewrite Hval, decide_False by (done || by intros ->). done.
  - intros τ Hτ Hv. rewrite Hval by done. by case_decide.
  - intros τ Hτ Hl Hv. apply Hframe; [by apply (tree_data s a Htree)|].
    intros ρ Hρ Hnl E. apply Hnl. by rewrite <- (tree_inj s a Htree τ ρ) by done.
  - intros τ Hτ Hl Hv. rewrite Hval by done. by case_decide.
  - intros x Hx Hn. apply Hframe; auto.
  - apply fill_used.
  - rewrite Hfree. cbn [length].
    assert (free_blocks s' = rest) as ->; [|lia].
    rewrite <- (free_tail s b rest Hfree). unfold free_blocks. rewrite Hsb, list_filter_filter.
    apply filter_ext_in. intros x Hx%elem_of_seqZ. rewrite Hbits by (unfold in_fs; lia).
    case_decide; split; [done|by intros []|done|by intros []].
  - intros w [?|(? & Hw)]%Hlog; [by left|right]. split; [done|]. exists σ. split; [by left|]. split; [done|].
    unfold touched. rewrite Hval, decide_True by done. split_and!; [done|done|].
    destruct Hw as [?|[?|(π & j & Hp & ?)]]; auto. right; right. exists π, j. split; [done|].
    destruct (parent_ok _ _ _ Hp Hσ) as (Hπ & _ & _ & Hne). by rewrite Hval, decide_False.
Qed.
End fill.

(** ** [bmap] *)

Definition with_addrs (a : list Z) (i : inode) : inode := set_di (set_addrs a (di i)) i.

Lemma with_addrs_same i : with_addrs (addrs (di i)) i = i.
Proof. by destruct i as [? ? ? ? ? []]. Qed.

Lemma with_addrs_twice a a' i : with_addrs a' (with_addrs a i) = with_addrs a' i.
Proof. done. Qed.

Lemma alter_insert_eq {A} (f : A → A) (l : list A) k x : l !! k = Some x → alter f k l = <[k := f x]> l.
Proof.
  intros Hx. apply list_eq. intros j. destruct (decide (j = k)) as [->|].
  - rewrite list_lookup_alter_eq, Hx, list_lookup_insert_eq; [done|by eapply lookup_lt_Some].
  - by rewrite list_lookup_alter_ne, list_lookup_insert_ne.
Qed.

Definition no_buffers (s : fs) : Prop := ∀ x, held s x = None.

Lemma no_buffers_ok s : no_buffers s → held_ok s ∧ held_in s.
Proof. intros H. split; intros b [d Hd]; by rewrite H in Hd. Qed.

(** The file [i] at index [ip] of the inode table, with its blocks. *)
Record file_ok (s : fs) (ip : nat) (i : inode) : Prop := {
  file_inode : itable s !! ip = Some i;
  file_disk : disk_ok s;
  file_inodes : inodes_ok s;
  file_tree : tree_ok s (addrs (di i));
  file_hands : no_buffers s;
}.

(** What every step of [bmap] for the slot [σ] gives. *)
Definition filled (s : fs) (ip : nat) (i : inode) (Σ : list slot) (n : nat) (σ : slot) (v : Z) (s' : fs) : Prop :=
  ∃ a', ext s s' (addrs (di i)) a' Σ n ∧ v = val s' a' σ ∧ v ≠ 0 ∧
    itable s' = <[ip := with_addrs a' i]> (itable s).

Lemma filled_file s ip i Σ n σ v s' :
  file_ok s ip i → filled s ip i Σ n σ v s' →
  ∃ a', file_ok s' ip (with_addrs a' i) ∧ ext s s' (addrs (di i)) a' Σ n ∧ v = val s' a' σ ∧ v ≠ 0 ∧
    itable s' = <[ip := with_addrs a' i]> (itable s).
Proof.
  intros [Hi Hd Hin Ht Hh] (a' & He & Hv & Hv0 & Hit). exists a'. split; [|done]. split.
  - rewrite Hit. apply list_lookup_insert_eq. by eapply lookup_lt_Some.
  - apply He.
  - apply He.
  - apply He.
  - intros x. rewrite (ext_held _ _ _ _ _ _ He). apply Hh.
Qed.

Lemma filled_refl s ip i Σ n σ :
  file_ok s ip i → val s (addrs (di i)) σ ≠ 0 → filled s ip i Σ n σ (val s (addrs (di i)) σ) s.
Proof.
  intros [Hi Hd Hin Ht Hh] Hv. exists (addrs (di i)). split_and!; [by apply ext_refl|done|done|].
  by rewrite with_addrs_same, list_insert_id.
Qed.

Lemma the_inode_bind {B} ip i s (k : inode → FS B) : itable s !! ip = Some i → (the_inode ip ≫= k) s = k i s.
Proof. intros Hi. apply bind_run. unfold the_inode. by rewrite Hi. Qed.

Lemma get_addr_bind {B} ip i s a j v (k : Z → FS B) :
  itable s !! ip = Some i → addrs (di i) = a → length a = NADDRS → slot_ok (SAddr j) →
  v = val s a (SAddr j) → (get_addr ip j ≫= k) s = k v s.
Proof.
  intros Hi Ha Hl Hj ->. apply bind_run. unfold get_addr. rewrite (the_inode_bind ip i) by done.
  rewrite Ha. cbn. destruct (lookup_lt_is_Some_2 a (Z.to_nat j)) as [x Hx].
  { rewrite Hl. cbn in Hj. unfold NADDRS, NDIRECT in *. lia. }
  by rewrite Hx.
Qed.

Lemma V_allocated_used b s x : data_block s x → ¬ used s b → in_fs s b → V (allocated b s) x = V s x.
Proof.
  intros (_ & Hu & Hnb & _) Hf Hin. rewrite V_allocated, !decide_False; [done|..].
  - intros ->. apply Hnb. by exists b.
  - intros ->. done.
Qed.

Lemma allocated_log b s w :
  disk_ok s → in_fs s b → w ∈ writes (allocated b s) →
  w ∈ writes s ∨ block_ok w.2 ∧ (w.1 = b ∨ w.1 = BBLOCK b (sb s)).
Proof.
  intros Hd Hb. cbn. rewrite !elem_of_app, !list_elem_of_singleton. intros [[?| ->]| ->]; [by left|right..].
  - split; [|by right]. apply set_bit_ok. unfold bitmap_data.
    destruct (ok_blocks s Hd (BBLOCK b (sb s))) as (d & -> & Hok); [|done]. apply (ok_bitmap s Hd). by exists b.
  - split; [apply zeros_ok|by left].
Qed.

Lemma addr_or_alloc_run ip dv i j s :
  file_ok s ip i → slot_ok (SAddr j) → (1 ≤ length (free_blocks s))%nat →
  ∃ v s', addr_or_alloc ip dv j s = Ok (v, s') ∧ filled s ip i [SAddr j] 1 (SAddr j) v s'.
Proof.
  intros Hf Hj Hfree. pose proof Hf as [Hi Hd Hin Ht Hh].
  unfold addr_or_alloc. rewrite (get_addr_bind ip i s (addrs (di i)) j _ _ Hi eq_refl (tree_len _ _ Ht) Hj eq_refl).
  destruct (Z.eqb_spec (val s (addrs (di i)) (SAddr j)) 0) as [Hz|Hz].
  2: { eexists _, s. split; [done|]. by apply filled_refl. }
  destruct (no_buffers_ok s Hh) as [Hho _].
  pose proof (block_alloc_free dv s Hd Hho) as Ha.
  destruct (free_blocks s) as [|b rest] eqn:Hfb; [cbn in Hfree; lia|]. destruct Ha as [Ha _].
  destruct (fill_block s b rest Hd Hfb) as (Hbin & Hbit & Hb0 & Hnu & Hnd & _).
  rewrite (bind_run _ _ _ _ _ Ha). unfold put_addr, upd_di, upd_inode. rewrite modify_bind.
  eexists b, _. split; [done|]. set (a' := <[Z.to_nat j := b]> (addrs (di i))).
  assert (ext s (allocated b s) (addrs (di i)) a' [SAddr j] 1) as He.
  { apply (fill_ext s (allocated b s) _ a' (SAddr j) b rest); try done.
    - by apply disk_ok_allocated.
    - unfold a'. rewrite length_insert. apply Ht.
    - intros x Hx. by apply bit_at_allocated.
    - apply val_grow_addr; try done; [by rewrite V_allocated, decide_True|].
      intros x Hx. by apply V_allocated_used.
    - by rewrite V_allocated, decide_True.
    - intros x Hx _. by apply V_allocated_used.
    - intros w [?|[? ?]]%(allocated_log b s w Hd Hbin); [by left|right]. split; [done|]. tauto. }
  exists a'. split_and!; [|..|done|].
  - by apply (ext_same s (allocated b s)).
  - cbn. unfold a'. rewrite list_lookup_insert_eq; [done|]. rewrite (tree_len _ _ Ht).
    cbn in Hj. unfold NADDRS, NDIRECT in *. lia.
  - cbn. by rewrite (alter_insert_eq _ _ _ i).
Qed.

Lemma write_back_then {B} P d d' s (v : Z) (k : Z → FS B) :
  held s P = None → V s P = Some d →
  ((store_data P d' ≫= λ _, log_write P ≫= λ _, mret v) ≫= λ x, block_release P ≫= λ _, k x) (opened P d s) =
  k v (logged P d' s).
Proof.
  intros Hh Hv. pose proof (write_back_bind P d d' s (λ _, k v) Hh Hv) as E. revert E.
  unfold mbind, M_bind, mret, M_ret. destruct (store_data P d' (opened P d s)) as [[[] s1]|]; [|done].
  by destruct (log_write P s1) as [[[] s2]|].
Qed.

(** A pointer block of a file. *)
Lemma file_block s ip i σ :
  file_ok s ip i → slot_ok σ → val s (addrs (di i)) σ ≠ 0 →
  ∃ d, V s (val s (addrs (di i)) σ) = Some d ∧ block_ok d ∧ data_block s (val s (addrs (di i)) σ).
Proof.
  intros [Hi Hd Hin Ht Hh] Hσ Hv. pose proof (tree_data _ _ Ht σ Hσ Hv) as Hdb.
  destruct (ok_blocks s Hd (val s (addrs (di i)) σ)) as (d & E & Hok); [apply Hdb|]. by exists d.
Qed.

Lemma held_ok_opened s P d : no_buffers s → data_block s P → held_ok (opened P d s).
Proof.
  intros Hh (_ & Hu & Hnb & _) x Hx. rewrite held_opened in Hx. case_decide as E.
  - subst. by split.
  - rewrite Hh in Hx. by destruct Hx.
Qed.

(** The slot filled in a pointer block. *)
Lemma ptr_fill_ext s ip i σ π j d b rest :
  file_ok s ip i → slot_ok σ → parent σ = Some (π, j) →
  val s (addrs (di i)) π ≠ 0 → V s (val s (addrs (di i)) π) = Some d → block_ok d →
  val s (addrs (di i)) σ = 0 → free_blocks s = b :: rest →
  let s' := logged (val s (addrs (di i)) π) (put_ptr d j b) (allocated b s) in
  ext s s' (addrs (di i)) (addrs (di i)) [σ] 1 ∧ val s' (addrs (di i)) σ = b ∧ b ≠ 0.
Proof.
  intros Hf Hσ Hp HP Hd [Hl Hby] Hz Hfree s'. pose proof Hf as [Hi Hdk Hin Ht Hh].
  set (a := addrs (di i)) in *. set (P := val s a π) in *.
  destruct (parent_ok _ _ _ Hp Hσ) as (Hπ & Hj & Hnl & _).
  destruct (fill_block s b rest Hdk Hfree) as (Hbin & Hbit & Hb0 & Hnu & Hnd & Hb64).
  assert (data_block s P) as HPd by by apply (tree_data _ _ Ht).
  assert (b ≠ P) as HbP by (intros ->; done).
  assert (¬ is_bitmap (allocated b s) P) as HPnb by apply HPd.
  assert (V s' b = Some (replicate BSIZE 0)) as Hzero.
  { unfold s'. rewrite V_logged, decide_False, V_allocated, decide_True by done. done. }
  assert (∀ x, data_block s x → x ≠ P → V s' x = V s x) as Hsame.
  { intros x Hx Hne. unfold s'. rewrite V_logged, decide_False by done. by apply V_allocated_used. }
  assert (∀ τ, slot_ok τ → val s' a τ = if decide (τ = σ) then b else val s a τ) as Hval.
  { apply (val_grow_ptr s s' a b Ht Hb0 Hzero σ π j d); try done.
    fold P. unfold s'. by rewrite V_logged, decide_True. }
  assert (∀ x, in_fs s x → bit_at s' x = if decide (x = b) then Some true else bit_at s x) as Hbits.
  { intros x Hx. unfold s'. rewrite bit_at_logged_other by done. by apply bit_at_allocated. }
  split_and!; [|rewrite Hval, decide_True by done; done|done].
  apply (fill_ext s s' a a σ b rest); try done.
  - unfold s'. apply disk_ok_logged; [by apply disk_ok_allocated|by apply put_ptr_ok|].
    intros x Hx Hor. unfold used. rewrite bit_at_logged_other by done.
    destruct (disk_ok_allocated b s Hdk Hbin Hbit) as [_ _ Hbm Hbt].
    destruct Hor as [Hor| ->]; [by apply Hbm|apply Hbt].
  - apply Ht.
  - intros x Hx Hn. apply Hsame; [done|]. intros ->. by apply (Hn π).
  - intros w. cbn [s' logged set_writes writes]. rewrite elem_of_app, list_elem_of_singleton.
    intros [[?|[? ?]]%(allocated_log b s w Hdk Hbin)| ->]; [by left|right; tauto|right].
    split; [by apply put_ptr_ok|]. right; right. by exists π, j.
Qed.

Lemma ptr_or_alloc_run ip dv i σ π j s :
  file_ok s ip i → slot_ok σ → parent σ = Some (π, j) → val s (addrs (di i)) π ≠ 0 →
  (1 ≤ length (free_blocks s))%nat →
  ∃ v s', ptr_or_alloc dv (val s (addrs (di i)) π) j s = Ok (v, s') ∧ filled s ip i [σ] 1 σ v s'.
Proof.
  intros Hf Hσ Hp HP Hfree. pose proof Hf as [Hi Hd Hin Ht Hh].
  destruct (parent_ok _ _ _ Hp Hσ) as (Hπ & Hj & _ & _).
  destruct (file_block s ip i π Hf Hπ HP) as (d & Hdv & Hdok & HPd).
  assert (val s (addrs (di i)) σ = get_ptr d j) as Hvσ.
  { rewrite (val_parent _ _ _ _ _ Hp). unfold ptr. by rewrite (proj2 (Z.eqb_neq _ 0)), Hdv. }
  set (P := val s (addrs (di i)) π) in *. unfold ptr_or_alloc. rewrite (read_bind dv P d) by done.
  destruct (Z.eqb_spec (get_ptr d j) 0) as [Hz|Hz].
  - assert (same_disk s (opened P d s)) as Hsame by done.
    pose proof (block_alloc_free dv (opened P d s) (same_disk_ok _ _ Hsame Hd) (held_ok_opened s P d Hh HPd)) as Ha.
    rewrite (same_free _ _ Hsame) in Ha.
    destruct (free_blocks s) as [|b rest] eqn:Hfb; [cbn in Hfree; lia|]. destruct Ha as [Ha _].
    destruct (fill_block s b rest Hd Hfb) as (Hbin & _ & _ & Hnu & _ & _).
    destruct (ptr_fill_ext s ip i σ π j d b rest) as (He & Hval & Hb0); try done; [by rewrite Hvσ|].
    rewrite bind_assoc, (bind_run _ _ _ _ _ Ha).
    change (allocated b (opened P d s)) with (opened P d (allocated b s)).
    rewrite write_back_then; [|apply Hh|by rewrite V_allocated_used].
    eexists b, _. split; [done|]. exists (addrs (di i)). split_and!; [done|done|done|].
    by rewrite with_addrs_same, list_insert_id.
  - rewrite ret_bind, release_bind by done. eexists _, s. split; [done|].
    rewrite <- Hvσ. apply filled_refl; [done|]. by rewrite Hvσ.
Qed.

Lemma filled_trans s ip i Σ1 n1 s1 a1 Σ2 n2 σ2 v2 s2 :
  file_ok s ip i → ext s s1 (addrs (di i)) a1 Σ1 n1 →
  itable s1 = <[ip := with_addrs a1 i]> (itable s) →
  filled s1 ip (with_addrs a1 i) Σ2 n2 σ2 v2 s2 → filled s ip i (Σ1 ++ Σ2) (n1 + n2) σ2 v2 s2.
Proof.
  intros Hf He Hit (a2 & He2 & Hv2 & Hv0 & Hit2). exists a2. split_and!; [|done|done|].
  - eapply ext_trans; [apply Hf|done|done].
  - rewrite Hit2, Hit, with_addrs_twice. apply list_insert_insert_eq.
Qed.

Lemma ext_free_le s s' a a' Σ n k :
  ext s s' a a' Σ n → (n + k ≤ length (free_blocks s))%nat → (k ≤ length (free_blocks s'))%nat.
Proof. intros He H. pose proof (ext_free _ _ _ _ _ _ He). lia. Qed.

(** The slots [bmap] fills on the way to data block [bn]. *)
Definition path (bn : Z) : list slot :=
  if bn <? NDIRECT then [SAddr bn]
  else if bn - NDIRECT <? NINDIRECT then [SAddr NDIRECT; SInd (bn - NDIRECT)]
  else [SAddr (NDIRECT + 1); SDbl ((bn - NDIRECT - NINDIRECT) / NINDIRECT); dslot bn].

Lemma path_leaf bn τ : 0 ≤ bn → τ ∈ path bn → leaf τ → τ = dslot bn.
Proof.
  intros H0. unfold path, dslot. repeat zcase; intros Hin Hl; rewrite ?elem_of_cons in Hin;
    destruct_or?; subst; cbn in *; unfold NDIRECT in *; try done; try lia; set_solver.
Qed.

Lemma bmap_run ip bn i s :
  file_ok s ip i → locked i = true → 0 ≤ bn < MAXFILE → (3 ≤ length (free_blocks s))%nat →
  ∃ v s' n, bmap ip bn s = Ok (v, s') ∧ (n ≤ 3)%nat ∧ filled s ip i (path bn) n (dslot bn) v s'.
Proof.
  intros Hf Hlk Hbn Hfree. pose proof (dslot_ok bn Hbn) as [Hok _].
  unfold bmap, holdingsleep. rewrite bind_assoc, (the_inode_bind ip i) by apply Hf.
  rewrite ret_bind, Hlk. cbn [kernel_assert]. rewrite ret_bind, (the_inode_bind ip i) by apply Hf.
  unfold path, dslot in *. destruct (Z.ltb_spec bn NDIRECT) as [H1|H1].
  { destruct (addr_or_alloc_run ip (dev i) i bn s) as (v & s' & E & Hv); [done|done|lia|]. by exists v, s', 1%nat; split_and!; [|lia|]. }
  destruct (Z.ltb_spec (bn - NDIRECT) NINDIRECT) as [H2|H2].
  - destruct (addr_or_alloc_run ip (dev i) i NDIRECT s) as (v1 & s1 & E1 & Hv1); [done|done|lia|].
    rewrite (bind_run _ _ _ _ _ E1).
    destruct (filled_file _ _ _ _ _ _ _ _ Hf Hv1) as (a1 & Hf1 & He1 & -> & Hn1 & Hit1).
    destruct (ptr_or_alloc_run ip (dev i) (with_addrs a1 i) (SInd (bn - NDIRECT)) (SAddr NDIRECT) (bn - NDIRECT) s1)
      as (v2 & s2 & E2 & Hv2); [done..|eapply ext_free_le; [done|lia]|].
    exists v2, s2, 2%nat. split_and!; [done|lia|]. by eapply (filled_trans s ip i [_] 1).
  - destruct (Z.ltb_spec (bn - NDIRECT - NINDIRECT) (NINDIRECT * NINDIRECT)) as [H3|H3].
    2: { unfold MAXFILE in Hbn. lia. }
    set (j := (bn - NDIRECT - NINDIRECT) / NINDIRECT) in *.
    set (k := (bn - NDIRECT - NINDIRECT) mod NINDIRECT) in *. destruct Hok as [Hj Hk].
    destruct (addr_or_alloc_run ip (dev i) i (NDIRECT + 1) s) as (v1 & s1 & E1 & Hv1); [done|done|lia|].
    rewrite (bind_run _ _ _ _ _ E1).
    destruct (filled_file _ _ _ _ _ _ _ _ Hf Hv1) as (a1 & Hf1 & He1 & -> & Hn1 & Hit1).
    destruct (ptr_or_alloc_run ip (dev i) (with_addrs a1 i) (SDbl j) (SAddr (NDIRECT + 1)) j s1)
      as (v2 & s2 & E2 & Hv2); [done..|eapply ext_free_le; [done|lia]|].
    rewrite (bind_run _ _ _ _ _ E2).
    assert (filled s ip i [SAddr (NDIRECT + 1); SDbl j] 2 (SDbl j) v2 s2) as Hv12
      by by eapply (filled_trans s ip i [_] 1).
    destruct (filled_file _ _ _ _ _ _ _ _ Hf Hv12) as (a2 & Hf2 & He2 & -> & Hn2 & Hit2).
    destruct (ptr_or_alloc_run ip (dev i) (with_addrs a2 i) (SDbl2 j k) (SDbl j) k s2)
      as (v3 & s3 & E3 & Hv3); [done..|eapply ext_free_le; [done|lia]|].
    exists v3, s3, 3%nat. split_and!; [done|lia|]. by eapply (filled_trans s ip i [_; _] 2).
Qed.

(** A block that is there is found without a change of the state. *)
Lemma addr_present ip dv i j s :
  file_ok s ip i → slot_ok (SAddr j) → val s (addrs (di i)) (SAddr j) ≠ 0 →
  addr_or_alloc ip dv j s = Ok (val s (addrs (di i)) (SAddr j), s).
Proof.
  intros [Hi _ _ Ht _] Hj Hv. unfold addr_or_alloc.
  rewrite (get_addr_bind ip i s _ j _ _ Hi eq_refl (tree_len _ _ Ht) Hj eq_refl).
  by rewrite (proj2 (Z.eqb_neq _ 0)).
Qed.

Lemma ptr_present ip dv i σ π j s :
  file_ok s ip i → slot_ok σ → parent σ = Some (π, j) → val s (addrs (di i)) σ ≠ 0 →
  val s (addrs (di i)) π ≠ 0 ∧
  ptr_or_alloc dv (val s (addrs (di i)) π) j s = Ok (val s (addrs (di i)) σ, s).
Proof.
  intros Hf Hσ Hp Hv. assert (val s (addrs (di i)) π ≠ 0) as HP by (intros E; by apply Hv; eapply val_0_child).
  split; [done|]. destruct (parent_ok _ _ _ Hp Hσ) as (Hπ & Hj & _ & _).
  destruct (file_block s ip i π Hf Hπ HP) as (d & Hdv & Hdok & HPd).
  assert (val s (addrs (di i)) σ = get_ptr d j) as Hvσ.
  { rewrite (val_parent _ _ _ _ _ Hp). unfold ptr. by rewrite (proj2 (Z.eqb_neq _ 0)), Hdv. }
  unfold ptr_or_alloc. pose proof (file_hands _ _ _ Hf) as Hh. rewrite (read_bind dv _ d) by done.
  rewrite <- Hvσ, (proj2 (Z.eqb_neq _ 0)) by done. rewrite ret_bind. by rewrite release_bind.
Qed.

Lemma bmap_present ip bn i s :
  file_ok s ip i → locked i = true → 0 ≤ bn < MAXFILE → val s (addrs (di i)) (dslot bn) ≠ 0 →
  bmap ip bn s = Ok (val s (addrs (di i)) (dslot bn), s).
Proof.
  intros Hf Hlk Hbn Hv. pose proof (dslot_ok bn Hbn) as [Hok _].
  unfold bmap, holdingsleep. rewrite bind_assoc, (the_inode_bind ip i) by apply Hf.
  rewrite ret_bind, Hlk. cbn [kernel_assert]. rewrite ret_bind, (the_inode_bind ip i) by apply Hf.
  unfold dslot in *. destruct (Z.ltb_spec bn NDIRECT) as [H1|H1]; [by apply addr_present|].
  destruct (Z.ltb_spec (bn - NDIRECT) NINDIRECT) as [H2|H2].
  - destruct (ptr_present ip (dev i) i _ (SAddr NDIRECT) (bn - NDIRECT) s Hf Hok eq_refl Hv) as [HP E].
    by rewrite (bind_run _ _ _ _ _ (addr_present ip (dev i) i NDIRECT s Hf ltac:(done) HP)).
  - destruct (Z.ltb_spec (bn - NDIRECT - NINDIRECT) (NINDIRECT * NINDIRECT)) as [H3|H3].
    2: { unfold MAXFILE in Hbn. lia. }
    set (j := (bn - NDIRECT - NINDIRECT) / NINDIRECT) in *.
    set (k := (bn - NDIRECT - NINDIRECT) mod NINDIRECT) in *.
    destruct (ptr_present ip (dev i) i _ (SDbl j) k s Hf Hok eq_refl Hv) as [HP2 E2].
    destruct (ptr_present ip (dev i) i (SDbl j) (SAddr (NDIRECT + 1)) j s Hf (proj1 Hok) eq_refl HP2) as [HP1 E1].
    rewrite (bind_run _ _ _ _ _ (addr_present ip (dev i) i (NDIRECT + 1) s Hf ltac:(done) HP1)).
    by rewrite (bind_run _ _ _ _ _ E1).
Qed.

End FsTree.
