(* ===== verification/FsFile.v ===== *)
(** * The contents of a file

    A file is a list of bytes.  [inode_read] returns a piece of it and changes
    nothing; [inode_write] overwrites a piece and may extend it; both follow
    the chain of blocks of FsTree.v, allocating what is missing. *)

From S2P Require Import Prelude Mem Words Block Fs FsBlock FsTree.

Module FsFile.
Import Block Fs FsBlock FsTree.

(** ** Bytes and blocks *)

Definition byte_at (s : fs) (a : list Z) (o : Z) : option Z :=
  let b := val s a (dslot (o / BSIZE)) in
  if b =? 0 then None else V s b ≫= λ d, d !! Z.to_nat (o mod BSIZE).

(** The blocks of [a] hold the bytes [c]. *)
Definition rep (s : fs) (a : list Z) (c : list Z) : Prop :=
  ∀ o x, c !! o = Some x → byte_at s a (Z.of_nat o) = Some x.

Lemma byte_at_Some s a o x :
  byte_at s a o = Some x ↔
  val s a (dslot (o / BSIZE)) ≠ 0 ∧ ∃ d, V s (val s a (dslot (o / BSIZE))) = Some d ∧ d !! Z.to_nat (o mod BSIZE) = Some x.
Proof.
  unfold byte_at. destruct (Z.eqb_spec (val s a (dslot (o / BSIZE))) 0) as [E|E].
  - split; [done|]. by intros [? _].
  - rewrite bind_Some. tauto.
Qed.

(** [memmove] into a list, which it may extend. *)
Lemma lookup_splice (c : list Z) off l i :
  (off ≤ length c)%nat →
  put_bytes c off l !! i = if decide (off ≤ i < off + length l)%nat then l !! (i - off)%nat else c !! i.
Proof.
  intros Hl. unfold put_bytes. destruct (decide (i < off)%nat).
  - rewrite lookup_app_l by (rewrite length_take; lia). rewrite decide_False, lookup_take_lt by lia. done.
  - rewrite lookup_app_r by (rewrite length_take; lia). rewrite length_take, Nat.min_l by lia.
    case_decide.
    + by rewrite lookup_app_l by lia.
    + rewrite lookup_app_r by lia. rewrite lookup_drop. f_equal. lia.
Qed.

Lemma length_splice (c : list Z) off l :
  (off ≤ length c)%nat → length (put_bytes c off l) = Nat.max (length c) (off + length l).
Proof. intros. unfold put_bytes. rewrite !length_app, length_take, length_drop. lia. Qed.

Lemma splice_splice (c : list Z) off l1 l2 :
  (off ≤ length c)%nat →
  put_bytes (put_bytes c off l1) (off + length l1) l2 = put_bytes c off (l1 ++ l2).
Proof.
  intros Hc. apply list_eq. intros i. rewrite lookup_splice by (rewrite length_splice; lia).
  rewrite !lookup_splice by lia. rewrite length_app.
  destruct (decide (off ≤ i < off + length l1)%nat).
  - rewrite decide_False by lia. rewrite decide_True by lia. by rewrite lookup_app_l by lia.
  - destruct (decide (off + length l1 ≤ i < off + length l1 + length l2)%nat).
    + rewrite decide_True by lia. rewrite lookup_app_r by lia. f_equal. lia.
    + by rewrite decide_False by lia.
Qed.

(** ** Writing a data block *)

Section leaf_write.
Context (s : fs) (ip : nat) (i : inode) (σ : slot) (d : list Z).
Hypothesis Hf : file_ok s ip i.
Hypothesis Hσ : slot_ok σ.
Hypothesis Hleaf : leaf σ.
Hypothesis Hv : val s (addrs (di i)) σ ≠ 0.
Hypothesis Hd : block_ok d.
#[local] Abbreviation a := (addrs (di i)).
#[local] Abbreviation s' := (logged (val s a σ) d s).

Lemma leaf_write_val τ : slot_ok τ → val s' a τ = val s a τ.
Proof.
  pose proof (file_tree _ _ _ Hf) as Ht.
  induction τ as [k|τ π j Hp IH] using slot_ind'; intros Hτ; [done|].
  destruct (parent_ok _ _ _ Hp Hτ) as (Hπ & _ & Hnl & _).
  rewrite (val_parent _ _ _ _ _ Hp), IH, (val_parent _ _ _ _ _ Hp) by done.
  unfold ptr. destruct (Z.eqb_spec (val s a π) 0) as [|Hn]; [done|].
  rewrite V_logged, decide_False; [done|]. intros E. apply Hnl.
  by rewrite (tree_inj _ _ Ht π σ) by done.
Qed.

Lemma leaf_write_bit x : in_fs s x → bit_at s' x = bit_at s x.
Proof.
  intros Hx. apply bit_at_logged_other; [|done].
  apply (tree_data _ _ (file_tree _ _ _ Hf) σ Hσ Hv).
Qed.

Lemma leaf_write_data_block x : data_block s x → data_block s' x.
Proof.
  intros (H1 & H2 & H3 & H4). split_and!; [done| |done|done]. unfold used. by rewrite leaf_write_bit.
Qed.

Lemma leaf_write_ok : file_ok s' ip i.
Proof.
  destruct Hf as [Hi Hdk Hin Ht Hh]. split; [done|..].
  - apply disk_ok_logged; [done|done|]. intros x Hx Hor. unfold used. rewrite leaf_write_bit by done.
    destruct Hor as [Hor| ->]; [by apply (ok_bitmap s Hdk)|apply (ok_boot s Hdk)].
  - intros x Hx. destruct (Hin x Hx) as (? & Hu & ?). split_and!; [done| |done].
    unfold used. by rewrite leaf_write_bit.
  - split; [apply Ht|..].
    + intros τ ρ Hτ Hρ. rewrite !leaf_write_val by done. by apply Ht.
    + intros τ Hτ. rewrite leaf_write_val by done. intros Hn. apply leaf_write_data_block. by apply Ht.
  - apply Hh.
Qed.

Lemma leaf_write_free : free_blocks s' = free_blocks s.
Proof.
  unfold free_blocks. apply filter_ext_in. intros x Hx%elem_of_seqZ.
  rewrite leaf_write_bit; [done|]. cbn in Hx. unfold in_fs. lia.
Qed.

End leaf_write.

(** ** One turn of the copy loop *)

Lemma same_block (o off : Z) :
  0 ≤ o → 0 ≤ off → o / BSIZE = off / BSIZE → o - off = o mod BSIZE - off mod BSIZE.
Proof.
  intros _ _ E. pose proof (Z.div_mod o BSIZE ltac:(done)). pose proof (Z.div_mod off BSIZE ltac:(done)). lia.
Qed.

Lemma in_block (o off m : Z) :
  0 ≤ off → 0 ≤ m ≤ BSIZE - off mod BSIZE → off ≤ o < off + m → o / BSIZE = off / BSIZE.
Proof.
  intros H0 Hm Ho. pose proof (Z.div_mod off BSIZE ltac:(done)) as E.
  symmetry. apply (Z.div_unique_pos o BSIZE (off / BSIZE) (off mod BSIZE + (o - off))); [|lia].
  pose proof (Z.mod_pos_bound off BSIZE ltac:(done)). lia.
Qed.

(** Writing the bytes [l] at [off] of the file, inside of one block. *)
Lemma rep_write s ip i s1 a1 n c (off : nat) l d :
  file_ok s ip i → ext s s1 (addrs (di i)) a1 (path (off / BSIZE)) n →
  file_ok s1 ip (with_addrs a1 i) →
  rep s (addrs (di i)) c → (off ≤ length c)%nat → length l ≤ BSIZE - off mod BSIZE →
  off / BSIZE < MAXFILE → length c ≤ MAXFILE * BSIZE →
  val s1 a1 (dslot (off / BSIZE)) ≠ 0 → V s1 (val s1 a1 (dslot (off / BSIZE))) = Some d → block_ok d →
  rep (logged (val s1 a1 (dslot (off / BSIZE))) (put_bytes d (Z.to_nat (off mod BSIZE)) l) s1) a1
    (put_bytes c off l).
Proof.
  intros Hf He Hf1 Hrep Hoff Hlen Hbn Hc Hv Hd [Hdl _] o x Ho.
  assert (0 < BSIZE) as HB by done. assert (0 ≤ off / BSIZE) by (apply Z.div_pos; lia).
  pose proof (Z.mod_pos_bound off BSIZE ltac:(done)) as Hr. pose proof (Z.mod_pos_bound o BSIZE ltac:(done)) as Hro.
  destruct (dslot_ok (off / BSIZE)) as [Hσ Hleaf]; [lia|].
  rewrite lookup_splice in Ho by done. apply byte_at_Some.
  assert (∀ τ, slot_ok τ → val (logged (val s1 a1 (dslot (off / BSIZE)))
      (put_bytes d (Z.to_nat (off mod BSIZE)) l) s1) a1 τ = val s1 a1 τ) as Hval.
  { intros τ Hτ. by apply (leaf_write_val s1 ip (with_addrs a1 i)). }
  destruct (decide (o / BSIZE = off / BSIZE)) as [E|E].
  - rewrite E, Hval by done. split; [done|]. eexists. split; [by rewrite V_logged, decide_True|].
    pose proof (same_block o off ltac:(lia) ltac:(lia) E) as Hdiff.
    rewrite lookup_splice by lia. destruct (decide (off ≤ o < off + length l)%nat) as [Hin|Hout].
    + rewrite decide_True by lia. rewrite <- Ho. f_equal. lia.
    + rewrite decide_False by lia. apply Hrep, byte_at_Some in Ho as (Hv0 & d0 & Hd0 & Hx). rewrite E in Hv0, Hd0.
      rewrite (ext_fill _ _ _ _ _ _ He) in Hd by done. rewrite (ext_data _ _ _ _ _ _ He) in Hd by done. congruence.
  - rewrite decide_False in Ho. 2: { intros Hin. apply E. apply (in_block o off (length l)); lia. }
    pose proof (lookup_lt_Some _ _ _ Ho) as Hlt. apply Hrep, byte_at_Some in Ho as (Hv0 & d0 & Hd0 & Hx).
    assert (0 ≤ o / BSIZE < MAXFILE) as Hbo.
    { split; [apply Z.div_pos; lia|apply Z.div_lt_upper_bound; lia]. }
    destruct (dslot_ok (o / BSIZE) Hbo) as [Hσo Hleafo].
    rewrite Hval by done. rewrite (ext_fill _ _ _ _ _ _ He) by done. split; [done|]. exists d0. split; [|done].
    rewrite V_logged, decide_False; [by rewrite (ext_data _ _ _ _ _ _ He)|].
    intros Eq. apply E. apply dslot_inj; [lia|lia|]. apply (tree_inj _ _ (ext_tree _ _ _ _ _ _ He)); [done|done| |];
      by rewrite (ext_fill _ _ _ _ _ _ He).
Qed.

(** ** Other files

    The blocks of the data area that the file does not own keep their contents
    and stay outside of it. *)
Definition isolated (s s' : fs) (a a' : list Z) : Prop :=
  ∀ x, data_block s x → (∀ τ, slot_ok τ → val s a τ ≠ x) →
    V s' x = V s x ∧ data_block s' x ∧ (∀ τ, slot_ok τ → val s' a' τ ≠ x).

Lemma isolated_refl s a : isolated s s a a.
Proof. by intros x. Qed.

Lemma isolated_trans s1 s2 s3 a1 a2 a3 :
  isolated s1 s2 a1 a2 → isolated s2 s3 a2 a3 → isolated s1 s3 a1 a3.
Proof.
  intros H1 H2 x Hx Hn. destruct (H1 x Hx Hn) as (E1 & Hx1 & Hn1).
  destruct (H2 x Hx1 Hn1) as (E2 & Hx2 & Hn2). split_and!; [congruence|done|done].
Qed.

Lemma isolated_ext s s' a a' Σ n : ext s s' a a' Σ n → isolated s s' a a'.
Proof.
  intros He x Hx Hn. split_and!.
  - by apply (ext_frame _ _ _ _ _ _ He).
  - eapply ext_data_block; [apply He|apply He|done].
  - intros τ Hτ E. destruct (decide (val s a τ = 0)) as [Ez|Ez].
    + apply (ext_fresh _ _ _ _ _ _ He τ Hτ Ez); rewrite E; [|apply Hx]. intros ->. by apply (Hn τ).
    + rewrite (ext_fill _ _ _ _ _ _ He) in E by done. by apply (Hn τ).
Qed.

Lemma isolated_leaf s ip i σ d :
  file_ok s ip i → slot_ok σ → leaf σ → val s (addrs (di i)) σ ≠ 0 →
  isolated s (logged (val s (addrs (di i)) σ) d s) (addrs (di i)) (addrs (di i)).
Proof.
  intros Hf Hσ Hl Hv x Hx Hn. split_and!.
  - rewrite V_logged, decide_False; [done|]. intros ->. by apply (Hn σ).
  - by apply (leaf_write_data_block s ip i σ d Hf Hσ Hv).
  - intros τ Hτ. rewrite (leaf_write_val s ip i σ d) by done. by apply Hn.
Qed.

(** ** What a write logs

    [grown s s' a a' lo hi]: the data blocks [lo] to [hi] of the file were
    written.  The slots on the way to them may have been filled, with blocks
    that were free; every logged block is one of these data blocks or belongs
    to a slot that was filled. *)
Definition wrote (s s' : fs) (a a' : list Z) (bn x : Z) : Prop :=
  x = val s' a' (dslot bn) ∨ ∃ τ, τ ∈ path bn ∧ slot_ok τ ∧ touched s s' a a' τ x.

Record grown (s s' : fs) (a a' : list Z) (lo hi : Z) : Prop := {
  gr_sb : sb s' = sb s;
  gr_fill τ : slot_ok τ → val s a τ ≠ 0 → val s' a' τ = val s a τ;
  gr_keep τ : slot_ok τ → (∀ bn, lo ≤ bn ≤ hi → τ ∉ path bn) → val s' a' τ = val s a τ;
  gr_fresh τ : slot_ok τ → val s a τ = 0 → val s' a' τ ≠ 0 → in_fs s (val s' a' τ) ∧ ¬ used s (val s' a' τ);
  gr_used x : in_fs s x → used s x → used s' x;
  gr_log w : w ∈ writes s' → w ∈ writes s ∨
    block_ok w.2 ∧ ∃ bn, lo ≤ bn ≤ hi ∧ val s' a' (dslot bn) ≠ 0 ∧ wrote s s' a a' bn w.1;
}.

Lemma grown_refl s a lo hi : grown s s a a lo hi.
Proof. split; try done. auto. Qed.

Lemma touched_grown_later s1 s2 s3 a1 a2 a3 lo hi τ x :
  slot_ok τ → grown s2 s3 a2 a3 lo hi → touched s1 s2 a1 a2 τ x → touched s1 s3 a1 a3 τ x.
Proof.
  intros Hτ He (Hz & Hv & Hx). pose proof (gr_fill _ _ _ _ _ _ He τ Hτ Hv) as E.
  split_and!; [done|congruence|]. rewrite E. destruct Hx as [Hx|[Hx|(π & j & Hp & Hx)]]; [by left|by right; left|].
  right; right. exists π, j. split; [done|]. destruct (parent_ok _ _ _ Hp Hτ) as (Hπ & _).
  rewrite (gr_fill _ _ _ _ _ _ He); [done|done|]. intros E0. apply Hv. by eapply val_0_child.
Qed.

Lemma touched_grown_sooner s1 s2 s3 a1 a2 a3 lo hi τ x :
  slot_ok τ → grown s1 s2 a1 a2 lo hi → touched s2 s3 a2 a3 τ x → touched s1 s3 a1 a3 τ x.
Proof.
  intros Hτ He (Hz & Hv & Hx). rewrite (gr_sb _ _ _ _ _ _ He) in Hx. split_and!; [|done|done].
  destruct (decide (val s1 a1 τ = 0)) as [|Hn]; [done|]. by rewrite (gr_fill _ _ _ _ _ _ He) in Hz.
Qed.

Lemma grown_trans s1 s2 s3 a1 a2 a3 lo m m' hi :
  lo ≤ m' → m ≤ hi → 0 ≤ lo → hi < MAXFILE →
  grown s1 s2 a1 a2 lo m → grown s2 s3 a2 a3 m' hi → grown s1 s3 a1 a3 lo hi.
Proof.
  intros Hlo Hhi H0 HM G1 G2. pose proof G1 as [E1 F1 K1 R1 U1 W1]. pose proof G2 as [E2 F2 K2 R2 U2 W2].
  split.
  - congruence.
  - intros τ Hτ Hv. rewrite F2 by (done || by rewrite F1). by apply F1.
  - intros τ Hτ Hn. rewrite K2, K1; [done|done|..|done|]; intros bn Hbn; apply Hn; lia.
  - intros τ Hτ Hv Hv3. destruct (decide (val s2 a2 τ = 0)) as [E|E].
    + destruct (R2 τ Hτ E Hv3) as [Hin Hu]. apply (ext_in_fs s1 s2 _ E1) in Hin. split; [done|]. auto.
    + rewrite F2 by done. by apply R1.
  - intros x Hx Hu. apply U2; [by apply (ext_in_fs s1 s2)|auto].
  - intros w [Hw|(Hok & bn & Hbn & Hv & Hwr)]%W2; [apply W1 in Hw as [Hw|(Hok & bn & Hbn & Hv & Hwr)]; [by left|]|];
      right; (split; [done|]); exists bn; (split; [lia|]).
    + destruct (dslot_ok bn) as [Hσ _]; [lia|]. rewrite F2 by done. split; [done|].
      destruct Hwr as [->|(τ & Hin & Hτ & Ht)]; [left; by rewrite F2|right].
      exists τ. split_and!; [done|done|]. by eapply touched_grown_later.
    + split; [done|]. destruct Hwr as [->|(τ & Hin & Hτ & Ht)]; [by left|right].
      exists τ. split_and!; [done|done|]. by eapply touched_grown_sooner.
Qed.

Lemma grown_turn s ip i s1 a1 bn n d :
  ext s s1 (addrs (di i)) a1 (path bn) n → file_ok s1 ip (with_addrs a1 i) → 0 ≤ bn < MAXFILE →
  val s1 a1 (dslot bn) ≠ 0 → block_ok d →
  grown s (logged (val s1 a1 (dslot bn)) d s1) (addrs (di i)) a1 bn bn.
Proof.
  intros He Hf1 Hbn Hv Hd. destruct (dslot_ok bn Hbn) as [Hσ Hl].
  assert (∀ τ, slot_ok τ → val (logged (val s1 a1 (dslot bn)) d s1) a1 τ = val s1 a1 τ) as Hval.
  { intros τ Hτ. by apply (leaf_write_val s1 ip (with_addrs a1 i)). }
  pose proof He as [E N H D I T K F R A Z X U L W]. split.
  - done.
  - intros τ Hτ Hn. rewrite Hval by done. by apply F.
  - intros τ Hτ Hn. rewrite Hval by done. apply K; [done|]. apply Hn. lia.
  - intros τ Hτ Hz. rewrite Hval by done. intros Hn. split; [|by apply R].
    apply (ext_in_fs s s1 _ E). by apply (tree_data _ _ T τ Hτ).
  - intros x Hx Hu. unfold used. rewrite (leaf_write_bit s1 ip (with_addrs a1 i)); try done; [by apply U|].
    by apply (ext_in_fs s s1).
  - intros w. cbn [logged set_writes writes]. rewrite elem_of_app, list_elem_of_singleton. intros [Hw| ->].
    + apply W in Hw as [Hw|(Hok & τ & Hin & Hτ & Ht1 & Ht2 & Ht3)]; [by left|right]. split; [done|]. exists bn.
      rewrite Hval by done. split_and!; [lia..|done|]. right. exists τ. split_and!; [done|done|].
      unfold touched. rewrite Hval by done. split_and!; [done|done|].
      destruct Ht3 as [Hx|[Hx|(π & j & Hp & Hx)]]; [by left|by right; left|]. right; right. exists π, j.
      split; [done|]. by rewrite Hval by (by destruct (parent_ok _ _ _ Hp Hτ)).
    + right. split; [done|]. exists bn. rewrite Hval by done. split_and!; [lia..|done|]. left. by rewrite Hval.
Qed.

(** ** The loops *)

Lemma put_bytes_ok d r l :
  block_ok d → (r + length l ≤ BSIZE)%nat → Forall byte_ok l → block_ok (put_bytes d r l).
Proof.
  intros [Hd Hb] Hr Hl. split; [by rewrite length_put_bytes by (by rewrite Hd)|].
  unfold put_bytes. rewrite !Forall_app. split_and!; [by apply Forall_take|done|by apply Forall_drop].
Qed.

Lemma write_turn ip i s c (off : nat) l :
  file_ok s ip i → locked i = true → rep s (addrs (di i)) c → (off ≤ length c)%nat →
  0 < length l ≤ BSIZE - off mod BSIZE → off + length l ≤ MAXFILE * BSIZE → length c ≤ MAXFILE * BSIZE →
  Forall byte_ok l → (3 ≤ length (free_blocks s))%nat →
  ∃ v s1 d a', bmap ip (off / BSIZE) s = Ok (v, s1) ∧ v ≠ 0 ∧ V s1 v = Some d ∧ held s1 v = None ∧
    let s2 := logged v (put_bytes d (Z.to_nat (off mod BSIZE)) l) s1 in
    file_ok s2 ip (with_addrs a' i) ∧ rep s2 a' (put_bytes c off l) ∧
    itable s2 = <[ip := with_addrs a' i]> (itable s) ∧ sb s2 = sb s ∧ now s2 = now s ∧
    isolated s s2 (addrs (di i)) a' ∧ grown s s2 (addrs (di i)) a' (off / BSIZE) (off / BSIZE) ∧
    (length (free_blocks s) ≤ length (free_blocks s2) + 3)%nat.
Proof.
  intros Hf Hlk Hrep Hoff Hlen Hmax Hc Hl Hfree.
  pose proof (Z.mod_pos_bound off BSIZE ltac:(done)) as Hr.
  assert (0 ≤ off / BSIZE < MAXFILE) as Hbn by (split; [apply Z.div_pos; lia|apply Z.div_lt_upper_bound; lia]).
  destruct (dslot_ok _ Hbn) as [Hσ Hleaf].
  destruct (bmap_run ip (off / BSIZE) i s Hf Hlk Hbn Hfree) as (v & s1 & n & E & Hn & Hfill).
  destruct (filled_file _ _ _ _ _ _ _ _ Hf Hfill) as (a1 & Hf1 & He & -> & Hv & Hit).
  destruct (file_block s1 ip (with_addrs a1 i) _ Hf1 Hσ Hv) as (d & Hd & Hdok & _).
  exists (val s1 a1 (dslot (off / BSIZE))), s1, d, a1. split_and!; [done|done|done|apply Hf1|].
  assert (block_ok (put_bytes d (Z.to_nat (off mod BSIZE)) l)) as Hpok by (apply put_bytes_ok; [done|lia|done]).
  intros s2. split_and!.
  - by apply (leaf_write_ok s1 ip (with_addrs a1 i)).
  - eapply (rep_write s ip i s1 a1 n c off l d); done || lia.
  - done.
  - apply (ext_sb _ _ _ _ _ _ He).
  - apply (ext_now _ _ _ _ _ _ He).
  - eapply isolated_trans; [by eapply isolated_ext|]. by apply (isolated_leaf s1 ip (with_addrs a1 i)).
  - by eapply grown_turn.
  - pose proof (ext_free _ _ _ _ _ _ He).
    unfold s2. rewrite (leaf_write_free s1 ip (with_addrs a1 i)); done || lia.
Qed.

Lemma write_loop_run ip dv src (t : nat) :
  Forall byte_ok src → ∀ i s c (tot off : nat) k hi,
  file_ok s ip i → locked i = true → rep s (addrs (di i)) c → (off ≤ length c)%nat → (tot ≤ length src)%nat →
  off + (length src - tot) ≤ MAXFILE * BSIZE → length c ≤ MAXFILE * BSIZE →
  ((tot < length src)%nat → off mod BSIZE + (length src - tot) ≤ t * BSIZE) → (t < k)%nat →
  (3 * t ≤ length (free_blocks s))%nat → off + (length src - tot) ≤ (hi + 1) * BSIZE → hi < MAXFILE →
  ∃ s' a', write_loop ip dv src (length src) tot off k s = Ok (inr (off + (length src - tot)), s') ∧
    file_ok s' ip (with_addrs a' i) ∧ rep s' a' (put_bytes c off (drop tot src)) ∧
    itable s' = <[ip := with_addrs a' i]> (itable s) ∧ sb s' = sb s ∧ now s' = now s ∧
    isolated s s' (addrs (di i)) a' ∧ grown s s' (addrs (di i)) a' (off / BSIZE) hi ∧
    (length (free_blocks s) ≤ length (free_blocks s') + 3 * t)%nat.
Proof.
  intros Hsrc. induction t as [|t IH]; intros i s c tot off k hi Hf Hlk Hrep Hoff Htot Hmax Hc Ht Hk Hfree Hhi HhM;
    (destruct k as [|k]; [lia|]); cbn [write_loop];
    destruct (Z.ltb_spec tot (length src)) as [Hlt|Hge]; pose proof (Z.mod_pos_bound off BSIZE ltac:(done)) as Hr.
  1: lia.
  1, 3: exists s, (addrs (di i)); replace tot with (length src) by lia;
    rewrite drop_all, with_addrs_same, list_insert_id by apply Hf; unfold put_bytes;
    rewrite app_nil_l, Nat.add_0_r, take_drop, Z.sub_diag, Z.add_0_r; split_and!; try done; [apply grown_refl|lia].
  set (m := Z.min (length src - tot) (BSIZE - off mod BSIZE)).
  set (l := get_bytes src tot (Z.to_nat m)).
  assert (length l = Z.to_nat m) as Hl by (unfold l; rewrite length_get_bytes; lia).
  destruct (write_turn ip i s c off l) as (v & s1 & d & a1 & E & Hv & Hd & Hh & Hpost); try done; [lia|lia| |lia|].
  { unfold l, get_bytes. by apply Forall_take, Forall_drop. }
  destruct Hpost as (Hf2 & Hrep2 & Hit2 & Hsb2 & Hnow2 & Hiso2 & Hgr2 & Hfree2).
  rewrite (bind_run _ _ _ _ _ E), (proj2 (Z.eqb_neq v 0)) by done.
  rewrite (read_bind dv v d) by done. rewrite Nat2Z.id. fold m l.
  rewrite write_back_bind by done.
  replace (tot + m) with (Z.of_nat (tot + Z.to_nat m)) by lia.
  replace (off + m) with (Z.of_nat (off + Z.to_nat m)) by lia.
  edestruct (IH (with_addrs a1 i) _ _ (tot + Z.to_nat m)%nat (off + Z.to_nat m)%nat k hi Hf2 Hlk Hrep2)
    as (s' & a' & E' & Hf' & Hrep' & Hit' & Hsb' & Hnow' & Hiso' & Hgr' & Hfr'); try lia.
  { rewrite length_splice by done. lia. }
  { rewrite length_splice by done. lia. }
  { intros Hlt'. assert (m = BSIZE - off mod BSIZE) as Em by lia.
    rewrite Nat2Z.inj_add, Z2Nat.id by lia. rewrite Em.
    replace (off + (BSIZE - off mod BSIZE)) with ((off / BSIZE + 1) * BSIZE).
    - rewrite Z.mod_mul by done. lia.
    - pose proof (Z.div_mod off BSIZE ltac:(done)). lia. }
  exists s', a'. split_and!.
  - rewrite E'. match goal with |- Ok (inr ?x, _) = Ok (inr ?y, _) => by replace x with y by lia end.
  - done.
  - assert (l ++ drop (tot + Z.to_nat m) src = drop tot src) as <-.
    2: { rewrite <- splice_splice, Hl by done. done. }
    unfold l, get_bytes. rewrite <- (drop_drop src). apply take_drop.
  - rewrite Hit', Hit2, with_addrs_twice. apply list_insert_insert_eq.
  - congruence.
  - congruence.
  - by eapply isolated_trans.
  - assert (0 < BSIZE) by done. eapply grown_trans; [| | |exact HhM|exact Hgr2|exact Hgr'].
    + apply Z.div_le_mono; lia.
    + apply Z.lt_succ_r, Z.div_lt_upper_bound; lia.
    + apply Z.div_pos; lia.
  - lia.
Qed.

Lemma read_turn s ip i c (off : nat) (m : Z) :
  file_ok s ip i → rep s (addrs (di i)) c → 0 < m ≤ BSIZE - off mod BSIZE → off + m ≤ length c →
  length c ≤ MAXFILE * BSIZE →
  let v := val s (addrs (di i)) (dslot (off / BSIZE)) in
  0 ≤ off / BSIZE < MAXFILE ∧ v ≠ 0 ∧ ∃ d, V s v = Some d ∧
    get_bytes d (Z.to_nat (off mod BSIZE)) (Z.to_nat m) = get_bytes c off (Z.to_nat m).
Proof.
  intros Hf Hrep Hm Hoff Hc v. pose proof (Z.mod_pos_bound off BSIZE ltac:(done)) as Hr.
  assert (0 ≤ off / BSIZE < MAXFILE) as Hbn by (split; [apply Z.div_pos; lia|apply Z.div_lt_upper_bound; lia]).
  split; [done|]. destruct (dslot_ok _ Hbn) as [Hσ _].
  destruct (lookup_lt_is_Some_2 c off) as [x Hx]; [lia|].
  pose proof (Hrep off x Hx) as (Hv & d & Hd & _)%byte_at_Some. split; [done|]. exists d. split; [done|].
  destruct (file_block s ip i _ Hf Hσ Hv) as (d' & Hd' & [Hl _] & _). simplify_eq.
  apply list_eq. intros j. rewrite !lookup_get_bytes. case_decide as Hj; [|done].
  destruct (lookup_lt_is_Some_2 c (off + j)) as [y Hy]; [lia|]. rewrite Hy.
  apply Hrep, byte_at_Some in Hy as (_ & d2 & Hd2 & Hy).
  assert ((off + j)%nat / BSIZE = off / BSIZE) as E by (apply (in_block _ off m); lia).
  rewrite E in Hd2. simplify_eq. rewrite <- Hy. f_equal.
  pose proof (same_block (off + j)%nat off ltac:(lia) ltac:(lia) E). lia.
Qed.

Lemma read_loop_run ip dv i s c (n : nat) (t : nat) :
  file_ok s ip i → locked i = true → rep s (addrs (di i)) c → length c ≤ MAXFILE * BSIZE →
  ∀ (tot off : nat) acc k, (tot ≤ n)%nat → (off + (n - tot) ≤ length c)%nat →
  ((tot < n)%nat → off mod BSIZE + (n - tot) ≤ t * BSIZE) → (t < k)%nat →
  read_loop ip dv n tot off acc k s = Ok ((Z.of_nat n, acc ++ get_bytes c off (n - tot)), s).
Proof.
  intros Hf Hlk Hrep Hc. induction t as [|t IH]; intros tot off acc k Htot Hoff Ht Hk;
    (destruct k as [|k]; [lia|]); cbn [read_loop];
    destruct (Z.ltb_spec tot n) as [Hlt|Hge]; pose proof (Z.mod_pos_bound off BSIZE ltac:(done)) as Hr.
  1: lia.
  1, 3: replace tot with n by lia; rewrite Nat.sub_diag; unfold get_bytes; by rewrite take_0, app_nil_r.
  set (m := Z.min (n - tot) (BSIZE - off mod BSIZE)).
  destruct (read_turn s ip i c off m) as (Hbn & Hv & d & Hd & Hget); [done|done|lia|lia|done|].
  rewrite (bind_run _ _ _ _ _ (bmap_present ip _ i s Hf Hlk Hbn Hv)), (proj2 (Z.eqb_neq _ 0)) by done.
  pose proof (file_hands _ _ _ Hf) as Hh. rewrite (read_bind dv _ d) by done. fold m. rewrite release_bind by done.
  rewrite Hget.
  replace (tot + m) with (Z.of_nat (tot + Z.to_nat m)) by lia.
  replace (off + m) with (Z.of_nat (off + Z.to_nat m)) by lia.
  rewrite IH; [|lia|lia| |lia].
  - rewrite <- (assoc_L (++)). unfold get_bytes. rewrite <- (drop_drop c), take_take_drop.
    by replace (Z.to_nat m + (n - (tot + Z.to_nat m)))%nat with (n - tot)%nat by lia.
  - intros Hlt'. assert (m = BSIZE - off mod BSIZE) as Em by lia.
    rewrite Nat2Z.inj_add, Z2Nat.id by lia. rewrite Em.
    replace (off + (BSIZE - off mod BSIZE)) with ((off / BSIZE + 1) * BSIZE).
    + rewrite Z.mod_mul by done. lia.
    + pose proof (Z.div_mod off BSIZE ltac:(done)). lia.
Qed.

(** ** Writing the inode back *)

Lemma put_le_ok w d off v : block_ok d → (off + w ≤ BSIZE)%nat → block_ok (put_le w d off v).
Proof.
  intros Hd Ho. apply put_bytes_ok; [done|by rewrite length_le_bytes|apply le_bytes_range].
Qed.

Lemma put_addrs_ok d off l : block_ok d → (off + 8 * length l ≤ BSIZE)%nat → block_ok (put_addrs d off l).
Proof.
  revert d off. induction l as [|x l IH]; intros d off Hd Ho; cbn in *; [done|].
  apply IH; [apply put_le_ok; [done|lia]|lia].
Qed.

Lemma ioff_range inum : (ioff inum + 128 ≤ BSIZE)%nat.
Proof.
  unfold ioff, DINODE_SIZE. pose proof (Z.mod_pos_bound inum IPB ltac:(done)) as H.
  unfold IPB, DINODE_SIZE, BSIZE in *. change (2048%nat / 128%nat) with 16 in *. lia.
Qed.

Lemma put_dinode_ok d off t x :
  block_ok d → (off + 128 ≤ BSIZE)%nat → length (addrs x) = NADDRS → block_ok (put_dinode d off t x).
Proof.
  intros Hd Ho Hl. unfold put_dinode.
  apply put_addrs_ok; [|rewrite Hl; unfold NADDRS; lia].
  repeat (apply put_le_ok; [|lia]). done.
Qed.

(** The inode block of an inode. *)
Lemma inode_block s i :
  disk_ok s → inodes_ok s → 0 ≤ inum i < ninodes (sb s) →
  is_inode s (IBLOCK (inum i) (sb s)) ∧ ∃ d, V s (IBLOCK (inum i) (sb s)) = Some d ∧ block_ok d.
Proof.
  intros Hd Hin Hn. assert (is_inode s (IBLOCK (inum i) (sb s))) as Hi by by exists (inum i).
  split; [done|]. apply (ok_blocks s Hd), (Hin _ Hi).
Qed.

Lemma inode_update_run s ip i d :
  itable s !! ip = Some i → no_buffers s → V s (IBLOCK (inum i) (sb s)) = Some d →
  inode_update ip s =
    Ok (tt, logged (IBLOCK (inum i) (sb s)) (put_dinode d (ioff (inum i)) (now s) (di i)) s).
Proof.
  intros Hi Hh Hd. unfold inode_update. rewrite (the_inode_bind ip i) by done. unfold get_sb. rewrite gets_bind.
  rewrite (read_bind _ _ d) by done. rewrite gets_bind. by apply write_back_run.
Qed.

(** A write to an inode block does not concern the blocks of a file. *)
Section inode_write_back.
Context (s : fs) (x : Z) (d : list Z).
Hypothesis Hdk : disk_ok s.
Hypothesis Hin : inodes_ok s.
Hypothesis Hx : is_inode s x.
Hypothesis Hd : block_ok d.

Lemma ino_write_bit y : in_fs s y → bit_at (logged x d s) y = bit_at s y.
Proof. intros Hy. apply bit_at_logged_other; [|done]. by apply Hin. Qed.

Lemma ino_write_disk : disk_ok (logged x d s) ∧ inodes_ok (logged x d s).
Proof.
  split.
  - apply disk_ok_logged; [done|done|]. intros y Hy Hor. unfold used. rewrite ino_write_bit by done.
    destruct Hor as [Hor| ->]; [by apply (ok_bitmap s Hdk)|apply (ok_boot s Hdk)].
  - intros y Hy. destruct (Hin y Hy) as (? & Hu & ?). split_and!; [done| |done].
    unfold used. by rewrite ino_write_bit.
Qed.

Lemma ino_write_V y : data_block s y → V (logged x d s) y = V s y.
Proof. intros (_ & _ & _ & Hn). rewrite V_logged, decide_False; [done|]. by intros ->. Qed.

Lemma ino_write_val a τ : tree_ok s a → slot_ok τ → val (logged x d s) a τ = val s a τ.
Proof.
  intros Ht. induction τ as [k|τ π j Hp IH] using slot_ind'; intros Hτ; [done|].
  destruct (parent_ok _ _ _ Hp Hτ) as (Hπ & _ & _ & _).
  rewrite (val_parent _ _ _ _ _ Hp), IH, (val_parent _ _ _ _ _ Hp) by done.
  unfold ptr. destruct (Z.eqb_spec (val s a π) 0) as [|Hn]; [done|].
  rewrite ino_write_V; [done|]. by apply (tree_data _ _ Ht).
Qed.

Lemma ino_write_data_block y : data_block s y → data_block (logged x d s) y.
Proof. intros (H1 & H2 & H3 & H4). split_and!; [done| |done|done]. unfold used. by rewrite ino_write_bit. Qed.

Lemma ino_write_tree a : tree_ok s a → tree_ok (logged x d s) a.
Proof.
  intros Ht. split; [apply Ht|..].
  - intros τ ρ Hτ Hρ. rewrite !(ino_write_val a) by done. by apply Ht.
  - intros τ Hτ. rewrite (ino_write_val a) by done. intros Hn. apply ino_write_data_block. by apply Ht.
Qed.

Lemma ino_write_rep a c : tree_ok s a → length c ≤ MAXFILE * BSIZE → rep s a c → rep (logged x d s) a c.
Proof.
  intros Ht Hc Hrep o y Hy. pose proof (lookup_lt_Some _ _ _ Hy) as Hlt.
  apply Hrep, byte_at_Some in Hy as (Hv & b & Hb & Hy). apply byte_at_Some. assert (0 < BSIZE) by done.
  destruct (dslot_ok (o / BSIZE)) as [Hσ _]; [split; [apply Z.div_pos; lia|apply Z.div_lt_upper_bound; lia]|].
  rewrite (ino_write_val a) by done. split; [done|]. exists b. split; [|done].
  rewrite ino_write_V; [done|]. by apply (tree_data _ _ Ht).
Qed.

Lemma ino_write_isolated a : tree_ok s a → isolated s (logged x d s) a a.
Proof.
  intros Ht y Hy Hn. split_and!; [by apply ino_write_V|by apply ino_write_data_block|].
  intros τ Hτ. rewrite (ino_write_val a) by done. by apply Hn.
Qed.

End inode_write_back.

(** ** Files as lists of bytes *)

(** The file at index [ip] of the inode table is locked, is not a device and
    has the contents [c]. *)
Record file (s : fs) (ip : nat) (c : list Z) (i : inode) : Prop := {
  f_ok : file_ok s ip i;
  f_locked : locked i = true;
  f_regular : S_ISCHR (mode (di i)) = false;
  f_inum : 0 ≤ inum i < ninodes (sb s);
  f_size : size (di i) = length c;
  f_max : length c ≤ MAXFILE * BSIZE;
  f_rep : rep s (addrs (di i)) c;
}.

Lemma MAXFILE_val : MAXFILE * BSIZE = 134758400.
Proof. reflexivity. Qed.

Lemma sizes_small (z : Z) : 0 ≤ z ≤ MAXFILE * BSIZE → u64 z = z.
Proof. intros H. rewrite MAXFILE_val in H. apply wrap_small. lia. Qed.

(** The pieces of [inode_read] and [inode_write] that come before the loop. *)
Lemma locked_bind {B} ip i s (k : inode → FS B) :
  itable s !! ip = Some i → locked i = true →
  (holdingsleep ip ≫= λ h, kernel_assert h ≫= λ _, the_inode ip ≫= k) s = k i s.
Proof.
  intros Hi Hlk. unfold holdingsleep. rewrite bind_assoc, (the_inode_bind ip i), ret_bind by done.
  rewrite Hlk. cbn [kernel_assert]. by rewrite ret_bind, (the_inode_bind ip i).
Qed.

Lemma read_past_end dev_read s ip c i off n :
  file s ip c i → length c < off < 2 ^ 63 → inode_read dev_read ip off n s = Ok ((- EDOM, []), s).
Proof.
  intros [Hf Hlk Hreg Hin Hsz Hmax Hrep] Hoff. unfold inode_read.
  rewrite (locked_bind ip i) by (apply Hf || done). rewrite Hreg, Hsz, (wrap_small 64 off) by lia.
  rewrite (proj2 (Z.ltb_lt (length c) off)) by lia. done.
Qed.

Lemma turns (off n : Z) : 0 ≤ off → 0 ≤ n → off mod BSIZE + n ≤ Z.of_nat (Z.to_nat (n / BSIZE) + 2) * BSIZE.
Proof.
  intros H0 Hn. pose proof (Z.mod_pos_bound off BSIZE ltac:(done)). pose proof (Z.mod_pos_bound n BSIZE ltac:(done)).
  pose proof (Z.div_mod n BSIZE ltac:(done)). assert (0 ≤ n / BSIZE) by (apply Z.div_pos; lia). nia.
Qed.

Lemma inode_read_run dev_read s ip c i (off n : nat) :
  file s ip c i → (off ≤ length c)%nat → n < 2 ^ 62 →
  inode_read dev_read ip off n s = Ok ((Z.of_nat (length (get_bytes c off n)), get_bytes c off n), s).
Proof.
  intros [Hf Hlk Hreg Hin Hsz Hmax Hrep] Hoff Hn. unfold inode_read.
  rewrite (locked_bind ip i) by (apply Hf || done). rewrite Hreg, Hsz.
  assert (length c < 2 ^ 62) by (rewrite MAXFILE_val in Hmax; lia).
  rewrite (wrap_small 64 off), (proj2 (Z.ltb_ge (length c) off)) by lia. cbn [orb].
  unfold ckd_add_off. rewrite (proj2 (Z.leb_le _ _)), (proj2 (Z.ltb_lt (off + n) _)) by lia. cbn [andb negb].
  rewrite (wrap_small 64 (off + n)) by lia.
  assert (∃ n' : nat, (if length c <? off + n then length c - off else n) = n' ∧
    n' = length (get_bytes c off n) ∧ (off + n' ≤ length c)%nat ∧ get_bytes c off n' = get_bytes c off n) as (n' & E & El & Hn' & Eg).
  { unfold get_bytes. destruct (Z.ltb_spec (length c) (off + n)).
    - exists (length c - off)%nat. rewrite length_take, length_drop. split_and!; [lia..|].
      rewrite !take_ge by (rewrite length_drop; lia). done.
    - exists n. rewrite length_take, length_drop. split_and!; [lia..|done]. }
  rewrite E. change 0 with (Z.of_nat 0) at 1.
  rewrite (read_loop_run ip (dev i) i s c n' (Z.to_nat (n' / BSIZE) + 2) Hf Hlk Hrep Hmax 0 off [] (loop_fuel n')).
  - rewrite Nat.sub_0_r, app_nil_l, Eg. by rewrite <- El.
  - lia.
  - lia.
  - intros _. rewrite Z.sub_0_r. apply turns; lia.
  - unfold loop_fuel. lia.
Qed.

(** The new size is stored in memory and on disk. *)
Definition resized (s s' : fs) (ip : nat) (i : inode) (n : Z) : Prop :=
  let i' := set_di (set_size n (di i)) i in
  ∃ d, V s (IBLOCK (inum i) (sb s)) = Some d ∧ block_ok d ∧
    s' = logged (IBLOCK (inum i) (sb s)) (put_dinode d (ioff (inum i)) (now s) (di i'))
           (set_itable (<[ip := i']> (itable s)) s).

Lemma grow_size s ip i c (n : nat) :
  file_ok s ip i → locked i = true → S_ISCHR (mode (di i)) = false → 0 ≤ inum i < ninodes (sb s) →
  rep s (addrs (di i)) c → length c ≤ MAXFILE * BSIZE → n = length c →
  ∃ s', (upd_di ip (set_size n) ≫= λ _, inode_update ip) s = Ok (tt, s') ∧
    file s' ip c (set_di (set_size n (di i)) i) ∧ itable s' = <[ip := set_di (set_size n (di i)) i]> (itable s) ∧
    sb s' = sb s ∧ isolated s s' (addrs (di i)) (addrs (di i)) ∧ resized s s' ip i n ∧
    free_blocks s' = free_blocks s.
Proof.
  intros Hf Hlk Hreg Hin Hrep Hmax ->. pose proof Hf as [Hi Hdk Hino Ht Hh].
  unfold upd_di, upd_inode. rewrite modify_bind. rewrite (alter_insert_eq _ _ _ i Hi). cbn beta.
  set (i' := set_di (set_size (length c) (di i)) i). set (s1 := set_itable _ s).
  destruct (inode_block s i Hdk Hino Hin) as (Hx & d & Hd & Hdok).
  assert (same_disk s s1) as Hs by done.
  assert (itable s1 !! ip = Some i') as Hi1 by (apply list_lookup_insert_eq; by eapply lookup_lt_Some).
  rewrite (inode_update_run s1 ip i' d Hi1) by done.
  assert (block_ok (put_dinode d (ioff (inum i')) (now s1) (di i'))) as Hpok.
  { apply put_dinode_ok; [done|apply ioff_range|apply Ht]. }
  pose proof (same_disk_ok _ _ Hs Hdk) as Hdk1. pose proof (same_inodes_ok _ _ Hs Hino) as Hino1.
  pose proof (same_tree_ok _ _ _ Hs Ht) as Ht1.
  destruct (ino_write_disk s1 (IBLOCK (inum i') (sb s1)) _ Hdk1 Hino1 Hx Hpok) as [Hdk2 Hino2].
  eexists. split; [done|]. split_and!; [|done|done| | |].
  - split; try done. 2: by apply ino_write_rep.
    split; [done|done|done| |done]. by apply ino_write_tree.
  - apply (isolated_trans s s1 _ _ (addrs (di i))); [by intros x|]. by apply ino_write_isolated.
  - by exists d.
  - unfold free_blocks. apply filter_ext_in. intros y Hy%elem_of_seqZ.
    rewrite ino_write_bit; try done.
Qed.

(** The data blocks were written, and the inode if the file has grown. *)
Definition written (s s' : fs) (ip : nat) (i i' : inode) (c : list Z) (off n : Z) : Prop :=
  ∃ s1 a1, grown s s1 (addrs (di i)) a1 (off / BSIZE) ((off + n - 1) / BSIZE) ∧ now s1 = now s ∧
    (s' = s1 ∧ i' = with_addrs a1 i ∧ off + n ≤ length c ∨
     i' = set_di (set_size (off + n) (di (with_addrs a1 i))) i ∧ resized s1 s' ip (with_addrs a1 i) (off + n)).

Lemma inode_write_run dev_write s ip c i (off : nat) src :
  file s ip c i → (off ≤ length c)%nat → off + length src ≤ MAXFILE * BSIZE → Forall byte_ok src →
  (3 * (length src / BSIZE + 2) ≤ length (free_blocks s))%nat →
  ∃ s' i', inode_write dev_write ip src off s = Ok (Z.of_nat (length src), s') ∧
    file s' ip (put_bytes c off src) i' ∧ itable s' = <[ip := i']> (itable s) ∧ inum i' = inum i ∧
    mode (di i') = mode (di i) ∧ sb s' = sb s ∧ isolated s s' (addrs (di i)) (addrs (di i')) ∧
    written s s' ip i i' c off (length src) ∧
    (length (free_blocks s) ≤ length (free_blocks s') + 3 * (length src / BSIZE + 2))%nat.
Proof.
  intros Hfile Hoff Hend Hsrc Hfree. pose proof Hfile as [Hf Hlk Hreg Hin Hsz Hmax Hrep]. unfold inode_write.
  rewrite (locked_bind ip i) by (apply Hf || done). rewrite Hreg, Hsz.
  pose proof MAXFILE_val as HM. rewrite (wrap_small 64 off), (proj2 (Z.ltb_ge (length c) off)) by lia. cbn [orb].
  unfold ckd_add_off. rewrite (proj2 (Z.leb_le _ _)), (proj2 (Z.ltb_lt (off + _) _)) by lia. cbn [andb negb].
  rewrite sizes_small, (proj2 (Z.ltb_ge _ _)) by lia.
  assert (Z.to_nat (length src / BSIZE) = (length src / BSIZE)%nat) as Ediv.
  { rewrite <- Nat2Z.inj_div. apply Nat2Z.id. }
  destruct (write_loop_run ip (dev i) src (Z.to_nat (length src / BSIZE) + 2) Hsrc i s c 0 off (loop_fuel (length src)) ((off + length src - 1) / BSIZE))
    as (s1 & a1 & E & Hf1 & Hrep1 & Hit1 & Hsb1 & Hnow1 & Hiso1 & Hgr1 & Hfr1); try done; try lia.
  { intros _. rewrite Z.sub_0_r. apply turns; lia. }
  { unfold loop_fuel. lia. }
  { pose proof (Z.div_mod (off + length src - 1) BSIZE ltac:(done)).
    pose proof (Z.mod_pos_bound (off + length src - 1) BSIZE ltac:(done)). lia. }
  { apply Z.div_lt_upper_bound; [done|]. rewrite Z.mul_comm. lia. }
  rewrite (bind_run _ _ _ _ _ E), (the_inode_bind ip (with_addrs a1 i)) by apply Hf1.
  rewrite drop_0 in Hrep1. rewrite Z.sub_0_r. change (size (di (with_addrs a1 i))) with (size (di i)). rewrite Hsz.
  assert (length (put_bytes c off src) ≤ MAXFILE * BSIZE) as Hmax1 by (rewrite length_splice; lia).
  destruct (Z.ltb_spec 0 (length src)) as [Hpos|Hz]; [destruct (Z.ltb_spec (length c) (off + length src)) as [Hg|Hg]|]; cbn [andb].
  - replace (off + length src) with (Z.of_nat (off + length src)) by lia.
    destruct (grow_size s1 ip (with_addrs a1 i) (put_bytes c off src) (off + length src))
      as (s2 & E2 & Hfile2 & Hit2 & Hsb2 & Hiso2 & Hrs2 & Hfr2); try done; [by rewrite Hsb1|rewrite length_splice; lia|].
    rewrite (bind_run _ _ _ _ _ E2). eexists s2, _. split; [done|]. split_and!; [done| |done|done|congruence| | |rewrite Hfr2; lia].
    + rewrite Hit2, Hit1. apply list_insert_insert_eq.
    + by eapply isolated_trans.
    + exists s1, a1. split_and!; [done|done|]. right. rewrite <- Nat2Z.inj_add. done.
  - rewrite ret_bind. exists s1, (with_addrs a1 i). split; [done|]. split_and!; try done.
    + split; try done; [by rewrite Hsb1|]. cbn. rewrite Hsz, length_splice by done. lia.
    + exists s1, a1. split_and!; [done|done|]. left. split_and!; [done|done|lia].
    + lia.
  - rewrite ret_bind. exists s1, (with_addrs a1 i). split; [done|]. split_and!; try done.
    + split; try done; [by rewrite Hsb1|]. cbn. rewrite Hsz, length_splice by done. lia.
    + exists s1, a1. split_and!; [done|done|]. left. split_and!; [done|done|lia].
    + lia.
Qed.

(** A file that has no block in common with the one that was written. *)
Lemma isolated_file s s' i ip2 c2 i2 a' :
  isolated s s' (addrs (di i)) a' → file s ip2 c2 i2 →
  (∀ σ τ, slot_ok σ → slot_ok τ → val s (addrs (di i2)) σ ≠ 0 → val s (addrs (di i)) τ ≠ val s (addrs (di i2)) σ) →
  disk_ok s' → inodes_ok s' → no_buffers s' → itable s' !! ip2 = Some i2 → sb s' = sb s → file s' ip2 c2 i2.
Proof.
  intros Hiso [Hf Hlk Hreg Hin Hsz Hmax Hrep] Hdis Hd' Hin' Hh' Hit Hsb. pose proof Hf as [Hi Hdk Hino Ht Hh].
  assert (∀ τ, slot_ok τ → val s (addrs (di i2)) τ ≠ 0 →
    V s' (val s (addrs (di i2)) τ) = V s (val s (addrs (di i2)) τ) ∧ data_block s' (val s (addrs (di i2)) τ)) as Hkeep.
  { intros τ Hτ Hv. destruct (Hiso (val s (addrs (di i2)) τ)) as (? & ? & _); [by apply Ht| |done].
    intros ρ Hρ. by apply Hdis. }
  assert (∀ τ, slot_ok τ → val s' (addrs (di i2)) τ = val s (addrs (di i2)) τ) as Hval.
  { intros τ. induction τ as [k|τ π j Hp IH] using slot_ind'; intros Hτ; [done|].
    destruct (parent_ok _ _ _ Hp Hτ) as (Hπ & _).
    rewrite (val_parent _ _ _ _ _ Hp), IH, (val_parent _ _ _ _ _ Hp) by done.
    unfold ptr. destruct (Z.eqb_spec (val s (addrs (di i2)) π) 0) as [|Hn]; [done|].
    by destruct (Hkeep π Hπ Hn) as [-> _]. }
  split; try done.
  - split; [done..| |done]. split; [apply Ht|..].
    + intros σ τ Hσ Hτ. rewrite !Hval by done. by apply Ht.
    + intros σ Hσ. rewrite Hval by done. intros Hv. by apply Hkeep.
  - by rewrite Hsb.
  - intros o x Hx. pose proof (lookup_lt_Some _ _ _ Hx) as Hlt. assert (0 < BSIZE) by done.
    destruct (dslot_ok (o / BSIZE)) as [Hσ _]; [split; [apply Z.div_pos; lia|apply Z.div_lt_upper_bound; lia]|].
    apply Hrep, byte_at_Some in Hx as (Hv & d & Hd & Hx). apply byte_at_Some.
    rewrite Hval by done. split; [done|]. exists d. split; [|done]. by destruct (Hkeep _ Hσ Hv) as [-> _].
Qed.

(** C6. A regular file is a list of bytes.  When enough blocks are free,
    [inode_write] at an offset up to the end of the file returns the number of
    bytes and leaves the list with those bytes put in at that offset, growing
    over direct, indirect and doubly indirect blocks as needed; from then on
    [inode_read] returns exactly the pieces of the new list, without changing
    anything, and [-EDOM] past its end; reading back what was written returns
    it.  Files that share no block with this one keep their contents. *)
Theorem file_write_read dev_read dev_write s ip c i (off : nat) src :
  file s ip c i → (off ≤ length c)%nat → off + length src ≤ MAXFILE * BSIZE → Forall byte_ok src →
  (3 * (length src / BSIZE + 2) ≤ length (free_blocks s))%nat →
  ∃ s' i', inode_write dev_write ip src off s = Ok (Z.of_nat (length src), s') ∧
    file s' ip (put_bytes c off src) i' ∧
    (∀ off' n : nat, (off' ≤ length (put_bytes c off src))%nat → n < 2 ^ 62 →
      inode_read dev_read ip off' n s' =
        Ok ((Z.of_nat (length (get_bytes (put_bytes c off src) off' n)), get_bytes (put_bytes c off src) off' n), s')) ∧
    (∀ off' n, length (put_bytes c off src) < off' < 2 ^ 63 → inode_read dev_read ip off' n s' = Ok ((- EDOM, []), s')) ∧
    inode_read dev_read ip off (length src) s' = Ok ((Z.of_nat (length src), src), s') ∧
    (∀ ip2 c2 i2, ip2 ≠ ip → file s ip2 c2 i2 →
      (∀ σ τ, slot_ok σ → slot_ok τ → val s (addrs (di i2)) σ ≠ 0 → val s (addrs (di i)) τ ≠ val s (addrs (di i2)) σ) →
      file s' ip2 c2 i2).
Proof.
  intros Hfile Hoff Hend Hsrc Hfree. pose proof MAXFILE_val as HM.
  destruct (inode_write_run dev_write s ip c i off src Hfile Hoff Hend Hsrc Hfree)
    as (s' & i' & E & Hfile' & Hit & Hin & Hmode & Hsb & Hiso & _ & _).
  exists s', i'. split_and!; [done|done| | | |].
  - intros off' n Ho Hn. by apply (inode_read_run dev_read s' ip _ i').
  - intros off' n Ho. by eapply read_past_end.
  - rewrite (inode_read_run dev_read s' ip _ i') by (done || (rewrite ?length_splice by done; lia)).
    assert (get_bytes (put_bytes c off src) off (length src) = src) as ->; [|done].
    apply list_eq. intros j. rewrite lookup_get_bytes. case_decide as Hj.
    + rewrite lookup_splice, decide_True by lia. f_equal. lia.
    + symmetry. apply lookup_ge_None. lia.
  - intros ip2 c2 i2 Hne Hfile2 Hdis.
    pose proof (f_ok _ _ _ _ Hfile') as [? ? ? ? ?].
    eapply (isolated_file s s' i ip2 c2 i2 (addrs (di i')) Hiso Hfile2 Hdis); try done.
    rewrite Hit, list_lookup_insert_ne by done. apply Hfile2.
Qed.

(** An empty file on the disk of 24 blocks. *)
Definition empty_dinode (md : Z) : dinode := mkdinode 0 0 0 0 md 0 0 (replicate NADDRS 0) 0 0 1.
Definition sample_inode (md : Z) : inode := mkinode 1 2 1 true true (empty_dinode md).
Definition sample_file (md : Z) : fs := mkfs (mkabs sample_disk ∅ ∅) [] sample_sb [sample_inode md] 7.

Lemma empty_val s md σ : val s (addrs (empty_dinode md)) σ = 0.
Proof.
  assert (∀ k, default 0 (replicate NADDRS 0 !! k) = 0) as E.
  { intros k. destruct (replicate NADDRS 0 !! k) eqn:Hk; [|done]. by apply lookup_replicate in Hk as [-> _]. }
  destruct σ; cbn [val addrs empty_dinode]; by rewrite !E.
Qed.

Lemma sample_file_ok md : S_ISCHR md = false → file (sample_file md) 0 [] (sample_inode md).
Proof.
  intros Hmd. split; try done. split; [done| | | |done].
  - apply disk_okb_ok. vm_compute. reflexivity.
  - intros b (j & Hj & ->). cbn in Hj. assert (IBLOCK j (sb (sample_file md)) = 3) as ->.
    { unfold IBLOCK. rewrite Z.div_small; [done|]. change IPB with 16. lia. }
    split_and!; [done|vm_compute; reflexivity|]. intros (b' & Hb' & E). unfold BBLOCK in E.
    rewrite Z.div_small in E; [done|]. unfold in_fs in Hb'. cbn in Hb'. change BPB with 16384. lia.
  - split; [done|..].
    + intros σ τ _ _ H. destruct H. apply (empty_val _ md).
    + intros σ _ H. destruct H. apply (empty_val _ md).
Qed.

Lemma file_write_read_witness :
  ∃ s' i', inode_write (λ _, None) 0 [104; 105] 0 (sample_file S_IFREG) = Ok (2, s') ∧
    file s' 0 [104; 105] i' ∧ inode_read (λ _, None) 0 0 2 s' = Ok ((2, [104; 105]), s').
Proof.
  destruct (file_write_read (λ _, None) (λ _, None) (sample_file S_IFREG) 0 [] (sample_inode S_IFREG) 0 [104; 105])
    as (s' & i' & E & Hf & _ & _ & Hr & _).
  - by apply sample_file_ok.
  - done.
  - rewrite MAXFILE_val. cbn. lia.
  - repeat constructor; lia.
  - apply Nat.leb_le. vm_compute. reflexivity.
  - exists s', i'. split; [exact E|]. split; [exact Hf|exact Hr].
Defined.

End FsFile.
