(* ===== verification/FsInode.v ===== *)
(** * Inodes on disk and in memory

    An inode written back with [inode_update] and read again by [inode_lock],
    and the reference counts of the inode table across path name lookups. *)

From S2P Require Import Prelude Mem Words Block Fs FsBlock FsTree FsFile.

Module FsInode.
Import Block Fs FsBlock FsTree FsFile.

(** ** Fields of an inode block *)

Lemma le_val_mod n v : le_val (le_bytes n v) = v mod 256 ^ Z.of_nat n.
Proof.
  revert v. induction n as [|n IH]; intros v; cbn [le_bytes le_val].
  { symmetry. apply Z.mod_1_r. }
  rewrite IH, Nat2Z.inj_succ, Z.pow_succ_r by lia.
  rewrite Z.rem_mul_r by (apply Z.pow_nonzero || lia; lia). done.
Qed.

Lemma get_put_le_mod w d off v :
  (off + w ≤ length d)%nat → get_le w (put_le w d off v) off = v mod 256 ^ Z.of_nat w.
Proof.
  intros. pose proof (get_put_bytes_eq d off (le_bytes w v)) as E. rewrite length_le_bytes in E.
  unfold get_le, put_le. rewrite E by done. apply le_val_mod.
Qed.

Lemma sx_mod w v : 0 < w → - 2 ^ (w - 1) ≤ v < 2 ^ (w - 1) → sx w (v mod 2 ^ w) = v.
Proof.
  intros Hw Hv. assert (2 ^ w = 2 * 2 ^ (w - 1)) as E.
  { rewrite <- Z.pow_succ_r by lia. f_equal. lia. }
  unfold sx. rewrite Z.mod_mod by lia. destruct (decide (0 ≤ v)).
  - rewrite Z.mod_small by lia. destruct (Z.ltb_spec v (2 ^ (w - 1))); lia.
  - replace (v mod 2 ^ w) with (v + 2 ^ w).
    + destruct (Z.ltb_spec (v + 2 ^ w) (2 ^ (w - 1))); lia.
    + rewrite <- (Z.mod_add v 1), Z.mul_1_l by lia. symmetry. apply Z.mod_small. lia.
Qed.

Lemma length_put_addrs d off l : (off + 8 * length l ≤ length d)%nat → length (put_addrs d off l) = length d.
Proof.
  revert d off. induction l as [|x l IH]; intros d off H; cbn [length put_addrs] in *; [done|].
  rewrite IH; rewrite length_put_le; lia.
Qed.

Lemma get_put_addrs_ne w d off l off' :
  (off + 8 * length l ≤ length d)%nat → (off' + w ≤ off ∨ off + 8 * length l ≤ off')%nat →
  get_le w (put_addrs d off l) off' = get_le w d off'.
Proof.
  revert d off. induction l as [|x l IH]; intros d off H Ho; cbn [length put_addrs] in *; [done|].
  rewrite IH by (rewrite ?length_put_le; lia). apply get_put_le_ne; lia.
Qed.

Lemma lookup_put_addrs d off l j x :
  (off + 8 * length l ≤ length d)%nat → Forall (λ x, 0 ≤ x < 2 ^ 64) l → l !! j = Some x →
  get64 (put_addrs d off l) (off + 8 * j) = x.
Proof.
  revert d off j. induction l as [|y l IH]; intros d off j H HF Hj; [done|].
  apply Forall_cons in HF as [Hy HF]. cbn [length put_addrs] in H |- *. destruct j as [|j]; cbn in Hj; simplify_eq.
  - rewrite get_put_addrs_ne by (rewrite ?length_put_le; lia). rewrite ?Nat.mul_0_r, ?Nat.add_0_r.
    apply get_put_le_eq; [lia|done].
  - replace (off + 8 * S j)%nat with (off + 8 + 8 * j)%nat by lia. apply IH; [rewrite length_put_le; lia|done|done].
Qed.

Lemma get_put_addrs d off l :
  (off + 80 ≤ length d)%nat → length l = NADDRS → Forall (λ x, 0 ≤ x < 2 ^ 64) l →
  get_addrs (put_addrs d off l) off = l.
Proof.
  intros H Hl HF. apply list_eq. intros j. unfold get_addrs. rewrite list_lookup_fmap.
  destruct (decide (j < NADDRS)%nat) as [Hj|Hj].
  - rewrite lookup_seq_lt by done. destruct (lookup_lt_is_Some_2 l j) as [x Hx]; [lia|]. rewrite Hx. cbn.
    f_equal. apply lookup_put_addrs; [rewrite Hl; unfold NADDRS; lia|done|done].
  - rewrite lookup_seq_ge by lia. symmetry. apply lookup_ge_None. lia.
Qed.

(** The widths of the fields. *)
Record dinode_ok (x : dinode) : Prop := {
  dok_ctime : 0 ≤ ctime x < 2 ^ 64;
  dok_size : 0 ≤ size x < 2 ^ 64;
  dok_mode : 0 ≤ mode x < 2 ^ 32;
  dok_major : - 2 ^ 15 ≤ major x < 2 ^ 15;
  dok_minor : - 2 ^ 15 ≤ minor x < 2 ^ 15;
  dok_nlink : - 2 ^ 15 ≤ nlink x < 2 ^ 15;
  dok_addrs : length (addrs x) = NADDRS ∧ Forall (λ a, 0 ≤ a < 2 ^ 64) (addrs x);
}.

(** What a reader gets after [inode_update] at time [t] over the old inode [y]:
    both times are [t], and owner and group are those of [y]. *)
Definition reloaded (t : Z) (x y : dinode) : dinode :=
  mkdinode (ctime x) t t (size x) (mode x) (gid y) (uid y) (addrs x) (major x) (minor x) (nlink x).

(** A field below the last store, and the field of the last store. *)
Ltac skip u := unfold u; rewrite get_put_le_ne by lia.
Ltac this := rewrite get_put_le_eq by (done || lia).

Lemma get_put_dinode d off t x :
  length d = BSIZE → (off + 128 ≤ BSIZE)%nat → dinode_ok x → 0 ≤ t < 2 ^ 64 →
  get_dinode (put_dinode d off t x) off = reloaded t x (get_dinode d off).
Proof.
  intros Hd Ho [Hc Hs Hm Hma Hmi Hnl [Hal HaF]] Ht.
  set (u1 := put_le 2 d (off + 120) (major x)). set (u2 := put_le 2 u1 (off + 122) (minor x)).
  set (u3 := put_le 2 u2 (off + 124) (nlink x)). set (u4 := put64 u3 (off + 24) (size x)).
  set (u5 := put_le 4 u4 (off + 32) (mode x)). set (u6 := put64 u5 (off + 16) t).
  set (u7 := put64 u6 (off + 8) t). set (u8' := put64 u7 off (ctime x)).
  assert (length u1 = BSIZE) as L1 by (unfold u1; rewrite length_put_le; lia).
  assert (length u2 = BSIZE) as L2 by (unfold u2; rewrite length_put_le; lia).
  assert (length u3 = BSIZE) as L3 by (unfold u3; rewrite length_put_le; lia).
  assert (length u4 = BSIZE) as L4 by (unfold u4; rewrite length_put_le; lia).
  assert (length u5 = BSIZE) as L5 by (unfold u5; rewrite length_put_le; lia).
  assert (length u6 = BSIZE) as L6 by (unfold u6; rewrite length_put_le; lia).
  assert (length u7 = BSIZE) as L7 by (unfold u7; rewrite length_put_le; lia).
  assert (length u8' = BSIZE) as L8 by (unfold u8'; rewrite length_put_le; lia).
  change (put_dinode d off t x) with (put_addrs u8' (off + 40) (addrs x)).
  assert (∀ w p, (p + w ≤ off + 40 ∨ off + 120 ≤ p)%nat → get_le w (put_addrs u8' (off + 40) (addrs x)) p = get_le w u8' p) as Ea.
  { intros w p Hp. apply get_put_addrs_ne; rewrite Hal; unfold NADDRS; lia. }
  unfold get_dinode. rewrite get_put_addrs by (done || lia). rewrite !Ea by lia. unfold reloaded. cbn [gid uid].
  f_equal.
  - unfold u8'. by this.
  - skip u8'. unfold u7. by this.
  - skip u8'. skip u7. unfold u6. by this.
  - skip u8'. skip u7. skip u6. skip u5. unfold u4. by this.
  - skip u8'. skip u7. skip u6. unfold u5. by this.
  - skip u8'. skip u7. skip u6. skip u5. skip u4. skip u3. skip u2. skip u1. done.
  - skip u8'. skip u7. skip u6. skip u5. skip u4. skip u3. skip u2. skip u1. done.
  - skip u8'. skip u7. skip u6. skip u5. skip u4. skip u3. skip u2. unfold u1. rewrite get_put_le_mod by lia. by apply sx_mod.
  - skip u8'. skip u7. skip u6. skip u5. skip u4. skip u3. unfold u2. rewrite get_put_le_mod by lia. by apply sx_mod.
  - skip u8'. skip u7. skip u6. skip u5. skip u4. unfold u3. rewrite get_put_le_mod by lia. by apply sx_mod.
Qed.

(** ** Reading an inode *)

Definition disk_inode (s : fs) (n : Z) : option dinode :=
  (λ d, get_dinode d (ioff n)) <$> V s (IBLOCK n (sb s)).

Lemma inode_lock_run s ip i x :
  itable s !! ip = Some i → 1 ≤ ref i → locked i = false → valid i = false → no_buffers s →
  disk_inode s (inum i) = Some x → mode x ≠ 0 →
  inode_lock ip s = Ok (tt, set_itable (<[ip := mkinode (dev i) (inum i) (ref i) true true x]> (itable s)) s).
Proof.
  intros Hi Href Hlk Hval Hh Hx Hmode. unfold disk_inode in Hx. apply fmap_Some in Hx as (d & Hd & ->).
  unfold inode_lock. rewrite (the_inode_bind ip i), (proj2 (Z.ltb_ge _ 1)) by (done || lia).
  unfold holdingsleep. rewrite bind_assoc, (the_inode_bind ip i), ret_bind, Hlk by done.
  cbn [negb kernel_assert]. rewrite ret_bind. unfold acquiresleep.
  rewrite bind_assoc, (the_inode_bind ip i), Hlk by done. unfold upd_inode. rewrite modify_bind, Hval.
  rewrite (alter_insert_eq _ _ _ i Hi). set (i1 := set_locked true i). set (s1 := set_itable _ s).
  unfold get_sb. rewrite gets_bind. change (sb s1) with (sb s).
  rewrite (read_bind _ _ d) by (apply Hh || done). unfold upd_di, upd_inode. rewrite modify_bind.
  assert (∀ j, <[ip := j]> (itable s) !! ip = Some j) as Hins
    by (intros; apply list_lookup_insert_eq; by eapply lookup_lt_Some).
  assert (itable (opened (IBLOCK (inum i) (sb s)) d s1) !! ip = Some i1) as Hi1 by apply Hins.
  rewrite (alter_insert_eq _ _ _ i1 Hi1).
  set (i2 := set_di _ i1). set (l2 := <[ip := i2]> _).
  change (set_itable l2 (opened (IBLOCK (inum i) (sb s)) d s1)) with
    (opened (IBLOCK (inum i) (sb s)) d (set_itable l2 s1)).
  rewrite release_bind by (apply Hh || done). rewrite modify_bind, (proj2 (Z.eqb_neq _ 0)) by done.
  assert (itable (set_itable l2 s1) !! ip = Some i2) as Hi2.
  { apply list_lookup_insert_eq. cbn. rewrite length_insert. by eapply lookup_lt_Some. }
  rewrite (alter_insert_eq _ _ _ i2 Hi2). unfold mret, M_ret. do 2 f_equal.
  unfold set_itable, l2, s1. cbn. by rewrite !list_insert_insert_eq.
Qed.

(** C14. An inode survives the trip to the disk: after [inode_update], any
    later [inode_lock] of that inode whose cache entry has to be filled reads
    back the same size, mode, link count, device numbers, creation time and
    block addresses; both other times are the time of the update, and the owner
    and the group are the ones that were on the disk before, since
    [inode_update] does not store them. *)
Theorem inode_update_reload s ip i y :
  itable s !! ip = Some i → disk_ok s → inodes_ok s → no_buffers s → 0 ≤ inum i < ninodes (sb s) →
  dinode_ok (di i) → mode (di i) ≠ 0 → 0 ≤ now s < 2 ^ 64 → disk_inode s (inum i) = Some y →
  ∃ s1, inode_update ip s = Ok (tt, s1) ∧
    disk_inode s1 (inum i) = Some (reloaded (now s) (di i) y) ∧
    (∀ s2 jp j, same_disk s1 s2 → no_buffers s2 → itable s2 !! jp = Some j → inum j = inum i →
      1 ≤ ref j → locked j = false → valid j = false →
      inode_lock jp s2 = Ok (tt, set_itable
        (<[jp := mkinode (dev j) (inum j) (ref j) true true (reloaded (now s) (di i) y)]> (itable s2)) s2)).
Proof.
  intros Hi Hdk Hino Hh Hin Hok Hmode Ht Hy.
  destruct (inode_block s i Hdk Hino Hin) as (_ & d & Hd & [Hl _]).
  unfold disk_inode in Hy. rewrite Hd in Hy. cbn in Hy. simplify_eq.
  eexists. split; [by apply inode_update_run|].
  assert (disk_inode (logged (IBLOCK (inum i) (sb s)) (put_dinode d (ioff (inum i)) (now s) (di i)) s) (inum i) =
    Some (reloaded (now s) (di i) (get_dinode d (ioff (inum i))))) as Hdi.
  { unfold disk_inode. change (sb (logged _ _ s)) with (sb s). rewrite V_logged, decide_True by done. cbn. f_equal.
    apply get_put_dinode; [done|apply ioff_range|done|done]. }
  split; [done|]. intros s2 jp j [Esb HV] Hh2 Hj Hnum Href Hlk Hval.
  apply inode_lock_run; try done. unfold disk_inode. rewrite Hnum, Esb, HV. exact Hdi.
Qed.

Lemma inode_update_reload_witness :
  ∃ s1, inode_update 0 (sample_file S_IFREG) = Ok (tt, s1) ∧
    disk_inode s1 2 = Some (reloaded 7 (empty_dinode S_IFREG) (mkdinode 0 0 0 0 0 0 0 (replicate NADDRS 0) 0 0 0)).
Proof.
  destruct (inode_update_reload (sample_file S_IFREG) 0 (sample_inode S_IFREG)
    (mkdinode 0 0 0 0 0 0 0 (replicate NADDRS 0) 0 0 0)) as (s1 & E & Hd & _).
  - reflexivity.
  - apply disk_okb_ok. vm_compute. reflexivity.
  - apply (sample_file_ok S_IFREG eq_refl).
  - intros x. reflexivity.
  - cbn. lia.
  - split; cbn; unfold S_IFREG; try lia. split; [reflexivity|]. apply (Forall_replicate _ NADDRS). lia.
  - cbn. unfold S_IFREG. lia.
  - cbn. lia.
  - vm_compute. reflexivity.
  - exists s1. split; [exact E|exact Hd].
Defined.

End FsInode.
