(* ===== verification/FsRel.v ===== *)
(** * Relations that every file system operation respects

    The operations of Fs.v change the state in four ways: they take and release
    buffers, they log blocks, and they update inodes of the table.  A preorder
    on states that contains these steps contains every operation; [StateRel]
    names the steps, and [resp] is proved once for each operation. *)

From S2P Require Import Prelude Mem Words Block Fs.

Module FsRel.
Import Block Fs.

(** What an entry of the inode table stands for, and its count. *)
Definition tag (i : inode) : Z * Z * Z := (dev i, inum i, ref i).
Definition tags (s : fs) : list (Z * Z * Z) := tag <$> itable s.

Class StateRel (R : fs → fs → Prop) := {
  rel_refl s : R s s;
  rel_trans s1 s2 s3 : R s1 s2 → R s2 s3 → R s1 s3;
  rel_hold s b d : R s (set_store (hold b d (store s)) s);
  rel_unhold s b : R s (set_store (unhold b (store s)) s);
  rel_log s b d : R s (set_writes (writes s ++ [(b, d)]) (set_store (pin b d (store s)) s));
  rel_inode s ip f : (∀ i, tag (f i) = tag i) → R s (set_itable (alter f ip (itable s)) s);
}.

Definition resp (R : fs → fs → Prop) {A} (m : FS A) : Prop := ∀ s, wlp m (λ _ s', R s s') s.

Create HintDb resp discriminated.

(** Follow the code, one bind and one branch at a time. *)
Ltac resp bind :=
  repeat first
    [ solve [auto with resp]
    | apply bind; [|intros ?]
    | progress cbn beta iota zeta
    | case_match ].

Section rel.
Context (R : fs → fs → Prop) `{!StateRel R}.

Lemma resp_bind {A B} (m : FS A) (k : A → FS B) : resp R m → (∀ a, resp R (k a)) → resp R (m ≫= k).
Proof.
  intros Hm Hk s. apply wlp_bind. eapply wlp_mono; [apply Hm|]. intros a s1 E1.
  eapply wlp_mono; [apply Hk|]. intros b s2 E2. cbn in *. by apply (rel_trans s s1 s2).
Qed.

Lemma resp_ret {A} (a : A) : resp R (mret a).
Proof. intros s. apply wlp_ret, rel_refl. Qed.

Lemma resp_gets {A} (f : fs → A) : resp R (gets f).
Proof. intros s. apply wlp_gets, rel_refl. Qed.

Lemma resp_fail {A} e : resp R (fail (A := A) e).
Proof. intros s. by apply wlp_fail. Qed.

Lemma resp_panic {A} msg : resp R (panic (A := A) msg).
Proof. apply resp_fail. Qed.

Lemma resp_assert b : resp R (kernel_assert b).
Proof. unfold kernel_assert. destruct b; [apply resp_ret|apply resp_fail]. Qed.

Lemma resp_from_option {A} (o : option A) : resp R (from_option o).
Proof. destruct o; [apply resp_ret|apply resp_fail]. Qed.

Lemma resp_lift {A} (r : res A) : resp R (lift r).
Proof. intros s. unfold wlp, lift. destruct r; [apply rel_refl|done]. Qed.

#[local] Hint Resolve resp_ret resp_gets resp_fail resp_panic resp_assert resp_from_option resp_lift : resp.
#[local] Ltac go := resp resp_bind.

Lemma resp_block_read dv b : resp R (block_read dv b).
Proof.
  intros s. unfold block_read. apply wlp_bind, wlp_gets. destruct (a_held (store s) !! b); [apply wlp_fail|].
  destruct (view (store s) b); [|apply wlp_fail]. apply wlp_modify, rel_hold.
Qed.

Lemma resp_data b : resp R (data b).
Proof. intros s. unfold wlp, data, from_option. destruct (a_held (store s) !! b); [apply rel_refl|done]. Qed.
#[local] Hint Resolve resp_block_read resp_data : resp.

Lemma resp_store_data b d : resp R (store_data b d).
Proof. unfold store_data. go. intros s. apply wlp_modify, rel_hold. Qed.

Lemma resp_log_write b : resp R (log_write b).
Proof. unfold log_write. go. intros s. apply wlp_modify, rel_log. Qed.

Lemma resp_block_release b : resp R (block_release b).
Proof.
  unfold block_release. apply resp_bind; [go|]. intros d s. apply wlp_bind, wlp_gets.
  case_match; [apply wlp_modify, rel_unhold|apply wlp_fail].
Qed.
#[local] Hint Resolve resp_store_data resp_log_write resp_block_release : resp.

Lemma resp_the_inode ip : resp R (the_inode ip).
Proof. intros s. unfold wlp, the_inode, from_option. destruct (itable s !! ip); [apply rel_refl|done]. Qed.

Lemma resp_upd_inode ip f : (∀ i, tag (f i) = tag i) → resp R (upd_inode ip f).
Proof. intros Hf s. apply wlp_modify. by apply rel_inode. Qed.

Lemma resp_upd_di ip f : resp R (upd_di ip f).
Proof. by apply resp_upd_inode. Qed.
#[local] Hint Resolve resp_the_inode resp_upd_di : resp.
#[local] Hint Extern 1 (resp _ (upd_inode _ _)) => apply resp_upd_inode; done : resp.

Lemma resp_block_zero dv b : resp R (block_zero dv b).
Proof. unfold block_zero. go. Qed.
#[local] Hint Resolve resp_block_zero : resp.

Lemma resp_block_alloc dv : resp R (block_alloc dv).
Proof.
  unfold block_alloc, get_sb. apply resp_bind; [auto with resp|]. intros sp.
  generalize 0 as b. generalize (Z.to_nat (sb_size sp / BPB) + 2)%nat as k.
  induction k as [|k IH]; intros b; cbn [block_alloc_loop]; unfold get_sb; go.
Qed.

Lemma resp_block_free dv b : resp R (block_free dv b).
Proof. unfold block_free, get_sb. go. Qed.
#[local] Hint Resolve resp_block_alloc resp_block_free : resp.

Lemma resp_holdingsleep ip : resp R (holdingsleep ip).
Proof. unfold holdingsleep. go. Qed.

Lemma resp_acquiresleep ip : resp R (acquiresleep ip).
Proof. unfold acquiresleep. go. Qed.

Lemma resp_releasesleep ip : resp R (releasesleep ip).
Proof. unfold releasesleep. go. Qed.

#[local] Hint Resolve resp_holdingsleep resp_acquiresleep resp_releasesleep : resp.

Lemma resp_inode_update ip : resp R (inode_update ip).
Proof. unfold inode_update, get_sb. go. Qed.

Lemma resp_inode_lock ip : resp R (inode_lock ip).
Proof. unfold inode_lock, get_sb. go. Qed.

Lemma resp_inode_unlock ip : resp R (inode_unlock ip).
Proof. unfold inode_unlock. go. Qed.
#[local] Hint Resolve resp_inode_update resp_inode_lock resp_inode_unlock : resp.

Lemma resp_get_addr ip j : resp R (get_addr ip j).
Proof. unfold get_addr. go. Qed.

Lemma resp_put_addr ip j v : resp R (put_addr ip j v).
Proof. unfold put_addr. go. Qed.
#[local] Hint Resolve resp_get_addr resp_put_addr : resp.

Lemma resp_bmap ip bn : resp R (bmap ip bn).
Proof. unfold bmap, addr_or_alloc, ptr_or_alloc. go. Qed.
#[local] Hint Resolve resp_bmap : resp.

Lemma resp_free_direct ip dv j k : resp R (free_direct ip dv j k).
Proof. revert j. induction k as [|k IH]; intros j; cbn [free_direct]; go. Qed.

Lemma resp_free_ptrs dv d j k : resp R (free_ptrs dv d j k).
Proof. revert j. induction k as [|k IH]; intros j; cbn [free_ptrs]; go. Qed.
#[local] Hint Resolve resp_free_direct resp_free_ptrs : resp.

Lemma resp_free_indirect dv b : resp R (free_indirect dv b).
Proof. unfold free_indirect. go. Qed.
#[local] Hint Resolve resp_free_indirect : resp.

Lemma resp_free_double dv d j k : resp R (free_double dv d j k).
Proof. revert j. induction k as [|k IH]; intros j; cbn [free_double]; go. Qed.
#[local] Hint Resolve resp_free_double : resp.

Lemma resp_inode_truncate ip : resp R (inode_truncate ip).
Proof. unfold inode_truncate. go. Qed.
#[local] Hint Resolve resp_inode_truncate : resp.

(** ** Files *)

Section devices.
Context (dev_read : Z → option (Z → nat → Z → FS (Z * list Z))).
Context (dev_write : Z → option (Z → nat → list Z → FS Z)).
(** The device drivers respect the relation. *)
Hypothesis Hread : ∀ mj f, dev_read mj = Some f → ∀ mn ip n, resp R (f mn ip n).

Lemma resp_read_loop ip dv n tot off acc k : resp R (read_loop ip dv n tot off acc k).
Proof. revert tot off acc. induction k as [|k IH]; intros tot off acc; cbn [read_loop]; go. Qed.

Lemma resp_write_loop ip dv src n tot off k : resp R (write_loop ip dv src n tot off k).
Proof. revert tot off. induction k as [|k IH]; intros tot off; cbn [write_loop]; go. Qed.
#[local] Hint Resolve resp_read_loop resp_write_loop : resp.

Lemma dev_of_Some {T} (tab : Z → option T) i f : dev_of tab i = Some f → tab (major (di i)) = Some f.
Proof. unfold dev_of. by case_match. Qed.

Lemma resp_inode_read ip off n : resp R (inode_read dev_read ip off n).
Proof.
  unfold inode_read. apply resp_bind; [auto with resp|intros h]. apply resp_bind; [auto with resp|intros []].
  apply resp_bind; [auto with resp|intros i]. case_match; [|go].
  destruct (dev_of dev_read i) as [f|] eqn:E; [|go]. eapply Hread. by apply dev_of_Some.
Qed.

Hypothesis Hwrite : ∀ mj f, dev_write mj = Some f → ∀ mn ip src, resp R (f mn ip src).

Lemma resp_inode_write ip src off : resp R (inode_write dev_write ip src off).
Proof.
  unfold inode_write. apply resp_bind; [auto with resp|intros h]. apply resp_bind; [auto with resp|intros []].
  apply resp_bind; [auto with resp|intros i]. case_match; [|go].
  destruct (dev_of dev_write i) as [f|] eqn:E; [|go]. eapply Hwrite. by apply dev_of_Some.
Qed.

End devices.
End rel.

#[export] Hint Resolve resp_ret resp_gets resp_fail resp_panic resp_assert resp_from_option resp_lift : resp.
#[export] Hint Resolve resp_block_read resp_data resp_store_data resp_log_write resp_block_release : resp.
#[export] Hint Resolve resp_the_inode resp_upd_di resp_block_zero resp_block_alloc resp_block_free : resp.
#[export] Hint Resolve resp_holdingsleep resp_acquiresleep resp_releasesleep resp_inode_update : resp.
#[export] Hint Resolve resp_inode_lock resp_inode_unlock resp_bmap resp_inode_truncate : resp.
#[export] Hint Extern 1 (resp _ (upd_inode _ _)) => apply resp_upd_inode; [typeclasses eauto|done] : resp.

(** The same for a relation with an instance. *)
Ltac resp_all :=
  repeat first
    [ solve [eauto with resp typeclass_instances]
    | apply resp_bind; [typeclasses eauto| |intros ?]
    | progress cbn beta iota zeta
    | case_match ].

End FsRel.
