(* ===== verification/FsPath.v ===== *)
(** * References to inodes and path names

    The reference counts of the inode table: which operations change them, and
    what a path name lookup does to them. *)

From S2P Require Import Prelude Mem Words Block Fs FsRel.

Module FsPath.
Import Block Fs FsRel.

(** ** The reference counts *)

(** The identity and the count of every entry of the inode table stay. *)
Definition same_tags (s s' : fs) : Prop := tags s' = tags s.

#[global] Instance same_tags_rel : StateRel same_tags.
Proof.
  split; unfold same_tags; [done|congruence|done|done|done|].
  intros s ip f Hf. unfold tags. cbn. apply list_eq. intros j.
  rewrite !list_lookup_fmap. destruct (decide (j = ip)) as [->|].
  - rewrite list_lookup_alter_eq. destruct (itable s !! ip); cbn; [by rewrite Hf|done].
  - by rewrite list_lookup_alter_ne.
Qed.

Abbreviation keeps := (resp same_tags).

(** ** Counting references *)

(** What an entry contributes to the references to inode [k]. *)
Definition weight (t : Z * Z * Z) (k : Z * Z) : Z :=
  let '(dv, n, r) := t in if decide ((dv, n) = k) then Z.max r 0 else 0.

Fixpoint refs (ts : list (Z * Z * Z)) (k : Z * Z) : Z :=
  match ts with [] => 0 | t :: ts => weight t k + refs ts k end.

Definition one (k k' : Z * Z) : Z := if decide (k = k') then 1 else 0.

(** No inode has two entries in use, and no count is negative. *)
Record table_ok (ts : list (Z * Z * Z)) : Prop := {
  tab_uniq i j dv n r r' : ts !! i = Some (dv, n, r) → ts !! j = Some (dv, n, r') → 0 < r → 0 < r' → i = j;
  tab_nonneg i dv n r : ts !! i = Some (dv, n, r) → 0 ≤ r;
}.

Lemma refs_insert ts ip t t' k :
  ts !! ip = Some t → refs (<[ip := t']> ts) k = refs ts k - weight t k + weight t' k.
Proof.
  revert ip. induction ts as [|u ts IH]; intros [|ip] Hip; [done|done|..]; cbn [refs insert list_insert].
  - injection Hip as ->. lia.
  - rewrite IH by done. lia.
Qed.

Lemma weight_nonneg t k : 0 ≤ weight t k.
Proof. destruct t as [[dv n] r]. unfold weight. case_decide; lia. Qed.

Lemma refs_nonneg ts k : 0 ≤ refs ts k.
Proof. induction ts as [|t ts IH]; cbn; [lia|]. pose proof (weight_nonneg t k). lia. Qed.

Lemma refs_ge ts ip dv n r : ts !! ip = Some (dv, n, r) → r ≤ refs ts (dv, n).
Proof.
  revert ip. induction ts as [|t ts IH]; intros [|ip] Hip; cbn [refs]; [done|done|..].
  - injection Hip as ->. pose proof (refs_nonneg ts (dv, n)). unfold weight. rewrite decide_True by done. lia.
  - pose proof (weight_nonneg t (dv, n)). specialize (IH _ Hip). lia.
Qed.

Lemma refs_none ts dv n : (∀ i r, ts !! i = Some (dv, n, r) → r ≤ 0) → refs ts (dv, n) = 0.
Proof.
  induction ts as [|[[dv' n'] r] ts IH]; intros H; cbn [refs]; [done|].
  rewrite IH by (intros i r' Hi; by apply (H (S i))). unfold weight. case_decide as E; [|done]. simplify_eq.
  specialize (H 0%nat r eq_refl). lia.
Qed.

(** With one entry per inode, the count is the number of references. *)
Lemma refs_unique ts ip dv n r :
  table_ok ts → ts !! ip = Some (dv, n, r) → 0 < r → refs ts (dv, n) = r.
Proof.
  intros [Hu Hn] Ht Hr. pose proof (refs_insert ts ip (dv, n, r) (dv, n, 0) (dv, n) Ht) as E.
  rewrite (refs_none (<[ip := (dv, n, 0)]> ts)) in E.
  - unfold weight in E. rewrite !decide_True in E by done. lia.
  - intros i r' Hi. destruct (decide (i = ip)) as [->|Hne].
    + rewrite list_lookup_insert_eq in Hi by (by eapply lookup_lt_Some). by simplify_eq.
    + rewrite list_lookup_insert_ne in Hi by done. destruct (decide (0 < r')); [|lia].
      destruct Hne. by eapply Hu.
Qed.

(** An entry in use has its count changed to another positive value or to 0. *)
Lemma recount ts ip dv n r r' :
  table_ok ts → ts !! ip = Some (dv, n, r) → 0 < r → 0 ≤ r' →
  table_ok (<[ip := (dv, n, r')]> ts) ∧
  ∀ k, refs (<[ip := (dv, n, r')]> ts) k = refs ts k + (r' - r) * one k (dv, n).
Proof.
  intros [Hu Hn] Ht Hr Hr'. pose proof (lookup_lt_Some _ _ _ Ht) as Hlt. split; [split|].
  - intros i j dv1 n1 r1 r2 Hi Hj H1 H2.
    destruct (decide (i = ip)) as [->|Hi'], (decide (j = ip)) as [->|Hj']; [done|..].
    + rewrite list_lookup_insert_eq in Hi by done. rewrite list_lookup_insert_ne in Hj by done. simplify_eq. eauto.
    + rewrite list_lookup_insert_eq in Hj by done. rewrite list_lookup_insert_ne in Hi by done. simplify_eq. eauto.
    + rewrite list_lookup_insert_ne in Hi, Hj by done. eauto.
  - intros i dv1 n1 r1 Hi. destruct (decide (i = ip)) as [->|].
    + rewrite list_lookup_insert_eq in Hi by done. by simplify_eq.
    + rewrite list_lookup_insert_ne in Hi by done. eauto.
  - intros k. rewrite (refs_insert _ _ _ _ _ Ht). unfold weight, one. repeat case_decide; subst; try done; lia.
Qed.

(** A free entry is given to an inode that has none. *)
Lemma reuse ts ip dv0 n0 dv n :
  table_ok ts → ts !! ip = Some (dv0, n0, 0) → (∀ i r, ts !! i = Some (dv, n, r) → r ≤ 0) →
  table_ok (<[ip := (dv, n, 1)]> ts) ∧ ∀ k, refs (<[ip := (dv, n, 1)]> ts) k = refs ts k + one k (dv, n).
Proof.
  intros [Hu Hn] Ht Hnone. pose proof (lookup_lt_Some _ _ _ Ht) as Hlt. split; [split|].
  - intros i j dv1 n1 r1 r2 Hi Hj H1 H2.
    destruct (decide (i = ip)) as [->|Hi'], (decide (j = ip)) as [->|Hj']; [done|..].
    + rewrite list_lookup_insert_eq in Hi by done. rewrite list_lookup_insert_ne in Hj by done. simplify_eq.
      apply Hnone in Hj. lia.
    + rewrite list_lookup_insert_eq in Hj by done. rewrite list_lookup_insert_ne in Hi by done. simplify_eq.
      apply Hnone in Hi. lia.
    + rewrite list_lookup_insert_ne in Hi, Hj by done. eauto.
  - intros i dv1 n1 r1 Hi. destruct (decide (i = ip)) as [->|].
    + rewrite list_lookup_insert_eq in Hi by done. by simplify_eq.
    + rewrite list_lookup_insert_ne in Hi by done. eauto.
  - intros k. rewrite (refs_insert _ _ _ _ _ Ht). unfold weight, one. repeat case_decide; subst; try done; lia.
Qed.

(** ** Getting and putting *)

Lemma find_inode_spec dv n l :
  match find_inode dv n l with
  | Some ip => ∃ i, l !! ip = Some i ∧ 0 < ref i ∧ dev i = dv ∧ inum i = n
  | None => ∀ ip i, l !! ip = Some i → dev i = dv → inum i = n → ref i ≤ 0
  end.
Proof.
  induction l as [|i l IH]; cbn [find_inode]; [done|].
  destruct ((0 <? ref i) && (dev i =? dv) && (inum i =? n)) eqn:E.
  - apply andb_prop in E as [[??]%andb_prop ?]. zbool. by exists i.
  - destruct (find_inode dv n l) as [ip|]; cbn; [done|]. intros [|ip] j Hj Hdv Hn; cbn in Hj; [|by eauto].
    simplify_eq. destruct (Z.ltb_spec 0 (ref j)); [|lia]. rewrite !Z.eqb_refl in E. done.
Qed.

Lemma find_empty_spec l ip : find_empty l = Some ip → ∃ i, l !! ip = Some i ∧ ref i = 0.
Proof.
  revert ip. induction l as [|i l IH]; intros ip; cbn [find_empty]; [done|].
  destruct (Z.eqb_spec (ref i) 0).
  - intros [= <-]. by exists i.
  - intros (k & E & ->)%fmap_Some. by apply IH.
Qed.

Lemma tags_lookup s ip : tags s !! ip = tag <$> itable s !! ip.
Proof. apply list_lookup_fmap. Qed.

Lemma tags_upd s ip f i :
  itable s !! ip = Some i → tags (set_itable (alter f ip (itable s)) s) = <[ip := tag (f i)]> (tags s).
Proof.
  intros Hi. unfold tags. cbn. apply list_eq. intros j. rewrite list_lookup_fmap.
  destruct (decide (j = ip)) as [->|].
  - rewrite list_lookup_alter_eq, Hi, list_lookup_insert_eq; [done|].
    rewrite length_fmap. by eapply lookup_lt_Some.
  - by rewrite list_lookup_alter_ne, list_lookup_insert_ne, list_lookup_fmap.
Qed.

(** The entry [ip] is in use for [k]. *)
Definition names (s : fs) (ip : nat) (k : Z * Z) : Prop :=
  ∃ r, tags s !! ip = Some (k.1, k.2, r) ∧ 0 < r.

Lemma s32_small z : 0 ≤ z ≤ INT_MAX → s32 z = z.
Proof. intros H. apply sx_small; [unfold INT_MAX in H; change (32 - 1) with 31; lia|lia]. Qed.

(** The count of an entry in use changes by [d] to another value that is not
    negative; other references, and this one if it is still counted, stay. *)
Lemma bump_refs s ip dv n d :
  table_ok (tags s) → names s ip (dv, n) → -1 ≤ d ≤ 1 → (∀ k, refs (tags s) k < INT_MAX) →
  let s' := set_itable (alter (λ p, set_ref (s32 (ref p + d)) p) ip (itable s)) s in
  table_ok (tags s') ∧ (∀ k, refs (tags s') k = refs (tags s) k + d * one k (dv, n)) ∧
  (∀ jp k, names s jp k → jp ≠ ip ∨ 0 < d ∨ 1 < refs (tags s) (dv, n) → names s' jp k).
Proof.
  intros Hok (r & Ht & Hr) Hd Hmax s'. cbn [fst snd] in Ht. rewrite tags_lookup in Ht.
  apply fmap_Some in Ht as (i & Hi & E). unfold tag in E. simplify_eq.
  assert (tags s !! ip = Some (dev i, inum i, ref i)) as Ht by (by rewrite tags_lookup, Hi).
  pose proof (refs_ge _ _ _ _ _ Ht). specialize (Hmax (dev i, inum i)).
  assert (tags s' = <[ip := (dev i, inum i, ref i + d)]> (tags s)) as Etags.
  { unfold s'. rewrite (tags_upd _ _ _ _ Hi). unfold tag, set_ref. cbn. by rewrite s32_small by lia. }
  destruct (recount _ ip _ _ (ref i) (ref i + d) Hok Ht) as [Hok' Hrefs]; [lia..|].
  rewrite Etags. split_and!; [done|intros k; rewrite Hrefs; lia|].
  intros jp k (r' & Hj & Hr') Hor. unfold names. rewrite Etags. destruct (decide (jp = ip)) as [->|].
  2: { exists r'. by rewrite list_lookup_insert_ne. }
  rewrite Ht in Hj. simplify_eq. destruct Hor as [|Hor]; [done|].
  exists (ref i + d). rewrite list_lookup_insert_eq by (by eapply lookup_lt_Some). split; [congruence|].
  destruct Hor as [|Hor]; [lia|]. enough (refs (tags s) (dev i, inum i) = ref i) by lia.
  by eapply refs_unique.
Qed.

Lemma inode_get_refs dv n s :
  table_ok (tags s) → (∀ k, refs (tags s) k < INT_MAX) →
  wlp (inode_get dv n) (λ ip s', table_ok (tags s') ∧ names s' ip (dv, n) ∧
    (∀ k, refs (tags s') k = refs (tags s) k + one k (dv, n)) ∧
    ∀ jp k, names s jp k → names s' jp k) s.
Proof.
  intros Hok Hmax. unfold inode_get. apply wlp_bind, wlp_gets.
  pose proof (find_inode_spec dv n (itable s)) as Hfind.
  destruct (find_inode dv n (itable s)) as [ip|].
  - destruct Hfind as (i & Hi & Hr & Hdv & Hn). apply wlp_bind, wlp_modify, wlp_ret.
    assert (names s ip (dv, n)) as Hnm by (exists (ref i); rewrite tags_lookup, Hi; unfold tag; cbn; by rewrite Hdv, Hn).
    destruct (bump_refs s ip dv n 1 Hok Hnm) as (Hok' & Hrefs & Hkeep); [lia|done|].
    split_and!; [done|apply Hkeep; [done|lia]|intros k; rewrite Hrefs; lia|].
    intros jp k Hj. apply Hkeep; [done|lia].
  - destruct (find_empty (itable s)) as [ip|] eqn:He; [|apply wlp_fail].
    apply find_empty_spec in He as (i & Hi & Hr). apply wlp_bind, wlp_modify, wlp_ret.
    assert (tags s !! ip = Some (dev i, inum i, 0)) as Ht by (rewrite tags_lookup, Hi; unfold tag; cbn; congruence).
    assert (tags (set_itable (alter (recycle dv n) ip (itable s)) s) = <[ip := (dv, n, 1)]> (tags s)) as Etags
      by (by rewrite (tags_upd _ _ _ _ Hi)).
    destruct (reuse _ ip _ _ dv n Hok Ht) as [Hok' Hrefs].
    { intros j r Hj. rewrite tags_lookup in Hj. apply fmap_Some in Hj as (x & Hx & E). unfold tag in E. simplify_eq.
      by apply (Hfind j x). }
    rewrite !Etags. split_and!; [done|..|done|].
    + exists 1. rewrite Etags, list_lookup_insert_eq; [done|by eapply lookup_lt_Some].
    + intros jp k (r & Hj & Hr'). unfold names. rewrite Etags. exists r.
      rewrite list_lookup_insert_ne; [done|]. intros ->. rewrite Ht in Hj. simplify_eq. lia.
Qed.

Lemma inode_dup_refs ip k0 s :
  table_ok (tags s) → (∀ k, refs (tags s) k < INT_MAX) → names s ip k0 →
  wlp (inode_dup ip) (λ jp s', jp = ip ∧ table_ok (tags s') ∧ names s' ip k0 ∧
    ∀ k, refs (tags s') k = refs (tags s) k + one k k0) s.
Proof.
  intros Hok Hmax Hnm. destruct k0 as [dv n]. unfold inode_dup. apply wlp_bind.
  eapply wlp_mono; [apply wlp_and; [apply (resp_the_inode same_tags)|]|].
  { instantiate (1 := λ _ s', s' = s). unfold wlp, the_inode, from_option. by destruct (itable s !! ip). }
  intros i s' [_ ->]. apply wlp_bind, wlp_modify, wlp_ret.
  destruct (bump_refs s ip dv n 1 Hok Hnm) as (Hok' & Hrefs & Hkeep); [lia|done|].
  split_and!; [done|done|apply Hkeep; [done|lia]|intros k; rewrite Hrefs; lia].
Qed.

(** The freeing of an unlinked inode comes first and changes no count. *)
Lemma inode_put_refs ip k0 s :
  table_ok (tags s) → (∀ k, refs (tags s) k < INT_MAX) → names s ip k0 →
  wlp (inode_put ip) (λ _ s', table_ok (tags s') ∧ (∀ k, refs (tags s') k = refs (tags s) k - one k k0) ∧
    ∀ jp k, names s jp k → jp ≠ ip ∨ 1 < refs (tags s) k0 → names s' jp k) s.
Proof.
  intros Hok Hmax Hnm. destruct k0 as [dv n]. unfold inode_put. apply wlp_bind.
  eapply wlp_mono; [apply (resp_the_inode same_tags)|]. intros i s1 E1. apply wlp_bind.
  eapply wlp_mono.
  { match goal with |- wlp ?m _ _ => assert (keeps m) as Hk by resp_all end. apply Hk. }
  intros [] s2 E2. unfold same_tags in E1, E2. rewrite E1 in E2. apply wlp_modify. unfold names in *. rewrite <- E2 in *.
  destruct (bump_refs s2 ip dv n (-1) Hok Hnm) as (Hok' & Hrefs & Hkeep); [lia|done|].
  split_and!; [done|intros k; rewrite Hrefs; lia|].
  intros jp k Hj Hor. apply Hkeep; [done|tauto].
Qed.

Lemma inode_unlockput_refs ip k0 s :
  table_ok (tags s) → (∀ k, refs (tags s) k < INT_MAX) → names s ip k0 →
  wlp (inode_unlockput ip) (λ _ s', table_ok (tags s') ∧ (∀ k, refs (tags s') k = refs (tags s) k - one k k0) ∧
    ∀ jp k, names s jp k → jp ≠ ip ∨ 1 < refs (tags s) k0 → names s' jp k) s.
Proof.
  intros Hok Hmax Hnm. unfold inode_unlockput. apply wlp_bind. eapply wlp_mono; [apply (resp_inode_unlock same_tags)|].
  intros [] s1 E1. unfold names in *. rewrite <- E1 in *. by apply inode_put_refs.
Qed.

(** ** Looking up names *)

Section lookup.
Context (dev_read : Z → option (Z → nat → Z → FS (Z * list Z))).
(** A driver's read routine does not change which inodes are in use. *)
Hypothesis Hdev : ∀ mj f, dev_read mj = Some f → ∀ mn ip n, keeps (f mn ip n).

(** What a lookup that starts with the counts [ts] gives. *)
Definition looked_up (s : fs) (o : option (Z * nat)) (s' : fs) : Prop :=
  table_ok (tags s') ∧ (∀ jp k, names s jp k → names s' jp k) ∧
  match o with
  | None => tags s' = tags s
  | Some (_, ip) => ∃ k0, names s' ip k0 ∧ ∀ k, refs (tags s') k = refs (tags s) k + one k k0
  end.

Lemma looked_up_tags s1 s2 o s' : tags s1 = tags s2 → looked_up s1 o s' → looked_up s2 o s'.
Proof. unfold looked_up, names. by intros ->. Qed.

Lemma dirlookup_refs de dp name s :
  table_ok (tags s) → (∀ k, refs (tags s) k < INT_MAX) →
  wlp (dirlookup dev_read de dp name) (looked_up s) s.
Proof.
  intros Hok Hmax. unfold dirlookup.
  apply wlp_bind. eapply wlp_mono; [apply (resp_holdingsleep same_tags)|]. intros h s1 E1.
  apply wlp_bind. eapply wlp_mono; [apply (resp_assert same_tags)|]. intros [] s2 E2.
  apply wlp_bind. eapply wlp_mono; [apply (resp_the_inode same_tags)|]. intros i s3 E3.
  case_match; [apply wlp_fail|]. unfold same_tags in E1, E2, E3. rewrite E2, E1 in E3. clear E1 E2.
  eapply wlp_mono; [|intros o s'; by apply (looked_up_tags s3)].
  rewrite <- E3 in Hok, Hmax. clear E3. generalize 0 as off. generalize (dir_fuel (size (di i))) as k.
  clear dependent i. intros k off. revert de off s3 Hok Hmax.
  induction k as [|k IH]; intros de off s3 Hok Hmax; cbn [dirlookup_loop]; [apply wlp_fail|].
  apply wlp_bind. eapply wlp_mono; [apply (resp_the_inode same_tags)|]. intros i s4 E4. unfold same_tags in E4.
  destruct (off <? size (di i)).
  2: { apply wlp_ret. unfold looked_up, names. rewrite E4. by split_and!. }
  apply wlp_bind. eapply wlp_mono; [apply (resp_inode_read same_tags dev_read Hdev)|]. intros [r bs] s5 E5. unfold same_tags in E5. rewrite E4 in E5. clear E4.
  rewrite <- E5 in Hok, Hmax.
  case_match; [apply wlp_fail|]. eapply wlp_mono; [|intros o s'; by apply (looked_up_tags s5)].
  case_match; [by apply IH|].
  apply wlp_bind. eapply wlp_mono; [apply (resp_lift same_tags)|]. intros c s6 E6. unfold same_tags in E6.
  rewrite <- E6 in Hok, Hmax. eapply wlp_mono; [|intros o s'; by apply (looked_up_tags s6)].
  case_match; [|by apply IH].
  apply wlp_bind. eapply wlp_mono; [by apply inode_get_refs|]. intros ip s7 (Hok7 & Hnm & Hrefs & Hkeep).
  apply wlp_ret. split_and!; [done|done|]. by exists (dev i, de_ino (put_bytes de 0 bs)).
Qed.

(** ** Paths *)

(** After the loop: [base] references, and one more for what was returned. *)
Definition walked (base : Z * Z → Z) (o : option (nat * list Z)) (s' : fs) : Prop :=
  table_ok (tags s') ∧
  match o with
  | None => ∀ k, refs (tags s') k = base k
  | Some (ip, _) => ∃ k0, names s' ip k0 ∧ ∀ k, refs (tags s') k = base k + one k k0
  end.

Lemma one_range k k' : 0 ≤ one k k' ≤ 1.
Proof. unfold one. case_decide; lia. Qed.

Lemma one_same k : one k k = 1.
Proof. unfold one. by rewrite decide_True. Qed.

Lemma namex_loop_refs de base ip k0 path parent name k s :
  (∀ k, 0 ≤ base k ∧ base k + 2 < INT_MAX) →
  table_ok (tags s) → names s ip k0 → (∀ k, refs (tags s) k = base k + one k k0) →
  wlp (namex_loop dev_read de ip path parent name k) (walked base) s.
Proof.
  intros Hbase. revert ip k0 path name s.
  induction k as [|k IH]; intros ip k0 path name s Hok Hnm Hrefs; cbn [namex_loop]; [apply wlp_fail|].
  assert (∀ x, refs (tags s) x < INT_MAX) as Hmax.
  { intros x. rewrite Hrefs. pose proof (one_range x k0). pose proof (Hbase x). lia. }
  destruct (skipelem path) as [[name' path']|].
  2: { destruct parent.
    - apply wlp_bind. eapply wlp_mono; [by eapply inode_put_refs|]. intros [] s1 (Hok1 & Hr1 & _).
      apply wlp_ret. split; [done|]. intros x. rewrite Hr1, Hrefs. lia.
    - apply wlp_ret. split; [done|]. by exists k0. }
  apply wlp_bind. eapply wlp_mono; [apply (resp_inode_lock same_tags)|]. intros [] s1 E1.
  apply wlp_bind. eapply wlp_mono; [apply (resp_the_inode same_tags)|]. intros i s2 E2. unfold same_tags in E1, E2. rewrite E1 in E2. clear E1 s1.
  unfold names in Hnm. rewrite <- E2 in Hok, Hmax, Hnm, Hrefs. fold (names s2 ip k0) in Hnm. clear E2 s.
  assert (wlp (inode_unlockput ip ≫= λ _, mret None) (walked base) s2) as Hnone.
  { apply wlp_bind. eapply wlp_mono; [by eapply inode_unlockput_refs|]. intros [] s1 (Hok1 & Hr1 & _).
    apply wlp_ret. split; [done|]. intros x. rewrite Hr1, Hrefs. lia. }
  case_match; [done|]. case_match.
  { apply wlp_bind. eapply wlp_mono; [apply (resp_inode_unlock same_tags)|]. intros [] s3 E3. apply wlp_ret.
    unfold walked, names. unfold same_tags in E3. rewrite E3. split; [done|]. by exists k0. }
  apply wlp_bind. eapply wlp_mono; [by apply dirlookup_refs|]. intros o s3 (Hok3 & Hkeep & Ho).
  destruct o as [[off next]|].
  - destruct Ho as (k1 & Hnm1 & Hr1). apply wlp_bind.
    assert (∀ x, refs (tags s3) x < INT_MAX) as Hmax3.
    { intros x. rewrite Hr1, Hrefs. pose proof (one_range x k0). pose proof (one_range x k1). pose proof (Hbase x). lia. }
    eapply wlp_mono; [apply (inode_unlockput_refs ip k0); [done|done|by apply Hkeep]|].
    intros [] s4 (Hok4 & Hr4 & Hkeep4). apply (IH next k1).
    + done.
    + apply Hkeep4; [done|]. destruct (decide (next = ip)) as [->|]; [|by left]. right.
      destruct Hnm1 as (r1 & Ht1 & _). destruct (Hkeep _ _ Hnm) as (r0 & Ht0 & _). rewrite Ht1 in Ht0.
      assert (k1 = k0) as -> by (destruct k0, k1; cbn in *; congruence).
      rewrite Hr1, Hrefs, !one_same. pose proof (Hbase k0). lia.
    + intros x. rewrite Hr4, Hr1, Hrefs. lia.
  - unfold names in Hnm. rewrite <- Ho in *. fold (names s3 ip k0) in Hnm.
    apply wlp_bind. eapply wlp_mono; [by eapply inode_unlockput_refs|]. intros [] s4 (Hok4 & Hr4 & _).
    apply wlp_ret. split; [done|]. intros x. rewrite Hr4, Hrefs. lia.
Qed.

End lookup.

(** C8. Path name lookup does not leak references.  Whenever [namex] returns,
    on any path, from any directory and through every early exit (a component
    that is not a directory, a name that is not found, no parent), each inode
    has as many references as before, and one more exactly for the inode that
    is returned; no inode gets a second entry in the inode table. *)
Theorem namex_references dev_read de from kf path parent s :
  (∀ mj f, dev_read mj = Some f → ∀ mn ip n, keeps (f mn ip n)) →
  table_ok (tags s) → names s from kf → (∀ k, refs (tags s) k + 2 < INT_MAX) →
  wlp (namex dev_read de from path parent) (λ o s',
    table_ok (tags s') ∧
    match o with
    | None => ∀ k, refs (tags s') k = refs (tags s) k
    | Some (ip, _) => ∃ k0, names s' ip k0 ∧ ∀ k, refs (tags s') k = refs (tags s) k + one k k0
    end) s.
Proof.
  intros Hdev Hok Hnm Hmax. assert (∀ k, refs (tags s) k < INT_MAX) as Hmax1 by (intros k; specialize (Hmax k); lia).
  assert (∀ k, 0 ≤ refs (tags s) k ∧ refs (tags s) k + 2 < INT_MAX) as Hbase by (intros k; split; [apply refs_nonneg|done]).
  assert (wlp (match path with
      | c :: _ => if c =? SLASH then inode_get ROOTDEV ROOTINO else inode_dup from
      | [] => inode_dup from end)
    (λ ip s', table_ok (tags s') ∧ ∃ k0, names s' ip k0 ∧ ∀ k, refs (tags s') k = refs (tags s) k + one k k0) s) as Hstart.
  { assert (wlp (inode_dup from) (λ ip s', table_ok (tags s') ∧
      ∃ k0, names s' ip k0 ∧ ∀ k, refs (tags s') k = refs (tags s) k + one k k0) s) as Hdup.
    { eapply wlp_mono; [by apply (inode_dup_refs from kf)|]. intros ip s' (-> & ? & ? & ?). split; [done|]. by exists kf. }
    destruct path as [|c path]; [done|]. destruct (c =? SLASH); [|done].
    eapply wlp_mono; [by apply inode_get_refs|]. intros ip s' (? & ? & ? & _). split; [done|]. by exists (ROOTDEV, ROOTINO). }
  unfold namex. apply wlp_bind. eapply wlp_mono; [apply Hstart|]. intros ip s' (Hok' & k0 & Hnm' & Hr').
  by apply (namex_loop_refs dev_read Hdev de (refs (tags s)) ip k0).
Qed.

(** A disk with the root directory, inode 1, that has the entry "a" for the
    empty file, inode 2; the current directory is the root. *)
Definition sample_entry : list Z := le_bytes 4 2 ++ [97] ++ replicate 255 0.
Definition sample_root : dinode := mkdinode 0 0 0 260 S_IFDIR 0 0 (6 :: replicate 9 0) 0 0 1.
Definition sample_a : dinode := mkdinode 0 0 0 0 S_IFREG 0 0 (replicate 10 0) 0 0 1.
Definition sample_tree : fs :=
  let zeros := replicate BSIZE 0 in
  mkfs (mkabs (<[3 := put_dinode (put_dinode zeros (ioff 1) 0 sample_root) (ioff 2) 0 sample_a]>
               (<[4 := 127 :: replicate (BSIZE - 1) 0]>
               (<[6 := sample_entry ++ replicate (BSIZE - 260) 0]>
               (list_to_map ((λ b, (b, zeros)) <$> seqZ 0 24))))) ∅ ∅)
    [] (mksb SIGNATURE 24 18 16 1 2 3 4)
    [mkinode 1 1 1 false false sample_root; mkinode 0 0 0 false false sample_a; mkinode 0 0 0 false false sample_a] 9.

Lemma sample_table : table_ok (tags sample_tree).
Proof.
  split.
  - intros [|[|[|i]]] [|[|[|j]]]; cbn; unfold tag; rewrite ?lookup_nil; intros; simplify_eq/=; done || lia.
  - intros [|[|[|i]]]; cbn; unfold tag; rewrite ?lookup_nil; intros; simplify_eq/=; lia.
Qed.

Lemma sample_refs k : refs (tags sample_tree) k ≤ 1.
Proof. unfold tags, refs, weight. cbn [itable sample_tree fmap list_fmap tag dev inum ref]. repeat case_decide; lia. Qed.

Lemma namex_references_witness :
  (match namex (λ _, None) (replicate 260 0) 0 [47; 97] false sample_tree with
   | Ok (Some (ip, name), s') => bool_decide (tags s' !! ip = Some (1, 2, 1) ∧ name = [97])
   | _ => false
   end = true) ∧
  wlp (namex (λ _, None) (replicate 260 0) 0 [47; 97] false) (λ o s',
    table_ok (tags s') ∧
    match o with
    | None => ∀ k, refs (tags s') k = refs (tags sample_tree) k
    | Some (ip, _) => ∃ k0, names s' ip k0 ∧ ∀ k, refs (tags s') k = refs (tags sample_tree) k + one k k0
    end) sample_tree.
Proof.
  split; [vm_compute; reflexivity|].
  apply (namex_references (λ _, None) (replicate 260 0) 0 (1, 1)).
  - intros mj f Hf. discriminate Hf.
  - apply sample_table.
  - exists 1. split; [reflexivity|lia].
  - intros k. pose proof (sample_refs k). unfold INT_MAX. lia.
Defined.

End FsPath.
