(* ===== verification/FsDir.v ===== *)
(** * Directories

    A directory is a file of entries of [DIRENT_SIZE] bytes.  Its contents as a
    list of inode numbers and names, and [dirlookup] and [dirlink] on it. *)

From S2P Require Import Prelude Mem CType KString Words Block Fs FsBlock FsTree FsFile.

Module FsDir.
Import Block Fs FsBlock FsTree FsFile.

(** ** Names *)

Definition name_ok (y : list Z) : Prop := (length y < DIRSIZ)%nat ∧ Forall (λ b, 0 < b < 256) y.

Lemma arena_l x y : length x ≤ 4096 → bytes_at (arena x y) 4096 x.
Proof.
  intros H. unfold arena. apply bytes_at_set_ne; [|apply bytes_at_set_eq]. right. lia.
Qed.

(** [namecmp] of a name and the name field of an entry. *)
Lemma namecmp_ok x y rest :
  name_ok x → name_ok y → length (y ++ [0] ++ rest) ≤ 4096 →
  ∃ r, namecmp (x ++ [0]) (y ++ [0] ++ rest) = Ok r ∧ (r = 0 ↔ x = y).
Proof.
  intros [Hx Hxb] [Hy Hyb] Hlen. unfold namecmp.
  rewrite (KString.strncmp_ok _ _ _ _ x y).
  - eexists. split; [done|]. rewrite Nat2Z.id, KString.cmp_spec_0_iff by done.
    rewrite !take_ge by lia. done.
  - split; [|done]. apply arena_l. rewrite length_app. cbn. unfold DIRSIZ in Hx. lia.
  - split; [|done]. unfold arena.
    pose proof (bytes_at_set_eq (set_bytes ∅ 4096 (x ++ [0])) 8192 (y ++ [0] ++ rest)) as H.
    rewrite (assoc_L (++)) in H |- *. rewrite bytes_at_app in H. apply H.
  - lia.
Qed.

(** ** Entries *)

Definition is_entry (ch : list Z) (e : Z * list Z) : Prop :=
  length ch = DIRENT_SIZE ∧ Forall byte_ok ch ∧ de_ino ch = e.1 ∧
  (e.1 ≠ 0 → name_ok e.2 ∧ ∃ rest, de_name ch = e.2 ++ [0] ++ rest).

(** The first entry in use with a name: its index and inode number. *)
Fixpoint dir_find (es : list (Z * list Z)) (name : list Z) : option (nat * Z) :=
  match es with
  | [] => None
  | (n, y) :: es =>
      if bool_decide (n ≠ 0 ∧ y = name) then Some (0%nat, n)
      else (λ '(k, n), (S k, n)) <$> dir_find es name
  end.

(** The first free entry, or the end. *)
Fixpoint dir_free (es : list (Z * list Z)) : nat :=
  match es with
  | [] => 0
  | (n, _) :: es => if n =? 0 then 0%nat else S (dir_free es)
  end.

Definition dir_insert (es : list (Z * list Z)) (e : Z * list Z) : list (Z * list Z) :=
  take (dir_free es) es ++ [e] ++ drop (S (dir_free es)) es.

Record directory (s : fs) (dp : nat) (es : list (Z * list Z)) (i : inode) : Prop := {
  dir_file : ∃ chs, file s dp (concat chs) i ∧ Forall2 is_entry chs es;
  dir_mode : S_ISDIR (mode (di i)) = true;
}.

Lemma length_chunks chs es : Forall2 is_entry chs es → length (concat chs) = (DIRENT_SIZE * length es)%nat.
Proof.
  induction 1 as [|ch e chs es [Hl _] _ IH]; [done|]. cbn [concat length]. rewrite length_app, IH, Hl. lia.
Qed.

Lemma chunk_at chs es k ch :
  Forall2 is_entry chs es → chs !! k = Some ch → get_bytes (concat chs) (DIRENT_SIZE * k) DIRENT_SIZE = ch.
Proof.
  intros H. revert k. induction H as [|c e chs es [Hl _] _ IH]; intros k Hk; [done|].
  destruct k as [|k]; cbn [concat] in *; unfold get_bytes in *.
  - injection Hk as ->. rewrite Nat.mul_0_r, drop_0, <- Hl. apply take_app_length.
  - rewrite <- (IH k Hk). f_equal. rewrite drop_app_ge by lia. f_equal. lia.
Qed.

Lemma put_bytes_all d l : length l = length d → put_bytes d 0 l = l.
Proof. intros H. unfold put_bytes. rewrite take_0, Nat.add_0_l, H, drop_all. by rewrite app_nil_l, app_nil_r. Qed.

Section lookup.
Context (dev_read : Z → option (Z → nat → Z → FS (Z * list Z))).
Context (s : fs) (dp : nat) (es : list (Z * list Z)) (i : inode) (chs : list (list Z)).
Hypothesis Hfile : file s dp (concat chs) i.
Hypothesis Hent : Forall2 is_entry chs es.

Lemma read_entry k ch :
  chs !! k = Some ch →
  inode_read dev_read dp (Z.of_nat (DIRENT_SIZE * k)) DIRENT_SIZE s = Ok ((Z.of_nat DIRENT_SIZE, ch), s).
Proof.
  intros Hk. pose proof (Forall2_length _ _ _ Hent) as Hlen. pose proof (lookup_lt_Some _ _ _ Hk).
  rewrite (inode_read_run dev_read s dp (concat chs) i);
    [|done|rewrite (length_chunks _ _ Hent); nia|unfold DIRENT_SIZE; lia].
  rewrite (chunk_at _ _ _ _ Hent Hk). by destruct (Forall2_lookup_l _ _ _ _ _ Hent Hk) as (e & _ & [-> _]).
Qed.

Lemma dir_size : size (di i) = (DIRENT_SIZE * length es)%nat.
Proof. rewrite (f_size _ _ _ _ Hfile). by rewrite (length_chunks _ _ Hent). Qed.

(** What a search that has come to entry [k] returns. *)
Definition lookup_result (k : nat) (o : option (nat * Z)) : FS (option (Z * nat)) :=
  match o with
  | None => mret None
  | Some (j, n) => ip ← inode_get (dev i) n; mret (Some (Z.of_nat (DIRENT_SIZE * (k + j)), ip))
  end.

Lemma entry_cases k :
  (k < length es)%nat → ∃ ch n y, chs !! k = Some ch ∧ es !! k = Some (n, y) ∧ is_entry ch (n, y) ∧
    drop k es = (n, y) :: drop (S k) es.
Proof.
  intros Hk. destruct (lookup_lt_is_Some_2 _ _ Hk) as [[n y] He].
  destruct (Forall2_lookup_r _ _ _ _ _ Hent He) as (ch & Hc & Hie). exists ch, n, y. split_and!; try done.
  by apply drop_S.
Qed.

Lemma dirlookup_loop_run name de (k fuel : nat) :
  name_ok name → length de = DIRENT_SIZE → (k ≤ length es)%nat → (length es - k < fuel)%nat →
  dirlookup_loop dev_read dp name de (Z.of_nat (DIRENT_SIZE * k)) fuel s =
    lookup_result k (dir_find (drop k es) name) s.
Proof.
  intros Hname. revert k de. induction fuel as [|fuel IH]; intros k de Hde Hk Hfuel; [lia|].
  cbn [dirlookup_loop]. rewrite (the_inode_bind dp i) by apply Hfile. rewrite dir_size.
  destruct (Z.ltb_spec (DIRENT_SIZE * k)%nat (DIRENT_SIZE * length es)%nat) as [Hlt|Hge].
  2: { rewrite drop_ge by (unfold DIRENT_SIZE in *; lia). done. }
  assert (k < length es)%nat as Hk' by (unfold DIRENT_SIZE in *; lia).
  destruct (entry_cases k Hk') as (ch & n & y & Hc & He & (Hl & _ & Hino & Hnm) & Hdrop).
  rewrite (bind_run _ _ _ _ _ (read_entry k ch Hc)). rewrite put_bytes_all by congruence.
  rewrite Hdrop. cbn [dir_find fst snd] in *. rewrite Hino.
  rewrite (proj2 (Z.ltb_ge _ 0)) by lia.
  assert (dirlookup_loop dev_read dp name ch (Z.of_nat (DIRENT_SIZE * k) + Z.of_nat DIRENT_SIZE) fuel s =
    lookup_result k ((λ '(k, n), (S k, n)) <$> dir_find (drop (S k) es) name) s) as Hnext.
  { replace (Z.of_nat (DIRENT_SIZE * k) + Z.of_nat DIRENT_SIZE) with (Z.of_nat (DIRENT_SIZE * S k)) by lia.
    rewrite IH by (done || lia). destruct (dir_find (drop (S k) es) name) as [[j m]|]; cbn; [|done].
    by replace (k + S j)%nat with (S (k + j)) by lia. }
  destruct (Z.eqb_spec n 0) as [->|Hn].
  - rewrite bool_decide_false by tauto. apply Hnext.
  - destruct (Hnm Hn) as [Hy (rest & Hrest)]. rewrite Hrest.
    destruct (namecmp_ok name y rest) as (r & Er & Hr); [done|done| |].
    { rewrite <- Hrest. unfold de_name. rewrite length_get_bytes by (rewrite Hl; unfold DIRENT_SIZE; lia). lia. }
    rewrite (bind_run _ _ _ r s) by (by rewrite Er).
    destruct (Z.eqb_spec r 0) as [Hz|Hz].
    + rewrite bool_decide_true by (split; [done|symmetry; by apply Hr]). cbn [lookup_result]. by rewrite Nat.add_0_r.
    + rewrite bool_decide_false by (intros [_ ->]; by apply Hz, Hr). apply Hnext.
Qed.

Lemma free_entry_run de (k fuel : nat) :
  length de = DIRENT_SIZE → (k ≤ length es)%nat → (length es - k < fuel)%nat →
  ∃ de', length de' = DIRENT_SIZE ∧ (Forall byte_ok de → Forall byte_ok de') ∧
    free_entry dev_read dp de (Z.of_nat (DIRENT_SIZE * k)) fuel s =
      Ok (inr (Z.of_nat (DIRENT_SIZE * (k + dir_free (drop k es))), de'), s).
Proof.
  revert k de. induction fuel as [|fuel IH]; intros k de Hde Hk Hfuel; [lia|].
  cbn [free_entry]. rewrite (the_inode_bind dp i) by apply Hfile. rewrite dir_size.
  destruct (Z.ltb_spec (DIRENT_SIZE * k)%nat (DIRENT_SIZE * length es)%nat) as [Hlt|Hge].
  2: { exists de. rewrite drop_ge by (unfold DIRENT_SIZE in *; lia). cbn [dir_free]. by rewrite Nat.add_0_r. }
  assert (k < length es)%nat as Hk' by (unfold DIRENT_SIZE in *; lia).
  destruct (entry_cases k Hk') as (ch & n & y & Hc & He & (Hl & Hb & Hino & _) & Hdrop).
  rewrite (bind_run _ _ _ _ _ (read_entry k ch Hc)). rewrite put_bytes_all by congruence.
  rewrite Hdrop. cbn [dir_free fst snd] in *. rewrite Hino. change (s32 (Z.of_nat DIRENT_SIZE)) with 260.
  cbn [Z.ltb Z.compare]. destruct (Z.eqb_spec n 0) as [->|Hn].
  - exists ch. by rewrite Nat.add_0_r.
  - replace (Z.of_nat (DIRENT_SIZE * k) + Z.of_nat DIRENT_SIZE) with (Z.of_nat (DIRENT_SIZE * S k)) by lia.
    destruct (IH (S k) ch) as (de' & Hde' & Hb' & E); [done|lia|lia|]. exists de'. split_and!; [done|auto|].
    rewrite E. by replace (k + S (dir_free (drop (S k) es)))%nat with (S k + dir_free (drop (S k) es))%nat by lia.
Qed.

End lookup.

(** ** A new entry *)

Lemma fill_entry_ok de name n :
  length de = DIRENT_SIZE → Forall byte_ok de → name_ok name → 0 < n < 2 ^ 32 →
  is_entry (fill_entry de name n) (n, name).
Proof.
  intros Hde Hb [Hlen Hnb] Hn. unfold DIRENT_SIZE, DIRSIZ in *.
  set (L := take DIRSIZ (name ++ replicate DIRSIZ 0)).
  assert (L = name ++ [0] ++ replicate (253 - length name) 0) as EL.
  { unfold L, DIRSIZ. rewrite take_app_ge by lia. f_equal. rewrite take_replicate.
    replace ((254 - length name) `min` 254)%nat with (S (253 - length name)) by lia. done. }
  assert (length L = 254%nat) as HlL by (rewrite EL, !length_app, length_replicate; cbn; lia).
  assert (Forall byte_ok L) as HbL.
  { rewrite EL, !Forall_app. split_and!; [eapply Forall_impl; [exact Hnb|]; cbn; lia|repeat constructor; lia|].
    apply Forall_replicate. lia. }
  unfold fill_entry. fold L. set (D := put_bytes de 4 L).
  assert (length D = 260%nat) as HlD by (unfold D; rewrite length_put_bytes; lia).
  assert (Forall byte_ok D) as HbD.
  { unfold D, put_bytes. rewrite !Forall_app. split_and!; [by apply Forall_take|done|by apply Forall_drop]. }
  split_and!.
  - by rewrite length_put_le by lia.
  - unfold put_le, put_bytes. rewrite !Forall_app. split_and!; [by apply Forall_take|apply le_bytes_range|by apply Forall_drop].
  - unfold de_ino. apply get_put_le_eq; [lia|]. cbn [fst]. change (256 ^ Z.of_nat 4) with (2 ^ 32). lia.
  - intros _. split; [done|]. exists (replicate (253 - length name) 0 ++ take 1 (drop 258 de)). cbn [snd].
    unfold de_name, put_le. rewrite get_put_bytes_ne by (rewrite ?length_le_bytes; lia).
    rewrite !(assoc_L (++)), <- (assoc_L (++) name), <- EL. unfold D, get_bytes, put_bytes.
    rewrite drop_app_ge by (rewrite length_take; lia). rewrite length_take, Nat.min_l, Nat.sub_diag, drop_0 by lia.
    rewrite take_app_ge by lia. rewrite HlL. done.
Qed.

Lemma take_chunks chs es k :
  Forall2 is_entry chs es → take (DIRENT_SIZE * k) (concat chs) = concat (take k chs) ∧
  drop (DIRENT_SIZE * k) (concat chs) = concat (drop k chs).
Proof.
  intros H. revert k. induction H as [|c e chs es [Hl _] _ IH]; intros k.
  { cbn. rewrite take_nil, drop_nil. by destruct k. }
  destruct k as [|k]; [by rewrite Nat.mul_0_r|]. cbn [concat take drop].
  rewrite take_app_ge, drop_app_ge by lia. rewrite Hl.
  replace (DIRENT_SIZE * S k - DIRENT_SIZE)%nat with (DIRENT_SIZE * k)%nat by lia.
  destruct (IH k) as [-> ->]. done.
Qed.

Lemma put_chunk chs es k ch e :
  Forall2 is_entry chs es → is_entry ch e →
  put_bytes (concat chs) (DIRENT_SIZE * k) ch = concat (take k chs ++ [ch] ++ drop (S k) chs) ∧
  Forall2 is_entry (take k chs ++ [ch] ++ drop (S k) chs) (take k es ++ [e] ++ drop (S k) es).
Proof.
  intros H He. split.
  - unfold put_bytes. rewrite !concat_app. destruct (take_chunks chs es k H) as [-> _].
    pose proof He as [-> _]. replace (DIRENT_SIZE * k + DIRENT_SIZE)%nat with (DIRENT_SIZE * S k)%nat by lia.
    destruct (take_chunks chs es (S k) H) as [_ ->]. cbn. by rewrite app_nil_r.
  - apply Forall2_app; [by apply Forall2_take|]. apply Forall2_app; [by constructor|by apply Forall2_drop].
Qed.

Lemma dir_free_le es : (dir_free es ≤ length es)%nat.
Proof. induction es as [|[n y] es IH]; cbn; [done|]. case_match; lia. Qed.

(** The new entry is found, and the others are found as before. *)
Lemma dir_find_insert es n name name' :
  n ≠ 0 → dir_find es name = None →
  dir_find (dir_insert es (n, name)) name' =
    if decide (name' = name) then Some (dir_free es, n) else dir_find es name'.
Proof.
  intros Hn. unfold dir_insert. induction es as [|[m y] es IH]; intros Hnone.
  - cbn. case_decide as E; [by rewrite bool_decide_true by done|]. rewrite bool_decide_false; [done|]. by intros [_ ->].
  - cbn [dir_find] in Hnone. destruct (bool_decide (m ≠ 0 ∧ y = name)) eqn:B; [done|].
    apply bool_decide_eq_false in B. apply fmap_None in Hnone. specialize (IH Hnone).
    cbn [dir_free]. destruct (Z.eqb_spec m 0) as [->|Hm].
    + cbn [take drop app dir_find]. rewrite (bool_decide_false (0 ≠ 0 ∧ y = name')) by tauto.
      case_decide as E; [by rewrite bool_decide_true by done|].
      rewrite bool_decide_false by (by intros [_ ->]). done.
    + cbn [take drop app dir_find]. cbn [app] in IH. rewrite IH. case_decide as E.
      * subst. rewrite bool_decide_false by tauto. done.
      * done.
Qed.

Lemma dir_fuel_enough (k : nat) : (k < dir_fuel (DIRENT_SIZE * k)%nat)%nat.
Proof.
  unfold dir_fuel. rewrite Nat2Z.inj_mul, Z.mul_comm, Z.div_mul by done. lia.
Qed.

Lemma dirlookup_run dev_read s dp es i de name :
  directory s dp es i → length de = DIRENT_SIZE → name_ok name →
  dirlookup dev_read de dp name s = lookup_result i 0 (dir_find es name) s.
Proof.
  intros [(chs & Hfile & Hent) Hdir] Hde Hname. unfold dirlookup.
  rewrite (locked_bind dp i) by apply Hfile. rewrite Hdir. cbn [negb].
  rewrite (dir_size s dp es i chs Hfile Hent).
  pose proof (dirlookup_loop_run dev_read s dp es i chs Hfile Hent name de 0 (dir_fuel (DIRENT_SIZE * length es)%nat)) as H.
  rewrite Nat.mul_0_r, drop_0 in H. apply H; [done|done|lia|]. pose proof (dir_fuel_enough (length es)). lia.
Qed.

(** [dirlink] up to the search for a free entry. *)
Lemma dirlink_start {B} dev_read s dp es i de name (k1 : nat → FS B) (k2 : FS B) :
  directory s dp es i → length de = DIRENT_SIZE → name_ok name →
  (dirlookup dev_read de dp name ≫= λ o, match o with Some (_, ip) => k1 ip | None => k2 end) s =
  match dir_find es name with
  | Some (_, m) => (inode_get (dev i) m ≫= k1) s
  | None => k2 s
  end.
Proof.
  intros Hd Hde Hname. unfold mbind at 1, M_bind. rewrite (dirlookup_run dev_read s dp es i) by done.
  destruct (dir_find es name) as [[k m]|]; [|done]. cbn [lookup_result].
  unfold mbind, M_bind. by destruct (inode_get (dev i) m s) as [[ip s']|].
Qed.

(** C7. Linking a name and looking it up again.  In a directory that does not
    have the name, [dirlink] with room on the disk returns 0 and puts the entry
    into the first free place or at the end; from then on [dirlookup] of the
    name gets the inode that was linked, and every other name is looked up as
    before.  In a directory that has the name, [dirlink] changes nothing but
    the reference it takes and drops, and returns [-EEXIST]. *)
Theorem dirlink_dirlookup dev_read dev_write s dp es i de name n :
  directory s dp es i → length de = DIRENT_SIZE → Forall byte_ok de → name_ok name → 0 < n < 2 ^ 32 →
  DIRENT_SIZE * S (length es) ≤ MAXFILE * BSIZE → (6 ≤ length (free_blocks s))%nat →
  match dir_find es name with
  | Some (k, m) =>
      dirlink dev_read dev_write de dp name n s =
        (inode_get (dev i) m ≫= λ ip, inode_put ip ≫= λ _, mret (- EEXIST)) s
  | None =>
      ∃ s' i', dirlink dev_read dev_write de dp name n s = Ok (0, s') ∧
        directory s' dp (dir_insert es (n, name)) i' ∧ inum i' = inum i ∧
        (∀ de' name', length de' = DIRENT_SIZE → name_ok name' →
          dirlookup dev_read de' dp name' s' =
            lookup_result i' 0 (if decide (name' = name) then Some (dir_free es, n) else dir_find es name') s')
  end.
Proof.
  intros Hdirectory Hde Hdeb Hname Hn Hmax Hfree. pose proof Hdirectory as [(chs & Hfile & Hent) Hdir].
  unfold dirlink. rewrite dirlink_start with (es := es) (i := i) by done.
  destruct (dir_find es name) as [[k m]|] eqn:Hfind; [done|].
  destruct (free_entry_run dev_read s dp es i chs Hfile Hent de 0 (dir_fuel (DIRENT_SIZE * length es)%nat))
    as (de' & Hde' & Hb' & E); [done|lia|pose proof (dir_fuel_enough (length es)); lia|].
  rewrite Nat.mul_0_r, drop_0 in E. rewrite (the_inode_bind dp i) by apply Hfile.
  rewrite (dir_size s dp es i chs Hfile Hent), (bind_run _ _ _ _ _ E). rewrite Nat.add_0_l.
  assert (is_entry (fill_entry de' name n) (n, name)) as Hie by (apply fill_entry_ok; auto).
  pose proof Hie as (Hil & Hib & _ & _). pose proof (dir_free_le es) as Hle.
  destruct (inode_write_run dev_write s dp (concat chs) i (DIRENT_SIZE * dir_free es) (fill_entry de' name n))
    as (s' & i' & Ew & Hfile' & _ & Hin & Hmode & _); [done|..].
  { rewrite (length_chunks _ _ Hent). nia. }
  { rewrite Hil. nia. }
  { done. }
  { rewrite Hil. etrans; [|exact Hfree]. apply Nat.leb_le. vm_compute. reflexivity. }
  rewrite (bind_run _ _ _ _ _ Ew), Hil. exists s', i'. split; [done|].
  destruct (put_chunk chs es (dir_free es) _ _ Hent Hie) as [Ec Hent'].
  assert (directory s' dp (dir_insert es (n, name)) i') as Hdir'.
  { split; [|by rewrite Hmode]. eexists. split; [|exact Hent']. by rewrite <- Ec. }
  split_and!; [done|done|]. intros de2 name' Hde2 Hname'. rewrite (dirlookup_run dev_read s' dp _ i') by done.
  by rewrite dir_find_insert by (done || lia).
Qed.

Lemma sample_directory : directory (sample_file S_IFDIR) 0 [] (sample_inode S_IFDIR).
Proof. split; [|done]. exists []. split; [by apply sample_file_ok|constructor]. Qed.

Lemma dirlink_dirlookup_witness :
  ∃ s' i', dirlink (λ _, None) (λ _, None) (replicate 260 0) 0 [97; 98] 5 (sample_file S_IFDIR) = Ok (0, s') ∧
    directory s' 0 [(5, [97; 98])] i' ∧
    dirlookup (λ _, None) (replicate 260 0) 0 [97; 98] s' = lookup_result i' 0 (Some (0%nat, 5)) s' ∧
    dirlookup (λ _, None) (replicate 260 0) 0 [97] s' = Ok (None, s').
Proof.
  destruct (dirlink_dirlookup (λ _, None) (λ _, None) (sample_file S_IFDIR) 0 [] (sample_inode S_IFDIR)
    (replicate 260 0) [97; 98] 5) as (s' & i' & E & Hd & _ & Hl).
  - exact sample_directory.
  - reflexivity.
  - apply (Forall_replicate _ 260). lia.
  - split; [unfold DIRSIZ; cbn; lia|]. repeat constructor.
  - lia.
  - rewrite MAXFILE_val. unfold DIRENT_SIZE. cbn [length]. lia.
  - apply Nat.leb_le. vm_compute. reflexivity.
  - exists s', i'. split; [exact E|]. split; [exact Hd|]. split.
    + rewrite Hl; [reflexivity|reflexivity|]. split; [unfold DIRSIZ; cbn; lia|]. repeat constructor.
    + rewrite Hl; [reflexivity|reflexivity|]. split; [unfold DIRSIZ; cbn; lia|]. repeat constructor.
Defined.

End FsDir.
