(* ===== verification/RingBuf.v ===== *)
(** * The ring buffer (lib/ring_buffer.c)

    A ring buffer is a bounded queue of bytes.  [nread] and [nwrite] are
    [size_t] counters that only grow, and wrap at 2^64; the slot of a counter
    is its value modulo [size].  [contents] is the queue the buffer stands
    for. *)

From S2P Require Import Prelude.

Module RingBuf.

Definition RING_BUFFER_UNINITIALIZED : Z := -1.
Definition RING_BUFFER_SUCCESS : Z := 0.

(** [self] and [data_ptr] are the addresses of the two blocks the buffer
    occupies; [data] is the content of the second. *)
Record ring_buf := mkrb {
  self : Z;
  data_ptr : Z;
  nread : Z;
  nwrite : Z;
  size : Z;
  data : list Z;
}.

Definition sizeof_ring_buf : Z := 32.

Section alloc.
Context {H : Type}.
Variable allocator : Z → M H (option Z).
Variable deallocator : Z → M H unit.
(** What a freshly allocated block holds. *)
Variable fresh : Z → list Z.

Definition ring_buffer_create (nbytes : Z) : M H (option ring_buf) :=
  rb ← allocator sizeof_ring_buf;
  match rb with
  | None => mret None
  | Some rb =>
      if nbytes =? 0 then mret None
      else
        d ← allocator nbytes;
        match d with
        | None => mret None
        | Some d => mret (Some (mkrb rb d 0 0 nbytes (fresh nbytes)))
        end
  end.

(** A [data] pointer that is null is not freed. *)
Definition ring_buffer_destroy (rb : option ring_buf) : M H unit :=
  match rb with
  | None => mret tt
  | Some rb =>
      _ ← (if data_ptr rb =? 0 then mret tt else deallocator (data_ptr rb));
      deallocator (self rb)
  end.
End alloc.

(** [rb->data[rb->nwrite++ % rb->size] = c] *)
Definition put (rb : ring_buf) (c : Z) : ring_buf :=
  mkrb (self rb) (data_ptr rb) (nread rb) (u64 (nwrite rb + 1)) (size rb)
    (<[Z.to_nat (nwrite rb mod size rb) := c]> (data rb)).

(** [rb->data[rb->nread++ % rb->size]] *)
Definition take_one (rb : ring_buf) : Z * ring_buf :=
  (data rb !!! Z.to_nat (nread rb mod size rb),
   mkrb (self rb) (data_ptr rb) (u64 (nread rb + 1)) (nwrite rb) (size rb) (data rb)).

Definition ring_buffer_push (rb : option ring_buf) (d : list Z) : Z * option ring_buf :=
  match rb with
  | None => (RING_BUFFER_UNINITIALIZED, None)
  | Some rb => (RING_BUFFER_SUCCESS, Some (fold_left put d rb))
  end.

(** At most [n] bytes, until the buffer is empty. *)
Fixpoint pop_loop (n : nat) (rb : ring_buf) : list Z * ring_buf :=
  match n with
  | O => ([], rb)
  | S n =>
      if nread rb =? nwrite rb then ([], rb)
      else let '(c, rb) := take_one rb in
           let '(d, rb) := pop_loop n rb in (c :: d, rb)
  end.

(** The bytes stored to the caller's array, with the return value. *)
Definition ring_buffer_pop (rb : option ring_buf) (n : nat) : Z * list Z * option ring_buf :=
  match rb with
  | None => (RING_BUFFER_UNINITIALIZED, [], None)
  | Some rb => let '(d, rb) := pop_loop n rb in (RING_BUFFER_SUCCESS, d, Some rb)
  end.

Definition ring_buffer_is_empty (rb : option ring_buf) : bool :=
  match rb with None => false | Some rb => nread rb =? nwrite rb end.

(** [(rb && rb->nwrite + 1) % rb->size == rb->nread]: the conjunction, 0 or 1,
    is what is reduced. *)
Definition ring_buffer_is_full (rb : option ring_buf) : bool :=
  match rb with
  | None => false
  | Some rb => (if u64 (nwrite rb + 1) =? 0 then 0 else 1) mod size rb =? nread rb
  end.

(** ** The queue a buffer stands for *)

Definition used (rb : ring_buf) : Z := u64 (nwrite rb - nread rb).
Definition slot (rb : ring_buf) (i : Z) : Z := data rb !!! Z.to_nat ((nread rb + i) mod size rb).
Definition contents (rb : ring_buf) : list Z := (λ i : nat, slot rb i) <$> seq 0 (Z.to_nat (used rb)).

Record wf (rb : ring_buf) : Prop := {
  wf_size : 0 < size rb < 2 ^ 64;
  wf_div : (size rb | 2 ^ 64);
  wf_len : length (data rb) = Z.to_nat (size rb);
  wf_read : 0 ≤ nread rb < 2 ^ 64;
  wf_write : 0 ≤ nwrite rb < 2 ^ 64;
  wf_used : used rb ≤ size rb;
}.

Lemma used_range rb : 0 ≤ used rb < 2 ^ 64.
Proof. by apply wrap_range. Qed.

Lemma mod_u64 z s : (s | 2 ^ 64) → 0 < s → u64 z mod s = z mod s.
Proof.
  intros [q Hq] Hs. unfold wrap. rewrite Hq, (Z.mul_comm q s), Z.rem_mul_r by lia.
  rewrite Z.mul_comm, Z_mod_plus_full. by rewrite Z.mod_mod by lia.
Qed.

Lemma u64_add_l a b : u64 (u64 a + b) = u64 (a + b).
Proof. apply Zplus_mod_idemp_l. Qed.

Lemma u64_sub_l a b : u64 (u64 a - b) = u64 (a - b).
Proof. apply Zminus_mod_idemp_l. Qed.

Lemma u64_sub_r a b : u64 (a - u64 b) = u64 (a - b).
Proof. apply Zminus_mod_idemp_r. Qed.

Lemma nwrite_slot rb : wf rb → nwrite rb mod size rb = (nread rb + used rb) mod size rb.
Proof.
  intros Hwf. destruct (wf_size _ Hwf). unfold used.
  rewrite Z.add_comm, <- Zplus_mod_idemp_l, mod_u64, Zplus_mod_idemp_l by (done || apply Hwf).
  f_equal. lia.
Qed.

Lemma slots_distinct a b s : 0 < s → 0 < b - a < s → a mod s ≠ b mod s.
Proof.
  intros Hs Hab E. assert ((b - a) mod s = 0) as E0.
  { rewrite Zminus_mod, E, Z.sub_diag. apply Z.mod_0_l. lia. }
  rewrite Z.mod_small in E0; lia.
Qed.

Lemma length_contents rb : length (contents rb) = Z.to_nat (used rb).
Proof. unfold contents. by rewrite length_fmap, length_seq. Qed.

Lemma empty_iff rb : wf rb → nread rb = nwrite rb ↔ used rb = 0.
Proof.
  intros Hwf. destruct (wf_read _ Hwf), (wf_write _ Hwf). unfold used, wrap. split.
  - intros ->. by rewrite Z.sub_diag.
  - intros E. apply Z.mod_divide in E as [q Hq]; lia.
Qed.

(** ** One byte in, one byte out *)

Lemma put_used rb c : wf rb → used rb < size rb → used (put rb c) = used rb + 1.
Proof.
  intros Hwf Hlt. pose proof (used_range rb). unfold used at 1. cbn [put nwrite nread].
  rewrite u64_sub_l. replace (nwrite rb + 1 - nread rb) with ((nwrite rb - nread rb) + 1) by lia.
  rewrite <- u64_add_l. fold (used rb). apply wrap_small. destruct (wf_size _ Hwf). lia.
Qed.

Lemma put_wf rb c : wf rb → used rb < size rb → wf (put rb c).
Proof.
  intros Hwf Hlt. split; try apply Hwf.
  - cbn. rewrite length_insert. apply Hwf.
  - by apply wrap_range.
  - rewrite put_used by done. cbn. lia.
Qed.

Lemma put_contents rb c : wf rb → used rb < size rb → contents (put rb c) = contents rb ++ [c].
Proof.
  intros Hwf Hlt. pose proof (used_range rb) as Hu. destruct (wf_size _ Hwf) as [Hs _].
  unfold contents. rewrite put_used, Z2Nat.inj_add, seq_app, fmap_app by (done || lia).
  assert (∀ i, 0 ≤ i mod size rb < size rb) as Hmod by (intros; by apply Z.mod_pos_bound).
  f_equal.
  - apply list_fmap_ext. intros j i [-> Hi]%lookup_seq. cbn in Hi |- *. unfold slot. cbn.
    rewrite (nwrite_slot _ Hwf). apply list_lookup_total_insert_ne. intros E.
    apply Z2Nat.inj in E; [|apply Hmod..]. symmetry in E. revert E.
    apply slots_distinct; [done|]. lia.
  - change (Z.to_nat 1) with 1%nat. cbn [seq fmap list_fmap]. rewrite Nat.add_0_l. f_equal.
    unfold slot. cbn [put data nread size]. rewrite (nwrite_slot _ Hwf), Z2Nat.id by lia.
    apply list_lookup_total_insert_eq. rewrite (wf_len _ Hwf). apply Z2Nat.inj_lt; [apply Hmod|lia|apply Hmod].
Qed.

Lemma take_one_contents rb c rb' :
  wf rb → nread rb ≠ nwrite rb → take_one rb = (c, rb') →
  contents rb = c :: contents rb' ∧ wf rb' ∧ used rb' = used rb - 1 ∧ size rb' = size rb.
Proof.
  intros Hwf Hne [= <- <-]. pose proof (used_range rb) as Hu.
  assert (used rb ≠ 0) as H0 by (by intros E; apply Hne, empty_iff).
  set (rb' := mkrb _ _ _ _ _ _).
  assert (used rb' = used rb - 1) as Hu'.
  { unfold used at 1. cbn. rewrite u64_sub_r.
    replace (nwrite rb - (nread rb + 1)) with ((nwrite rb - nread rb) - 1) by lia.
    rewrite <- u64_sub_l. fold (used rb). apply wrap_small. lia. }
  split; [|split; [split; try apply Hwf|done]].
  - unfold contents. rewrite Hu'. replace (Z.to_nat (used rb)) with (S (Z.to_nat (used rb - 1))) by lia.
    cbn [seq fmap list_fmap]. f_equal; [unfold slot; cbn; by rewrite Z.add_0_r|].
    rewrite <- fmap_S_seq, <- list_fmap_compose. apply list_fmap_ext. intros j i _. cbn.
    unfold slot, rb'. cbn [nread size data]. do 2 f_equal.
    rewrite <- (Zplus_mod_idemp_l (u64 _)), mod_u64, Zplus_mod_idemp_l by apply Hwf. f_equal. lia.
  - by apply wrap_range.
  - rewrite Hu'. cbn. pose proof (wf_used _ Hwf). lia.
Qed.

(** ** Many bytes *)

Lemma push_contents rb d :
  wf rb → used rb + length d ≤ size rb →
  contents (fold_left put d rb) = contents rb ++ d ∧ wf (fold_left put d rb) ∧
  size (fold_left put d rb) = size rb ∧ used (fold_left put d rb) = used rb + length d.
Proof.
  revert rb. induction d as [|c d IH]; intros rb Hwf Hlen; cbn [fold_left length] in *.
  { rewrite app_nil_r. split_and!; try done. cbn. lia. }
  destruct (IH (put rb c)) as (-> & Hwf' & Hs & Hu).
  - apply put_wf; [done|lia].
  - rewrite put_used by (done || lia). cbn [put size]. lia.
  - rewrite put_contents, <- app_assoc by (done || lia). split_and!; try done.
    rewrite Hu, put_used by (done || lia). lia.
Qed.

Lemma pop_contents n rb d rb' :
  wf rb → pop_loop n rb = (d, rb') →
  contents rb = d ++ contents rb' ∧ length d = (n `min` length (contents rb))%nat ∧ wf rb' ∧
  size rb' = size rb.
Proof.
  revert rb d. induction n as [|n IH]; intros rb d Hwf; cbn [pop_loop].
  { by intros [= <- <-]. }
  destruct (Z.eqb_spec (nread rb) (nwrite rb)) as [E|Hne].
  { intros [= <- <-]. apply empty_iff in E; [|done]. split_and!; try done.
    rewrite length_contents, E. by rewrite Nat.min_0_r. }
  destruct (take_one rb) as [c rb1] eqn:E1. destruct (take_one_contents _ _ _ Hwf Hne E1) as (Hc & Hwf1 & _ & Hs1).
  destruct (pop_loop n rb1) as [d1 rb2] eqn:E2. intros [= <- <-].
  destruct (IH _ _ Hwf1 E2) as (Hc' & Hl & Hwf2 & Hs2). split_and!; try done.
  - by rewrite Hc, Hc'.
  - rewrite Hc. cbn [length]. rewrite Hl. lia.
  - congruence.
Qed.

(** ** Properties *)

(** C29. The ring buffer implements a bounded FIFO queue.  On a well-formed
    buffer with room for [d], [ring_buffer_push] appends [d] to the queue, and
    popping [n] bytes afterwards returns the first [n] bytes of the extended
    queue (all of it when it is shorter) and leaves the rest, also when the
    counters wrap around 2^64. *)
Theorem ring_buffer_fifo rb d n :
  wf rb → used rb + length d ≤ size rb →
  ∃ rb1 rb2, ring_buffer_push (Some rb) d = (RING_BUFFER_SUCCESS, Some rb1) ∧
    contents rb1 = contents rb ++ d ∧
    ring_buffer_pop (Some rb1) n =
      (RING_BUFFER_SUCCESS, take n (contents rb ++ d), Some rb2) ∧
    contents rb2 = drop n (contents rb ++ d) ∧ wf rb2 ∧
    ring_buffer_is_empty (Some rb2) = bool_decide (length (contents rb ++ d) ≤ n)%nat.
Proof.
  intros Hwf Hlen. destruct (push_contents rb d Hwf Hlen) as (Hc & Hwf1 & Hs & _).
  destruct (pop_loop n (fold_left put d rb)) as [out rb2] eqn:E.
  destruct (pop_contents _ _ _ _ Hwf1 E) as (Hc2 & Hl & Hwf2 & _). rewrite Hc in Hc2, Hl.
  assert (out = take n (contents rb ++ d)) as Hout.
  { rewrite Hc2. destruct (Nat.le_gt_cases n (length (contents rb ++ d))).
    - rewrite take_app_le, take_ge; [done|lia|lia].
    - assert (contents rb2 = []) as ->; [|by rewrite app_nil_r, take_ge by lia].
      apply nil_length_inv. apply (f_equal length) in Hc2. rewrite (length_app out) in Hc2. lia. }
  assert (contents rb2 = drop n (contents rb ++ d)) as Hrest.
  { rewrite <- (take_drop n (contents rb ++ d)) in Hc2 at 1. rewrite <- Hout in Hc2.
    by apply app_inv_head in Hc2. }
  exists (fold_left put d rb), rb2. split_and!; try done.
  - cbn. rewrite E. by rewrite Hout.
  - cbn. apply eq_bool_prop_intro. rewrite bool_decide_spec, Is_true_true, Z.eqb_eq, empty_iff by done.
    assert (length (contents rb2) = Z.to_nat (used rb2)) as Hu by apply length_contents.
    rewrite Hrest, length_drop in Hu. pose proof (used_range rb2). lia.
Qed.

Definition ex_rb : ring_buf := mkrb 4096 8192 (2 ^ 64 - 2) 1 4 [30; 0; 10; 20].

Lemma ring_buffer_fifo_witness :
  ∃ rb1 rb2, ring_buffer_push (Some ex_rb) [40] = (RING_BUFFER_SUCCESS, Some rb1) ∧
    contents rb1 = [10; 20; 30] ++ [40] ∧
    ring_buffer_pop (Some rb1) 2 = (RING_BUFFER_SUCCESS, take 2 ([10; 20; 30] ++ [40]), Some rb2) ∧
    contents rb2 = drop 2 ([10; 20; 30] ++ [40]) ∧ wf rb2 ∧
    ring_buffer_is_empty (Some rb2) = false.
Proof.
  apply (ring_buffer_fifo ex_rb [40] 2).
  - split; try (vm_compute; (done || lia)). exists (2 ^ 62). reflexivity.
  - vm_compute. done.
Defined.

(** [ring_buffer_is_full] does not recognise a full buffer: it reports a
    buffer of at least two bytes full exactly when [nread] is 1 (or when
    [nwrite] is about to wrap and [nread] is 0), whatever it holds. *)
Theorem ring_buffer_is_full_wrong rb :
  wf rb → 2 ≤ size rb →
  ring_buffer_is_full (Some rb) = bool_decide (nread rb = if decide (nwrite rb = 2 ^ 64 - 1) then 0 else 1).
Proof.
  intros Hwf Hs. destruct (wf_write _ Hwf). unfold ring_buffer_is_full, wrap.
  apply eq_bool_prop_intro. rewrite bool_decide_spec, Is_true_true, Z.eqb_eq.
  case_decide as E.
  - rewrite E. change (_ mod 2 ^ 64 =? 0) with true. cbn iota. rewrite Z.mod_0_l; lia.
  - rewrite (Z.mod_small (nwrite rb + 1)) by lia. destruct (Z.eqb_spec (nwrite rb + 1) 0); [lia|].
    rewrite Z.mod_small; lia.
Qed.

(** A full buffer that is not reported, and an empty one that is. *)
Lemma ring_buffer_is_full_witness :
  (length (contents (mkrb 1 2 0 2 2 [5; 6])) = 2%nat ∧
   ring_buffer_is_full (Some (mkrb 1 2 0 2 2 [5; 6])) = false) ∧
  (contents (mkrb 1 2 1 1 2 [5; 6]) = [] ∧
   ring_buffer_is_full (Some (mkrb 1 2 1 1 2 [5; 6])) = true).
Proof.
  split; split; [reflexivity| |reflexivity|].
  - rewrite ring_buffer_is_full_wrong; [reflexivity| |vm_compute; done].
    split; try (vm_compute; (done || lia)). exists (2 ^ 63). reflexivity.
  - rewrite ring_buffer_is_full_wrong; [reflexivity| |vm_compute; done].
    split; try (vm_compute; (done || lia)). exists (2 ^ 63). reflexivity.
Defined.

(** When the second allocation of [ring_buffer_create] fails, the first block
    stays allocated. *)
Definition one_block (n : Z) : M Z (option Z) := λ live,
  if live =? 0 then Ok (Some 4096, live + 1) else Ok (None, live).

Lemma ring_buffer_create_leaks :
  ring_buffer_create one_block (λ n, []) 512 0 = Ok (None, 1).
Proof. reflexivity. Qed.

End RingBuf.
