(* ===== verification/Pipe.v ===== *)
(** * Pipes (kernel/pipe.c)

    A call to [pipewrite] or [piperead] runs under [p->lock] from the time it
    acquires the lock until it sleeps or returns; such a stretch is one
    quantum, a function from the pipe to an outcome.  [step] interleaves the
    quanta of any number of threads with [pipeclose] and [kill]. *)

From S2P Require Import Prelude RingBuf.

Module Pipe.

Import RingBuf.

Definition PIPESIZE : Z := 512.
Definition EPIPE : Z := 32.

(** [freed] tells that the pipe's memory was given back. *)
Record pipe := mkpipe {
  readopen : Z;
  writeopen : Z;
  ring : ring_buf;
  freed : bool;
}.

Definition push_byte (c : Z) (p : pipe) : pipe :=
  mkpipe (readopen p) (writeopen p) (put (ring p) c) (freed p).
Definition set_ring (rb : ring_buf) (p : pipe) : pipe := mkpipe (readopen p) (writeopen p) rb (freed p).

(** The two sleep channels: [&ring_buffer->nread], where readers wait, and
    [&ring_buffer->nwrite], where writers wait. *)
Inductive chan := ChRead | ChWrite.

#[global] Instance chan_eq_dec : EqDecision chan.
Proof. solve_decision. Defined.

(** A call in progress: the bytes [addr[i..n)] still to write, or the number
    of bytes asked for. *)
Inductive call :=
| Writing (i : Z) (bs : list Z) (n : Z)
| Reading (n : nat).

(** How a quantum ends.  [wake] lists the channels of its [wakeup] calls,
    [out] the bytes stored to the reader's buffer; [sigpipe] is set when the
    caller sends itself [SIGPIPE]. *)
Inductive outcome :=
| Return (r : Z) (out : list Z) (wake : list chan) (sigpipe : bool) (p : pipe)
| Sleep (c : chan) (k : call) (wake : list chan) (p : pipe)
| Fault.

Definition is_full (p : pipe) : bool := nwrite (ring p) =? u64 (nread (ring p) + size (ring p)).
Definition is_empty (p : pipe) : bool := nread (ring p) =? nwrite (ring p).
Definition broken (killed : bool) (p : pipe) : bool := (readopen p =? 0) || killed.

(** [for (int i = 0; i < n; i++)] with the [while] that waits for space.  The
    [int] counter overflows on a write of more than [INT_MAX] bytes. *)
Fixpoint write_loop (killed : bool) (p : pipe) (i : Z) (bs : list Z) (n : Z) : outcome :=
  match bs with
  | [] => Return n [] [ChRead] false p
  | c :: rest =>
      if is_full p then
        if broken killed p then Return (- EPIPE) [] [] false p
        else Sleep ChWrite (Writing i bs n) [ChRead] p
      else if i =? INT_MAX then Fault
      else write_loop killed (push_byte c p) (i + 1) rest n
  end.

Definition pipewrite (killed : bool) (p : pipe) (bs : list Z) : outcome :=
  if broken killed p then Return (- EPIPE) [] [] true p
  else write_loop killed p 0 bs (length bs).

Definition piperead (killed : bool) (p : pipe) (n : nat) : outcome :=
  if is_empty p && negb (writeopen p =? 0) then
    if killed then Return (-1) [] [] false p
    else Sleep ChRead (Reading n) [] p
  else
    let '(d, rb) := pop_loop n (ring p) in
    Return (length d) d [ChWrite] false (set_ring rb p).

(** A sleeper that runs again goes back to the test it slept on. *)
Definition resume (killed : bool) (p : pipe) (k : call) : outcome :=
  match k with
  | Writing i bs n => write_loop killed p i bs n
  | Reading n => piperead killed p n
  end.

(** The pipe and its ring buffer are freed when both ends are closed. *)
Definition pipeclose (p : pipe) (writable : bool) : chan * pipe :=
  let r := if writable then readopen p else s32 (readopen p - 1) in
  let w := if writable then s32 (writeopen p - 1) else writeopen p in
  (if writable then ChRead else ChWrite,
   mkpipe r w (ring p) (if (r =? 0) && (w =? 0) then true else freed p)).

(** ** Threads *)

Record thread := mkthread {
  th_call : call;
  th_sleep : option chan;
  th_killed : bool;
}.

(** [kills] tells whether a thread inside a call has been killed.  [s_sent]
    lists the bytes the calls of [pipewrite] had taken from their callers, and
    [s_received] the bytes the calls of [piperead] have stored to theirs. *)
Record sys := mksys {
  s_pipe : pipe;
  s_threads : gmap nat thread;
  kills : bool;
  s_sent : list Z;
  s_received : list Z;
}.

(** The bytes of [todo] a quantum took that leaves the pipe [p'] behind: the
    write counter tells how many there were. *)
Definition taken_count (p p' : pipe) : nat := Z.to_nat (u64 (nwrite (ring p') - nwrite (ring p))).
Definition taken (p p' : pipe) (todo : list Z) : list Z := take (taken_count p p') todo.

Definition wake_thread (cs : list chan) (th : thread) : thread :=
  match th_sleep th with
  | Some c => if bool_decide (c ∈ cs) then mkthread (th_call th) None (th_killed th) else th
  | None => th
  end.

(** What the end of a quantum of thread [t] does to the system; [todo] are the
    bytes its caller still had to write when it began. *)
Definition settle (t : nat) (killed : bool) (todo : list Z) (o : outcome) (s : sys) : option sys :=
  match o with
  | Return _ out wake _ p =>
      Some (mksys p (delete t (wake_thread wake <$> s_threads s)) (kills s || killed)
              (s_sent s ++ taken (s_pipe s) p todo) (s_received s ++ out))
  | Sleep c k wake p =>
      Some (mksys p (<[t := mkthread k (Some c) killed]> (wake_thread wake <$> s_threads s))
              (kills s || killed) (s_sent s ++ taken (s_pipe s) p todo) (s_received s))
  | Fault => None
  end.

Definition writing (k : call) : bool := match k with Writing _ _ _ => true | Reading _ => false end.
Definition to_write (k : call) : list Z := match k with Writing _ bs _ => bs | Reading _ => [] end.

(** A thread inside a call keeps its end of the pipe open. *)
Inductive step : sys → sys → Prop :=
| step_write t killed bs s s' :
    s_threads s !! t = None → 0 < writeopen (s_pipe s) →
    settle t killed bs (pipewrite killed (s_pipe s) bs) s = Some s' → step s s'
| step_read t killed n s s' :
    s_threads s !! t = None → 0 < readopen (s_pipe s) →
    settle t killed [] (piperead killed (s_pipe s) n) s = Some s' → step s s'
| step_resume t th s s' :
    s_threads s !! t = Some th → th_sleep th = None →
    settle t (th_killed th) (to_write (th_call th)) (resume (th_killed th) (s_pipe s) (th_call th)) s = Some s' → step s s'
| step_kill t th s :
    s_threads s !! t = Some th →
    step s (mksys (s_pipe s) (<[t := mkthread (th_call th) None true]> (s_threads s)) true (s_sent s) (s_received s))
| step_close (w : bool) s :
    let p := s_pipe s in
    0 < (if w then writeopen p else readopen p) →
    ((if w then writeopen p else readopen p) = 1 →
       ∀ t th, s_threads s !! t = Some th → writing (th_call th) ≠ w) →
    step s (mksys (pipeclose p w).2 (wake_thread [(pipeclose p w).1] <$> s_threads s) (kills s) (s_sent s) (s_received s)).

(** ** The invariant *)

Record pipe_ok (p : pipe) : Prop := {
  pk_wf : wf (ring p);
  pk_size : size (ring p) = PIPESIZE;
}.

Record thread_ok (p : pipe) (kills : bool) (th : thread) : Prop := {
  tk_end : 0 < (if writing (th_call th) then writeopen p else readopen p);
  tk_writer : th_sleep th = Some ChWrite →
    writing (th_call th) = true ∧ is_full p = true ∧ readopen p ≠ 0;
  tk_reader : th_sleep th = Some ChRead →
    writing (th_call th) = false ∧ (kills = false → is_empty p = true ∧ writeopen p ≠ 0);
}.

Record inv (s : sys) : Prop := {
  iv_pipe : pipe_ok (s_pipe s);
  iv_stream : s_received s ++ contents (ring (s_pipe s)) = s_sent s;
  iv_read : 0 ≤ readopen (s_pipe s) ≤ INT_MAX;
  iv_write : 0 ≤ writeopen (s_pipe s) ≤ INT_MAX;
  iv_freed : freed (s_pipe s) = (readopen (s_pipe s) =? 0) && (writeopen (s_pipe s) =? 0);
  iv_threads t th : s_threads s !! t = Some th → thread_ok (s_pipe s) (kills s) th;
}.

Lemma full_iff p : pipe_ok p → is_full p = true ↔ used (ring p) = PIPESIZE.
Proof.
  intros [Hwf Hs]. unfold is_full, used. rewrite Z.eqb_eq, Hs.
  pose proof (wf_write _ Hwf). pose proof (wf_read _ Hwf). unfold PIPESIZE, wrap.
  split; intros E.
  - rewrite E. rewrite Zminus_mod_idemp_l. replace (_ + _ - _) with 512 by lia. done.
  - replace (nread (ring p) + 512) with (nwrite (ring p) + (512 - (nwrite (ring p) - nread (ring p)))) by lia.
    rewrite <- Zplus_mod_idemp_r, <- Zminus_mod_idemp_r, E. rewrite Z.sub_diag, Z.mod_0_l, Z.add_0_r by lia.
    by rewrite Z.mod_small.
Qed.

(** The bytes [l] entered the pipe behind those in it. *)
Definition moved (p p' : pipe) (l : list Z) : Prop :=
  contents (ring p') = contents (ring p) ++ l ∧ nwrite (ring p') = u64 (nwrite (ring p) + length l).

Lemma push_byte_ok c p : pipe_ok p → is_full p = false → pipe_ok (push_byte c p) ∧ moved p (push_byte c p) [c].
Proof.
  intros Hok Hf. pose proof Hok as [Hwf Hs].
  assert (used (ring p) < size (ring p)) as Hlt.
  { pose proof (wf_used _ Hwf). cut (used (ring p) ≠ PIPESIZE); [lia|].
    intros E. apply full_iff in E; [congruence|done]. }
  split; [split; cbn; [by apply put_wf|done]|]. split; [cbn; by apply put_contents|done].
Qed.

Lemma moved_trans p1 p2 p3 l1 l2 : moved p1 p2 l1 → moved p2 p3 l2 → moved p1 p3 (l1 ++ l2).
Proof.
  intros [E1 N1] [E2 N2]. split; [by rewrite E2, E1, app_assoc|]. rewrite N2, N1, length_app. unfold wrap.
  rewrite Zplus_mod_idemp_l. f_equal. lia.
Qed.

Lemma moved_nil p : pipe_ok p → moved p p [].
Proof.
  intros [Hwf _]. split; [by rewrite app_nil_r|]. cbn. rewrite Z.add_0_r, wrap_small; [done|]. apply (wf_write _ Hwf).
Qed.

(** The counter tells the bytes that moved. *)
Lemma moved_taken p p' (m : nat) todo :
  pipe_ok p → pipe_ok p' → (m ≤ length todo)%nat → moved p p' (take m todo) → taken_count p p' = m.
Proof.
  intros [Hwf _] [Hwf' Hs'] Hm [E N]. pose proof (wf_used _ Hwf'). pose proof (wf_write _ Hwf).
  assert (length (take m todo) = m) as El by (rewrite length_take; lia).
  assert (m ≤ 512) as Hle.
  { pose proof (length_contents (ring p')) as Hl. rewrite E, length_app, El in Hl. rewrite Hs' in *. unfold PIPESIZE in *. lia. }
  unfold taken_count. rewrite N, El. unfold wrap. rewrite Zminus_mod_idemp_l.
  replace (nwrite (ring p) + m - nwrite (ring p)) with (Z.of_nat m) by lia. rewrite Z.mod_small; lia.
Qed.

(** Who reads and writes is not changed by moving bytes. *)
Definition same_ends (p p' : pipe) : Prop :=
  readopen p' = readopen p ∧ writeopen p' = writeopen p ∧ freed p' = freed p.

(** What a quantum of [pipewrite] guarantees to the threads asleep. *)
Definition write_post (killed : bool) (p : pipe) (o : outcome) : Prop :=
  match o with
  | Return _ _ wake _ p' => pipe_ok p' ∧ same_ends p p' ∧ (is_full p = true → p' = p) ∧
      (wake = [ChRead] ∨ (wake = [] ∧ (killed = true ∨ readopen p = 0)))
  | Sleep c k wake p' => pipe_ok p' ∧ same_ends p p' ∧ (is_full p = true → p' = p) ∧
      c = ChWrite ∧ writing k = true ∧ wake = [ChRead] ∧ is_full p' = true ∧ readopen p' ≠ 0
  | Fault => True
  end.

(** What it does with the bytes [todo] of its caller: it moves the first [m] of
    them; it returns the length [n] of the whole write only when that is all of
    them, and it keeps the rest when it sleeps. *)
Definition moves (p : pipe) (todo : list Z) (n : Z) (m : nat) (o : outcome) : Prop :=
  match o with
  | Return r out _ _ p' => moved p p' (take m todo) ∧ out = [] ∧ ((r = n ∧ m = length todo) ∨ r = - EPIPE)
  | Sleep _ k _ p' => moved p p' (take m todo) ∧ ∃ i, k = Writing i (drop m todo) n
  | Fault => True
  end.

Lemma write_loop_ok killed p i bs n :
  pipe_ok p → write_post killed p (write_loop killed p i bs n) ∧
  ∃ m, (m ≤ length bs)%nat ∧ moves p bs n m (write_loop killed p i bs n).
Proof.
  revert p i. induction bs as [|c bs IH]; intros p i Hok; cbn [write_loop].
  { split; [split_and!; try done; by left|]. exists 0%nat. split; [done|]. cbn. split; [by apply moved_nil|]. auto. }
  destruct (is_full p) eqn:Hf.
  - split; [unfold broken; destruct (Z.eqb_spec (readopen p) 0); [|destruct killed]; cbn; unfold same_ends; auto 10|].
    exists 0%nat. split; [lia|]. pose proof (moved_nil p Hok). case_match; cbn; eauto.
  - destruct (i =? INT_MAX); [split; [done|by exists 0%nat; split; [lia|]]|].
    destruct (push_byte_ok c p Hok Hf) as [Hok' Hmv].
    destruct (IH (push_byte c p) (i + 1) Hok') as [Hp (m & Hm & Hmoves)]. split.
    + destruct (write_loop _ _ _ _ _); cbn in Hp |- *; [|..|done].
      * destruct Hp as (? & ? & _ & ?). rewrite Hf. done.
      * destruct Hp as (? & ? & _ & ?). rewrite Hf. done.
    + exists (S m). split; [cbn; lia|]. destruct (write_loop _ _ _ _ _); cbn in Hmoves |- *; [|..|done].
      * destruct Hmoves as (H1 & H2 & H3). split; [by apply (moved_trans _ _ _ [c] _ Hmv)|]. split; [done|].
        destruct H3 as [[? ?]|?]; [left; split; [done|lia]|by right].
      * destruct Hmoves as (H1 & H2). split; [by apply (moved_trans _ _ _ [c] _ Hmv)|done].
Qed.

Lemma pipewrite_ok killed p bs :
  pipe_ok p → write_post killed p (pipewrite killed p bs) ∧
  ∃ m, (m ≤ length bs)%nat ∧ moves p bs (length bs) m (pipewrite killed p bs).
Proof.
  intros Hok. unfold pipewrite. destruct (broken killed p) eqn:Hb; [|by apply write_loop_ok].
  apply orb_true_iff in Hb. rewrite Z.eqb_eq in Hb. split.
  - cbn. unfold same_ends. destruct Hb; auto 10.
  - exists 0%nat. split; [lia|]. cbn. split; [by apply moved_nil|]. auto.
Qed.

(** What a quantum of [piperead] guarantees. *)
Definition read_post (killed : bool) (p : pipe) (o : outcome) : Prop :=
  match o with
  | Return _ out wake _ p' => pipe_ok p' ∧ same_ends p p' ∧ contents (ring p) = out ++ contents (ring p') ∧
      ((wake = [] ∧ p' = p) ∨
       (wake = [ChWrite] ∧ ¬ (is_empty p = true ∧ writeopen p ≠ 0)))
  | Sleep c k wake p' => p' = p ∧ c = ChRead ∧ writing k = false ∧ wake = [] ∧
      is_empty p = true ∧ writeopen p ≠ 0
  | Fault => False
  end.

Lemma piperead_ok killed p n : pipe_ok p → read_post killed p (piperead killed p n).
Proof.
  intros Hok. pose proof Hok as [Hwf Hs]. unfold piperead.
  destruct (is_empty p && negb (writeopen p =? 0)) eqn:Hc.
  - apply andb_true_iff in Hc as [He Hw]. apply negb_true_iff in Hw. zbool.
    destruct killed; cbn; unfold same_ends; auto 10.
  - destruct (pop_loop n (ring p)) as [d rb] eqn:E.
    destruct (pop_contents _ _ _ _ Hwf E) as (Hc' & _ & Hwf' & Hs'). cbn. split_and!; try done.
    + split; cbn; [done|congruence].
    + right. split; [done|]. intros [He Hw]. rewrite He in Hc. cbn in Hc.
      apply negb_false_iff, Z.eqb_eq in Hc. done.
Qed.

(** ** Preservation *)

Lemma wake_cases cs th :
  (wake_thread cs th = th ∧ ∀ c, th_sleep th = Some c → c ∉ cs) ∨
  wake_thread cs th = mkthread (th_call th) None (th_killed th).
Proof.
  unfold wake_thread. destruct (th_sleep th) as [c|] eqn:E; [|left; split; [done|by intros ? ?]].
  case_bool_decide; [by right|left]. split; [done|]. by intros ? [= <-].
Qed.

Lemma thread_ok_update p p' k k' cs th :
  thread_ok p k th → 0 < (if writing (th_call th) then writeopen p' else readopen p') →
  (k' = false → k = false) →
  (th_sleep th = Some ChWrite → ChWrite ∉ cs → is_full p' = true ∧ readopen p' ≠ 0) →
  (th_sleep th = Some ChRead → ChRead ∉ cs → k' = false → is_empty p' = true ∧ writeopen p' ≠ 0) →
  thread_ok p' k' (wake_thread cs th).
Proof.
  intros [H1 H2 H3] He Hk Hw Hr.
  destruct (wake_cases cs th) as [[-> Hcs]| ->]; [|by split].
  split; [done|..].
  - intros E. destruct (H2 E) as [? _]. split; [done|]. apply Hw; auto.
  - intros E. destruct (H3 E) as [? _]. split; [done|]. intros Ek. apply Hr; auto.
Qed.

Lemma same_ends_end p p' (b : bool) :
  same_ends p p' → 0 < (if b then writeopen p else readopen p) → 0 < (if b then writeopen p' else readopen p').
Proof. unfold same_ends. destruct b; lia. Qed.

Lemma others_write killed p o wake p' k th :
  write_post killed p o → (∃ r out sg, o = Return r out wake sg p') ∨ (∃ c kk, o = Sleep c kk wake p') →
  thread_ok p k th → thread_ok p' (k || killed) (wake_thread wake th).
Proof.
  intros Hp Ho Hth. pose proof Hth as [H1 H2 H3].
  assert (same_ends p p' ∧ (is_full p = true → p' = p) ∧
    (wake = [ChRead] ∨ wake = [] ∧ (killed = true ∨ readopen p = 0))) as (He & Hf & Hw).
  { destruct Ho as [(r & out & sg & ->)|(c & kk & ->)]; cbn in Hp; naive_solver. }
  apply (thread_ok_update p p' k); [done| |by destruct k|..].
  - by apply (same_ends_end p).
  - intros E _. destruct (H2 E) as (_ & Hfull & ?). by rewrite (Hf Hfull).
  - intros E Hni Hk. exfalso. apply orb_false_iff in Hk as [_ Hk].
    destruct Hw as [->|[_ [?|Hr]]]; [apply Hni; left|congruence|].
    destruct (H3 E) as [Hc _]. rewrite Hc in H1. lia.
Qed.

Lemma others_read killed p o wake p' k th :
  read_post killed p o → (∃ r out sg, o = Return r out wake sg p') ∨ (∃ c kk, o = Sleep c kk wake p') →
  thread_ok p k th → thread_ok p' (k || killed) (wake_thread wake th).
Proof.
  intros Hp Ho Hth. pose proof Hth as [H1 H2 H3].
  assert (same_ends p p' ∧ ((wake = [] ∧ p' = p) ∨
    (wake = [ChWrite] ∧ ¬ (is_empty p = true ∧ writeopen p ≠ 0)))) as (He & Hw).
  { destruct Ho as [(r & out & sg & ->)|(c & kk & ->)]; cbn in Hp; [by destruct Hp as (_ & ? & _ & ?)|].
    destruct Hp as (-> & _ & _ & -> & _). by split; [|left]. }
  apply (thread_ok_update p p' k); [done| |by destruct k|..].
  - by apply (same_ends_end p).
  - intros E Hni. destruct Hw as [[-> ->]|[-> _]]; [|exfalso; apply Hni; left].
    by destruct (H2 E) as (_ & ? & ?).
  - intros E Hni Hk. apply orb_false_iff in Hk as [Hk _]. destruct (H3 E) as [_ Hr].
    destruct Hw as [[-> ->]|[_ Hne]]; [by apply Hr|]. exfalso. by apply Hne, Hr.
Qed.

(** A quantum ends: the other threads keep their invariant and the thread
    itself sleeps for a reason. *)
Lemma settle_inv s t killed todo o s' :
  inv s → settle t killed todo o s = Some s' →
  (∀ wake p' k th, (∃ r out sg, o = Return r out wake sg p') ∨ (∃ c kk, o = Sleep c kk wake p') →
     thread_ok (s_pipe s) k th → thread_ok p' (k || killed) (wake_thread wake th)) →
  match o with
  | Return _ out _ _ p' => pipe_ok p' ∧ same_ends (s_pipe s) p' ∧
      out ++ contents (ring p') = contents (ring (s_pipe s)) ++ taken (s_pipe s) p' todo
  | Sleep c k _ p' => pipe_ok p' ∧ same_ends (s_pipe s) p' ∧
      contents (ring p') = contents (ring (s_pipe s)) ++ taken (s_pipe s) p' todo ∧
      thread_ok p' (kills s || killed) (mkthread k (Some c) killed)
  | Fault => True
  end → inv s'.
Proof.
  intros [I1 Ist I2 I3 I4 I5] Hs Hoth Hp.
  destruct o as [r out wake sg p'|c k wake p'|]; cbn in Hs; simplify_eq.
  - destruct Hp as (Hok & (E1 & E2 & E3) & Hst). split; cbn; rewrite ?E1, ?E2, ?E3; try done.
    { by rewrite <- app_assoc, Hst, app_assoc, Ist. }
    intros t' th' [_ H]%lookup_delete_Some. rewrite lookup_fmap in H.
    apply fmap_Some in H as (th & Hth & ->). eapply Hoth; eauto 10.
  - destruct Hp as (Hok & (E1 & E2 & E3) & Hst & Hth). split; cbn; rewrite ?E1, ?E2, ?E3; try done.
    { by rewrite Hst, app_assoc, Ist. }
    intros t' th' [[<- <-]|[_ H]]%lookup_insert_Some; [done|]. rewrite lookup_fmap in H.
    apply fmap_Some in H as (th & Hth' & ->). eapply Hoth; eauto 10.
Qed.

Lemma write_inv s t killed todo n o s' :
  inv s → 0 < writeopen (s_pipe s) →
  write_post killed (s_pipe s) o ∧ (∃ m, (m ≤ length todo)%nat ∧ moves (s_pipe s) todo n m o) →
  settle t killed todo o s = Some s' → inv s'.
Proof.
  intros Hinv Hw [Hp (m & Hm & Hmv)] Hs. pose proof (iv_pipe _ Hinv) as Hok. eapply (settle_inv _ _ _ _ _ _ Hinv Hs).
  - intros wake p' k th Ho. by eapply others_write.
  - destruct o as [| |]; cbn in Hp, Hmv; [| |done].
    + destruct Hp as (? & ? & _), Hmv as (Hmv & -> & _). split_and!; [done..|]. unfold taken.
      rewrite (moved_taken _ _ m todo) by done. apply Hmv.
    + destruct Hp as (? & He & _ & -> & Hk & _ & Hf & Hr), Hmv as (Hmv & _). split_and!; try apply He; [done| |].
      { unfold taken. rewrite (moved_taken _ _ m todo) by done. apply Hmv. }
      split; cbn; [|naive_solver..]. rewrite Hk. unfold same_ends in He. lia.
Qed.

Lemma read_inv s t killed o s' :
  inv s → 0 < readopen (s_pipe s) → read_post killed (s_pipe s) o →
  settle t killed [] o s = Some s' → inv s'.
Proof.
  intros Hinv Hw Hp Hs. eapply (settle_inv _ _ _ _ _ _ Hinv Hs).
  - intros wake p' k th Ho. by eapply others_read.
  - destruct o as [| |]; cbn in Hp; [| |done].
    + destruct Hp as (? & ? & Hc & _). unfold taken. rewrite take_nil, app_nil_r. done.
    + destruct Hp as (-> & -> & Hk & _ & He & Hr). split; [apply Hinv|]. split; [done|].
      split; [unfold taken; by rewrite take_nil, app_nil_r|]. split; cbn; [by rewrite Hk|naive_solver..].
Qed.

Lemma kill_inv s t th :
  inv s → s_threads s !! t = Some th →
  inv (mksys (s_pipe s) (<[t := mkthread (th_call th) None true]> (s_threads s)) true (s_sent s) (s_received s)).
Proof.
  intros Hinv Ht. split; cbn; try apply Hinv.
  intros t' th' [[<- <-]|[_ H]]%lookup_insert_Some.
  - split; cbn; [|done..]. by eapply tk_end, Hinv.
  - destruct (iv_threads _ Hinv _ _ H) as [H1 H2 H3]. split; [done..|]. naive_solver.
Qed.

Lemma close_inv s (w : bool) :
  inv s → 0 < (if w then writeopen (s_pipe s) else readopen (s_pipe s)) →
  ((if w then writeopen (s_pipe s) else readopen (s_pipe s)) = 1 →
     ∀ t th, s_threads s !! t = Some th → writing (th_call th) ≠ w) →
  inv (mksys (pipeclose (s_pipe s) w).2
    (wake_thread [(pipeclose (s_pipe s) w).1] <$> s_threads s) (kills s) (s_sent s) (s_received s)).
Proof.
  intros [[Hwf Hsz] Ist I2 I3 I4 I5] Hpos Hlast. unfold INT_MAX in *.
  assert (∀ z, 0 < z ≤ INT_MAX → s32 (z - 1) = z - 1) as Hs32.
  { intros z Hz. apply sx_small; [|lia]. unfold INT_MAX in Hz. lia. }
  unfold INT_MAX in Hs32. split; cbn; unfold INT_MAX.
  - by split.
  - done.
  - destruct w; [lia|]. rewrite Hs32; lia.
  - destruct w; [|lia]. rewrite Hs32; lia.
  - rewrite I4. destruct w.
    + rewrite Hs32 by lia. destruct (Z.eqb_spec (readopen (s_pipe s)) 0); [|done].
      destruct (Z.eqb_spec (writeopen (s_pipe s)) 0), (Z.eqb_spec (writeopen (s_pipe s) - 1) 0); (done || lia).
    + rewrite Hs32 by lia. destruct (Z.eqb_spec (writeopen (s_pipe s)) 0);
        rewrite ?andb_false_r, ?andb_true_r; [|done].
      destruct (Z.eqb_spec (readopen (s_pipe s)) 0), (Z.eqb_spec (readopen (s_pipe s) - 1) 0); (done || lia).
  - intros t th' H. rewrite lookup_fmap in H. apply fmap_Some in H as (th & Hth & ->).
    pose proof (I5 _ _ Hth) as Hok. pose proof Hok as [H1 H2 H3].
    apply (thread_ok_update (s_pipe s) _ (kills s)); cbn; [done| |done|..].
    + destruct w, (writing (th_call th)) eqn:Ew; try done; rewrite Hs32 by lia.
      * destruct (decide (writeopen (s_pipe s) = 1)) as [E|]; [|lia]. by apply (Hlast E) in Hth.
      * destruct (decide (readopen (s_pipe s) = 1)) as [E|]; [|lia]. by apply (Hlast E) in Hth.
    + intros E Hni. destruct (H2 E) as (Hk & Hf & Hr). destruct w; [done|exfalso; apply Hni; left].
    + intros E Hni Hkf. destruct (H3 E) as (Hk & Hf). destruct w; [exfalso; apply Hni; left|by apply Hf].
Qed.

Lemma step_inv s s' : step s s' → inv s → inv s'.
Proof.
  intros [] Hinv.
  - eapply (write_inv _ _ _ bs (length bs)); [done|done|apply pipewrite_ok, Hinv|done].
  - eapply read_inv; [done|done|apply piperead_ok, Hinv|done].
  - pose proof (iv_threads _ Hinv _ _ H) as Hok. pose proof (tk_end _ _ _ Hok) as He.
    destruct (th_call th) as [i bs n|n] eqn:E; cbn in *.
    + eapply (write_inv _ _ _ bs n); [done|done|apply write_loop_ok, Hinv|done].
    + eapply read_inv; [done|done|apply piperead_ok, Hinv|done].
  - by apply kill_inv.
  - by apply close_inv.
Qed.

Lemma reachable_inv s s' : rtc step s s' → inv s → inv s'.
Proof. induction 1 as [|s1 s2 s3 H _ IH]; [done|]. intros Hinv. by apply IH, (step_inv s1). Qed.

(** A stretch of a write, in terms of the bytes it took. *)
Lemma quantum_taken killed p i bs n k :
  pipe_ok p → (k = pipewrite killed p bs ∧ n = length bs) ∨ k = resume killed p (Writing i bs n) →
  match k with
  | Return r out _ _ p' => out = [] ∧ ((r = n ∧ taken p p' bs = bs) ∨ r = - EPIPE)
  | Sleep _ k' _ p' => ∃ j rest, k' = Writing j rest n ∧ taken p p' bs ++ rest = bs
  | Fault => True
  end.
Proof.
  intros Hok Hk. assert (write_post killed p k ∧ ∃ m, (m ≤ length bs)%nat ∧ moves p bs n m k) as [Hp (m & Hm & Hmv)].
  { destruct Hk as [[-> ->]| ->]; [by apply pipewrite_ok|by apply write_loop_ok]. }
  destruct k as [r out w sg p'|c k' w p'|]; cbn in Hp, Hmv; [| |done]; unfold taken.
  - destruct Hp as (Hok' & _), Hmv as (Hmv & -> & Hr). rewrite (moved_taken _ _ m bs) by done. split; [done|].
    destruct Hr as [[-> ->]|?]; [left; by rewrite firstn_all|by right].
  - destruct Hp as (Hok' & _), Hmv as (Hmv & j & ->). rewrite (moved_taken _ _ m bs) by done.
    exists j, (drop m bs). by rewrite take_drop.
Qed.

(** A new pipe, as [pipealloc] fills it in. *)
Definition new_pipe (junk : list Z) : pipe := mkpipe 1 1 (mkrb 4096 8192 0 0 PIPESIZE junk) false.
Definition start (junk : list Z) : sys := mksys (new_pipe junk) ∅ false [] [].

Lemma start_inv junk : length junk = Z.to_nat PIPESIZE → inv (start junk).
Proof.
  intros Hl. split; cbn; try (unfold INT_MAX; lia); try done.
  split; cbn; [|done]. split; cbn; try (unfold PIPESIZE; lia); [|done|].
  - exists (2 ^ 55). reflexivity.
  - vm_compute. done.
Qed.

(** ** Properties *)

(** C30. A pipe is a reliable FIFO channel under concurrency.  Whatever the
    interleaving of writers, readers, kills and closes, the bytes stored to the
    readers so far followed by the bytes still buffered are exactly the bytes
    taken from the writers so far, in order.  The next stretch of a write,
    whether of a new call or of one that slept, takes a first part of the bytes
    its caller still has to write; it returns the length of the write only when
    that is all of them, and keeps the rest when it sleeps.  At most [PIPESIZE]
    bytes are buffered, and the pipe is freed exactly when both ends are
    closed, at which time no thread is inside it. *)
Theorem pipe_stream junk s :
  length junk = Z.to_nat PIPESIZE → rtc step (start junk) s →
  s_received s ++ contents (ring (s_pipe s)) = s_sent s ∧
  (∀ killed k i bs n, (k = pipewrite killed (s_pipe s) bs ∧ n = length bs) ∨ k = resume killed (s_pipe s) (Writing i bs n) →
    match k with
    | Return r out _ _ p' => out = [] ∧ ((r = n ∧ taken (s_pipe s) p' bs = bs) ∨ r = - EPIPE)
    | Sleep _ k' _ p' => ∃ j rest, k' = Writing j rest n ∧ taken (s_pipe s) p' bs ++ rest = bs
    | Fault => True
    end) ∧
  (length (contents (ring (s_pipe s))) ≤ Z.to_nat PIPESIZE)%nat ∧
  (freed (s_pipe s) = true ↔ readopen (s_pipe s) = 0 ∧ writeopen (s_pipe s) = 0) ∧
  (freed (s_pipe s) = true → s_threads s = ∅).
Proof.
  intros Hj Hst. destruct (reachable_inv _ _ Hst (start_inv _ Hj)) as [Hok Hstr I2 I3 I4 I5].
  split; [done|]. split; [|split].
  - intros killed k i bs n Hk. apply (quantum_taken killed (s_pipe s) i); done.
  - destruct Hok as [Hwf Hsz]. rewrite length_contents. apply wf_used in Hwf as Hu. rewrite Hsz in Hu. lia.
  - rewrite I4, andb_true_iff, !Z.eqb_eq. split; [done|]. intros [E1 E2].
    apply map_empty. intros t. destruct (s_threads s !! t) as [th|] eqn:Ht; [|done].
    destruct (I5 _ _ Ht) as [H _ _]. rewrite E1, E2 in H. destruct (writing _); lia.
Qed.

(** C31. No wakeup is lost.  A thread asleep in [pipewrite] finds the pipe full
    and a reader left, and unless some thread was killed inside a call, a
    thread asleep in [piperead] finds it empty and a writer left; so a reader
    and a writer never sleep at the same time. *)
Theorem pipe_no_lost_wakeup junk s :
  length junk = Z.to_nat PIPESIZE → rtc step (start junk) s →
  (∀ t th, s_threads s !! t = Some th → th_sleep th = Some ChWrite →
     length (contents (ring (s_pipe s))) = Z.to_nat PIPESIZE ∧ 0 < readopen (s_pipe s)) ∧
  (kills s = false → ∀ t th, s_threads s !! t = Some th → th_sleep th = Some ChRead →
     contents (ring (s_pipe s)) = [] ∧ 0 < writeopen (s_pipe s) ∧
     ∀ t' th', s_threads s !! t' = Some th' → th_sleep th' ≠ Some ChWrite).
Proof.
  intros Hj Hst. destruct (reachable_inv _ _ Hst (start_inv _ Hj)) as [Hp _ I2 I3 I4 I5].
  assert (∀ t th, s_threads s !! t = Some th → th_sleep th = Some ChWrite →
     length (contents (ring (s_pipe s))) = Z.to_nat PIPESIZE ∧ 0 < readopen (s_pipe s)) as Hw.
  { intros t th Ht Hs. destruct (tk_writer _ _ _ (I5 _ _ Ht) Hs) as (_ & Hf & Hr).
    apply full_iff in Hf; [|done]. rewrite length_contents, Hf. split; [done|lia]. }
  split; [done|]. intros Hk t th Ht Hs.
  destruct (tk_reader _ _ _ (I5 _ _ Ht) Hs) as (_ & Hr). destruct (Hr Hk) as [He Hwo].
  apply Z.eqb_eq, empty_iff in He; [|apply Hp].
  assert (contents (ring (s_pipe s)) = []) as Hc.
  { apply nil_length_inv. by rewrite length_contents, He. }
  split_and!; [done|lia|]. intros t' th' Ht' Hs'. destruct (Hw _ _ Ht' Hs') as [Hl _].
  by rewrite Hc in Hl.
Qed.

(** ** Example runs *)

Definition ex_junk : list Z := replicate 512 0.
Definition or_start (o : option sys) : sys := default (start ex_junk) o.

(** Thread 0 writes two bytes, thread 1 reads one. *)
Definition ex_wrote : sys :=
  or_start (settle 0 false [65; 66] (pipewrite false (new_pipe ex_junk) [65; 66]) (start ex_junk)).
Definition ex_read : sys := or_start (settle 1 false [] (piperead false (s_pipe ex_wrote) 1) ex_wrote).

Lemma ex_read_reachable : rtc step (start ex_junk) ex_read.
Proof.
  eapply rtc_l; [eapply (step_write 0 false [65; 66] _ ex_wrote); vm_compute; reflexivity|].
  apply rtc_once. eapply (step_read 1 false 1); vm_compute; reflexivity.
Qed.

Lemma pipe_stream_witness :
  s_sent ex_read = [65; 66] ∧ s_received ex_read = [65] ∧
  s_received ex_read ++ contents (ring (s_pipe ex_read)) = s_sent ex_read ∧
  (length (contents (ring (s_pipe ex_read))) ≤ Z.to_nat PIPESIZE)%nat ∧
  (freed (s_pipe ex_read) = true ↔ readopen (s_pipe ex_read) = 0 ∧ writeopen (s_pipe ex_read) = 0).
Proof.
  destruct (pipe_stream ex_junk ex_read) as (H1 & _ & H2 & H3 & _); [reflexivity|apply ex_read_reachable|].
  split; [vm_compute; reflexivity|]. split; [vm_compute; reflexivity|]. split; [exact H1|]. split; [exact H2|exact H3].
Defined.

(** Thread 0 writes 1025 bytes and sleeps when the pipe is full; thread 1
    drains the pipe and reads again, on an empty pipe. *)
Definition ex_bytes : list Z := replicate 1025 7.
Definition lw1 : sys :=
  or_start (settle 0 false ex_bytes (pipewrite false (new_pipe ex_junk) ex_bytes) (start ex_junk)).
Definition lw2 : sys := or_start (settle 1 false [] (piperead false (s_pipe lw1) 512) lw1).
Definition lw3 : sys := or_start (settle 1 false [] (piperead false (s_pipe lw2) 512) lw2).

Lemma lw1_reachable : rtc step (start ex_junk) lw1.
Proof. apply rtc_once. eapply (step_write 0 false ex_bytes); vm_compute; reflexivity. Qed.

Lemma lw3_reachable : rtc step (start ex_junk) lw3.
Proof.
  etrans; [apply lw1_reachable|].
  eapply rtc_l; [eapply (step_read 1 false 512 _ lw2); vm_compute; reflexivity|].
  apply rtc_once. eapply (step_read 1 false 512); vm_compute; reflexivity.
Qed.

Lemma pipe_no_lost_wakeup_witness :
  (∀ t th, s_threads lw1 !! t = Some th → th_sleep th = Some ChWrite →
     length (contents (ring (s_pipe lw1))) = Z.to_nat PIPESIZE ∧ 0 < readopen (s_pipe lw1)) ∧
  (kills lw1 = false → ∀ t th, s_threads lw1 !! t = Some th → th_sleep th = Some ChRead →
     contents (ring (s_pipe lw1)) = [] ∧ 0 < writeopen (s_pipe lw1) ∧
     ∀ t' th', s_threads lw1 !! t' = Some th' → th_sleep th' ≠ Some ChWrite).
Proof. apply (pipe_no_lost_wakeup ex_junk lw1); [reflexivity|apply lw1_reachable]. Defined.

(** The writer is killed before it runs again; it fills the pipe and leaves. *)
Definition lw4 : sys :=
  mksys (s_pipe lw3)
    (<[0%nat := mkthread (Writing 512 (replicate 513 7) 1025) None true]> (s_threads lw3)) true (s_sent lw3) (s_received lw3).
Definition lw5 : sys :=
  or_start (settle 0 true (replicate 513 7) (resume true (s_pipe lw4) (Writing 512 (replicate 513 7) 1025)) lw4).

(** A writer that is killed while it waits for space can fill the pipe and
    return without waking the readers: a reader stays asleep on a full pipe. *)
Theorem pipe_killed_writer_lost_wakeup :
  ∃ s t th, rtc step (start ex_junk) s ∧ s_threads s !! t = Some th ∧ th_sleep th = Some ChRead ∧
    length (contents (ring (s_pipe s))) = Z.to_nat PIPESIZE ∧ 0 < readopen (s_pipe s).
Proof.
  exists lw5, 1%nat, (mkthread (Reading 512) (Some ChRead) false).
  split; [|by vm_compute]. etrans; [apply lw3_reachable|].
  eapply rtc_l; [apply (step_kill 0 (mkthread (Writing 512 (replicate 513 7) 1025) None false) lw3);
    vm_compute; reflexivity|].
  apply rtc_once. eapply (step_resume 0 (mkthread (Writing 512 (replicate 513 7) 1025) None true));
    vm_compute; reflexivity.
Qed.
End Pipe.
