(* ===== verification/File.v ===== *)
(** * Open files (kernel/file.c)

    The system-wide table of open files, the descriptor tables of the
    processes, and the operations on an open file: regular files and devices
    through the file system of Fs.v, pipes through Pipe.v.  The log appears
    through its contract (Log.v): [begin_op] and [end_op] count the running
    calls, and the last [end_op] makes the logged blocks the disk.  [committed]
    keeps the transactions in order. *)

From S2P Require Import Prelude Mem Words Block Bio Log CType KString Fs RingBuf Pipe.

Module File.
Import Block Fs.

Definition NFILE : nat := 100.
Definition OPEN_MAX : Z := 100.
Definition PATH_MAX : nat := 256.
Definition SYMLOOP_MAX : Z := 8.
Definition DEFAULT_GID : Z := 0.
Definition DEFAULT_UID : Z := 0.

Definition ENOENT : Z := 2.
Definition EIO : Z := 5.
Definition ENXIO : Z := 6.
Definition ENOMEM : Z := 12.
Definition EFAULT : Z := 14.
Definition EISDIR : Z := 21.
Definition EINVAL : Z := 22.
Definition EMFILE : Z := 24.
Definition EROFS : Z := 30.
Definition ELOOP : Z := 40.

Definition O_RDONLY : Z := 0x0.
Definition O_WRONLY : Z := 0x1.
Definition O_RDWR : Z := 0x2.
Definition O_ACCMODE : Z := 0x3.
Definition O_CREATE : Z := 0x4.
Definition O_APPEND : Z := 0x20.
Definition O_NONBLOCK : Z := 0x40.
Definition O_NOFOLLOW : Z := 0x80.
Definition AT_FDCWD : Z := -42.
Definition SEEK_SET : Z := 0.
Definition SEEK_CUR : Z := 1.
Definition SEEK_END : Z := 2.

Definition S_ISREG (mode : Z) : bool := S_ISTYPE mode S_IFREG.
Definition S_ISFIFO (mode : Z) : bool := S_ISTYPE mode S_IFIFO.
Definition S_ISLNK (mode : Z) : bool := S_ISTYPE mode S_IFLNK.

(** [major] and [minor] of a device number. *)
Definition major_of (dev : Z) : Z := u32 (Z.shiftr dev 32).
Definition minor_of (dev : Z) : Z := u32 dev.

Inductive ftype := FD_NONE | FD_PIPE | FD_INODE | FD_FIFO.

#[global] Instance ftype_eq_dec : EqDecision ftype.
Proof. solve_decision. Defined.

(** Pointers to pipes and inodes are indices, [None] for a null pointer. *)
Record file := mkfile {
  type : ftype;
  flags : Z;
  ref : Z;
  readable : bool;
  writable : bool;
  pipe : option nat;
  ip : option nat;
  off : Z;
}.

(** [ofile] and [cwd] are fields of the processes, by process; [fattrs], [rf]
    and [wf] are fields of the inodes, by index in the inode table. *)
Record vfs := mkvfs {
  fsys : fs;
  file_table : list file;
  ofile : list (list (option nat));
  cwd : list nat;
  pipes : list Pipe.pipe;
  fattrs : gmap nat Z;
  rf : gmap nat nat;
  wf : gmap nat nat;
  outstanding : Z;
  committed : list (list (Z * list Z));
}.

Definition set_fsys v (s : vfs) : vfs :=
  mkvfs v (file_table s) (ofile s) (cwd s) (pipes s) (fattrs s) (rf s) (wf s) (outstanding s) (committed s).
Definition set_file_table v (s : vfs) : vfs :=
  mkvfs (fsys s) v (ofile s) (cwd s) (pipes s) (fattrs s) (rf s) (wf s) (outstanding s) (committed s).
Definition set_ofile v (s : vfs) : vfs :=
  mkvfs (fsys s) (file_table s) v (cwd s) (pipes s) (fattrs s) (rf s) (wf s) (outstanding s) (committed s).
Definition set_cwd v (s : vfs) : vfs :=
  mkvfs (fsys s) (file_table s) (ofile s) v (pipes s) (fattrs s) (rf s) (wf s) (outstanding s) (committed s).
Definition set_pipes v (s : vfs) : vfs :=
  mkvfs (fsys s) (file_table s) (ofile s) (cwd s) v (fattrs s) (rf s) (wf s) (outstanding s) (committed s).
Definition set_fattrs v (s : vfs) : vfs :=
  mkvfs (fsys s) (file_table s) (ofile s) (cwd s) (pipes s) v (rf s) (wf s) (outstanding s) (committed s).
Definition set_fifo r w (s : vfs) : vfs :=
  mkvfs (fsys s) (file_table s) (ofile s) (cwd s) (pipes s) (fattrs s) r w (outstanding s) (committed s).
Definition set_log n c (s : vfs) : vfs :=
  mkvfs (fsys s) (file_table s) (ofile s) (cwd s) (pipes s) (fattrs s) (rf s) (wf s) n c.

Definition set_type v (f : file) : file := mkfile v (flags f) (ref f) (readable f) (writable f) (pipe f) (ip f) (off f).
Definition set_flags v (f : file) : file := mkfile (type f) v (ref f) (readable f) (writable f) (pipe f) (ip f) (off f).
Definition set_fref v (f : file) : file := mkfile (type f) (flags f) v (readable f) (writable f) (pipe f) (ip f) (off f).
Definition set_pipe v (f : file) : file := mkfile (type f) (flags f) (ref f) (readable f) (writable f) v (ip f) (off f).
Definition set_ip v (f : file) : file := mkfile (type f) (flags f) (ref f) (readable f) (writable f) (pipe f) v (off f).
Definition set_off v (f : file) : file := mkfile (type f) (flags f) (ref f) (readable f) (writable f) (pipe f) (ip f) v.
Definition set_rw r w (f : file) : file := mkfile (type f) (flags f) (ref f) r w (pipe f) (ip f) (off f).

Abbreviation VFS := (M vfs).

(** An operation of the file system; [log_write] panics outside of a
    transaction. *)
Definition onfs {A} (m : FS A) : VFS A := λ s,
  match m (fsys s) with
  | Ok (a, t) =>
      if (outstanding s <? 1) && negb (length (writes t) =? length (writes (fsys s)))%nat
      then Err (EPanic "log_write outside of trans")
      else Ok (a, set_fsys t s)
  | Err e => Err e
  end.

(** ** The log *)

Definition begin_op : VFS unit := modify (λ s, set_log (u64 (outstanding s + 1)) (committed s) s).

(** The state of the file system after a commit: the logged blocks are on the
    disk and no longer pinned. *)
Definition commit (s : fs) : fs :=
  set_writes [] (set_store (mkabs (Log.apply_writes (writes s) (a_disk (store s))) ∅ (a_held (store s))) s).

Definition end_op : VFS unit :=
  o ← gets outstanding;
  if u64 (o - 1) =? 0 then
    modify (λ s, set_log 0 (committed s ++ [writes (fsys s)]) (set_fsys (commit (fsys s)) s))
  else modify (λ s, set_log (u64 (o - 1)) (committed s) s).

(** ** The file table *)

Definition the_file (f : nat) : VFS file := λ s, from_option (file_table s !! f) s.
Definition upd_file (f : nat) (g : file → file) : VFS unit :=
  modify (λ s, set_file_table (alter g f (file_table s)) s).
Definition the_node (i : nat) : VFS inode := onfs (the_inode i).

Fixpoint first_unused (l : list file) : option nat :=
  match l with
  | [] => None
  | f :: l => if ref f =? 0 then Some 0%nat else S <$> first_unused l
  end.

Definition filealloc : VFS (option nat) :=
  l ← gets file_table;
  match first_unused l with
  | Some f => _ ← upd_file f (λ x, set_flags 0 (set_fref 1 x)); mret (Some f)
  | None => mret None
  end.

(** [++] on an [int]. *)
Definition int_inc (v : Z) : VFS Z := if INT_MAX <=? v then fail EFault else mret (v + 1).

Definition ref_up (f : nat) : VFS unit :=
  x ← the_file f;
  v ← int_inc (ref x);
  upd_file f (set_fref v).

Definition filedup (f : nat) (fl : Z) : VFS nat :=
  x ← the_file f;
  if ref x <? 1 then panic "filedup"
  else _ ← ref_up f; _ ← upd_file f (set_flags fl); mret f.

(** ** Pipes *)

(** A pipe whose memory was given back must not be used. *)
Definition the_pipe (p : nat) : VFS Pipe.pipe :=
  x ← (λ s, from_option (pipes s !! p) s);
  if Pipe.freed x then fail EFault else mret x.
Definition put_pipe (p : nat) (x : Pipe.pipe) : VFS unit :=
  modify (λ s, set_pipes (<[p := x]> (pipes s)) s).

Definition pipeclose (p : nat) (writable : bool) : VFS unit :=
  x ← the_pipe p;
  put_pipe p (Pipe.pipeclose x writable).2.

(** The end of a call: bytes moved and the pipe; a call that has to sleep
    waits for another process. *)
Definition settle (p : nat) (o : Pipe.outcome) : VFS (Z * list Z) :=
  match o with
  | Pipe.Return r out _ _ x => _ ← put_pipe p x; mret (r, out)
  | Pipe.Sleep _ _ _ _ => fail EBlocked
  | Pipe.Fault => fail EFault
  end.

Section calls.

(** The process that runs, its [killed] flag, what is on its stack where a
    [struct dirent] is declared, and the ring buffer [ring_buffer_create] makes
    for a new pipe, [None] when [kmalloc] finds no memory for it or the pipe. *)
Context (self : nat) (killed : bool) (de : list Z) (new_ring : option RingBuf.ring_buf).

(** [devsw[major]], [None] where the table has none. *)
Context (dev_open : Z → option (Z → Z → VFS Z)) (dev_close : Z → option (Z → VFS Z)).
Context (dev_read : Z → option (Z → nat → Z → FS (Z * list Z))).
Context (dev_write : Z → option (Z → nat → list Z → FS Z)).

Definition my_ofile (s : vfs) : list (option nat) := default [] (ofile s !! self).
Definition set_my_ofile (l : list (option nat)) (s : vfs) : vfs :=
  set_ofile (<[self := l]> (ofile s)) s.

Definition fd_to_struct_file (fd : Z) : VFS (option nat) :=
  if (fd <? 0) || (OPEN_MAX <=? fd) then mret None
  else
    l ← gets my_ofile;
    from_option (l !! Z.to_nat fd).

Fixpoint first_null (l : list (option nat)) : option nat :=
  match l with
  | [] => None
  | None :: _ => Some 0%nat
  | Some _ :: l => S <$> first_null l
  end.

Definition fdalloc (f : nat) : VFS Z :=
  l ← gets my_ofile;
  match first_null l with
  | Some fd => _ ← modify (set_my_ofile (<[fd := Some f]> l)); mret (Z.of_nat fd)
  | None => mret (- EMFILE)
  end.

(** Close file [f]: [f->ip] is looked at whatever the type of the file is. *)
Definition vfs_close (f : nat) : VFS Z :=
  x ← the_file f;
  if ref x <? 1 then panic "fileclose: file already closed"
  else
    _ ← upd_file f (set_fref (ref x - 1));
    if 0 <? ref x - 1 then mret 0
    else
      i ← from_option (ip x);
      n ← the_node i;
      let gone := _ ← upd_file f (λ x, set_flags 0 (set_type FD_NONE (set_fref 0 x)));
        match type x with
        | FD_PIPE => p ← from_option (pipe x); _ ← pipeclose p (writable x); mret 0
        | FD_FIFO =>
            p ← from_option (pipe x);
            _ ← pipeclose p (writable x);
            r ← (λ s, from_option (rf s !! i) s);
            w ← (λ s, from_option (wf s !! i) s);
            _ ← upd_file r (set_fref 0);
            _ ← upd_file w (set_fref 0);
            mret 0
        | FD_INODE => _ ← begin_op; _ ← onfs (inode_put i); _ ← end_op; mret 0
        | FD_NONE => mret 0
        end in
      if S_ISCHR (mode (di n)) then
        match dev_of dev_close n with
        | None => mret (- ENODEV)
        | Some close => _ ← close (minor (di n)); gone
        end
      else gone.

(** An index outside of [ofile] is an access outside of the array. *)
Definition fdalloc2 (f : nat) (fd : Z) : VFS Z :=
  l ← gets my_ofile;
  if fd <? 0 then fail EFault
  else
    old ← from_option (l !! Z.to_nat fd);
    r ← (match old with Some g => vfs_close g | None => mret 0 end);
    if r <? 0 then mret r
    else
      _ ← modify (λ s, set_my_ofile (<[Z.to_nat fd := Some f]> (my_ofile s)) s);
      mret fd.

(** The pipe of two new files.  The files are stored through the two
    arguments as they are made, and stay there when they are closed again
    because something is missing. *)
Definition pipealloc : VFS (Z * option nat * option nat) :=
  o0 ← filealloc;
  match o0 with
  | None => mret (- ENOMEM, None, None)
  | Some f0 =>
      o1 ← filealloc;
      match o1, new_ring with
      | None, _ => _ ← vfs_close f0; mret (- ENOMEM, o0, None)
      | Some f1, None => _ ← vfs_close f0; _ ← vfs_close f1; mret (- ENOMEM, o0, o1)
      | Some f1, Some rb =>
          p ← gets (λ s, length (pipes s));
          _ ← modify (λ s, set_pipes (pipes s ++ [Pipe.mkpipe 1 1 rb false]) s);
          _ ← upd_file f0 (λ x, set_pipe (Some p) (set_rw true false (set_type FD_PIPE x)));
          _ ← upd_file f1 (λ x, set_pipe (Some p) (set_rw false true (set_type FD_PIPE x)));
          mret (0, o0, o1)
      end
  end.

(** ** Reading and writing *)

Definition vfs_stat (f : nat) : VFS (Z * option stat) :=
  x ← the_file f;
  match type x with
  | FD_NONE => mret (- ENOENT, None)
  | _ =>
      i ← from_option (ip x);
      _ ← onfs (inode_lock i);
      st ← onfs (inode_stat i);
      _ ← onfs (inode_unlock i);
      mret (0, Some st)
  end.

(** The return value and the bytes stored at [addr]. *)
Definition vfs_read (f : nat) (n : Z) : VFS (Z * list Z) :=
  x ← the_file f;
  if negb (readable x) then mret (- EINVAL, [])
  else
    match type x with
    | FD_PIPE | FD_FIFO =>
        p ← from_option (pipe x);
        q ← the_pipe p;
        settle p (Pipe.piperead killed q (Z.to_nat n))
    | FD_INODE =>
        i ← from_option (ip x);
        _ ← onfs (inode_lock i);
        '(r, bs) ← onfs (inode_read dev_read i (off x) n);
        _ ← (if 0 <? r then upd_file f (λ x, set_off (s64 (off x + r)) x) else mret tt);
        _ ← onfs (inode_unlock i);
        mret (r, bs)
    | FD_NONE => panic "fileread"
    end.

(** [f->off + n] is a signed addition. *)
Definition fileseek (f : nat) (n whence : Z) : VFS Z :=
  x ← the_file f;
  if whence =? SEEK_CUR then
    if ckd_add_off (off x) n then fail EFault else _ ← upd_file f (set_off (off x + n)); mret 0
  else if whence =? SEEK_SET then _ ← upd_file f (set_off n); mret 0
  else if whence =? SEEK_END then
    i ← from_option (ip x);
    nd ← the_node i;
    _ ← upd_file f (set_off (s64 (size (di nd))));
    mret 0
  else mret (- EINVAL).

(** The most one transaction writes. *)
Definition max_write : Z := (Log.MAXOPBLOCKS - 1 - 1 - 2) / 2 * 512.

(** One turn per piece, and one to leave. *)
Fixpoint write_loop (f i : nat) (addr : list Z) (n k : Z) (fuel : nat) : VFS Z :=
  match fuel with
  | O => fail EFuel
  | S fuel =>
      if k <? n then
        let n1 := if max_write <? n - k then max_write else n - k in
        _ ← begin_op;
        _ ← onfs (inode_lock i);
        x ← the_file f;
        r ← onfs (inode_write dev_write i (get_bytes addr (Z.to_nat k) (Z.to_nat n1)) (off x));
        _ ← (if r =? 0 then mret tt else upd_file f (set_off (s64 (off x + r))));
        _ ← onfs (inode_unlock i);
        _ ← end_op;
        if r <? 0 then mret k
        else if negb (r =? n1) then panic "short filewrite"
        else write_loop f i addr n (k + r) fuel
      else mret k
  end.

Definition vfs_write (f : nat) (addr : list Z) : VFS Z :=
  let n := Z.of_nat (length addr) in
  x ← the_file f;
  if negb (writable x) then mret (- EROFS)
  else
    match type x with
    | FD_PIPE | FD_FIFO =>
        p ← from_option (pipe x);
        q ← the_pipe p;
        '(r, _) ← settle p (Pipe.pipewrite killed q addr);
        mret r
    | FD_INODE =>
        i ← from_option (ip x);
        write_loop f i addr n 0 (Z.to_nat (n / max_write) + 2)
    | FD_NONE => panic "filewrite"
    end.

(** ** Names *)

Definition absolute (path : list Z) : bool :=
  match path with c :: _ => c =? SLASH | [] => false end.

(** The directory a relative path starts at; an absolute path has no use for it. *)
Definition start_dir (dirfd : Z) (path : list Z) : VFS nat :=
  if absolute path then mret 0%nat
  else if dirfd =? AT_FDCWD then (λ s, from_option (cwd s !! self) s)
  else
    o ← fd_to_struct_file dirfd;
    f ← from_option o;
    x ← the_file f;
    from_option (ip x).

Definition namei_with_fd (dirfd : Z) (path : list Z) : VFS (option nat) :=
  d ← start_dir dirfd path;
  onfs (namei dev_read de d path).

Definition nameiparent_with_fd (dirfd : Z) (path : list Z) : VFS (option (nat * list Z)) :=
  d ← start_dir dirfd path;
  onfs (nameiparent dev_read de d path).

(** The string in a buffer. *)
Fixpoint c_string (buf : list Z) : option (list Z) :=
  match buf with
  | [] => None
  | c :: buf => if c =? 0 then Some [] else (c ::.) <$> c_string buf
  end.

(** The loop follows links until it meets something else; [buf] is the
    caller's buffer, which is also where the next name is read from. *)
Fixpoint readlink_loop (i : nat) (ref_count : Z) (buf : list Z) (nbytes : Z) (fuel : nat) : VFS (Z * list Z) :=
  match fuel with
  | O => fail EFuel
  | S fuel =>
      n ← the_node i;
      if S_ISLNK (mode (di n)) then
        if ref_count - 1 =? 0 then _ ← onfs (inode_unlockput i); mret (- ELOOP, buf)
        else
          '(r, bs) ← onfs (inode_read dev_read i 0 (length buf));
          let buf := put_bytes buf 0 bs in
          if r <? 0 then _ ← onfs (inode_unlockput i); mret (r, buf)
          else
            _ ← onfs (inode_unlock i);
            name ← from_option (c_string buf);
            o ← namei_with_fd AT_FDCWD name;
            match o with
            | None => fail EFault (* [inode_put] of a null pointer *)
            | Some j => _ ← onfs (inode_lock j); readlink_loop j (ref_count - 1) buf r fuel
            end
      else _ ← onfs (inode_unlockput i); mret (nbytes, buf)
  end.

Definition filereadlinkat (dirfd : Z) (pathname buf : list Z) : VFS (Z * list Z) :=
  o ← namei_with_fd dirfd pathname;
  match o with
  | None => mret (- ENOENT, buf)
  | Some i =>
      _ ← onfs (inode_lock i);
      n ← the_node i;
      if negb (S_ISLNK (mode (di n))) then _ ← onfs (inode_unlockput i); mret (- EINVAL, buf)
      else readlink_loop i SYMLOOP_MAX buf 0 (Z.to_nat SYMLOOP_MAX + 1)
  end.

Definition resolve_nameat (dirfd : Z) (path : list Z) : VFS (option nat) :=
  o ← namei_with_fd dirfd path;
  match o with
  | None => mret None
  | Some i =>
      _ ← onfs (inode_lock i);
      n ← the_node i;
      _ ← onfs (inode_unlock i);
      if S_ISLNK (mode (di n)) then
        '(r, buf) ← filereadlinkat dirfd path (replicate PATH_MAX 0);
        if r <? 0 then mret None
        else
          _ ← onfs (inode_put i);
          name ← from_option (c_string buf);
          namei_with_fd dirfd name
      else mret (Some i)
  end.

Definition resolve_name (path : list Z) : VFS (option nat) := resolve_nameat AT_FDCWD path.

(** ** Creating *)

Definition set_nlink v (d : dinode) : dinode :=
  mkdinode (ctime d) (atime d) (mtime d) (size d) (mode d) (gid d) (uid d) (addrs d) (major d) (minor d) v.

(** The fields of a new inode; device numbers are kept in [short]s. *)
Definition new_dinode (md dev : Z) (d : dinode) : dinode :=
  mkdinode (ctime d) (atime d) (mtime d) (size d) md DEFAULT_GID DEFAULT_UID (addrs d)
    (sx 16 (major_of dev)) (sx 16 (minor_of dev)) 1.

Definition DOT : list Z := [46].
Definition DOTDOT : list Z := [46; 46].

Definition vfs_locked_inode_create (dirfd : Z) (path : list Z) (md dev : Z) : VFS (option nat) :=
  let md := if Z.land md S_IFMT =? 0 then Z.lor md S_IFREG else md in
  o ← nameiparent_with_fd dirfd path;
  match o with
  | None => mret None
  | Some (dp, name) =>
      _ ← onfs (inode_lock dp);
      e ← onfs (dirlookup dev_read de dp name);
      match e with
      | Some (_, i) =>
          _ ← onfs (inode_unlockput dp);
          _ ← onfs (inode_lock i);
          n ← the_node i;
          if (S_ISREG (mode (di n)) && S_ISREG md) || (S_ISLNK (mode (di n)) && S_ISLNK md) ||
             (S_ISFIFO (mode (di n)) && S_ISFIFO md)
          then _ ← onfs (upd_di i (set_mode md)); mret (Some i)
          else _ ← onfs (inode_unlockput i); mret None
      | None =>
          d ← the_node dp;
          i ← onfs (inode_alloc (Fs.dev d) md);
          _ ← onfs (inode_lock i);
          _ ← onfs (upd_di i (new_dinode md dev));
          _ ← modify (λ s, set_fattrs (<[i := 0]> (fattrs s)) s);
          _ ← onfs (inode_update i);
          n ← the_node i;
          _ ← (if S_ISDIR md then
                 _ ← onfs (upd_di dp (λ d, set_nlink (sx 16 (nlink d + 1)) d));
                 _ ← onfs (inode_update dp);
                 r1 ← onfs (dirlink dev_read dev_write de i DOT (inum n));
                 if r1 <? 0 then panic "create dots"
                 else
                   r2 ← onfs (dirlink dev_read dev_write de i DOTDOT (inum d));
                   if r2 <? 0 then panic "create dots" else mret tt
               else mret tt);
          r ← onfs (dirlink dev_read dev_write de dp name (inum n));
          if r <? 0 then panic "create: dirlink"
          else _ ← onfs (inode_unlockput dp); mret (Some i)
      end
  end.

(** ** Opening *)

(** [get_fd]: the file and the descriptor for the locked inode [i]. *)
Definition open_inode (i : nat) (fl : Z) : VFS Z :=
  o ← filealloc;
  match o with
  | None => _ ← onfs (inode_unlockput i); _ ← end_op; mret (- EMFILE)
  | Some f =>
      fd ← fdalloc f;
      if fd <? 0 then
        _ ← vfs_close f;
        _ ← onfs (inode_unlockput i);
        _ ← end_op;
        mret (- EMFILE)
      else
        _ ← onfs (inode_unlock i);
        _ ← end_op;
        n ← the_node i;
        let acc := Z.land fl O_ACCMODE in
        let o := if Z.land fl O_APPEND =? 0 then 0 else s64 (size (di n)) in
        _ ← upd_file f (λ x, set_rw ((acc =? O_RDONLY) || (acc =? O_RDWR)) ((acc =? O_WRONLY) || (acc =? O_RDWR))
               (set_off o (set_ip (Some i) (set_type FD_INODE x))));
        mret fd
  end.

(** The first open of a FIFO makes its pipe, with no end open; [false] when
    [pipealloc] fails. *)
Definition make_fifo (i : nat) : VFS bool :=
  has_r ← gets (λ s, rf s !! i);
  has_w ← gets (λ s, wf s !! i);
  match has_r, has_w with
  | None, None =>
      '(e, o0, o1) ← pipealloc;
      _ ← modify (λ s, set_fifo (partial_alter (λ _, o0) i (rf s)) (partial_alter (λ _, o1) i (wf s)) s);
      if e <? 0 then mret false
      else
        r ← from_option o0;
        w ← from_option o1;
        _ ← upd_file r (λ x, set_ip (Some i) (set_type FD_FIFO x));
        _ ← upd_file w (λ x, set_ip (Some i) (set_type FD_FIFO x));
        x ← the_file r;
        p ← from_option (pipe x);
        q ← the_pipe p;
        _ ← put_pipe p (Pipe.mkpipe 0 0 (Pipe.ring q) (Pipe.freed q));
        mret true
  | _, _ => mret true
  end.

(** A process that opens a FIFO for reading waits for a writer. *)
Definition open_fifo (i : nat) (fl : Z) (otherwise : VFS Z) : VFS Z :=
  made ← make_fifo i;
  if negb made then _ ← onfs (inode_unlockput i); _ ← end_op; mret (-1)
  else if Z.land fl O_ACCMODE =? O_WRONLY then
    w ← (λ s, from_option (wf s !! i) s);
    x ← the_file w;
    p ← from_option (pipe x);
    q ← the_pipe p;
    if Pipe.readopen q =? 0 then _ ← onfs (inode_unlock i); _ ← end_op; mret (- ENXIO)
    else
      v ← int_inc (Pipe.writeopen q);
      _ ← put_pipe p (Pipe.mkpipe (Pipe.readopen q) v (Pipe.ring q) (Pipe.freed q));
      _ ← ref_up w;
      fd ← fdalloc w;
      _ ← onfs (inode_unlock i);
      _ ← end_op;
      mret fd
  else if Z.land fl O_ACCMODE =? O_RDONLY then
    r ← (λ s, from_option (rf s !! i) s);
    x ← the_file r;
    p ← from_option (pipe x);
    q ← the_pipe p;
    v ← int_inc (Pipe.readopen q);
    _ ← put_pipe p (Pipe.mkpipe v (Pipe.writeopen q) (Pipe.ring q) (Pipe.freed q));
    _ ← ref_up r;
    fd ← fdalloc r;
    _ ← onfs (inode_unlock i);
    if fd <? 0 then _ ← end_op; mret fd
    else if Pipe.writeopen q =? 0 then fail EBlocked
    else _ ← end_op; mret fd
  else otherwise.

Definition lookup_path (dirfd : Z) (path : list Z) (fl : Z) : VFS (option nat) :=
  if Z.land fl O_NOFOLLOW =? 0 then resolve_nameat dirfd path else namei_with_fd dirfd path.

(** [path] is [None] for a null pointer. *)
Definition vfs_openat (dirfd : Z) (path : option (list Z)) (fl md : Z) : VFS Z :=
  match path with None => mret (- EFAULT) | Some path =>
  let finish i :=
    n ← the_node i;
    if S_ISFIFO (mode (di n)) && (Z.land fl O_NONBLOCK =? 0) then open_fifo i fl (open_inode i fl)
    else open_inode i fl in
  _ ← begin_op;
  o ← lookup_path dirfd path fl;
  if Z.land fl O_CREATE =? O_CREATE then
    match o with
    | Some i =>
        _ ← onfs (inode_lock i);
        n ← the_node i;
        if S_ISCHR (mode (di n)) then open_inode i fl
        else _ ← onfs (inode_unlockput i); _ ← end_op; mret (- EEXIST)
    | None =>
        c ← vfs_locked_inode_create dirfd path md 0;
        match c with
        | None => _ ← end_op; mret (- EIO)
        | Some i => finish i
        end
    end
  else
    match o with
    | None => _ ← end_op; mret (- ENOENT)
    | Some i =>
        _ ← onfs (inode_lock i);
        _ ← modify (λ s, set_fattrs (<[i := fl]> (fattrs s)) s);
        n ← the_node i;
        if S_ISDIR (mode (di n)) && negb (Z.land fl O_ACCMODE =? O_RDONLY) then
          _ ← onfs (inode_unlockput i); _ ← end_op; mret (- EISDIR)
        else if S_ISCHR (mode (di n)) then
          match dev_of dev_open n with
          | None => _ ← onfs (inode_unlockput i); _ ← end_op; mret (- ENODEV)
          | Some open => _ ← open (minor (di n)) fl; finish i
          end
        else finish i
    end
  end.

End calls.
End File.
