(* ===== verification/FsTxn.v ===== *)
(** * File writes as transactions

    [vfs_write] hands a write to [inode_write] in pieces of at most 1536 bytes,
    each between [begin_op] and [end_op].  Here the file system (Fs.v) meets
    the log (Log.v): what the transaction sees is determined by the blocks it
    logs, a piece logs at most [MAXOPBLOCKS] blocks, and a crash therefore
    leaves the file with its old or with its new contents. *)

From S2P Require Import Prelude Mem Words Block Bio Log Fs FsBlock FsTree FsFile FsInode FsRel File.

Module FsTxn.
Import Block Fs FsBlock FsTree FsFile FsInode FsRel.

(** ** The view of a transaction *)

(** The blocks pinned in memory are the logged ones, the last write first. *)
Definition txn (s s' : fs) : Prop :=
  ∃ ws, writes s' = writes s ++ ws ∧ sb s' = sb s ∧ a_disk (store s') = a_disk (store s) ∧
    a_mem (store s') = Log.apply_writes ws (a_mem (store s)).

#[global] Instance txn_rel : StateRel txn.
Proof.
  split.
  - intros s. exists []. by rewrite app_nil_r.
  - intros s1 s2 s3 (w1 & W1 & S1 & D1 & M1) (w2 & W2 & S2 & D2 & M2). exists (w1 ++ w2).
    rewrite W2, W1, S2, D2, M2, M1, app_assoc, Log.apply_writes_app. done.
  - intros s b d. exists []. by rewrite app_nil_r.
  - intros s b. exists []. by rewrite app_nil_r.
  - intros s b d. by exists [(b, d)].
  - intros s ip f _. exists []. by rewrite app_nil_r.
Qed.

Lemma apply_writes_over ws m dk k :
  match Log.apply_writes ws m !! k with Some d => Some d | None => dk !! k end =
  Log.apply_writes ws (m ∪ dk) !! k.
Proof.
  revert m. induction ws as [|[h c] ws IH]; intros m; cbn.
  - rewrite lookup_union. by destruct (m !! k), (dk !! k).
  - rewrite IH. by rewrite insert_union_l.
Qed.

(** Seen from a clean state, the view is the disk with the writes applied. *)
Lemma txn_view s s' dk :
  store s = mkabs dk ∅ ∅ → writes s = [] → txn s s' →
  ∀ k, V s' k = Log.apply_writes (writes s') dk !! k.
Proof.
  intros Hs Hw (ws & W & _ & D & M) k. rewrite Hs in D, M. rewrite Hw in W. cbn in D, M, W. rewrite W.
  unfold V, view. rewrite M, D, apply_writes_over. by rewrite (left_id_L ∅ (∪)).
Qed.

(** ** How many blocks a piece logs *)

Lemma path_parent bn τ π j : τ ∈ path bn → parent τ = Some (π, j) → π ∈ path bn.
Proof.
  unfold path, dslot. repeat zcase; rewrite ?elem_of_cons; intros Hin Hp; destruct_or?; subst; cbn in Hp; simplify_eq; auto;
    by apply elem_of_nil in Hin.
Qed.

Lemma path_dslot bn : dslot bn ∈ path bn.
Proof. unfold path, dslot. repeat zcase; rewrite ?elem_of_cons; auto. Qed.

Lemma path_ok bn τ : 0 ≤ bn < MAXFILE → τ ∈ path bn → slot_ok τ.
Proof.
  intros Hbn Hin. destruct (dslot_ok bn Hbn) as [Hok _]. revert Hin Hok. unfold path, dslot.
  assert (0 < NINDIRECT) by done.
  repeat zcase; rewrite ?elem_of_cons; intros Hin Hok; destruct_or?; subst; cbn in *; try done; try lia;
    try (by apply elem_of_nil in Hin); try apply Hok.
Qed.

(** The slots on the way to two neighbouring blocks, when those on the way to
    the block before them are filled: [P] lists them, [N] those that may be
    empty. *)
Lemma path_cover (new : slot → Prop) b :
  0 ≤ b → (0 < b → ∀ τ, τ ∈ path (b - 1) → ¬ new τ) →
  ∃ P N : list slot, (length P + length N ≤ 9)%nat ∧
    ∀ bn τ, b ≤ bn ≤ b + 1 → τ ∈ path bn → τ ∈ P ∧ (new τ → τ ∈ N).
Proof.
  intros Hb Hprev. unfold path in *. change NDIRECT with 8 in *. change NINDIRECT with 256 in *.
  destruct (decide (b < 7)) as [H1|H1].
  { exists [SAddr b; SAddr (b + 1)], [SAddr b; SAddr (b + 1)]. split; [cbn; lia|].
    intros bn τ Hbn. rewrite (proj2 (Z.ltb_lt bn 8)) by lia. assert (bn = b ∨ bn = b + 1) as [->| ->] by lia; set_solver. }
  destruct (decide (b = 7)) as [->|H2].
  { exists [SAddr 7; SAddr 8; SInd 0], [SAddr 7; SAddr 8; SInd 0]. split; [cbn; lia|].
    intros bn τ Hbn. assert (bn = 7 ∨ bn = 8) as [->| ->] by lia; cbn; set_solver. }
  destruct (decide (b < 263)) as [H3|H3].
  { exists [SAddr 8; SInd (b - 8); SInd (b + 1 - 8)], [SAddr 8; SInd (b - 8); SInd (b + 1 - 8)]. split; [cbn; lia|].
    intros bn τ Hbn. rewrite (proj2 (Z.ltb_ge bn 8)), (proj2 (Z.ltb_lt (bn - 8) 256)) by lia.
    assert (bn = b ∨ bn = b + 1) as [->| ->] by lia; set_solver. }
  destruct (decide (b = 263)) as [->|H4].
  { exists [SAddr 8; SInd 255; SAddr 9; SDbl 0; SDbl2 0 0], [SInd 255; SAddr 9; SDbl 0; SDbl2 0 0].
    split; [cbn; lia|]. intros bn τ Hbn.
    assert (¬ new (SAddr 8)) as Hn by (apply Hprev; [lia|cbn; set_solver]).
    assert (bn = 263 ∨ bn = 264) as [->| ->] by lia; cbn; set_solver. }
  set (q := b - 8 - 256). assert (0 ≤ q) as Hq by lia.
  pose proof (Z.div_mod q 256 ltac:(done)) as Eq. pose proof (Z.mod_pos_bound q 256 ltac:(done)) as Hm.
  exists [SAddr 9; SDbl (q / 256); SDbl ((q + 1) / 256); dslot b; dslot (b + 1)].
  destruct (decide (q mod 256 = 255)) as [Hl|Hl].
  - exists [SDbl ((q + 1) / 256); dslot b; dslot (b + 1)]. split; [cbn; lia|]. intros bn τ Hbn.
    rewrite (proj2 (Z.ltb_ge bn 8)), (proj2 (Z.ltb_ge (bn - 8) 256)) by lia.
    assert ((q - 1) / 256 = q / 256) as E1 by (symmetry; apply (Z.div_unique_pos _ _ _ 254); lia).
    assert (¬ new (SAddr 9) ∧ ¬ new (SDbl (q / 256))) as [Hn1 Hn2].
    { assert (0 < b) as H0 by lia. specialize (Hprev H0).
      rewrite (proj2 (Z.ltb_ge (b - 1) 8)), (proj2 (Z.ltb_ge (b - 1 - 8) 256)) in Hprev by lia.
      replace (b - 1 - 8 - 256) with (q - 1) in Hprev by lia. rewrite E1 in Hprev. split; apply Hprev; set_solver. }
    assert (bn = b ∨ bn = b + 1) as [->| ->] by lia;
      [fold q|replace (b + 1 - 8 - 256) with (q + 1) by lia]; set_solver.
  - exists [SAddr 9; SDbl (q / 256); dslot b; dslot (b + 1)]. split; [cbn; lia|]. intros bn τ Hbn.
    rewrite (proj2 (Z.ltb_ge bn 8)), (proj2 (Z.ltb_ge (bn - 8) 256)) by lia.
    assert ((q + 1) / 256 = q / 256) as E1 by (symmetry; apply (Z.div_unique_pos _ _ _ (q mod 256 + 1)); lia).
    assert (bn = b ∨ bn = b + 1) as [->| ->] by lia;
      [fold q|replace (b + 1 - 8 - 256) with (q + 1) by lia; rewrite E1]; set_solver.
Qed.

(** The most a single transaction of [vfs_write] writes. *)
#[local] Abbreviation max_chunk := File.max_write.

Lemma wrote_in s s' a a' bn x :
  wrote s s' a a' bn x →
  ∃ τ, τ ∈ path bn ∧ (x = val s' a' τ ∨ val s a τ = 0 ∧ x = BBLOCK (val s' a' τ) (sb s)).
Proof.
  intros [->|(τ & Hin & Hτ & Hz & _ & [->|[->|(π & j & Hp & ->)]])].
  - exists (dslot bn). split; [apply path_dslot|by left].
  - exists τ. split; [done|by left].
  - exists τ. split; [done|by right].
  - exists π. split; [by eapply path_parent|by left].
Qed.

(** The blocks of the file are there, with the way to them. *)
Lemma block_filled s ip c i bn :
  file s ip c i → 0 ≤ bn → bn * BSIZE < length c → ∀ τ, τ ∈ path bn → val s (addrs (di i)) τ ≠ 0.
Proof.
  intros [Hf _ _ _ _ Hmax Hrep] Hb Hlt. change (Z.of_nat BSIZE) with 2048 in *. set (o := Z.to_nat (bn * 2048)).
  assert (Z.of_nat o = bn * 2048) as Eo by lia. destruct (lookup_lt_is_Some_2 c o) as [x Hx]; [lia|].
  apply Hrep, byte_at_Some in Hx as [Hv _]. change (Z.of_nat BSIZE) with 2048 in Hv. rewrite Eo, Z.div_mul in Hv by done.
  intros τ Hin Hz. apply Hv. clear -Hin Hz Hb. revert Hin Hz. unfold path, dslot.
  repeat zcase; rewrite ?elem_of_cons; intros Hin Hz; destruct_or?; subst; try done; try (by apply elem_of_nil in Hin);
    cbn in *; unfold NDIRECT in *; try lia; unfold ptr in *; cbn in *; by rewrite ?Hz.
Qed.

(** Ten blocks at most: nine for the data and the way to it, one for the inode. *)
Lemma chunk_blocks s ip c i off n s1 a1 :
  file s ip c i → 0 ≤ off ≤ length c → 0 ≤ n ≤ max_chunk →
  grown s s1 (addrs (di i)) a1 (off / BSIZE) ((off + n - 1) / BSIZE) →
  ∃ L : list Z, (length L ≤ 9)%nat ∧ ∀ w, w ∈ writes s1 → w ∈ writes s ∨ w.1 ∈ L.
Proof.
  intros Hf Hoff Hn Hgr. change File.max_write with 1536 in Hn.
  destruct (path_cover (λ τ, val s (addrs (di i)) τ = 0) (off / BSIZE)) as (P & N & Hlen & Hcov).
  { apply Z.div_pos; [lia|done]. }
  { intros Hb τ Hin. eapply (block_filled s ip c i (off / BSIZE - 1)); [done|lia| |done].
    pose proof (Z.div_mod off BSIZE ltac:(done)). pose proof (Z.mod_pos_bound off BSIZE ltac:(done)). unfold BSIZE in *. lia. }
  exists ((val s1 a1 <$> P) ++ ((λ τ, BBLOCK (val s1 a1 τ) (sb s)) <$> N)).
  rewrite length_app, !length_fmap. split; [done|].
  intros w [Hw|(_ & bn & Hbn & _ & Hwr)]%(gr_log _ _ _ _ _ _ Hgr); [by left|right].
  apply wrote_in in Hwr as (τ & Hin & Hx).
  assert ((off + n - 1) / BSIZE ≤ off / BSIZE + 1) as Hhi.
  { apply Z.lt_succ_r. apply Z.div_lt_upper_bound; [done|]. pose proof (Z.div_mod off BSIZE ltac:(done)).
    pose proof (Z.mod_pos_bound off BSIZE ltac:(done)). unfold BSIZE in *. lia. }
  destruct (Hcov bn τ ltac:(lia) Hin) as [HP HN]. rewrite elem_of_app, !list_elem_of_fmap.
  destruct Hx as [->|[Hz ->]]; [left|right]; exists τ; auto.
Qed.

Lemma add_block_keys ws (L : list Z) :
  (∀ w, w ∈ ws → w.1 ∈ L) →
  NoDup (fold_left Log.add_block ws []) ∧ ∀ k, k ∈ fold_left Log.add_block ws [] → k ∈ L.
Proof.
  intros Hws. assert (∀ ns, NoDup ns → (∀ k, k ∈ ns → k ∈ L) →
    NoDup (fold_left Log.add_block ws ns) ∧ ∀ k, k ∈ fold_left Log.add_block ws ns → k ∈ L) as H.
  { induction ws as [|w ws IH]; intros ns Hnd Hsub; [done|]. cbn. apply IH.
    - intros w' Hw'. apply Hws. by right.
    - unfold Log.add_block. case_decide; [done|]. apply NoDup_app. split_and!; [done| |apply NoDup_singleton].
      intros k Hk ->%list_elem_of_singleton. done.
    - unfold Log.add_block. intros k. case_decide; [apply Hsub|]. rewrite elem_of_app, list_elem_of_singleton.
      intros [Hk| ->]; [by apply Hsub|]. apply Hws. by left. }
  apply H; [apply NoDup_nil_2|]. by intros k ?%elem_of_nil.
Qed.

Lemma distinct_blocks ws (L : list Z) :
  (∀ w, w ∈ ws → w.1 ∈ L) → (length (fold_left Log.add_block ws []) ≤ length L)%nat.
Proof. intros [Hnd Hsub]%add_block_keys. by apply submseteq_length, NoDup_submseteq. Qed.

(** ** Which blocks a write logs *)

(** Blocks that belong neither to the file nor to the free ones nor to the
    bitmap nor to the inodes: the superblock and the log. *)
Definition reserved (R : Z → Prop) (s : fs) (i : inode) : Prop :=
  ∀ k, R k → data_block s k ∧ ∀ τ, slot_ok τ → val s (addrs (di i)) τ ≠ k.

(** A filled slot names a block of the file or a fresh one. *)
Lemma grown_val s ip i s1 a1 lo hi τ :
  file_ok s ip i → grown s s1 (addrs (di i)) a1 lo hi → slot_ok τ → val s1 a1 τ ≠ 0 →
  in_fs s (val s1 a1 τ) ∧ (val s1 a1 τ = val s (addrs (di i)) τ ∨ ¬ used s (val s1 a1 τ)).
Proof.
  intros Hf Hgr Hτ Hv. destruct (decide (val s (addrs (di i)) τ = 0)) as [Hz|Hz].
  - destruct (gr_fresh _ _ _ _ _ _ Hgr τ Hτ Hz Hv). auto.
  - rewrite (gr_fill _ _ _ _ _ _ Hgr τ Hτ Hz). split; [|by left]. by apply (tree_data _ _ (file_tree _ _ _ Hf)).
Qed.

Lemma grown_key s ip i s1 a1 lo hi w :
  file_ok s ip i → grown s s1 (addrs (di i)) a1 lo hi → 0 ≤ lo → hi < MAXFILE → writes s = [] → w ∈ writes s1 →
  in_fs s w.1 ∧ block_ok w.2 ∧ ∀ R, reserved R s i → ¬ R w.1.
Proof.
  intros Hf Hgr Hlo Hhi Hw0 Hw.
  apply (gr_log _ _ _ _ _ _ Hgr) in Hw as [Hw|(Hok & bn & Hbn & Hv & Hwr)]; [by rewrite Hw0, elem_of_nil in Hw|].
  assert (∀ τ, slot_ok τ → val s1 a1 τ ≠ 0 → in_fs s (val s1 a1 τ) ∧ ∀ R, reserved R s i → ¬ R (val s1 a1 τ)) as Hval.
  { intros τ Hτ Hn. destruct (grown_val s ip i s1 a1 lo hi τ Hf Hgr Hτ Hn) as [Hin Hor]. split; [done|].
    intros R HR Hk. destruct (HR _ Hk) as ((_ & Hu & _) & Hne). destruct Hor as [E|Hnu]; [|done]. by apply (Hne τ). }
  destruct (dslot_ok bn ltac:(lia)) as [Hσ _].
  destruct Hwr as [->|(τ & Hin & Hτ & Hz & Hn & [->|[->|(π & j & Hp & ->)]])].
  - destruct (Hval _ Hσ Hv). auto.
  - destruct (Hval _ Hτ Hn). auto.
  - destruct (Hval _ Hτ Hn) as [Hi _]. assert (is_bitmap s (BBLOCK (val s1 a1 τ) (sb s))) as Hb by by exists (val s1 a1 τ).
    split_and!; [by apply (ok_bitmap s (file_disk _ _ _ Hf))|done|]. intros R HR Hk. by destruct (HR _ Hk) as ((_ & _ & ? & _) & _).
  - destruct (parent_ok _ _ _ Hp Hτ) as (Hπ & _). destruct (Hval π Hπ) as [? ?]; [|auto].
    intros E. apply Hn. by eapply val_0_child.
Qed.

Lemma written_key s ip c i s' i' c' off n w :
  file s ip c i → file s' ip c' i' → written s s' ip i i' c off n → 0 ≤ off → off + n ≤ MAXFILE * BSIZE →
  writes s = [] → w ∈ writes s' → in_fs s w.1 ∧ block_ok w.2 ∧ ∀ R, reserved R s i → ¬ R w.1.
Proof.
  intros Hf Hf' (s1 & a1 & Hgr & _ & Hor) Hoff Hend Hw0 Hw.
  assert (0 < BSIZE) by done. assert (0 ≤ off / BSIZE) by (apply Z.div_pos; lia).
  assert ((off + n - 1) / BSIZE < MAXFILE) by (apply Z.div_lt_upper_bound; [done|rewrite Z.mul_comm; lia]).
  destruct Hor as [(-> & _)|(Ei & d & _ & Hd & ->)]; [by eapply grown_key; [apply Hf|..]|].
  cbn [logged set_writes writes set_itable] in Hw. rewrite elem_of_app, list_elem_of_singleton in Hw.
  destruct Hw as [Hw| ->]; [by eapply grown_key; [apply Hf|..]|]. cbn [fst snd].
  change (inum (with_addrs a1 i)) with (inum i). rewrite (gr_sb _ _ _ _ _ _ Hgr).
  assert (is_inode s (IBLOCK (inum i) (sb s))) as Hi by (exists (inum i); split; [apply Hf|done]).
  destruct (file_inodes _ _ _ (f_ok _ _ _ _ Hf) _ Hi) as (Hin & _ & _). split_and!; [done| |].
  - apply put_dinode_ok; [done|apply ioff_range|]. pose proof (tree_len _ _ (file_tree _ _ _ (f_ok _ _ _ _ Hf'))) as Hl.
    by rewrite Ei in Hl.
  - intros R HR Hk. by destruct (HR _ Hk) as ((_ & _ & _ & ?) & _).
Qed.

(** ** The inode on the disk *)

(** The inode on disk describes the file as the one in memory does. *)
Definition synced (s : fs) (i : inode) : Prop :=
  ∃ x, disk_inode s (inum i) = Some x ∧ size x = size (di i) ∧ mode x = mode (di i) ∧ addrs x = addrs (di i).

Lemma tree_range s a k x : disk_ok s → tree_ok s a → a !! k = Some x → 0 ≤ x < 2 ^ 64.
Proof.
  intros Hd Ht Hx. destruct (decide (x = 0)) as [->|Hn]; [lia|].
  pose proof (lookup_lt_Some _ _ _ Hx) as Hk. rewrite (tree_len _ _ Ht) in Hk. unfold NADDRS in Hk.
  assert (val s a (SAddr k) = x) as E by (cbn; by rewrite Nat2Z.id, Hx).
  destruct (tree_data _ _ Ht (SAddr k)) as (Hin & _); [cbn; unfold NDIRECT; lia|congruence|].
  rewrite E in Hin. pose proof (ok_size s Hd). unfold in_fs in Hin. lia.
Qed.

(** The widths of the fields other than the block numbers, which [tree_ok] bounds. *)
Abbreviation widths x := (dinode_ok (set_addrs (replicate NADDRS 0) x)).

Lemma dinode_ok_file s ip c i : file s ip c i → widths (di i) → dinode_ok (di i).
Proof.
  intros Hf [H1 H2 H3 H4 H5 H6 _]. split; try done.
  pose proof (file_tree _ _ _ (f_ok _ _ _ _ Hf)) as Ht. split; [apply Ht|].
  apply Forall_lookup. intros k x. apply (tree_range s); [apply Hf|done].
Qed.

(** Without growth nothing is allocated. *)
Lemma full_paths s ip c i off n bn τ :
  file s ip c i → 0 ≤ off → off + n ≤ length c → off / BSIZE ≤ bn ≤ (off + n - 1) / BSIZE → τ ∈ path bn →
  val s (addrs (di i)) τ ≠ 0.
Proof.
  intros Hf Hoff Hn Hbn. assert (0 ≤ off / BSIZE) by (apply Z.div_pos; [lia|done]).
  apply (block_filled s ip c i bn); [done|lia|].
  pose proof (Z.div_mod (off + n - 1) BSIZE ltac:(done)). pose proof (Z.mod_pos_bound (off + n - 1) BSIZE ltac:(done)).
  unfold BSIZE in *. lia.
Qed.

Lemma same_addrs s ip c i s1 a1 off n :
  file s ip c i → 0 ≤ off → off + n ≤ length c → length a1 = NADDRS →
  grown s s1 (addrs (di i)) a1 (off / BSIZE) ((off + n - 1) / BSIZE) → a1 = addrs (di i).
Proof.
  intros Hf Hoff Hn Hl Hgr. pose proof (tree_len _ _ (file_tree _ _ _ (f_ok _ _ _ _ Hf))) as Hl0.
  apply (list_eq_same_length _ _ NADDRS); [done|done|]. intros k x y Hk Hx Hy.
  assert (slot_ok (SAddr k)) as Hσ by (cbn; unfold NADDRS, NDIRECT in *; lia).
  assert (val s1 a1 (SAddr k) = val s (addrs (di i)) (SAddr k)) as E.
  { destruct (decide (val s (addrs (di i)) (SAddr k) = 0)) as [Hz|Hz]; [|by apply (gr_fill _ _ _ _ _ _ Hgr)].
    apply (gr_keep _ _ _ _ _ _ Hgr); [done|]. intros bn Hbn Hin. by eapply full_paths. }
  cbn in E. rewrite Nat2Z.id, Hx, Hy in E. done.
Qed.

(** A write keeps the inode on disk in step. *)
Lemma written_synced s ip c i s' i' c' off n dk :
  file s ip c i → file s' ip c' i' → written s s' ip i i' c off n → 0 ≤ off → off + n ≤ MAXFILE * BSIZE →
  store s = mkabs dk ∅ ∅ → writes s = [] → txn s s' →
  widths (di i) → 0 ≤ now s < 2 ^ 64 → synced s i → synced s' i'.
Proof.
  intros Hf Hf' Hwr Hoff Hend Hst Hw0 Htx Hdi Ht (x & Hx & X1 & X2 & X3).
  pose proof (written_key s ip c i s' i' c' off n) as Hkey.
  destruct Hwr as (s1 & a1 & Hgr & Hnow & Hor). pose proof (tree_len _ _ (file_tree _ _ _ (f_ok _ _ _ _ Hf'))) as Hl.
  destruct Hor as [(-> & -> & Hlen)|(-> & d & Hd & [Hdl _] & ->)].
  - exists x. rewrite <- Hx. pose proof (same_addrs s ip c i s1 a1 off n Hf Hoff Hlen Hl Hgr) as ->.
    rewrite with_addrs_same. split_and!; try done. unfold disk_inode.
    rewrite (gr_sb _ _ _ _ _ _ Hgr). f_equal. rewrite (txn_view s s1 dk) by done.
    rewrite Log.apply_writes_out; [unfold V; by rewrite Hst, Log.view_clean|].
    intros (w & Ew & Hw)%list_elem_of_fmap.
    destruct (gr_log _ _ _ _ _ _ Hgr w Hw) as [Hin|(_ & bn & Hbn & _ & (τ & Hin & Hor)%wrote_in)]; [by rewrite Hw0, elem_of_nil in Hin|].
    pose proof (full_paths s ip c i off n bn τ Hf Hoff Hlen Hbn Hin) as Hn. destruct Hor as [E|[Hz _]]; [|done].
    assert (0 < BSIZE) by done. assert (0 ≤ off / BSIZE) by (apply Z.div_pos; lia).
    assert ((off + n - 1) / BSIZE < MAXFILE) by (apply Z.div_lt_upper_bound; [done|rewrite Z.mul_comm; lia]).
    assert (slot_ok τ) as Hτ by (apply (path_ok bn); [lia|done]).
    rewrite (gr_fill _ _ _ _ _ _ Hgr) in E by done.
    destruct (tree_data _ _ (file_tree _ _ _ (f_ok _ _ _ _ Hf)) τ Hτ Hn) as (_ & _ & _ & Hni). apply Hni.
    exists (inum i). split; [apply Hf|congruence].
  - set (i' := set_di _ i) in *. exists (reloaded (now s1) (di i') (get_dinode d (ioff (inum i)))).
    split; [|done]. unfold disk_inode. cbn [logged set_writes sb set_store set_itable].
    change (inum (with_addrs a1 i)) with (inum i). change (inum i') with (inum i).
    rewrite V_logged, decide_True by done. cbn [fmap option_fmap option_map]. f_equal.
    apply (get_put_dinode d (ioff (inum i)) (now s1) (di i')); [done|apply ioff_range| |rewrite Hnow; done].
    apply (dinode_ok_file _ _ _ i' Hf'). destruct Hdi as [H1 H2 H3 H4 H5 H6 H7]. split; try done.
    cbn. pose proof MAXFILE_val. pose proof (f_size _ _ _ _ Hf') as Hs. cbn in Hs. lia.
Qed.

(** ** Opening the file again *)

Section reopened.
Context (s : fs) (ip : nat) (c : list Z) (i : inode) (R : Z → Prop) (s2 : fs).
Hypothesis Hf : file s ip c i.
Hypothesis HR : reserved R s i.
Hypothesis Hsb : sb s2 = sb s.
Hypothesis HV : ∀ k, ¬ R k → V s2 k = V s k.
Hypothesis Hblocks : ∀ b, in_fs s b → ∃ d, V s2 b = Some d ∧ block_ok d.
Hypothesis Hh : no_buffers s2.
#[local] Abbreviation a := (addrs (di i)).

Lemma re_bit b : in_fs s b → bit_at s2 b = bit_at s b.
Proof.
  intros Hb. unfold bit_at. rewrite Hsb, HV; [done|]. intros Hk. destruct (HR _ Hk) as ((_ & _ & Hn & _) & _). apply Hn. by exists b.
Qed.

Lemma re_data b : data_block s b → data_block s2 b.
Proof.
  intros (H1 & H2 & H3 & H4). unfold data_block, used. rewrite (ext_in_fs s s2), (ext_is_bitmap s s2), (ext_is_inode s s2) by done.
  by rewrite re_bit.
Qed.

Lemma re_disk : disk_ok s2 ∧ inodes_ok s2.
Proof.
  destruct (f_ok _ _ _ _ Hf) as [_ [D1 D2 D3 D4] Hin _ _]. split; [split|].
  - by rewrite Hsb.
  - intros b Hb. apply Hblocks. by apply (ext_in_fs s s2).
  - intros b Hb. rewrite (ext_is_bitmap s s2) in Hb by done. destruct (D3 b Hb) as [? ?].
    rewrite (ext_in_fs s s2) by done. unfold used. by rewrite re_bit.
  - rewrite (ext_in_fs s s2) by done. destruct D4 as [? ?]. unfold used. by rewrite re_bit.
  - intros b Hb. rewrite (ext_is_inode s s2) in Hb by done. destruct (Hin b Hb) as (? & ? & ?).
    rewrite (ext_in_fs s s2), (ext_is_bitmap s s2) by done. unfold used. by rewrite re_bit.
Qed.

Lemma re_block τ : slot_ok τ → V s2 (val s a τ) = V s (val s a τ).
Proof. intros Hτ. apply HV. intros Hk. destruct (HR _ Hk) as (_ & Hn). by apply (Hn τ). Qed.

Lemma re_val τ : slot_ok τ → val s2 a τ = val s a τ.
Proof.
  induction τ as [k|τ π j Hp IH] using slot_ind'; intros Hτ; [done|]. destruct (parent_ok _ _ _ Hp Hτ) as (Hπ & _).
  rewrite (val_parent _ _ _ _ _ Hp), IH, (val_parent _ _ _ _ _ Hp) by done. unfold ptr. by rewrite re_block.
Qed.

Lemma re_tree : tree_ok s2 a.
Proof.
  destruct (file_tree _ _ _ (f_ok _ _ _ _ Hf)) as [T1 T2 T3]. split; [done|..].
  - intros σ τ Hσ Hτ. rewrite !re_val by done. by apply T2.
  - intros σ Hσ. rewrite re_val by done. intros Hn. by apply re_data, T3.
Qed.

Lemma re_rep : rep s2 a c.
Proof.
  intros o x Hx. pose proof (lookup_lt_Some _ _ _ Hx) as Hlt. pose proof (f_max _ _ _ _ Hf) as Hmax. assert (0 < BSIZE) by done.
  destruct (dslot_ok (o / BSIZE)) as [Hσ _]; [split; [apply Z.div_pos; lia|apply Z.div_lt_upper_bound; lia]|].
  apply (f_rep _ _ _ _ Hf), byte_at_Some in Hx as (Hv & d & Hd & Hx). apply byte_at_Some. rewrite re_val by done.
  split; [done|]. exists d. by rewrite re_block.
Qed.

Lemma reopen jp j :
  synced s i → mode (di i) ≠ 0 → itable s2 !! jp = Some j → inum j = inum i → 1 ≤ ref j →
  locked j = false → valid j = false →
  ∃ s3 i3, inode_lock jp s2 = Ok (tt, s3) ∧ file s3 jp c i3.
Proof.
  intros (x & Hx & X1 & X2 & X3) Hmode Hj Hnum Href Hlk Hval. destruct re_disk as [Hd2 Hi2].
  assert (disk_inode s2 (inum j) = Some x) as Hx2.
  { rewrite <- Hx. unfold disk_inode. rewrite Hnum, Hsb, HV; [done|]. intros Hk.
    destruct (HR _ Hk) as ((_ & _ & _ & Hn) & _). apply Hn. exists (inum i). split; [apply Hf|done]. }
  eexists _, (mkinode (dev j) (inum j) (ref j) true true x).
  split; [eapply inode_lock_run; try done; congruence|].
  destruct Hf as [_ _ Hreg Hin Hsz Hmax _]. split; cbn; try done; try congruence; [|rewrite X3; apply re_rep].
  split; cbn [itable set_itable di].
  - apply list_lookup_insert_eq. by eapply lookup_lt_Some.
  - by apply (same_disk_ok s2).
  - by apply (same_inodes_ok s2).
  - rewrite X3. apply (same_tree_ok s2); [done|apply re_tree].
  - done.
Qed.
End reopened.

(** ** Properties *)

Lemma inode_write_plain dev_write s ip c i src off :
  file s ip c i → inode_write dev_write ip src off s = inode_write (λ _, None) ip src off s.
Proof.
  intros Hf. unfold inode_write. rewrite !(locked_bind ip i) by (apply Hf || apply (f_ok _ _ _ _ Hf)).
  by rewrite (f_regular _ _ _ _ Hf).
Qed.

Lemma written_count s ip c i s' i' off n :
  file s ip c i → written s s' ip i i' c off n → 0 ≤ off ≤ length c → 0 ≤ n ≤ max_chunk → writes s = [] →
  (length (fold_left Log.add_block (writes s') []) ≤ 10)%nat.
Proof.
  intros Hf (s1 & a1 & Hgr & _ & Hor) Hoff Hn Hw0.
  destruct (chunk_blocks s ip c i off n s1 a1 Hf Hoff Hn Hgr) as (L & HL & Hin). rewrite Hw0 in Hin.
  etrans; [apply (distinct_blocks _ (IBLOCK (inum i) (sb s1) :: L))|cbn; lia].
  destruct Hor as [(-> & _)|(_ & d & _ & _ & ->)]; intros w Hw.
  - destruct (Hin w Hw) as [?%elem_of_nil|?]; [done|by right].
  - cbn [logged set_writes writes set_itable] in Hw. rewrite elem_of_app, list_elem_of_singleton in Hw.
    destruct Hw as [Hw| ->]; [|by left]. destruct (Hin w Hw) as [?%elem_of_nil|?]; [done|by right].
Qed.

(** The inode after a write, in memory. *)
Lemma written_inode s ip c i s' i' c' off n :
  file s' ip c' i' → written s s' ip i i' c off n → widths (di i) →
  now s' = now s ∧ widths (di i') ∧ ∃ d, i' = set_di d i.
Proof.
  intros Hf' (s1 & a1 & _ & Hnow & [(-> & -> & _)|(Ei & d & _ & _ & ->)]) [H1 H2 H3 H4 H5 H6 H7].
  - split_and!; [done|by split|]. by eexists.
  - split_and!; [done| |rewrite Ei; by eexists]. pose proof (f_size _ _ _ _ Hf') as Hs. pose proof (f_max _ _ _ _ Hf') as Hm.
    rewrite MAXFILE_val in Hm. rewrite Ei in Hs |- *. cbn in Hs. split; try done. cbn. lia.
Qed.

(** A piece of a write, as a transaction. *)
Record write_step (s s' : fs) (ip : nat) (c : list Z) (i i' : inode) : Prop := {
  ws_file : file s' ip c i';
  ws_synced : synced s' i';
  ws_inode : ∃ d, i' = set_di d i;
  ws_mode : mode (di i') = mode (di i);
  ws_widths : widths (di i');
  ws_sb : sb s' = sb s;
  ws_now : now s' = now s;
  ws_table : itable s' = <[ip := i']> (itable s);
  ws_txn : txn s s';
  ws_count : (length (fold_left Log.add_block (writes s') []) ≤ 10)%nat;
  ws_keys w : w ∈ writes s' → in_fs s w.1 ∧ block_ok w.2 ∧ ∀ R, reserved R s i → ¬ R w.1;
  ws_reserved R : reserved R s i → reserved R s' i';
  ws_free : (length (free_blocks s) ≤ length (free_blocks s') + 6)%nat;
}.

Lemma write_txn dev_write s dk ip c i (off : nat) src :
  file s ip c i → store s = mkabs dk ∅ ∅ → writes s = [] → synced s i → widths (di i) → 0 ≤ now s < 2 ^ 64 →
  (off ≤ length c)%nat → length src ≤ max_chunk → off + length src ≤ MAXFILE * BSIZE → Forall byte_ok src →
  (6 ≤ length (free_blocks s))%nat →
  ∃ s' i', inode_write dev_write ip src off s = Ok (Z.of_nat (length src), s') ∧ write_step s s' ip (put_bytes c off src) i i'.
Proof.
  intros Hf Hst Hw0 Hsy Hwd Ht Hoff Hlen Hend Hsrc Hfree.
  assert (length src / BSIZE = 0)%nat as Hd by (change File.max_write with 1536 in Hlen; apply Nat.div_small; unfold BSIZE; lia).
  destruct (inode_write_run dev_write s ip c i off src Hf Hoff Hend Hsrc)
    as (s' & i' & E & Hf' & Hit & _ & Hm & Hsb & Hiso & Hwr & Hfr); [lia|].
  assert (txn s s') as Htx.
  { rewrite (inode_write_plain dev_write s ip c i) in E by done.
    pose proof (resp_inode_write txn (λ _, None) (ltac:(done)) ip src off s) as H. unfold wlp in H. by rewrite E in H. }
  destruct (written_inode s ip c i s' i' _ off (length src) Hf' Hwr Hwd) as (Hnow & Hwd' & Hdi).
  exists s', i'. split; [done|]. split; try done.
  - apply (written_synced s ip c i s' i' _ off (length src) dk Hf Hf' Hwr); done || lia.
  - apply (written_count s ip c i s' i' off (length src) Hf Hwr); done || lia.
  - intros w Hw. apply (written_key s ip c i s' i' _ off (length src) w Hf Hf' Hwr); done || lia.
  - intros R HR k Hk. destruct (HR k Hk) as [Hdb Hn]. by destruct (Hiso k Hdb Hn) as (_ & ? & ?).
  - lia.
Qed.

Section crash.
Context {D : Type} `{Block.BlockLaws D}.

(** The disk after a crash and a recovery: what the log promises, for a file
    system whose blocks the recovered disk shows outside of the log area. *)
Lemma crash_reopen (l : @Log.log D) s ip c i dk1 s2 jp j :
  file s ip c i → synced s i → mode (di i) ≠ 0 →
  reserved (λ k, k = 1 ∨ Log.in_log l k) s i → (∀ k, in_fs s k → is_Some (dk1 !! k)) →
  abs_ok (mkabs dk1 ∅ ∅) → (∀ k d, dk1 !! k = Some d → Forall byte_ok d) →
  (∀ k, ¬ Log.in_log l k → dk1 !! k = V s k) →
  store s2 = mkabs dk1 ∅ ∅ → sb s2 = sb s → itable s2 !! jp = Some j → inum j = inum i →
  1 ≤ ref j → locked j = false → valid j = false →
  ∃ s3 i3, inode_lock jp s2 = Ok (tt, s3) ∧ file s3 jp c i3.
Proof.
  intros Hf Hsy Hm HR Hsome [Hok _ _] Hby HV Hst Hsb Hj Hnum Href Hlk Hval.
  assert (∀ k, V s2 k = dk1 !! k) as HV2 by (intros k; unfold V; by rewrite Hst, Log.view_clean).
  eapply (reopen s ip c i (Log.in_log l) s2); try done.
  - intros k Hk. apply HR. by right.
  - intros k Hk. rewrite HV2. by apply HV.
  - intros b Hb. destruct (Hsome b Hb) as [d Hd]. exists d. rewrite HV2. split; [done|].
    split; [by apply (Hok b)|by apply (Hby b)].
  - intros x. unfold held. rewrite Hst. apply lookup_empty.
Qed.

(** The recovered disk holds bytes. *)
Lemma recovered_bytes dk p st ws' hd :
  Log.bytes_in dk → Log.bytes_all p → Log.recoverable st (Log.apply_writes p dk) ws' →
  (Log.bytes_in (Log.apply_writes p dk) → Forall byte_ok hd) →
  Log.bytes_in (Log.apply_writes (ws' ++ [(st, hd)]) (Log.apply_writes p dk)).
Proof.
  intros Hd Hp Hrc Hhd. pose proof (Log.apply_writes_bytes p dk Hd Hp) as Hb. apply Log.apply_writes_bytes; [done|].
  intros w [Hw|Hw]%elem_of_app; [by apply (Log.recoverable_bytes _ _ _ Hrc Hb)|]. apply list_elem_of_singleton in Hw as ->. by apply Hhd.
Qed.

(** C1. A write of at most [max_write] bytes to a regular file, as [vfs_write]
    issues it, is one crash-safe transaction.  [inode_write] succeeds and gives
    the file its new contents; it logs at most [MAXOPBLOCKS] distinct blocks,
    and the log commits them.  If the machine stops after any prefix [p] of the
    disk writes, then recovery by [initlog] returns, and outside of the log
    area the disk is either the one before the write or the one after it; in
    particular every block the write did not log is as it was.  The file,
    opened again from that disk, has exactly its old contents in the first case
    and exactly its new contents in the second. *)
Theorem write_crash_atomic (l : @Log.log D) dev_write s dk ip c i (off : nat) src sbk :
  file s ip c i → store s = mkabs dk ∅ ∅ → writes s = [] → synced s i → widths (di i) → mode (di i) ≠ 0 →
  0 ≤ now s < 2 ^ 64 → (off ≤ length c)%nat → length src ≤ max_chunk → off + length src ≤ MAXFILE * BSIZE →
  Forall byte_ok src → (6 ≤ length (free_blocks s))%nat → (∀ k d, dk !! k = Some d → Forall byte_ok d) →
  Log.idle l dk → 11 < Log.size l < 2 ^ 64 → dk !! 1 = Some sbk → Log.sb_logstart sbk = Log.start l →
  ¬ Log.in_log l 1 → reserved (λ k, k = 1 ∨ Log.in_log l k) s i →
  ∃ s' i' l' dk' tr,
    inode_write dev_write ip src off s = Ok (Z.of_nat (length src), s') ∧
    file s' ip (put_bytes c off src) i' ∧ synced s' i' ∧
    length (fold_left Log.add_block (writes s') []) ≤ Log.MAXOPBLOCKS ∧
    Log.fs_op (writes s') l = Ok (tt, l') ∧ Log.idle l' dk' ∧ (∀ k, ¬ Log.in_log l k → dk' !! k = V s' k) ∧
    trace (Log.dev l') = trace (Log.dev l) ++ tr ∧
    ∀ p l0, p `prefix_of` tr → length (Log.lh_block l0) = Log.LOGSIZE →
      Block.rep (Log.dev l0) (mkabs (Log.apply_writes p dk) ∅ ∅) →
      ∃ l1 dk1 c', Log.initlog ROOTDEV l0 = Ok (tt, l1) ∧ Block.rep (Log.dev l1) (mkabs dk1 ∅ ∅) ∧
        ((c' = c ∧ ∀ k, ¬ Log.in_log l k → dk1 !! k = dk !! k) ∨
         (c' = put_bytes c off src ∧ ∀ k, ¬ Log.in_log l k → dk1 !! k = dk' !! k)) ∧
        (∀ k, ¬ Log.in_log l k → k ∉ (writes s').*1 → dk1 !! k = dk !! k) ∧
        ∀ s2 jp j, store s2 = mkabs dk1 ∅ ∅ → sb s2 = sb s → itable s2 !! jp = Some j → inum j = inum i →
          1 ≤ ref j → locked j = false → valid j = false →
          ∃ s3 i3, inode_lock jp s2 = Ok (tt, s3) ∧ file s3 jp c' i3.
Proof.
  intros Hf Hst Hw0 Hsy Hwd Hm Ht Hoff Hlen Hend Hsrc Hfree Hbd Hid Hls Hsb Hsl Hn1 HR.
  destruct (write_txn dev_write s dk ip c i off src) as (s' & i' & E & Hws); try done.
  destruct Hws as [Hf' Hsy' [d' Ei] Hmo _ Esb _ _ Htx Hct Hkey Hres _].
  assert (inum i' = inum i) as Hin by by rewrite Ei.
  assert (∀ k, V s k = dk !! k) as HV by (intros k; unfold V; by rewrite Hst, Log.view_clean).
  pose proof (txn_view s s' dk Hst Hw0 Htx) as HV'.
  assert (∀ k, in_fs s k → is_Some (dk !! k)) as Hsome.
  { intros k Hk. destruct (ok_blocks s (file_disk _ _ _ (f_ok _ _ _ _ Hf)) k Hk) as (d & Hd & _). rewrite HV in Hd. eauto. }
  assert (∀ k d, (k, d) ∈ writes s' → ¬ Log.in_log l k ∧ is_Some (dk !! k) ∧ length d = BSIZE) as Hws.
  { intros k d Hw. destruct (Hkey _ Hw) as (Hi & [Hl _] & Ha). split_and!; [|by apply Hsome|done].
    intros Hk. apply (Ha _ HR). by right. }
  assert (Log.bytes_all (writes s')) as Hbw by (intros w Hw; by destruct (Hkey _ Hw) as (_ & [_ ?] & _)).
  destruct (proj1 (wp_run _ _ _) (Log.fs_op_ok l dk (writes s') Hid Hws Hct Hls))
    as ([] & l' & El & dk' & tr & Hid' & _ & _ & Hk & T & Hcr & Hbt).
  exists s', i', l', dk', tr. split_and!; try done; [unfold Log.MAXOPBLOCKS; lia|intros k Hnk; by rewrite HV', Hk|].
  intros p l0 Hp Hlen0 Hr0. destruct (Hcr p Hp) as (ws' & Hrc & Hsame & Hor). rewrite <- Hsl in Hrc.
  assert (Log.apply_writes p dk !! 1 = Some sbk) as Hsb1.
  { rewrite Hsame; [done|done|]. intros (w & Ew & Hw)%(proj2 (add_block_keys _ (writes s').*1 ltac:(intros w; apply list_elem_of_fmap_2)))%list_elem_of_fmap.
    destruct (Hkey w Hw) as (_ & _ & Ha). apply (Ha _ HR). by left. }
  destruct (proj1 (wp_run _ _ _) (Log.initlog_ok _ _ _ _ Hr0 Hlen0 Hsb1 Hrc)) as ([] & l1 & E1 & hd & _ & _ & R1 & _ & Hbh).
  pose proof (recovered_bytes dk p _ ws' hd Hbd (Log.bytes_all_prefix p tr Hp (Hbt Hbd Hbw)) Hrc Hbh) as Hby. rewrite Hsl in *.
  set (dk1 := Log.apply_writes (ws' ++ [(Log.start l, hd)]) (Log.apply_writes p dk)) in *.
  assert (∀ k, in_fs s k → is_Some (dk1 !! k)) as Hsome1 by (intros; by apply Log.apply_writes_some, Log.apply_writes_some, Hsome).
  pose proof (rep_ok _ _ R1) as Habs. exists l1, dk1. destruct Hor as [Hor|Hor]; eexists; (split; [done|]; split; [exact R1|]).
  - assert (∀ k, ¬ Log.in_log l k → dk1 !! k = V s k) as Hd by (intros k Hnk; rewrite HV; by apply Hor).
    split; [left; split; [done|intros k Hnk; by apply Hor]|]. split; [intros k Hnk _; by apply Hor|].
    intros s2 jp j H1 H2 H3 H4 H5 H6 H7. by apply (crash_reopen l s ip c i dk1 s2 jp j).
  - assert (∀ k, ¬ Log.in_log l k → dk1 !! k = V s' k) as Hd by (intros k Hnk; rewrite HV'; by apply Hor).
    assert (∀ k, in_fs s' k → is_Some (dk1 !! k)) as Hsome2 by (intros k; rewrite (ext_in_fs s s') by done; apply Hsome1).
    split; [right; split; [done|intros k Hnk; rewrite Hk by done; by apply Hor]|].
    split; [intros k Hnk Hnw; unfold dk1; rewrite Hor by done; by apply Log.apply_writes_out|].
    intros s2 jp j H1 H2 H3 H4 H5 H6 H7. rewrite <- Hmo in Hm. rewrite <- Hin in H4. rewrite <- Esb in H2.
    apply (crash_reopen l s' ip (put_bytes c off src) i' dk1 s2 jp j); try done. by apply Hres.
Qed.

End crash.

#[local] Existing Instance Bio.bio_ops.
#[local] Existing Instance Bio.bio_laws.

(** A log of thirty blocks behind the superblock, on a disk just booted. *)
Definition fresh_log (dk : gmap Z (list Z)) : @Log.log Bio.block_cache :=
  Log.mklog false 2 30 0 false ROOTDEV 0 (replicate Log.LOGSIZE 0) 0 (Bio.booted (kmap (pair 1) dk) 5).

Lemma fresh_log_idle dk :
  abs_ok (mkabs dk ∅ ∅) → (∀ k, 2 ≤ k < 32 → dk !! k = Some (replicate BSIZE 0)) → Log.idle (fresh_log dk) dk.
Proof.
  intros Hok Hlog. split; [split|done..]; try done.
  - apply Bio.booted_rep; [|done].
    intros k. apply (lookup_kmap (M1 := gmap Z) (M2 := gmap (Z * Z)) (pair 1)).
  - constructor.
  - intros h. cbn [a_mem]. rewrite lookup_empty. split; [by intros [? ?]|by intros ?%elem_of_nil].
  - by intros h ?%elem_of_nil.
  - intros k Hk. unfold Log.in_log in Hk. cbn in Hk. rewrite Hlog by lia. eauto.
  - intros hd. cbn [Log.start fresh_log a_disk]. rewrite Hlog by lia. intros E.
    assert (hd = replicate BSIZE 0) as -> by congruence. clear E. split_and!; [apply length_replicate|vm_compute; reflexivity|done].
Qed.

(** A disk of 48 blocks: boot block, superblock, log, one block of inodes, the
    bitmap and the data blocks; inode 2 is an empty regular file. *)
Definition crash_block (b : Z) : list Z :=
  if b =? 1 then Log.ex_sb
  else if b =? 32 then put_dinode (replicate BSIZE 0) (ioff 2) 7 (empty_dinode S_IFREG)
  else if b =? 33 then [255; 255; 255; 255; 3] ++ replicate (BSIZE - 5) 0
  else replicate BSIZE 0.
Definition crash_disk : gmap Z (list Z) := list_to_map ((λ b, (b, crash_block b)) <$> seqZ 0 48).
Definition crash_sb : superblock := mksb SIGNATURE 48 14 16 30 2 32 33.
Definition crash_fs : fs := mkfs (mkabs crash_disk ∅ ∅) [] crash_sb [sample_inode S_IFREG] 7.

Lemma crash_lookup k : crash_disk !! k = if (0 <=? k) && (k <? 48) then Some (crash_block k) else None.
Proof.
  unfold crash_disk. destruct ((0 <=? k) && (k <? 48)) eqn:E.
  - apply andb_true_iff in E as [?%Z.leb_le ?%Z.ltb_lt]. apply elem_of_list_to_map_1.
    + rewrite <- list_fmap_compose. rewrite (list_fmap_ext _ id) by done. rewrite list_fmap_id. apply NoDup_seqZ.
    + apply list_elem_of_fmap. exists k. split; [done|]. apply elem_of_seqZ. lia.
  - apply not_elem_of_list_to_map_1. rewrite <- list_fmap_compose. rewrite list_elem_of_fmap.
    intros (x & -> & Hx%elem_of_seqZ). cbn in E. apply andb_false_iff in E as [?%Z.leb_gt|?%Z.ltb_ge]; lia.
Qed.

Lemma crash_block_ok b : block_ok (crash_block b).
Proof.
  unfold crash_block. destruct (b =? 1); [|destruct (b =? 32); [|destruct (b =? 33); [|apply zeros_ok]]];
    apply block_okb_ok; vm_compute; reflexivity.
Qed.

Lemma crash_disk_ok : abs_ok (mkabs crash_disk ∅ ∅).
Proof.
  split; cbn [a_disk a_mem a_held].
  - intros k d. rewrite crash_lookup. destruct ((0 <=? k) && (k <? 48)) eqn:E; [|done]. intros H.
    assert (d = crash_block k) as -> by congruence. apply andb_true_iff in E as [?%Z.leb_le ?%Z.ltb_lt].
    split; [unfold FSSIZE; lia|apply crash_block_ok].
  - by intros k d ?%lookup_empty_Some.
  - by intros k d ?%lookup_empty_Some.
Qed.

Lemma crash_file : file crash_fs 0 [] (sample_inode S_IFREG).
Proof.
  split; try done. split; [done| | | |done].
  - apply disk_okb_ok. vm_compute. reflexivity.
  - intros b (j & Hj & ->). cbn in Hj. assert (IBLOCK j (sb crash_fs) = 32) as ->.
    { unfold IBLOCK. rewrite Z.div_small; [done|]. change IPB with 16. lia. }
    split_and!; [done|vm_compute; reflexivity|]. intros (b' & Hb' & E). unfold BBLOCK in E.
    rewrite Z.div_small in E; [done|]. unfold in_fs in Hb'. cbn in Hb'. change BPB with 16384. lia.
  - split; [done|..].
    + intros σ τ _ _ H. destruct H. apply (empty_val _ S_IFREG).
    + intros σ _ H. destruct H. apply (empty_val _ S_IFREG).
Qed.

Lemma crash_reserved : reserved (λ k, k = 1 ∨ Log.in_log (fresh_log crash_disk) k) crash_fs (sample_inode S_IFREG).
Proof.
  intros k Hk. assert (1 ≤ k < 32) as Hr by (unfold Log.in_log in Hk; cbn in Hk; lia).
  split; [|intros τ Hτ; cbn [sample_inode di]; rewrite (empty_val _ S_IFREG); lia]. split_and!.
  - unfold in_fs. cbn. lia.
  - assert (forallb (usedb crash_fs) (seqZ 1 31) = true) as HF by (vm_compute; reflexivity).
    rewrite forallb_forall in HF. eapply bool_decide_eq_true_1. apply HF, list_elem_of_In, elem_of_seqZ. lia.
  - intros (b & Hb & E). unfold BBLOCK in E. rewrite Z.div_small in E; [cbn in E; lia|].
    unfold in_fs in Hb. cbn in Hb. change BPB with 16384. lia.
  - intros (j & Hj & E). cbn in Hj. unfold IBLOCK in E. rewrite Z.div_small in E; [cbn in E; lia|]. change IPB with 16. lia.
Qed.

Lemma write_crash_atomic_witness :
  ∃ s' l' tr, inode_write (λ _, None) 0 [104; 105] 0 crash_fs = Ok (2, s') ∧
    length (fold_left Log.add_block (writes s') []) ≤ Log.MAXOPBLOCKS ∧
    Log.fs_op (writes s') (fresh_log crash_disk) = Ok (tt, l') ∧
    trace (Log.dev l') = trace (Log.dev (fresh_log crash_disk)) ++ tr ∧
    ∀ p l0, p `prefix_of` tr → length (Log.lh_block l0) = Log.LOGSIZE →
      Block.rep (Log.dev l0) (mkabs (Log.apply_writes p crash_disk) ∅ ∅) →
      ∃ l1 dk1, Log.initlog ROOTDEV l0 = Ok (tt, l1) ∧ Block.rep (Log.dev l1) (mkabs dk1 ∅ ∅) ∧
        ∀ k, ¬ Log.in_log (fresh_log crash_disk) k → k ∉ (writes s').*1 → dk1 !! k = crash_disk !! k.
Proof.
  destruct (write_crash_atomic (fresh_log crash_disk) (λ _, None) crash_fs crash_disk 0 [] (sample_inode S_IFREG) 0 [104; 105] Log.ex_sb)
    as (s' & i' & l' & dk' & tr & E & _ & _ & Hn & El & _ & _ & T & Hcr).
  - apply crash_file.
  - reflexivity.
  - reflexivity.
  - eexists. split; [vm_compute; reflexivity|]. done.
  - split; cbn; unfold S_IFREG; try lia. split; [reflexivity|]. apply (Forall_replicate _ NADDRS). lia.
  - done.
  - cbn. lia.
  - done.
  - vm_compute. discriminate.
  - rewrite MAXFILE_val. cbn. lia.
  - repeat constructor; lia.
  - apply Nat.leb_le. vm_compute. reflexivity.
  - intros k d. rewrite crash_lookup. destruct ((0 <=? k) && (k <? 48)); [|done]. intros Hd.
    assert (d = crash_block k) as -> by congruence. apply crash_block_ok.
  - apply fresh_log_idle; [apply crash_disk_ok|]. intros k Hk. rewrite crash_lookup.
    rewrite (proj2 (Z.leb_le 0 k)), (proj2 (Z.ltb_lt k 48)) by lia. unfold crash_block.
    by rewrite !(proj2 (Z.eqb_neq k _)) by lia.
  - cbn. lia.
  - vm_compute. reflexivity.
  - vm_compute. reflexivity.
  - unfold Log.in_log. cbn. lia.
  - apply crash_reserved.
  - exists s', l', tr. split; [exact E|]. split; [exact Hn|]. split; [exact El|]. split; [exact T|].
    intros p l0 Hp Hl0 Hr0. destruct (Hcr p l0 Hp Hl0 Hr0) as (l1 & dk1 & c' & E1 & R1 & _ & Hk & _).
    exists l1, dk1. split; [exact E1|]. split; [exact R1|exact Hk].
Defined.

End FsTxn.
