(* ===== verification/FileIO.v ===== *)
(** * Reading and writing open files

    [vfs_write] splits a write into transactions, [vfs_read] continues at the
    offset of the file.  Seen from outside, a regular file that is open is a
    list of bytes with a position in it. *)

From S2P Require Import Prelude Mem Words Block Bio Log Fs FsBlock FsTree FsFile FsInode FsRel File FsTxn.

Module FileIO.
Import Block Fs FsBlock FsTree FsFile FsInode FsTxn.

(** ** An inode between calls *)

(** The inode table with the inode at [i] locked. *)
Definition lock_fs (i : nat) (n : inode) (s : fs) : fs := set_itable (<[i := set_locked true n]> (itable s)) s.

(** Between two calls nothing is pinned, no buffer is held and the inode is
    not locked; its contents are [c], in memory and on the disk. *)
Record node (s : fs) (i : nat) (c : list Z) (n : inode) : Prop := {
  nd_store : ∃ dk, store s = mkabs dk ∅ ∅;
  nd_writes : writes s = [];
  nd_inode : itable s !! i = Some n;
  nd_ref : 1 ≤ ref n;
  nd_unlocked : locked n = false;
  nd_valid : valid n = true;
  nd_file : file (lock_fs i n s) i c (set_locked true n);
  nd_synced : synced s n;
  nd_widths : widths (di n);
  nd_now : 0 ≤ now s < 2 ^ 64;
}.

Lemma file_same s s' ip c i :
  file s ip c i → same_disk s s' → itable s' !! ip = Some i → no_buffers s' → file s' ip c i.
Proof.
  intros [[Hi Hd Hin Ht Hh] Hl Hr Hn Hs Hm Hrep] Hsame Hi' Hh'. pose proof Hsame as [Esb HV]. split; try done.
  - split; [done|by apply (same_disk_ok s)|by apply (same_inodes_ok s)|by apply (same_tree_ok s)|done].
  - by rewrite Esb.
  - intros o x Hx. apply Hrep, byte_at_Some in Hx as (Hv & d & Hd' & Hx). apply byte_at_Some.
    rewrite (same_val s s') by done. split; [done|]. exists d. by rewrite HV.
Qed.

Lemma lock_run s i c n : node s i c n → inode_lock i s = Ok (tt, lock_fs i n s).
Proof.
  intros [_ _ Hi Hr Hl Hv _ _ _ _]. unfold inode_lock.
  rewrite (the_inode_bind i n), (proj2 (Z.ltb_ge _ 1)) by (done || lia).
  unfold holdingsleep. rewrite bind_assoc, (the_inode_bind i n), ret_bind, Hl by done.
  cbn [negb kernel_assert]. rewrite ret_bind. unfold acquiresleep.
  rewrite bind_assoc, (the_inode_bind i n), Hl by done. unfold upd_inode. rewrite modify_bind, Hv.
  by rewrite (alter_insert_eq _ _ _ n Hi).
Qed.

Lemma unlock_run s i n :
  itable s !! i = Some n → 1 ≤ ref n → locked n = true →
  inode_unlock i s = Ok (tt, set_itable (<[i := set_locked false n]> (itable s)) s).
Proof.
  intros Hi Hr Hl. unfold inode_unlock. rewrite (the_inode_bind i n), (proj2 (Z.ltb_ge _ 1)) by (done || lia).
  unfold holdingsleep. rewrite bind_assoc, (the_inode_bind i n), ret_bind, Hl by done.
  cbn [kernel_assert]. rewrite ret_bind. unfold releasesleep, upd_inode, modify.
  by rewrite (alter_insert_eq _ _ _ n Hi).
Qed.

(** The state after the locked inode [n1] is unlocked and the call committed. *)
Definition settled (i : nat) (n1 : inode) (s1 : fs) : fs :=
  File.commit (set_itable (<[i := set_locked false n1]> (itable s1)) s1).

Lemma free_same s s' : same_disk s s' → length (free_blocks s') = length (free_blocks s).
Proof. intros H. by rewrite (same_free s s'). Qed.

Lemma settled_same s s1 dk i n1 :
  store s = mkabs dk ∅ ∅ → writes s = [] → txn s s1 → no_buffers s1 →
  same_disk s1 (settled i n1 s1) ∧ no_buffers (settled i n1 s1) ∧
  store (settled i n1 s1) = mkabs (Log.apply_writes (writes s1) dk) ∅ ∅.
Proof.
  intros Hst Hw Htx Hh. pose proof Htx as (ws & _ & _ & HD & _). rewrite Hst in HD. cbn in HD.
  assert (a_held (store s1) = ∅) as Eh by (apply map_eq; intros k; rewrite lookup_empty; apply Hh).
  assert (store (settled i n1 s1) = mkabs (Log.apply_writes (writes s1) dk) ∅ ∅) as Es.
  { cbn. by rewrite HD, Eh. }
  split_and!; [split; [done|]| |done].
  - intros b. unfold V. rewrite Es, Log.view_clean. symmetry. by apply (txn_view s s1 dk).
  - intros x. unfold held. by rewrite Es.
Qed.

(** A piece of a write, from one call to the next. *)
Lemma node_write dev_write s i c n (off : nat) src :
  node s i c n → (off ≤ length c)%nat → length src ≤ File.max_write → off + length src ≤ MAXFILE * BSIZE →
  Forall byte_ok src → (6 ≤ length (free_blocks s))%nat →
  ∃ s1 n1, inode_write dev_write i src off (lock_fs i n s) = Ok (Z.of_nat (length src), s1) ∧
    itable s1 !! i = Some n1 ∧ 1 ≤ ref n1 ∧ locked n1 = true ∧
    node (settled i n1 s1) i (put_bytes c off src) (set_locked false n1) ∧
    (length (fold_left Log.add_block (writes s1) []) ≤ 10)%nat ∧
    (length (free_blocks s) ≤ length (free_blocks (settled i n1 s1)) + 6)%nat.
Proof.
  intros [[dk Hst] Hw Hi Hr Hl Hv Hf Hsy Hwd Hnow] Hoff Hlen Hend Hsrc Hfree.
  destruct (write_txn dev_write (lock_fs i n s) dk i c (set_locked true n) off src) as (s1 & n1 & E & Hws); try done.
  destruct Hws as [Hf1 Hsy1 [d En] _ Hwd1 Hsb1 Hnow1 Hit1 Htx1 Hct1 _ _ Hfr1].
  destruct (settled_same (lock_fs i n s) s1 dk i n1 Hst Hw Htx1) as (Hsame & Hh & Es); [apply Hf1|].
  exists s1, n1. assert (itable s1 !! i = Some n1) as Hi1 by apply Hf1.
  split_and!; [done|done|by rewrite En|by rewrite En| |done|].
  - split; try done.
    + by exists (Log.apply_writes (writes s1) dk).
    + cbn. apply list_lookup_insert_eq. by eapply lookup_lt_Some.
    + by rewrite En.
    + by rewrite En.
    + assert (set_locked true (set_locked false n1) = n1) as E1 by (by rewrite En).
      rewrite E1. apply (file_same s1); [done|done| |done].
      unfold lock_fs. rewrite E1. cbn. apply list_lookup_insert_eq. rewrite length_insert. by eapply (lookup_lt_Some (itable s1)).
    + destruct Hsy1 as (x & Hx & ?). exists x. split; [|done]. rewrite <- Hx. unfold disk_inode.
      destruct Hsame as [-> HV]. change (inum (set_locked false n1)) with (inum n1). by rewrite HV.
    + change (now (settled i n1 s1)) with (now s1). by rewrite Hnow1.
  - rewrite (free_same s1 (settled i n1 s1)) by done. by apply Hfr1.
Qed.

(** ** An open file *)

Import File.

(** Descriptors of open regular files: the file structure and its inode, with
    the position [o] in the contents [c]; no call is running. *)
Record opened (s : vfs) (f i : nat) (c : list Z) (n : inode) (x : file) : Prop := {
  op_entry : file_table s !! f = Some x;
  op_type : type x = FD_INODE;
  op_ip : ip x = Some i;
  op_node : node (fsys s) i c n;
  op_idle : outstanding s = 0;
}.

Lemma onfs_run {A} (m : FS A) s a t :
  m (fsys s) = Ok (a, t) → 1 ≤ outstanding s ∨ writes t = writes (fsys s) → onfs m s = Ok (a, set_fsys t s).
Proof.
  intros E H. unfold onfs. rewrite E. destruct H as [H|H].
  - by rewrite (proj2 (Z.ltb_ge _ 1)).
  - rewrite H, Nat.eqb_refl. by rewrite andb_false_r.
Qed.

Lemma onfs_bind {A B} (m : FS A) (k : A → VFS B) s a t :
  m (fsys s) = Ok (a, t) → 1 ≤ outstanding s ∨ writes t = writes (fsys s) → (onfs m ≫= k) s = k a (set_fsys t s).
Proof. intros E H. apply bind_run. by apply onfs_run. Qed.

Lemma the_file_bind {B} f x (k : file → VFS B) s : file_table s !! f = Some x → (the_file f ≫= k) s = k x s.
Proof. intros E. apply bind_run. unfold the_file. by rewrite E. Qed.

Lemma from_some {S A B} (o : option A) a (k : A → M S B) s : o = Some a → (from_option o ≫= k) s = k a s.
Proof. by intros ->. Qed.

(** The vfs after one piece of a write. *)
Definition after_piece (s : vfs) (f i : nat) (n1 : inode) (s1 : fs) (o : Z) : vfs :=
  set_log 0 (committed s ++ [writes s1])
    (set_fsys (settled i n1 s1) (set_file_table (alter (set_off o) f (file_table s)) s)).

Lemma piece_run dev_write s f i c n x addr (k n1 o : nat) total fuel :
  opened s f i c n x → off x = o → (o ≤ length c)%nat → (0 < n1)%nat → k + n1 ≤ total →
  Z.of_nat n1 = (if max_write <? total - k then max_write else total - k) →
  length addr = Z.to_nat total → 0 ≤ total < 2 ^ 62 →
  o + n1 ≤ MAXFILE * BSIZE → Forall byte_ok addr → (6 ≤ length (free_blocks (fsys s)))%nat →
  ∃ n' s1, opened (after_piece s f i n' s1 (o + n1)) f i (put_bytes c o (get_bytes addr k n1)) (set_locked false n')
      (set_off (o + n1) x) ∧
    write_loop dev_write f i addr total k (S fuel) s =
      write_loop dev_write f i addr total (k + n1) fuel (after_piece s f i n' s1 (o + n1)) ∧
    (length (fold_left Log.add_block (writes s1) []) ≤ 10)%nat ∧
    (length (free_blocks (fsys s)) ≤ length (free_blocks (fsys (after_piece s f i n' s1 (o + n1)))) + 6)%nat.
Proof.
  intros [Hx Hty Hip Hnd Hout] Ho Hoff Hn1 Hk En1 Hlen Htot Hend Hby Hfree.
  assert (max_write = 1536) as Emax by reflexivity.
  assert (length (get_bytes addr k n1) = n1) as Hl by (rewrite length_get_bytes; lia).
  destruct (node_write dev_write (fsys s) i c n o (get_bytes addr k n1)) as (s1 & n' & E & Hi1 & Hr1 & Hlk & Hnd1 & Hct & Hfr); try done.
  { rewrite Hl, En1, Emax. destruct (Z.ltb_spec 1536 (total - k)); lia. }
  { by rewrite Hl. }
  { unfold get_bytes. by apply Forall_take, Forall_drop. }
  exists n', s1. split_and!; [|  |done|done].
  - split; try done. cbn. by rewrite list_lookup_alter_eq, Hx.
  - cbn [write_loop]. rewrite (proj2 (Z.ltb_lt k total)) by lia. rewrite <- En1. unfold begin_op at 1. rewrite modify_bind, Hout.
    change (u64 (0 + 1)) with 1. set (t1 := set_log 1 (committed s) s).
    rewrite (onfs_bind _ _ t1 tt (lock_fs i n (fsys s))) by (by (eapply lock_run; exact Hnd) || (left; done)).
    rewrite (the_file_bind f x) by done. rewrite Ho, !Nat2Z.id.
    rewrite (onfs_bind _ _ _ _ s1) by (exact E || (left; done)). rewrite Hl.
    rewrite (proj2 (Z.eqb_neq n1 0)) by lia. rewrite sx_small by (rewrite MAXFILE_val in Hend; lia).
    unfold upd_file. rewrite modify_bind.
    rewrite (onfs_bind _ _ _ tt (set_itable (<[i := set_locked false n']> (itable s1)) s1)) by
      (by (apply unlock_run; done) || (left; done)).
    unfold end_op. rewrite bind_assoc, gets_bind. cbn [outstanding set_fsys set_file_table set_log t1].
    change (u64 (1 - 1) =? 0) with true. cbn match. rewrite modify_bind.
    rewrite (proj2 (Z.ltb_ge n1 0)), Z.eqb_refl by lia. cbn [negb].
    done.
Qed.

(** What a write leaves alone. *)
Definition frame (s s' : vfs) (f : nat) : Prop :=
  ofile s' = ofile s ∧ pipes s' = pipes s ∧ cwd s' = cwd s ∧ ∀ g, g ≠ f → file_table s' !! g = file_table s !! g.

Lemma frame_trans s1 s2 s3 f : frame s1 s2 f → frame s2 s3 f → frame s1 s3 f.
Proof.
  intros (A1 & B1 & C1 & D1) (A2 & B2 & C2 & D2). split_and!; [congruence..|]. intros g Hg. by rewrite D2, D1.
Qed.

Lemma frame_piece s f i n1 s1 o : frame s (after_piece s f i n1 s1 o) f.
Proof. split_and!; [done..|]. intros g Hg. cbn. by rewrite list_lookup_alter_ne. Qed.

Lemma pieces_run dev_write f i addr (p : nat) :
  Forall byte_ok addr → length addr < 2 ^ 62 → ∀ s c n x (k o : nat) fuel,
  opened s f i c n x → off x = o → (o ≤ length c)%nat → (k ≤ length addr)%nat →
  o + (length addr - k) ≤ MAXFILE * BSIZE → length addr - k ≤ p * max_write → (p < fuel)%nat →
  (6 * p ≤ length (free_blocks (fsys s)))%nat →
  ∃ s' n' txs, write_loop dev_write f i addr (length addr) k fuel s = Ok (Z.of_nat (length addr), s') ∧
    opened s' f i (put_bytes c o (drop k addr)) n' (set_off (o + (length addr - k)) x) ∧ frame s s' f ∧
    committed s' = committed s ++ txs ∧ (length txs ≤ p)%nat ∧
    Forall (λ tx, (length (fold_left Log.add_block tx []) ≤ 10)%nat) txs.
Proof.
  intros Hby Hbig. assert (max_write = 1536) as Emax by reflexivity.
  induction p as [|p IH]; intros s c n x k o fuel Hop Ho Hoff Hk Hend Hp Hfuel Hfree;
    (destruct fuel as [|fuel]; [lia|]); (destruct (decide (k = length addr)) as [->|Hne]; [|]).
  1, 3: exists s, n, []; cbn [write_loop]; rewrite Z.ltb_irrefl, drop_all, Z.sub_diag, Z.add_0_r, app_nil_r;
    unfold put_bytes at 1; rewrite app_nil_l, Nat.add_0_r, take_drop; (split_and!; [done| |done|done|cbn; lia|by constructor]);
    rewrite <- Ho; by destruct x.
  1: lia.
  set (n1 := Z.to_nat (if max_write <? length addr - k then max_write else length addr - k)).
  assert (Z.of_nat n1 = if max_write <? length addr - k then max_write else length addr - k) as En1.
  { unfold n1. rewrite Emax. destruct (Z.ltb_spec 1536 (length addr - k)); lia. }
  assert (0 < n1 ∧ k + n1 ≤ length addr ∧ (n1 = length addr - k ∨ Z.of_nat n1 = 1536))%nat as (Hn1 & Hkn & Hor).
  { rewrite Emax in En1. destruct (Z.ltb_spec 1536 (length addr - k)); lia. }
  destruct (piece_run dev_write s f i c n x addr k n1 o (length addr) fuel) as (n' & s1 & Hop1 & E1 & Hct & Hfr); try done; try lia.
  destruct (IH (after_piece s f i n' s1 (o + n1)) (put_bytes c o (get_bytes addr k n1)) (set_locked false n') (set_off (o + n1) x)
    (k + n1)%nat (o + n1)%nat fuel) as (s' & n2 & txs & E2 & Hop2 & Hfm & Hcm & Hlt & Hall).
  { done. }
  { cbn. lia. }
  { rewrite length_splice, length_get_bytes by done. lia. }
  { lia. }
  { lia. }
  { rewrite Emax in *. lia. }
  { lia. }
  { lia. }
  exists s', n2, ([writes s1] ++ txs). split_and!.
  - rewrite E1. rewrite <- Nat2Z.inj_add. done.
  - assert (get_bytes addr k n1 ++ drop (k + n1) addr = drop k addr) as Eapp.
    { unfold get_bytes. rewrite <- (drop_drop addr). apply take_drop. }
    rewrite <- Eapp, <- splice_splice by (rewrite ?length_get_bytes; lia).
    rewrite length_get_bytes by lia.
    replace (o + (length addr - k)) with ((o + n1)%nat + (length addr - (k + n1)%nat)) by lia. done.
  - eapply frame_trans; [apply frame_piece|done].
  - rewrite Hcm. cbn. by rewrite <- app_assoc.
  - cbn. lia.
  - by constructor.
Qed.

Lemma vfs_write_run killed dev_write s f i c n x (o : nat) addr :
  opened s f i c n x → writable x = true → off x = o → (o ≤ length c)%nat →
  o + length addr ≤ MAXFILE * BSIZE → Forall byte_ok addr →
  (6 * (length addr / 1536 + 1) ≤ length (free_blocks (fsys s)))%nat →
  ∃ s' n' txs, vfs_write killed dev_write f addr s = Ok (Z.of_nat (length addr), s') ∧
    opened s' f i (put_bytes c o addr) n' (set_off (o + length addr) x) ∧ frame s s' f ∧
    committed s' = committed s ++ txs ∧ (length txs ≤ length addr / 1536 + 1)%nat ∧
    Forall (λ tx, (length (fold_left Log.add_block tx []) ≤ 10)%nat) txs.
Proof.
  intros Hop Hw Ho Hoff Hend Hby Hfree. pose proof MAXFILE_val as HM.
  assert (Z.to_nat (length addr / max_write) = (length addr / 1536)%nat) as Ed.
  { change max_write with (Z.of_nat 1536). by rewrite <- Nat2Z.inj_div, Nat2Z.id. }
  pose proof (Nat.div_mod_eq (length addr) 1536) as Edm. pose proof (Nat.mod_upper_bound (length addr) 1536 ltac:(lia)) as Hmod.
  destruct (pieces_run dev_write f i addr (length addr / 1536 + 1) Hby ltac:(lia) s c n x 0 o
    (Z.to_nat (length addr / max_write) + 2)) as (s' & n' & txs & E & Hop' & Hfm & Hcm & Hlt & Hall); try done; try lia.
  { change max_write with 1536. lia. }
  exists s', n', txs. rewrite drop_0, Z.sub_0_r in *. split_and!; try done.
  pose proof Hop as [Hx Hty Hip _ _]. unfold vfs_write. rewrite (the_file_bind f x) by done.
  rewrite Hw, Hty. cbn [negb]. by rewrite (from_some _ i).
Qed.

Lemma reset_inode (n : inode) : locked n = false → set_locked false (set_locked true n) = n.
Proof. intros H. destruct n. cbn in *. by subst. Qed.

Lemma vfs_read_run killed dev_read s f i c n x (o m : nat) :
  opened s f i c n x → readable x = true → off x = o → (o ≤ length c)%nat → m < 2 ^ 62 →
  let bs := get_bytes c o m in
  vfs_read killed dev_read f m s =
    Ok ((Z.of_nat (length bs), bs), set_file_table (<[f := set_off (o + length bs) x]> (file_table s)) s).
Proof.
  intros [Hx Hty Hip Hnd Hout] Hr Ho Hoff Hm bs. unfold vfs_read. rewrite (the_file_bind f x) by done.
  rewrite Hr, Hty. cbn [negb]. rewrite (from_some _ i) by done.
  rewrite (onfs_bind _ _ s tt (lock_fs i n (fsys s))) by (by (eapply lock_run; exact Hnd) || (right; done)).
  pose proof (inode_read_run dev_read (lock_fs i n (fsys s)) i c (set_locked true n) o m (nd_file _ _ _ _ Hnd) Hoff Hm) as E.
  rewrite Ho. rewrite (onfs_bind _ _ _ _ (lock_fs i n (fsys s))) by (exact E || (right; done)). fold bs.
  assert (length bs < 2 ^ 62 ∧ o < 2 ^ 62) as [Hb1 Hb2].
  { pose proof (f_max _ _ _ _ (nd_file _ _ _ _ Hnd)) as HM. rewrite MAXFILE_val in HM.
    unfold bs, get_bytes. rewrite length_take, length_drop. lia. }
  assert (∀ t, itable (fsys t) = itable (lock_fs i n (fsys s)) → onfs (inode_unlock i) t =
    Ok (tt, set_fsys (set_itable (itable (fsys s)) (fsys t)) t)) as Hun.
  { intros t Et. apply onfs_run; [|right; done]. rewrite (unlock_run _ i (set_locked true n)).
    - rewrite Et. cbn. rewrite list_insert_insert_eq, (reset_inode n) by apply Hnd. rewrite list_insert_id; [done|]. apply Hnd.
    - rewrite Et. cbn. apply list_lookup_insert_eq. eapply lookup_lt_Some, Hnd.
    - apply Hnd.
    - done. }
  destruct (Z.ltb_spec 0 (length bs)) as [Hpos|Hz].
  - unfold upd_file. rewrite modify_bind. erewrite bind_run; [|apply Hun; reflexivity].
    rewrite (alter_insert_eq _ _ _ x Hx), Ho, sx_small by lia. unfold mret, M_ret. do 2 f_equal. by destruct s as [[]].
  - rewrite ret_bind. erewrite bind_run; [|apply Hun; reflexivity]. unfold mret, M_ret. do 2 f_equal.
    replace (set_off (o + length bs) x) with x.
    2: { replace (o + length bs) with (off x) by lia. by destruct x. }
    rewrite list_insert_id by done. by destruct s as [[]].
Qed.

(** C5. Writing to an open regular file.  [vfs_write] returns the number of
    bytes, overwrites and extends the contents at the position of the file and
    advances it; it does so in transactions of at most [MAXOPBLOCKS] blocks,
    which are all committed when it returns, and changes no other open file, no
    descriptor and no pipe.  Seeking back and reading returns the bytes and
    leaves everything as it is. *)
Theorem vfs_write_read killed dev_read dev_write s f i c n x (o : nat) addr :
  opened s f i c n x → writable x = true → readable x = true → off x = o → (o ≤ length c)%nat →
  o + length addr ≤ MAXFILE * BSIZE → Forall byte_ok addr →
  (6 * (length addr / 1536 + 1) ≤ length (free_blocks (fsys s)))%nat →
  ∃ s' n' txs, vfs_write killed dev_write f addr s = Ok (Z.of_nat (length addr), s') ∧
    opened s' f i (put_bytes c o addr) n' (set_off (o + length addr) x) ∧ frame s s' f ∧
    committed s' = committed s ++ txs ∧ (length txs ≤ length addr / 1536 + 1)%nat ∧
    Forall (λ tx, length (fold_left Log.add_block tx []) ≤ Log.MAXOPBLOCKS) txs ∧
    (fileseek f o SEEK_SET ≫= λ _, vfs_read killed dev_read f (length addr)) s' =
      Ok ((Z.of_nat (length addr), addr), s').
Proof.
  intros Hop Hw Hr Ho Hoff Hend Hby Hfree. pose proof MAXFILE_val as HM.
  destruct (vfs_write_run killed dev_write s f i c n x o addr) as (s' & n' & txs & E & Hop' & Hfm & Hcm & Hlt & Hall); try done.
  exists s', n', txs. split_and!; try done.
  { eapply Forall_impl; [exact Hall|]. cbn. intros tx Ht. unfold Log.MAXOPBLOCKS. lia. }
  pose proof (op_entry _ _ _ _ _ _ Hop') as Hx'. unfold fileseek. rewrite bind_assoc, (the_file_bind f _ _ _ Hx').
  cbn [Z.eqb SEEK_SET SEEK_CUR]. rewrite bind_assoc. unfold upd_file. rewrite modify_bind, ret_bind.
  rewrite (alter_insert_eq _ _ _ _ Hx'). set (x1 := set_off o _). set (s1 := set_file_table _ s').
  assert (opened s1 f i (put_bytes c o addr) n' x1) as Hop1.
  { destruct Hop' as [_ Hty Hip Hnd Hout]. split; try done. cbn. apply list_lookup_insert_eq. by eapply lookup_lt_Some. }
  rewrite (vfs_read_run killed dev_read s1 f i (put_bytes c o addr) n' x1 o (length addr)); try done; [|rewrite length_splice by done; lia|lia].
  assert (get_bytes (put_bytes c o addr) o (length addr) = addr) as ->.
  { apply list_eq. intros j. rewrite lookup_get_bytes. case_decide as Hj.
    - rewrite lookup_splice, decide_True by lia. f_equal. lia.
    - symmetry. apply lookup_ge_None. lia. }
  do 2 f_equal. unfold s1. cbn. rewrite list_insert_insert_eq. change (set_off (o + length addr) x1) with (set_off (o + length addr) x).
  rewrite list_insert_id by done. by destruct s'.
Qed.

(** An empty file open for reading and writing, on the disk of FsTxn.v. *)
Definition ex_file : file := mkfile FD_INODE 0 1 true true None (Some 0%nat) 0.
Definition ex_vfs : vfs :=
  mkvfs (set_itable [set_locked false (sample_inode S_IFREG)] crash_fs) [ex_file] [[Some 0%nat]] [0%nat] [] ∅ ∅ ∅ 0 [].

Lemma ex_opened : opened ex_vfs 0 0 [] (set_locked false (sample_inode S_IFREG)) ex_file.
Proof.
  split; try done. split; try done.
  - by exists crash_disk.
  - exact crash_file.
  - eexists. split; [vm_compute; reflexivity|]. done.
  - split; cbn; unfold S_IFREG; try lia. split; [reflexivity|]. apply (Forall_replicate _ NADDRS). lia.
Qed.

(** A first write to it. *)
Lemma ex_write killed dev_write : ∃ s', vfs_write killed dev_write 0 [104; 105] ex_vfs = Ok (2, s').
Proof.
  destruct (vfs_write_run killed dev_write ex_vfs 0 0 [] (set_locked false (sample_inode S_IFREG)) ex_file 0 [104; 105])
    as (s' & _ & _ & E & _).
  - apply ex_opened.
  - reflexivity.
  - reflexivity.
  - done.
  - rewrite MAXFILE_val. cbn. lia.
  - repeat constructor; lia.
  - apply Nat.leb_le. vm_compute. reflexivity.
  - by exists s'.
Qed.

Lemma vfs_write_read_witness :
  ∃ s', vfs_write false (λ _, None) 0 [104; 105] ex_vfs = Ok (2, s') ∧
    (fileseek 0 0 SEEK_SET ≫= λ _, vfs_read false (λ _, None) 0 2) s' = Ok ((2, [104; 105]), s').
Proof.
  destruct (vfs_write_read false (λ _, None) (λ _, None) ex_vfs 0 0 [] (set_locked false (sample_inode S_IFREG)) ex_file 0 [104; 105])
    as (s' & n' & txs & E & _ & _ & _ & _ & _ & R).
  - apply ex_opened.
  - reflexivity.
  - reflexivity.
  - reflexivity.
  - done.
  - rewrite MAXFILE_val. cbn. lia.
  - repeat constructor; lia.
  - apply Nat.leb_le. vm_compute. reflexivity.
  - exists s'. split; [exact E|exact R].
Defined.

End FileIO.
