(* ===== verification/Sysfile.v ===== *)
(** * File system calls (kernel/sysfile.c)

    The calls on descriptors and path names, from the point where their
    arguments have been fetched.  [argfd] is part of the model; the strings and
    buffers behind user pointers are lists of bytes. *)

From S2P Require Import Prelude Mem Words Block Bio Log CType KString Fs RingBuf Pipe File.

Module Sysfile.
Import Block Fs File.

Definition EBADF : Z := 9.
Definition ENOTDIR : Z := 20.
Definition ENFILE : Z := 23.
Definition ESPIPE : Z := 29.
Definition ENOSYS : Z := 38.
Definition ENOTEMPTY : Z := 39.

Definition O_CLOEXEC : Z := 0x400.
Definition O_CLOFORK : Z := 0x800.
Definition O_TMPFILE : Z := Z.lor 0x200 0x100.
Definition AT_SYMLINK_NOFOLLOW : Z := 1.
Definition AT_SYMLINK_FOLLOW : Z := 1.
Definition AT_REMOVEDIR : Z := 1.
Definition FD_CLOEXEC : Z := 0x01.
Definition FD_CLOFORK : Z := 0x02.
Definition S_IAUSR : Z := 0x1C0.

Definition S_ISSOCK (mode : Z) : bool := S_ISTYPE mode S_IFSOCK.

(** Are there bits of [x] outside of [mask]? *)
Definition other_bits (x mask : Z) : bool := negb (Z.land x (Z.lnot mask) =? 0).
Definition has_bit (x b : Z) : bool := negb (Z.land x b =? 0).

Section calls.

Context (self : nat) (killed : bool) (de : list Z) (new_ring : option RingBuf.ring_buf).
Context (dev_open : Z → option (Z → Z → VFS Z)) (dev_close : Z → option (Z → VFS Z)).
Context (dev_read : Z → option (Z → nat → Z → FS (Z * list Z))).
Context (dev_write : Z → option (Z → nat → list Z → FS Z)).

#[local] Abbreviation vfs_close := (vfs_close dev_close).
#[local] Abbreviation namei_with_fd := (namei_with_fd self de dev_read).
#[local] Abbreviation nameiparent_with_fd := (nameiparent_with_fd self de dev_read).
#[local] Abbreviation resolve_nameat := (resolve_nameat self de dev_read).
#[local] Abbreviation vfs_locked_inode_create := (vfs_locked_inode_create self de dev_read dev_write).
#[local] Abbreviation dirlink := (dirlink dev_read dev_write de).
#[local] Abbreviation dirlookup := (dirlookup dev_read de).

(** The error, or the file; [inr None] when the descriptor is [AT_FDCWD] and
    the caller's file pointer is not set. *)
Definition argfd (fd : Z) : VFS (Z + option nat) :=
  if fd =? AT_FDCWD then mret (inr None)
  else if fd <? 0 then mret (inl (- EBADF))
  else if OPEN_MAX <=? fd then mret (inl (- ENFILE))
  else
    l ← gets (my_ofile self);
    o ← from_option (l !! Z.to_nat fd);
    match o with
    | None => mret (inl (- EBADF))
    | Some f => mret (inr (Some f))
    end.

(** [PROPOGATE_ERR(argfd(..))], and the use of the file pointer. *)
Definition check_fd (fd : Z) (k : VFS Z) : VFS Z :=
  r ← argfd fd;
  match r with inl e => mret e | inr _ => k end.
Definition with_file (fd : Z) (k : nat → VFS Z) : VFS Z :=
  r ← argfd fd;
  match r with inl e => mret e | inr o => f ← from_option o; k f end.

Definition file_node (f : nat) : VFS (nat * inode) :=
  x ← the_file f;
  i ← from_option (ip x);
  n ← the_node i;
  mret (i, n).

(** ** Descriptors *)

(** The test of [fd2] is [fd2 < 0 && fd2 >= OPEN_MAX]. *)
Definition sys_dup3 (fd1 fd2 oflags : Z) : VFS Z :=
  r ← argfd fd1;
  match r with
  | inl e => mret e
  | inr o =>
      if other_bits oflags (Z.lor O_CLOEXEC O_CLOFORK) then mret (- EINVAL)
      else if (fd2 <? 0) && (OPEN_MAX <=? fd2) then mret (- EBADF)
      else if fd1 =? fd2 then mret fd2
      else
        f ← from_option o;
        r ← fdalloc2 self dev_close f fd2;
        if r <? 0 then mret r else _ ← filedup f oflags; mret r
  end.

Definition sys_read (fd n : Z) : VFS (Z * list Z) :=
  r ← argfd fd;
  match r with
  | inl e => mret (e, [])
  | inr o => f ← from_option o; vfs_read killed dev_read f n
  end.

Definition sys_write (fd : Z) (p : list Z) : VFS Z :=
  with_file fd (λ f, vfs_write killed dev_write f p).

(** Every turn writes [iovecs->iov_base], the first buffer. *)
Fixpoint writev_loop (f : nat) (first : list Z) (iovcnt : nat) (bytes : Z) : VFS Z :=
  match iovcnt with
  | O => mret bytes
  | S k =>
      r ← vfs_write killed dev_write f first;
      if r <? 0 then mret r else writev_loop f first k (s64 (bytes + r))
  end.

Definition sys_writev (fd : Z) (iovecs : list (list Z)) : VFS Z :=
  with_file fd (λ f,
    match iovecs with
    | [] => mret 0
    | first :: _ => writev_loop f first (length iovecs) 0
    end).

Definition sys_close (fd : Z) : VFS Z :=
  with_file fd (λ f,
    _ ← modify (λ s, set_my_ofile self (<[Z.to_nat fd := None]> (my_ofile self s)) s);
    vfs_close f).

Definition sys_fstat (fd : Z) : VFS (Z * option stat) :=
  r ← argfd fd;
  match r with
  | inl e => mret (e, None)
  | inr o => f ← from_option o; vfs_stat f
  end.

Definition sys_lseek (fd offset whence : Z) : VFS Z :=
  with_file fd (λ f,
    '(_, n) ← file_node f;
    if S_ISFIFO (mode (di n)) || S_ISSOCK (mode (di n)) then mret (- ESPIPE)
    else fileseek f offset whence).

(** A pipe; the two descriptors are stored in [fd]. *)
Definition sys_pipe2 (oflags : Z) : VFS (Z * list Z) :=
  if other_bits oflags (Z.lor (Z.lor O_CLOEXEC O_CLOFORK) O_NONBLOCK) then mret (- EINVAL, [])
  else
    '(e, o0, o1) ← pipealloc new_ring dev_close;
    if e <? 0 then mret (e, [])
    else
      r ← from_option o0;
      w ← from_option o1;
      fd0 ← fdalloc self r;
      let undo :=
        _ ← (if 0 <=? fd0 then
               modify (λ s, set_my_ofile self (<[Z.to_nat fd0 := None]> (my_ofile self s)) s)
             else mret tt);
        _ ← vfs_close r;
        _ ← vfs_close w;
        mret (- EBADF, []) in
      if fd0 <? 0 then undo
      else
        fd1 ← fdalloc self w;
        if fd1 <? 0 then undo
        else
          _ ← upd_file r (set_flags oflags);
          _ ← upd_file w (set_flags oflags);
          mret (0, [fd0; fd1]).

(** The commands that duplicate a descriptor take the file, not its number. *)
Definition dup_fd (f : nat) (fl : Z) : VFS Z :=
  fd ← fdalloc self f;
  if fd <? 0 then mret fd else _ ← filedup f fl; mret fd.

Definition sys_fcntl (fd op arg : Z) : VFS Z :=
  with_file fd (λ f,
    if op =? 0x000 then dup_fd f 0
    else if op =? 0x010 then dup_fd f O_CLOEXEC
    else if op =? 0x800 then dup_fd f O_CLOFORK
    else if op =? 0x004 then
      x ← the_file f;
      i ← from_option (ip x);
      _ ← onfs (inode_lock i);
      fl ← gets (λ s, default 0 (fattrs s !! i));
      _ ← onfs (inode_unlock i);
      mret fl
    else if op =? 0x008 then
      x ← the_file f;
      i ← from_option (ip x);
      _ ← onfs (inode_lock i);
      _ ← modify (λ s, set_fattrs (<[i := arg]> (fattrs s)) s);
      _ ← onfs (inode_unlock i);
      mret 0
    else if op =? 0x001 then x ← the_file f; mret (flags x)
    else if op =? 0x002 then
      if other_bits arg (Z.lor FD_CLOEXEC FD_CLOFORK) then mret (- EINVAL)
      else
        _ ← upd_file f (set_flags (Z.lor (if has_bit arg FD_CLOFORK then O_CLOFORK else 0)
                                         (if has_bit arg FD_CLOEXEC then O_CLOEXEC else 0)));
        mret 0
    else if (op =? 0x020) || (op =? 0x040) || (op =? 0x100) || (op =? 0x080) || (op =? 0x200) || (op =? 0x400)
    then mret (- ENOSYS)
    else mret (- EINVAL)).

(** ** Path names *)

Definition find_node (follow : bool) (fd : Z) (path : list Z) : VFS (option nat) :=
  if follow then resolve_nameat fd path else namei_with_fd fd path.

Definition sys_fstatat (fd : Z) (path : list Z) (fl : Z) : VFS (Z * option stat) :=
  r ← argfd fd;
  match r with
  | inl e => mret (e, None)
  | inr _ =>
      o ← find_node (negb (has_bit fl AT_SYMLINK_NOFOLLOW)) fd path;
      match o with
      | None => mret (- ENOENT, None)
      | Some i =>
          _ ← onfs (inode_lock i);
          st ← onfs (inode_stat i);
          _ ← onfs (inode_unlockput i);
          mret (0, Some st)
      end
  end.

(** Change the number of links of a locked inode and write it back. *)
Definition add_nlink (i : nat) (k : Z) : VFS unit :=
  _ ← onfs (upd_di i (λ d, set_nlink (sx 16 (nlink d + k)) d));
  onfs (inode_update i).

(** [new] as a second name of [old]; [bad] takes the link count back. *)
Definition sys_linkat (fd1 : Z) (old : list Z) (fd2 : Z) (new : list Z) (fl : Z) : VFS Z :=
  check_fd fd1 (check_fd fd2 (
    _ ← begin_op;
    o ← find_node (has_bit fl AT_SYMLINK_FOLLOW) fd1 old;
    match o with
    | None => _ ← end_op; mret (- ENOENT)
    | Some i =>
        _ ← onfs (inode_lock i);
        n ← the_node i;
        if S_ISDIR (mode (di n)) then _ ← onfs (inode_unlockput i); _ ← end_op; mret (- EISDIR)
        else
          _ ← add_nlink i 1;
          _ ← onfs (inode_unlock i);
          let bad e :=
            _ ← onfs (inode_lock i);
            _ ← add_nlink i (-1);
            _ ← onfs (inode_unlockput i);
            _ ← end_op;
            mret e in
          d ← nameiparent_with_fd fd2 new;
          match d with
          | None => bad (- ENOENT)
          | Some (dp, name) =>
              _ ← onfs (inode_lock dp);
              r ← onfs (dirlink dp name (inum n));
              if r <? 0 then _ ← onfs (inode_unlockput dp); bad r
              else
                _ ← onfs (inode_unlockput dp);
                _ ← onfs (inode_put i);
                _ ← end_op;
                mret 0
          end
    end)).

(** Only entries behind the first two count. *)
Fixpoint isdirempty_loop (dp : nat) (off : Z) (k : nat) : VFS bool :=
  match k with
  | O => fail EFuel
  | S k =>
      n ← the_node dp;
      if off <? size (di n) then
        '(r, bs) ← onfs (inode_read dev_read dp off DIRENT_SIZE);
        if r <? 0 then panic "isdirempty: inode_read"
        else if de_ino (put_bytes de 0 bs) =? 0 then isdirempty_loop dp (off + DIRENT_SIZE) k
        else mret false
      else mret true
  end.

Definition isdirempty (dp : nat) : VFS bool :=
  n ← the_node dp;
  isdirempty_loop dp (2 * DIRENT_SIZE) (dir_fuel (size (di n))).

(** [error] starts out as [EINVAL], without the sign. *)
Definition sys_unlinkat (fd : Z) (path : list Z) (fl : Z) : VFS Z :=
  check_fd fd (
    _ ← begin_op;
    o ← nameiparent_with_fd fd path;
    match o with
    | None => _ ← end_op; mret (- ENOENT)
    | Some (dp, name) =>
        let bad e := _ ← onfs (inode_unlockput dp); _ ← end_op; mret e in
        _ ← onfs (inode_lock dp);
        c1 ← lift (namecmp (name ++ [0]) (DOT ++ [0]));
        c2 ← lift (namecmp (name ++ [0]) (DOTDOT ++ [0]));
        if (c1 =? 0) || (c2 =? 0) then bad EINVAL
        else
          e ← onfs (dirlookup dp name);
          match e with
          | None => bad (- ENOENT)
          | Some (off, i) =>
              _ ← kernel_assert (negb (i =? dp)%nat);
              _ ← onfs (inode_lock i);
              n ← the_node i;
              if nlink (di n) <? 1 then _ ← onfs (inode_unlock i); _ ← end_op; mret (- ENOENT)
              else
                full ← (if S_ISDIR (mode (di n)) || has_bit fl AT_REMOVEDIR
                        then b ← isdirempty i; mret (negb b) else mret false);
                if (full : bool) then _ ← onfs (inode_unlockput i); bad (- ENOTEMPTY)
                else
                  r ← onfs (inode_write dev_write dp (replicate DIRENT_SIZE 0) off);
                  if s32 r <? 0 then
                    _ ← onfs (inode_unlockput i);
                    _ ← onfs (inode_unlockput dp);
                    _ ← end_op;
                    mret (s32 r)
                  else
                    n ← the_node i;
                    _ ← (if S_ISDIR (mode (di n)) then add_nlink dp (-1) else mret tt);
                    _ ← onfs (inode_unlockput dp);
                    _ ← add_nlink i (-1);
                    _ ← onfs (inode_unlockput i);
                    _ ← end_op;
                    mret 0
          end
    end).

Definition sys_openat (dirfd : Z) (path : list Z) (fl md umask : Z) : VFS Z :=
  check_fd dirfd (
    let md := if negb (Z.land fl O_CREATE =? O_CREATE) && negb (Z.land fl O_TMPFILE =? O_TMPFILE) then 0x1FF else md in
    vfs_openat self de new_ring dev_open dev_close dev_read dev_write dirfd (Some path) fl (Z.land md (u32 (Z.lnot umask)))).

Definition create_node (fd : Z) (path : list Z) (md dev : Z) : VFS Z :=
  _ ← begin_op;
  o ← vfs_locked_inode_create fd path md dev;
  match o with
  | None => _ ← end_op; mret (- ENOENT)
  | Some i => _ ← onfs (inode_unlockput i); _ ← end_op; mret 0
  end.

Definition sys_mkdirat (fd : Z) (path : list Z) (md umask : Z) : VFS Z :=
  check_fd fd (create_node fd path (Z.land (Z.lor S_IFDIR md) (u32 (Z.lnot umask))) 0).

Definition sys_mknodat (fd : Z) (path : list Z) (md dev : Z) : VFS Z :=
  check_fd fd (create_node fd path md dev).

Definition sys_chdir (path : list Z) : VFS Z :=
  _ ← begin_op;
  o ← resolve_nameat AT_FDCWD path;
  match o with
  | None => _ ← end_op; mret (- EINVAL)
  | Some i =>
      _ ← onfs (inode_lock i);
      n ← the_node i;
      if negb (S_ISDIR (mode (di n))) then _ ← onfs (inode_unlockput i); _ ← end_op; mret (- ENOTDIR)
      else
        _ ← onfs (inode_unlock i);
        c ← (λ s, from_option (cwd s !! self) s);
        _ ← onfs (inode_put c);
        _ ← end_op;
        _ ← modify (λ s, set_cwd (<[self := i]> (cwd s)) s);
        mret 0
  end.

(** The type of the inode with the new permissions. *)
Definition chmod_node (i : nat) (md : Z) : VFS Z :=
  _ ← begin_op;
  _ ← onfs (inode_lock i);
  _ ← onfs (upd_di i (λ d, set_mode (Z.lor (Z.land (mode d) S_IFMT) md) d));
  _ ← onfs (inode_update i);
  _ ← onfs (inode_unlock i);
  _ ← end_op;
  mret 0.

(** The error path calls [end_op] before there was a [begin_op]. *)
Definition sys_fchmodat (fd : Z) (path : list Z) (md fl : Z) : VFS Z :=
  check_fd fd (
    o ← find_node (negb (has_bit fl AT_SYMLINK_NOFOLLOW)) fd path;
    match o with
    | None => _ ← end_op; mret (- EINVAL)
    | Some i => chmod_node i md
    end).

Definition sys_fchmod (fd md : Z) : VFS Z :=
  r ← argfd fd;
  match r with
  | inl e => _ ← end_op; mret e
  | inr o => f ← from_option o; x ← the_file f; i ← from_option (ip x); chmod_node i md
  end.

Definition sys_symlinkat (target : list Z) (newdirfd : Z) (linkpath : list Z) : VFS Z :=
  check_fd newdirfd (
    _ ← begin_op;
    o ← namei_with_fd newdirfd linkpath;
    match o with
    | Some e => _ ← onfs (inode_put e); _ ← end_op; mret (- EEXIST)
    | None =>
        d ← nameiparent_with_fd newdirfd linkpath;
        match d with
        | None => _ ← end_op; mret (- ENOENT)
        | Some (dp, dir) =>
            _ ← onfs (inode_lock dp);
            e ← onfs (dirlookup dp dir);
            match e with
            | Some (_, i) =>
                _ ← onfs (inode_unlockput dp); _ ← onfs (inode_put i); _ ← end_op; mret (- EEXIST)
            | None =>
                _ ← onfs (inode_unlockput dp);
                c ← vfs_locked_inode_create newdirfd linkpath (Z.lor S_IFLNK S_IAUSR) 0;
                match c with
                | None => _ ← end_op; mret (- ENOSPC)
                | Some i =>
                    r ← onfs (inode_write dev_write i (target ++ [0]) 0);
                    _ ← onfs (inode_unlockput i);
                    _ ← end_op;
                    mret (if s32 r <? 0 then s32 r else 0)
                end
            end
        end
    end).

Definition sys_readlinkat (fd : Z) (pathname buf : list Z) : VFS (Z * list Z) :=
  r ← argfd fd;
  match r with
  | inl e => mret (e, buf)
  | inr _ =>
      _ ← begin_op;
      r ← filereadlinkat self de dev_read fd pathname buf;
      _ ← end_op;
      mret r
  end.

(** The first entry whose name begins with [dir] is moved; its number goes
    through a [uint16_t]. *)
Fixpoint rename_loop (dp ndp : nat) (dir newelem : list Z) (off : Z) (k : nat) : VFS Z :=
  match k with
  | O => fail EFuel
  | S k =>
      n ← the_node dp;
      if off <? size (di n) then
        '(r, bs) ← onfs (inode_read dev_read dp off DIRENT_SIZE);
        if negb (r =? DIRENT_SIZE) then
          _ ← end_op; _ ← onfs (inode_unlockput dp); _ ← onfs (inode_put ndp); mret (- ENOENT)
        else
          c ← lift (KString.strncmp (arena (de_name (put_bytes de 0 bs)) (dir ++ [0])) 4096 8192 (Nat.min (length dir) 255));
          if c =? 0 then
            let num := wrap 16 (de_ino (put_bytes de 0 bs)) in
            r ← onfs (inode_write dev_write dp (replicate DIRENT_SIZE 0) off);
            if negb (r =? DIRENT_SIZE) then
              _ ← end_op; _ ← onfs (inode_unlockput dp); _ ← onfs (inode_put ndp); mret (- ENOSPC)
            else
              _ ← (if (ndp =? dp)%nat then mret tt else onfs (inode_lock ndp));
              r ← onfs (dirlink ndp newelem num);
              _ ← (if (ndp =? dp)%nat then mret tt else onfs (inode_unlockput ndp));
              if r <? 0 then mret (- EEXIST)
              else _ ← onfs (inode_unlockput dp); _ ← end_op; mret 0
          else rename_loop dp ndp dir newelem (off + DIRENT_SIZE) k
      else _ ← onfs (inode_unlockput dp); _ ← onfs (inode_put ndp); _ ← end_op; mret (- ENOENT)
  end.

Definition sys_renameat (fd1 : Z) (oldpath : list Z) (fd2 : Z) (newpath : list Z) : VFS Z :=
  check_fd fd1 (check_fd fd2 (
    _ ← begin_op;
    o1 ← namei_with_fd AT_FDCWD oldpath;
    match o1 with
    | None => _ ← end_op; mret (- ENOENT)
    | Some i1 =>
        _ ← onfs (inode_put i1);
        o2 ← nameiparent_with_fd AT_FDCWD newpath;
        match o2 with
        | None => _ ← end_op; mret (- ENOENT)
        | Some (i2, newelem) =>
            _ ← onfs (inode_put i2);
            d ← nameiparent_with_fd fd1 oldpath;
            nd ← nameiparent_with_fd fd2 newpath;
            match d, nd with
            | None, None => _ ← end_op; mret (- ENOENT)
            | None, Some (ndp, _) => _ ← onfs (inode_put ndp); _ ← end_op; mret (- ENOENT)
            | Some (dp, _), None => _ ← onfs (inode_put dp); _ ← end_op; mret (- ENOENT)
            | Some (dp, dir), Some (ndp, _) =>
                _ ← onfs (inode_lock dp);
                n ← the_node dp;
                rename_loop dp ndp dir newelem (2 * DIRENT_SIZE) (dir_fuel (size (di n)))
            end
        end
    end)).

(** ** Permissions *)

Definition F_OK : Z := 0.
Definition X_OK : Z := 1.
Definition W_OK : Z := 2.
Definition R_OK : Z := 4.

(** One of the three tests: the bits looked up in [mode] are those of the
    argument. *)
Definition access_ok (md want usr grp oth : Z) (correct_uid correct_gid : bool) : bool :=
  if Z.land md want =? want then
    ((Z.land md usr =? usr) && correct_uid) || ((Z.land md grp =? grp) && correct_gid) || (Z.land md oth =? oth)
  else true.

(** The user and the groups of the process. *)
Record cred := mkcred { cr_uid : Z; cr_gids : list Z }.

Definition is_in_group (group : Z) (c : cred) : bool := bool_decide (group ∈ cr_gids c).

Definition sys_faccessat (c : cred) (fd : Z) (path : list Z) (md : Z) : VFS Z :=
  check_fd fd (
    _ ← begin_op;
    o ← namei_with_fd fd path;
    match o with
    | None => _ ← end_op; mret (- ENOENT)
    | Some i =>
        if md =? F_OK then _ ← onfs (inode_put i); _ ← end_op; mret 0
        else
          _ ← onfs (inode_lock i);
          n ← the_node i;
          let correct_uid := (cr_uid c =? 0) || (cr_uid c =? uid (di n)) in
          let correct_gid := is_in_group (gid (di n)) c in
          _ ← onfs (inode_unlockput i);
          _ ← end_op;
          if access_ok md R_OK 0x100 0x20 0x4 correct_uid correct_gid &&
             access_ok md W_OK 0x80 0x10 0x2 correct_uid correct_gid &&
             access_ok md X_OK 0x40 0x8 0x1 correct_uid correct_gid
          then mret 0 else mret (-1)
    end).

End calls.
End Sysfile.
