(* ===== verification/FileRef.v ===== *)
(** * The reference counts of open files

    [ref] of an entry of the file table counts the descriptors that name it,
    and the two ends a FIFO keeps.  The first part shows which calls leave the
    counts and the descriptors alone; the second follows the ones that do not. *)

From S2P Require Import Prelude Mem Words Block Bio Log CType KString Fs RingBuf Pipe File Sysfile.

Module FileRef.
Import Block Fs File Sysfile.

(** ** What the counts depend on *)

Definition shape (x : file) : Z * ftype := (ref x, type x).
Definition refs (s : vfs) := (shape <$> file_table s, ofile s, rf s, wf s).

Definition quiet {A} (m : VFS A) : Prop := ∀ s, wlp m (λ _ s', refs s' = refs s) s.

Lemma quiet_ret {A} (a : A) : quiet (mret a).
Proof. done. Qed.

Lemma quiet_bind {A B} (m : VFS A) (k : A → VFS B) : quiet m → (∀ a, quiet (k a)) → quiet (m ≫= k).
Proof.
  intros Hm Hk s. apply wlp_bind. eapply wlp_mono; [apply Hm|]. cbn. intros a s' E.
  eapply wlp_mono; [apply Hk|]. cbn. by intros _ t ->.
Qed.

Lemma quiet_fail {A} e : quiet (fail e : VFS A).
Proof. done. Qed.

Lemma quiet_panic {A} e : quiet (panic e : VFS A).
Proof. done. Qed.

Lemma quiet_gets {A} (g : vfs → A) : quiet (gets g).
Proof. done. Qed.

Lemma quiet_modify g : (∀ s, refs (g s) = refs s) → quiet (modify g).
Proof. intros H s. apply H. Qed.

Lemma quiet_from_option {A} (o : option A) : quiet (from_option o).
Proof. by destruct o. Qed.

(** A field that may be a null pointer. *)
Lemma quiet_field {A} (o : vfs → option A) : quiet (λ s, from_option (o s) s).
Proof. intros s. unfold wlp. by destruct (o s). Qed.

Lemma quiet_lift {A} (r : res A) : quiet (lift r).
Proof. by destruct r. Qed.

Lemma quiet_assert b : quiet (kernel_assert b).
Proof. by destruct b. Qed.

Lemma quiet_onfs {A} (m : FS A) : quiet (onfs m).
Proof. intros s. unfold wlp, onfs. destruct (m (fsys s)) as [[]|]; [|done]. by destruct (_ && _). Qed.

Lemma quiet_upd_file f g : (∀ x, shape (g x) = shape x) → quiet (upd_file f g).
Proof.
  intros H. apply quiet_modify. intros s. unfold refs. cbn. do 3 f_equal. apply list_eq. intros i.
  rewrite !list_lookup_fmap, list_lookup_alter. case_decide as Hi; [subst i|done].
  destruct (file_table s !! f) as [y|]; [|done]. change (Some (shape (g y)) = Some (shape y)). by rewrite H.
Qed.

Create HintDb quiet discriminated.

(** One step of a call that leaves the counts alone. *)
Ltac quiet_step :=
  lazymatch goal with
  | |- quiet (let _ := _ in _) => cbv zeta
  | |- quiet (mbind _ _) => apply quiet_bind; [|intros ?]
  | |- quiet (mret _) => apply quiet_ret
  | |- quiet (fail _) => apply quiet_fail
  | |- quiet (panic _) => apply quiet_panic
  | |- quiet (gets _) => apply quiet_gets
  | |- quiet (from_option _) => apply quiet_from_option
  | |- quiet (lift _) => apply quiet_lift
  | |- quiet (kernel_assert _) => apply quiet_assert
  | |- quiet (onfs _) => apply quiet_onfs
  | |- quiet (the_node _) => apply quiet_onfs
  | |- quiet (modify _) => apply quiet_modify; intros; reflexivity
  | |- quiet (upd_file _ _) => apply quiet_upd_file; intros; reflexivity
  | |- quiet (match ?x with _ => _ end) => destruct x
  | |- quiet ((match ?x with _ => _ end) _) => destruct x; cbn beta
  | |- quiet (λ _, from_option _ _) => apply quiet_field
  | |- _ => solve [auto with quiet]
  end.
Ltac quiet := repeat quiet_step.

Lemma quiet_the_file f : quiet (the_file f).
Proof. apply quiet_field. Qed.

Lemma quiet_begin_op : quiet begin_op.
Proof. unfold begin_op. quiet. Qed.

Lemma quiet_end_op : quiet end_op.
Proof. unfold end_op. quiet. Qed.

Lemma quiet_the_pipe p : quiet (the_pipe p).
Proof. unfold the_pipe. quiet. Qed.

Lemma quiet_put_pipe p x : quiet (put_pipe p x).
Proof. unfold put_pipe. quiet. Qed.

#[export] Hint Resolve quiet_the_file quiet_begin_op quiet_end_op quiet_the_pipe quiet_put_pipe : quiet.

Lemma quiet_pipeclose p w : quiet (pipeclose p w).
Proof. unfold pipeclose. quiet. Qed.

Lemma quiet_settle p o : quiet (settle p o).
Proof. unfold settle. quiet. Qed.

Lemma quiet_int_inc v : quiet (int_inc v).
Proof. unfold int_inc. quiet. Qed.

#[export] Hint Resolve quiet_pipeclose quiet_settle quiet_int_inc : quiet.

Section calls.
Context (self : nat) (killed : bool) (de : list Z) (new_ring : option RingBuf.ring_buf).
Context (dev_open : Z → option (Z → Z → VFS Z)) (dev_close : Z → option (Z → VFS Z)).
Context (dev_read : Z → option (Z → nat → Z → FS (Z * list Z))).
Context (dev_write : Z → option (Z → nat → list Z → FS Z)).

(** *** Names *)

Lemma quiet_fd_to_struct_file fd : quiet (fd_to_struct_file self fd).
Proof. unfold fd_to_struct_file. quiet. Qed.
Hint Resolve quiet_fd_to_struct_file : quiet.

Lemma quiet_start_dir fd path : quiet (start_dir self fd path).
Proof. unfold start_dir. quiet. Qed.
Hint Resolve quiet_start_dir : quiet.

Lemma quiet_namei fd path : quiet (namei_with_fd self de dev_read fd path).
Proof. unfold namei_with_fd. quiet. Qed.

Lemma quiet_nameiparent fd path : quiet (nameiparent_with_fd self de dev_read fd path).
Proof. unfold nameiparent_with_fd. quiet. Qed.
Hint Resolve quiet_namei quiet_nameiparent : quiet.

Lemma quiet_readlink_loop fuel : ∀ i k buf n, quiet (readlink_loop self de dev_read i k buf n fuel).
Proof. induction fuel; intros; cbn [readlink_loop]; quiet. Qed.
Hint Resolve quiet_readlink_loop : quiet.

Lemma quiet_filereadlinkat fd path buf : quiet (filereadlinkat self de dev_read fd path buf).
Proof. unfold filereadlinkat. quiet. Qed.
Hint Resolve quiet_filereadlinkat : quiet.

Lemma quiet_resolve_nameat fd path : quiet (resolve_nameat self de dev_read fd path).
Proof. unfold resolve_nameat. quiet. Qed.
Hint Resolve quiet_resolve_nameat : quiet.

Lemma quiet_lookup_path fd path fl : quiet (lookup_path self de dev_read fd path fl).
Proof. unfold lookup_path. quiet. Qed.

Lemma quiet_create fd path md dev : quiet (vfs_locked_inode_create self de dev_read dev_write fd path md dev).
Proof. unfold vfs_locked_inode_create. quiet. Qed.
Hint Resolve quiet_lookup_path quiet_create : quiet.

(** *** Reading and writing *)

Lemma quiet_vfs_stat f : quiet (vfs_stat f).
Proof. unfold vfs_stat. quiet. Qed.

Lemma quiet_vfs_read f n : quiet (vfs_read killed dev_read f n).
Proof. unfold vfs_read. quiet. Qed.

Lemma quiet_fileseek f n w : quiet (fileseek f n w).
Proof. unfold fileseek. quiet. Qed.

Lemma quiet_write_loop fuel : ∀ f i addr n k, quiet (write_loop dev_write f i addr n k fuel).
Proof. induction fuel; intros; cbn [write_loop]; quiet. Qed.
Hint Resolve quiet_vfs_stat quiet_vfs_read quiet_fileseek quiet_write_loop : quiet.

Lemma quiet_vfs_write f addr : quiet (vfs_write killed dev_write f addr).
Proof. unfold vfs_write. quiet. Qed.
Hint Resolve quiet_vfs_write : quiet.

(** *** System calls *)

Lemma quiet_argfd fd : quiet (argfd self fd).
Proof. unfold argfd. quiet. Qed.
Hint Resolve quiet_argfd : quiet.

Lemma quiet_check_fd fd k : quiet k → quiet (check_fd self fd k).
Proof. intros. unfold check_fd. quiet. Qed.

Lemma quiet_with_file fd k : (∀ f, quiet (k f)) → quiet (with_file self fd k).
Proof. intros. unfold with_file. quiet. Qed.
Hint Resolve quiet_check_fd quiet_with_file : quiet.

Lemma quiet_read fd n : quiet (sys_read self killed dev_read fd n).
Proof. unfold sys_read. quiet. Qed.

Lemma quiet_write fd p : quiet (sys_write self killed dev_write fd p).
Proof. unfold sys_write. quiet. Qed.

Lemma quiet_writev_loop k : ∀ f p b, quiet (writev_loop killed dev_write f p k b).
Proof. induction k; intros; cbn [writev_loop]; quiet. Qed.
Hint Resolve quiet_writev_loop : quiet.

Lemma quiet_writev fd l : quiet (sys_writev self killed dev_write fd l).
Proof. unfold sys_writev. apply quiet_with_file. intros. quiet. Qed.

Lemma quiet_fstat fd : quiet (sys_fstat self fd).
Proof. unfold sys_fstat. quiet. Qed.

Lemma quiet_lseek fd o w : quiet (sys_lseek self fd o w).
Proof. unfold sys_lseek, file_node. apply quiet_with_file. intros. quiet. Qed.

Lemma quiet_find_node b fd path : quiet (find_node self de dev_read b fd path).
Proof. unfold find_node. quiet. Qed.

Lemma quiet_add_nlink i k : quiet (add_nlink i k).
Proof. unfold add_nlink. quiet. Qed.
Hint Resolve quiet_find_node quiet_add_nlink : quiet.

Lemma quiet_fstatat fd path fl : quiet (sys_fstatat self de dev_read fd path fl).
Proof. unfold sys_fstatat. quiet. Qed.

Lemma quiet_linkat fd1 old fd2 new fl : quiet (sys_linkat self de dev_read dev_write fd1 old fd2 new fl).
Proof. unfold sys_linkat. do 2 apply quiet_check_fd. quiet. Qed.

Lemma quiet_isdirempty_loop k : ∀ dp off, quiet (isdirempty_loop de dev_read dp off k).
Proof. induction k; intros; cbn [isdirempty_loop]; quiet. Qed.
Hint Resolve quiet_isdirempty_loop : quiet.

Lemma quiet_isdirempty dp : quiet (isdirempty de dev_read dp).
Proof. unfold isdirempty. quiet. Qed.
Hint Resolve quiet_isdirempty : quiet.

Lemma quiet_unlinkat fd path fl : quiet (sys_unlinkat self de dev_read dev_write fd path fl).
Proof. unfold sys_unlinkat. apply quiet_check_fd. quiet. Qed.

Lemma quiet_create_node fd path md dev : quiet (create_node self de dev_read dev_write fd path md dev).
Proof. unfold create_node. quiet. Qed.
Hint Resolve quiet_create_node : quiet.

Lemma quiet_mkdirat fd path md um : quiet (sys_mkdirat self de dev_read dev_write fd path md um).
Proof. unfold sys_mkdirat. quiet. Qed.

Lemma quiet_mknodat fd path md dev : quiet (sys_mknodat self de dev_read dev_write fd path md dev).
Proof. unfold sys_mknodat. quiet. Qed.

Lemma quiet_chdir path : quiet (sys_chdir self de dev_read path).
Proof. unfold sys_chdir. quiet. Qed.

Lemma quiet_chmod_node i md : quiet (chmod_node i md).
Proof. unfold chmod_node. quiet. Qed.
Hint Resolve quiet_chmod_node : quiet.

Lemma quiet_fchmodat fd path md fl : quiet (sys_fchmodat self de dev_read fd path md fl).
Proof. unfold sys_fchmodat. apply quiet_check_fd. quiet. Qed.

Lemma quiet_fchmod fd md : quiet (sys_fchmod self fd md).
Proof. unfold sys_fchmod. quiet. Qed.

Lemma quiet_symlinkat target fd path : quiet (sys_symlinkat self de dev_read dev_write target fd path).
Proof. unfold sys_symlinkat. apply quiet_check_fd. quiet. Qed.

Lemma quiet_readlinkat fd path buf : quiet (sys_readlinkat self de dev_read fd path buf).
Proof. unfold sys_readlinkat. quiet. Qed.

Lemma quiet_rename_loop k : ∀ dp ndp dir e off, quiet (rename_loop de dev_read dev_write dp ndp dir e off k).
Proof. induction k; intros; cbn [rename_loop]; quiet. Qed.
Hint Resolve quiet_rename_loop : quiet.

Lemma quiet_renameat fd1 old fd2 new : quiet (sys_renameat self de dev_read dev_write fd1 old fd2 new).
Proof. unfold sys_renameat. do 2 apply quiet_check_fd. quiet. Qed.

Lemma quiet_faccessat c fd path md : quiet (sys_faccessat self de dev_read c fd path md).
Proof. unfold sys_faccessat. apply quiet_check_fd. quiet. Qed.

End calls.

(** ** Counting *)

Definition fd_uses (f : nat) (l : list (option nat)) : nat := length (filter (.= Some f) l).
Definition fds (o : list (list (option nat))) (f : nat) : nat := sum_list_with (fd_uses f) o.

(** The inodes that keep [f] as an end of their FIFO. *)
Definition keeps (m : gmap nat nat) (f : nat) : nat := base.size (filter (λ kv, kv.2 = f) m).
Definition ends (s : vfs) (f : nat) : nat := (keeps (rf s) f + keeps (wf s) f)%nat.

Definition one (f g : nat) : nat := if decide (f = g) then 1%nat else 0%nat.
Definition plus1 (f : nat) (c : nat → nat) (g : nat) : nat := (one f g + c g)%nat.

(** Every use of a file is counted: the uses of [c], and those of the FIFOs.
    The count is exact but for the ends of FIFOs, whose files are never given
    back. *)
Record counted (c : nat → nat) (s : vfs) : Prop := {
  ct_ref : ∀ f x, file_table s !! f = Some x →
    c f + ends s f ≤ ref x ∧ (ends s f = 0%nat → ref x = c f);
  ct_fifo : ∀ f x, file_table s !! f = Some x → type x = FD_FIFO → (0 < ends s f)%nat;
  ct_in : ∀ f, (0 < c f + ends s f)%nat → (f < length (file_table s))%nat;
}.

Definition refs_ok (s : vfs) : Prop := counted (fds (ofile s)) s.

Lemma counted_ext c c' s : (∀ f, c f = c' f) → counted c s → counted c' s.
Proof.
  intros E [H1 H2 H3]. split; [|done|].
  - intros f x Hx. rewrite <- E. by apply H1.
  - intros f. rewrite <- E. apply H3.
Qed.

(** Only the counts, the types and the FIFOs matter. *)
Lemma counted_same c s s' :
  shape <$> file_table s' = shape <$> file_table s → rf s' = rf s → wf s' = wf s → counted c s → counted c s'.
Proof.
  intros Ef Er Ew [H1 H2 H3].
  assert (∀ f, ends s' f = ends s f) as Ee by (intros f; unfold ends; by rewrite Er, Ew).
  assert (∀ f x, file_table s' !! f = Some x → ∃ y, file_table s !! f = Some y ∧ shape x = shape y) as Hl.
  { intros f x Hx. assert ((shape <$> file_table s) !! f = Some (shape x)) as E by by rewrite <- Ef, list_lookup_fmap, Hx.
    apply list_lookup_fmap_Some in E as (y & Hy & ->). by exists y. }
  split.
  - intros f x Hx. destruct (Hl f x Hx) as (y & Hy & [= -> _]). rewrite Ee. by apply H1.
  - intros f x Hx. destruct (Hl f x Hx) as (y & Hy & [= _ ->]). rewrite Ee. by apply H2.
  - intros f. rewrite Ee. intros Hf. apply H3 in Hf. apply (f_equal length) in Ef. rewrite !length_fmap in Ef. lia.
Qed.

Lemma counted_refs c s s' : refs s' = refs s → counted c s → counted c s'.
Proof. intros [= E1 _ E2 E3]. by apply counted_same. Qed.

(** A change of one file. *)
Lemma counted_upd c c' s f x g :
  counted c s → file_table s !! f = Some x → (∀ h, h ≠ f → c' h = c h) →
  c' f + ends s f ≤ ref (g x) → (ends s f = 0%nat → ref (g x) = c' f) → (type (g x) = FD_FIFO → (0 < ends s f)%nat) →
  counted c' (set_file_table (alter g f (file_table s)) s).
Proof.
  intros [H1 H2 H3] Hx Hc Hle Heq Hty.
  assert (∀ h y, alter g f (file_table s) !! h = Some y → (h = f ∧ y = g x) ∨ (h ≠ f ∧ file_table s !! h = Some y)) as Hl.
  { intros h y. rewrite list_lookup_alter. case_decide as E; [subst h|by right]. rewrite Hx. intros [= <-]. by left. }
  split; cbn.
  - intros h y Hy. destruct (Hl h y Hy) as [[-> ->]|[Hne Hh]]; [done|]. rewrite Hc by done. by apply H1.
  - intros h y Hy. destruct (Hl h y Hy) as [[-> ->]|[Hne Hh]]; [done|]. by apply H2.
  - intros h Hh. rewrite length_alter. destruct (decide (h = f)) as [->|Hne]; [by eapply lookup_lt_Some|].
    apply H3. by rewrite <- Hc.
Qed.

(** A FIFO keeps its ends. *)
Lemma keeps_insert m i f g : m !! i = None → keeps (<[i := f]> m) g = (one f g + keeps m g)%nat.
Proof.
  intros Hi. unfold keeps, one. rewrite map_filter_insert. cbn. case_decide as E.
  - rewrite map_size_insert_None; [done|]. apply map_lookup_filter_None. by left.
  - by rewrite delete_id.
Qed.

Lemma end_kept m i f : m !! i = Some f → (0 < keeps m f)%nat.
Proof.
  intros Hi. unfold keeps. apply Nat.neq_0_lt_0. rewrite map_size_ne_0_lookup. exists i, f.
  by apply map_lookup_filter_Some.
Qed.

(** One entry of a descriptor table. *)
Definition slot (o : option nat) (f : nat) : nat := match o with Some g => one g f | None => 0%nat end.

Lemma slot_decide o f : slot o f = if decide (o = Some f) then 1%nat else 0%nat.
Proof. destruct o as [g|]; cbn; unfold one; repeat case_decide; congruence. Qed.

Lemma fd_uses_insert f l k v o : l !! k = Some o → (fd_uses f (<[k := v]> l) + slot o f = fd_uses f l + slot v f)%nat.
Proof.
  rewrite !slot_decide.
  unfold fd_uses. revert k. induction l as [|a l IH]; intros [|k] Hk; [done|done| |].
  - injection Hk as ->. change (<[0%nat := v]> (o :: l)) with (v :: l). rewrite !filter_cons.
    repeat case_decide; cbn [length]; lia.
  - change (<[S k := v]> (a :: l)) with (a :: <[k := v]> l). rewrite !filter_cons. specialize (IH k Hk).
    repeat case_decide; cbn [length] in *; lia.
Qed.

Lemma fds_insert f o p l l' : o !! p = Some l → (fds (<[p := l']> o) f + fd_uses f l = fds o f + fd_uses f l')%nat.
Proof.
  unfold fds. revert p. induction o as [|a o IH]; intros [|p] Hp; [done|done| |].
  - injection Hp as ->. change (<[0%nat := l']> (l :: o)) with (l' :: o). cbn [sum_list_with]. lia.
  - change (<[S p := l']> (a :: o)) with (a :: <[p := l']> o). cbn [sum_list_with]. specialize (IH p Hp). lia.
Qed.

(** ** The calls that move references *)

(** The descriptors and the FIFOs are as they were. *)
Definition kept (s s' : vfs) : Prop := ofile s' = ofile s ∧ rf s' = rf s ∧ wf s' = wf s.

Lemma kept_refs s s' : refs s' = refs s → kept s s'.
Proof. by intros [= _ E1 E2 E3]. Qed.

Lemma kept_trans s s' s'' : kept s s' → kept s' s'' → kept s s''.
Proof. intros (E1 & E2 & E3) (F1 & F2 & F3). by repeat split; etrans. Qed.

Lemma kept_ends s s' f : kept s s' → ends s' f = ends s f.
Proof. intros (_ & E1 & E2). unfold ends. by rewrite E1, E2. Qed.

Lemma wlp_quiet {A B} (m : VFS A) (k : A → VFS B) Q s :
  quiet m → (∀ a s', refs s' = refs s → wlp (k a) Q s') → wlp (m ≫= k) Q s.
Proof. intros Hm Hk. apply wlp_bind. eapply wlp_mono; [apply Hm|]. apply Hk. Qed.

(** The result of a call that ends in [k], whatever comes before. *)
Lemma wlp_any {A B} (m : VFS A) (k : A → VFS B) Q s : (∀ a t, wlp (k a) Q t) → wlp (m ≫= k) Q s.
Proof. intros H. apply wlp_bind. unfold wlp at 1. destruct (m s) as [[a t]|]; [apply H|done]. Qed.

Lemma one_refl f : one f f = 1%nat.
Proof. unfold one. by rewrite decide_True. Qed.

Lemma one_other f g : g ≠ f → one f g = 0%nat.
Proof. intros. unfold one. by rewrite decide_False. Qed.

Lemma plus1_other f c g : g ≠ f → plus1 f c g = c g.
Proof. intros. unfold plus1. by rewrite one_other. Qed.

(** *** Taking and giving back a reference *)

Lemma first_unused_some l f : first_unused l = Some f → ∃ x, l !! f = Some x ∧ ref x = 0.
Proof.
  revert f. induction l as [|x l IH]; intros f; cbn; [done|]. destruct (Z.eqb_spec (ref x) 0) as [E|_].
  - intros [= <-]. by exists x.
  - destruct (first_unused l) as [g|]; [|done]. intros [= <-]. apply (IH g eq_refl).
Qed.

(** A free entry has no uses. *)
Lemma counted_free c s f x : counted c s → file_table s !! f = Some x → ref x ≤ 0 → c f = 0%nat ∧ ends s f = 0%nat.
Proof. intros H Hx Hr. destruct (ct_ref _ _ H f x Hx). lia. Qed.

Lemma wlp_filealloc c s : counted c s →
  wlp filealloc (λ o s', kept s s' ∧ match o with Some f => counted (plus1 f c) s' | None => counted c s' end) s.
Proof.
  intros H. unfold filealloc. apply wlp_bind, wlp_gets. destruct (first_unused (file_table s)) as [f|] eqn:E; [|done].
  destruct (first_unused_some _ _ E) as (x & Hx & Hr). destruct (counted_free c s f x H Hx ltac:(lia)) as [Hc He].
  apply wlp_bind, wlp_modify, wlp_ret. split; [done|]. apply (counted_upd c _ _ _ x); try done.
  - intros h Hh. by apply plus1_other.
  - unfold plus1. rewrite one_refl. cbn. lia.
  - intros _. unfold plus1. rewrite one_refl. cbn. lia.
  - intros Ht. by apply (ct_fifo _ _ H f x).
Qed.

Lemma wlp_the_file f Q s : (∀ x, file_table s !! f = Some x → Q x s) → wlp (the_file f) Q s.
Proof. intros H. unfold the_file, wlp. destruct (file_table s !! f) as [x|]; [|done]. by apply H. Qed.

Lemma wlp_ref_up c s f : counted c s → wlp (ref_up f) (λ _ s', kept s s' ∧ counted (plus1 f c) s') s.
Proof.
  intros H. unfold ref_up. apply wlp_bind, wlp_the_file. intros x Hx. apply wlp_bind. unfold int_inc.
  destruct (INT_MAX <=? ref x); [done|]. apply wlp_ret, wlp_modify. split; [done|].
  destruct (ct_ref _ _ H f x Hx) as [H1 H2]. apply (counted_upd c _ _ _ x); try done.
  - intros h Hh. by apply plus1_other.
  - unfold plus1. rewrite one_refl. cbn. lia.
  - intros He. unfold plus1. rewrite one_refl. cbn. specialize (H2 He). lia.
  - intros Ht. by apply (ct_fifo _ _ H f x).
Qed.

Lemma wlp_filedup c s f fl : counted c s → wlp (filedup f fl) (λ _ s', kept s s' ∧ counted (plus1 f c) s') s.
Proof.
  intros H. unfold filedup. apply wlp_bind, wlp_the_file. intros x Hx. destruct (ref x <? 1); [done|].
  apply wlp_bind. eapply wlp_mono; [by apply wlp_ref_up|]. intros _ s' [Hk H']. apply wlp_quiet; [quiet|].
  intros _ s'' E. apply wlp_ret. split; [by eapply kept_trans, kept_refs|]. by eapply counted_refs.
Qed.

Lemma alter_none {A} (g : A → A) (f : nat) (l : list A) : l !! f = None → alter g f l = l.
Proof. revert f. induction l as [|x l IH]; intros [|f] H; [done|done|done|]. cbn. f_equal. by apply IH. Qed.

(** A change that keeps the count and makes no FIFO. *)
Lemma counted_retype c s f g :
  counted c s → (∀ x, ref (g x) = ref x) →
  (∀ x, file_table s !! f = Some x → type (g x) = FD_FIFO → (0 < ends s f)%nat) →
  counted c (set_file_table (alter g f (file_table s)) s).
Proof.
  intros H Hr Ht. destruct (file_table s !! f) as [x|] eqn:Hx.
  - destruct (ct_ref _ _ H f x Hx). apply (counted_upd c _ _ _ x); rewrite ?Hr; eauto.
  - rewrite alter_none by done. by destruct s.
Qed.

Section moves.
Context (self : nat) (killed : bool) (de : list Z) (new_ring : option RingBuf.ring_buf).
Context (dev_open : Z → option (Z → Z → VFS Z)) (dev_close : Z → option (Z → VFS Z)).
Context (dev_read : Z → option (Z → nat → Z → FS (Z * list Z))).
Context (dev_write : Z → option (Z → nat → list Z → FS Z)).

(** The drivers have no business with the file table. *)
Hypothesis open_quiet : ∀ m k a b, dev_open m = Some k → quiet (k a b).
Hypothesis close_quiet : ∀ m k a, dev_close m = Some k → quiet (k a).

Lemma quiet_dev_close n k a : dev_of dev_close n = Some k → quiet (k a).
Proof. unfold dev_of. case_match; [done|]. by apply close_quiet. Qed.

(** What is left to do when the last reference is gone. *)
Lemma wlp_gone c s f (rest : VFS Z) :
  counted c s → c f = 0%nat → ends s f = 0%nat → quiet rest →
  wlp (upd_file f (λ x, set_flags 0 (set_type FD_NONE (set_fref 0 x))) ≫= λ _, rest)
    (λ _ s', kept s s' ∧ counted c s') s.
Proof.
  intros H Hc He Hq. apply wlp_bind, wlp_modify. eapply wlp_mono; [apply Hq|]. cbn. intros _ s' E.
  split; [by eapply kept_trans; [|by apply kept_refs]|]. eapply counted_refs; [done|].
  destruct (file_table s !! f) as [y|] eqn:Hy.
  - apply (counted_upd c _ _ _ y); cbn; lia || done.
  - rewrite alter_none by done. by destruct s.
Qed.

Lemma wlp_vfs_close c s f : counted (plus1 f c) s →
  wlp (vfs_close dev_close f) (λ _ s', kept s s' ∧ counted c s') s.
Proof.
  intros H. unfold vfs_close. apply wlp_bind, wlp_the_file. intros x Hx. destruct (Z.ltb_spec (ref x) 1) as [|Hr]; [done|].
  apply wlp_bind, wlp_modify. set (s1 := set_file_table _ s).
  destruct (ct_ref _ _ H f x Hx) as [H1 H2]. unfold plus1 in H1, H2. rewrite one_refl in H1, H2.
  assert (counted c s1) as Hs1.
  { apply (counted_upd (plus1 f c) _ _ _ x); cbn; try done.
    - intros h Hh. by rewrite plus1_other.
    - lia.
    - intros He. specialize (H2 He). lia.
    - intros Ht. by apply (ct_fifo _ _ H f x). }
  destruct (Z.ltb_spec 0 (ref x - 1)) as [|Hlast]; [by apply wlp_ret; auto|].
  assert (c f = 0%nat ∧ ends s f = 0%nat) as [Hc He] by lia.
  assert (type x ≠ FD_FIFO) as Hty by (intros Ht; pose proof (ct_fifo _ _ H f x Hx Ht); lia).
  apply wlp_quiet; [quiet|]. intros i s2 E2. apply wlp_quiet; [quiet|]. intros n s3 E3.
  assert (refs s3 = refs s1) as E by (by rewrite E3).
  assert (∀ t (rest : VFS Z), refs t = refs s1 → quiet rest →
    wlp (upd_file f (λ x, set_flags 0 (set_type FD_NONE (set_fref 0 x))) ≫= λ _, rest) (λ _ s', kept s s' ∧ counted c s') t) as G.
  { intros t rest Et Hq. assert (kept s t) as Hk by by apply (kept_trans _ s1), kept_refs.
    eapply wlp_mono; [apply (wlp_gone c)|]; try done.
    - by eapply counted_refs.
    - by rewrite (kept_ends s t).
    - cbn. intros _ s' [Hk' Hs']. split; [by eapply kept_trans|done]. }
  destruct (S_ISCHR (mode (di n))).
  - destruct (dev_of dev_close n) as [k|] eqn:Ek.
    + apply wlp_quiet; [by eapply quiet_dev_close|]. intros _ s4 E4. apply G; [by rewrite E4|]. destruct (type x); [quiet..|done].
    + apply wlp_ret. split; [by apply (kept_trans _ s1), kept_refs|by eapply counted_refs].
  - apply G; [done|]. destruct (type x); [quiet..|done].
Qed.

(** *** Descriptors *)

Lemma first_null_some l k : first_null l = Some k → l !! k = Some None.
Proof.
  revert k. induction l as [|[g|] l IH]; intros k; cbn; [done| |by intros [= <-]].
  destruct (first_null l) as [j|]; [|done]. intros [= <-]. by apply IH.
Qed.

(** Storing in a slot of the table of the process. *)
Lemma fds_store s k v o g : my_ofile self s !! k = Some o →
  (fds (ofile (set_my_ofile self (<[k := v]> (my_ofile self s)) s)) g + slot o g = fds (ofile s) g + slot v g)%nat.
Proof.
  unfold my_ofile, set_my_ofile. cbn [ofile set_ofile]. destruct (ofile s !! self) as [l|] eqn:Hl; [|done]. cbn [default]. intros Hk.
  pose proof (fds_insert g (ofile s) self l (<[k := v]> l) Hl) as E1. pose proof (fd_uses_insert g l k v o Hk) as E2.
  change (id l) with l. lia.
Qed.

Lemma my_ofile_set s l : self < length (ofile s) → my_ofile self (set_my_ofile self l s) = l.
Proof. intros H. unfold my_ofile, set_my_ofile. cbn. rewrite list_lookup_insert_eq by lia. done. Qed.

Lemma my_ofile_in s k o : my_ofile self s !! k = Some o → self < length (ofile s).
Proof. unfold my_ofile. destruct (ofile s !! self) eqn:E; [|done]. intros _. apply lookup_lt_Some in E. lia. Qed.

(** A descriptor for [f] uses one more reference. *)
Lemma wlp_fdalloc s f :
  wlp (fdalloc self f) (λ fd s',
    file_table s' = file_table s ∧ rf s' = rf s ∧ wf s' = wf s ∧
    (fd < 0 ∧ s' = s ∨
     0 ≤ fd ∧ my_ofile self s' !! Z.to_nat fd = Some (Some f) ∧ ∀ g, fds (ofile s') g = plus1 f (fds (ofile s)) g)) s.
Proof.
  unfold fdalloc. apply wlp_bind, wlp_gets. destruct (first_null (my_ofile self s)) as [k|] eqn:E.
  - apply first_null_some in E. apply wlp_bind, wlp_modify, wlp_ret. split_and!; [done..|]. right. split; [lia|]. rewrite Nat2Z.id. split.
    + rewrite my_ofile_set by by eapply my_ofile_in. apply list_lookup_insert_eq. by eapply lookup_lt_Some.
    + intros g. pose proof (fds_store s k (Some f) None g E) as Ef. cbn [slot] in Ef. unfold plus1. lia.
  - apply wlp_ret. split_and!; [done..|]. left. done.
Qed.

Lemma counted_table c s s' :
  file_table s' = file_table s → rf s' = rf s → wf s' = wf s → counted c s → counted c s'.
Proof. intros E. apply counted_same. by rewrite E. Qed.

(** *** Pipes *)

Lemma wlp_pipealloc c s : counted c s →
  wlp (pipealloc new_ring dev_close) (λ '(e, o0, o1) s', kept s s' ∧
    (e < 0 ∧ counted c s' ∨
     e = 0 ∧ ∃ r w, o0 = Some r ∧ o1 = Some w ∧ counted (plus1 r (plus1 w c)) s')) s.
Proof.
  intros H. unfold pipealloc. apply wlp_bind. eapply wlp_mono; [by apply wlp_filealloc|].
  intros [f0|] s1 [Hk1 H1]; [|apply wlp_ret; split; [done|by left]]. apply wlp_bind. eapply wlp_mono; [by apply wlp_filealloc|].
  intros [f1|] s2 [Hk2 H2].
  - destruct new_ring as [rb|].
    + apply wlp_bind, wlp_gets, wlp_bind, wlp_modify, wlp_bind, wlp_modify, wlp_bind, wlp_modify, wlp_ret.
      split; [eapply kept_trans; [exact Hk1|exact Hk2]|]. right. split; [done|]. exists f0, f1. split; [done|]. split; [done|].
      apply counted_retype; [|done|done]. apply counted_retype; [|done|done].
      eapply counted_ext; [|apply (counted_table _ s2); [done..|exact H2]]. intros g. unfold plus1. lia.
    + apply wlp_bind. eapply wlp_mono; [apply (wlp_vfs_close (plus1 f1 c))|].
      { eapply counted_ext; [|exact H2]. intros g. unfold plus1. lia. }
      intros _ s3 [Hk3 H3]. apply wlp_bind. eapply wlp_mono; [by apply wlp_vfs_close|]. intros _ s4 [Hk4 H4].
      apply wlp_ret. split; [|by left]. do 3 (eapply kept_trans; [eassumption|]). done.
  - apply wlp_bind. eapply wlp_mono; [by apply wlp_vfs_close|]. intros _ s3 [Hk3 H3].
    apply wlp_ret. split; [|by left]. do 2 (eapply kept_trans; [eassumption|]). done.
Qed.

(** *** The calls *)

Abbreviation safe := (λ (_ : Z) s', refs_ok s').

Lemma refs_ok_quiet s s' : refs s' = refs s → refs_ok s → refs_ok s'.
Proof. intros E H. destruct (kept_refs _ _ E) as [Ef _]. unfold refs_ok. rewrite Ef. by eapply counted_refs. Qed.

Lemma wlp_then {A B} (m : VFS A) (k : A → VFS B) Q s :
  quiet m → refs_ok s → (∀ a s', refs_ok s' → wlp (k a) Q s') → wlp (m ≫= k) Q s.
Proof. intros Hm H Hk. apply wlp_quiet; [done|]. intros a s' E. by eapply Hk, refs_ok_quiet. Qed.

Lemma wlp_only {A} (m : VFS A) s : quiet m → refs_ok s → wlp m (λ _ s', refs_ok s') s.
Proof. intros Hm H. eapply wlp_mono; [apply Hm|]. cbn. intros _ s' E. by eapply refs_ok_quiet. Qed.

Lemma wlp_argfd fd s : wlp (argfd self fd) (λ r s', s' = s ∧
  ∀ f, r = inr (Some f) → my_ofile self s !! Z.to_nat fd = Some (Some f)) s.
Proof.
  unfold argfd. case_match; [done|]. case_match; [done|]. case_match; [done|].
  apply wlp_bind, wlp_gets, wlp_bind, wlp_from_option. intros [f|] Hf; [|done]. apply wlp_ret. split; [done|].
  by intros g [= <-].
Qed.

Lemma wlp_close fd s : refs_ok s → wlp (sys_close self dev_close fd) safe s.
Proof.
  intros H. unfold sys_close, with_file. apply wlp_bind. eapply wlp_mono; [apply wlp_argfd|]. intros [e|o] s' [-> Hf]; [done|].
  apply wlp_bind, wlp_from_option. intros f ->. specialize (Hf f eq_refl). apply wlp_bind, wlp_modify.
  set (s1 := set_my_ofile self (<[Z.to_nat fd := None]> (my_ofile self s)) s). eapply wlp_mono; [apply (wlp_vfs_close (fds (ofile s1)))|].
  - eapply counted_ext; [|apply (counted_table _ s); [done..|exact H]]. intros g.
    pose proof (fds_store s _ None (Some f) g Hf) as E. fold s1 in E. cbn [slot] in E. unfold plus1. lia.
  - cbn. intros _ s2 [(Eo & _) H2]. unfold refs_ok. by rewrite Eo.
Qed.

(** A copy of a descriptor: the slot is taken before the count goes up. *)
Lemma wlp_dup_fd f fl s : refs_ok s → wlp (dup_fd self f fl) safe s.
Proof.
  intros H. unfold dup_fd. apply wlp_bind. eapply wlp_mono; [apply wlp_fdalloc|]. intros fd s1 (Et & Er & Ew & Hfd).
  destruct (Z.ltb_spec fd 0); [apply wlp_ret; destruct Hfd as [[_ ->]|[]]; [done|lia]|]. destruct Hfd as [[]|(_ & _ & Ef)]; [lia|].
  apply wlp_bind. eapply wlp_mono; [apply (wlp_filedup (fds (ofile s)))|].
  - by apply (counted_table _ s).
  - cbn. intros _ s2 [(Eo & _) H2]. apply wlp_ret. unfold refs_ok. rewrite Eo. eapply counted_ext; [|exact H2]. intros g. by rewrite Ef.
Qed.

Lemma wlp_fcntl fd op arg s : refs_ok s → wlp (sys_fcntl self fd op arg) safe s.
Proof.
  intros H. unfold sys_fcntl, with_file. apply wlp_then; [apply quiet_argfd|done|]. intros [e|o] s1 H1; [done|].
  apply wlp_then; [quiet|done|]. intros f s2 H2.
  do 3 (case_match; [by apply wlp_dup_fd|]). apply wlp_only; [|done]. quiet.
Qed.

(** The results of closing a file. *)
Lemma wlp_close_result f s : wlp (vfs_close dev_close f) (λ r _, r = 0 ∨ r = - ENODEV) s.
Proof.
  unfold vfs_close. apply wlp_any. intros x t. case_match; [done|]. apply wlp_any. intros _ t1. case_match; [by left|].
  apply wlp_any. intros i t2. apply wlp_any. intros n t3.
  destruct (S_ISCHR (mode (di n))); [destruct (dev_of dev_close n) as [k|]; [apply wlp_any; intros _ t4|by right]|];
    (apply wlp_any; intros ? ?; destruct (type x); repeat (apply wlp_any; intros ? ?); by left).
Qed.

(** The reference of the old descriptor is given back while it is still in
    its slot, and the one for the new descriptor is taken afterwards. *)
Lemma wlp_dup3 fd1 fd2 fl s : refs_ok s →
  wlp (sys_dup3 self dev_close fd1 fd2 fl) (λ r s', r = - ENODEV ∨ refs_ok s') s.
Proof.
  intros H. unfold sys_dup3. apply wlp_then; [apply quiet_argfd|done|]. clear s H. intros [e|o] s H; [by right|].
  case_match; [by right|]. case_match; [by right|]. case_match; [by right|].
  apply wlp_bind, wlp_from_option. intros f ->. unfold fdalloc2. apply wlp_bind, wlp_bind, wlp_gets.
  destruct (fd2 <? 0) eqn:Hneg; [done|]. apply wlp_bind, wlp_from_option. intros old Hold. apply wlp_bind.
  assert (wlp (match old with Some g => vfs_close dev_close g | None => mret 0 end)
    (λ r s', (r = 0 ∨ r = - ENODEV) ∧ kept s s' ∧ ∃ c, counted c s' ∧ ∀ g, fds (ofile s) g = (slot old g + c g)%nat) s) as W.
  { destruct old as [g|]; [|by split_and!; [left|..|eexists]]. apply wlp_and; [apply wlp_close_result|].
    set (c := fds (ofile (set_my_ofile self (<[Z.to_nat fd2 := None]> (my_ofile self s)) s))).
    assert (∀ h, fds (ofile s) h = plus1 g c h) as Ec.
    { intros h. pose proof (fds_store s _ None (Some g) h Hold) as E. fold c in E. cbn [slot] in E. unfold plus1. lia. }
    eapply wlp_mono; [apply (wlp_vfs_close c)|].
    - by eapply counted_ext, H.
    - cbn. intros _ s' [Hk Hc]. split; [done|]. exists c. by split. }
  eapply wlp_mono; [exact W|]. cbn. clear W. intros r s1 (Hr & Hk & c & Hc & Ec).
  destruct (Z.ltb_spec r 0) as [Hlt|Hge].
  { apply wlp_ret. destruct (Z.ltb_spec r 0); [|lia]. apply wlp_ret. left. lia. }
  apply wlp_bind, wlp_modify, wlp_ret. destruct (fd2 <? 0); [done|].
  assert (my_ofile self s1 = my_ofile self s) as Em by (unfold my_ofile; by rewrite (proj1 Hk)).
  set (s2 := set_my_ofile self (<[Z.to_nat fd2 := Some f]> (my_ofile self s1)) s1).
  apply wlp_bind. eapply wlp_mono; [apply (wlp_filedup c s2 f); by apply (counted_table _ s1)|].
  cbn. intros _ s3 [(Eo & _) H3]. apply wlp_ret. right. unfold refs_ok. rewrite Eo. eapply counted_ext; [|exact H3].
  intros g. rewrite <- Em in Hold. pose proof (fds_store s1 _ (Some f) old g Hold) as E. fold s2 in E. cbn [slot] in E.
  rewrite (proj1 Hk), Ec in E. unfold plus1. lia.
Qed.

Lemma wlp_pipe2 fl s : refs_ok s → wlp (sys_pipe2 self new_ring dev_close fl) (λ _ s', refs_ok s') s.
Proof.
  intros H. unfold sys_pipe2. case_match; [done|]. apply wlp_bind. eapply wlp_mono; [by apply wlp_pipealloc|].
  intros [[e o0] o1] s1 [(Eo & Er & Ew) He]. destruct (Z.ltb_spec e 0) as [Hc1|Hc1].
  { apply wlp_ret. destruct He as [[_ H1]|[]]; [|lia]. unfold refs_ok. by rewrite Eo. }
  destruct He as [[]|(_ & r & w & -> & -> & H1)]; [lia|]. rewrite <- Eo in H1. clear s H Eo Er Ew.
  apply wlp_bind, wlp_ret, wlp_bind, wlp_ret, wlp_bind. eapply wlp_mono; [apply wlp_fdalloc|]. intros fd0 s2 (Et & Er & Ew & Hfd).
  assert (∀ t (e : Z), counted (plus1 r (plus1 w (fds (ofile t)))) t →
    wlp (_ ← vfs_close dev_close r; _ ← vfs_close dev_close w; mret (e, [] : list Z)) (λ _ s', refs_ok s') t) as Undo.
  { intros t e' Ht. apply wlp_bind. eapply wlp_mono; [by apply wlp_vfs_close|]. intros _ t1 [Hk1 H1']. apply wlp_bind.
    eapply wlp_mono; [by apply wlp_vfs_close|]. intros _ t2 [Hk2 H2']. apply wlp_ret. unfold refs_ok.
    destruct Hk1 as [E1 _], Hk2 as [E2 _]. by rewrite E2, E1. }
  destruct (Z.ltb_spec fd0 0) as [Hc2|Hc2].
  { destruct Hfd as [[_ ->]|[]]; [|lia]. destruct (Z.leb_spec 0 fd0) as [Hc3|Hc3]; [lia|]. apply wlp_bind, wlp_ret. by apply Undo. }
  destruct Hfd as [[]|(_ & Hslot & Ef)]; [lia|].
  assert (counted (plus1 w (fds (ofile s2))) s2) as H2.
  { eapply counted_ext; [|apply (counted_table _ s1); [done..|exact H1]]. intros g. unfold plus1 in *. rewrite Ef. lia. }
  apply wlp_bind. eapply wlp_mono; [apply wlp_fdalloc|]. intros fd1 s3 (Et3 & Er3 & Ew3 & Hfd1). destruct (Z.ltb_spec fd1 0) as [Hc4|Hc4].
  - destruct Hfd1 as [[_ ->]|[]]; [|lia]. destruct (Z.leb_spec 0 fd0) as [Hc5|Hc5]; [|lia]. apply wlp_bind, wlp_modify, Undo.
    set (t := set_my_ofile self (<[Z.to_nat fd0 := None]> (my_ofile self s2)) s2).
    eapply counted_ext; [|apply (counted_table _ s2); [done..|exact H2]]. intros g.
    pose proof (fds_store s2 _ None (Some r) g Hslot) as E. fold t in E. cbn [slot] in E. unfold plus1. lia.
  - destruct Hfd1 as [[]|(_ & _ & Ef1)]; [lia|]. apply wlp_then; [quiet| |].
    + unfold refs_ok. eapply counted_ext; [|apply (counted_table _ s2); [done..|exact H2]]. intros g. by rewrite Ef1.
    + intros _ s4 H4. apply wlp_then; [quiet|done|]. by intros _ s5 H5.
Qed.

(** *** Opening *)

Lemma wlp_open_inode i fl s : refs_ok s → wlp (open_inode self dev_close i fl) safe s.
Proof.
  intros H. unfold open_inode. apply wlp_bind. eapply wlp_mono; [by apply wlp_filealloc|]. intros [f|] s1 [(Eo & _) H1];
    rewrite <- Eo in H1; [|apply wlp_only; [quiet|done]].
  apply wlp_bind. eapply wlp_mono; [apply wlp_fdalloc|]. intros fd s2 (Et & Er & Ew & Hfd). destruct (Z.ltb_spec fd 0) as [Hc6|Hc6].
  - destruct Hfd as [[_ ->]|[]]; [|lia]. apply wlp_bind. eapply wlp_mono; [by apply wlp_vfs_close|].
    cbn. intros _ s3 [(E3 & _) H3]. apply wlp_only; [quiet|]. unfold refs_ok. by rewrite E3.
  - destruct Hfd as [[]|(_ & _ & Ef)]; [lia|]. apply wlp_then; [quiet| |].
    { unfold refs_ok. eapply counted_ext; [|apply (counted_table _ s1); [done..|exact H1]]. intros g. by rewrite Ef. }
    intros _ s3 H3. apply wlp_then; [quiet|done|]. intros _ s4 H4. apply wlp_then; [quiet|done|]. intros n s5 H5.
    apply wlp_bind, wlp_modify, wlp_ret. by apply counted_retype.
Qed.

(** The new ends of a FIFO: the references are the inode's. *)
Lemma counted_fifo c s i r w :
  rf s !! i = None → wf s !! i = None → counted (plus1 r (plus1 w c)) s →
  counted c (set_fifo (<[i := r]> (rf s)) (<[i := w]> (wf s)) s).
Proof.
  intros Hr Hw [H1 H2 H3]. set (t := set_fifo _ _ s).
  assert (∀ f, ends t f = (one r f + one w f + ends s f)%nat) as E.
  { intros f. unfold ends, t. cbn [rf wf set_fifo]. rewrite !keeps_insert by done. lia. }
  split.
  - intros f x Hx. destruct (H1 f x Hx) as [Hle Heq]. rewrite E. unfold plus1 in *. split; [lia|]. intros. rewrite Heq; lia.
  - intros f x Hx Hty. specialize (H2 f x Hx Hty). rewrite E. lia.
  - intros f. rewrite E. intros Hf. apply H3. unfold plus1. lia.
Qed.

(** A reference to the end of a FIFO may be lost. *)
Lemma counted_leak c s f : (0 < ends s f)%nat → counted (plus1 f c) s → counted c s.
Proof.
  intros He [H1 H2 H3]. split; [|done|].
  - intros g x Hx. destruct (H1 g x Hx) as [Hle Heq]. unfold plus1 in *. split; [lia|]. intros E0.
    rewrite (Heq E0). assert (g ≠ f) by (intros ->; lia). by rewrite one_other.
  - intros g Hg. apply H3. unfold plus1. lia.
Qed.

(** The end [f] of a FIFO gets one more user, unless there is no descriptor
    for it. *)
Lemma wlp_open_end f (rest : Z → VFS Z) (Q : Z → vfs → Prop) s :
  refs_ok s → (0 < ends s f)%nat → (∀ fd t, refs_ok t → wlp (rest fd) Q t) →
  wlp (_ ← ref_up f; fd ← fdalloc self f; rest fd) Q s.
Proof.
  intros H He Hrest. apply wlp_bind. eapply wlp_mono; [by apply wlp_ref_up|]. intros _ s1 [Hk H1].
  apply wlp_bind. eapply wlp_mono; [apply wlp_fdalloc|]. intros fd s2 (Et & Er & Ew & Hfd). apply Hrest. unfold refs_ok.
  destruct Hfd as [[_ ->]|(_ & _ & Ef)].
  - rewrite (proj1 Hk). apply (counted_leak _ _ f); [by rewrite (kept_ends s)|done].
  - eapply counted_ext; [|apply (counted_table _ s1); [done..|exact H1]]. intros g. rewrite Ef. unfold plus1. by rewrite (proj1 Hk).
Qed.

Lemma ends_r s i f : rf s !! i = Some f → (0 < ends s f)%nat.
Proof. intros H. apply end_kept in H. unfold ends. lia. Qed.

Lemma ends_w s i f : wf s !! i = Some f → (0 < ends s f)%nat.
Proof. intros H. apply end_kept in H. unfold ends. lia. Qed.

Lemma ends_refs s s' f : refs s' = refs s → ends s' f = ends s f.
Proof. intros E. by apply kept_ends, kept_refs. Qed.

Lemma wlp_field {A} (o : vfs → option A) Q s :
  (∀ a, o s = Some a → Q a s) → wlp (λ s, from_option (o s) s) Q s.
Proof. intros H. unfold wlp. destruct (o s) as [a|]; [by apply H|done]. Qed.

Abbreviation unless_m1 := (λ r s', r = -1 ∨ refs_ok s').

(** The first open of a FIFO makes its pipe; a failure is what returns -1. *)
Lemma wlp_make_fifo i s : refs_ok s →
  wlp (make_fifo new_ring dev_close i) (λ made s', made = true → refs_ok s') s.
Proof.
  intros H. unfold make_fifo. apply wlp_bind, wlp_gets, wlp_bind, wlp_gets. destruct (rf s !! i) as [r|] eqn:Hr; [by apply wlp_ret|]. destruct (wf s !! i) as [w|] eqn:Hw; [by apply wlp_ret|].
  apply wlp_bind. eapply wlp_mono; [by apply wlp_pipealloc|]. intros [[e o0] o1] s1 [(Eo & Er & Ew) He].
  apply wlp_bind, wlp_modify. destruct (Z.ltb_spec e 0); [done|]. destruct He as [[]|(_ & r & w & -> & -> & H1)]; [lia|].
  apply wlp_bind, wlp_ret, wlp_bind, wlp_ret.
  set (s2 := set_fifo _ _ s1). assert (refs_ok s2) as H2.
  { unfold refs_ok. change (ofile s2) with (ofile s1). rewrite Eo. apply counted_fifo; rewrite ?Er, ?Ew; done. }
  assert (rf s2 !! i = Some r) as Hr2 by apply lookup_insert_eq.
  assert (wf s2 !! i = Some w) as Hw2 by apply lookup_insert_eq.
  apply wlp_bind, wlp_modify, wlp_bind, wlp_modify. set (s3 := set_file_table _ _).
  assert (refs_ok s3) as H3.
  { apply counted_retype; [apply counted_retype|..]; try done.
    - intros _ _ _. by apply (ends_r s2 i).
    - intros _ _ _. by apply (ends_w s2 i). }
  eapply wlp_mono; [apply wlp_only; [quiet|exact H3]|]. done.
Qed.

Lemma wlp_open_fifo i fl otherwise s :
  refs_ok s → (∀ t, refs_ok t → wlp otherwise unless_m1 t) →
  wlp (open_fifo self new_ring dev_close i fl otherwise) unless_m1 s.
Proof.
  intros H Hother. unfold open_fifo. apply wlp_bind.
  eapply wlp_mono; [by apply wlp_make_fifo|]. cbn beta. intros made s1 H1. destruct made; cbn [negb].
  2: { do 2 (apply wlp_any; intros ? ?). by left. }
  specialize (H1 eq_refl). clear s H. case_match; [|case_match].
  - apply wlp_bind, wlp_field. intros w Hw. apply wlp_quiet; [quiet|]. intros x s2 E2. apply wlp_quiet; [quiet|]. intros p s3 E3.
    apply wlp_quiet; [quiet|]. intros q s4 E4. rewrite E3, E2 in E4. assert (refs_ok s4) as H4 by by eapply refs_ok_quiet.
    case_match; [eapply wlp_mono; [apply wlp_only; [quiet|done]|by right]|].
    apply wlp_quiet; [quiet|]. intros v s5 E5. apply wlp_quiet; [quiet|]. intros _ s6 E6. rewrite E5, E4 in E6.
    apply wlp_open_end; [by eapply refs_ok_quiet|rewrite (ends_refs s1) by done; by apply (ends_w s1 i)|].
    intros fd t Ht. eapply wlp_mono; [apply wlp_only; [quiet|done]|by right].
  - apply wlp_bind, wlp_field. intros r Hr. apply wlp_quiet; [quiet|]. intros x s2 E2. apply wlp_quiet; [quiet|]. intros p s3 E3.
    apply wlp_quiet; [quiet|]. intros q s4 E4. rewrite E3, E2 in E4.
    apply wlp_quiet; [quiet|]. intros v s5 E5. apply wlp_quiet; [quiet|]. intros _ s6 E6. rewrite E5, E4 in E6.
    apply wlp_open_end; [by eapply refs_ok_quiet|rewrite (ends_refs s1) by done; by apply (ends_r s1 i)|].
    intros fd t Ht. eapply wlp_mono; [apply wlp_only; [quiet|done]|by right].
  - by apply Hother.
Qed.

Lemma quiet_dev_open n k a b : dev_of dev_open n = Some k → quiet (k a b).
Proof. unfold dev_of. case_match; [done|]. by apply open_quiet. Qed.

Lemma wlp_openat fd path fl md um s : refs_ok s →
  wlp (sys_openat self de new_ring dev_open dev_close dev_read dev_write fd path fl md um) unless_m1 s.
Proof.
  intros H. unfold sys_openat, check_fd. apply wlp_then; [apply quiet_argfd|done|]. clear s H. intros [e|o] s H; [by right|].
  cbn zeta. unfold vfs_openat.
  assert (∀ i t, refs_ok t → wlp (open_inode self dev_close i fl) unless_m1 t) as Hop.
  { intros i t Ht. eapply wlp_mono; [by apply wlp_open_inode|]. by right. }
  assert (∀ i t, refs_ok t → wlp (n ← the_node i;
    if S_ISFIFO (mode (di n)) && (Z.land fl O_NONBLOCK =? 0)
    then open_fifo self new_ring dev_close i fl (open_inode self dev_close i fl) else open_inode self dev_close i fl)
    unless_m1 t) as Hfin.
  { intros i t Ht. apply wlp_then; [quiet|done|]. intros n t' Ht'. case_match; [|by apply Hop].
    apply wlp_open_fifo; [done|]. intros t'' Ht''. by apply Hop. }
  assert (∀ (m : VFS Z) t, quiet m → refs_ok t → wlp m unless_m1 t) as Hq.
  { intros m t Hm Ht. eapply wlp_mono; [by apply wlp_only|]. by right. }
  apply wlp_then; [quiet|done|]. intros _ s1 H1. apply wlp_then; [apply quiet_lookup_path|done|]. intros o1 s2 H2.
  case_match; destruct o1 as [i|].
  - apply wlp_then; [quiet|done|]. intros _ s3 H3. apply wlp_then; [quiet|done|]. intros n s4 H4.
    case_match; [by apply Hop|]. apply Hq; [quiet|done].
  - apply wlp_then; [apply quiet_create|done|]. intros [i|] s3 H3; [by apply Hfin|]. apply Hq; [quiet|done].
  - apply wlp_then; [quiet|done|]. intros _ s3 H3. apply wlp_then; [quiet|done|]. intros _ s4 H4.
    apply wlp_then; [quiet|done|]. intros n s5 H5. case_match; [apply Hq; [quiet|done]|].
    case_match; [|by apply Hfin]. destruct (dev_of dev_open n) as [k|] eqn:Ek; [|apply Hq; [quiet|done]].
    apply wlp_then; [by eapply quiet_dev_open|done|]. intros _ s6 Hs6. by apply Hfin.
  - apply Hq; [quiet|done].
Qed.

End moves.

(** ** The system *)

Inductive call :=
| Dup3 (fd1 fd2 fl : Z) | Read (fd n : Z) | Write (fd : Z) (p : list Z) | Writev (fd : Z) (l : list (list Z))
| Close (fd : Z) | Fstat (fd : Z) | Lseek (fd off whence : Z) | Pipe2 (fl : Z) | Fcntl (fd op arg : Z)
| Fstatat (fd : Z) (path : list Z) (fl : Z) | Linkat (fd1 : Z) (old : list Z) (fd2 : Z) (new : list Z) (fl : Z)
| Unlinkat (fd : Z) (path : list Z) (fl : Z) | Openat (fd : Z) (path : list Z) (fl md umask : Z)
| Mkdirat (fd : Z) (path : list Z) (md umask : Z) | Mknodat (fd : Z) (path : list Z) (md dev : Z)
| Chdir (path : list Z) | Fchmodat (fd : Z) (path : list Z) (md fl : Z) | Fchmod (fd md : Z)
| Symlinkat (target : list Z) (fd : Z) (path : list Z) | Readlinkat (fd : Z) (path buf : list Z)
| Renameat (fd1 : Z) (old : list Z) (fd2 : Z) (new : list Z) | Faccessat (c : cred) (fd : Z) (path : list Z) (md : Z).

(** The process of a call and what it finds: see File.v. *)
Record ctx := mkctx { me : nat; is_killed : bool; stack : list Z; ring : option RingBuf.ring_buf }.

Section system.
Context (dev_open : Z → option (Z → Z → VFS Z)) (dev_close : Z → option (Z → VFS Z)).
Context (dev_read : Z → option (Z → nat → Z → FS (Z * list Z))).
Context (dev_write : Z → option (Z → nat → list Z → FS Z)).

Definition run (e : ctx) (c : call) : VFS Z :=
  let '(mkctx self killed de new_ring) := e in
  let ret {A} (m : VFS (Z * A)) : VFS Z := r ← m; mret r.1 in
  match c with
  | Dup3 fd1 fd2 fl => sys_dup3 self dev_close fd1 fd2 fl
  | Read fd n => ret (sys_read self killed dev_read fd n)
  | Write fd p => sys_write self killed dev_write fd p
  | Writev fd l => sys_writev self killed dev_write fd l
  | Close fd => sys_close self dev_close fd
  | Fstat fd => ret (sys_fstat self fd)
  | Lseek fd off whence => sys_lseek self fd off whence
  | Pipe2 fl => ret (sys_pipe2 self new_ring dev_close fl)
  | Fcntl fd op arg => sys_fcntl self fd op arg
  | Fstatat fd path fl => ret (sys_fstatat self de dev_read fd path fl)
  | Linkat fd1 old fd2 new fl => sys_linkat self de dev_read dev_write fd1 old fd2 new fl
  | Unlinkat fd path fl => sys_unlinkat self de dev_read dev_write fd path fl
  | Openat fd path fl md um => sys_openat self de new_ring dev_open dev_close dev_read dev_write fd path fl md um
  | Mkdirat fd path md um => sys_mkdirat self de dev_read dev_write fd path md um
  | Mknodat fd path md dev => sys_mknodat self de dev_read dev_write fd path md dev
  | Chdir path => sys_chdir self de dev_read path
  | Fchmodat fd path md fl => sys_fchmodat self de dev_read fd path md fl
  | Fchmod fd md => sys_fchmod self fd md
  | Symlinkat target fd path => sys_symlinkat self de dev_read dev_write target fd path
  | Readlinkat fd path buf => ret (sys_readlinkat self de dev_read fd path buf)
  | Renameat fd1 old fd2 new => sys_renameat self de dev_read dev_write fd1 old fd2 new
  | Faccessat c fd path md => sys_faccessat self de dev_read c fd path md
  end.

(** Any sequence of calls that return, with their results. *)
Inductive runs : vfs → list (call * Z) → vfs → Prop :=
| runs_nil s : runs s [] s
| runs_call e c r tr s1 s2 s3 : run e c s1 = Ok (r, s2) → runs s2 tr s3 → runs s1 ((c, r) :: tr) s3.

(** The two results after which a pointer to a file that was given back may be
    left behind: [open] of a FIFO when there is no memory for its pipe, and
    [dup3] onto a device that cannot be closed. *)
Definition sound (c : call) (r : Z) : Prop :=
  match c with Openat _ _ _ _ _ => r ≠ -1 | Dup3 _ _ _ => r ≠ - ENODEV | _ => True end.

Hypothesis open_quiet : ∀ m k a b, dev_open m = Some k → quiet (k a b).
Hypothesis close_quiet : ∀ m k a, dev_close m = Some k → quiet (k a).

Lemma run_refs e c s : refs_ok s → wlp (run e c) (λ r s', sound c r → refs_ok s') s.
Proof.
  destruct e as [self killed de new_ring]. intros H.
  assert (∀ m, quiet m → wlp m (λ r s', sound c r → refs_ok s') s) as Q.
  { intros m Hm. eapply wlp_mono; [by apply wlp_only|]. done. }
  assert (∀ A (m : VFS (Z * A)), quiet m → wlp (r ← m; mret r.1) (λ r s', sound c r → refs_ok s') s) as R.
  { intros A m Hm. apply Q. quiet. }
  destruct c; cbn [run sound]; try (by apply Q; auto using quiet_write, quiet_writev, quiet_lseek, quiet_linkat, quiet_unlinkat,
      quiet_mkdirat, quiet_mknodat, quiet_chdir, quiet_fchmodat, quiet_fchmod, quiet_symlinkat, quiet_renameat, quiet_faccessat);
    try (by apply R; auto using quiet_read, quiet_fstat, quiet_fstatat, quiet_readlinkat).
  - eapply wlp_mono; [by apply wlp_dup3|]. intros r s' [->|?] Hr; [by destruct Hr|done].
  - eapply wlp_mono; [by apply wlp_close|]. done.
  - apply wlp_bind. eapply wlp_mono; [by apply wlp_pipe2|]. intros r s' H'. by apply wlp_ret.
  - eapply wlp_mono; [by apply wlp_fcntl|]. done.
  - eapply wlp_mono; [by apply wlp_openat|]. intros r s' [->|?] Hr; [by destruct Hr|done].
Qed.

Lemma runs_refs s tr s' : runs s tr s' → refs_ok s → (∀ c r, (c, r) ∈ tr → sound c r) → refs_ok s'.
Proof.
  induction 1 as [|e c r tr s1 s2 s3 E _ IH]; intros H Hs; [done|]. apply IH; [|intros c' r' Hin; apply Hs; by right].
  apply (wlp_ok _ _ _ _ _ (run_refs e c s1 H) E). apply Hs. left.
Qed.

(** No file is open and there is no FIFO. *)
Record fresh (s : vfs) : Prop := {
  fr_files : Forall (λ x, ref x = 0 ∧ type x = FD_NONE) (file_table s);
  fr_fds : Forall (Forall (.= None)) (ofile s);
  fr_rf : rf s = ∅;
  fr_wf : wf s = ∅;
}.

Lemma fresh_refs s : fresh s → refs_ok s.
Proof.
  intros [Hf Ho Hr Hw]. assert (∀ f, fds (ofile s) f = 0%nat) as Hz.
  { intros f. unfold fds. induction Ho as [|l o Hl _ IH]; [done|]. cbn [sum_list_with]. rewrite IH.
    unfold fd_uses. clear IH. induction Hl as [|x l -> _ IHl]; [done|]. by rewrite filter_cons, decide_False. }
  assert (∀ f, ends s f = 0%nat) as He by (intros f; unfold ends; by rewrite Hr, Hw).
  split.
  - intros f x Hx. rewrite Hz, He. rewrite Forall_lookup in Hf. destruct (Hf f x Hx) as [-> _]. done.
  - intros f x Hx Ht. rewrite Forall_lookup in Hf. destruct (Hf f x Hx) as [_ E]. congruence.
  - intros f. rewrite Hz, He. lia.
Qed.

Lemma fds_pos o p l k f : o !! p = Some l → l !! k = Some (Some f) → (0 < fds o f)%nat.
Proof.
  intros Hp Hk. pose proof (fds_insert f o p l (<[k := None]> l) Hp) as E1.
  pose proof (fd_uses_insert f l k None (Some f) Hk) as E2. cbn [slot] in E2. rewrite one_refl in E2. lia.
Qed.

(** C9. The reference counts of open files.  From a system with no open file,
    let the processes make any sequence of file system calls, with any results
    but two: [open] of a FIFO for which there is no memory, and [dup3] onto a
    device that cannot be closed, after which the code leaves a descriptor on a
    file it gave back.  Then a descriptor always names an entry of the file
    table that is in use; the count of an entry is at least the number of
    descriptors that name it, over all processes, and of the FIFO ends that
    keep it; and it is exactly the number of descriptors when no FIFO keeps
    the file. *)
Theorem file_references s0 tr s :
  fresh s0 → runs s0 tr s → (∀ c r, (c, r) ∈ tr → sound c r) →
  (∀ p l k f, ofile s !! p = Some l → l !! k = Some (Some f) →
     ∃ x, file_table s !! f = Some x ∧ 1 ≤ ref x) ∧
  (∀ f x, file_table s !! f = Some x →
     fds (ofile s) f + ends s f ≤ ref x ∧ (ends s f = 0%nat → ref x = fds (ofile s) f)).
Proof.
  intros H0 Hr Hs. apply fresh_refs in H0. pose proof (runs_refs _ _ _ Hr H0 Hs) as [H1 _ H3]. split; [|apply H1].
  intros p l k f Hp Hk. pose proof (fds_pos _ _ _ _ _ Hp Hk) as Hpos.
  destruct (lookup_lt_is_Some_2 (file_table s) f) as [x Hx]; [apply H3; lia|]. exists x. split; [done|].
  destruct (H1 f x Hx). lia.
Qed.

End system.

(** A pipe is made and its read end duplicated. *)
Definition boot : vfs :=
  mkvfs (mkfs (mkabs ∅ ∅ ∅) [] (mksb [] 0 0 0 0 0 0 0) [] 0) (replicate 3 (mkfile FD_NONE 0 0 false false None None 0))
    [replicate 4 None] [0%nat] [] ∅ ∅ ∅ 0 [].
Definition none {A B : Type} (_ : A) : option B := None.
Definition boot_ctx : ctx := mkctx 0 false [] (Some (RingBuf.mkrb 0 0 0 0 16 (replicate 16 0))).

Lemma file_references_witness :
  ∃ s x, runs none none none none boot [(Pipe2 0, 0); (Dup3 0 3 0, 3)] s ∧ file_table s !! 0%nat = Some x ∧ ref x = 2.
Proof.
  eassert (runs none none none none boot [(Pipe2 0, 0); (Dup3 0 3 0, 3)] _) as Hs.
  { eapply (runs_call _ _ _ _ boot_ctx); [vm_compute; reflexivity|].
    eapply (runs_call _ _ _ _ boot_ctx); [vm_compute; reflexivity|]. apply runs_nil. }
  assert (fresh boot) as Hf by (split; [by apply Forall_replicate|repeat constructor|done|done]).
  destruct (file_references none none none none ltac:(done) ltac:(done) boot _ _ Hf Hs) as [_ H].
  { intros c r [E|[E|[]%elem_of_nil]%elem_of_cons]%elem_of_cons; injection E as -> ->; cbn; [exact I|discriminate]. }
  eexists _, _. split; [exact Hs|]. split; [reflexivity|]. destruct (H 0%nat _ eq_refl) as [_ E]. rewrite E; done.
Defined.

End FileRef.
