(* ===== verification/FileTx.v ===== *)
(** * Calls and transactions

    Every call that returns has closed the transactions it opened, but for
    four error paths.  [goes a b m] follows the number of open transactions of
    the caller from [a] to [b] through a computation. *)

From S2P Require Import Prelude Mem Words Block Bio Log CType KString Fs RingBuf Pipe File FileIO Sysfile FileRef.

Module FileTx.
Import Block Fs File Sysfile FileRef.

(** [o] transactions of others are open, and there is room for ours. *)
Definition goes {A} (a b : Z) (m : VFS A) : Prop := ∀ s o,
  0 ≤ o → o < 2 ^ 62 → outstanding s = o + a → wlp m (λ _ s', outstanding s' = o + b) s.

Lemma goes_bind {A B} a b c (m : VFS A) (k : A → VFS B) : goes a b m → (∀ x, goes b c (k x)) → goes a c (m ≫= k).
Proof.
  intros Hm Hk s o H0 H1 Ho. apply wlp_bind. eapply wlp_mono; [by apply (Hm s o)|]. cbn. intros x s' Hs'. by apply Hk.
Qed.

(** A computation that does not open or close any. *)
Definition steady {A} (m : VFS A) : Prop := ∀ s, wlp m (λ _ s', outstanding s' = outstanding s) s.

Lemma goes_steady {A} a (m : VFS A) : steady m → goes a a m.
Proof. intros H s o _ _ E. eapply wlp_mono; [apply H|]. cbn. intros _ s' ->. done. Qed.

Lemma goes_begin_from a : 0 ≤ a < 2 ^ 62 → goes a (a + 1) begin_op.
Proof. intros Ha s o H0 H1 Ho. cbn. rewrite Ho, wrap_small by lia. lia. Qed.

Lemma goes_end_to a : 0 ≤ a < 2 ^ 62 → goes (a + 1) a end_op.
Proof.
  intros Ha s o H0 H1 Ho. unfold end_op. apply wlp_bind, wlp_gets. rewrite Ho, wrap_small by lia.
  destruct (Z.eqb_spec (o + (a + 1) - 1) 0); cbn; lia.
Qed.

Lemma goes_begin : goes 0 1 begin_op.
Proof. by apply (goes_begin_from 0). Qed.

Lemma goes_end : goes 1 0 end_op.
Proof. by apply (goes_end_to 0). Qed.

(** A transaction inside of another. *)
Lemma goes_begin_inner : goes 1 2 begin_op.
Proof. by apply (goes_begin_from 1). Qed.

Lemma goes_end_inner : goes 2 1 end_op.
Proof. by apply (goes_end_to 1). Qed.

Lemma steady_ret {A} (x : A) : steady (mret x).
Proof. done. Qed.

Lemma steady_fail {A} e : steady (fail e : VFS A).
Proof. done. Qed.

Lemma steady_panic {A} e : steady (panic e : VFS A).
Proof. done. Qed.

Lemma steady_gets {A} (g : vfs → A) : steady (gets g).
Proof. done. Qed.

Lemma steady_modify g : (∀ s, outstanding (g s) = outstanding s) → steady (modify g).
Proof. intros H s. apply H. Qed.

Lemma steady_field {A} (o : vfs → option A) : steady (λ s, from_option (o s) s).
Proof. intros s. unfold wlp. by destruct (o s). Qed.

Lemma steady_from_option {A} (o : option A) : steady (from_option o).
Proof. by destruct o. Qed.

Lemma steady_lift {A} (r : res A) : steady (lift r).
Proof. by destruct r. Qed.

Lemma steady_assert b : steady (kernel_assert b).
Proof. by destruct b. Qed.

Lemma steady_onfs {A} (m : FS A) : steady (onfs m).
Proof. intros s. unfold wlp, onfs. destruct (m (fsys s)) as [[]|]; [|done]. by destruct (_ && _). Qed.

Create HintDb goes discriminated.
#[export] Hint Resolve goes_begin goes_end goes_begin_inner goes_end_inner : goes.

(** One step; a computation whose transactions are known is in the hints, any
    other is taken to leave them alone. *)
Ltac goes_step :=
  lazymatch goal with
  | |- goes _ _ (let _ := _ in _) => cbv zeta
  | |- goes ?a _ (mbind _ _) => first
      [ eapply goes_bind; [solve [eauto with goes]|intros ?]
      | apply (goes_bind a a); [|intros ?] ]
  | |- goes _ _ (match ?x with _ => _ end) => destruct x eqn:?
  | |- goes _ _ ((match ?x with _ => _ end) _) => destruct x; cbn beta
  | |- goes _ _ (mret _) => apply goes_steady, steady_ret
  | |- goes _ _ (fail _) => intros ? ? ? ? ?; exact I
  | |- goes _ _ (panic _) => intros ? ? ? ? ?; exact I
  | |- goes _ _ (onfs _) => apply goes_steady, steady_onfs
  | |- goes _ _ (gets _) => apply goes_steady, steady_gets
  | |- goes _ _ (from_option _) => apply goes_steady, steady_from_option
  | |- goes _ _ (lift _) => apply goes_steady, steady_lift
  | |- goes _ _ (kernel_assert _) => apply goes_steady, steady_assert
  | |- goes _ _ (the_node _) => apply goes_steady, steady_onfs
  | |- goes _ _ (the_file _) => apply goes_steady, steady_field
  | |- goes _ _ (modify _) => apply goes_steady, steady_modify; intros; reflexivity
  | |- goes _ _ (upd_file _ _) => apply goes_steady, steady_modify; intros; reflexivity
  | |- goes _ _ (λ _, from_option _ _) => apply goes_steady, steady_field
  | |- _ => solve [eauto with goes]
  end.
Ltac goes := repeat goes_step.

Lemma goes_the_pipe a p : goes a a (the_pipe p).
Proof. unfold the_pipe. goes. Qed.

Lemma goes_put_pipe a p x : goes a a (put_pipe p x).
Proof. unfold put_pipe. goes. Qed.

Lemma goes_int_inc a v : goes a a (int_inc v).
Proof. unfold int_inc. goes. Qed.

Lemma goes_filealloc a : goes a a filealloc.
Proof. unfold filealloc. goes. Qed.
#[export] Hint Resolve goes_the_pipe goes_put_pipe goes_int_inc goes_filealloc : goes.

Lemma goes_ref_up a f : goes a a (ref_up f).
Proof. unfold ref_up. goes. Qed.
#[export] Hint Resolve goes_ref_up : goes.

Lemma goes_filedup a f fl : goes a a (filedup f fl).
Proof. unfold filedup. goes. Qed.

Lemma goes_pipeclose a p w : goes a a (pipeclose p w).
Proof. unfold pipeclose. goes. Qed.

Lemma goes_settle a p o : goes a a (settle p o).
Proof. unfold settle. goes. Qed.
#[export] Hint Resolve goes_filedup goes_pipeclose goes_settle : goes.

Section calls.
Context (self : nat) (killed : bool) (de : list Z) (new_ring : option RingBuf.ring_buf).
Context (dev_open : Z → option (Z → Z → VFS Z)) (dev_close : Z → option (Z → VFS Z)).
Context (dev_read : Z → option (Z → nat → Z → FS (Z * list Z))).
Context (dev_write : Z → option (Z → nat → list Z → FS Z)).

(** The drivers close what they open. *)
Hypothesis open_goes : ∀ m k x y a, dev_open m = Some k → goes a a (k x y).
Hypothesis close_goes : ∀ m k x a, dev_close m = Some k → goes a a (k x).

Lemma goes_dev_open n k x y a : dev_of dev_open n = Some k → goes a a (k x y).
Proof. unfold dev_of. case_match; [done|]. by apply open_goes. Qed.

Lemma goes_dev_close n k x a : dev_of dev_close n = Some k → goes a a (k x).
Proof. unfold dev_of. case_match; [done|]. by apply close_goes. Qed.
Hint Resolve goes_dev_open goes_dev_close : goes.

Lemma goes_fd_to_struct_file a fd : goes a a (fd_to_struct_file self fd).
Proof. unfold fd_to_struct_file. goes. Qed.

Lemma goes_fdalloc a f : goes a a (fdalloc self f).
Proof. unfold fdalloc. goes. Qed.
Hint Resolve goes_fd_to_struct_file goes_fdalloc : goes.

Lemma goes_start_dir a fd path : goes a a (start_dir self fd path).
Proof. unfold start_dir. goes. Qed.
Hint Resolve goes_start_dir : goes.

Lemma goes_namei a fd path : goes a a (namei_with_fd self de dev_read fd path).
Proof. unfold namei_with_fd. goes. Qed.

Lemma goes_nameiparent a fd path : goes a a (nameiparent_with_fd self de dev_read fd path).
Proof. unfold nameiparent_with_fd. goes. Qed.
Hint Resolve goes_namei goes_nameiparent : goes.

Lemma goes_readlink_loop a fuel : ∀ i k buf n, goes a a (readlink_loop self de dev_read i k buf n fuel).
Proof. induction fuel; intros; cbn [readlink_loop]; goes. Qed.
Hint Resolve goes_readlink_loop : goes.

Lemma goes_filereadlinkat a fd path buf : goes a a (filereadlinkat self de dev_read fd path buf).
Proof. unfold filereadlinkat. goes. Qed.
Hint Resolve goes_filereadlinkat : goes.

Lemma goes_resolve_nameat a fd path : goes a a (resolve_nameat self de dev_read fd path).
Proof. unfold resolve_nameat. goes. Qed.
Hint Resolve goes_resolve_nameat : goes.

Lemma goes_lookup_path a fd path fl : goes a a (lookup_path self de dev_read fd path fl).
Proof. unfold lookup_path. goes. Qed.

Lemma goes_create a fd path md dev : goes a a (vfs_locked_inode_create self de dev_read dev_write fd path md dev).
Proof. unfold vfs_locked_inode_create. goes. Qed.

Lemma goes_find_node a b fd path : goes a a (find_node self de dev_read b fd path).
Proof. unfold find_node. goes. Qed.

Lemma goes_add_nlink a i k : goes a a (add_nlink i k).
Proof. unfold add_nlink. goes. Qed.
Hint Resolve goes_lookup_path goes_create goes_find_node goes_add_nlink : goes.

(** *** Operations on files *)

Lemma goes_vfs_close a f : a = 0 ∨ a = 1 → goes a a (vfs_close dev_close f).
Proof. intros [->| ->]; unfold vfs_close; goes. Qed.

Lemma goes_vfs_close_0 f : goes 0 0 (vfs_close dev_close f).
Proof. apply goes_vfs_close. by left. Qed.

Lemma goes_vfs_close_1 f : goes 1 1 (vfs_close dev_close f).
Proof. apply goes_vfs_close. by right. Qed.
Hint Resolve goes_vfs_close_0 goes_vfs_close_1 : goes.

Lemma goes_pipealloc a : a = 0 ∨ a = 1 → goes a a (pipealloc new_ring dev_close).
Proof. intros [->| ->]; unfold pipealloc; goes. Qed.

Lemma goes_vfs_stat f : goes 0 0 (vfs_stat f).
Proof. unfold vfs_stat. goes. Qed.

Lemma goes_vfs_read f n : goes 0 0 (vfs_read killed dev_read f n).
Proof. unfold vfs_read. goes. Qed.

Lemma goes_fileseek f n w : goes 0 0 (fileseek f n w).
Proof. unfold fileseek. goes. Qed.

Lemma goes_write_loop fuel : ∀ f i addr n k, goes 0 0 (write_loop dev_write f i addr n k fuel).
Proof. induction fuel; intros; cbn [write_loop]; goes. Qed.
Hint Resolve goes_vfs_stat goes_vfs_read goes_fileseek goes_write_loop : goes.

Lemma goes_vfs_write f addr : goes 0 0 (vfs_write killed dev_write f addr).
Proof. unfold vfs_write. goes. Qed.
Hint Resolve goes_vfs_write : goes.

Lemma goes_open_inode i fl : goes 1 0 (open_inode self dev_close i fl).
Proof. unfold open_inode. goes. Qed.
Hint Resolve goes_open_inode : goes.

Lemma goes_make_fifo i : goes 1 1 (make_fifo new_ring dev_close i).
Proof. pose proof (goes_pipealloc 1 (or_intror eq_refl)). unfold make_fifo. goes. Qed.
Hint Resolve goes_make_fifo : goes.

Lemma goes_open_fifo i fl otherwise : goes 1 0 otherwise → goes 1 0 (open_fifo self new_ring dev_close i fl otherwise).
Proof. intros. unfold open_fifo. goes. Qed.
Hint Resolve goes_open_fifo : goes.

Lemma goes_openat fd path fl md :
  goes 0 0 (vfs_openat self de new_ring dev_open dev_close dev_read dev_write fd path fl md).
Proof. unfold vfs_openat. goes. Qed.
Hint Resolve goes_openat : goes.

(** *** System calls *)

Lemma goes_argfd fd : goes 0 0 (argfd self fd).
Proof. unfold argfd. goes. Qed.
Hint Resolve goes_argfd : goes.

Lemma goes_check_fd fd k : goes 0 0 k → goes 0 0 (check_fd self fd k).
Proof. intros. unfold check_fd. goes. Qed.

Lemma goes_with_file fd k : (∀ f, goes 0 0 (k f)) → goes 0 0 (with_file self fd k).
Proof. intros. unfold with_file. goes. Qed.
Hint Resolve goes_check_fd goes_with_file : goes.

Lemma goes_dup3 fd1 fd2 fl : goes 0 0 (sys_dup3 self dev_close fd1 fd2 fl).
Proof. unfold sys_dup3, fdalloc2. goes. Qed.

Lemma goes_read fd n : goes 0 0 (sys_read self killed dev_read fd n).
Proof. unfold sys_read. goes. Qed.

Lemma goes_write fd p : goes 0 0 (sys_write self killed dev_write fd p).
Proof. unfold sys_write. goes. Qed.

Lemma goes_writev_loop k : ∀ f p b, goes 0 0 (writev_loop killed dev_write f p k b).
Proof. induction k; intros; cbn [writev_loop]; goes. Qed.
Hint Resolve goes_writev_loop : goes.

Lemma goes_writev fd l : goes 0 0 (sys_writev self killed dev_write fd l).
Proof. unfold sys_writev. apply goes_with_file. intros. goes. Qed.

Lemma goes_close fd : goes 0 0 (sys_close self dev_close fd).
Proof. unfold sys_close. apply goes_with_file. intros. goes. Qed.

Lemma goes_fstat fd : goes 0 0 (sys_fstat self fd).
Proof. unfold sys_fstat. goes. Qed.

Lemma goes_lseek fd o w : goes 0 0 (sys_lseek self fd o w).
Proof. unfold sys_lseek, file_node. apply goes_with_file. intros. goes. Qed.

Lemma goes_pipe2 fl : goes 0 0 (sys_pipe2 self new_ring dev_close fl).
Proof. pose proof (goes_pipealloc 0 (or_introl eq_refl)). unfold sys_pipe2. goes. Qed.

Lemma goes_dup_fd f fl : goes 0 0 (dup_fd self f fl).
Proof. unfold dup_fd. goes. Qed.
Hint Resolve goes_dup_fd : goes.

Lemma goes_fcntl fd op arg : goes 0 0 (sys_fcntl self fd op arg).
Proof. unfold sys_fcntl. apply goes_with_file. intros. goes. Qed.

Lemma goes_fstatat fd path fl : goes 0 0 (sys_fstatat self de dev_read fd path fl).
Proof. unfold sys_fstatat. goes. Qed.

Lemma goes_linkat fd1 old fd2 new fl : goes 0 0 (sys_linkat self de dev_read dev_write fd1 old fd2 new fl).
Proof. unfold sys_linkat. do 2 apply goes_check_fd. goes. Qed.

Lemma goes_isdirempty_loop k : ∀ dp off, goes 1 1 (isdirempty_loop de dev_read dp off k).
Proof. induction k; intros; cbn [isdirempty_loop]; goes. Qed.
Hint Resolve goes_isdirempty_loop : goes.

Lemma goes_isdirempty dp : goes 1 1 (isdirempty de dev_read dp).
Proof. unfold isdirempty. goes. Qed.
Hint Resolve goes_isdirempty : goes.

Lemma goes_unlinkat fd path fl : goes 0 0 (sys_unlinkat self de dev_read dev_write fd path fl).
Proof. unfold sys_unlinkat. apply goes_check_fd. goes. Qed.

Lemma goes_sys_openat fd path fl md um :
  goes 0 0 (sys_openat self de new_ring dev_open dev_close dev_read dev_write fd path fl md um).
Proof. unfold sys_openat. goes. Qed.

Lemma goes_create_node fd path md dev : goes 0 0 (create_node self de dev_read dev_write fd path md dev).
Proof. unfold create_node. goes. Qed.
Hint Resolve goes_create_node : goes.

Lemma goes_mkdirat fd path md um : goes 0 0 (sys_mkdirat self de dev_read dev_write fd path md um).
Proof. unfold sys_mkdirat. goes. Qed.

Lemma goes_mknodat fd path md dev : goes 0 0 (sys_mknodat self de dev_read dev_write fd path md dev).
Proof. unfold sys_mknodat. goes. Qed.

Lemma goes_chdir path : goes 0 0 (sys_chdir self de dev_read path).
Proof. unfold sys_chdir. goes. Qed.

Lemma goes_chmod_node i md : goes 0 0 (chmod_node i md).
Proof. unfold chmod_node. goes. Qed.
Hint Resolve goes_chmod_node : goes.

Lemma goes_symlinkat target fd path : goes 0 0 (sys_symlinkat self de dev_read dev_write target fd path).
Proof. unfold sys_symlinkat. apply goes_check_fd. goes. Qed.

Lemma goes_readlinkat fd path buf : goes 0 0 (sys_readlinkat self de dev_read fd path buf).
Proof. unfold sys_readlinkat. goes. Qed.

Lemma goes_faccessat c fd path md : goes 0 0 (sys_faccessat self de dev_read c fd path md).
Proof. unfold sys_faccessat. apply goes_check_fd. goes. Qed.

(** *** The calls with an error path of their own *)

Definition goes_if (P : Z → Prop) (a b : Z) (m : VFS Z) : Prop := ∀ s o,
  0 ≤ o → o < 2 ^ 62 → outstanding s = o + a → wlp m (λ r s', P r → outstanding s' = o + b) s.

Lemma goes_if_goes P a b m : goes a b m → goes_if P a b m.
Proof. intros H s o H0 H1 E. eapply wlp_mono; [by apply H|]. done. Qed.

Lemma goes_if_bind {A} P a b c (m : VFS A) k : goes a b m → (∀ x, goes_if P b c (k x)) → goes_if P a c (m ≫= k).
Proof. intros Hm Hk s o H0 H1 Ho. apply wlp_bind. eapply wlp_mono; [by apply (Hm s o)|]. cbn. intros x s' Hs'. by apply Hk. Qed.

Lemma goes_if_not (P : Z → Prop) a b r : ¬ P r → goes_if P a b (mret r).
Proof. intros H s o _ _ _ HP. done. Qed.

Lemma goes_fchmodat fd path md fl : goes_if (λ r, r ≠ - EINVAL) 0 0 (sys_fchmodat self de dev_read fd path md fl).
Proof.
  unfold sys_fchmodat, check_fd. eapply goes_if_bind; [apply goes_argfd|]. intros [e|o]; [apply goes_if_goes; goes|].
  eapply goes_if_bind; [apply goes_find_node|]. intros [i|]; [by apply goes_if_goes, goes_chmod_node|].
  intros s o' _ _ _. apply wlp_any. intros _ t. apply wlp_ret. done.
Qed.

Lemma wlp_argfd_error fd s : wlp (argfd self fd) (λ r _, ∀ e, r = inl e → e = - EBADF ∨ e = - ENFILE) s.
Proof.
  unfold argfd. case_match; [done|]. case_match; [by apply wlp_ret; intros e [= <-]; left|].
  case_match; [by apply wlp_ret; intros e [= <-]; right|]. do 2 (apply wlp_any; intros ? ?).
  case_match; apply wlp_ret; [done|]. intros e [= <-]. by left.
Qed.

Lemma goes_fchmod fd md : goes_if (λ r, r ≠ - EBADF ∧ r ≠ - ENFILE) 0 0 (sys_fchmod self fd md).
Proof.
  intros s o H0 H1 Ho. unfold sys_fchmod. apply wlp_bind.
  eapply wlp_mono; [apply wlp_and; [apply wlp_argfd_error|by apply (goes_argfd fd s o)]|]. intros [e|f] t [He Ht].
  - apply wlp_any. intros _ t'. apply wlp_ret. intros [? ?]. by destruct (He e eq_refl).
  - assert (goes 0 0 (f ← from_option f; x ← the_file f; i ← from_option (ip x); chmod_node i md)) as G by goes.
    eapply wlp_mono; [by apply (G t o)|]. done.
Qed.

Lemma goes_rename_loop k : ∀ dp ndp dir e off,
  goes_if (λ r, r ≠ - EEXIST) 1 0 (rename_loop de dev_read dev_write dp ndp dir e off k).
Proof.
  induction k as [|k IH]; intros; [done|]. cbn [rename_loop].
  eapply goes_if_bind; [goes|]. intros n. case_match; [|apply goes_if_goes; goes].
  eapply goes_if_bind; [goes|]. intros [r bs]. case_match; [apply goes_if_goes; goes|].
  eapply goes_if_bind; [goes|]. intros c. case_match; [|apply IH]. cbv zeta.
  eapply goes_if_bind; [goes|]. intros r'. case_match; [apply goes_if_goes; goes|].
  eapply (goes_if_bind _ 1 1); [goes|]. intros _. eapply goes_if_bind; [goes|]. intros r2.
  eapply (goes_if_bind _ 1 1); [goes|]. intros _. case_match; [by apply goes_if_not; intros HN|apply goes_if_goes; goes].
Qed.

Lemma goes_renameat fd1 old fd2 new :
  goes_if (λ r, r ≠ - EEXIST) 0 0 (sys_renameat self de dev_read dev_write fd1 old fd2 new).
Proof.
  unfold sys_renameat, check_fd. do 2 (eapply goes_if_bind; [apply goes_argfd|]; intros [?|?]; [apply goes_if_goes; goes|]).
  eapply goes_if_bind; [goes|]. intros _. eapply goes_if_bind; [goes|]. intros [i1|]; [|apply goes_if_goes; goes].
  eapply goes_if_bind; [goes|]. intros _. eapply goes_if_bind; [goes|]. intros [[i2 ?]|]; [|apply goes_if_goes; goes].
  eapply goes_if_bind; [goes|]. intros _. eapply goes_if_bind; [goes|]. intros d. eapply goes_if_bind; [goes|]. intros nd.
  destruct d as [[dp dir]|], nd as [[ndp ?]|]; try solve [apply goes_if_goes; goes].
  do 2 (eapply goes_if_bind; [goes|]; intros ?). apply goes_rename_loop.
Qed.

End calls.

Section system.
Context (dev_open : Z → option (Z → Z → VFS Z)) (dev_close : Z → option (Z → VFS Z)).
Context (dev_read : Z → option (Z → nat → Z → FS (Z * list Z))).
Context (dev_write : Z → option (Z → nat → list Z → FS Z)).

(** The errors after which the number of open transactions is wrong: [fchmod]
    and [fchmodat] close one they have not opened, [rename] leaves one open. *)
Definition balanced (c : call) (r : Z) : Prop :=
  match c with
  | Fchmodat _ _ _ _ => r ≠ - EINVAL
  | Fchmod _ _ => r ≠ - EBADF ∧ r ≠ - ENFILE
  | Renameat _ _ _ _ => r ≠ - EEXIST
  | _ => True
  end.

(** C10. Transactions are closed by the calls that open them.  Whatever a file
    system call does and whatever error it returns, on every one of its paths
    the number of open transactions is what it was before the call, so that the
    log can commit; the calls whose result is not [balanced] are left out.  The
    drivers are assumed not to leave transactions open. *)
Theorem calls_close_transactions e c s r s' :
  (∀ m k x y a, dev_open m = Some k → goes a a (k x y)) →
  (∀ m k x a, dev_close m = Some k → goes a a (k x)) →
  0 ≤ outstanding s < 2 ^ 62 → run dev_open dev_close dev_read dev_write e c s = Ok (r, s') → balanced c r →
  outstanding s' = outstanding s.
Proof.
  intros Ho Hc Hs E Hb. destruct e as [self killed de new_ring].
  assert (goes_if (balanced c) 0 0 (run dev_open dev_close dev_read dev_write (mkctx self killed de new_ring) c)) as G.
  { assert (∀ A (m : VFS (Z * A)), goes 0 0 m → goes 0 0 (r ← m; mret r.1)) as R by (intros; goes).
    destruct c; cbn [run balanced];
      try (apply goes_if_goes; first [apply R|idtac]; by auto using goes_dup3, goes_read, goes_write, goes_writev, goes_close,
        goes_fstat, goes_lseek, goes_pipe2, goes_fcntl, goes_fstatat, goes_linkat, goes_unlinkat, goes_sys_openat,
        goes_mkdirat, goes_mknodat, goes_chdir, goes_symlinkat, goes_readlinkat, goes_faccessat).
    - apply goes_fchmodat.
    - apply goes_fchmod.
    - apply goes_renameat. }
  pose proof (wlp_ok _ _ _ _ _ (G s (outstanding s) ltac:(lia) ltac:(lia) ltac:(lia)) E Hb) as H. lia.
Qed.

End system.

Lemma sys_write_run self killed dev_write fd f p s :
  0 ≤ fd < OPEN_MAX → my_ofile self s !! Z.to_nat fd = Some (Some f) →
  sys_write self killed dev_write fd p s = vfs_write killed dev_write f p s.
Proof.
  intros Hfd Hslot. unfold sys_write, with_file, argfd. unfold OPEN_MAX in Hfd.
  destruct (Z.eqb_spec fd AT_FDCWD) as [->|_]; [unfold AT_FDCWD in Hfd; lia|].
  destruct (Z.ltb_spec fd 0); [lia|]. destruct (Z.leb_spec OPEN_MAX fd) as [Hge|_]; [unfold OPEN_MAX in Hge; lia|].
  by rewrite bind_assoc, gets_bind, bind_assoc, Hslot.
Qed.

(** A write to a file opens a transaction and closes it. *)
Lemma calls_close_transactions_witness :
  ∃ s', run none none none none boot_ctx (Write 0 [104; 105]) FileIO.ex_vfs = Ok (2, s') ∧ outstanding s' = 0.
Proof.
  assert (0 ≤ outstanding FileIO.ex_vfs < 2 ^ 62) as Ho by done.
  assert (my_ofile 0 FileIO.ex_vfs !! Z.to_nat 0 = Some (Some 0%nat)) as Hs by reflexivity.
  pose proof (calls_close_transactions none none none none boot_ctx (Write 0 [104; 105]) FileIO.ex_vfs 2) as H.
  pose proof (sys_write_run 0 false none 0 0 [104; 105] FileIO.ex_vfs ltac:(done) Hs) as W.
  destruct (FileIO.ex_write false none) as [s' E]. rewrite <- W in E.
  exists s'. split; [exact E|]. apply (H s'); [discriminate|discriminate|exact Ho|exact E|exact I].
Defined.

(** [fchmod] on a descriptor that is not open closes a transaction that was
    never opened.  When no other is open, the unsigned count wraps around; from
    then on a call that opens a transaction is not counted in it, and the first
    block it logs is a panic: any process can stop the kernel with two calls. *)
Theorem fchmod_bad_fd_breaks_log self fd md s :
  outstanding s = 0 → 0 ≤ fd < OPEN_MAX → my_ofile self s !! Z.to_nat fd = Some None →
  ∃ s', sys_fchmod self fd md s = Ok (- EBADF, s') ∧ outstanding s' = 2 ^ 64 - 1 ∧
    ∀ A (m : FS A) a t, m (fsys s') = Ok (a, t) → length (writes t) ≠ length (writes (fsys s')) →
      (begin_op ≫= λ _, onfs m) s' = Err (EPanic "log_write outside of trans").
Proof.
  intros Ho Hfd Hslot. unfold sys_fchmod, argfd. unfold OPEN_MAX in Hfd.
  destruct (Z.eqb_spec fd AT_FDCWD) as [->|_]; [unfold AT_FDCWD in Hfd; lia|].
  destruct (Z.ltb_spec fd 0); [lia|]. destruct (Z.leb_spec OPEN_MAX fd) as [Hge|_]; [unfold OPEN_MAX in Hge; lia|].
  exists (set_log (2 ^ 64 - 1) (committed s) s). split_and!.
  - rewrite bind_assoc, gets_bind, bind_assoc, Hslot. change (from_option (Some None)) with (mret (M := M vfs) (None : option nat)). rewrite !ret_bind.
    unfold end_op. rewrite bind_assoc, gets_bind, Ho. reflexivity.
  - done.
  - intros A m a t Em Hne. unfold begin_op. rewrite modify_bind. unfold onfs. cbn in Em |- *. rewrite Em.
    destruct (Nat.eqb_spec (length (writes t)) (length (writes (fsys s)))); [done|]. done.
Qed.

Lemma fchmod_bad_fd_breaks_log_witness :
  ∃ s', sys_fchmod 0 1 0 boot = Ok (- EBADF, s') ∧
    (begin_op ≫= λ _, onfs (modify (λ t, set_writes [(0, [])] t))) s' = Err (EPanic "log_write outside of trans").
Proof.
  destruct (fchmod_bad_fd_breaks_log 0 1 0 boot) as (s' & E & _ & H); [done|done|done|].
  exists s'. split; [exact E|]. vm_compute in E. injection E as <-. eapply H; [reflexivity|done].
Defined.

End FileTx.
