(* ===== verification/Lock.v ===== *)
(** * Locks (kernel/spinlock.c, ticketlock.c, sleeplock.c)

    [Spin]: the interrupt nesting of a CPU ([pushcli], [popcli]) and the
    spin lock, executed by any number of CPUs one atomic instruction at a
    time; [Ticket]: the ticket lock; [Sleep]: the sleep lock, whose calls run
    in quanta under the spin lock that protects it. *)

From S2P Require Import Prelude.

Module Spin.

(** ** One CPU's interrupt state

    [FL_IF] is the interrupt flag of the CPU's [rflags]. *)
Record cpu := mkcpu {
  FL_IF : bool;
  ncli : Z;
  intena : bool;
}.

Definition pushcli : M cpu unit := λ c,
  let rflags := FL_IF c in
  let c := mkcpu false (ncli c) (intena c) in
  let c := if ncli c =? 0 then mkcpu (FL_IF c) (ncli c) rflags else c in
  if ncli c =? INT_MAX then Err EFault
  else Ok (tt, mkcpu (FL_IF c) (ncli c + 1) (intena c)).

Definition popcli : M cpu unit := λ c,
  if FL_IF c then Err (EPanic "popcli - interruptible")
  else
    let c := mkcpu (FL_IF c) (ncli c - 1) (intena c) in
    if ncli c <? 0 then Err (EPanic "popcli")
    else if (ncli c =? 0) && intena c then Ok (tt, mkcpu true (ncli c) (intena c))
    else Ok (tt, c).

(** ** The lock word

    [lk_cpu] is the index of the CPU that [lk->cpu] points to. *)
Record spinlock := mklock {
  locked : Z;
  lk_cpu : option nat;
}.

Definition initlock : spinlock := mklock 0 None.

(** [holding] runs with interrupts off; it reads the lock twice. *)
Definition holding (me : nat) (l : spinlock) : M cpu bool :=
  _ ← pushcli;
  let r := negb (locked l =? 0) && bool_decide (lk_cpu l = Some me) in
  _ ← popcli;
  mret r.

(** [acquire] up to its loop, one turn of the loop, and what follows it. *)
Definition acquire_enter (me : nat) (l : spinlock) : M cpu unit :=
  _ ← pushcli;
  h ← holding me l;
  kernel_assert (negb h).

Definition acquire_exchange (l : spinlock) : Z * spinlock :=
  (locked l, mklock 1 (lk_cpu l)).

Definition acquire_done (me : nat) (l : spinlock) : spinlock :=
  mklock (locked l) (Some me).

(** [release]: the assertion and the store to [lk->cpu], then the store that
    frees the lock, then [popcli]. *)
Definition release_enter (me : nat) (l : spinlock) : M cpu spinlock :=
  h ← holding me l;
  _ ← kernel_assert h;
  mret (mklock (locked l) None).

Definition release_store (l : spinlock) : spinlock := mklock 0 (lk_cpu l).

(** [getcallerpcs_with_bp]: follow the chain of saved frame pointers, then
    clear the entries that are left. *)
Definition KERNBASE : Z := 0xFFFFFFFF80000000.

Fixpoint getcallerpcs_with_bp (rd : Z → option Z) (rbp : Z) (size : nat) : res (list Z) :=
  match size with
  | O => Ok []
  | S size' =>
      if (rbp =? 0) || (rbp <? KERNBASE) || (rbp =? 0xffffffff) then Ok (replicate size 0)
      else
        match rd (u64 (rbp + 8)), rd rbp with
        | Some pc, Some up => pcs ← getcallerpcs_with_bp rd up size'; Ok (pc :: pcs)
        | _, _ => Err EFault
        end
  end.

(** ** Any number of CPUs competing for one lock

    [Pc] is where a CPU stands with respect to the lock; [extra] counts the
    other [pushcli]s it has open. *)
Inductive pc := Out | Spinning | Taken | Inside | Leaving | Freed.

#[global] Instance pc_eq_dec : EqDecision pc.
Proof. solve_decision. Defined.

Record core := mkcore {
  c_cpu : cpu;
  c_pc : pc;
  extra : Z;
}.

Record machine := mkmachine {
  cores : gmap nat core;
  lk : spinlock;
}.

Inductive label := Go | Push | Pop.

(** One step of CPU [i]; [None] is a panic. *)
Definition move (i : nat) (a : label) (co : core) (l : spinlock) : option (core * spinlock) :=
  match a, c_pc co with
  | Go, Out =>
      match acquire_enter i l (c_cpu co) with
      | Ok (_, c) => Some (mkcore c Spinning (extra co), l)
      | Err _ => None
      end
  | Go, Spinning =>
      let '(old, l') := acquire_exchange l in
      Some (mkcore (c_cpu co) (if old =? 0 then Taken else Spinning) (extra co), l')
  | Go, Taken => Some (mkcore (c_cpu co) Inside (extra co), acquire_done i l)
  | Go, Inside =>
      match release_enter i l (c_cpu co) with
      | Ok (l', c) => Some (mkcore c Leaving (extra co), l')
      | Err _ => None
      end
  | Go, Leaving => Some (mkcore (c_cpu co) Freed (extra co), release_store l)
  | Go, Freed =>
      match popcli (c_cpu co) with
      | Ok (_, c) => Some (mkcore c Out (extra co), l)
      | Err _ => None
      end
  | Push, _ =>
      match pushcli (c_cpu co) with
      | Ok (_, c) => Some (mkcore c (c_pc co) (extra co + 1), l)
      | Err _ => None
      end
  | Pop, _ =>
      match popcli (c_cpu co) with
      | Ok (_, c) => Some (mkcore c (c_pc co) (extra co - 1), l)
      | Err _ => None
      end
  end.

(** The client's discipline: every [Pop] closes a [Push] of its own, and the
    nesting never comes near the bound of an [int]. *)
Definition allowed (a : label) (co : core) : Prop :=
  ncli (c_cpu co) < INT_MAX - 2 ∧ (a = Pop → 0 < extra co).

Inductive step : machine → machine → Prop :=
| step_core i a co co' l l' m :
    cores m !! i = Some co → lk m = l → allowed a co →
    move i a co l = Some (co', l') →
    step m (mkmachine (<[i := co']> (cores m)) l').

Definition boot (n : nat) : machine :=
  mkmachine (gset_to_gmap (mkcore (mkcpu true 0 false) Out 0) (list_to_set (seq 0 n))) initlock.

Definition reachable (n : nat) (m : machine) : Prop := rtc step (boot n) m.

(** ** The invariant *)

Definition owner (p : pc) : bool :=
  match p with Taken | Inside | Leaving => true | _ => false end.
Definition held (p : pc) : Z := match p with Out => 0 | _ => 1 end.

Definition core_ok (co : core) : Prop :=
  0 ≤ extra co ∧ ncli (c_cpu co) = extra co + held (c_pc co) ∧
  (0 < ncli (c_cpu co) → FL_IF (c_cpu co) = false).

Record inv (m : machine) : Prop := {
  inv_core : map_Forall (λ _, core_ok) (cores m);
  inv_locked : locked (lk m) = 0 ∨ locked (lk m) = 1;
  inv_free : locked (lk m) = 0 → map_Forall (λ _ co, owner (c_pc co) = false) (cores m);
  inv_one : ∀ i j ci cj, cores m !! i = Some ci → cores m !! j = Some cj →
    owner (c_pc ci) = true → owner (c_pc cj) = true → i = j;
  inv_cpu : ∀ i, lk_cpu (lk m) = Some i ↔
    ∃ co, cores m !! i = Some co ∧ c_pc co = Inside;
}.

Lemma pushcli_ok c :
  0 ≤ ncli c < INT_MAX →
  pushcli c = Ok (tt, mkcpu false (ncli c + 1) (if ncli c =? 0 then FL_IF c else intena c)).
Proof.
  intros. unfold pushcli; cbn [ncli FL_IF intena].
  destruct (Z.eqb_spec (ncli c) 0) as [E|E]; cbn [ncli FL_IF intena].
  - rewrite E. done.
  - destruct (Z.eqb_spec (ncli c) INT_MAX); [lia|done].
Qed.

Lemma popcli_ok c :
  0 < ncli c → FL_IF c = false →
  popcli c = Ok (tt, mkcpu ((ncli c =? 1) && intena c) (ncli c - 1) (intena c)).
Proof.
  intros Hn HF. unfold popcli; cbn [ncli FL_IF intena]. rewrite HF.
  destruct (Z.ltb_spec (ncli c - 1) 0); [lia|].
  replace (ncli c =? 1) with (ncli c - 1 =? 0)
    by (destruct (Z.eqb_spec (ncli c - 1) 0), (Z.eqb_spec (ncli c) 1); lia).
  by destruct ((ncli c - 1 =? 0) && intena c) eqn:E.
Qed.

(** [holding] leaves the interrupt state as it was. *)
Lemma holding_ok me l c :
  0 ≤ ncli c < INT_MAX → (0 < ncli c → FL_IF c = false) → ncli c ≠ 0 →
  holding me l c = Ok (negb (locked l =? 0) && bool_decide (lk_cpu l = Some me), c).
Proof.
  intros Hn HF H0. unfold holding. erewrite bind_run by by apply pushcli_ok.
  cbn beta zeta. erewrite bind_run by (apply popcli_ok; cbn [ncli FL_IF]; lia || done).
  cbn [ncli FL_IF intena].
  destruct (Z.eqb_spec (ncli c) 0); [lia|]. destruct (Z.eqb_spec (ncli c + 1) 1); [lia|].
  replace (ncli c + 1 - 1) with (ncli c) by lia. cbn [andb].
  rewrite <- HF by lia. by destruct c.
Qed.

(** What the operations leave behind when they return. *)
Lemma pushcli_post c v :
  pushcli c = Ok (tt, v) → v = mkcpu false (ncli c + 1) (if ncli c =? 0 then FL_IF c else intena c).
Proof.
  unfold pushcli; cbn [ncli FL_IF intena].
  destruct (ncli c =? 0); cbn [ncli FL_IF intena]; destruct (ncli c =? INT_MAX); by intros [= <-].
Qed.

Lemma popcli_post c v :
  popcli c = Ok (tt, v) →
  FL_IF c = false ∧ 0 < ncli c ∧ ncli v = ncli c - 1 ∧ (0 < ncli v → FL_IF v = false).
Proof.
  unfold popcli; cbn [ncli FL_IF intena]. destruct (FL_IF c) eqn:E; [done|].
  destruct (Z.ltb_spec (ncli c - 1) 0); [done|].
  destruct ((ncli c - 1 =? 0) && intena c) eqn:E'; intros [= <-]; cbn [ncli FL_IF];
    split_and!; try done; try lia.
Qed.

Lemma holding_post me l c h v :
  0 ≤ ncli c → holding me l c = Ok (h, v) →
  h = negb (locked l =? 0) && bool_decide (lk_cpu l = Some me) ∧
  ncli v = ncli c ∧ (0 < ncli c → FL_IF v = false).
Proof.
  unfold holding. intros Hc ([] & c1 & H1%pushcli_post & ([] & c2 & H2 & Hr)%bind_ok)%bind_ok.
  cbn in Hr. injection Hr as <- <-. subst c1. apply popcli_post in H2 as (_ & _ & H2 & H3).
  cbn [ncli] in H2. split_and!; [done|lia|]. intros. apply H3. lia.
Qed.

Lemma acquire_enter_post me l c v :
  0 ≤ ncli c → acquire_enter me l c = Ok (tt, v) → ncli v = ncli c + 1 ∧ FL_IF v = false.
Proof.
  unfold acquire_enter.
  intros Hc ([] & c1 & H1%pushcli_post & (h & c2 & H2 & Hr)%bind_ok)%bind_ok.
  subst c1. apply holding_post in H2 as (_ & H2 & H3); [|cbn [ncli]; lia]. cbn [ncli] in *.
  unfold kernel_assert in Hr. destruct (negb h); [|done]. injection Hr as <-. split; [done|]. apply H3. lia.
Qed.

Lemma release_enter_post me l c l' v :
  0 ≤ ncli c → release_enter me l c = Ok (l', v) →
  l' = mklock (locked l) None ∧ ncli v = ncli c ∧ (0 < ncli c → FL_IF v = false).
Proof.
  unfold release_enter.
  intros Hc (h & c1 & H1 & ([] & c2 & H2 & Hr)%bind_ok)%bind_ok.
  unfold kernel_assert in H2. destruct h; [|done]. injection H2 as <-. injection Hr as <- <-.
  by apply holding_post in H1 as (_ & ? & ?).
Qed.

(** What one step does to the core: total on the cores and locks the invariant
    allows. *)
Lemma move_ok i a co m :
  inv m → cores m !! i = Some co → allowed a co →
  ∃ co' l', move i a co (lk m) = Some (co', l') ∧ core_ok co' ∧
    match a, c_pc co with
    | Go, Out => c_pc co' = Spinning ∧ l' = lk m
    | Go, Spinning => c_pc co' = (if locked (lk m) =? 0 then Taken else Spinning) ∧
        l' = mklock 1 (lk_cpu (lk m))
    | Go, Taken => c_pc co' = Inside ∧ l' = mklock (locked (lk m)) (Some i)
    | Go, Inside => c_pc co' = Leaving ∧ l' = mklock (locked (lk m)) None
    | Go, Leaving => c_pc co' = Freed ∧ l' = mklock 0 (lk_cpu (lk m))
    | Go, Freed => c_pc co' = Out ∧ l' = lk m
    | _, _ => c_pc co' = c_pc co ∧ l' = lk m
    end.
Proof.
  intros I Hi [Hmax Hpop]. destruct (inv_core _ I _ _ Hi) as (He & Hn & HF).
  assert (0 ≤ held (c_pc co)) by (destruct (c_pc co); cbn; lia).
  destruct co as [c p e]; cbn [c_cpu c_pc extra] in *.
  destruct a; unfold move; cbn [c_cpu c_pc extra].
  - destruct p; cbn [held] in *.
    + assert (acquire_enter i (lk m) c =
        Ok (tt, mkcpu false (ncli c + 1) (if ncli c =? 0 then FL_IF c else intena c))) as ->.
      { unfold acquire_enter. erewrite bind_run by (apply pushcli_ok; lia).
        cbn beta. erewrite bind_run by (apply holding_ok; cbn [ncli FL_IF]; lia || done).
        cbn beta. rewrite (bool_decide_false (lk_cpu (lk m) = Some i)).
        2:{ intros (co & Hco & Hp)%(inv_cpu _ I). rewrite Hi in Hco. by simplify_eq/=. }
        by rewrite andb_false_r. }
      eexists _, _; split; [done|]. split; [|done].
      split_and!; cbn [extra c_cpu ncli c_pc held FL_IF]; lia || done.
    + cbn [acquire_exchange]. eexists _, _; split; [done|]. split; [|done].
      split_and!; cbn [extra c_cpu ncli c_pc held FL_IF]; [lia| |done].
      by destruct (locked (lk m) =? 0); cbn [held].
    + eexists _, _; split; [done|]. split; [|done]. split_and!; cbn; lia || done.
    + assert (release_enter i (lk m) c = Ok (mklock (locked (lk m)) None, c)) as ->.
      { unfold release_enter. erewrite bind_run by (apply holding_ok; lia || done).
        cbn beta. rewrite bool_decide_true by (apply (inv_cpu _ I); eauto).
        destruct (Z.eqb_spec (locked (lk m)) 0) as [E|E]; [|done].
        by specialize (inv_free _ I E _ _ Hi). }
      eexists _, _; split; [done|]. split; [|done]. split_and!; cbn; lia || done.
    + eexists _, _; split; [done|]. split; [|done]. split_and!; cbn; lia || done.
    + rewrite popcli_ok by (lia || apply HF; lia). eexists _, _; split; [done|].
      split; [|done]. split_and!; cbn [extra c_cpu ncli c_pc held FL_IF]; [lia..|].
      intros. destruct (Z.eqb_spec (ncli c) 1); [lia|done].
  - rewrite pushcli_ok by lia. eexists _, _; split; [done|]. split; [|done].
    split_and!; cbn [extra c_cpu ncli c_pc FL_IF]; lia || done.
  - specialize (Hpop eq_refl). rewrite popcli_ok by (lia || apply HF; lia).
    eexists _, _; split; [done|]. split; [|by destruct p].
    split_and!; cbn [extra c_cpu ncli c_pc FL_IF]; [lia..|].
    intros. destruct (Z.eqb_spec (ncli c) 1); [lia|done].
Qed.

Lemma spin_boot_inv n : inv (boot n).
Proof.
  assert (∀ i co, cores (boot n) !! i = Some co → co = mkcore (mkcpu true 0 false) Out 0) as H.
  { intros i co [? ?]%lookup_gset_to_gmap_Some. done. }
  split; cbn [lk initlock boot locked lk_cpu].
  - intros i co ->%H. split_and!; cbn; lia || done.
  - by left.
  - by intros _ i co ->%H.
  - by intros i j ci cj ->%H _ ?.
  - intros i. split; [done|]. by intros (co & ->%H & ?).
Qed.

Lemma spin_step_inv m m' : step m m' → inv m → inv m'.
Proof.
  intros Hs I. destruct Hs as [i a co co' l l' m Hi <- Ha Hm].
  destruct (move_ok i a co m I Hi Ha) as (co1 & l1 & Hm' & Hok & Hcase).
  rewrite Hm' in Hm. simplify_eq.
  pose proof (inv_free _ I) as If. pose proof (inv_one _ I) as Io.
  pose proof (inv_cpu _ I) as Ic. pose proof (inv_locked _ I) as Il.
  assert (∀ j cj, cores m !! j = Some cj → owner (c_pc cj) = true → locked (lk m) ≠ 0) as Hown.
  { intros j cj Hj Ho Hz. pose proof (If Hz _ _ Hj) as Hn. cbn beta in Hn. congruence. }
  specialize (Hown i co Hi) as Howni.
  assert (c_pc co = Inside ↔ lk_cpu (lk m) = Some i) as Hin.
  { rewrite Ic. split; [eauto|]. intros (? & ? & ?). congruence. }
  assert (owner (c_pc co') = true → owner (c_pc co) = true ∨ locked (lk m) = 0) as Hnew.
  { destruct a, (c_pc co); destruct Hcase as [-> _]; cbn; auto.
    destruct (Z.eqb_spec (locked (lk m)) 0); auto. }
  split; cbn [cores lk].
  - apply map_Forall_insert_2; [done|]. apply (inv_core _ I).
  - destruct a, (c_pc co); destruct Hcase as [_ ->]; cbn; tauto.
  - intros Hz j cj [[<- <-]|[Hne Hj]]%lookup_insert_Some.
    + destruct (owner (c_pc co')) eqn:Eo; [|done].
      destruct a, (c_pc co); destruct Hcase as [Hpc ->]; rewrite Hpc in Eo; cbn in *;
        naive_solver.
    + destruct (owner (c_pc cj)) eqn:Eo; [|done].
      destruct (decide (owner (c_pc co) = true)) as [Ho|Ho].
      { by destruct Hne; eapply Io. }
      assert (locked (lk m) ≠ 0) by eauto.
      destruct a, (c_pc co); destruct Hcase as [_ ->]; cbn in *; naive_solver.
  - assert (∀ j cj, i ≠ j → cores m !! j = Some cj → owner (c_pc cj) = true →
      owner (c_pc co') = true → False) as Hexcl.
    { intros j cj Hne Hj Hoj [Ho|Hz]%Hnew; [by destruct Hne; eapply Io|].
      by eapply Hown. }
    intros j k cj ck [[<- <-]|[Hj1 Hj2]]%lookup_insert_Some
      [[<- <-]|[Hk1 Hk2]]%lookup_insert_Some Hoj Hok'; [done|..|by eapply Io].
    + by destruct (Hexcl k ck).
    + by destruct (Hexcl j cj).
  - intros j. destruct (decide (j = i)) as [->|Hne].
    + rewrite lookup_insert_eq.
      transitivity (c_pc co' = Inside); [|split; [by eauto|by intros (? & [= <-] & ?)]].
      clear -Hcase Hin. destruct a, (c_pc co); destruct Hcase as [-> ->]; cbn [lk_cpu];
        try destruct (locked (lk m) =? 0); intuition congruence.
    + rewrite lookup_insert_ne by done.
      assert (lk_cpu l' = Some j ↔ lk_cpu (lk m) = Some j) as ->; [|apply Ic].
      assert (owner (c_pc co) = true → lk_cpu (lk m) = Some j → False) as Hex.
      { intros Ho (cj & Hj & Hp)%Ic. destruct Hne. by eapply Io; [| | |done]; rewrite ?Hp. }
      clear -Hcase Hex Hne. destruct a, (c_pc co); destruct Hcase as [_ ->];
        cbn [lk_cpu owner] in *; intuition congruence.
Qed.
Lemma spin_reachable_inv n m : reachable n m → inv m.
Proof.
  unfold reachable. intros Hr. pose proof (spin_boot_inv n) as I.
  revert I. induction Hr as [|x y z Hs _ IH]; [done|]. eauto using spin_step_inv.
Qed.

(** C26. The spin lock excludes: in every state [n] CPUs reach by any
    interleaving of their instructions, at most one is between [acquire] and
    [release]; it runs with interrupts off and [holding] is true on it and on
    no other CPU; no assertion and no [popcli] check of any step fails; and a
    CPU that exchanges on a free lock has it. *)
Theorem spinlock_mutual_exclusion n m :
  reachable n m →
  (∀ i j ci cj, cores m !! i = Some ci → cores m !! j = Some cj →
     owner (c_pc ci) = true → owner (c_pc cj) = true → i = j) ∧
  (∀ i co, cores m !! i = Some co → c_pc co ≠ Out → FL_IF (c_cpu co) = false) ∧
  (∀ i co, cores m !! i = Some co → 0 < ncli (c_cpu co) < INT_MAX →
     holding i (lk m) (c_cpu co) = Ok (bool_decide (c_pc co = Inside), c_cpu co)) ∧
  (∀ i a co, cores m !! i = Some co → allowed a co → is_Some (move i a co (lk m))) ∧
  (∀ i co, cores m !! i = Some co → c_pc co = Spinning → locked (lk m) = 0 →
     move i Go co (lk m) = Some (mkcore (c_cpu co) Taken (extra co), mklock 1 (lk_cpu (lk m)))).
Proof.
  intros I%spin_reachable_inv. split_and!.
  - apply (inv_one _ I).
  - intros i co Hi Hp. destruct (inv_core _ I _ _ Hi) as (? & Hn & HF). apply HF.
    destruct (c_pc co); cbn [held] in Hn; lia || done.
  - intros i co Hi Hn. destruct (inv_core _ I _ _ Hi) as (? & _ & HF).
    rewrite holding_ok by (lia || done). f_equal. f_equal.
    assert (lk_cpu (lk m) = Some i ↔ c_pc co = Inside) as Hc.
    { rewrite (inv_cpu _ I). split; [|eauto]. intros (? & ? & ?). by simplify_eq. }
    rewrite (bool_decide_ext _ _ Hc).
    destruct (decide (c_pc co = Inside)) as [E|]; [|by rewrite bool_decide_false, andb_false_r].
    destruct (Z.eqb_spec (locked (lk m)) 0) as [Hz|]; [|by rewrite andb_true_l].
    pose proof (inv_free _ I Hz _ _ Hi) as Ho. cbn beta in Ho. by rewrite E in Ho.
  - intros i a co Hi Ha. destruct (move_ok i a co m I Hi Ha) as (? & ? & -> & _). by eauto.
  - intros i co Hi Hp Hz. unfold move. rewrite Hp. cbn [acquire_exchange]. by rewrite Hz.
Qed.

Definition ex_machine : machine :=
  mkmachine (<[0%nat := mkcore (mkcpu false 1 true) Inside 0]> (cores (boot 2)))
    (mklock 1 (Some 0%nat)).

Lemma ex_reachable : reachable 2 ex_machine.
Proof.
  assert (∀ co co' m l', cores m !! 0%nat = Some co → allowed Go co →
    move 0 Go co (lk m) = Some (co', l') → step m (mkmachine (<[0%nat:=co']> (cores m)) l')) as Hgo.
  { intros. by eapply step_core. }
  eapply rtc_l; [by eapply Hgo|]. cbn [lk cores boot].
  eapply rtc_l; [by eapply Hgo|]. cbn [lk cores].
  eapply rtc_l; [by eapply Hgo|]. cbn [lk cores].
  unfold ex_machine. rewrite !insert_insert_eq. apply rtc_refl.
Qed.

Lemma spinlock_mutual_exclusion_witness :
  reachable 2 ex_machine ∧
  holding 0 (lk ex_machine) (mkcpu false 1 true) = Ok (true, mkcpu false 1 true).
Proof.
  pose proof ex_reachable as Hr. split; [done|].
  destruct (spinlock_mutual_exclusion 2 ex_machine Hr) as (_ & _ & H & _).
  apply (H 0%nat (mkcore (mkcpu false 1 true) Inside 0)); [reflexivity|]. split; reflexivity.
Defined.
End Spin.

(** ** The ticket lock (kernel/ticketlock.c) *)
Module Ticket.
Import Spin.

Record ticketlock := mkticket {
  now_serving : Z;
  next_ticket : Z;
  t_cpu : option nat;
}.

Definition init_ticketlock : ticketlock := mkticket 0 0 None.

Definition holding_ticketlock (tl : ticketlock) : bool :=
  negb (next_ticket tl =? now_serving tl).

(** [acquire_ticketlock] up to the ticket it draws, one poll of its loop, and
    the store of the owner; the line printed on contention is not modelled. *)
Definition draw_ticket (tl : ticketlock) : M cpu (Z * ticketlock) :=
  _ ← pushcli;
  _ ← kernel_assert (negb (holding_ticketlock tl));
  mret (next_ticket tl, mkticket (now_serving tl) (u64 (next_ticket tl + 1)) (t_cpu tl)).

Definition poll (my_ticket : Z) (tl : ticketlock) : bool := now_serving tl =? my_ticket.

Definition take (me : nat) (tl : ticketlock) : ticketlock :=
  mkticket (now_serving tl) (next_ticket tl) (Some me).

Definition release_ticketlock (tl : ticketlock) : M cpu ticketlock :=
  _ ← kernel_assert (holding_ticketlock tl);
  let tl := mkticket (u64 (now_serving tl + 1)) (next_ticket tl) None in
  _ ← popcli;
  mret tl.

(** A ticket lock that nobody holds is granted at the first poll and
    [release_ticketlock] frees it again, also where the 64-bit tickets wrap;
    but a CPU that asks for a lock another CPU holds panics at the assertion
    instead of queueing, so the tickets never order two waiters that arrive
    one after the other. *)
Theorem ticketlock_contention_panics me c tl :
  0 ≤ ncli c < INT_MAX → now_serving tl = next_ticket tl → 0 ≤ next_ticket tl < 2 ^ 64 →
  ∃ c' tl', draw_ticket tl c = Ok ((next_ticket tl, tl'), c') ∧
    poll (next_ticket tl) tl' = true ∧
    (∀ c2, 0 ≤ ncli c2 < INT_MAX → draw_ticket (take me tl') c2 = Err (EPanic "assertion failed")) ∧
    ∃ tl'' c'', release_ticketlock (take me tl') c' = Ok (tl'', c'') ∧
      holding_ticketlock tl'' = false ∧ ncli c'' = ncli c.
Proof.
  intros Hn Heq Hr.
  assert (u64 (next_ticket tl + 1) ≠ next_ticket tl) as Hne.
  { unfold wrap. destruct (decide (next_ticket tl + 1 = 2 ^ 64)) as [E|].
    - rewrite E, Z_mod_same_full. lia.
    - rewrite Z.mod_small; lia. }
  eexists _, _. split_and!.
  - unfold draw_ticket. erewrite bind_run by (by apply pushcli_ok). cbn beta.
    rewrite assert_bind; [done|]. unfold holding_ticketlock. by rewrite Heq, Z.eqb_refl.
  - unfold poll. cbn [now_serving]. by rewrite Heq, Z.eqb_refl.
  - intros c2 Hc2. unfold draw_ticket. erewrite bind_run by (by apply pushcli_ok). cbn beta.
    unfold holding_ticketlock, take; cbn [next_ticket now_serving]. rewrite Heq.
    by rewrite (proj2 (Z.eqb_neq _ _) Hne).
  - eexists _, _. split_and!.
    + unfold release_ticketlock, holding_ticketlock, take; cbn [next_ticket now_serving].
      rewrite Heq, (proj2 (Z.eqb_neq _ _) Hne). rewrite assert_bind by done.
      erewrite bind_run by (apply popcli_ok; cbn [ncli FL_IF]; lia || done). done.
    + unfold holding_ticketlock; cbn [next_ticket now_serving]. by rewrite Z.eqb_refl.
    + cbn [ncli]. lia.
Qed.

Lemma ticketlock_contention_witness :
  draw_ticket (take 0 (mkticket 0 1 None)) (mkcpu true 0 false) = Err (EPanic "assertion failed").
Proof.
  destruct (ticketlock_contention_panics 0 (mkcpu true 0 false) init_ticketlock)
    as (c' & tl' & Hd & _ & Hp & _); [split; done|done|split; done|].
  vm_compute in Hd. injection Hd as <- <-. apply Hp. split; done.
Defined.
End Ticket.

(** ** The sleep lock (kernel/sleeplock.c)

    A call of [acquiresleep] runs under [lk->lk] until it sleeps or returns;
    such a stretch is one quantum.  Threads are named by their pid. *)
Module Sleep.

Record sleeplock := mksleep {
  slocked : Z;
  spid : Z;
}.

Definition initsleeplock : sleeplock := mksleep 0 0.

(** [None]: the caller goes to sleep on the lock, still inside the loop. *)
Definition acquiresleep (pid : Z) (l : sleeplock) : option sleeplock :=
  if slocked l =? 0 then Some (mksleep 1 pid) else None.

(** [releasesleep] wakes every thread that sleeps on the lock. *)
Definition releasesleep (l : sleeplock) : sleeplock := mksleep 0 0.

Definition holdingsleep (pid : Z) (l : sleeplock) : bool :=
  negb (slocked l =? 0) && (spid l =? pid).

Inductive status := Asleep | Ready | Holder.

#[global] Instance status_eq_dec : EqDecision status.
Proof. solve_decision. Defined.

Record sys := mksys {
  slk : sleeplock;
  threads : gmap Z status;
}.

Definition wake (st : status) : status := match st with Asleep => Ready | _ => st end.

Definition settle (pid : Z) (s : sys) : sys :=
  match acquiresleep pid (slk s) with
  | Some l => mksys l (<[pid := Holder]> (threads s))
  | None => mksys (slk s) (<[pid := Asleep]> (threads s))
  end.

(** A thread calls [acquiresleep]; a woken thread goes back to the test; a
    signal wakes a sleeper; the holder calls [releasesleep]. *)
Inductive step : sys → sys → Prop :=
| step_acquire pid s : threads s !! pid = None → step s (settle pid s)
| step_retry pid s : threads s !! pid = Some Ready → step s (settle pid s)
| step_signal pid s : threads s !! pid = Some Asleep →
    step s (mksys (slk s) (<[pid := Ready]> (threads s)))
| step_release pid s : threads s !! pid = Some Holder →
    step s (mksys (releasesleep (slk s)) (delete pid (wake <$> threads s))).

Definition reachable (s : sys) : Prop := rtc step (mksys initsleeplock ∅) s.

Record inv (s : sys) : Prop := {
  inv_holder : ∀ pid, threads s !! pid = Some Holder ↔ slocked (slk s) = 1 ∧ spid (slk s) = pid;
  inv_word : slocked (slk s) = 0 ∨ slocked (slk s) = 1;
  inv_wake : slocked (slk s) = 0 → ∀ pid, threads s !! pid ≠ Some Asleep;
}.

Lemma sleep_settle_inv pid s : inv s → threads s !! pid ≠ Some Holder → inv (settle pid s).
Proof.
  intros [Ih Iw Ia] Hp. unfold settle, acquiresleep.
  destruct (Z.eqb_spec (slocked (slk s)) 0) as [E|E]; split; cbn [slk threads slocked spid].
  - intros q. destruct (decide (q = pid)) as [->|]; [by rewrite lookup_insert_eq|].
    rewrite lookup_insert_ne, Ih by done. lia.
  - by right.
  - done.
  - intros q. destruct (decide (q = pid)) as [->|]; [|by rewrite lookup_insert_ne, Ih].
    rewrite lookup_insert_eq, <- Ih. naive_solver.
  - done.
  - lia.
Qed.

Lemma sleep_step_inv s s' : step s s' → inv s → inv s'.
Proof.
  intros Hs I. destruct Hs as [pid s Hp|pid s Hp|pid s Hp|pid s Hp];
    [by apply sleep_settle_inv; rewrite ?Hp..| |].
  - destruct I as [Ih Iw Ia]. split; cbn [slk threads]; [|done|].
    + intros q. destruct (decide (q = pid)) as [->|]; [|by rewrite lookup_insert_ne, Ih].
      rewrite lookup_insert_eq, <- Ih. naive_solver.
    + intros Hz q. by destruct (Ia Hz pid).
  - destruct I as [Ih Iw Ia]. split; cbn [slk threads releasesleep slocked spid]; [|by left|].
    + intros q. split; [|lia]. intros [Hne Hq]%lookup_delete_Some.
      rewrite lookup_fmap in Hq. destruct (threads s !! q) as [[]|] eqn:E; simplify_eq/=.
      apply Ih in E, Hp. lia.
    + intros _ q [_ Hq]%lookup_delete_Some. rewrite lookup_fmap in Hq.
      by destruct (threads s !! q) as [[]|].
Qed.

Lemma sleep_reachable_inv s : reachable s → inv s.
Proof.
  unfold reachable. intros Hr.
  assert (inv (mksys initsleeplock ∅)) as I.
  { split; cbn [slk threads initsleeplock slocked spid]; [|by left|by intros _ pid].
    intros pid. rewrite lookup_empty. naive_solver. }
  revert I. induction Hr; eauto using sleep_step_inv.
Qed.

(** C27. The sleep lock, under every interleaving of acquisitions, releases and
    signals: at most one thread holds it and [holdingsleep] is true of that
    thread alone; and no thread is left sleeping on a free lock, so the waiters
    of a released lock all run again and one of them gets it. *)
Theorem sleeplock_correct s :
  reachable s →
  (∀ p q, threads s !! p = Some Holder → threads s !! q = Some Holder → p = q) ∧
  (∀ p, holdingsleep p (slk s) = true ↔ threads s !! p = Some Holder) ∧
  ((∀ p, threads s !! p ≠ Some Holder) → ∀ p st, threads s !! p = Some st →
     st = Ready ∧ threads (settle p s) !! p = Some Holder).
Proof.
  intros [Ih Iw Ia]%sleep_reachable_inv. split_and!.
  - intros p q Hp Hq. apply Ih in Hp, Hq. lia.
  - intros p. rewrite Ih. unfold holdingsleep.
    destruct (Z.eqb_spec (slocked (slk s)) 0), (Z.eqb_spec (spid (slk s)) p); cbn; intuition lia.
  - intros Hno p st Hp.
    assert (slocked (slk s) = 0) as Hz.
    { destruct Iw as [|H1]; [done|]. destruct (Hno (spid (slk s))). by apply Ih. }
    split; [destruct st; [by destruct (Ia Hz p)|done|by destruct (Hno p)]|].
    unfold settle, acquiresleep. rewrite Hz. cbn. by rewrite lookup_insert_eq.
Qed.

(** Threads 1 and 2 ask for the lock; thread 1 releases it. *)
Lemma sleeplock_correct_witness :
  reachable (mksys (mksleep 0 0) {[2 := Ready]}) ∧
  threads (settle 2 (mksys (mksleep 0 0) {[2 := Ready]})) !! 2 = Some Holder.
Proof.
  assert (reachable (mksys (mksleep 0 0) {[2 := Ready]})) as Hr.
  { eapply rtc_l; [by apply (step_acquire 1)|].
    eapply rtc_l; [by apply (step_acquire 2)|].
    eapply rtc_l; [by apply (step_release 1)|].
    by vm_compute; apply rtc_refl. }
  split; [exact Hr|].
  destruct (sleeplock_correct _ Hr) as (_ & _ & H). apply (H ltac:(intros p; cbn [threads];
    destruct (decide (p = 2)) as [->|]; [by rewrite lookup_singleton_eq|by rewrite lookup_singleton_ne]) 2 Ready).
  reflexivity.
Defined.
End Sleep.
