(* ===== verification/Proc.v ===== *)
(** * Processes and the scheduler (kernel/proc.c)

    The process table, the CPUs that run the processes, and every operation of
    proc.c that changes them.  A process that calls [sched] stops inside
    [yield], [sleep], [waitpid] or [exit]; where it resumes is kept as its
    continuation, so an operation is modelled up to its context switch and from
    the switch back on.  The page tables, files and inodes are reached through
    the interface [ProcEnv]. *)

From S2P Require Import Prelude Lock.

Module Proc.

Definition NPROC : nat := 64.
Definition NSIG : nat := 31.
Definition OPEN_MAX : nat := 100.
Definition NGROUPS_MAX : nat := 8.
Definition SYSCALL_AMT : nat := 62.
Definition NMMAP : nat := 10.
Definition KSTACKSIZE : Z := 4096.
Definition PGSIZE : Z := 4096.
Definition PROC_HAS_NO_CTTY : Z := 2 ^ 64 - 1.
Definition O_CLOFORK : Z := 0x800.

Definition ESRCH : Z := 3.
Definition EIO : Z := 5.
Definition ECHILD : Z := 10.
Definition ENOMEM : Z := 12.
Definition EFAULT : Z := 14.
Definition EINVAL : Z := 22.

Definition SIG_DFL : Z := 0.
Definition SIG_IGN : Z := 1.
Definition SIG_ERR : Z := 2 ^ 64 - 1.

Definition SIGHUP : Z := 1.
Definition SIGINT : Z := 2.
Definition SIGQUIT : Z := 3.
Definition SIGILL : Z := 4.
Definition SIGTRAP : Z := 5.
Definition SIGABRT : Z := 6.
Definition SIGBUS : Z := 7.
Definition SIGFPE : Z := 8.
Definition SIGKILL : Z := 9.
Definition SIGUSR1 : Z := 10.
Definition SIGSEGV : Z := 11.
Definition SIGUSR2 : Z := 12.
Definition SIGPIPE : Z := 13.
Definition SIGALRM : Z := 14.
Definition SIGTERM : Z := 15.
Definition SIGCHLD : Z := 17.
Definition SIGCONT : Z := 18.
Definition SIGSTOP : Z := 19.
Definition SIGTSTP : Z := 20.
Definition SIGTTIN : Z := 21.
Definition SIGTTOU : Z := 22.
Definition SIGURG : Z := 23.
Definition SIGXCPU : Z := 24.
Definition SIGXFSZ : Z := 25.
Definition SIGVTALRM : Z := 26.
Definition SIGWINCH : Z := 28.
Definition SIGSYS : Z := 31.

(** ** Data *)

Inductive procstate := UNUSED | EMBRYO | SLEEPING | RUNNABLE | RUNNING | ZOMBIE | STOPPED.

#[global] Instance procstate_eq_dec : EqDecision procstate.
Proof. solve_decision. Defined.

(** What [void *chan] points to: nothing, a process-table entry, or any other
    kernel object. *)
Inductive wchan := CNull | CProc (p : nat) | CAddr (a : Z).

#[global] Instance wchan_eq_dec : EqDecision wchan.
Proof. solve_decision. Defined.

Record cred := mkcred { uid : Z; gid : Z; euid : Z; egid : Z; gids : list Z }.

(** The registers proc.c touches; [tf_rest] holds the others of the frame. *)
Record trapframe := mktf {
  rax : Z; rdi : Z; rip : Z; cs : Z; rflags : Z; rsp : Z; ds : Z; tf_rest : list Z;
}.

(** Code addresses stored in a context: [forkret] and [trapret]. *)
Inductive code := CodeNull | CodeForkret | CodeTrapret.

(** The saved registers of a kernel context and the return address above it. *)
Record context := mkctx { ctx_regs : list Z; ctx_rip : code; ctx_ret : code }.

Record mmap_entry := mkmmap { length_ : Z; addr : Z; virt_addr : Z; file : Z; perm : Z }.

Record proc := mkproc {
  sz : Z;
  pgdir : Z;
  kstack : Z;
  state : procstate;
  pid : Z;
  pgid : Z;
  sid : Z;
  ctty : Z;
  status : Z;
  parent : option nat;
  tf : trapframe;
  ctx : context;
  chan : wchan;
  killed : Z;
  ofile : list Z;
  cwd : Z;
  p_cred : cred;
  name : list Z;
  ptrace_mask : list Z;
  mmap_info : list mmap_entry;
  mmap_count : Z;
  heap : Z;
  heapsz : Z;
  sig_handlers : list Z;
  last_signal : Z;
  umask : Z;
  legacy_fpu_state : list Z;
}.

Definition set_sz (v : Z) (p : proc) : proc := mkproc v (pgdir p) (kstack p) (state p) (pid p)
  (pgid p) (sid p) (ctty p) (status p) (parent p) (tf p) (ctx p) (chan p) (killed p) (ofile p) (cwd
  p) (p_cred p) (name p) (ptrace_mask p) (mmap_info p) (mmap_count p) (heap p) (heapsz p)
  (sig_handlers p) (last_signal p) (umask p) (legacy_fpu_state p).
Definition set_pgdir (v : Z) (p : proc) : proc := mkproc (sz p) v (kstack p) (state p) (pid p)
  (pgid p) (sid p) (ctty p) (status p) (parent p) (tf p) (ctx p) (chan p) (killed p) (ofile p) (cwd
  p) (p_cred p) (name p) (ptrace_mask p) (mmap_info p) (mmap_count p) (heap p) (heapsz p)
  (sig_handlers p) (last_signal p) (umask p) (legacy_fpu_state p).
Definition set_kstack (v : Z) (p : proc) : proc := mkproc (sz p) (pgdir p) v (state p) (pid p)
  (pgid p) (sid p) (ctty p) (status p) (parent p) (tf p) (ctx p) (chan p) (killed p) (ofile p) (cwd
  p) (p_cred p) (name p) (ptrace_mask p) (mmap_info p) (mmap_count p) (heap p) (heapsz p)
  (sig_handlers p) (last_signal p) (umask p) (legacy_fpu_state p).
Definition set_state (v : procstate) (p : proc) : proc := mkproc (sz p) (pgdir p) (kstack p) v
  (pid p) (pgid p) (sid p) (ctty p) (status p) (parent p) (tf p) (ctx p) (chan p) (killed p) (ofile
  p) (cwd p) (p_cred p) (name p) (ptrace_mask p) (mmap_info p) (mmap_count p) (heap p) (heapsz p)
  (sig_handlers p) (last_signal p) (umask p) (legacy_fpu_state p).
Definition set_pid (v : Z) (p : proc) : proc := mkproc (sz p) (pgdir p) (kstack p) (state p) v
  (pgid p) (sid p) (ctty p) (status p) (parent p) (tf p) (ctx p) (chan p) (killed p) (ofile p) (cwd
  p) (p_cred p) (name p) (ptrace_mask p) (mmap_info p) (mmap_count p) (heap p) (heapsz p)
  (sig_handlers p) (last_signal p) (umask p) (legacy_fpu_state p).
Definition set_pgid (v : Z) (p : proc) : proc := mkproc (sz p) (pgdir p) (kstack p) (state p) (pid
  p) v (sid p) (ctty p) (status p) (parent p) (tf p) (ctx p) (chan p) (killed p) (ofile p) (cwd p)
  (p_cred p) (name p) (ptrace_mask p) (mmap_info p) (mmap_count p) (heap p) (heapsz p) (sig_handlers
  p) (last_signal p) (umask p) (legacy_fpu_state p).
Definition set_sid (v : Z) (p : proc) : proc := mkproc (sz p) (pgdir p) (kstack p) (state p) (pid
  p) (pgid p) v (ctty p) (status p) (parent p) (tf p) (ctx p) (chan p) (killed p) (ofile p) (cwd p)
  (p_cred p) (name p) (ptrace_mask p) (mmap_info p) (mmap_count p) (heap p) (heapsz p) (sig_handlers
  p) (last_signal p) (umask p) (legacy_fpu_state p).
Definition set_ctty (v : Z) (p : proc) : proc := mkproc (sz p) (pgdir p) (kstack p) (state p) (pid
  p) (pgid p) (sid p) v (status p) (parent p) (tf p) (ctx p) (chan p) (killed p) (ofile p) (cwd p)
  (p_cred p) (name p) (ptrace_mask p) (mmap_info p) (mmap_count p) (heap p) (heapsz p) (sig_handlers
  p) (last_signal p) (umask p) (legacy_fpu_state p).
Definition set_status (v : Z) (p : proc) : proc := mkproc (sz p) (pgdir p) (kstack p) (state p)
  (pid p) (pgid p) (sid p) (ctty p) v (parent p) (tf p) (ctx p) (chan p) (killed p) (ofile p) (cwd
  p) (p_cred p) (name p) (ptrace_mask p) (mmap_info p) (mmap_count p) (heap p) (heapsz p)
  (sig_handlers p) (last_signal p) (umask p) (legacy_fpu_state p).
Definition set_parent (v : option nat) (p : proc) : proc := mkproc (sz p) (pgdir p) (kstack p)
  (state p) (pid p) (pgid p) (sid p) (ctty p) (status p) v (tf p) (ctx p) (chan p) (killed p) (ofile
  p) (cwd p) (p_cred p) (name p) (ptrace_mask p) (mmap_info p) (mmap_count p) (heap p) (heapsz p)
  (sig_handlers p) (last_signal p) (umask p) (legacy_fpu_state p).
Definition set_tf (v : trapframe) (p : proc) : proc := mkproc (sz p) (pgdir p) (kstack p) (state
  p) (pid p) (pgid p) (sid p) (ctty p) (status p) (parent p) v (ctx p) (chan p) (killed p) (ofile p)
  (cwd p) (p_cred p) (name p) (ptrace_mask p) (mmap_info p) (mmap_count p) (heap p) (heapsz p)
  (sig_handlers p) (last_signal p) (umask p) (legacy_fpu_state p).
Definition set_ctx (v : context) (p : proc) : proc := mkproc (sz p) (pgdir p) (kstack p) (state p)
  (pid p) (pgid p) (sid p) (ctty p) (status p) (parent p) (tf p) v (chan p) (killed p) (ofile p)
  (cwd p) (p_cred p) (name p) (ptrace_mask p) (mmap_info p) (mmap_count p) (heap p) (heapsz p)
  (sig_handlers p) (last_signal p) (umask p) (legacy_fpu_state p).
Definition set_chan (v : wchan) (p : proc) : proc := mkproc (sz p) (pgdir p) (kstack p) (state p)
  (pid p) (pgid p) (sid p) (ctty p) (status p) (parent p) (tf p) (ctx p) v (killed p) (ofile p) (cwd
  p) (p_cred p) (name p) (ptrace_mask p) (mmap_info p) (mmap_count p) (heap p) (heapsz p)
  (sig_handlers p) (last_signal p) (umask p) (legacy_fpu_state p).
Definition set_killed (v : Z) (p : proc) : proc := mkproc (sz p) (pgdir p) (kstack p) (state p)
  (pid p) (pgid p) (sid p) (ctty p) (status p) (parent p) (tf p) (ctx p) (chan p) v (ofile p) (cwd
  p) (p_cred p) (name p) (ptrace_mask p) (mmap_info p) (mmap_count p) (heap p) (heapsz p)
  (sig_handlers p) (last_signal p) (umask p) (legacy_fpu_state p).
Definition set_ofile (v : list Z) (p : proc) : proc := mkproc (sz p) (pgdir p) (kstack p) (state
  p) (pid p) (pgid p) (sid p) (ctty p) (status p) (parent p) (tf p) (ctx p) (chan p) (killed p) v
  (cwd p) (p_cred p) (name p) (ptrace_mask p) (mmap_info p) (mmap_count p) (heap p) (heapsz p)
  (sig_handlers p) (last_signal p) (umask p) (legacy_fpu_state p).
Definition set_cwd (v : Z) (p : proc) : proc := mkproc (sz p) (pgdir p) (kstack p) (state p) (pid
  p) (pgid p) (sid p) (ctty p) (status p) (parent p) (tf p) (ctx p) (chan p) (killed p) (ofile p) v
  (p_cred p) (name p) (ptrace_mask p) (mmap_info p) (mmap_count p) (heap p) (heapsz p) (sig_handlers
  p) (last_signal p) (umask p) (legacy_fpu_state p).
Definition set_p_cred (v : cred) (p : proc) : proc := mkproc (sz p) (pgdir p) (kstack p) (state p)
  (pid p) (pgid p) (sid p) (ctty p) (status p) (parent p) (tf p) (ctx p) (chan p) (killed p) (ofile
  p) (cwd p) v (name p) (ptrace_mask p) (mmap_info p) (mmap_count p) (heap p) (heapsz p)
  (sig_handlers p) (last_signal p) (umask p) (legacy_fpu_state p).
Definition set_name (v : list Z) (p : proc) : proc := mkproc (sz p) (pgdir p) (kstack p) (state p)
  (pid p) (pgid p) (sid p) (ctty p) (status p) (parent p) (tf p) (ctx p) (chan p) (killed p) (ofile
  p) (cwd p) (p_cred p) v (ptrace_mask p) (mmap_info p) (mmap_count p) (heap p) (heapsz p)
  (sig_handlers p) (last_signal p) (umask p) (legacy_fpu_state p).
Definition set_ptrace_mask (v : list Z) (p : proc) : proc := mkproc (sz p) (pgdir p) (kstack p)
  (state p) (pid p) (pgid p) (sid p) (ctty p) (status p) (parent p) (tf p) (ctx p) (chan p) (killed
  p) (ofile p) (cwd p) (p_cred p) (name p) v (mmap_info p) (mmap_count p) (heap p) (heapsz p)
  (sig_handlers p) (last_signal p) (umask p) (legacy_fpu_state p).
Definition set_mmap_info (v : list mmap_entry) (p : proc) : proc := mkproc (sz p) (pgdir p)
  (kstack p) (state p) (pid p) (pgid p) (sid p) (ctty p) (status p) (parent p) (tf p) (ctx p) (chan
  p) (killed p) (ofile p) (cwd p) (p_cred p) (name p) (ptrace_mask p) v (mmap_count p) (heap p)
  (heapsz p) (sig_handlers p) (last_signal p) (umask p) (legacy_fpu_state p).
Definition set_mmap_count (v : Z) (p : proc) : proc := mkproc (sz p) (pgdir p) (kstack p) (state
  p) (pid p) (pgid p) (sid p) (ctty p) (status p) (parent p) (tf p) (ctx p) (chan p) (killed p)
  (ofile p) (cwd p) (p_cred p) (name p) (ptrace_mask p) (mmap_info p) v (heap p) (heapsz p)
  (sig_handlers p) (last_signal p) (umask p) (legacy_fpu_state p).
Definition set_heap (v : Z) (p : proc) : proc := mkproc (sz p) (pgdir p) (kstack p) (state p) (pid
  p) (pgid p) (sid p) (ctty p) (status p) (parent p) (tf p) (ctx p) (chan p) (killed p) (ofile p)
  (cwd p) (p_cred p) (name p) (ptrace_mask p) (mmap_info p) (mmap_count p) v (heapsz p)
  (sig_handlers p) (last_signal p) (umask p) (legacy_fpu_state p).
Definition set_heapsz (v : Z) (p : proc) : proc := mkproc (sz p) (pgdir p) (kstack p) (state p)
  (pid p) (pgid p) (sid p) (ctty p) (status p) (parent p) (tf p) (ctx p) (chan p) (killed p) (ofile
  p) (cwd p) (p_cred p) (name p) (ptrace_mask p) (mmap_info p) (mmap_count p) (heap p) v
  (sig_handlers p) (last_signal p) (umask p) (legacy_fpu_state p).
Definition set_sig_handlers (v : list Z) (p : proc) : proc := mkproc (sz p) (pgdir p) (kstack p)
  (state p) (pid p) (pgid p) (sid p) (ctty p) (status p) (parent p) (tf p) (ctx p) (chan p) (killed
  p) (ofile p) (cwd p) (p_cred p) (name p) (ptrace_mask p) (mmap_info p) (mmap_count p) (heap p)
  (heapsz p) v (last_signal p) (umask p) (legacy_fpu_state p).
Definition set_last_signal (v : Z) (p : proc) : proc := mkproc (sz p) (pgdir p) (kstack p) (state
  p) (pid p) (pgid p) (sid p) (ctty p) (status p) (parent p) (tf p) (ctx p) (chan p) (killed p)
  (ofile p) (cwd p) (p_cred p) (name p) (ptrace_mask p) (mmap_info p) (mmap_count p) (heap p)
  (heapsz p) (sig_handlers p) v (umask p) (legacy_fpu_state p).
Definition set_umask (v : Z) (p : proc) : proc := mkproc (sz p) (pgdir p) (kstack p) (state p)
  (pid p) (pgid p) (sid p) (ctty p) (status p) (parent p) (tf p) (ctx p) (chan p) (killed p) (ofile
  p) (cwd p) (p_cred p) (name p) (ptrace_mask p) (mmap_info p) (mmap_count p) (heap p) (heapsz p)
  (sig_handlers p) (last_signal p) v (legacy_fpu_state p).
Definition set_legacy_fpu_state (v : list Z) (p : proc) : proc := mkproc (sz p) (pgdir p) (kstack
  p) (state p) (pid p) (pgid p) (sid p) (ctty p) (status p) (parent p) (tf p) (ctx p) (chan p)
  (killed p) (ofile p) (cwd p) (p_cred p) (name p) (ptrace_mask p) (mmap_info p) (mmap_count p)
  (heap p) (heapsz p) (sig_handlers p) (last_signal p) (umask p) v.

(** ** The interface to memory management and the file system

    Pointers to page directories, files and inodes are addresses; 0 is NULL. *)
Class ProcEnv (E : Type) := {
  kpage_alloc : M E Z;
  kpage_free : Z → M E unit;
  setupkvm : M E Z;
  inituvm : Z → M E unit;
  copyuvm : Z → Z → M E Z;
  freevm : Z → M E unit;
  allocuvm : Z → Z → Z → M E Z;
  deallocuvm : Z → Z → Z → M E Z;
  switchuvm : Z → Z → M E unit;
  switchkvm : M E unit;
  mappages : Z → mmap_entry → M E Z;
  copyout : Z → Z → Z → M E Z;
  clean_fpu : M E (list Z);
  file_ref : Z → M E Z;
  file_flags : Z → M E Z;
  vfs_close : Z → M E Z;
  filedup : Z → Z → M E Z;
  inode_dup : Z → M E Z;
  inode_put : Z → M E unit;
  begin_op : M E unit;
  end_op : M E unit;
  namei_root : M E Z;
  fs_init : M E unit;
}.

(** ** Control

    Where a process that called [sched] resumes: in [forkret], at the end of
    [yield], after the [sched] of [sleep] (called with [ptable.lock] or with
    another lock), in the loop of [waitpid], or after the [sched] of [exit]. *)
Inductive kont := KForkret | KYield | KSleep (other : bool) | KWait (want : Z) | KExit.

#[global] Instance kont_eq_dec : EqDecision kont.
Proof. solve_decision. Defined.

(** [k_intena] is the local variable of [sched]; [k_new] the local variable
    [np] of a [fork] in progress. *)
Record kthread := mkkth { k_at : kont; k_intena : bool; k_new : option nat }.

(** A CPU: its interrupt state, [c->proc], and the scheduler's position in the
    process table while it holds [ptable.lock]. *)
Record cpu := mkcpu { c_int : Spin.cpu; c_proc : option nat; c_scan : option nat }.

Record sys (E : Type) := mksys {
  procs : list proc;
  nextpid : Z;
  initproc : option nat;
  plock : Spin.spinlock;
  cpus : list cpu;
  kths : list kthread;
  first : bool;
  env : E;
}.
Arguments mksys {E}.
Arguments procs {E}.
Arguments nextpid {E}.
Arguments initproc {E}.
Arguments plock {E}.
Arguments cpus {E}.
Arguments kths {E}.
Arguments first {E}.
Arguments env {E}.

Section proc.
Context {E : Type} `{!ProcEnv E}.
Abbreviation S := (sys E).

Definition set_procs v (s : S) : S :=
  mksys v (nextpid s) (initproc s) (plock s) (cpus s) (kths s) (first s) (env s).
Definition set_nextpid v (s : S) : S :=
  mksys (procs s) v (initproc s) (plock s) (cpus s) (kths s) (first s) (env s).
Definition set_initproc v (s : S) : S :=
  mksys (procs s) (nextpid s) v (plock s) (cpus s) (kths s) (first s) (env s).
Definition set_plock v (s : S) : S :=
  mksys (procs s) (nextpid s) (initproc s) v (cpus s) (kths s) (first s) (env s).
Definition set_cpus v (s : S) : S :=
  mksys (procs s) (nextpid s) (initproc s) (plock s) v (kths s) (first s) (env s).
Definition set_kths v (s : S) : S :=
  mksys (procs s) (nextpid s) (initproc s) (plock s) (cpus s) v (first s) (env s).
Definition set_first v (s : S) : S :=
  mksys (procs s) (nextpid s) (initproc s) (plock s) (cpus s) (kths s) v (env s).
Definition set_env v (s : S) : S :=
  mksys (procs s) (nextpid s) (initproc s) (plock s) (cpus s) (kths s) (first s) v.

Definition io {A} (m : M E A) : M S A := zoom env set_env m.

Definition the_proc (i : nat) : M S proc := λ s, from_option (procs s !! i) s.
Definition the_cpu (me : nat) : M S cpu := λ s, from_option (cpus s !! me) s.
Definition the_kth (i : nat) : M S kthread := λ s, from_option (kths s !! i) s.

(** [p->field = ...] *)
Definition upd (i : nat) (f : proc → proc) : M S unit :=
  modify (λ s, set_procs (alter f i (procs s)) s).
Definition upd_cpu (me : nat) (f : cpu → cpu) : M S unit :=
  modify (λ s, set_cpus (alter f me (cpus s)) s).
Definition upd_kth (i : nat) (f : kthread → kthread) : M S unit :=
  modify (λ s, set_kths (alter f i (kths s)) s).

Definition set_int (v : Spin.cpu) (c : cpu) : cpu := mkcpu v (c_proc c) (c_scan c).
Definition set_cproc (v : option nat) (c : cpu) : cpu := mkcpu (c_int c) v (c_scan c).
Definition set_scan (v : option nat) (c : cpu) : cpu := mkcpu (c_int c) (c_proc c) v.
Definition set_intena (b : bool) (c : cpu) : cpu :=
  set_int (Spin.mkcpu (Spin.FL_IF (c_int c)) (Spin.ncli (c_int c)) b) c.
Definition set_new (v : option nat) (k : kthread) : kthread := mkkth (k_at k) (k_intena k) v.

(** ** Locking [ptable.lock]

    [on_cpu] runs an operation of spinlock.c on the interrupt state of this
    CPU.  A CPU that finds the lock taken spins: the step cannot be taken. *)
Definition on_cpu {A} (me : nat) (m : M Spin.cpu A) : M S A :=
  c ← the_cpu me;
  r ← lift (m (c_int c));
  _ ← upd_cpu me (set_int r.2);
  mret r.1.

Definition acquire (me : nat) : M S unit :=
  l ← gets plock;
  _ ← on_cpu me (Spin.acquire_enter me l);
  let '(old, l') := Spin.acquire_exchange l in
  if old =? 0 then modify (set_plock (Spin.acquire_done me l')) else fail EBlocked.

Definition release (me : nat) : M S unit :=
  l ← gets plock;
  l' ← on_cpu me (Spin.release_enter me l);
  _ ← modify (set_plock (Spin.release_store l'));
  on_cpu me Spin.popcli.

(** A lock other than [ptable.lock] counts by the interrupt nesting it keeps. *)
Definition acquire_other (me : nat) : M S unit := on_cpu me Spin.pushcli.
Definition release_other (me : nat) : M S unit := on_cpu me Spin.popcli.

Definition myproc (me : nat) : M S nat :=
  c ← the_cpu me;
  from_option (c_proc c).

(** ** [allocproc]: the part under the lock, and the rest *)

Fixpoint find_state (st : procstate) (l : list proc) : option nat :=
  match l with
  | [] => None
  | p :: l => if decide (state p = st) then Some 0%nat else Datatypes.S <$> find_state st l
  end.

Definition root_cred : cred := mkcred 0 0 0 0 (replicate NGROUPS_MAX (2 ^ 32 - 1)).

Definition embryo (n : Z) (p : proc) : proc :=
  set_ctty PROC_HAS_NO_CTTY (set_p_cred root_cred
    (set_sid n (set_pgid n (set_pid n (set_state EMBRYO p))))).

Definition allocproc_locked (me : nat) : M S (option nat) :=
  _ ← acquire me;
  ps ← gets procs;
  match find_state UNUSED ps with
  | None => _ ← release me; mret None
  | Some i =>
      n ← gets nextpid;
      _ ← (if n =? INT_MAX then fail EFault else modify (set_nextpid (n + 1)));
      _ ← upd i (embryo n);
      _ ← release me;
      mret (Some i)
  end.

Definition fresh_ctx : context := mkctx (replicate 6 0) CodeForkret CodeTrapret.

Definition kernel_ready (fpu : list Z) (p : proc) : proc :=
  set_last_signal 0 (set_sig_handlers (replicate NSIG SIG_DFL)
    (set_ptrace_mask (replicate SYSCALL_AMT 0 ++ drop SYSCALL_AMT (ptrace_mask p))
      (set_umask (Z.lor 16 2) (set_heapsz 0 (set_heap 0x2c000000
        (set_legacy_fpu_state fpu (set_mmap_count 0 (set_ctx fresh_ctx p)))))))).

Definition allocproc_rest (i : nat) : M S bool :=
  ks ← io kpage_alloc;
  _ ← upd i (set_kstack ks);
  if ks =? 0 then _ ← upd i (set_state UNUSED); mret false
  else
    fpu ← io clean_fpu;
    _ ← upd i (kernel_ready fpu);
    _ ← upd_kth i (λ k, mkkth KForkret (k_intena k) (k_new k));
    mret true.

Definition allocproc (me : nat) : M S (option nat) :=
  o ← allocproc_locked me;
  match o with
  | None => mret None
  | Some i => b ← allocproc_rest i; mret (if (b : bool) then Some i else None)
  end.

(** ** [userinit], [growproc] *)

Definition initcode : list Z := [105; 110; 105; 116; 99; 111; 100; 101].

(** [memset(p->tf, 0, ..)] and the registers of the first process: the user
    code and data selectors 4 and 3 at privilege level 3, [FL_IF], the stack at
    the end of the page. *)
Definition init_tf (tf : trapframe) : trapframe :=
  mktf 0 0 0 (Z.lor (Z.shiftl 4 3) 3) (Z.shiftl 1 9) PGSIZE (Z.lor (Z.shiftl 3 3) 3)
    (replicate (length (tf_rest tf)) 0).

(** [__safestrcpy] into a 16-byte field: at most 15 bytes and a NUL; the bytes
    behind it stay. *)
Definition safestrcpy16 (src old : list Z) : list Z :=
  let s := take 15 src ++ [0] in s ++ drop (length s) old.

Definition userinit (me : nat) : M S unit :=
  o ← allocproc me;
  match o with
  | None => panic "userinit: allocproc failed"
  | Some i =>
      _ ← modify (set_initproc (Some i));
      pg ← io setupkvm;
      _ ← upd i (set_pgdir pg);
      if pg =? 0 then panic "userinit: out of memory?"
      else
        _ ← io (inituvm pg);
        _ ← upd i (λ p, set_name (safestrcpy16 initcode (name p))
                          (set_tf (init_tf (tf p)) (set_sz PGSIZE p)));
        d ← io namei_root;
        _ ← upd i (set_cwd d);
        _ ← acquire me;
        _ ← upd i (set_state RUNNABLE);
        release me
  end.

Definition growproc (me : nat) (n : Z) : M S Z :=
  i ← myproc me;
  p ← the_proc i;
  sz1 ← (if 0 <? n then io (allocuvm (pgdir p) (sz p) (u64 (sz p + n)))
         else if n <? 0 then io (deallocuvm (pgdir p) (sz p) (u64 (sz p + n)))
         else mret (sz p));
  if (0 <? n) && (sz1 =? 0) then mret (- ENOMEM)
  else if (n <? 0) && (sz1 =? 0) then mret (- EFAULT)
  else
    _ ← upd i (set_sz sz1);
    _ ← io (switchuvm (pgdir p) (kstack p));
    mret 0.

(** ** [fork] *)

(** [for (int j = 0; np->mmap_info[j].length != 0; j++)]: the loop has no other
    bound, so a full array makes it read past the end. *)
Fixpoint map_all (pg : Z) (l : list mmap_entry) : M S unit :=
  match l with
  | [] => fail EFault
  | m :: l =>
      if length_ m =? 0 then mret tt
      else
        r ← io (mappages pg m);
        if r <? 0 then panic "Could not map page" else map_all pg l
  end.

(** The descriptor loop: [i] counts up, [l] is what is left of the parent's
    table. *)
Fixpoint dup_files (np : nat) (i : nat) (l : list Z) : M S unit :=
  match l with
  | [] => mret tt
  | f :: l =>
      _ ← (if f =? 0 then mret tt
           else
             r ← io (file_ref f);
             if 0 <? r then
               fl ← io (file_flags f);
               if fl =? O_CLOFORK then _ ← io (vfs_close f); mret tt
               else g ← io (filedup f 0); upd np (λ p, set_ofile (<[i := g]> (ofile p)) p)
             else mret tt);
      dup_files np (i + 1)%nat l
  end.

Definition child_tf (t : trapframe) : trapframe :=
  mktf 0 (rdi t) (rip t) (cs t) (rflags t) (rsp t) (ds t) (tf_rest t).

(** What [fork] copies before and after the descriptor table. *)
Definition inherit_mem (cur : nat) (pg : Z) (c p : proc) : proc :=
  set_tf (child_tf (tf c)) (set_parent (Some cur)
    (set_mmap_info (mmap_info c) (set_mmap_count (mmap_count c)
      (set_heapsz (heapsz c) (set_heap (heap c) (set_sz (sz c) (set_pgdir pg p))))))).

Definition inherit_ids (d : Z) (c p : proc) : proc :=
  set_ptrace_mask (take SYSCALL_AMT (ptrace_mask c) ++ drop SYSCALL_AMT (ptrace_mask p))
    (set_name (safestrcpy16 (take 16 (name c)) (name p))
      (set_umask (umask c) (set_ctty (ctty c) (set_sid (sid c) (set_pgid (pgid c)
        (set_p_cred (p_cred c) (set_cwd d p))))))).

(** [fork] after [allocproc] found and filled slot [np], up to the last
    critical section. *)
Definition fork_copy (cur np : nat) : M S bool :=
  c ← the_proc cur;
  pg ← io (copyuvm (pgdir c) (sz c));
  if pg =? 0 then
    p ← the_proc np;
    _ ← upd np (set_pgdir 0);
    _ ← io (kpage_free (kstack p));
    _ ← upd np (λ p, set_state UNUSED (set_kstack 0 p));
    mret false
  else
    _ ← upd np (inherit_mem cur pg c);
    _ ← map_all pg (mmap_info c);
    _ ← dup_files np 0 (ofile c);
    d ← io (inode_dup (cwd c));
    _ ← upd np (inherit_ids d c);
    mret true.

Definition publish (me np : nat) : M S unit :=
  _ ← acquire me;
  _ ← upd np (set_state RUNNABLE);
  release me.

(** [fork] from its first critical section on: [np] is what it returned. *)
Definition fork_rest (me : nat) (np : option nat) : M S Z :=
  cur ← myproc me;
  match np with
  | None => mret (- ENOMEM)
  | Some np =>
      b ← allocproc_rest np;
      if negb b then mret (- ENOMEM)
      else
        ok ← fork_copy cur np;
        if negb ok then mret (- EIO)
        else
          p ← the_proc np;
          _ ← publish me np;
          mret (pid p)
  end.

Definition fork (me : nat) : M S Z :=
  np ← allocproc_locked me;
  fork_rest me np.

(** ** [wakeup1], [wakeup] *)

Definition wake_one (ch : wchan) (p : proc) : proc :=
  if decide (state p = SLEEPING ∧ chan p = ch) then set_state RUNNABLE p else p.

Definition wakeup1 (ch : wchan) : M S unit :=
  modify (λ s, set_procs (wake_one ch <$> procs s) s).

Definition wakeup (me : nat) (ch : wchan) : M S unit :=
  _ ← acquire me;
  _ ← wakeup1 ch;
  release me.

(** ** [sched]: into the scheduler

    The scheduler resumes behind its [swtch] and goes on with the next slot. *)
Definition sched (me : nat) (k : kont) : M S unit :=
  i ← myproc me;
  l ← gets plock;
  h ← on_cpu me (Spin.holding me l);
  if negb h then panic "sched ptable.lock"
  else
    c ← the_cpu me;
    p ← the_proc i;
    if negb (Spin.ncli (c_int c) =? 1) then panic "sched locks"
    else if decide (state p = RUNNING) then panic "sched running"
    else if Spin.FL_IF (c_int c) then panic "sched interruptible"
    else
      _ ← upd_kth i (λ t, mkkth k (Spin.intena (c_int c)) (k_new t));
      _ ← io switchkvm;
      upd_cpu me (λ c, set_scan (Some (i + 1)%nat) (set_cproc None c)).

(** ** [exit] *)

Fixpoint close_all (l : list Z) : M S unit :=
  match l with
  | [] => mret tt
  | f :: l =>
      _ ← (if f =? 0 then mret tt
           else r ← io (file_ref f); if 0 <? r then _ ← io (vfs_close f); mret tt else mret tt);
      close_all l
  end.

(** Up to the critical section. *)
Definition exit_files (me : nat) (st : Z) : M S unit :=
  i ← myproc me;
  ip ← gets initproc;
  if decide (ip = Some i) then panic "init exiting"
  else
    p ← the_proc i;
    _ ← close_all (ofile p);
    _ ← io begin_op;
    _ ← io (inode_put (cwd p));
    _ ← io end_op;
    upd i (λ p, set_status st (set_cwd 0 p)).

Definition pchan (o : option nat) : wchan := match o with Some q => CProc q | None => CNull end.

(** Pass abandoned children to init, waking it for each zombie among them. *)
Fixpoint reparent (cur : nat) (ip : option nat) (j n : nat) : M S unit :=
  match n with
  | O => mret tt
  | Datatypes.S n =>
      p ← the_proc j;
      _ ← (if decide (parent p = Some cur) then
             _ ← upd j (set_parent ip);
             if decide (state p = ZOMBIE) then
               wakeup1 (pchan ip)
             else mret tt
           else mret tt);
      reparent cur ip (j + 1)%nat n
  end.

Definition exit_locked (me : nat) : M S unit :=
  i ← myproc me;
  _ ← acquire me;
  p ← the_proc i;
  _ ← wakeup1 (pchan (parent p));
  ip ← gets initproc;
  _ ← reparent i ip 0 NPROC;
  _ ← upd i (set_state ZOMBIE);
  sched me KExit.

Definition exit (me : nat) (st : Z) : M S unit :=
  _ ← exit_files me st;
  exit_locked me.

(** ** [sleep] and [waitpid] *)

(** [sleep] up to its [sched]; [other] tells that the caller's lock is not
    [ptable.lock]. *)
Definition go_to_sleep (me : nat) (ch : wchan) (k : kont) : M S unit :=
  i ← myproc me;
  _ ← upd i (λ p, set_state SLEEPING (set_chan ch p));
  sched me k.

Definition sleep (me : nat) (ch : wchan) (other : bool) : M S unit :=
  c ← the_cpu me;
  match c_proc c with
  | None => panic "sleep"
  | Some _ =>
      _ ← (if other then _ ← acquire me; release_other me else mret tt);
      go_to_sleep me ch (KSleep other)
  end.

Definition W_EXITCODE (ret signal : Z) : Z := s32 (Z.lor (Z.shiftl ret 8) signal).

Definition reaped (p : proc) : proc :=
  set_state UNUSED (set_sig_handlers (replicate NSIG SIG_DFL) (set_last_signal 0
    (set_killed 0 (set_name (<[0%nat := 0]> (name p)) (set_parent None (set_pid 0
      (set_mmap_count 0 (set_mmap_info (replicate NMMAP (mkmmap 0 0 0 0 0))
        (set_kstack 0 p))))))))).

(** One pass over the table: the pid and the status word of the child that was
    reaped, or whether there are children at all. *)
Fixpoint wait_scan (cur : nat) (want : Z) (havekids : bool) (j n : nat) : M S (Z * Z + bool) :=
  match n with
  | O => mret (inr havekids)
  | Datatypes.S n =>
      p ← the_proc j;
      if decide (parent p ≠ Some cur) then wait_scan cur want havekids (j + 1)%nat n
      else if ((want =? -1) || (pid p =? want)) && bool_decide (state p = ZOMBIE) then
        _ ← io (kpage_free (kstack p));
        _ ← io (freevm (pgdir p));
        _ ← upd j reaped;
        mret (inl (pid p, W_EXITCODE (status p) (last_signal p)))
      else wait_scan cur want true (j + 1)%nat n
  end.

(** One turn of the loop of [waitpid]; [None] when it goes to sleep. *)
Definition wait_turn (me : nat) (want : Z) : M S (option (Z * option Z)) :=
  i ← myproc me;
  r ← wait_scan i want false 0 NPROC;
  match r with
  | inl (ret_pid, w) => _ ← release me; mret (Some (ret_pid, Some w))
  | inr havekids =>
      p ← the_proc i;
      if negb havekids || negb (killed p =? 0) then
        _ ← release me; mret (Some (- ECHILD, None))
      else _ ← go_to_sleep me (CProc i) (KWait want); mret None
  end.

Definition waitpid (me : nat) (want : Z) : M S (option (Z * option Z)) :=
  _ ← acquire me;
  wait_turn me want.

(** ** The scheduler *)

Definition yield (me : nat) : M S unit :=
  _ ← acquire me;
  i ← myproc me;
  _ ← upd i (set_state RUNNABLE);
  sched me KYield.

Definition forkret (me : nat) : M S unit :=
  _ ← release me;
  b ← gets first;
  if negb b then mret tt
  else _ ← modify (set_first false); io fs_init.

(** From the switch back to the process until it has released [ptable.lock] or
    called [sched] again. *)
Definition resume (me i : nat) (k : kthread) : M S unit :=
  match k_at k with
  | KForkret => forkret me
  | KYield => _ ← upd_cpu me (set_intena (k_intena k)); release me
  | KSleep other =>
      _ ← upd_cpu me (set_intena (k_intena k));
      _ ← upd i (set_chan CNull);
      if other then _ ← release me; acquire_other me else mret tt
  | KWait want =>
      _ ← upd_cpu me (set_intena (k_intena k));
      _ ← upd i (set_chan CNull);
      _ ← wait_turn me want;
      mret tt
  | KExit => panic "zombie exit"
  end.

Definition sti (me : nat) : M S unit :=
  upd_cpu me (λ c, set_int (Spin.mkcpu true (Spin.ncli (c_int c)) (Spin.intena (c_int c))) c).

(** The start of a round: interrupts on, lock, first slot. *)
Definition scheduler_start (me : nat) : M S unit :=
  _ ← sti me;
  _ ← acquire me;
  upd_cpu me (set_scan (Some 0%nat)).

(** One slot of the loop; after the last the lock is released. *)
Definition scheduler_turn (me : nat) : M S unit :=
  c ← the_cpu me;
  i ← from_option (c_scan c);
  if decide (i = NPROC) then
    _ ← upd_cpu me (set_scan None);
    _ ← release me;
    sti me
  else
    p ← the_proc i;
    if decide (state p ≠ RUNNABLE) then upd_cpu me (set_scan (Some (i + 1)%nat))
    else
      _ ← upd_cpu me (λ c, set_scan None (set_cproc (Some i) c));
      _ ← io (switchuvm (pgdir p) (kstack p));
      _ ← upd i (set_state RUNNING);
      k ← the_kth i;
      resume me i k.

(** ** Signals *)

Inductive action := Terminate | Stop | Continue | Ignore | NoDefault.

#[global] Instance action_eq_dec : EqDecision action.
Proof. solve_decision. Defined.

Definition default_action (signal : Z) : action :=
  if decide (signal ∈ [SIGABRT; SIGFPE; SIGBUS; SIGILL; SIGQUIT; SIGSEGV; SIGSYS; SIGTRAP;
      SIGXCPU; SIGXFSZ; SIGALRM; SIGHUP; SIGTERM; SIGUSR1; SIGUSR2; SIGVTALRM; SIGKILL;
      SIGPIPE; SIGINT]) then Terminate
  else if decide (signal ∈ [SIGTSTP; SIGTTIN; SIGTTOU; SIGSTOP]) then Stop
  else if decide (signal = SIGCONT) then Continue
  else if decide (signal ∈ [SIGURG; SIGCHLD; SIGWINCH]) then Ignore
  else NoDefault.

Definition act (a : action) (p : proc) : proc :=
  match a with
  | Terminate => set_killed 1 p
  | Stop => set_state STOPPED p
  | Continue => set_state RUNNABLE p
  | Ignore | NoDefault => p
  end.

Definition set_handler_frame (sp : Z) (signal h : Z) (t : trapframe) : trapframe :=
  mktf (rax t) (u64 signal) h (cs t) (rflags t) sp (ds t) (tf_rest t).

Definition copy_signal_to_stack (i : nat) (signal h : Z) : M S unit :=
  p ← the_proc i;
  let sp := u64 (rsp (tf p) - 8) in
  r ← io (copyout (pgdir p) sp (rip (tf p)));
  if r <? 0 then panic "failed to copyout"
  else upd i (λ p, set_tf (set_handler_frame sp signal h (tf p)) p).

Definition rouse (p : proc) : proc :=
  if decide (state p = SLEEPING) then set_state RUNNABLE p else p.

(** [sig_handlers] has [NSIG] entries: a signal outside of it reads past the
    array. *)
Definition handler_of (signal : Z) (p : proc) : option Z :=
  if signal <? 0 then None else sig_handlers p !! Z.to_nat signal.

Definition prockill (i : nat) (signal : Z) : M S Z :=
  if signal =? 0 then mret 0
  else
    _ ← upd i (set_last_signal signal);
    p ← the_proc i;
    h ← from_option (handler_of signal p);
    _ ← (if h =? SIG_DFL then upd i (act (default_action signal))
         else if negb (h =? SIG_IGN) then copy_signal_to_stack i signal h
         else mret tt);
    _ ← upd i rouse;
    mret 0.

(** [for (p = ptable.proc; ...)  if (sel(p)) prockill(p, signal)] *)
Fixpoint kill_scan (sel : proc → bool) (signal : Z) (j n : nat) : M S unit :=
  match n with
  | O => mret tt
  | Datatypes.S n =>
      p ← the_proc j;
      _ ← (if sel p then _ ← prockill j signal; mret tt else mret tt);
      kill_scan sel signal (j + 1)%nat n
  end.

Definition kill_all_children (me i : nat) (signal : Z) : M S unit :=
  q ← the_proc i;
  _ ← acquire me;
  _ ← kill_scan (λ p, (pgid p =? pgid q) && bool_decide (parent p = Some i)) signal 0 NPROC;
  release me.

Fixpoint find_pid (n : Z) (l : list proc) : option nat :=
  match l with
  | [] => None
  | p :: l => if pid p =? n then Some 0%nat else Datatypes.S <$> find_pid n l
  end.

Definition get_process_from_pid (me : nat) (n : Z) : M S (option nat) :=
  if n <? 0 then mret None
  else
    _ ← acquire me;
    ps ← gets procs;
    _ ← release me;
    mret (find_pid n ps).

Definition kill_all_procs (me : nat) (signal : Z) : M S unit :=
  _ ← acquire me;
  _ ← kill_scan (λ _, true) signal 0 NPROC;
  release me.

Definition kill_single_proc (me i : nat) (signal : Z) : M S Z :=
  _ ← acquire me;
  ret ← prockill i signal;
  _ ← release me;
  mret ret.

Definition kill (me : nat) (n signal : Z) : M S Z :=
  let all_procs := n =? -1 in
  let looking_for_pgids := negb (n =? -1) && (n <? 0) in
  if negb looking_for_pgids && negb all_procs then
    o ← get_process_from_pid me n;
    match o with
    | None => mret (- ESRCH)
    | Some i => kill_single_proc me i signal
    end
  else if looking_for_pgids then
    if n =? - INT_MAX - 1 then fail EFault
    else
      o ← get_process_from_pid me (- n);
      match o with
      | None => mret (- ESRCH)
      | Some i =>
          _ ← kill_all_children me i signal;
          _ ← kill_single_proc me i signal;
          mret 0
      end
  else if all_procs then _ ← kill_all_procs me signal; mret 0
  else mret (- EINVAL).

Definition kernel_attach_signal (me : nat) (signum handler : Z) : M S Z :=
  if decide (signum ∈ [SIGFPE; SIGSEGV; SIGBUS; SIGILL]) then mret SIG_ERR
  else if (NSIG <=? signum) || (signum <? 0) then mret SIG_ERR
  else
    i ← myproc me;
    p ← the_proc i;
    old ← from_option (sig_handlers p !! Z.to_nat signum);
    _ ← upd i (λ p, set_sig_handlers (<[Z.to_nat signum := handler]> (sig_handlers p)) p);
    mret old.
End proc.

Definition is_in_group (group : Z) (c : cred) : bool := existsb (Z.eqb group) (gids c).
End Proc.
