(* ===== verification/ProcInv.v ===== *)
(** * The process table's invariant (kernel/proc.c)

    Every CPU executes the operations of proc.c, interleaved at the critical
    sections of [ptable.lock]; the invariant of the table and of the CPUs holds
    in every state they reach. *)

From S2P Require Import Prelude Lock Proc.

Module ProcInv.
Import Proc.

(** ** The table *)

(** The states in which a process has a life of its own: it can have children
    and will run again. *)
Definition alive (st : procstate) : Prop :=
  match st with SLEEPING | RUNNABLE | RUNNING | STOPPED => True | _ => False end.

Definition used (st : procstate) : Prop := st ≠ UNUSED.

Definition matches (want : Z) (p : proc) : Prop := want = -1 ∨ pid p = want.

(** Continuations no living process has: the end of [exit], and a [sleep] on
    [ptable.lock] itself, which only [waitpid] does, in a loop of its own. *)
Definition stuck (k : kont) : Prop := k = KExit ∨ k = KSleep false.

Record tinv (ps : list proc) (ks : list kthread) (np : Z) (ip : option nat) : Prop := {
  t_len : length ps = NPROC;
  t_klen : length ks = NPROC;
  t_pid : ∀ i p, ps !! i = Some p → used (state p) → 0 < pid p < np;
  t_uniq : ∀ i j p q, ps !! i = Some p → ps !! j = Some q →
    used (state p) → used (state q) → pid p = pid q → i = j;
  t_parent : ∀ i p q, ps !! i = Some p → parent p = Some q →
    (state p = ZOMBIE ∨ alive (state p)) ∧ q ≠ i ∧ ∃ pq, ps !! q = Some pq ∧ alive (state pq);
  t_init : ∃ i p, ip = Some i ∧ ps !! i = Some p ∧ alive (state p) ∧ parent p = None;
  t_orphan : ∀ i p, ps !! i = Some p → state p = ZOMBIE ∨ alive (state p) →
    ip = Some i ∨ is_Some (parent p);
  t_exit : ∀ i p k, ps !! i = Some p → ks !! i = Some k → stuck (k_at k) → ¬ alive (state p);
  t_sleep : ∀ i p k, ps !! i = Some p → ks !! i = Some k → state p = SLEEPING →
    k_at k = KSleep true ∨ (∃ want, k_at k = KWait want ∧ chan p = CProc i);
  t_wait : ∀ i p k want, ps !! i = Some p → ks !! i = Some k → state p = SLEEPING →
    k_at k = KWait want →
    ∀ j q, ps !! j = Some q → parent q = Some i → matches want q → state q ≠ ZOMBIE;
  t_new : ∀ i k n, ks !! i = Some k → k_new k = Some n →
    (∃ p, ps !! i = Some p ∧ alive (state p)) ∧
    (∃ p, ps !! n = Some p ∧ state p = EMBRYO) ∧
    ∀ j k', ks !! j = Some k' → k_new k' = Some n → i = j;
}.

(** ** Updates that keep the table's shape

    [mild p q]: the update from [p] to [q] keeps the identity and the parent,
    and at most wakes a sleeper. *)
Definition mild (p q : proc) : Prop :=
  pid q = pid p ∧ parent q = parent p ∧
  ((state q = state p ∧ (state p = SLEEPING → chan q = chan p)) ∨
   (state p = SLEEPING ∧ state q = RUNNABLE)).

Lemma mild_refl p : mild p p.
Proof. split_and!; auto. Qed.

Lemma mild_trans p q r : mild p q → mild q r → mild p r.
Proof.
  unfold mild. intros (?&?&H) (?&?&H'). split_and!; [congruence..|].
  destruct H as [[E1 C1]|[E1 E2]], H' as [[E3 C3]|[E3 E4]];
    [left; split|right; split|right; split|]; try congruence.
  intros Hs. rewrite C3 by congruence. by apply C1.
Qed.

#[local] Instance mild_transitive : Transitive mild := mild_trans.

Lemma mild_alive p q : mild p q → alive (state p) ↔ alive (state q).
Proof. intros (_&_&[[-> _]|[-> ->]]); done. Qed.

Lemma mild_state p q st : mild p q → st ≠ RUNNABLE → st ≠ SLEEPING → state q = st ↔ state p = st.
Proof. intros (_&_&[[-> _]|[-> ->]]); intuition congruence. Qed.

Lemma mild_used p q : mild p q → used (state p) ↔ used (state q).
Proof. unfold used. intros H. by rewrite (mild_state p q UNUSED H). Qed.

Lemma mild_sleeping p q : mild p q → state q = SLEEPING → state p = SLEEPING ∧ chan q = chan p.
Proof. intros (_&_&[[-> ?]|[-> ->]]); [auto|done]. Qed.

Lemma mild_list ps ps' i q :
  Forall2 mild ps ps' → ps' !! i = Some q → ∃ p, ps !! i = Some p ∧ mild p q.
Proof. intros HF Hq. destruct (Forall2_lookup_r _ _ _ _ _ HF Hq) as (p & ? & ?). eauto. Qed.

Lemma mild_list_l ps ps' i p :
  Forall2 mild ps ps' → ps !! i = Some p → ∃ q, ps' !! i = Some q ∧ mild p q.
Proof. intros HF Hq. destruct (Forall2_lookup_l _ _ _ _ _ HF Hq) as (q & ? & ?). eauto. Qed.

Lemma mild_tinv ps ps' ks np ip : Forall2 mild ps ps' → tinv ps ks np ip → tinv ps' ks np ip.
Proof.
  intros HF T. pose proof (λ i q, mild_list ps ps' i q HF) as Hb.
  pose proof (λ i p, mild_list_l ps ps' i p HF) as Hf. split.
  - rewrite <- (Forall2_length _ _ _ HF). apply T.
  - apply T.
  - intros i q (p & Hp & Hm)%Hb Hu. apply (mild_used _ _ Hm) in Hu.
    destruct Hm as (-> & _). by eapply t_pid.
  - intros i j p' q' (p & Hp & Hm)%Hb (q & Hq & Hm')%Hb Hu Hu' He.
    apply (mild_used _ _ Hm) in Hu. apply (mild_used _ _ Hm') in Hu'.
    destruct Hm as (Hm & _), Hm' as (Hm' & _). eapply (t_uniq _ _ _ _ T); eauto. congruence.
  - intros i p' r (p & Hp & Hm)%Hb Hr.
    assert (parent p = Some r) as Hr' by (destruct Hm as (_ & <- & _); done).
    destruct (t_parent _ _ _ _ T i p r Hp Hr') as (Hst & Hne & pq & Hpq & Ha). split_and!; [|done|].
    + rewrite <- (mild_alive _ _ Hm). by rewrite (mild_state _ _ ZOMBIE Hm).
    + destruct (Hf _ _ Hpq) as (q' & ? & Hm'). exists q'. by rewrite <- (mild_alive _ _ Hm').
  - destruct (t_init _ _ _ _ T) as (i & p & ? & Hp & Ha & Hn).
    destruct (Hf _ _ Hp) as (q & Hq & Hm). exists i, q. split_and!; [done..| |].
    + by rewrite <- (mild_alive _ _ Hm).
    + destruct Hm as (_ & -> & _). done.
  - intros i q (p & Hp & Hm)%Hb Hst.
    rewrite <- (mild_alive _ _ Hm), (mild_state _ _ ZOMBIE Hm) in Hst by done.
    destruct (t_orphan _ _ _ _ T i p Hp Hst) as [|]; [by left|right].
    destruct Hm as (_ & -> & _). done.
  - intros i q k (p & Hp & Hm)%Hb Hk Hx. rewrite <- (mild_alive _ _ Hm). by eapply t_exit.
  - intros i q k (p & Hp & Hm)%Hb Hk Hs. destruct (mild_sleeping _ _ Hm Hs) as [Hs' ->].
    by eapply t_sleep.
  - intros i q k want (p & Hp & Hm)%Hb Hk Hs Hw j r' (r & Hr & Hm')%Hb Hpar Hmatch.
    destruct (mild_sleeping _ _ Hm Hs) as [Hs' _].
    rewrite (mild_state _ _ ZOMBIE Hm') by done.
    destruct Hm' as (Hpid & Hpar' & _).
    apply (t_wait _ _ _ _ T i p k want Hp Hk Hs' Hw j r Hr); [congruence|].
    unfold matches in *. by rewrite <- Hpid.
  - intros i k n Hk Hn.
    destruct (t_new _ _ _ _ T i k n Hk Hn) as ((p & Hp & Ha) & (e & He & Hst) & Hu).
    split_and!; [| |done].
    + destruct (Hf _ _ Hp) as (q & ? & Hm). exists q. by rewrite <- (mild_alive _ _ Hm).
    + destruct (Hf _ _ He) as (q & ? & Hm). exists q. by rewrite (mild_state _ _ EMBRYO Hm).
Qed.

Lemma mild_alter (f : proc → proc) i ps :
  (∀ p, ps !! i = Some p → mild p (f p)) → Forall2 mild ps (alter f i ps).
Proof.
  intros Hf. apply Forall2_same_length_lookup. split; [by rewrite length_alter|].
  intros j p q Hp Hq. destruct (decide (i = j)) as [->|Hne].
  - rewrite list_lookup_alter_eq, Hp in Hq. simplify_eq/=. by apply Hf.
  - rewrite list_lookup_alter_ne, Hp in Hq by done. simplify_eq. apply mild_refl.
Qed.

Lemma mild_fmap (f : proc → proc) ps : (∀ p, mild p (f p)) → Forall2 mild ps (f <$> ps).
Proof. intros Hf. rewrite Forall2_fmap_r. apply Forall_Forall2_diag. by apply Forall_true. Qed.

(** ** Updates of one entry *)

Lemma alter_Some {A} (f : A → A) i (l : list A) j q :
  alter f i l !! j = Some q →
  (i = j ∧ ∃ p, l !! i = Some p ∧ q = f p) ∨ (i ≠ j ∧ l !! j = Some q).
Proof.
  destruct (decide (i = j)) as [<-|Hne].
  - rewrite list_lookup_alter_eq. intros (p & ? & ?)%fmap_Some. naive_solver.
  - rewrite list_lookup_alter_ne by done. auto.
Qed.

Lemma alter_at {A} (f : A → A) i (l : list A) p : l !! i = Some p → alter f i l !! i = Some (f p).
Proof. intros H. by rewrite list_lookup_alter_eq, H. Qed.

Lemma alter_other {A} (f : A → A) i (l : list A) j p : i ≠ j → l !! j = Some p → alter f i l !! j = Some p.
Proof. intros. by rewrite list_lookup_alter_ne. Qed.

(** Destruct every lookup in an altered list. *)
Ltac altered :=
  repeat match goal with
  | H : alter _ _ _ !! _ = Some _ |- _ =>
      apply alter_Some in H as [(? & ? & ? & ?)|[? ?]]; simplify_eq
  end.

(** A live process changes state: [sleep], [yield], dispatch. *)
Lemma live_tinv ps ks np ip i p k f g :
  tinv ps ks np ip → ps !! i = Some p → ks !! i = Some k →
  alive (state p) → alive (state (f p)) → pid (f p) = pid p → parent (f p) = parent p →
  k_new (g k) = k_new k → ¬ stuck (k_at (g k)) →
  (state (f p) = SLEEPING →
    k_at (g k) = KSleep true ∨
    (∃ want, k_at (g k) = KWait want ∧ chan (f p) = CProc i ∧
      ∀ j q, ps !! j = Some q → parent q = Some i → matches want q → state q ≠ ZOMBIE)) →
  tinv (alter f i ps) (alter g i ks) np ip.
Proof.
  intros T Hp Hk Ha Ha' Hpid Hpar Hnew Hx Hsl.
  assert (used (state p) ∧ state p ≠ EMBRYO ∧ state p ≠ ZOMBIE) as (Hu & He & Hz)
    by (destruct (state p); done).
  assert (used (state (f p)) ∧ state (f p) ≠ ZOMBIE) as (Hu' & Hz')
    by (destruct (state (f p)); done).
  split.
  - rewrite length_alter. apply T.
  - rewrite length_alter. apply T.
  - intros j q Hj Hq. altered; [rewrite Hpid|]; by eapply (t_pid _ _ _ _ T).
  - intros j l q r Hj Hl Hq Hr E. altered; try done; eapply (t_uniq _ _ _ _ T); eauto; congruence.
  - intros j q r Hj Hr.
    assert (∃ q0, ps !! j = Some q0 ∧ parent q0 = Some r ∧ (state q = state q0 ∨ alive (state q)))
      as (q0 & Hq0 & Hr0 & Hst) by (altered; [rewrite Hpar in Hr|]; eauto).
    destruct (t_parent _ _ _ _ T j q0 r Hq0 Hr0) as (Hst' & Hne & pq & Hpq & Hpa).
    split_and!; [destruct Hst as [->|]; auto|done|].
    destruct (decide (i = r)) as [<-|]; [exists (f p); split; [by apply alter_at|done]|].
    exists pq. split; [by apply alter_other|done].
  - destruct (t_init _ _ _ _ T) as (j & q & Hj & Hq & Hqa & Hqp).
    destruct (decide (i = j)) as [<-|].
    + rewrite Hp in Hq. simplify_eq. exists i, (f q). rewrite Hpar. split_and!; [done| |done..].
      by apply alter_at.
    + exists j, q. split_and!; try done. by apply alter_other.
  - intros j q Hj Hst. altered; [rewrite Hpar|]; eapply (t_orphan _ _ _ _ T); eauto.
  - intros j q h Hj Hh Hxx. altered. by eapply (t_exit _ _ _ _ T).
  - intros j q h Hj Hh Hs. altered; [naive_solver|]. by eapply (t_sleep _ _ _ _ T).
  - intros j q h want Hj Hh Hs Hw l r Hl Hr Hm.
    assert (∃ r0, ps !! l = Some r0 ∧ parent r0 = Some j ∧ matches want r0 ∧
      (state r = state r0 ∨ state r ≠ ZOMBIE)) as (r0 & Hl0 & Hr0 & Hm0 & Hst).
    { unfold matches in *. clear Hj Hh. altered.
      - rewrite Hpar in Hr. rewrite Hpid in Hm. eauto 10.
      - eauto 10. }
    destruct Hst as [->|]; [|done]. clear Hl.
    altered.
    + destruct (Hsl Hs) as [Hb|(w & Hw' & _ & Hc)]; [congruence|].
      assert (w = want) as -> by congruence. by eapply Hc.
    + by eapply (t_wait _ _ _ _ T j q h want).
  - intros j h n Hh Hn.
    assert (∃ h0, ks !! j = Some h0 ∧ k_new h0 = Some n) as (h0 & Hh0 & Hn0)
      by (altered; [rewrite Hnew in Hn|]; eauto).
    destruct (t_new _ _ _ _ T j h0 n Hh0 Hn0) as ((q & Hq & Hqa) & (e & Hee & Hst) & Huq).
    split_and!.
    + destruct (decide (i = j)) as [<-|]; [exists (f q)|exists q]; rewrite ?Hp in *; simplify_eq.
      * split; [by apply alter_at|done].
      * split; [by apply alter_other|done].
    + exists e. split; [|done]. apply alter_other; [|done]. intros <-. congruence.
    + clear Hh Hn. intros l h' Hl Hn'. altered; eapply Huq; eauto; congruence.
Qed.

(** An entry that is not alive changes: it is allocated, given back after a
    failed [fork], published, or reaped. *)
Lemma dead_tinv ps ks ks' np np' ip i p f :
  tinv ps ks np ip → ps !! i = Some p → ¬ alive (state p) → np ≤ np' →
  state (f p) ≠ SLEEPING → state (f p) ≠ ZOMBIE →
  (used (state (f p)) → 0 < pid (f p) < np' ∧
    ∀ j q, i ≠ j → ps !! j = Some q → used (state q) → pid q ≠ pid (f p)) →
  (∀ q, parent (f p) = Some q →
    alive (state (f p)) ∧ q ≠ i ∧ ∃ pq, ps !! q = Some pq ∧ alive (state pq)) →
  (alive (state (f p)) → is_Some (parent (f p))) →
  length ks' = NPROC →
  (∀ j h, ks' !! j = Some h → i ≠ j → ∃ h0, ks !! j = Some h0 ∧ k_at h = k_at h0 ∧
    (k_new h = k_new h0 ∨ k_new h = None)) →
  (∀ h, ks' !! i = Some h → k_new h = None ∧ (stuck (k_at h) → ¬ alive (state (f p)))) →
  (state (f p) = EMBRYO ∨ ∀ j h, ks' !! j = Some h → k_new h ≠ Some i) →
  tinv (alter f i ps) ks' np' ip.
Proof.
  intros T Hp Hd Hnp Hns Hnz Hpid Hpar Hfam Hlen Hks Hki Hown.
  assert (∀ j q, ps !! j = Some q → parent q = Some i → False) as Hnochild.
  { intros j q Hj Hq. destruct (t_parent _ _ _ _ T j q i Hj Hq) as (_ & _ & pq & ? & ?). congruence. }
  split.
  - rewrite length_alter. apply T.
  - done.
  - intros j q Hj Hq. altered; [by apply Hpid|].
    pose proof (t_pid _ _ _ _ T j q ltac:(done) Hq). lia.
  - intros j l q r Hj Hl Hq Hr E. altered; try done.
    + destruct (Hpid Hr) as [_ Hn]. by destruct (Hn j q).
    + destruct (Hpid Hq) as [_ Hn]. by destruct (Hn l r).
    + by eapply (t_uniq _ _ _ _ T).
  - intros j q r Hj Hr. altered.
    + destruct (Hpar r Hr) as (? & ? & pq & ? & ?). split_and!; [by right|done|].
      exists pq. split; [by apply alter_other|done].
    + destruct (t_parent _ _ _ _ T j q r ltac:(done) Hr) as (? & ? & pq & ? & ?).
      split_and!; [done..|]. exists pq. split; [|done]. apply alter_other; [|done].
      intros <-. by eapply (Hnochild j q).
  - destruct (t_init _ _ _ _ T) as (j & q & Hj & Hq & Hqa & Hqp).
    exists j, q. split_and!; try done. apply alter_other; [|done]. intros ->. congruence.
  - intros j q Hj Hst. altered.
    + right. apply Hfam. by destruct Hst.
    + by eapply (t_orphan _ _ _ _ T).
  - intros j q h Hj Hh Hx. altered; [by destruct (Hki h Hh); auto|].
    destruct (Hks j h Hh) as (h0 & ? & ? & _); [done|]. eapply (t_exit _ _ _ _ T); eauto. congruence.
  - intros j q h Hj Hh Hs. altered.
    destruct (Hks j h Hh) as (h0 & ? & -> & _); [done|]. by eapply (t_sleep _ _ _ _ T).
  - intros j q h want Hj Hh Hs Hw l r Hl Hr Hm. altered; try done.
    destruct (Hks j h Hh) as (h0 & ? & E & _); [done|].
    eapply (t_wait _ _ _ _ T j q h0 want); eauto. congruence.
  - intros j h n Hh Hn.
    destruct (decide (i = j)) as [<-|Hij]; [destruct (Hki h Hh); congruence|].
    destruct (Hks j h Hh Hij) as (h0 & Hh0 & _ & [E|E]); [|congruence].
    destruct (t_new _ _ _ _ T j h0 n Hh0) as ((q & Hq & Hqa) & (e & Hee & Hst) & Huq); [congruence|].
    split_and!.
    + exists q. split; [by apply alter_other|done].
    + destruct (decide (i = n)) as [<-|]; [|exists e; split; [by apply alter_other|done]].
      destruct Hown as [He|Ho]; [|by destruct (Ho j h)].
      exists (f p). split; [by apply alter_at|done].
    + intros l h' Hl Hn'. destruct (decide (i = l)) as [<-|Hil].
      { destruct (Hki h' Hl); congruence. }
      destruct (Hks l h' Hl Hil) as (h1 & Hh1 & _ & [E'|E']); [|congruence].
      eapply Huq; [done|]. congruence.
Qed.

Lemma tinv_no_owner ps ks np ip i p :
  tinv ps ks np ip → ps !! i = Some p → state p ≠ EMBRYO →
  ∀ j h, ks !! j = Some h → k_new h ≠ Some i.
Proof.
  intros T Hp Hne j h Hh Hn. destruct (t_new _ _ _ _ T j h i Hh Hn) as (_ & (e & He & ?) & _).
  congruence.
Qed.

Lemma tinv_dead_new ps ks np ip i p k :
  tinv ps ks np ip → ps !! i = Some p → ¬ alive (state p) → ks !! i = Some k → k_new k = None.
Proof.
  intros T Hp Hd Hk. destruct (k_new k) as [n|] eqn:E; [|done].
  destruct (t_new _ _ _ _ T i k n Hk E) as ((q & ? & ?) & _). congruence.
Qed.

Lemma find_state_Some st ps i :
  find_state st ps = Some i → ∃ p, ps !! i = Some p ∧ state p = st.
Proof.
  revert i. induction ps as [|p ps IH]; intros i; cbn [find_state]; [done|].
  case_decide; [intros [= <-]; by exists p|].
  intros (j & Hj & ->)%fmap_Some. by apply IH.
Qed.

(** [allocproc]'s critical section. *)
Lemma embryo_tinv ps ks np ip i :
  tinv ps ks np ip → find_state UNUSED ps = Some i →
  tinv (alter (embryo np) i ps) ks (np + 1) ip.
Proof.
  intros T (p & Hp & Hst)%find_state_Some.
  assert (0 < np).
  { destruct (t_init _ _ _ _ T) as (j & q & _ & Hq & Ha & _).
    pose proof (t_pid _ _ _ _ T j q Hq) as Hpq. assert (used (state q)) as Hu by (destruct (state q); done). specialize (Hpq Hu). lia. }
  apply (dead_tinv ps ks ks np (np + 1) ip i p); try done.
  - rewrite Hst. by intros [].
  - lia.
  - intros _. cbn. split; [lia|]. intros j q _ Hq Hu.
    pose proof (t_pid _ _ _ _ T j q Hq Hu). lia.
  - cbn. intros q Hq. destruct (t_parent _ _ _ _ T i p q Hp Hq) as ([E|E] & _);
      rewrite Hst in E; [done|by destruct E].
  - apply T.
  - eauto.
  - intros h Hh. split; [|by intros _ []]. eapply tinv_dead_new; eauto. rewrite Hst. by intros [].
  - by left.
Qed.

(** [fork] remembers the entry it got. *)
Lemma set_new_tinv ps ks np ip cur p n e :
  tinv ps ks np ip → ps !! cur = Some p → alive (state p) →
  ps !! n = Some e → state e = EMBRYO → (∀ j h, ks !! j = Some h → k_new h ≠ Some n) →
  tinv ps (alter (set_new (Some n)) cur ks) np ip.
Proof.
  intros T Hp Ha He Hst Hown. destruct T. split; try done.
  - by rewrite length_alter.
  - intros i q h Hq Hh Hx. altered; cbn [set_new k_at] in *; eauto.
  - intros i q h Hq Hh Hx. altered; cbn [set_new k_at] in *; eauto.
  - intros i q h want Hq Hh Hs Hw. altered; cbn [set_new k_at] in *; eauto.
  - intros i h m Hh Hm. altered.
    + cbn in Hm. simplify_eq. split_and!; [eauto..|]. intros j h' Hj Hn. altered; [done|].
      by destruct (Hown j h').
    + destruct (t_new0 i h m) as (H1 & H2 & H3); [done..|]. split_and!; [done..|].
      intros j h' Hj Hn. altered; [|eauto]. cbn in Hn. simplify_eq. by destruct (Hown i h).
Qed.

(** The end of a [fork], failed or not. *)
Lemma fork_done_tinv ps ks np ip cur p kc n e f g :
  tinv ps ks np ip → ps !! cur = Some p → alive (state p) → ks !! cur = Some kc →
  k_new kc = Some n → ps !! n = Some e →
  (∀ h, k_new (g h) = k_new h) →
  (state (f e) = UNUSED ∧ parent (f e) = parent e) ∨
  (state (f e) = RUNNABLE ∧ pid (f e) = pid e ∧ parent (f e) = Some cur ∧ ∀ h, k_at (g h) = KForkret) →
  tinv (alter f n ps) (alter (set_new None) cur (alter g n ks)) np ip.
Proof.
  intros T Hp Ha Hkc Hn He Hg Hcase.
  destruct (t_new _ _ _ _ T cur kc n Hkc Hn) as (_ & (e' & He' & Hst) & Huq).
  rewrite He in He'. simplify_eq.
  assert (cur ≠ n) as Hne by (intros ->; rewrite Hp in He; simplify_eq; by rewrite Hst in Ha).
  assert (¬ alive (state e')) as Hd by (rewrite Hst; by intros []).
  assert (∀ q, parent e' = Some q → False) as Hpe.
  { intros q Hq. destruct (t_parent _ _ _ _ T n e' q He Hq) as ([E|E] & _);
      rewrite Hst in E; [done|by destruct E]. }
  apply (dead_tinv ps ks _ np np ip n e'); try done; try lia.
  - destruct Hcase as [(-> & _)|(-> & _)]; done.
  - destruct Hcase as [(-> & _)|(-> & _)]; done.
  - intros Hu. destruct Hcase as [(E & _)|(E & Epid & _)]; [by rewrite E in Hu|].
    rewrite Epid. split; [apply (t_pid _ _ _ _ T n); [done|by rewrite Hst]|].
    intros j q Hj Hq Huq' Eq. destruct Hj.
    eapply (t_uniq _ _ _ _ T); eauto. by rewrite Hst.
  - intros q Hq. destruct Hcase as [(_ & E)|(E & _ & E' & _)].
    + rewrite E in Hq. by destruct (Hpe q).
    + rewrite E. rewrite E' in Hq. simplify_eq. split_and!; [done..|]. eauto.
  - intros Hal. destruct Hcase as [(E & _)|(_ & _ & -> & _)]; [by rewrite E in Hal|done].
  - rewrite !length_alter. apply T.
  - intros j h Hj Hnj. altered; cbn [set_new k_at k_new] in *; eauto.
  - intros h Hh. altered. split.
    + rewrite Hg. eapply tinv_dead_new; eauto.
    + destruct Hcase as [(-> & _)|(_ & _ & _ & ->)]; [by intros _ []|by intros [?|?]].
  - right. intros j h Hj Hnj. altered; cbn [set_new k_new] in *; try done.
    + rewrite Hg in Hnj. by destruct Hne; eapply Huq.
    + by destruct (Huq j h).
Qed.

Lemma reap_tinv ps ks np ip j q :
  tinv ps ks np ip → ps !! j = Some q → state q = ZOMBIE → tinv (alter reaped j ps) ks np ip.
Proof.
  intros T Hq Hst. assert (¬ alive (state q)) as Hd by (rewrite Hst; by intros []).
  apply (dead_tinv ps ks ks np np ip j q); try done; try lia.
  - apply T.
  - eauto.
  - intros h Hh. split; [by eapply tinv_dead_new|by intros _ []].
  - right. intros i h Hh. eapply tinv_no_owner; eauto. by rewrite Hst.
Qed.

(** What the loop of [exit] does to an entry. *)
Definition handed (cur : nat) (ip : option nat) (p q : proc) : Prop :=
  pid q = pid p ∧ parent q = (if decide (parent p = Some cur) then ip else parent p) ∧
  ((state q = state p ∧ chan q = chan p) ∨ (state p = SLEEPING ∧ state q = RUNNABLE)).

Lemma handed_alive cur ip p q : handed cur ip p q → alive (state p) ↔ alive (state q).
Proof. intros (_&_&[[-> _]|[-> ->]]); done. Qed.

Lemma handed_state cur ip p q st :
  handed cur ip p q → st ≠ RUNNABLE → st ≠ SLEEPING → state q = st ↔ state p = st.
Proof. intros (_&_&[[-> _]|[-> ->]]); intuition congruence. Qed.

Lemma handed_sleeping cur ip p q :
  handed cur ip p q → state q = SLEEPING → state p = SLEEPING ∧ chan q = chan p.
Proof. intros (_&_&[[-> ?]|[-> ->]]); [auto|done]. Qed.

Lemma exit_tinv ps ps' ks np ip cur p k ia :
  tinv ps ks np ip → ps !! cur = Some p → alive (state p) → ks !! cur = Some k →
  k_new k = None → ip ≠ Some cur → Forall2 (handed cur ip) ps ps' →
  (∀ i q, ps' !! i = Some q → state q = SLEEPING → chan q ≠ pchan (parent p)) →
  (∀ z q, ps !! z = Some q → parent q = Some cur → state q = ZOMBIE →
    ∀ i r, ps' !! i = Some r → state r = SLEEPING → chan r ≠ pchan ip) →
  tinv (alter (set_state ZOMBIE) cur ps') (alter (λ k, mkkth KExit ia (k_new k)) cur ks) np ip.
Proof.
  intros T Hp Ha Hk Hnew Hip HF Hwk Hz.
  assert (∀ i q', alter (set_state ZOMBIE) cur ps' !! i = Some q' →
    ∃ q, ps !! i = Some q ∧ pid q' = pid q ∧
      parent q' = (if decide (parent q = Some cur) then ip else parent q) ∧
      ((i = cur ∧ state q' = ZOMBIE) ∨ (i ≠ cur ∧ ps' !! i = Some q' ∧ handed cur ip q q'))) as Hb.
  { intros i q' Hq'. altered.
    - destruct (Forall2_lookup_r _ _ _ _ _ HF H0) as (q & Hq & Hh). exists q.
      destruct Hh as (E1 & E2 & _). split_and!; [done..|]. by left.
    - destruct (Forall2_lookup_r _ _ _ _ _ HF H0) as (q & Hq & Hh). exists q.
      pose proof Hh as (E1 & E2 & _). split_and!; [done..|]. right. by split_and!. }
  assert (∀ i q, i ≠ cur → ps !! i = Some q → ∃ q',
    alter (set_state ZOMBIE) cur ps' !! i = Some q' ∧ handed cur ip q q') as Hf.
  { intros i q Hne Hq. destruct (Forall2_lookup_l _ _ _ _ _ HF Hq) as (q' & Hq' & Hh).
    exists q'. split; [by apply alter_other|done]. }
  assert (∀ i q q', ((i = cur ∧ state q' = ZOMBIE) ∨ (i ≠ cur ∧ ps' !! i = Some q' ∧ handed cur ip q q')) →
    ps !! i = Some q → used (state q') → used (state q)) as Hused.
  { intros i q q' [(-> & _)|(_ & _ & Hh)] Hq.
    - intros _. rewrite Hp in Hq. simplify_eq. by destruct (state q).
    - unfold used. by rewrite (handed_state _ _ _ _ UNUSED Hh). }
  split.
  - rewrite length_alter, <- (Forall2_length _ _ _ HF). apply T.
  - rewrite length_alter. apply T.
  - intros i q' (q & Hq & -> & _ & Hc)%Hb Hu. eapply (t_pid _ _ _ _ T); eauto.
  - intros i j q' r' (q & Hq & Eq & _ & Hc)%Hb (r & Hr & Er & _ & Hc')%Hb Hu Hu' E.
    eapply (t_uniq _ _ _ _ T); eauto. congruence.
  - intros i q' r (q & Hq & _ & Epar & Hc)%Hb Hr.
    assert (state q' = ZOMBIE ∨ alive (state q')) as Hst.
    { destruct Hc as [(_ & ?)|(_ & _ & Hh)]; [by left|].
      rewrite <- (handed_alive _ _ _ _ Hh), (handed_state _ _ _ _ ZOMBIE Hh) by done.
      rewrite Epar in Hr. case_decide as Ed;
        [eapply (t_parent _ _ _ _ T i q cur)|eapply (t_parent _ _ _ _ T i q r)]; done. }
    assert (r ≠ i ∧ r ≠ cur ∧ ∃ pr, ps !! r = Some pr ∧ alive (state pr)) as (Hri & Hrc & pr & Hpr & Hpra).
    { rewrite Epar in Hr. case_decide as Ed.
      - destruct (t_init _ _ _ _ T) as (j & pj & Hj & Hpj & Hja & Hjn). simplify_eq.
        split_and!; [|congruence|eauto]. intros ->. congruence.
      - destruct (t_parent _ _ _ _ T i q r Hq Hr) as (_ & ? & ?). split_and!; [done| |done].
        congruence. }
    split_and!; [done..|].
    destruct (Hf r pr Hrc Hpr) as (pr' & ? & Hh). exists pr'.
    by rewrite <- (handed_alive _ _ _ _ Hh).
  - destruct (t_init _ _ _ _ T) as (j & pj & Hj & Hpj & Hja & Hjn).
    destruct (Hf j pj) as (q & Hq & Hh); [congruence|done|]. exists j, q.
    split_and!; [done..| |]; [by rewrite <- (handed_alive _ _ _ _ Hh)|].
    destruct Hh as (_ & -> & _). case_decide; congruence.
  - intros i q' (q & Hq & _ & Epar & Hc)%Hb Hst. rewrite Epar.
    case_decide.
    { right. destruct (t_init _ _ _ _ T) as (j & ? & -> & _). eauto. }
    eapply (t_orphan _ _ _ _ T); [done|].
    destruct Hc as [(-> & _)|(_ & _ & Hh)]; [right; congruence|].
    by rewrite <- (handed_alive _ _ _ _ Hh), (handed_state _ _ _ _ ZOMBIE Hh) in Hst.
  - intros i q' h (q & Hq & _ & _ & Hc)%Hb Hh Hx.
    destruct Hc as [(_ & ->)|(Hne & _ & Hhd)]; [by intros []|].
    rewrite <- (handed_alive _ _ _ _ Hhd). altered. by eapply (t_exit _ _ _ _ T).
  - intros i q' h (q & Hq & _ & _ & Hc)%Hb Hh Hs.
    destruct Hc as [(_ & E)|(Hne & _ & Hhd)]; [congruence|].
    destruct (handed_sleeping _ _ _ _ Hhd Hs) as [Hs' ->].
    altered. by eapply (t_sleep _ _ _ _ T).
  - intros i q' h want (q & Hq & _ & _ & Hc)%Hb Hh Hs Hw j r' Hr' Hpar Hm Hst'.
    destruct Hc as [(_ & E)|(Hne & Hq' & Hhd)]; [congruence|].
    destruct (handed_sleeping _ _ _ _ Hhd Hs) as [Hs' Ech].
    apply Hb in Hr' as (r & Hr & Epid & Epar & Hcr). rewrite Epar in Hpar. altered.
    destruct (t_sleep _ _ _ _ T i q h) as [Hb'|(w & Hw' & Hch)]; [done..|congruence|].
    destruct Hcr as [(-> & _)|(Hjc & _ & Hhr)].
    + rewrite Hp in Hr. simplify_eq. case_decide as Ed.
      { destruct (t_parent _ _ _ _ T cur r cur Hp Ed) as (_ & ? & _). done. }
      apply (Hwk i q' Hq' Hs). rewrite Ech, Hch, Hpar. done.
    + apply (handed_state _ _ _ _ ZOMBIE Hhr) in Hst'; [|done..]. case_decide as Ed.
      * apply (Hz j r Hr Ed Hst' i q' Hq' Hs). by rewrite Ech, Hch, Hpar.
      * apply (t_wait _ _ _ _ T i q h want Hq) with (j := j) (q := r); try done.
        unfold matches in *. by rewrite <- Epid.
  - intros i h n Hh Hn. altered; [cbn in Hn; congruence|].
    destruct (t_new _ _ _ _ T i h n) as ((q & Hq & Hqa) & (e & He & Hst) & Huq); [done..|].
    split_and!.
    + destruct (Hf i q) as (q' & ? & Hhd); [done..|]. exists q'.
      by rewrite <- (handed_alive _ _ _ _ Hhd).
    + destruct (Hf n e) as (e' & ? & Hhd); [|done|].
      { intros ->. rewrite Hp in He. simplify_eq. by rewrite Hst in Ha. }
      exists e'. by rewrite (handed_state _ _ _ _ EMBRYO Hhd).
    + intros j h' Hj Hn'. altered; [cbn in Hn'; congruence|]. by eapply Huq.
Qed.

(** ** The CPUs and [ptable.lock] *)

Definition running (ps : list proc) (i : nat) : Prop :=
  ∃ p, ps !! i = Some p ∧ state p = RUNNING.

(** The running processes are exactly those on a CPU, one CPU each. *)
Record rmap (ps : list proc) (cs : list cpu) : Prop := {
  r_iff : ∀ i, running ps i ↔ ∃ c cc, cs !! c = Some cc ∧ c_proc cc = Some i;
  r_uniq : ∀ c d cc cd i, cs !! c = Some cc → cs !! d = Some cd →
    c_proc cc = Some i → c_proc cd = Some i → c = d;
}.

(** The interrupt state of every CPU, and who holds the lock: a CPU inside the
    scheduler's loop, or the CPU [who] in a critical section of its own. *)
Record lkst (who : option nat) (lk : Spin.spinlock) (cs : list cpu) : Prop := {
  l_cli : ∀ c cc, cs !! c = Some cc →
    0 ≤ Spin.ncli (c_int cc) ∧ (0 < Spin.ncli (c_int cc) → Spin.FL_IF (c_int cc) = false);
  l_idle : ∀ c cc, cs !! c = Some cc → c_proc cc = None → c_scan cc = None →
    Spin.ncli (c_int cc) = (if decide (who = Some c) then 1 else 0);
  l_scan : ∀ c cc j, cs !! c = Some cc → c_scan cc = Some j →
    lk = Spin.mklock 1 (Some c) ∧ c_proc cc = None ∧ Spin.ncli (c_int cc) = 1 ∧ (j ≤ NPROC)%nat;
  l_who : match who with
    | None => lk = Spin.mklock 0 None ∨
        ∃ c cc j, lk = Spin.mklock 1 (Some c) ∧ cs !! c = Some cc ∧ c_scan cc = Some j
    | Some me => lk = Spin.mklock 1 (Some me) ∧
        ∃ cc, cs !! me = Some cc ∧ c_scan cc = None ∧ 1 ≤ Spin.ncli (c_int cc)
    end;
}.

Lemma rmap_running ps ps' cs : (∀ i, running ps' i ↔ running ps i) → rmap ps cs → rmap ps' cs.
Proof. intros H [H1 H2]. split; [|done]. intros i. rewrite H. apply H1. Qed.

Lemma running_mild ps ps' i : Forall2 mild ps ps' → running ps' i ↔ running ps i.
Proof.
  intros HF. split; intros (p & Hp & Hs).
  - destruct (mild_list _ _ _ _ HF Hp) as (q & Hq & Hm). exists q. split; [done|].
    by apply (mild_state q p RUNNING Hm) in Hs.
  - destruct (mild_list_l _ _ _ _ HF Hp) as (q & Hq & Hm). exists q. split; [done|].
    by apply (mild_state p q RUNNING Hm).
Qed.

(** A change to one entry that neither was nor becomes running. *)
Lemma running_alter (f : proc → proc) j ps p i :
  ps !! j = Some p → state p ≠ RUNNING → state (f p) ≠ RUNNING →
  running (alter f j ps) i ↔ running ps i.
Proof.
  intros Hp H1 H2. unfold running. split; intros (q & Hq & Hs).
  - altered; eauto.
  - exists q. split; [|done]. apply alter_other; [|done]. intros ->. congruence.
Qed.

Lemma rmap_int ps cs me v : rmap ps cs → rmap ps (alter (set_int v) me cs).
Proof.
  intros [H1 H2]. split.
  - intros i. rewrite H1. split; intros (c & cc & Hc & Hi).
    + destruct (decide (me = c)) as [->|].
      * exists c, (set_int v cc). split; [by apply alter_at|done].
      * exists c, cc. split; [by apply alter_other|done].
    + altered; eauto.
  - intros c d cc cd i Hc Hd. altered; cbn [set_int c_proc]; eauto.
Qed.

(** Leaving the CPU: the process stops running and the scheduler takes over. *)
Lemma rmap_leave ps ps' cs me cc i f :
  rmap ps cs → cs !! me = Some cc → c_proc cc = Some i → (∀ c, c_proc (f c) = None) →
  (∀ j, running ps' j ↔ j ≠ i ∧ running ps j) → rmap ps' (alter f me cs).
Proof.
  intros [H1 H2] Hme Hi Hf Hr. split.
  - intros j. rewrite Hr, H1. split.
    + intros (Hne & c & cd & Hc & Hj). exists c, cd. split; [|done].
      apply alter_other; [|done]. intros ->. congruence.
    + intros (c & cd & Hc & Hj). altered; [by rewrite Hf in Hj|].
      split; [|eauto]. intros ->. by destruct (H2 me c cc cd i).
  - intros c d x y j Hx Hy Ex Ey. altered; rewrite ?Hf in *; try done. eauto.
Qed.

(** Dispatch: the scheduler puts process [i] on its CPU. *)
Lemma rmap_dispatch ps ps' cs me cc i f :
  rmap ps cs → cs !! me = Some cc → c_proc cc = None → (∀ c, c_proc (f c) = Some i) →
  ¬ running ps i → (∀ j, running ps' j ↔ j = i ∨ running ps j) → rmap ps' (alter f me cs).
Proof.
  intros [H1 H2] Hme Hn Hf Hni Hr. split.
  - intros j. rewrite Hr, H1. split.
    + intros [->|(c & cd & Hc & Hj)].
      * exists me, (f cc). split; [by apply alter_at|done].
      * exists c, cd. split; [|done]. apply alter_other; [|done]. intros ->. congruence.
    + intros (c & cd & Hc & Hj). altered; [rewrite Hf in Hj; simplify_eq; by left|].
      right. eauto.
  - intros c d x y j Hx Hy Ex Ey.
    assert (∀ c cd, cs !! c = Some cd → c_proc cd ≠ Some i) as Hno.
    { intros c' cd Hc Hi. destruct Hni. apply H1. eauto. }
    altered; rewrite ?Hf in *; try done; simplify_eq; try (by destruct (Hno _ _ H0)); eauto.
    all: exfalso; eapply Hno; eauto.
Qed.

(** Running a [spinlock.c] operation changes the interrupt state only. *)
Lemma lkst_int who lk cs me cc v :
  lkst who lk cs → cs !! me = Some cc → 0 ≤ Spin.ncli v →
  (0 < Spin.ncli v → Spin.FL_IF v = false) → c_scan cc = None → is_Some (c_proc cc) →
  (who = Some me → 1 ≤ Spin.ncli v) → lkst who lk (alter (set_int v) me cs).
Proof.
  intros [H1 Hi H2 H3] Hme Hv HF Hns [i Hpr] Hw. split.
  - intros c x Hx. altered; eauto.
  - intros c x Hx Hxp Hxs. altered; [cbn in Hxp; congruence|eauto].
  - intros c x j Hx Hj. altered; [|eauto]. cbn in Hj. congruence.
  - destruct who as [m|].
    + destruct H3 as (-> & x & Hx & Hxs & Hn). split; [done|].
      destruct (decide (me = m)) as [->|].
      * exists (set_int v x). rewrite Hme in Hx. simplify_eq. split; [by apply alter_at|].
        split; [done|]. by apply Hw.
      * exists x. split; [by apply alter_other|done].
    + destruct H3 as [|(c & x & j & -> & Hx & Hj)]; [by left|right].
      exists c, x, j. split_and!; [done| |done]. apply alter_other; [|done]. congruence.
Qed.

(** ** The operations *)
Section ops.
Context {E : Type} `{!ProcEnv E}.
Implicit Types s : sys E.

Lemma wlp_io {A} (m : M E A) (Q : A → sys E → Prop) s :
  (∀ a e, Q a (set_env e s)) → wlp (io m) Q s.
Proof. intros H. unfold wlp, io, zoom. destruct (m (env s)) as [[a e]|]; [apply H|done]. Qed.

Lemma wlp_the_proc i (Q : proc → sys E → Prop) s :
  (∀ p, procs s !! i = Some p → Q p s) → wlp (the_proc i) Q s.
Proof. intros H. unfold wlp, the_proc, from_option. destruct (procs s !! i); [by apply H|done]. Qed.

Lemma wlp_the_cpu c (Q : cpu → sys E → Prop) s :
  (∀ cc, cpus s !! c = Some cc → Q cc s) → wlp (the_cpu c) Q s.
Proof. intros H. unfold wlp, the_cpu, from_option. destruct (cpus s !! c); [by apply H|done]. Qed.

Lemma wlp_the_kth i (Q : kthread → sys E → Prop) s :
  (∀ k, kths s !! i = Some k → Q k s) → wlp (the_kth i) Q s.
Proof. intros H. unfold wlp, the_kth, from_option. destruct (kths s !! i); [by apply H|done]. Qed.

Lemma wlp_on_cpu {A} me (m : M Spin.cpu A) (Q : A → sys E → Prop) s cc :
  cpus s !! me = Some cc →
  (∀ a v, m (c_int cc) = Ok (a, v) → Q a (set_cpus (alter (set_int v) me (cpus s)) s)) →
  wlp (on_cpu me m) Q s.
Proof.
  intros Hc HQ. unfold on_cpu. apply wlp_bind, wlp_the_cpu. intros ? Hc'. simplify_eq.
  apply wlp_bind. unfold wlp at 1, lift. destruct (m (c_int cc)) as [[a v]|] eqn:Em; [|done].
  apply wlp_bind, wlp_modify, wlp_ret. by apply HQ.
Qed.

Lemma wlp_myproc me (Q : nat → sys E → Prop) s :
  (∀ cc i, cpus s !! me = Some cc → c_proc cc = Some i → Q i s) → wlp (myproc me) Q s.
Proof.
  intros H. apply wlp_bind, wlp_the_cpu. intros cc Hc. apply wlp_from_option. eauto.
Qed.

Lemma set_int_twice v w me (cs : list cpu) :
  alter (set_int w) me (alter (set_int v) me cs) = alter (set_int w) me cs.
Proof. rewrite list_alter_alter_eq. by apply list_alter_ext. Qed.

Lemma wlp_acquire me (Q : unit → sys E → Prop) s cc :
  lkst None (plock s) (cpus s) → cpus s !! me = Some cc → c_scan cc = None →
  (∀ v, lkst (Some me) (Spin.mklock 1 (Some me)) (alter (set_int v) me (cpus s)) →
    Spin.ncli v = Spin.ncli (c_int cc) + 1 →
    Q tt (set_plock (Spin.mklock 1 (Some me)) (set_cpus (alter (set_int v) me (cpus s)) s))) →
  wlp (acquire me) Q s.
Proof.
  intros L Hc Hns HQ. destruct (l_cli _ _ _ L _ _ Hc) as [Hn _].
  apply wlp_bind, wlp_gets, wlp_bind. eapply wlp_on_cpu; [done|].
  intros [] v [Hv HF]%Spin.acquire_enter_post; [|done].
  destruct (l_who _ _ _ L) as [Hfree|(c & x & j & E1 & E2 & E3)];
    [|by rewrite E1]. rewrite Hfree.
  cbn [Spin.acquire_exchange Spin.locked Spin.acquire_done Spin.lk_cpu Z.eqb].
  apply wlp_modify. apply HQ; [|done]. split.
  - intros c x Hx. altered; cbn [set_int c_int].
    + split; [lia|done].
    + by eapply (l_cli _ _ _ L).
  - intros c x Hx Hxp Hxs. altered; cbn [set_int c_int c_proc] in *.
    + rewrite decide_True by done. by rewrite Hv, (l_idle _ _ _ L c cc).
    + rewrite decide_False by congruence. by rewrite (l_idle _ _ _ L c x).
  - intros c x j Hx Hj. altered; [cbn in Hj; congruence|].
    destruct (l_scan _ _ _ L c x j) as (E' & _); [done..|]. congruence.
  - split; [done|]. exists (set_int v cc). split_and!; [by apply alter_at|done|cbn; lia].
Qed.

Lemma wlp_release me (Q : unit → sys E → Prop) s cc :
  lkst (Some me) (plock s) (cpus s) → cpus s !! me = Some cc →
  (∀ v, lkst None (Spin.mklock 0 None) (alter (set_int v) me (cpus s)) →
    Spin.ncli v = Spin.ncli (c_int cc) - 1 →
    Q tt (set_plock (Spin.mklock 0 None) (set_cpus (alter (set_int v) me (cpus s)) s))) →
  wlp (release me) Q s.
Proof.
  intros L Hc HQ. destruct (l_cli _ _ _ L _ _ Hc) as [Hn _].
  destruct (l_who _ _ _ L) as (Hlk & x & Hx & Hns & Hx1). rewrite Hc in Hx. simplify_eq.
  apply wlp_bind, wlp_gets, wlp_bind. eapply wlp_on_cpu; [done|].
  intros l' v (-> & Hv & _)%Spin.release_enter_post; [|done].
  apply wlp_bind, wlp_modify. rewrite Hlk. cbn [Spin.release_store Spin.lk_cpu Spin.locked].
  eapply wlp_on_cpu; [by apply alter_at|].
  intros [] w (HF & Hp & Hw & HF')%Spin.popcli_post. cbn [set_plock set_cpus cpus plock].
  rewrite set_int_twice. cbn [set_int c_int] in *. apply (HQ w); [|lia]. split.
  - intros c y Hy. altered; cbn [set_int c_int]; [split; [lia|done]|]. by eapply (l_cli _ _ _ L).
  - intros c y Hy Hyp Hys. rewrite decide_False by done. altered; cbn [set_int c_int c_proc] in *.
    + pose proof (l_idle _ _ _ L c x Hc Hyp Hns) as Hi. rewrite decide_True in Hi by done. lia.
    + rewrite (l_idle _ _ _ L c y) by done. rewrite decide_False by congruence. done.
  - intros c y j Hy Hj. altered; [cbn in Hj; congruence|].
    destruct (l_scan _ _ _ L c y j) as (E' & _); [done..|]. congruence.
  - by left.
Qed.

(** The invariant between two steps, and inside a critical section of the
    process [i] on CPU [me]. *)
Definition sinv s : Prop :=
  tinv (procs s) (kths s) (nextpid s) (initproc s) ∧
  rmap (procs s) (cpus s) ∧ lkst None (plock s) (cpus s).

Definition on (me : nat) (o : option nat) s : Prop :=
  ∃ cc, cpus s !! me = Some cc ∧ c_proc cc = o ∧ c_scan cc = None.

Definition crit (me : nat) (o : option nat) s : Prop :=
  tinv (procs s) (kths s) (nextpid s) (initproc s) ∧
  rmap (procs s) (cpus s) ∧ lkst (Some me) (plock s) (cpus s) ∧ on me o s.

(** [table s s']: the step from [s] to [s'] changed at most the entries. *)
Definition table s s' : Prop :=
  kths s' = kths s ∧ nextpid s' = nextpid s ∧ initproc s' = initproc s ∧
  plock s' = plock s ∧ cpus s' = cpus s.

Lemma on_int me o v s : on me o s → on me o (set_cpus (alter (set_int v) me (cpus s)) s).
Proof.
  intros (cc & Hc & Hp & Hs). exists (set_int v cc). split_and!; [by apply alter_at|done..].
Qed.

Lemma on_running me i s : sinv s → on me (Some i) s → ∃ p, procs s !! i = Some p ∧ state p = RUNNING.
Proof. intros (_ & R & _) (cc & Hc & Hp & _). apply (r_iff _ _ R). eauto. Qed.

Lemma crit_running me i s : crit me (Some i) s → ∃ p, procs s !! i = Some p ∧ state p = RUNNING.
Proof. intros (_ & R & _ & (cc & Hc & Hp & _)). apply (r_iff _ _ R). eauto. Qed.

Lemma wlp_enter me o Q s :
  sinv s → on me o s →
  (∀ s', crit me o s' → procs s' = procs s → kths s' = kths s → initproc s' = initproc s →
     nextpid s' = nextpid s → Q tt s') →
  wlp (acquire me) Q s.
Proof.
  intros (T & R & L) Ho HQ. pose proof Ho as (cc & Hc & Hp & Hs).
  eapply wlp_acquire; [done..|]. intros v Hl Hv. apply HQ; [|done..].
  split_and!; [done|by apply rmap_int|done|by apply on_int].
Qed.

Lemma wlp_leave me o Q s :
  crit me o s →
  (∀ s', sinv s' → on me o s' → procs s' = procs s → kths s' = kths s → initproc s' = initproc s →
     nextpid s' = nextpid s → Q tt s') →
  wlp (release me) Q s.
Proof.
  intros (T & R & L & Ho) HQ. pose proof Ho as (cc & Hc & Hp & Hs).
  eapply wlp_release; [done..|]. intros v Hl Hv. apply HQ; try done.
  - split_and!; [done|by apply rmap_int|done].
  - by apply on_int.
Qed.

Lemma crit_table me o s s' :
  crit me o s → table s s' → tinv (procs s') (kths s) (nextpid s) (initproc s) →
  rmap (procs s') (cpus s) → crit me o s'.
Proof.
  intros (T & R & L & Ho) (Ek & En & Ei & El & Ec) T' R'.
  split_and!; [by rewrite Ek, En, Ei|by rewrite Ec|by rewrite El, Ec|].
  unfold on. by rewrite Ec.
Qed.

Lemma crit_mild me o s s' :
  crit me o s → table s s' → Forall2 mild (procs s) (procs s') → crit me o s'.
Proof.
  intros C Ht HF. pose proof C as (T & R & _). eapply crit_table; [done..| |].
  - by eapply mild_tinv.
  - eapply rmap_running; [|done]. intros. by apply running_mild.
Qed.

Lemma sinv_mild s s' : sinv s → table s s' → Forall2 mild (procs s) (procs s') → sinv s'.
Proof.
  intros (T & R & L) (Ek & En & Ei & El & Ec) HF.
  split_and!; [rewrite Ek, En, Ei; by eapply mild_tinv| |by rewrite El, Ec].
  rewrite Ec. eapply rmap_running; [|done]. intros. by apply running_mild.
Qed.

(** [sched]: the caller has changed the state of its process [i] to one that
    is not running; [T] is what the table must satisfy then. *)
Lemma wlp_sched me i k Q s :
  lkst (Some me) (plock s) (cpus s) → on me (Some i) s → length (procs s) = NPROC →
  (∀ s' f ia, procs s' = procs s → kths s' = alter (λ t, mkkth k ia (k_new t)) i (kths s) →
     nextpid s' = nextpid s → initproc s' = initproc s →
     lkst None (plock s') (cpus s') → (∀ c, c_proc (f c) = None) →
     cpus s' = alter f me (cpus s) → Q tt s') →
  wlp (sched me k) Q s.
Proof.
  intros L (cc & Hc & Hp & Hs) Hlen HQ. destruct (l_cli _ _ _ L _ _ Hc) as [Hn _].
  apply wlp_bind, wlp_myproc. intros x j Hx Hj. rewrite Hc in Hx. simplify_eq.
  apply wlp_bind, wlp_gets, wlp_bind. eapply wlp_on_cpu; [done|].
  intros h v (Hh & Hv & HF)%Spin.holding_post; [|done].
  destruct (negb h); [done|].
  apply wlp_bind, wlp_the_cpu. intros y Hy. cbn [set_cpus cpus] in Hy. altered.
  apply wlp_bind, wlp_the_proc. intros p Hpi. cbn [set_cpus procs] in Hpi.
  destruct (negb _) eqn:Ecli; [done|]. apply negb_false_iff, Z.eqb_eq in Ecli.
  cbn [set_int c_int] in Ecli. case_decide; [done|]. destruct (Spin.FL_IF _) eqn:EIF; [done|].
  apply wlp_bind, wlp_modify, wlp_bind, wlp_io. intros [] e. apply wlp_modify.
  destruct (l_who _ _ _ L) as (Hlk & z & Hz & Hz1 & Hz2). rewrite Hc in Hz. simplify_eq.
  eapply HQ; cbn [procs kths nextpid initproc plock cpus set_cpus set_env set_kths]; try done.
  - rewrite list_alter_alter_eq. split.
    + intros c x Hx. altered; cbn; [|by eapply (l_cli _ _ _ L)]. lia || split; [lia|auto].
    + intros c x Hx Hxp Hxs. altered. rewrite decide_False by done.
      rewrite (l_idle _ _ _ L c x) by done. by rewrite decide_False by congruence.
    + intros c x j Hx Hjj. altered.
      * cbn in Hjj |- *. simplify_eq. apply lookup_lt_Some in Hpi. split_and!; [done..|lia].
      * destruct (l_scan _ _ _ L c x j) as (E' & _); [done..|]. congruence.
    + right. eexists me, _, _. split_and!; [done|by apply alter_at|done].
  - instantiate (1 := (λ c, set_scan (Some (i + 1)%nat) (set_cproc None c)) ∘ set_int v).
    intros c. done.
  - apply list_alter_alter_eq.
Qed.

Lemma running_stop (f : proc → proc) i ps p j :
  ps !! i = Some p → state (f p) ≠ RUNNING → running (alter f i ps) j ↔ j ≠ i ∧ running ps j.
Proof.
  intros Hp Hs. unfold running. split.
  - intros (q & Hq & Hr). altered. split; [congruence|]. eauto.
  - intros (Hne & q & Hq & Hr). exists q. split; [by apply alter_other|done].
Qed.

Lemma running_start (f : proc → proc) i ps p j :
  ps !! i = Some p → state (f p) = RUNNING → running (alter f i ps) j ↔ j = i ∨ running ps j.
Proof.
  intros Hp Hs. unfold running. split.
  - intros (q & Hq & Hr). altered; eauto.
  - intros [->|(q & Hq & Hr)].
    + exists (f p). split; [by apply alter_at|done].
    + destruct (decide (i = j)) as [->|]; [exists (f p)|exists q]; (split; [|done]).
      * by apply alter_at.
      * by apply alter_other.
Qed.

(** A process gives up its CPU and stays alive. *)
Lemma wlp_stop me i p f k s :
  crit me (Some i) s → procs s !! i = Some p → alive (state (f p)) → state (f p) ≠ RUNNING →
  pid (f p) = pid p → parent (f p) = parent p → ¬ stuck k →
  (state (f p) = SLEEPING → k = KSleep true ∨
    (∃ want, k = KWait want ∧ chan (f p) = CProc i ∧
      ∀ j q, procs s !! j = Some q → parent q = Some i → matches want q → state q ≠ ZOMBIE)) →
  wlp (_ ← upd i f; sched me k) (λ _ s', sinv s' ∧ procs s' = alter f i (procs s)) s.
Proof.
  intros C Hp Ha Hnr Hpid Hpar Hk Hsl. pose proof C as (T & R & L & Ho).
  destruct (crit_running _ _ _ C) as (p' & Hp' & Hrun). rewrite Hp in Hp'. simplify_eq.
  assert (is_Some (kths s !! i)) as [kt Hkt].
  { apply lookup_lt_is_Some. rewrite (t_klen _ _ _ _ T), <- (t_len _ _ _ _ T).
    by eapply lookup_lt_Some. }
  apply wlp_bind, wlp_modify. eapply wlp_sched; [done|done| |].
  { cbn [set_procs procs]. rewrite length_alter. apply T. }
  intros s' g ia Eps Ek En Ei L' Hg Ec. cbn [set_procs procs kths nextpid initproc cpus] in *.
  split; [|done]. split_and!; [|rewrite Eps, Ec|done].
  - rewrite Eps, Ek, En, Ei. eapply live_tinv; eauto. by rewrite Hrun.
  - destruct Ho as (cc & Hc & Hcp & _). eapply rmap_leave; eauto.
    intros j. by eapply running_stop.
Qed.

Lemma yield_sinv me i s : sinv s → on me (Some i) s → wlp (yield me) (λ _, sinv) s.
Proof.
  intros I Ho. apply wlp_bind. eapply wlp_enter; [done..|]. intros s' C E1 E2 E3 E4.
  pose proof C as (_ & _ & _ & (cc & Hc & Hp & _)).
  apply wlp_bind, wlp_myproc. intros c j Hc' Hj. simplify_eq.
  destruct (crit_running _ _ _ C) as (p & Hpp & Hrun).
  eapply wlp_mono; [eapply wlp_stop; eauto; try done; by intros [?|?]|by intros [] s2 [? _]].
Qed.

Definition asleep (i : nat) s : Prop := ∃ p, procs s !! i = Some p ∧ state p = SLEEPING.

Lemma go_to_sleep_sinv me i ch k s :
  crit me (Some i) s →
  k = KSleep true ∨ (∃ want, k = KWait want ∧ ch = CProc i ∧
      ∀ j q, procs s !! j = Some q → parent q = Some i → matches want q → state q ≠ ZOMBIE) →
  wlp (go_to_sleep me ch k) (λ _ s', sinv s' ∧ asleep i s') s.
Proof.
  intros C Hk. pose proof C as (_ & _ & _ & (cc & Hc & Hp & _)).
  apply wlp_bind, wlp_myproc. intros c j Hc' Hj. simplify_eq.
  destruct (crit_running _ _ _ C) as (p & Hpp & Hrun).
  eapply wlp_mono.
  - eapply wlp_stop; eauto; try done; destruct Hk as [->|(w & -> & ? & ?)];
      (by intros [?|?]) || naive_solver.
  - intros [] s2 [I2 E2]. split; [done|]. eexists. rewrite E2. split; [by apply alter_at|done].
Qed.

(** Taking and giving back another lock. *)
Lemma acquire_other_sinv me i s :
  sinv s → on me (Some i) s → wlp (acquire_other me) (λ _ s', sinv s' ∧ on me (Some i) s') s.
Proof.
  intros (T & R & L) Ho. pose proof Ho as (cc & Hc & Hp & Hs).
  destruct (l_cli _ _ _ L _ _ Hc) as [Hn _].
  eapply wlp_on_cpu; [done|]. intros [] v ->%Spin.pushcli_post.
  split; [|by apply on_int]. split_and!; [done|by apply rmap_int|].
  eapply lkst_int; eauto; cbn; done || lia.
Qed.

Lemma release_other_sinv me i s :
  sinv s → on me (Some i) s → wlp (release_other me) (λ _ s', sinv s' ∧ on me (Some i) s') s.
Proof.
  intros (T & R & L) Ho. pose proof Ho as (cc & Hc & Hp & Hs).
  eapply wlp_on_cpu; [done|]. intros [] v (_ & ? & ? & ?)%Spin.popcli_post.
  split; [|by apply on_int]. split_and!; [done|by apply rmap_int|].
  eapply lkst_int; eauto; done || lia.
Qed.

Lemma sleep_sinv me i ch s cc :
  sinv s → on me (Some i) s → cpus s !! me = Some cc → 1 ≤ Spin.ncli (c_int cc) →
  wlp (sleep me ch true) (λ _, sinv) s.
Proof.
  intros I Ho Hc Hn. pose proof Ho as (c' & Hc' & Hp & Hs). simplify_eq.
  apply wlp_bind, wlp_the_cpu. intros c2 Hc2. simplify_eq. rewrite Hp. apply wlp_bind.
  destruct I as (T & R & L). apply wlp_bind. eapply wlp_acquire; [done..|]. intros v Lv Hv.
  eapply wlp_on_cpu; [by apply alter_at|].
  intros [] w (_ & Hw & Hw' & HF)%Spin.popcli_post. cbn [set_int c_int] in Hw, Hw'.
  eapply wlp_mono; [apply (go_to_sleep_sinv me i); [|by left]|by intros [] s2 [? _]]. cbn [set_plock set_cpus cpus].
  split_and!; [done|by do 2 apply rmap_int| |by do 2 apply on_int].
  cbn [set_plock set_cpus cpus plock].
  eapply lkst_int; [done|by apply alter_at|lia|done|done|cbn; by rewrite Hp|]. intros _. lia.
Qed.

(** ** Waking *)

Lemma wake_one_mild ch p : mild p (wake_one ch p).
Proof.
  unfold wake_one. case_decide as H; [|apply mild_refl]. destruct H. split_and!; auto.
Qed.

Lemma rouse_mild p : mild p (rouse p).
Proof. unfold rouse. case_decide; [|apply mild_refl]. split_and!; auto. Qed.

Lemma wlp_wakeup1 ch Q s :
  (∀ s', table s s' → procs s' = wake_one ch <$> procs s → Q tt s') → wlp (wakeup1 ch) Q s.
Proof. intros H. apply wlp_modify, H; [|done]. by split_and!. Qed.

Lemma wakeup_sinv me o ch s : sinv s → on me o s → wlp (wakeup me ch) (λ _ s', sinv s' ∧ on me o s') s.
Proof.
  intros I Ho. apply wlp_bind. eapply wlp_enter; [done..|]. intros s1 C E1 E2 E3 E4.
  apply wlp_bind, wlp_wakeup1. intros s2 Ht Eps. eapply wlp_leave.
  - eapply crit_mild; [done..|]. rewrite Eps. apply mild_fmap. intros. apply wake_one_mild.
  - by intros.
Qed.

(** ** [waitpid] *)

Lemma crit_io me o e s : crit me o s → crit me o (set_env e s).
Proof. done. Qed.

Lemma wlp_wait_scan me cur want hk j n s :
  crit me (Some cur) s →
  wlp (wait_scan cur want hk j n) (λ r s', crit me (Some cur) s' ∧
    match r with
    | inl _ => True
    | inr _ => s' = s ∧ ∀ l q, (j ≤ l < j + n)%nat → procs s !! l = Some q →
        parent q = Some cur → matches want q → state q ≠ ZOMBIE
    end) s.
Proof.
  revert j hk. induction n as [|n IH]; intros j hk C; cbn [wait_scan].
  { apply wlp_ret. split_and!; [done..|]. intros. lia. }
  assert (∀ hk', (∀ q, procs s !! j = Some q → parent q = Some cur → matches want q → state q ≠ ZOMBIE) →
    wlp (wait_scan cur want hk' (j + 1) n) (λ r s', crit me (Some cur) s' ∧
    match r with
    | inl _ => True
    | inr _ => s' = s ∧ ∀ l q, (j ≤ l < j + Datatypes.S n)%nat → procs s !! l = Some q →
        parent q = Some cur → matches want q → state q ≠ ZOMBIE
    end) s) as Hnext.
  { intros hk' Hj. eapply wlp_mono; [by apply IH|]. intros [r|b] s' [C' H]; [done|].
    destruct H as [-> H]. split_and!; [done..|]. intros l q Hl Hq.
    destruct (decide (l = j)) as [->|]; [by apply Hj|]. apply (H l); [lia|done]. }
  apply wlp_bind, wlp_the_proc. intros p Hp. case_decide as Hpar.
  { apply Hnext. intros q Hq. by simplify_eq. }
  destruct (_ && _) eqn:Eb.
  - apply andb_prop in Eb as [_ Hz%bool_decide_eq_true_1].
    apply wlp_bind, wlp_io. intros [] e1. apply wlp_bind, wlp_io. intros [] e2.
    apply wlp_bind, wlp_modify, wlp_ret. split; [|done]. pose proof C as (T & R & L & Ho).
    eapply crit_table; [exact C|by split_and!|..].
    + cbn [procs set_procs set_env]. by eapply reap_tinv.
    + cbn [procs set_procs set_env]. eapply rmap_running; [|done]. intros l.
      eapply running_alter; [done|by rewrite Hz|done].
  - apply Hnext. intros q Hq _ Hm Hz. simplify_eq. rewrite Hz, bool_decide_true, andb_true_r in Eb by done.
    apply orb_false_elim in Eb as [?%Z.eqb_neq ?%Z.eqb_neq]. by destruct Hm.
Qed.

Lemma wait_turn_sinv me i want s :
  crit me (Some i) s →
  wlp (wait_turn me want)
    (λ r s', sinv s' ∧ match r with Some _ => on me (Some i) s' | None => asleep i s' end) s.
Proof.
  intros C. pose proof C as (_ & _ & _ & (cc & Hc & Hp & _)).
  apply wlp_bind, wlp_myproc. intros c j Hc' Hj. simplify_eq.
  apply wlp_bind. eapply wlp_mono; [by apply wlp_wait_scan|]. intros [[rp w]|hk] s' [C' H].
  { apply wlp_bind. eapply wlp_leave; [done|]. intros. by apply wlp_ret. }
  destruct H as [-> H]. apply wlp_bind, wlp_the_proc. intros p Hpp. destruct (_ || _).
  { apply wlp_bind. eapply wlp_leave; [done|]. intros. by apply wlp_ret. }
  apply wlp_bind. eapply wlp_mono.
  - apply (go_to_sleep_sinv me i); [done|]. right. exists want. split_and!; [done..|].
    intros l q Hl. apply (H l q); [|done]. apply lookup_lt_Some in Hl.
    destruct C as (T & _). rewrite (t_len _ _ _ _ T) in Hl. lia.
  - intros [] s2 [I2 A2]. by apply wlp_ret.
Qed.

Lemma waitpid_sinv me i want s :
  sinv s → on me (Some i) s →
  wlp (waitpid me want) (λ r s', sinv s' ∧ match r with Some _ => on me (Some i) s' | None => asleep i s' end) s.
Proof.
  intros I Ho. apply wlp_bind. eapply wlp_enter; [done..|]. intros s1 C _ _ _ _.
  by apply wait_turn_sinv.
Qed.

(** ** [exit] *)

(** Operations that change the environment only. *)
Definition env_only {A} (m : M (sys E) A) : Prop :=
  ∀ s, wlp m (λ _ s', ∃ e, s' = set_env e s) s.

Lemma env_only_io {A} (m : M E A) : env_only (io m).
Proof. intros s. apply wlp_io. eauto. Qed.

Lemma env_only_ret {A} (a : A) : env_only (mret a).
Proof. intros s. apply wlp_ret. exists (env s). by destruct s. Qed.

Lemma env_only_bind {A B} (m : M (sys E) A) (k : A → M (sys E) B) :
  env_only m → (∀ a, env_only (k a)) → env_only (m ≫= k).
Proof.
  intros Hm Hk s. apply wlp_bind. eapply wlp_mono; [apply Hm|]. intros a s' [e ->].
  eapply wlp_mono; [apply Hk|]. intros b s'' [e' ->]. exists e'. done.
Qed.

Lemma env_only_close l : env_only (close_all l).
Proof.
  induction l as [|f l IH]; cbn [close_all]; [apply env_only_ret|].
  apply env_only_bind; [|done]. destruct (f =? 0); [apply env_only_ret|].
  apply env_only_bind; [apply env_only_io|]. intros r. destruct (0 <? r); [|apply env_only_ret].
  apply env_only_bind; [apply env_only_io|]. intros. apply env_only_ret.
Qed.

Lemma wlp_env {A} (m : M (sys E) A) Q s :
  env_only m → (∀ a e, Q a (set_env e s)) → wlp m Q s.
Proof. intros Hm HQ. eapply wlp_mono; [apply Hm|]. intros a s' [e ->]. apply HQ. Qed.

Lemma handed_refl cur ip p : parent p ≠ Some cur → handed cur ip p p.
Proof. intros H. split_and!; [done| |by left]. by rewrite decide_False. Qed.

Lemma wlp_exit_files me i st s :
  sinv s → on me (Some i) s →
  wlp (exit_files me st) (λ _ s', sinv s' ∧ on me (Some i) s' ∧ initproc s' ≠ Some i ∧
    kths s' = kths s ∧ initproc s' = initproc s) s.
Proof.
  intros I Ho. pose proof Ho as (cc & Hc & Hp & _).
  apply wlp_bind, wlp_myproc. intros c j Hc' Hj. simplify_eq.
  apply wlp_bind, wlp_gets. case_decide as Hip; [done|].
  apply wlp_bind, wlp_the_proc. intros p Hpp. apply wlp_bind, wlp_env; [apply env_only_close|].
  intros [] e1. apply wlp_bind, wlp_io. intros [] e2. apply wlp_bind, wlp_io. intros [] e3.
  apply wlp_bind, wlp_io. intros [] e4. apply wlp_modify. split_and!; try done.
  eapply sinv_mild; [exact I|by split_and!|]. cbn [procs set_procs set_env].
  apply mild_alter. intros q _. split_and!; try done. by left.
Qed.

(** The part of the table the loop of [exit] has been through. *)
Definition handed_at (cur : nat) (ip : option nat) (j n l : nat) (p q : proc) : Prop :=
  pid q = pid p ∧
  parent q = (if decide ((j ≤ l < j + n)%nat ∧ parent p = Some cur) then ip else parent p) ∧
  ((state q = state p ∧ chan q = chan p) ∨ (state p = SLEEPING ∧ state q = RUNNABLE)).

Lemma handed_at_trans cur ip j n l p q r :
  handed_at cur ip j 1 l p q → handed_at cur ip (j + 1) n l q r →
  handed_at cur ip j (Datatypes.S n) l p r.
Proof.
  intros (P1 & Q1 & R1) (P2 & Q2 & R2). split_and!; [congruence| |].
  - destruct (decide ((j ≤ l < j + 1)%nat ∧ parent p = Some cur)) as [[]|N1],
      (decide ((j + 1 ≤ l < j + 1 + n)%nat ∧ parent q = Some cur)) as [[]|N2],
      (decide ((j ≤ l < j + Datatypes.S n)%nat ∧ parent p = Some cur)) as [[]|N3];
      try congruence; try lia.
    + destruct N3. split; [lia|congruence].
    + destruct N3. split; [lia|congruence].
    + destruct (decide (l = j)) as [->|]; [destruct N1; split; [lia|done]|].
      destruct N2. split; [lia|congruence].
  - destruct R1 as [[? ?]|[? ?]], R2 as [[? ?]|[? ?]]; intuition congruence.
Qed.

Lemma wlp_reparent cur ip j n s :
  wlp (reparent cur ip j n) (λ _ s', table s s' ∧ length (procs s') = length (procs s) ∧
    (∀ l p q, procs s !! l = Some p → procs s' !! l = Some q → handed_at cur ip j n l p q) ∧
    (∀ z p, (j ≤ z < j + n)%nat → procs s !! z = Some p → parent p = Some cur → state p = ZOMBIE →
       ∀ l q, procs s' !! l = Some q → state q = SLEEPING → chan q ≠ pchan ip)) s.
Proof.
  revert j s. induction n as [|n IH]; intros j s; cbn [reparent].
  { apply wlp_ret. split_and!; try done; try lia. intros l p q Hp Hq. simplify_eq.
    split_and!; [done| |by left]. rewrite decide_False; [done|lia]. }
  apply wlp_bind, wlp_the_proc. intros p Hp. apply wlp_bind.
  eapply (wlp_mono _ (λ _ s1, table s s1 ∧ length (procs s1) = length (procs s) ∧
    (∀ l p q, procs s !! l = Some p → procs s1 !! l = Some q → handed_at cur ip j 1 l p q) ∧
    (parent p = Some cur → state p = ZOMBIE →
       ∀ l q, procs s1 !! l = Some q → state q = SLEEPING → chan q ≠ pchan ip))).
  - assert (∀ l q, procs s !! l = Some q → l ≠ j ∨ parent q ≠ Some cur → handed_at cur ip j 1 l q q) as Hid.
    { intros l q Hq Hl. split_and!; [done| |by left]. rewrite decide_False; [done|].
      intros [? ?]. destruct Hl; [lia|done]. }
    assert (∀ q, parent q = Some cur → handed_at cur ip j 1 j q (set_parent ip q)) as Hset.
    { intros q Hq. split_and!; [done| |by left]. rewrite decide_True; [done|]. split; [lia|done]. }
    case_decide as Hpar.
    + apply wlp_bind, wlp_modify. case_decide as Hz.
      * apply wlp_wakeup1. intros s1 Ht Eps. cbn [set_procs procs] in Eps.
        split_and!; [done|by rewrite Eps, length_fmap, length_alter|..].
        -- intros l r q Hr Hq. rewrite Eps, list_lookup_fmap in Hq.
           apply fmap_Some in Hq as (q1 & Hq1 & ->).
           assert (handed_at cur ip j 1 l r q1) as (H1 & H2 & H3).
           { altered; [by apply Hset|]. apply Hid; [done|by left]. }
           destruct (wake_one_mild (pchan ip) q1) as (? & ? & Hw).
           split_and!; [congruence..|]. unfold wake_one in *. case_decide as Hd; [|done].
           right. destruct Hd as [Hd _], H3 as [[? ?]|[? ?]]; split; cbn; congruence.
        -- intros _ _ l q Hq Hs Hch. rewrite Eps, list_lookup_fmap in Hq.
           apply fmap_Some in Hq as (q1 & Hq1 & ->). unfold wake_one in *.
           case_decide as Hd; [done|]. by destruct Hd.
      * apply wlp_ret. split_and!; [done|by cbn; rewrite length_alter|..|done].
        intros l r q Hr Hq. cbn [set_procs procs] in Hq. altered; [by apply Hset|].
        apply Hid; [done|by left].
    + apply wlp_ret. split_and!; try done. intros l r q Hr Hq. simplify_eq. apply Hid; [done|].
      destruct (decide (l = j)); [right; congruence|by left].
  - intros [] s1 (Ht1 & Hl1 & Hh1 & Hz1). eapply wlp_mono; [apply IH|].
    intros [] s2 (Ht2 & Hl2 & Hh2 & Hz2). split_and!.
    + destruct Ht1 as (?&?&?&?&?), Ht2 as (?&?&?&?&?). split_and!; congruence.
    + congruence.
    + intros l r q Hr Hq.
      assert (is_Some (procs s1 !! l)) as [q1 Hq1].
      { apply lookup_lt_is_Some. rewrite Hl1. by eapply lookup_lt_Some. }
      eapply handed_at_trans; eauto.
    + intros z r Hzr Hr Hpar Hzs l q Hq Hs.
      assert (is_Some (procs s1 !! l)) as [q1 Hq1].
      { apply lookup_lt_is_Some. rewrite <- Hl2. by eapply lookup_lt_Some. }
      destruct (Hh2 l q1 q Hq1 Hq) as (_ & _ & [[E1 E2]|[_ ?]]); [|congruence].
      destruct (decide (z = j)) as [->|].
      * rewrite Hp in Hr. simplify_eq. rewrite E2. eapply Hz1; eauto. congruence.
      * assert (is_Some (procs s1 !! z)) as [z1 Hz1'].
        { apply lookup_lt_is_Some. rewrite Hl1. by eapply lookup_lt_Some. }
        destruct (Hh1 z r z1 Hr Hz1') as (_ & Ep & [[Es _]|[? _]]); [|congruence].
        rewrite decide_False in Ep by lia.
        eapply (Hz2 z z1); eauto; [lia|congruence..].
Qed.

Lemma exit_locked_sinv me i k s :
  sinv s → on me (Some i) s → initproc s ≠ Some i → kths s !! i = Some k → k_new k = None →
  wlp (exit_locked me) (λ _, sinv) s.
Proof.
  intros I1 Ho1 Hip Hk Hnew. pose proof Ho1 as (cc & Hc & Hp & _).
  apply wlp_bind, wlp_myproc. intros c j Hc' Hj. simplify_eq.
  apply wlp_bind. eapply wlp_enter; [done..|]. intros s2 C E1 E2 E3 E4.
  rewrite <- E2 in Hk. rewrite <- E3 in Hip.
  pose proof C as (T & R & L & Ho2). destruct (crit_running _ _ _ C) as (p & Hpp & Hrun).
  apply wlp_bind, wlp_the_proc. intros p' Hp'. simplify_eq.
  apply wlp_bind, wlp_wakeup1. intros s3 Ht3 Eps3. apply wlp_bind, wlp_gets, wlp_bind.
  eapply wlp_mono; [apply wlp_reparent|]. intros [] s4 (Ht4 & Hlen & Hh & Hz).
  apply wlp_bind, wlp_modify.
  assert (table s2 s4) as Ht. { destruct Ht3 as (?&?&?&?&?), Ht4 as (?&?&?&?&?). split_and!; congruence. }
  assert (initproc s3 = initproc s2) as Ei3 by apply Ht3. rewrite Ei3 in *.
  assert (∀ l q, procs s4 !! l = Some q → state q = SLEEPING →
    ∃ q3, procs s3 !! l = Some q3 ∧ state q3 = SLEEPING ∧ chan q = chan q3) as Hback.
  { intros l q Hq Hs. assert (is_Some (procs s3 !! l)) as [q3 Hq3].
    { apply lookup_lt_is_Some. rewrite <- Hlen. by eapply lookup_lt_Some. }
    exists q3. destruct (Hh l q3 q Hq3 Hq) as (_ & _ & [[? ?]|[? ?]]); [|congruence].
    split_and!; congruence. }
  assert (Forall2 (handed i (initproc s2)) (procs s2) (procs s4)) as HF.
  { apply Forall2_same_length_lookup. split; [by rewrite Hlen, Eps3, length_fmap|].
    intros l r q Hr Hq.
    assert (procs s3 !! l = Some (wake_one (pchan (parent p)) r)) as Hr3
      by (by rewrite Eps3, list_lookup_fmap, Hr).
    assert (l < NPROC)%nat as Hl by (rewrite <- (t_len _ _ _ _ T); by eapply lookup_lt_Some).
    destruct (Hh l _ q Hr3 Hq) as (H1 & H2 & H3).
    destruct (wake_one_mild (pchan (parent p)) r) as (W1 & W2 & _).
    rewrite W1 in H1. rewrite W2 in H2. split_and!; [done| |].
    - rewrite H2. destruct (decide (parent r = Some i)) as [Er|Er].
      + rewrite decide_True; [done|]. split; [lia|done].
      + rewrite decide_False; [done|]. tauto.
    - unfold wake_one in H3. case_decide as Hd; [|done]. destruct Hd as [Hd _].
      right. split; [done|]. destruct H3 as [[H3 _]|[H3 _]]; cbn in H3; congruence. }
  eapply (wlp_sched me i).
  - cbn [set_procs plock cpus]. destruct Ht as (_&_&_&-> & ->). done.
  - destruct Ho2 as (x & Hx & ?). exists x. cbn [set_procs cpus].
    destruct Ht as (_&_&_&_& ->). done.
  - cbn [set_procs procs]. rewrite length_alter, Hlen, Eps3, length_fmap. apply T.
  - intros s5 g ia Eps Ek En Ei L' Hg Ec. cbn [set_procs procs kths nextpid initproc cpus] in *.
    destruct Ht as (Tk & Tn & Ti & Tl & Tc). split_and!; [|rewrite Eps, Ec, Tc|done].
    + rewrite Eps, Ek, En, Ei, Tk, Tn, Ti. eapply exit_tinv; eauto; [by rewrite Hrun|..].
      * intros l q Hq Hs. destruct (Hback l q Hq Hs) as (q3 & Hq3 & Hs3 & ->).
        rewrite Eps3, list_lookup_fmap in Hq3. apply fmap_Some in Hq3 as (q2 & Hq2 & ->).
        unfold wake_one in *. case_decide as Hd; [done|]. naive_solver.
      * intros z q Hq Hpq Hzq l r Hr Hs.
        assert (procs s3 !! z = Some q) as Hq3.
        { rewrite Eps3, list_lookup_fmap, Hq. cbn. unfold wake_one. case_decide; [naive_solver congruence|done]. }
        eapply (Hz z q); eauto. split; [lia|]. apply lookup_lt_Some in Hq.
        by rewrite (t_len _ _ _ _ T) in Hq.
    + destruct Ho2 as (x & Hx & Hxp & _).
      destruct (Forall2_lookup_l _ _ _ _ _ HF Hpp) as (p4 & Hp4 & Hh4).
      eapply rmap_leave; eauto. intros l.
      rewrite (running_stop _ i _ p4) by done. apply and_iff_compat_l.
      split; intros (q & Hq & Hs).
      * destruct (Forall2_lookup_r _ _ _ _ _ HF Hq) as (q2 & Hq2 & Hh2). exists q2.
        split; [done|]. by apply (handed_state _ _ _ _ RUNNING Hh2) in Hs.
      * destruct (Forall2_lookup_l _ _ _ _ _ HF Hq) as (q2 & Hq2 & Hh2). exists q2.
        split; [done|]. by apply (handed_state _ _ _ _ RUNNING Hh2).
Qed.

(** ** Signals *)

(** Operations that only make mild updates. *)
Definition gentle {A} (m : M (sys E) A) : Prop :=
  ∀ s, wlp m (λ _ s', table s s' ∧ Forall2 mild (procs s) (procs s')) s.

Lemma table_refl s : table s s.
Proof. by split_and!. Qed.

Lemma table_trans s1 s2 s3 : table s1 s2 → table s2 s3 → table s1 s3.
Proof. intros (?&?&?&?&?) (?&?&?&?&?). split_and!; congruence. Qed.

Lemma Forall2_mild_refl ps : Forall2 mild ps ps.
Proof. apply Forall_Forall2_diag, Forall_true, mild_refl. Qed.

Lemma gentle_ret {A} (a : A) : gentle (mret a).
Proof. intros s. split; [apply table_refl|apply Forall2_mild_refl]. Qed.

Lemma gentle_bind {A B} (m : M (sys E) A) (k : A → M (sys E) B) :
  gentle m → (∀ a, gentle (k a)) → gentle (m ≫= k).
Proof.
  intros Hm Hk s. apply wlp_bind. eapply wlp_mono; [apply Hm|]. intros a s1 [T1 F1].
  eapply wlp_mono; [apply Hk|]. intros b s2 [T2 F2]. split; [by eapply table_trans|].
  by etrans.
Qed.

Lemma gentle_io {A} (m : M E A) : gentle (io m).
Proof. intros s. apply wlp_io. intros a e. split; [by split_and!|apply Forall2_mild_refl]. Qed.

Lemma gentle_the_proc i : gentle (the_proc i).
Proof. intros s. apply wlp_the_proc. intros. split; [apply table_refl|apply Forall2_mild_refl]. Qed.

Lemma gentle_option {A} (o : option A) : gentle (from_option o).
Proof. destruct o; [apply gentle_ret|by intros s]. Qed.

Lemma gentle_upd i f : (∀ p, mild p (f p)) → gentle (upd i f).
Proof. intros Hf s. apply wlp_modify. split; [by split_and!|]. apply mild_alter. auto. Qed.

#[local] Hint Resolve gentle_ret gentle_io gentle_the_proc gentle_option gentle_bind gentle_upd : relix.

(** A signal whose default action neither stops nor continues the process. *)
Definition quiet (signal : Z) : Prop :=
  default_action signal ≠ Stop ∧ default_action signal ≠ Continue.

Lemma act_mild a p : a ≠ Stop → a ≠ Continue → mild p (act a p).
Proof. intros. destruct a; try done; try apply mild_refl. split_and!; auto. Qed.

Lemma gentle_prockill i signal : quiet signal → gentle (prockill i signal).
Proof.
  intros [Hs Hc]. unfold prockill, copy_signal_to_stack.
  destruct (signal =? 0); [auto with relix|].
  apply gentle_bind; [apply gentle_upd; intros; split_and!; auto|intros _].
  apply gentle_bind; [auto with relix|intros p]. apply gentle_bind; [auto with relix|intros h].
  apply gentle_bind; [|intros _; apply gentle_bind; [apply gentle_upd, rouse_mild|auto with relix]].
  destruct (h =? SIG_DFL); [by apply gentle_upd; intros; apply act_mild|].
  destruct (negb _); [|auto with relix]. apply gentle_bind; [auto with relix|intros q].
  apply gentle_bind; [auto with relix|intros r]. destruct (r <? 0); [by intros s|].
  apply gentle_upd. intros. split_and!; auto.
Qed.

Lemma gentle_kill_scan sel signal j n : quiet signal → gentle (kill_scan sel signal j n).
Proof.
  intros Hq. revert j. induction n as [|n IH]; intros j; cbn [kill_scan]; [auto with relix|].
  apply gentle_bind; [auto with relix|intros p]. apply gentle_bind; [|done].
  destruct (sel p); [|auto with relix]. apply gentle_bind; [by apply gentle_prockill|auto with relix].
Qed.

(** A critical section that is gentle. *)
Lemma gentle_section {A} me o (m : M (sys E) A) s :
  gentle m → sinv s → on me o s →
  wlp (_ ← acquire me; a ← m; _ ← release me; mret a) (λ _ s', sinv s' ∧ on me o s') s.
Proof.
  intros Hm I Ho. apply wlp_bind. eapply wlp_enter; [done..|]. intros s1 C _ _ _ _.
  apply wlp_bind. eapply wlp_mono; [apply Hm|]. intros a s2 [T2 F2]. apply wlp_bind.
  eapply wlp_leave; [by eapply crit_mild|]. intros. by apply wlp_ret.
Qed.

Lemma get_process_sinv me o n s :
  sinv s → on me o s → wlp (get_process_from_pid me n) (λ _ s', sinv s' ∧ on me o s') s.
Proof.
  intros I Ho. unfold get_process_from_pid. destruct (n <? 0); [by apply wlp_ret|].
  apply wlp_bind. eapply wlp_enter; [done..|]. intros s1 C _ _ _ _. apply wlp_bind, wlp_gets, wlp_bind.
  eapply wlp_leave; [done|]. intros. by apply wlp_ret.
Qed.

Lemma kill_single_sinv me o i signal s :
  quiet signal → sinv s → on me o s → wlp (kill_single_proc me i signal) (λ _ s', sinv s' ∧ on me o s') s.
Proof. intros Hq I Ho. apply gentle_section; [by apply gentle_prockill|done..]. Qed.

Lemma kill_section me o sel signal s :
  quiet signal → sinv s → on me o s →
  wlp (_ ← acquire me; _ ← kill_scan sel signal 0 NPROC; release me) (λ _ s', sinv s' ∧ on me o s') s.
Proof.
  intros Hq I Ho. apply wlp_bind. eapply wlp_enter; [done..|]. intros s1 C _ _ _ _.
  apply wlp_bind. eapply wlp_mono; [by apply gentle_kill_scan|]. intros [] s2 [T2 F2].
  eapply wlp_leave; [by eapply crit_mild|]. by intros.
Qed.

Lemma kill_sinv me o n signal s :
  quiet signal → sinv s → on me o s → wlp (kill me n signal) (λ _ s', sinv s' ∧ on me o s') s.
Proof.
  intros Hq I Ho. unfold kill. destruct (negb _ && negb _).
  - apply wlp_bind. eapply wlp_mono; [by apply get_process_sinv|]. intros [i|] s1 [I1 Ho1].
    + by apply kill_single_sinv.
    + by apply wlp_ret.
  - destruct (negb _ && _).
    + destruct (n =? _); [done|]. apply wlp_bind. eapply wlp_mono; [by apply get_process_sinv|].
      intros [i|] s1 [I1 Ho1]; [|by apply wlp_ret]. apply wlp_bind.
      unfold kill_all_children. apply wlp_bind, wlp_the_proc. intros q Hqq.
      eapply wlp_mono; [by apply kill_section|]. intros [] s2 [I2 Ho2]. apply wlp_bind.
      eapply wlp_mono; [by apply kill_single_sinv|]. intros r s3 ?. by apply wlp_ret.
    + destruct (n =? -1); [|by apply wlp_ret]. apply wlp_bind.
      eapply wlp_mono; [by apply kill_section|]. intros [] s2 ?. by apply wlp_ret.
Qed.

Lemma gentle_sinv {A} (m : M (sys E) A) s me o :
  gentle m → sinv s → on me o s → wlp m (λ _ s', sinv s' ∧ on me o s') s.
Proof.
  intros Hm I Ho. eapply wlp_mono; [apply Hm|]. intros a s' [T F].
  split; [by eapply sinv_mild|]. unfold on. by destruct T as (_&_&_&_& ->).
Qed.

(** ** [fork] *)

Lemma allocproc_locked_sinv me o s :
  sinv s → on me o s →
  wlp (allocproc_locked me) (λ r s', sinv s' ∧ on me o s' ∧ kths s' = kths s ∧
    match r with
    | None => True
    | Some n => (∃ e, procs s' !! n = Some e ∧ state e = EMBRYO) ∧
        ∀ j h, kths s' !! j = Some h → k_new h ≠ Some n
    end) s.
Proof.
  intros I Ho. apply wlp_bind. eapply wlp_enter; [done..|]. intros s1 C Ep Ek _ _.
  apply wlp_bind, wlp_gets. destruct (find_state UNUSED (procs s1)) as [n|] eqn:Ef.
  2:{ apply wlp_bind. eapply wlp_leave; [done|]. intros. apply wlp_ret. split_and!; congruence || done. }
  apply wlp_bind, wlp_gets, wlp_bind. destruct (nextpid s1 =? INT_MAX); [done|].
  apply wlp_modify, wlp_bind, wlp_modify, wlp_bind. pose proof C as (T & R & L & Ho1).
  destruct (find_state_Some _ _ _ Ef) as (p & Hp & Hst).
  eapply (wlp_leave me o).
  - split_and!; [by apply embryo_tinv| |done..]. cbn [set_procs set_nextpid procs cpus].
    eapply rmap_running; [|done]. intros j. eapply running_alter; [done|by rewrite Hst|done].
  - intros s2 I2 Ho2 Ep2 Ek2 _ _. cbn [set_procs set_nextpid procs kths] in *.
    apply wlp_ret. split_and!; [done|done|congruence|..].
    + exists (embryo (nextpid s1) p). rewrite Ep2. split; [by apply alter_at|done].
    + rewrite Ek2. eapply tinv_no_owner; eauto. by rewrite Hst.
Qed.

(** Operations on the entry [n] and its thread alone; [P] relates the entry
    before and after, [K] the thread. *)
Definition touches (n : nat) (P : proc → proc → Prop) (K : kthread → kthread → Prop) s s' : Prop :=
  ∃ f g, procs s' = alter f n (procs s) ∧ kths s' = alter g n (kths s) ∧
    nextpid s' = nextpid s ∧ initproc s' = initproc s ∧ plock s' = plock s ∧ cpus s' = cpus s ∧
    (∀ p, pid (f p) = pid p ∧ P p (f p)) ∧ (∀ k, k_new (g k) = k_new k ∧ K k (g k)).

Definition kept (p q : proc) : Prop := state q = state p ∧ parent q = parent p.
Definition freed (p q : proc) : Prop := state q = UNUSED ∧ parent q = parent p.
Definition child (cur : nat) (p q : proc) : Prop := state q = state p ∧ parent q = Some cur.
Definition anyk (_ _ : kthread) : Prop := True.

Lemma alter_id {A} i (l : list A) : alter id i l = l.
Proof.
  apply list_eq. intros j. destruct (decide (i = j)) as [->|].
  - rewrite list_lookup_alter_eq. by destruct (l !! j).
  - by rewrite list_lookup_alter_ne.
Qed.

Lemma touches_env n e s : touches n kept eq s (set_env e s).
Proof. exists id, id. rewrite !alter_id. by split_and!. Qed.

Lemma touches_trans n (P Q R : proc → proc → Prop) (K K' K'' : kthread → kthread → Prop) s1 s2 s3 :
  touches n P K s1 s2 → touches n Q K' s2 s3 →
  (∀ p q r, P p q → Q q r → R p r) → (∀ p q r, K p q → K' q r → K'' p r) →
  touches n R K'' s1 s3.
Proof.
  intros (f & g & ?&?&?&?&?&?& Hf & Hg) (f' & g' & ?&?&?&?&?&?& Hf' & Hg') HR HK.
  exists (f' ∘ f), (g' ∘ g). split_and!; try congruence.
  - rewrite <- list_alter_alter_eq. congruence.
  - rewrite <- list_alter_alter_eq. congruence.
  - intros p. cbn. destruct (Hf p), (Hf' (f p)). split; [congruence|eauto].
  - intros k. cbn. destruct (Hg k), (Hg' (g k)). split; [congruence|eauto].
Qed.

Lemma touches_upd n f (P : proc → proc → Prop) s :
  (∀ p, pid (f p) = pid p ∧ P p (f p)) → touches n P eq s (set_procs (alter f n (procs s)) s).
Proof. intros Hf. exists f, id. rewrite alter_id. by split_and!. Qed.

Lemma kept_l (P : proc → proc → Prop) : P = kept ∨ P = freed ∨ (∃ c, P = child c) →
  ∀ p q r, kept p q → P q r → P p r.
Proof.
  intros H p q r [E1 E2]. destruct H as [->|[->|[c ->]]]; unfold kept, freed, child;
    rewrite ?E1, ?E2; done.
Qed.

Lemma eq_l (K : kthread → kthread → Prop) p q r : p = q → K q r → K p r.
Proof. by intros ->. Qed.

Lemma touches_kept_trans n s1 s2 s3 :
  touches n kept eq s1 s2 → touches n kept eq s2 s3 → touches n kept eq s1 s3.
Proof. intros H1 H2. eapply touches_trans; [exact H1|exact H2|by apply kept_l; left|congruence]. Qed.

(** Sequencing an operation that keeps the entry with one that reaches [P]. *)
Lemma touches_seq {A B} n (P : B → proc → proc → Prop) (K : B → kthread → kthread → Prop)
    (m : M (sys E) A) (k : A → M (sys E) B) s :
  (∀ b, P b = kept ∨ P b = freed ∨ (∃ c, P b = child c)) →
  wlp m (λ _ s', touches n kept eq s s') s →
  (∀ a s', wlp (k a) (λ b s'', touches n (P b) (K b) s' s'') s') →
  wlp (m ≫= k) (λ b s', touches n (P b) (K b) s s') s.
Proof.
  intros HP Hm Hk. apply wlp_bind. eapply wlp_mono; [done|]. intros a s1 H1.
  eapply wlp_mono; [apply Hk|]. intros b s2 H2.
  eapply touches_trans; [exact H1|exact H2|by apply kept_l|]. intros ? ? ?. apply eq_l.
Qed.

Lemma touches_io {A} n (m : M E A) s : wlp (io m) (λ _ s', touches n kept eq s s') s.
Proof. apply wlp_io. intros. apply touches_env. Qed.

Lemma touches_refl n s : touches n kept eq s s.
Proof. exists id, id. rewrite !alter_id. by split_and!. Qed.

Lemma touches_the_proc n i s : wlp (the_proc i) (λ _ s', touches n kept eq s s') s.
Proof. apply wlp_the_proc. intros. apply touches_refl. Qed.

Lemma touches_upd_kept n f s :
  (∀ p, pid (f p) = pid p ∧ kept p (f p)) → wlp (upd n f) (λ _ s', touches n kept eq s s') s.
Proof. intros Hf. apply wlp_modify. by apply touches_upd. Qed.

Lemma touches_env_only {A} n (m : M (sys E) A) s :
  env_only m → wlp m (λ _ s', touches n kept eq s s') s.
Proof. intros Hm. apply wlp_env; [done|]. intros. apply touches_env. Qed.

Lemma allocproc_rest_touches n s :
  wlp (allocproc_rest n) (λ (b : bool) s', touches n (if b then kept else freed)
    (if b then (λ _ k, k_at k = KForkret) else anyk) s s') s.
Proof.
  apply touches_seq; [intros []; auto|apply touches_io|]. intros ks s1.
  apply touches_seq; [intros []; auto|by apply touches_upd_kept|]. intros _ s2.
  destruct (ks =? 0).
  { apply wlp_bind, wlp_modify, wlp_ret. exists (set_state UNUSED), id. rewrite alter_id. by split_and!. }
  apply touches_seq; [intros []; auto|apply touches_io|]. intros fpu s3.
  apply touches_seq; [intros []; auto|by apply touches_upd_kept|]. intros _ s4.
  apply wlp_bind, wlp_modify, wlp_ret. eexists id, _. rewrite alter_id. by split_and!.
Qed.

Lemma env_only_map_all pg l : env_only (map_all pg l).
Proof.
  induction l as [|m l IH]; cbn [map_all]; [by intros s|]. destruct (length_ m =? 0); [apply env_only_ret|].
  apply env_only_bind; [apply env_only_io|]. intros r. destruct (r <? 0); [by intros s|done].
Qed.

Lemma dup_files_touches n i l s : wlp (dup_files n i l) (λ _ s', touches n kept eq s s') s.
Proof.
  revert i s. induction l as [|f l IH]; intros i s; cbn [dup_files]; [apply touches_refl|].
  apply (touches_seq n (λ _, kept) (λ _, eq)); [by left| |by intros _; apply IH].
  destruct (f =? 0); [apply touches_refl|].
  apply (touches_seq n (λ _, kept) (λ _, eq)); [by left|apply touches_io|]. intros r s1.
  destruct (0 <? r); [|apply touches_refl].
  apply (touches_seq n (λ _, kept) (λ _, eq)); [by left|apply touches_io|]. intros fl s2.
  destruct (fl =? O_CLOFORK);
    (apply (touches_seq n (λ _, kept) (λ _, eq)); [by left|apply touches_io|]); intros.
  - apply touches_refl.
  - by apply touches_upd_kept.
Qed.

Lemma fork_copy_touches cur n s :
  wlp (fork_copy cur n) (λ (b : bool) s', touches n (if b then child cur else freed) eq s s') s.
Proof.
  assert (∀ b : bool, (if b then child cur else freed) = kept ∨ (if b then child cur else freed) = freed ∨
    (∃ c, (if b then child cur else freed) = child c)) as HP by (intros []; eauto).
  apply touches_seq; [done|apply touches_the_proc|]. intros c s1.
  apply touches_seq; [done|apply touches_io|]. intros pg s2. destruct (pg =? 0).
  - apply touches_seq; [done|apply touches_the_proc|]. intros p s3.
    apply touches_seq; [done|by apply touches_upd_kept|]. intros _ s4.
    apply touches_seq; [done|apply touches_io|]. intros _ s5.
    apply wlp_bind, wlp_modify, wlp_ret. by apply touches_upd.
  - apply wlp_bind, wlp_modify.
    eapply (wlp_mono _ (λ (b : bool) s', b = true ∧
      touches n kept eq (set_procs (alter (inherit_mem cur pg c) n (procs s2)) s2) s')).
    + apply wlp_bind. eapply wlp_mono; [by apply touches_env_only, env_only_map_all|]. intros u4 s4 H4.
      apply wlp_bind. eapply wlp_mono; [by apply dup_files_touches|]. intros u5 s5 H5.
      apply wlp_bind, wlp_io. intros d e. apply wlp_bind, wlp_modify, wlp_ret. split; [done|].
      eapply touches_kept_trans; [exact H4|]. eapply touches_kept_trans; [exact H5|].
      eapply touches_kept_trans; [apply touches_env|by apply touches_upd].
    + intros b s6 [-> H6]. eapply touches_trans; [|exact H6| |].
      * apply (touches_upd n _ (child cur)). done.
      * intros p q r [E1 E2] [E3 E4]. split; congruence.
      * intros; congruence.
Qed.

Definition forked (i : nat) s : sys E := set_kths (alter (set_new None) i (kths s)) s.

Lemma fork_done_sinv i k n f g s s' :
  sinv s → running (procs s) i → kths s !! i = Some k → k_new k = Some n →
  procs s' = alter f n (procs s) → kths s' = alter g n (kths s) →
  nextpid s' = nextpid s → initproc s' = initproc s →
  lkst None (plock s') (cpus s') → rmap (procs s) (cpus s') →
  (∀ h, k_new (g h) = k_new h) →
  (∀ e, state e = EMBRYO →
    (state (f e) = UNUSED ∧ parent (f e) = parent e) ∨
    (state (f e) = RUNNABLE ∧ pid (f e) = pid e ∧ parent (f e) = Some i ∧ ∀ h, k_at (g h) = KForkret)) →
  sinv (forked i s').
Proof.
  intros (T & _ & _) (p & Hp & Hrun) Hk Hn Ep Ek En Ei L R Hg Hcase.
  destruct (t_new _ _ _ _ T i k n Hk Hn) as (_ & (e & He & Hst) & _).
  split_and!; [|cbn [forked set_kths procs cpus]; rewrite Ep|done].
  - cbn [forked set_kths procs kths nextpid initproc]. rewrite Ep, Ek, En, Ei.
    eapply fork_done_tinv; eauto. by rewrite Hrun.
  - eapply rmap_running; [|done]. intros j. eapply running_alter; [done|by rewrite Hst|].
    destruct (Hcase e Hst) as [(-> & _)|(-> & _)]; done.
Qed.

Lemma fork_rest_sinv me i k n s :
  sinv s → on me (Some i) s → kths s !! i = Some k → k_new k = Some n →
  wlp (fork_rest me (Some n)) (λ _ s', sinv (forked i s') ∧ on me (Some i) s') s.
Proof.
  intros I Ho Hk Hn. pose proof (on_running _ _ _ I Ho) as Hrun. pose proof I as (T & R & L).
  pose proof Ho as (cc & Hc & Hp & Hs).
  apply wlp_bind, wlp_myproc. intros c j Hc' Hj. simplify_eq. apply wlp_bind.
  eapply wlp_mono; [apply allocproc_rest_touches|].
  intros [] s1 (f1 & g1 & Ep1 & Ek1 & En1 & Ei1 & El1 & Ec1 & Hf1 & Hg1); cbn [negb].
  2:{ apply wlp_ret. split; [|unfold on; rewrite Ec1; eauto].
    eapply (fork_done_sinv i k n f1 g1); eauto; rewrite ?El1, ?Ec1; try done.
    - intros h. by destruct (Hg1 h).
    - intros e He. left. by destruct (Hf1 e). }
  apply wlp_bind. eapply wlp_mono; [apply fork_copy_touches|].
  intros b s2 (f2 & g2 & Ep2 & Ek2 & En2 & Ei2 & El2 & Ec2 & Hf2 & Hg2).
  rewrite Ep1, list_alter_alter_eq in Ep2. rewrite Ek1, list_alter_alter_eq in Ek2.
  assert (∀ h, k_new ((g2 ∘ g1) h) = k_new h) as Hg.
  { intros h. cbn. destruct (Hg2 (g1 h)) as [-> _]. by destruct (Hg1 h). }
  assert (cpus s2 = cpus s) as Ec by congruence. assert (plock s2 = plock s) as El by congruence.
  destruct b; cbn [negb].
  2:{ apply wlp_ret. split; [|unfold on; rewrite Ec; eauto].
    apply (fork_done_sinv i k n (f2 ∘ f1) (g2 ∘ g1) s s2 I Hrun Hk Hn);
      [done|done|congruence|congruence|by rewrite El, Ec|by rewrite Ec|done|].
    intros e He. left. cbn. destruct (Hf2 (f1 e)) as (_ & -> & ->), (Hf1 e) as (_ & _ & ->). done. }
  apply wlp_bind, wlp_the_proc. intros np Hnp. apply wlp_bind. unfold publish. apply wlp_bind.
  rewrite <- Ec in Hc. eapply wlp_acquire; [by rewrite El, Ec|exact Hc|done|]. intros v Lv Hv.
  apply wlp_bind, wlp_modify. eapply wlp_release; [done|by apply alter_at|].
  intros w Lw Hw. apply wlp_ret.
  cbn [set_plock set_procs set_cpus cpus procs plock kths nextpid initproc] in *. split.
  - apply (fork_done_sinv i k n (set_state RUNNABLE ∘ (f2 ∘ f1)) (g2 ∘ g1) s _ I Hrun Hk Hn);
      cbn [set_plock set_procs set_cpus cpus procs plock kths nextpid initproc];
      [|done|congruence|congruence|done| |done|].
    + by rewrite Ep2, list_alter_alter_eq.
    + do 2 apply rmap_int. by rewrite Ec.
    + intros e He. right. cbn. destruct (Hf2 (f1 e)) as (-> & _ & ->), (Hf1 e) as (-> & _).
      split_and!; try done. intros h. destruct (Hg2 (g1 h)) as [_ <-]. by destruct (Hg1 h).
  - eapply on_int. exists (set_int v cc). cbn [set_plock set_procs set_cpus cpus].
    split_and!; [by apply alter_at|done..].
Qed.

(** ** The scheduler *)

Lemma on_cpus_frame me o s s' : cpus s' = cpus s → on me o s → on me o s'.
Proof. unfold on. by intros ->. Qed.

Lemma crit_intena me o b s : crit me o s → crit me o (set_cpus (alter (set_intena b) me (cpus s)) s).
Proof.
  intros (T & R & L & (cc & Hc & Hp & Hs)).
  assert (alter (set_intena b) me (cpus s) = alter (set_int (Spin.mkcpu (Spin.FL_IF (c_int cc))
    (Spin.ncli (c_int cc)) b)) me (cpus s)) as ->.
  { apply list_alter_ext; [|done]. intros x Hx. by simplify_eq. }
  split_and!; [done|by apply rmap_int| |by apply on_int; exists cc].
  destruct L as [L1 Li L2 L3]. cbn [set_cpus plock cpus]. destruct (L1 _ _ Hc) as [Hn HF].
  split.
  - intros c x Hx. altered; cbn; eauto.
  - intros c x Hx Hxp Hxs. altered; cbn in *; eauto.
  - intros c x j Hx Hj. altered; cbn in *; [congruence|eauto].
  - destruct L3 as (-> & x & Hx & Hxs & Hx1). simplify_eq. split; [done|].
    eexists. split; [by apply alter_at|]. split; [done|]. cbn. lia.
Qed.

(** After [me] switched to [i], whose thread was at [k]: [i] runs on [me], or
    it looked once more for an exited child and sleeps again. *)
Definition switched (me i : nat) (k : kthread) s : Prop :=
  on me (Some i) s ∨ ∃ want, k_at k = KWait want ∧ asleep i s.

Lemma resume_sinv me i k s :
  crit me (Some i) s → ¬ stuck (k_at k) →
  wlp (resume me i k) (λ _ s', sinv s' ∧ switched me i k s') s.
Proof.
  intros C Hk. unfold resume, switched.
  assert (∀ s', crit me (Some i) s' →
    crit me (Some i) (set_procs (alter (set_chan CNull) i (procs s')) s')) as Hchan.
  { intros s' C'. destruct (crit_running _ _ _ C') as (p & Hp & Hrun).
    eapply crit_mild; [exact C'|by split_and!|]. cbn [set_procs procs]. apply mild_alter.
    intros q Hq. simplify_eq. split_and!; try done. left. split; [done|]. congruence. }
  destruct (k_at k) as [| |[]| |] eqn:Ek; try (by destruct Hk; unfold stuck; auto).
  - apply wlp_bind. eapply wlp_leave; [done|]. intros s1 I1 Ho1 _ _ _ _.
    apply wlp_bind, wlp_gets. destruct (negb (first s1)); [apply wlp_ret; auto|].
    apply wlp_bind, wlp_modify, wlp_io. intros [] e. split; [done|by left].
  - apply wlp_bind, wlp_modify. eapply wlp_leave; [by apply crit_intena|]. auto.
  - apply wlp_bind, wlp_modify, wlp_bind, wlp_modify.
    pose proof (Hchan _ (crit_intena _ _ (k_intena k) _ C)) as C1.
    apply wlp_bind. eapply wlp_leave; [exact C1|]. intros s1 I1 Ho1 _ _ _ _.
    eapply wlp_mono; [by eapply acquire_other_sinv|]. intros [] s2 [? ?]; auto.
  - apply wlp_bind, wlp_modify, wlp_bind, wlp_modify, wlp_bind.
    pose proof (Hchan _ (crit_intena _ _ (k_intena k) _ C)) as C1.
    eapply wlp_mono; [by apply (wait_turn_sinv me i)|]. intros r s2 [I2 H2]. apply wlp_ret.
    split; [done|]. destruct r; [by left|right; eauto].
Qed.

(** The scheduler's loop hands the lock to what follows it. *)
Lemma lkst_scan_end lk (cs : list cpu) me cc j f :
  lkst None lk cs → cs !! me = Some cc → c_scan cc = Some j →
  (∀ c, c_int (f c) = c_int c ∧ c_scan (f c) = None) →
  lkst (Some me) lk (alter f me cs).
Proof.
  intros L Hc Hj Hf. destruct (l_scan _ _ _ L _ _ _ Hc Hj) as (Hlk & Hp & Hn & _).
  destruct (Hf cc) as [Hi Hs]. split.
  - intros c x Hx. altered; [rewrite Hi|]; by eapply (l_cli _ _ _ L).
  - intros c x Hx Hxp Hxs. altered.
    + rewrite decide_True by done. by rewrite Hi.
    + rewrite decide_False by congruence. by eapply (l_idle _ _ _ L).
  - intros c x k Hx Hk. altered.
    destruct (l_scan _ _ _ L c x k) as (E' & _); [done..|]. congruence.
  - split; [done|]. exists (f cc). split_and!; [by apply alter_at|done|]. rewrite Hi. lia.
Qed.

Lemma rmap_same ps cs me f :
  (∀ c, c_proc (f c) = c_proc c) → rmap ps cs → rmap ps (alter f me cs).
Proof.
  intros Hf [H1 H2]. split.
  - intros i. rewrite H1. split; intros (c & cc & Hc & Hi).
    + destruct (decide (me = c)) as [->|].
      * exists c, (f cc). rewrite Hf. split; [by apply alter_at|done].
      * exists c, cc. split; [by apply alter_other|done].
    + altered; [rewrite Hf in Hi|]; eauto.
  - intros c d cc cd i Hc Hd. altered; rewrite ?Hf; eauto.
Qed.

Lemma sti_sinv me s : sinv s → on me None s → wlp (sti me) (λ _ s', sinv s' ∧ on me None s') s.
Proof.
  intros (T & R & L) (cc & Hc & Hp & Hs). apply wlp_modify.
  pose proof (l_idle _ _ _ L _ _ Hc Hp Hs) as Hn. rewrite decide_False in Hn by done.
  split; [|eexists; split; [by apply alter_at|done]].
  split_and!; [done|by apply rmap_same|]. cbn [set_cpus plock cpus]. split.
  - intros c x Hx. altered; cbn; [split; lia|by eapply (l_cli _ _ _ L)].
  - intros c x Hx Hxp Hxs. altered; cbn in *; [done|by eapply (l_idle _ _ _ L)].
  - intros c x k Hx Hk. altered; cbn in *; [congruence|by eapply (l_scan _ _ _ L)].
  - destruct (l_who _ _ _ L) as [?|(c & x & j & ? & Hx & ?)]; [by left|right].
    exists c, x, j. split_and!; try done. apply alter_other; [|done]. congruence.
Qed.

Lemma scheduler_start_sinv me s : sinv s → on me None s → wlp (scheduler_start me) (λ _, sinv) s.
Proof.
  intros I Ho. apply wlp_bind. eapply wlp_mono; [by apply sti_sinv|]. intros [] s1 [(T & R & L) Ho1].
  destruct Ho1 as (cc & Hc & Hp & Hs). apply wlp_bind. eapply wlp_acquire; [done..|].
  intros v Lv Hv. pose proof (l_idle _ _ _ L _ _ Hc Hp Hs) as Hn. rewrite decide_False in Hn by done.
  apply wlp_modify. split_and!; [done|apply rmap_same; [done|by apply rmap_int]|].
  cbn [set_plock set_cpus plock cpus]. split.
  - intros c x Hx. altered; cbn; [|by eapply (l_cli _ _ _ L)].
    apply (l_cli _ _ _ Lv c (set_int v cc)). by apply alter_at.
  - intros c x Hx Hxp Hxs. rewrite decide_False by done.
    altered. rewrite (l_idle _ _ _ L c x) by done. by rewrite decide_False.
  - intros c x k Hx Hk. altered; cbn in *; simplify_eq.
    + split_and!; try done; unfold NPROC; lia.
    + destruct (l_scan _ _ _ Lv c x k) as (E' & _); [by apply alter_other|done|]. congruence.
  - right. eexists me, _, _. split_and!; [done|by apply alter_at, alter_at|done].
Qed.

(** The scheduler of [me] stands at slot [i] and finds it runnable. *)
Definition stands (me i : nat) s : Prop :=
  ∃ cc p, cpus s !! me = Some cc ∧ c_scan cc = Some i ∧ procs s !! i = Some p ∧ state p = RUNNABLE.

Lemma scheduler_turn_sinv me s :
  sinv s → wlp (scheduler_turn me) (λ _ s', sinv s' ∧
    ∀ i k, stands me i s → kths s !! i = Some k → switched me i k s') s.
Proof.
  intros I. pose proof I as (T & R & L).
  apply wlp_bind, wlp_the_cpu. intros cc Hc. apply wlp_bind, wlp_from_option. intros i Hi.
  destruct (l_scan _ _ _ L _ _ _ Hc Hi) as (Hlk & Hp & Hn & Hle).
  assert (∀ i' k, stands me i' s → kths s !! i' = Some k →
    i' = i ∧ i < NPROC ∧ ∀ p, procs s !! i = Some p → state p = RUNNABLE)%nat as Hat.
  { intros i' k (c1 & p & Hc1 & Hs1 & Hp1 & Hr1) _. simplify_eq. pose proof (lookup_lt_Some _ _ _ Hp1) as Hl.
    rewrite (t_len _ _ _ _ T) in Hl. split_and!; [done|done|]. intros q Hq. by simplify_eq. }
  case_decide as Hend.
  - apply wlp_bind, wlp_modify, wlp_bind. apply (wlp_leave me None).
    + split_and!; [done|by apply rmap_same|by eapply lkst_scan_end|].
      exists (set_scan None cc). split_and!; [by apply alter_at|exact Hp|done].
    + intros s1 I1 Ho1 _ _ _ _. eapply wlp_mono; [by apply sti_sinv|].
      intros [] s2 [? _]. split; [done|]. intros i' k H1 H2. destruct (Hat i' k H1 H2) as (_ & ? & _). lia.
  - apply wlp_bind, wlp_the_proc. intros p Hpp. case_decide as Hrun.
    + apply wlp_modify. split; [|intros i' k H1 H2; destruct Hrun; by apply (Hat i' k H1 H2)].
      split_and!; [done|by apply rmap_same|]. cbn [set_cpus plock cpus]. split.
      * intros c x Hx. altered; cbn [set_scan c_int]; by eapply (l_cli _ _ _ L).
      * intros c x Hx Hxp Hxs. altered. by eapply (l_idle _ _ _ L).
      * intros c x k Hx Hk. altered; cbn in *; simplify_eq; [|by eapply (l_scan _ _ _ L)].
        split_and!; try done. lia.
      * right. eexists me, _, _. split_and!; [done|by apply alter_at|done].
    + assert (is_Some (kths s !! i)) as [k Hk].
      { apply lookup_lt_is_Some. rewrite (t_klen _ _ _ _ T). lia. }
      assert (¬ stuck (k_at k)) as Hst.
      { intros Hx. apply (t_exit _ _ _ _ T i p k Hpp Hk Hx). by rewrite Hrun. }
      apply wlp_bind, wlp_modify, wlp_bind, wlp_io. intros [] e.
      apply wlp_bind, wlp_modify, wlp_bind, wlp_the_kth. intros k' Hk'. 
      cbn [set_procs set_env set_cpus kths] in Hk'. simplify_eq.
      eapply wlp_mono; [apply resume_sinv; [|done]|intros [] s2 [I2 H2]; split; [done|]; intros i' k' H3 H4;
        destruct (Hat i' k' H3 H4) as (-> & _); by simplify_eq].
      split_and!; cbn [set_procs set_env set_cpus procs kths nextpid initproc cpus plock].
      * rewrite <- (alter_id i (kths s)). eapply live_tinv; try done; by rewrite Hrun.
      * eapply rmap_dispatch; [exact R|exact Hc|done|done| |].
        -- intros (q & Hq & Hs). congruence.
        -- intros j. by eapply running_start.
      * by eapply lkst_scan_end.
      * eexists. split_and!; [by apply alter_at|done..].
Qed.

Lemma gentle_growproc me n s o :
  sinv s → on me o s → wlp (growproc me n) (λ _ s', sinv s' ∧ on me o s') s.
Proof.
  intros I Ho. apply wlp_bind, wlp_myproc. intros cc i Hc Hp.
  apply gentle_sinv; [|done..]. apply gentle_bind; [auto with relix|intros p].
  apply gentle_bind; [repeat case_match; auto with relix|intros sz1].
  repeat case_match; auto with relix. apply gentle_bind; [|intros; apply gentle_bind; auto with relix].
  apply gentle_upd. intros. split_and!; auto.
Qed.

Lemma gentle_attach me n h s o :
  sinv s → on me o s → wlp (kernel_attach_signal me n h) (λ _ s', sinv s' ∧ on me o s') s.
Proof.
  intros I Ho. unfold kernel_attach_signal. case_decide; [by apply wlp_ret|].
  destruct (_ || _); [by apply wlp_ret|]. apply wlp_bind, wlp_myproc. intros cc i Hc Hp.
  apply gentle_sinv; [|done..]. apply gentle_bind; [auto with relix|intros p].
  apply gentle_bind; [auto with relix|intros old]. apply gentle_bind; [|auto with relix].
  apply gentle_upd. intros. split_and!; auto.
Qed.

(** ** Boot: [userinit] on a zeroed table *)

Definition zero_tf : trapframe := mktf 0 0 0 0 0 0 0 (replicate 15 0).
Definition zero_proc : proc :=
  mkproc 0 0 0 UNUSED 0 0 0 0 0 None zero_tf (mkctx (replicate 6 0) CodeNull CodeNull) CNull 0
    (replicate OPEN_MAX 0) 0 (mkcred 0 0 0 0 (replicate NGROUPS_MAX 0)) (replicate 16 0)
    (replicate (SYSCALL_AMT + 1) 0) (replicate NMMAP (mkmmap 0 0 0 0 0)) 0 0 0
    (replicate NSIG 0) 0 0 (replicate 512 0).
Definition idle_cpu : cpu := mkcpu (Spin.mkcpu false 0 false) None None.
Definition zero_kth : kthread := mkkth KForkret false None.

Definition zero_sys (ncpu : nat) (e : E) : sys E :=
  mksys (replicate NPROC zero_proc) 1 None Spin.initlock (replicate ncpu idle_cpu)
    (replicate NPROC zero_kth) true e.

Lemma zero_tinv f g :
  state (f zero_proc) = RUNNABLE → pid (f zero_proc) = 1 → parent (f zero_proc) = None →
  k_new (g zero_kth) = None → k_at (g zero_kth) = KForkret →
  tinv (alter f 0%nat (replicate NPROC zero_proc)) (alter g 0%nat (replicate NPROC zero_kth)) 2 (Some 0%nat).
Proof.
  intros Hs Hp Hpar Hn Hk.
  assert (∀ i p, alter f 0%nat (replicate NPROC zero_proc) !! i = Some p →
    (i = 0%nat ∧ p = f zero_proc) ∨ p = zero_proc) as Hps.
  { intros i p H. altered; [left|right]; rewrite lookup_replicate in *; naive_solver. }
  assert (∀ i k, alter g 0%nat (replicate NPROC zero_kth) !! i = Some k →
    k_new k = None ∧ k_at k = KForkret) as Hks.
  { intros i k H. altered; rewrite lookup_replicate in *; naive_solver. }
  split.
  - by rewrite length_alter, length_replicate.
  - by rewrite length_alter, length_replicate.
  - intros i p [[_ ->]| ->]%Hps Hu; [lia|by destruct Hu].
  - intros i j p q [[-> ->]| ->]%Hps [[-> ->]| ->]%Hps Hu Hv;
      [done|by destruct Hv|by destruct Hu|by destruct Hu].
  - intros i p q [[_ ->]| ->]%Hps Hq; [congruence|done].
  - exists 0%nat, (f zero_proc). split_and!; try done. by rewrite Hs.
  - intros i p [[-> ->]| ->]%Hps H; [by left|]. by destruct H as [?|[]].
  - intros i p k _ [_ Hx]%Hks [?|?]; congruence.
  - intros i p k [[_ ->]| ->]%Hps _ H; [congruence|done].
  - intros i p k w [[_ ->]| ->]%Hps _ H; [congruence|done].
  - intros i k n [Hx _]%Hks H. congruence.
Qed.

Lemma zero_rmap ncpu e : rmap (procs (zero_sys ncpu e)) (cpus (zero_sys ncpu e)).
Proof.
  assert (∀ c cc, cpus (zero_sys ncpu e) !! c = Some cc → cc = idle_cpu) as Hc.
  { intros c cc H. cbn in H. rewrite lookup_replicate in H. naive_solver. }
  split.
  - intros i. split.
    + intros (p & Hp & Hs). cbn [zero_sys procs] in Hp. rewrite lookup_replicate in Hp. naive_solver.
    + by intros (c & cc & ->%Hc & ?).
  - by intros c d cc cd i ->%Hc _ ?.
Qed.

Lemma zero_lkst ncpu e : lkst None (plock (zero_sys ncpu e)) (cpus (zero_sys ncpu e)).
Proof.
  assert (∀ c cc, cpus (zero_sys ncpu e) !! c = Some cc → cc = idle_cpu) as Hc.
  { intros c cc H. cbn in H. rewrite lookup_replicate in H. naive_solver. }
  split.
  - intros c cc ->%Hc. cbn. split; lia.
  - by intros c cc ->%Hc _ _.
  - by intros c cc j ->%Hc ?.
  - by left.
Qed.

Lemma userinit_sinv me ncpu e : wlp (userinit me) (λ _, sinv) (zero_sys ncpu e).
Proof.
  destruct (decide (me < ncpu)%nat) as [Hme|Hme].
  2:{ apply wlp_bind. unfold allocproc, allocproc_locked, acquire. apply wlp_bind, wlp_bind, wlp_bind, wlp_gets, wlp_bind.
      apply wlp_bind, wlp_the_cpu. intros cc Hc. cbn in Hc. apply lookup_lt_Some in Hc.
      rewrite length_replicate in Hc. lia. }
  assert (cpus (zero_sys ncpu e) !! me = Some idle_cpu) as Hc.
  { cbn. by apply lookup_replicate_2. }
  apply wlp_bind. unfold allocproc. apply wlp_bind. unfold allocproc_locked. apply wlp_bind.
  eapply wlp_acquire; [apply zero_lkst|done|done|]. intros v Lv Hv.
  apply wlp_bind, wlp_gets. cbn [set_plock set_cpus procs zero_sys find_state replicate NPROC].
  rewrite decide_True by done. apply wlp_bind, wlp_gets. cbn [set_plock set_cpus nextpid zero_sys].
  apply wlp_bind. change (1 =? INT_MAX) with false. cbn [fst]. apply wlp_modify, wlp_bind, wlp_modify, wlp_bind.
  eapply wlp_release; [done|by apply alter_at|]. intros w Lw Hw. apply wlp_ret. apply wlp_bind.
  eapply wlp_mono; [apply allocproc_rest_touches|]. intros b s1 (f1 & g1 & Ep & Ek & En & Ei & El & Ec & Hf & Hg).
  apply wlp_ret. destruct b; [|done]. apply wlp_bind, wlp_modify, wlp_bind, wlp_io. intros pg e1.
  apply wlp_bind, wlp_modify. destruct (pg =? 0); [done|]. apply wlp_bind, wlp_io. intros _ e2.
  apply wlp_bind, wlp_modify, wlp_bind, wlp_io. intros d e3. apply wlp_bind, wlp_modify, wlp_bind.
  cbn [set_plock set_cpus set_procs set_nextpid cpus plock procs kths nextpid initproc zero_sys] in *.
  eapply wlp_acquire.
  - cbn [set_procs set_env set_initproc plock cpus]. rewrite El, Ec. exact Lw.
  - cbn [set_procs set_env set_initproc cpus]. rewrite Ec. by apply alter_at, alter_at.
  - done.
  - intros v2 Lv2 Hv2. apply wlp_bind, wlp_modify. eapply wlp_release; [done| |].
    { apply alter_at. cbn [set_procs set_env set_initproc cpus]. rewrite Ec. by apply alter_at, alter_at. }
    intros w2 Lw2 Hw2. cbn [set_plock set_cpus set_procs set_nextpid set_env set_initproc cpus plock procs kths nextpid initproc] in *.
    split_and!; cbn [set_plock set_cpus set_procs set_nextpid set_env set_initproc cpus plock procs kths nextpid initproc]; [| |done].
    + rewrite Ep, Ek, En, !list_alter_alter_eq. apply zero_tinv; try done.
      * cbn. by destruct (Hf (embryo 1 zero_proc)) as [-> _].
      * cbn. by destruct (Hf (embryo 1 zero_proc)) as (_ & _ & ->).
      * by destruct (Hg zero_kth) as [-> _].
      * by destruct (Hg zero_kth) as [_ ->].
    + rewrite Ec. do 4 apply rmap_int. rewrite Ep, !list_alter_alter_eq.
      eapply rmap_running; [|apply (zero_rmap ncpu e)]. intros j.
      eapply (running_alter _ 0%nat _ zero_proc); [done..|]. done.
Qed.
End ops.
End ProcInv.
