(* ===== verification/ProcSys.v ===== *)
(** * Processes: the reachable states and their theorems (kernel/proc.c)

    [step] interleaves the operations of proc.c on any number of CPUs; the
    theorems are about every state reachable from [userinit], and about single
    operations on every branch. *)

From S2P Require Import Prelude Lock Proc ProcInv.

Module ProcSys.
Import Proc ProcInv.

Section sys.
Context {E : Type} `{!ProcEnv E}.
Implicit Types s : sys E.

(** The operations a CPU executes, where processes send only signals that
    satisfy [sent]: with [quiet], none that stops or continues a process.

    [fork] is two steps: its first critical section, after which the entry it
    got is its own, and the rest, in which the source takes [ptable.lock] once
    more and may sleep in the file system, is one.  [exit] is two: what it does
    before the critical section, which is one step although closing a file may
    sleep, and the critical section, which any process but init may enter.
    The rest of the kernel changes files and memory at any time. *)
Inductive step (sent : Z → Prop) : sys E → sys E → Prop :=
| step_yield me i s s' : on me (Some i) s → yield me s = Ok (tt, s') → step sent s s'
| step_sleep me i cc ch s s' : on me (Some i) s → cpus s !! me = Some cc →
    1 ≤ Spin.ncli (c_int cc) → sleep me ch true s = Ok (tt, s') → step sent s s'
| step_wakeup me o ch s s' : on me o s → wakeup me ch s = Ok (tt, s') → step sent s s'
| step_waitpid me i want r s s' : on me (Some i) s → waitpid me want s = Ok (r, s') → step sent s s'
| step_exit_files me i st s s' : on me (Some i) s → exit_files me st s = Ok (tt, s') → step sent s s'
| step_exit_locked me i k s s' : on me (Some i) s → initproc s ≠ Some i →
    kths s !! i = Some k → k_new k = None → exit_locked me s = Ok (tt, s') → step sent s s'
| step_fork me i k n s s' : on me (Some i) s → kths s !! i = Some k → k_new k = None →
    allocproc_locked me s = Ok (Some n, s') →
    step sent s (set_kths (alter (set_new (Some n)) i (kths s')) s')
| step_fork_fail me i r s s' : on me (Some i) s → fork me s = Ok (r, s') →
    find_state UNUSED (procs s) = None → step sent s s'
| step_fork_rest me i k n r s s' : on me (Some i) s → kths s !! i = Some k → k_new k = Some n →
    fork_rest me (Some n) s = Ok (r, s') → step sent s (forked i s')
| step_kill me o n signal r s s' : on me o s → sent signal → kill me n signal s = Ok (r, s') →
    step sent s s'
| step_signal me i n h r s s' : on me (Some i) s → kernel_attach_signal me n h s = Ok (r, s') →
    step sent s s'
| step_growproc me i n r s s' : on me (Some i) s → growproc me n s = Ok (r, s') → step sent s s'
| step_lock me i s s' : on me (Some i) s → acquire_other me s = Ok (tt, s') → step sent s s'
| step_unlock me i s s' : on me (Some i) s → release_other me s = Ok (tt, s') → step sent s s'
| step_scheduler_start me s s' : on me None s → scheduler_start me s = Ok (tt, s') → step sent s s'
| step_scheduler_turn me s s' : scheduler_turn me s = Ok (tt, s') → step sent s s'
| step_environment e s : step sent s (set_env e s).

Definition reachable (sent : Z → Prop) s : Prop :=
  ∃ me ncpu e s0, userinit me (zero_sys ncpu e) = Ok (tt, s0) ∧ rtc (step sent) s0 s.

Lemma fork_none me i r s s' :
  sinv s → on me (Some i) s → find_state UNUSED (procs s) = None → fork me s = Ok (r, s') →
  sinv s' ∧ r = - ENOMEM.
Proof.
  intros I Ho Hf H. eapply (wlp_ok (fork me) (λ r s', sinv s' ∧ r = - ENOMEM)); [|exact H].
  apply wlp_bind. unfold allocproc_locked.
  apply wlp_bind. eapply wlp_enter; [done..|]. intros s1 C Ep _ _ _. apply wlp_bind, wlp_gets.
  rewrite Ep, Hf. apply wlp_bind. eapply wlp_leave; [done|]. intros s2 I2 Ho2 _ _ _ _. apply wlp_ret.
  apply wlp_bind, wlp_myproc. intros. by apply wlp_ret.
Qed.

Lemma step_sinv s s' : step quiet s s' → sinv s → sinv s'.
Proof.
  intros Hst I. destruct Hst as [me i s s' Ho H|me i cc ch s s' Ho Hc Hn H|me o ch s s' Ho H
    |me i w r s s' Ho H|me i st s s' Ho H|me i k s s' Ho Hip Hk Hn H|me i k n s s' Ho Hk Hn H
    |me i r s s' Ho H Hf|me i k n r s s' Ho Hk Hn H|me o n sg r s s' Ho Hq H|me i n h r s s' Ho H
    |me i n r s s' Ho H|me i s s' Ho H|me i s s' Ho H|me s s' Ho H|me s s' H|e s].
  - by eapply (wlp_ok _ _ _ _ _ (yield_sinv me i s I Ho)) in H.
  - by eapply (wlp_ok _ _ _ _ _ (sleep_sinv me i ch s cc I Ho Hc Hn)) in H.
  - by eapply (wlp_ok _ _ _ _ _ (wakeup_sinv me o ch s I Ho)) in H as [? _].
  - by eapply (wlp_ok _ _ _ _ _ (waitpid_sinv me i w s I Ho)) in H as [? _].
  - by eapply (wlp_ok _ _ _ _ _ (wlp_exit_files me i st s I Ho)) in H as [? _].
  - by eapply (wlp_ok _ _ _ _ _ (exit_locked_sinv me i k s I Ho Hip Hk Hn)) in H.
  - eapply (wlp_ok _ _ _ _ _ (allocproc_locked_sinv me (Some i) s I Ho)) in H
      as (I' & Ho' & Ek & (e & He & Hst) & Hown).
    destruct (on_running _ _ _ I' Ho') as (p & Hp & Hrun). destruct I' as (T & R & L).
    split_and!; [|done..]. eapply set_new_tinv; eauto. by rewrite Hrun.
  - by eapply fork_none in H as [? _].
  - by eapply (wlp_ok _ _ _ _ _ (fork_rest_sinv me i k n s I Ho Hk Hn)) in H as [? _].
  - by eapply (wlp_ok _ _ _ _ _ (kill_sinv me o n sg s Hq I Ho)) in H as [? _].
  - by eapply (wlp_ok _ _ _ _ _ (gentle_attach me n h s _ I Ho)) in H as [? _].
  - by eapply (wlp_ok _ _ _ _ _ (gentle_growproc me n s _ I Ho)) in H as [? _].
  - by eapply (wlp_ok _ _ _ _ _ (acquire_other_sinv me i s I Ho)) in H as [? _].
  - by eapply (wlp_ok _ _ _ _ _ (release_other_sinv me i s I Ho)) in H as [? _].
  - by eapply (wlp_ok _ _ _ _ _ (scheduler_start_sinv me s I Ho)) in H.
  - by eapply (wlp_ok _ _ _ _ _ (scheduler_turn_sinv me s I)) in H as [? _].
  - exact I.
Qed.

Lemma reachable_sinv s : reachable quiet s → sinv s.
Proof.
  intros (me & ncpu & e & s0 & Hb & Hr).
  assert (sinv s0) as I by (by eapply (wlp_ok _ _ _ _ _ (userinit_sinv me ncpu e)) in Hb).
  clear Hb. induction Hr as [|x y z Hs _ IH]; [done|]. apply IH. by eapply step_sinv.
Qed.

(** [exit] is its two steps. *)
Lemma exit_steps sent me i k st s s' :
  sinv s → on me (Some i) s → kths s !! i = Some k → k_new k = None →
  exit me st s = Ok (tt, s') → rtc (step sent) s s'.
Proof.
  intros I Ho Hk Hn ([] & s1 & H1 & H2)%bind_ok.
  destruct (wlp_ok _ _ _ _ _ (wlp_exit_files me i st s I Ho) H1) as (_ & Ho1 & Hip & Ek & _).
  eapply rtc_l; [by eapply step_exit_files|]. apply rtc_once.
  eapply step_exit_locked; [done..| |done|done]. by rewrite Ek.
Qed.

(** C24. No lost exit: in every state reached without stop and continue signals,
    a process that sleeps in [waitpid] has no zombie child it waits for; it
    sleeps on its own entry, the channel [exit] wakes. *)
Theorem waitpid_no_lost_exit s i p k want :
  reachable quiet s → procs s !! i = Some p → kths s !! i = Some k →
  state p = SLEEPING → k_at k = KWait want →
  chan p = CProc i ∧
  ∀ j q, procs s !! j = Some q → parent q = Some i → want = -1 ∨ pid q = want → state q ≠ ZOMBIE.
Proof.
  intros (T & _)%reachable_sinv Hp Hk Hs Hw. split.
  - destruct (t_sleep _ _ _ _ T i p k Hp Hk Hs) as [|(w & _ & ?)]; [congruence|done].
  - by apply (t_wait _ _ _ _ T i p k want).
Qed.

(** ** Progress of a scheduling round

    The slot a CPU's round comes to next: behind the process it runs, or where
    the scan stands; an idle CPU is past the table. *)
Definition pos (cc : cpu) : nat :=
  match c_proc cc, c_scan cc with
  | Some k, _ => (k + 1)%nat
  | None, Some i => i
  | None, None => (NPROC + 1)%nat
  end.

Definition keeps {A} (m : M (sys E) A) : Prop :=
  ∀ s, wlp m (λ _ s', pos <$> cpus s' = pos <$> cpus s) s.

Lemma keeps_ret {A} (a : A) : keeps (mret a).
Proof. by intros s. Qed.
Lemma keeps_fail {A} e : keeps (A := A) (fail e).
Proof. by intros s. Qed.
Lemma keeps_panic {A} e : keeps (A := A) (panic e).
Proof. by intros s. Qed.
Lemma keeps_gets {A} (f : sys E → A) : keeps (gets f).
Proof. by intros s. Qed.
Lemma keeps_bind {A B} (m : M (sys E) A) (k : A → M (sys E) B) :
  keeps m → (∀ a, keeps (k a)) → keeps (m ≫= k).
Proof.
  intros Hm Hk s. apply wlp_bind. eapply wlp_mono; [apply Hm|]. intros a s1 E1.
  eapply wlp_mono; [apply Hk|]. intros b s2 E2. by rewrite E2.
Qed.
Lemma keeps_modify f : (∀ s, cpus (f s) = cpus s) → keeps (modify f).
Proof. intros Hf s. apply wlp_modify. by rewrite Hf. Qed.
Lemma keeps_io {A} (m : M E A) : keeps (io m).
Proof. intros s. apply wlp_io. by intros. Qed.
Lemma keeps_option {A} (o : option A) : keeps (from_option o).
Proof. destruct o; by intros s. Qed.
Lemma keeps_the_proc i : keeps (the_proc i).
Proof. intros s. by apply wlp_the_proc. Qed.
Lemma keeps_the_kth i : keeps (the_kth i).
Proof. intros s. by apply wlp_the_kth. Qed.
Lemma keeps_upd i f : keeps (upd i f).
Proof. by intros s. Qed.
Lemma keeps_upd_kth i f : keeps (upd_kth i f).
Proof. by intros s. Qed.

Lemma fmap_pos_alter f me (cs : list cpu) :
  (∀ cc, cs !! me = Some cc → pos (f cc) = pos cc) → pos <$> alter f me cs = pos <$> cs.
Proof.
  intros Hf. apply list_eq. intros c. rewrite !list_lookup_fmap.
  destruct (decide (me = c)) as [->|]; [|by rewrite list_lookup_alter_ne].
  rewrite list_lookup_alter_eq. destruct (cs !! c) eqn:Ec; [|done]. cbn. by rewrite Hf.
Qed.

Lemma keeps_upd_cpu me f : (∀ cc, pos (f cc) = pos cc) → keeps (upd_cpu me f).
Proof. intros Hf s. apply wlp_modify. cbn [set_cpus cpus]. apply fmap_pos_alter. auto. Qed.

Lemma keeps_on_cpu {A} me (m : M Spin.cpu A) : keeps (on_cpu me m).
Proof.
  intros s. destruct (cpus s !! me) as [cc|] eqn:Hc.
  - eapply wlp_on_cpu; [done|]. intros a v _. by apply fmap_pos_alter.
  - unfold on_cpu. apply wlp_bind, wlp_the_cpu. intros. congruence.
Qed.

Lemma keeps_myproc me : keeps (myproc me).
Proof. intros s. by apply wlp_myproc. Qed.

Lemma keeps_the_cpu me : keeps (the_cpu me).
Proof. intros s. by apply wlp_the_cpu. Qed.

#[local] Hint Resolve keeps_ret keeps_fail keeps_panic keeps_gets keeps_io keeps_option keeps_the_proc
  keeps_the_kth keeps_upd keeps_upd_kth keeps_on_cpu keeps_myproc keeps_the_cpu : relix.

Ltac keep :=
  repeat (cbn beta zeta; match goal with
  | |- keeps (mbind _ _) => apply keeps_bind; [|intros ?]
  | |- keeps (if ?b then _ else _) => destruct b
  | |- keeps (match ?o with _ => _ end) => destruct o
  | |- keeps (modify _) => apply keeps_modify; intros ?; reflexivity
  | |- keeps (upd_cpu _ _) => apply keeps_upd_cpu; intros ?; reflexivity
  | |- keeps _ => solve [auto with relix]
  end).

Lemma keeps_acquire me : keeps (acquire me).
Proof. unfold acquire. keep. Qed.
Lemma keeps_release me : keeps (release me).
Proof. unfold release. keep. Qed.
Lemma keeps_wakeup1 ch : keeps (wakeup1 ch).
Proof. unfold wakeup1. keep. Qed.
#[local] Hint Resolve keeps_acquire keeps_release keeps_wakeup1 : relix.

Lemma keeps_sched me k : keeps (sched me k).
Proof.
  intros s. apply wlp_bind, wlp_myproc. intros cc i Hc Hp.
  apply wlp_bind, wlp_gets, wlp_bind. eapply wlp_on_cpu; [done|]. intros h v _.
  destruct (negb h); [done|].
  apply wlp_bind, wlp_the_cpu. intros c1 Hc1. apply wlp_bind, wlp_the_proc. intros p Hpp.
  repeat (case_match; [done|]). apply wlp_bind, wlp_modify, wlp_bind, wlp_io. intros _ e.
  apply wlp_modify. cbn [set_cpus set_env set_kths cpus].
  rewrite list_alter_alter_eq. apply fmap_pos_alter. intros c2 Hc2. simplify_eq.
  unfold pos; cbn. by rewrite Hp.
Qed.
#[local] Hint Resolve keeps_sched : relix.

Lemma keeps_wait_turn me want : keeps (wait_turn me want).
Proof.
  assert (∀ cur hk j n, keeps (wait_scan cur want hk j n)) as Hs.
  { intros cur hk j n. revert hk j. induction n as [|n IH]; intros hk j; cbn [wait_scan]; keep; auto. }
  unfold wait_turn, go_to_sleep. keep; auto.
Qed.

Lemma keeps_exit_files me st : keeps (exit_files me st).
Proof.
  assert (∀ l, keeps (close_all l)) as H1.
  { induction l as [|f l IH]; cbn [close_all]; keep; auto. }
  unfold exit_files. keep; auto.
Qed.

Lemma keeps_exit_locked me : keeps (exit_locked me).
Proof.
  assert (∀ cur ip j n, keeps (reparent cur ip j n)) as H2.
  { intros cur ip j n. revert j. induction n as [|n IH]; intros j; cbn [reparent]; keep; auto. }
  unfold exit_locked. keep; auto.
Qed.

Lemma keeps_allocproc_locked me : keeps (allocproc_locked me).
Proof. unfold allocproc_locked. keep. Qed.

Lemma keeps_fork_rest me np : keeps (fork_rest me np).
Proof.
  assert (∀ pg l, keeps (map_all pg l)) as H1.
  { intros pg l. induction l as [|m l IH]; cbn [map_all]; keep. }
  assert (∀ n i l, keeps (dup_files n i l)) as H2.
  { intros n i l. revert i. induction l as [|f l IH]; intros i; cbn [dup_files]; keep; auto. }
  unfold fork_rest, allocproc_rest, fork_copy, publish. keep; auto.
Qed.

Lemma keeps_kill me n signal : keeps (kill me n signal).
Proof.
  assert (∀ i, keeps (prockill i signal)) as H1.
  { intros i. unfold prockill, copy_signal_to_stack. keep. }
  assert (∀ sel j n, keeps (kill_scan sel signal j n)) as H2.
  { intros sel j m. revert j. induction m as [|m IH]; intros j; cbn [kill_scan]; keep; auto. }
  unfold kill, get_process_from_pid, kill_single_proc, kill_all_children, kill_all_procs. keep; auto.
Qed.

Lemma keeps_resume me i k : keeps (resume me i k).
Proof.
  unfold resume, forkret, acquire_other. pose proof (keeps_wait_turn me) as H. keep; auto.
Qed.

Definition pos_of (c : nat) s : option nat := pos <$> cpus s !! c.

Lemma keeps_pos {A} (m : M (sys E) A) s a s' c :
  keeps m → m s = Ok (a, s') → pos_of c s' = pos_of c s.
Proof.
  intros Hm H. unfold pos_of. rewrite <- !list_lookup_fmap.
  by rewrite (wlp_ok _ _ _ _ _ (Hm s) H).
Qed.

(** One turn of the scheduler takes its CPU to the next slot, and no other CPU
    anywhere. *)
Lemma turn_pos me s s' c i :
  sinv s → scheduler_turn me s = Ok (tt, s') → pos_of c s = Some i →
  pos_of c s' = Some (if decide (c = me) then (i + 1)%nat else i).
Proof.
  intros (T & R & L) H. eapply (wlp_ok _ (λ _ s', pos_of c s = Some i → pos_of c s' = _)); [|exact H].
  clear H s'. apply wlp_bind, wlp_the_cpu. intros cc Hc. apply wlp_bind, wlp_from_option. intros j Hj.
  destruct (l_scan _ _ _ L _ _ _ Hc Hj) as (_ & Hp & _ & Hle).
  assert (∀ f s1, pos_of c s = Some i → (pos <$> cpus s1 = pos <$> alter f me (cpus s)) →
    pos (f cc) = (j + 1)%nat → pos_of c s1 = Some (if decide (c = me) then (i + 1)%nat else i)) as Hfin.
  { intros f s1 Hi E1 Hf. unfold pos_of in *. rewrite <- list_lookup_fmap, E1, list_lookup_fmap.
    case_decide as Hcm.
    - subst c. rewrite Hc in Hi. cbn in Hi. injection Hi as <-.
      rewrite (alter_at _ _ _ cc Hc). cbn. rewrite Hf. unfold pos. by rewrite Hp, Hj.
    - by rewrite list_lookup_alter_ne. }
  destruct (decide (j = NPROC)) as [Hend|Hend].
  - apply wlp_bind, wlp_modify, wlp_bind. eapply wlp_mono; [apply keeps_release|]. intros [] s1 E1.
    apply wlp_modify. intros Hi. eapply (Hfin (set_scan None)); [done| |].
    + cbn [set_cpus cpus] in *. rewrite fmap_pos_alter; [exact E1|done].
    + unfold pos; cbn. rewrite Hp. by subst.
  - apply wlp_bind, wlp_the_proc. intros p Hpp. destruct (decide (state p ≠ RUNNABLE)) as [Hrun|Hrun].
    + apply wlp_modify. intros Hi. eapply (Hfin (set_scan (Some (j + 1)%nat))); [done|done|].
      unfold pos; cbn. by rewrite Hp.
    + apply wlp_bind, wlp_modify, wlp_bind, wlp_io. intros [] e. apply wlp_bind, wlp_modify, wlp_bind.
      apply wlp_the_kth. intros k Hk. eapply wlp_mono; [apply keeps_resume|]. intros [] s1 E1 Hi.
      eapply Hfin; [done|exact E1|done].
Qed.

(** Every other step leaves the position of a CPU that is inside a round. *)
Lemma step_pos c i s s' :
  sinv s → step quiet s s' → pos_of c s = Some i → (i ≤ NPROC)%nat →
  scheduler_turn c s ≠ Ok (tt, s') → pos_of c s' = Some i.
Proof.
  intros I Hst Hi Hle Hnt. rewrite <- Hi.
  destruct Hst as [me k s s' Ho H|me k cc ch s s' Ho Hc Hn H|me o ch s s' Ho H
    |me k w r s s' Ho H|me k st s s' Ho H|me k kt s s' Ho Hip Hk Hn H|me k kt n s s' Ho Hk Hn H
    |me k r s s' Ho H Hf|me k kt n r s s' Ho Hk Hn H|me o n sg r s s' Ho Hq H|me k n h r s s' Ho H
    |me k n r s s' Ho H|me k s s' Ho H|me k s s' Ho H|me s s' Ho H|me s s' H|e s].
  - eapply keeps_pos; [|exact H]. unfold yield. keep.
  - eapply keeps_pos; [|exact H]. unfold sleep, go_to_sleep, release_other. keep.
  - eapply keeps_pos; [|exact H]. unfold wakeup. keep.
  - eapply keeps_pos; [|exact H]. unfold waitpid. keep. apply keeps_wait_turn.
  - eapply keeps_pos; [|exact H]. apply keeps_exit_files.
  - eapply keeps_pos; [|exact H]. apply keeps_exit_locked.
  - change (pos_of c s' = pos_of c s). eapply keeps_pos; [|exact H]. apply keeps_allocproc_locked.
  - eapply keeps_pos; [|exact H]. unfold fork. keep; [apply keeps_allocproc_locked|apply keeps_fork_rest].
  - change (pos_of c s' = pos_of c s). eapply keeps_pos; [|exact H]. apply keeps_fork_rest.
  - eapply keeps_pos; [|exact H]. apply keeps_kill.
  - eapply keeps_pos; [|exact H]. unfold kernel_attach_signal. keep.
  - eapply keeps_pos; [|exact H]. unfold growproc. keep.
  - eapply keeps_pos; [|exact H]. unfold acquire_other. keep.
  - eapply keeps_pos; [|exact H]. unfold release_other. keep.
  - assert (c ≠ me) as Hne.
    { intros ->. destruct Ho as (cc & Hc & Hp & Hs). unfold pos_of in Hi. rewrite Hc in Hi.
      cbn in Hi. unfold pos in Hi. rewrite Hp, Hs in Hi. simplify_eq. lia. }
    eapply (wlp_ok (scheduler_start me) (λ _ s', pos_of c s' = pos_of c s)); [|exact H].
    assert (∀ s1 f, pos_of c s1 = pos_of c s →
      pos_of c (set_cpus (alter f me (cpus s1)) s1) = pos_of c s) as Hfr.
    { intros s1 f <-. unfold pos_of; cbn. by rewrite list_lookup_alter_ne. }
    apply wlp_bind, wlp_modify, wlp_bind. eapply wlp_mono; [apply keeps_acquire|]. intros [] s1 E1.
    apply wlp_modify, Hfr. unfold pos_of in *. rewrite <- !list_lookup_fmap, E1, list_lookup_fmap.
    cbn [set_cpus cpus]. by rewrite list_lookup_alter_ne, <- list_lookup_fmap.
  - rewrite (turn_pos me s s' c i I H Hi). rewrite decide_False; [done|]. by intros ->.
  - done.
Qed.

Definition runnable (j : nat) s : Prop := ∃ p, procs s !! j = Some p ∧ state p = RUNNABLE.

(** A run of the system in which [j] stays runnable, as counted by the turns of
    [c]'s scheduler. *)
Inductive run (c j : nat) : nat → sys E → sys E → Prop :=
| run_done s : run c j 0 s s
| run_turn n s s1 s2 : scheduler_turn c s = Ok (tt, s1) →
    runnable j s1 → run c j n s1 s2 → run c j (Datatypes.S n) s s2
| run_other n s s1 s2 : step quiet s s1 → scheduler_turn c s ≠ Ok (tt, s1) →
    runnable j s1 → run c j n s1 s2 → run c j n s s2.

Lemma stands_at c j s cc :
  cpus s !! c = Some cc → c_proc cc = None → runnable j s → pos_of c s = Some j → (j < NPROC)%nat →
  stands c j s.
Proof.
  intros Hc Hp (p & Hj & Hr) Hi Hle. exists cc, p. split_and!; [done| |done..].
  unfold pos_of in Hi. rewrite Hc in Hi. cbn in Hi. unfold pos in Hi. rewrite Hp in Hi.
  destruct (c_scan cc) as [k|]; simplify_eq; [done|lia].
Qed.

Lemma wlp_anyhow {A} (m : M (sys E) A) (P : Prop) s : P → wlp m (λ _ _, P) s.
Proof. intros HP. unfold wlp. by repeat case_match. Qed.

(** A turn is made only by a CPU that runs no process. *)
Lemma turn_idle c s s1 :
  sinv s → scheduler_turn c s = Ok (tt, s1) → ∃ cc, cpus s !! c = Some cc ∧ c_proc cc = None.
Proof.
  intros (_ & _ & L) H.
  apply (wlp_ok (scheduler_turn c) (λ _ _, ∃ cc, cpus s !! c = Some cc ∧ c_proc cc = None) s tt s1); [|done].
  apply wlp_bind, wlp_the_cpu. intros cc Hc. apply wlp_bind, wlp_from_option. intros i Hi.
  destruct (l_scan _ _ _ L _ _ _ Hc Hi) as (_ & Hp & _). apply wlp_anyhow. eauto.
Qed.

(** A process that was switched to is not runnable any more. *)
Lemma switched_not_runnable c j k s : sinv s → switched c j k s → ¬ runnable j s.
Proof.
  intros I [Ho|(_ & _ & q & Hq & Hs)] (p & Hp & Hr); [|congruence].
  destruct (on_running _ _ _ I Ho) as (q & Hq & Hs). congruence.
Qed.

Lemma turn_switches c j s s1 cc :
  sinv s → runnable j s → pos_of c s = Some j → (j < NPROC)%nat →
  cpus s !! c = Some cc → c_proc cc = None → scheduler_turn c s = Ok (tt, s1) →
  sinv s1 ∧ ∃ k, kths s !! j = Some k ∧ switched c j k s1.
Proof.
  intros I Hj Hi Hle Hc Hp Ht.
  destruct (wlp_ok _ _ _ _ _ (scheduler_turn_sinv c s I) Ht) as [I1 Hsw]. split; [done|].
  assert (is_Some (kths s !! j)) as [k Hk].
  { apply lookup_lt_is_Some. destruct I as (T & _). by rewrite (t_klen _ _ _ _ T). }
  exists k. split; [done|]. apply Hsw; [by eapply stands_at|done].
Qed.

(** C25. A runnable process is not passed over: while process [j] stays
    runnable, a CPU whose round stands at slot [i], at or before [j], makes at
    most [j - i] turns of its scheduler loop, whatever the processes it runs
    and the other CPUs do (stop and continue signals excepted).  After that
    many turns, once the CPU is back in its loop, the next turn switches to
    [j]: [j] is the CPU's process and in state [RUNNING], or it was inside
    [waitpid], looked once more for an exited child and went back to sleep. *)
Theorem scheduler_bounded_wait c j i n s s' :
  reachable quiet s → runnable j s → pos_of c s = Some i → (i ≤ j < NPROC)%nat → run c j n s s' →
  (n ≤ j - i)%nat ∧ pos_of c s' = Some (i + n)%nat ∧
  ((n = j - i)%nat → ∀ cc s'', cpus s' !! c = Some cc → c_proc cc = None →
    scheduler_turn c s' = Ok (tt, s'') →
    ∃ p k, procs s'' !! j = Some p ∧ kths s' !! j = Some k ∧
      ((state p = RUNNING ∧ ∃ cc', cpus s'' !! c = Some cc' ∧ c_proc cc' = Some j) ∨
       (state p = SLEEPING ∧ ∃ want, k_at k = KWait want))).
Proof.
  intros I%reachable_sinv Hj Hi Hij Hrun. revert i I Hj Hi Hij.
  induction Hrun as [s|n s s1 s2 Ht Hj1 Hr IH|n s s1 s2 Hst Hnt Hj1 Hr IH]; intros i I Hj Hi Hij.
  - split_and!; [lia|by rewrite Hi; f_equal; lia|]. intros Hn cc s'' Hc Hp Ht.
    assert (i = j) as -> by lia.
    destruct (turn_switches c j s s'' cc I Hj Hi ltac:(lia) Hc Hp Ht) as (I1 & k & Hk & Hsw).
    destruct Hsw as [Ho|(want & Hw & p & Hp' & Hs)]; [|exists p, k; eauto 10].
    destruct (on_running _ _ _ I1 Ho) as (p & Hp' & Hs). destruct Ho as (cc' & ? & ? & _).
    exists p, k. eauto 10.
  - pose proof (turn_pos c s s1 c i I Ht Hi) as Hi1. rewrite decide_True in Hi1 by done.
    assert (i ≠ j) as Hne.
    { intros ->. destruct (turn_idle c s s1 I Ht) as (cc & Hc & Hp).
      destruct (turn_switches c j s s1 cc I Hj Hi ltac:(lia) Hc Hp Ht) as (I1 & k & _ & Hsw).
      by apply (switched_not_runnable c j k s1 I1 Hsw). }
    assert (sinv s1) as I1 by (eapply step_sinv; [by eapply step_scheduler_turn|done]).
    destruct (IH (i + 1)%nat I1 Hj1 Hi1) as (? & -> & Hlast); [lia|].
    split_and!; [lia|f_equal; lia|]. intros Hn. apply Hlast. lia.
  - assert (sinv s1) as I1 by (by eapply step_sinv).
    assert (pos_of c s1 = Some i) as Hi1 by (apply (step_pos c i s s1 I Hst Hi); [lia|done]).
    by apply IH.
Qed.

(** ** [waitpid] on every branch *)

Lemma wait_scan_result cur want hk j n s :
  wlp (wait_scan cur want hk j n) (λ r s',
    match r with
    | inl (m, w) => ∃ l q e, procs s !! l = Some q ∧ parent q = Some cur ∧ matches want q ∧
        state q = ZOMBIE ∧ m = pid q ∧ w = W_EXITCODE (status q) (last_signal q) ∧
        s' = set_procs (alter reaped l (procs s)) (set_env e s)
    | inr b => s' = s ∧ (b = true ↔ hk = true ∨
        ∃ l q, (j ≤ l < j + n)%nat ∧ procs s !! l = Some q ∧ parent q = Some cur)
    end) s.
Proof.
  revert j hk. induction n as [|n IH]; intros j hk; cbn [wait_scan].
  { apply wlp_ret. split; [done|]. split; [by left|]. intros [|(l & q & ? & _)]; [done|lia]. }
  apply wlp_bind, wlp_the_proc. intros p Hp. case_decide as Hpar.
  - eapply wlp_mono; [apply IH|]. intros [[m w]|b] s'; [done|]. intros [-> Hb]. split; [done|].
    rewrite Hb. apply or_iff_compat_l. split; intros (l & q & Hl & Hq & Hc).
    + exists l, q. split_and!; [lia|lia|done..].
    + exists l, q. split_and!; [|lia|done..]. destruct (decide (l = j)) as [->|]; [congruence|lia].
  - destruct (_ && _) eqn:Eb.
    + apply andb_prop in Eb as [Hm Hz%bool_decide_eq_true_1].
      apply wlp_bind, wlp_io. intros [] e1. apply wlp_bind, wlp_io. intros [] e2.
      apply wlp_bind, wlp_modify, wlp_ret. exists j, p, e2. split_and!; try done.
      apply orb_prop in Hm as [?%Z.eqb_eq|?%Z.eqb_eq]; [by left|by right].
    + eapply wlp_mono; [apply IH|]. intros [[m w]|b] s'; [done|]. intros [-> Hb]. split; [done|].
      rewrite Hb. split; [|by left]. intros _. right. exists j, p. split_and!; [lia|lia|done..].
Qed.

(** [waitpid] on every branch, from any state reached without stop and
    continue signals: when it returns a
    pid and a status word, exactly one zombie child that was asked for has been
    taken off the table, every other entry is as it was, and no used entry has
    that pid any more, so no child is reaped twice; when it returns an error it
    is [-ECHILD], the caller has no child or has been killed, and the table is
    unchanged; otherwise the caller sleeps on its own entry, it has a child and
    was not killed, and its CPU is back in the scheduler. *)
Theorem waitpid_spec me i want r s s' p :
  reachable quiet s → on me (Some i) s → procs s !! i = Some p → waitpid me want s = Ok (r, s') →
  match r with
  | Some (n, Some w) => ∃ l q, procs s !! l = Some q ∧ parent q = Some i ∧
      (want = -1 ∨ pid q = want) ∧ state q = ZOMBIE ∧
      n = pid q ∧ w = W_EXITCODE (status q) (last_signal q) ∧
      procs s' = alter reaped l (procs s) ∧
      ∀ j q', procs s' !! j = Some q' → state q' ≠ UNUSED → pid q' ≠ n
  | Some (n, None) => n = - ECHILD ∧ procs s' = procs s ∧
      ((∀ l q, procs s !! l = Some q → parent q ≠ Some i) ∨ killed p ≠ 0)
  | None => procs s' = alter (λ p, set_state SLEEPING (set_chan (CProc i) p)) i (procs s) ∧
      (∃ l q, procs s !! l = Some q ∧ parent q = Some i) ∧ killed p = 0 ∧
      ∃ cc, cpus s' !! me = Some cc ∧ c_proc cc = None
  end.
Proof.
  intros I%reachable_sinv Ho Hp H. pose proof I as (T & _).
  revert r s' H. apply wlp_all.
  apply wlp_bind. eapply wlp_enter; [done..|]. intros s1 C E1 E2 E3 E4.
  pose proof C as (T1 & _ & _ & (cc & Hc & Hcp & _)).
  apply wlp_bind, wlp_myproc. intros c j Hc' Hj. simplify_eq.
  apply wlp_bind. eapply wlp_mono; [by apply wlp_and; [apply (wlp_wait_scan me)|apply wait_scan_result]|].
  intros [[n w]|hk] s2 [HC HR].
  - destruct HC as [C2 _], HR as (l & q & e & Hq & Hpar & Hm & Hz & -> & -> & ->).
    apply wlp_bind. eapply wlp_leave; [exact C2|].
    intros s3 I3 _ E5 _ _ _. apply wlp_ret. cbn [set_procs set_env procs] in E5.
    rewrite E1 in *. exists l, q. split_and!; try done.
    intros k q' Hq' Hu Epid. rewrite E5 in Hq'. altered.
    eapply H. symmetry. eapply (t_uniq _ _ _ _ T); eauto. unfold used. by rewrite Hz.
  - destruct HC as [_ [-> _]], HR as [_ Hk]. apply wlp_bind, wlp_the_proc. intros p1 Hp1.
    rewrite E1 in *. simplify_eq. destruct (negb hk || negb (killed p =? 0)) eqn:Eb.
    + apply wlp_bind. eapply wlp_leave; [exact C|]. intros s3 I3 _ E5 _ _ _. apply wlp_ret.
      split_and!; [done|congruence|]. apply orb_prop in Eb as [Eb|Eb].
      * left. intros l q Hq Hpar. apply negb_true_iff in Eb. rewrite Eb in Hk.
        enough (false = true) by done. apply Hk. right. exists l, q. split_and!; [lia| |done..].
        apply lookup_lt_Some in Hq. by rewrite (t_len _ _ _ _ T) in Hq.
      * right. by apply negb_true_iff, Z.eqb_neq in Eb.
    + apply orb_false_elim in Eb as [Eb1%negb_false_iff Eb2%negb_false_iff%Z.eqb_eq].
      apply wlp_bind. unfold go_to_sleep. apply wlp_bind, wlp_myproc. intros c2 j2 Hc2 Hj2. simplify_eq.
      apply wlp_bind, wlp_modify. pose proof C as (_ & _ & L & Ho1).
      eapply wlp_sched; [exact L|exact Ho1|by cbn; rewrite length_alter, E1; apply T|].
      intros s3 f ia E5 _ _ _ _ Hf Ec. apply wlp_ret. cbn [set_procs procs cpus] in *.
      rewrite E1 in E5. split_and!; try done.
      * destruct (proj1 Hk) as [|(l & q & _ & ? & ?)]; [done|done|eauto].
      * eexists. rewrite Ec. split; [by eapply alter_at|apply Hf].
Qed.

(** ** What [fork] leaves in the entry *)

(** [q] has the open files of [p] wherever [cur] has none. *)
Definition leftover (fs : list Z) (lo : nat) (p q : proc) : Prop :=
  ∀ fd, ((fd < lo)%nat ∨ fs !! (fd - lo)%nat = Some 0) → ofile q !! fd = ofile p !! fd.

Lemma dup_files_leftover n i l s :
  wlp (dup_files n i l) (λ _ s', ∀ q, procs s' !! n = Some q →
    ∃ p, procs s !! n = Some p ∧ leftover l i p q) s.
Proof.
  revert i s. induction l as [|f l IH]; intros i s; cbn [dup_files].
  { apply wlp_ret. intros q Hq. exists q. split; [done|]. by intros fd _. }
  apply wlp_bind.
  apply (wlp_mono _ (λ _ s1, ∀ q, procs s1 !! n = Some q → ∃ p, procs s !! n = Some p ∧
    ∀ fd, (fd ≠ i ∨ f = 0) → ofile q !! fd = ofile p !! fd)).
  - destruct (Z.eqb_spec f 0) as [Hf|Hf]; [apply wlp_ret; eauto|].
    apply wlp_bind, wlp_io. intros r e1. destruct (0 <? r); [|apply wlp_ret; cbn; eauto].
    apply wlp_bind, wlp_io. intros fl e2. destruct (fl =? O_CLOFORK).
    { apply wlp_bind, wlp_io. intros g e3. apply wlp_ret. cbn. eauto. }
    apply wlp_bind, wlp_io. intros g e3. apply wlp_modify. intros q Hq. cbn in Hq. altered.
    exists x. split; [done|]. intros fd [Hne|Hz]; [|done]. cbn. by rewrite list_lookup_insert_ne.
  - intros [] s1 H1. eapply wlp_mono; [apply IH|]. intros [] s2 H2 q Hq.
    destruct (H2 q Hq) as (p1 & Hp1 & L1). destruct (H1 p1 Hp1) as (p & Hp & L2).
    exists p. split; [done|]. intros fd Hfd. rewrite L1, L2; [done| |].
    + destruct Hfd as [|Hfd]; [left; lia|]. destruct (decide (fd = i)) as [->|]; [|by left].
      rewrite Nat.sub_diag in Hfd. cbn in Hfd. right. congruence.
    + destruct Hfd as [|Hfd]; [left; lia|].
      destruct (decide (fd ≤ i)%nat) as [Hle|Hgt]; [left; lia|right].
      replace (fd - i)%nat with (Datatypes.S (fd - (i + 1)))%nat in Hfd by lia. done.
Qed.

(** [fork] does not clear the descriptor table of the entry it takes, nor
    does [exit] or [waitpid]: wherever the parent has no open file the child
    gets the file pointer the entry's previous process left there. *)
Theorem fork_keeps_stale_descriptors me cur n c old r s s' :
  myproc me s = Ok (cur, s) → cur ≠ n →
  procs s !! cur = Some c → procs s !! n = Some old →
  fork_rest me (Some n) s = Ok (r, s') → 0 < r →
  ∃ child, procs s' !! n = Some child ∧ pid child = r ∧
    ∀ fd, ofile c !! fd = Some 0 → ofile child !! fd = ofile old !! fd.
Proof.
  intros Hme Hne Hc Hold H. revert r s' H.
  apply (wlp_all (fork_rest me (Some n)) (λ r s', 0 < r → ∃ child, procs s' !! n = Some child ∧
    pid child = r ∧ ∀ fd, ofile c !! fd = Some 0 → ofile child !! fd = ofile old !! fd)).
  apply wlp_bind. unfold wlp at 1. rewrite Hme.
  apply wlp_bind. eapply wlp_mono.
  { apply wlp_and; [apply allocproc_rest_touches|].
    instantiate (1 := λ _ s1, ∀ q, procs s1 !! n = Some q → ofile q = ofile old).
    unfold allocproc_rest. apply wlp_bind, wlp_io. intros ks e1. apply wlp_bind, wlp_modify.
    destruct (ks =? 0).
    - apply wlp_bind, wlp_modify, wlp_ret. intros q Hq. cbn in Hq. by altered.
    - apply wlp_bind, wlp_io. intros fpu e2. apply wlp_bind, wlp_modify, wlp_bind, wlp_modify, wlp_ret.
      intros q Hq. cbn in Hq. altered. done. }
  intros b s1 [(f1 & g1 & Ep1 & _ & _ & _ & _ & _ & Hf1 & _) Ho1].
  destruct b; [cbn [negb]|apply wlp_ret; unfold ENOMEM; lia].
  assert (procs s1 !! cur = Some c) as Hc1 by (rewrite Ep1; by apply alter_other).
  assert (procs s1 !! n = Some (f1 old)) as Hn1 by (rewrite Ep1; by apply alter_at).
  specialize (Ho1 _ Hn1).
  apply wlp_bind. eapply wlp_mono.
  { instantiate (1 := λ b s2, b = true → ∀ q, procs s2 !! n = Some q →
      ∀ fd, ofile c !! fd = Some 0 → ofile q !! fd = ofile old !! fd).
    unfold fork_copy. apply wlp_bind, wlp_the_proc. intros c' Hc'. simplify_eq.
    apply wlp_bind, wlp_io. intros pg e1. destruct (pg =? 0).
    - apply wlp_bind, wlp_the_proc. intros p Hp. apply wlp_bind, wlp_modify, wlp_bind, wlp_io.
      intros _ e2. apply wlp_bind, wlp_modify. by apply wlp_ret.
    - apply wlp_bind, wlp_modify, wlp_bind, wlp_env; [apply env_only_map_all|]. intros [] e2.
      apply wlp_bind. eapply wlp_mono; [apply dup_files_leftover|]. intros [] s3 H3.
      apply wlp_bind, wlp_io. intros d e3. apply wlp_bind, wlp_modify, wlp_ret. intros _ q Hq fd Hfd.
      cbn in Hq. altered. destruct (H3 _ H0) as (p & Hp & L). cbn [set_env set_procs procs] in Hp. altered.
      change (ofile x !! fd = ofile old !! fd). rewrite L; [by rewrite <- Ho1|].
      right. by rewrite Nat.sub_0_r. }
  intros [] s2 H2; [cbn [negb]|apply wlp_ret; unfold EIO; lia].
  apply wlp_bind, wlp_the_proc. intros p Hp. apply wlp_bind. unfold publish. apply wlp_bind.
  assert (∀ m, (m = acquire (E := E) me ∨ m = release me) → ∀ s3, wlp m (λ _ s4, procs s4 = procs s3) s3) as Hlk.
  { intros m Hm s3. destruct (cpus s3 !! me) as [cc|] eqn:Ecc.
    - destruct Hm as [->| ->].
      + apply wlp_bind, wlp_gets, wlp_bind. eapply wlp_on_cpu; [done|]. intros. cbn. by case_match.
      + apply wlp_bind, wlp_gets, wlp_bind. eapply wlp_on_cpu; [done|]. intros a v _.
        apply wlp_bind, wlp_modify. eapply wlp_on_cpu; [by apply alter_at|]. by intros.
    - unfold wlp. destruct Hm as [->| ->]; unfold acquire, release, on_cpu, the_cpu;
        rewrite gets_bind; unfold mbind, M_bind; rewrite Ecc; done. }
  eapply wlp_mono; [apply Hlk; by left|]. intros [] s3 E3. apply wlp_bind, wlp_modify.
  eapply wlp_mono; [apply Hlk; by right|]. intros [] s4 E4. apply wlp_ret. intros _.
  exists (set_state RUNNABLE p). cbn [set_procs procs] in E4. rewrite E4, E3.
  split_and!; [by apply alter_at|done|]. intros fd Hfd. by apply (H2 eq_refl p).
Qed.
End sys.

(** ** Executions on two CPUs

    A memory manager and file system that always succeed. *)
#[local] Instance unit_env : ProcEnv unit := {|
  kpage_alloc := mret 0x1000; kpage_free _ := mret tt; setupkvm := mret 0x2000;
  inituvm _ := mret tt; copyuvm _ _ := mret 0x3000; freevm _ := mret tt;
  allocuvm _ _ n := mret n; deallocuvm _ _ n := mret n; switchuvm _ _ := mret tt;
  switchkvm := mret tt; mappages _ _ := mret 0; copyout _ _ _ := mret 0;
  clean_fpu := mret []; file_ref _ := mret 1; file_flags _ := mret 0;
  vfs_close _ := mret 0; filedup f _ := mret f; inode_dup i := mret i;
  inode_put _ := mret tt; begin_op := mret tt; end_op := mret tt; namei_root := mret 1;
  fs_init := mret tt;
|}.

Inductive label :=
| LStart (me : nat) | LTurn (me : nat) | LFork (me : nat) | LRest (me : nat)
| LExit (me : nat) (st : Z) | LWait (me : nat) (want : Z).

Definition state_of {A} (r : res (A * sys unit)) : option (sys unit) :=
  match r with Ok (_, s) => Some s | Err _ => None end.

(** The step a label stands for, with its guards. *)
Definition do_label (l : label) (s : sys unit) : option (sys unit) :=
  match l with
  | LStart me =>
      c ← cpus s !! me;
      if decide (c_proc c = None ∧ c_scan c = None) then state_of (scheduler_start me s) else None
  | LTurn me => state_of (scheduler_turn me s)
  | LFork me =>
      c ← cpus s !! me; i ← c_proc c; k ← kths s !! i;
      if decide (c_scan c = None ∧ k_new k = None) then
        match allocproc_locked me s with
        | Ok (Some n, s') => Some (set_kths (alter (set_new (Some n)) i (kths s')) s')
        | _ => None
        end
      else None
  | LRest me =>
      c ← cpus s !! me; i ← c_proc c; k ← kths s !! i; n ← k_new k;
      if decide (c_scan c = None) then forked i <$> state_of (fork_rest me (Some n) s) else None
  | LExit me st =>
      c ← cpus s !! me; i ← c_proc c; k ← kths s !! i;
      if decide (c_scan c = None ∧ k_new k = None) then state_of (exit me st s) else None
  | LWait me want =>
      c ← cpus s !! me; i ← c_proc c;
      if decide (c_scan c = None) then state_of (waitpid me want s) else None
  end.

Fixpoint do_labels (ls : list label) (s : sys unit) : option (sys unit) :=
  match ls with [] => Some s | l :: ls => s' ← do_label l s; do_labels ls s' end.

Lemma state_of_Some {A} (r : res (A * sys unit)) s : state_of r = Some s → ∃ a, r = Ok (a, s).
Proof. destruct r as [[a s']|]; cbn; [|done]. intros [= ->]. eauto. Qed.

Lemma do_label_steps l s s' : sinv s → do_label l s = Some s' → rtc (step quiet) s s'.
Proof.
  intros I. unfold do_label. destruct l as [me|me|me|me|me st|me want].
  - intros (c & Hc & H)%bind_Some. case_decide as Hd; [|done]. apply state_of_Some in H as ([] & H).
    eapply rtc_once, step_scheduler_start; [exists c; split_and!; [done|apply Hd|apply Hd]|done].
  - intros ([] & H)%state_of_Some. by eapply rtc_once, step_scheduler_turn.
  - intros (c & Hc & (i & Hi & (k & Hk & H)%bind_Some)%bind_Some)%bind_Some.
    case_decide as Hd; [|done].
    destruct (allocproc_locked me s) as [[[n|] s1]|] eqn:Ea; [|done..]. injection H as <-.
    eapply rtc_once, step_fork; [exists c; split_and!; [done|done|apply Hd]|done|apply Hd|done].
  - intros (c & Hc & (i & Hi & (k & Hk & (n & Hn & H)%bind_Some)%bind_Some)%bind_Some)%bind_Some.
    case_decide as Hd; [|done]. apply fmap_Some in H as (s1 & (r & H)%state_of_Some & ->).
    eapply rtc_once, step_fork_rest; [exists c; split_and!; [done|done|exact Hd]|done..].
  - intros (c & Hc & (i & Hi & (k & Hk & H)%bind_Some)%bind_Some)%bind_Some.
    case_decide as Hd; [|done]. apply state_of_Some in H as ([] & H).
    eapply exit_steps; [done|exists c; split_and!; [done|done|apply Hd]|done|apply Hd|done].
  - intros (c & Hc & (i & Hi & H)%bind_Some)%bind_Some. case_decide as Hd; [|done].
    apply state_of_Some in H as (r & H). eapply rtc_once, step_waitpid; [exists c; split_and!; [done|done|exact Hd]|done].
Qed.

Definition state_or (d : sys unit) (r : res (unit * sys unit)) : sys unit :=
  match r with Ok (_, s) => s | Err _ => d end.

Definition is_ok {A} (r : res A) : bool := match r with Ok _ => true | Err _ => false end.

Lemma state_or_ok d r : is_ok r = true → r = Ok (tt, state_or d r).
Proof. by destruct r as [[[] s]|]. Qed.

Definition booted : sys unit := state_or (zero_sys 2 tt) (userinit 0 (zero_sys 2 tt)).

Definition after (ls : list label) : option (sys unit) := do_labels ls booted.

Lemma reachable_steps (sent : Z → Prop) (s s' : sys unit) :
  reachable sent s → rtc (step sent) s s' → reachable sent s'.
Proof. intros (me & n & e & s0 & Hb & Hr) Hs. exists me, n, e, s0. split; [done|]. by etrans. Qed.

Lemma booted_reachable sent : reachable sent booted.
Proof.
  exists 0%nat, 2%nat, tt, booted. split; [|apply rtc_refl]. apply state_or_ok. vm_compute. reflexivity.
Qed.

Lemma after_reachable ls s : after ls = Some s → reachable quiet s.
Proof.
  unfold after. generalize (booted_reachable quiet). generalize booted.
  induction ls as [|l ls IH]; intros s0 H0; cbn [do_labels].
  - by intros [= ->].
  - intros (s1 & H1 & H2)%bind_Some. apply (IH s1); [|done]. eapply reachable_steps; [done|].
    eapply do_label_steps; [by apply reachable_sinv|done].
Qed.

Lemma reachable_weaken (sent : Z → Prop) (s : sys unit) :
  (∀ sg, quiet sg → sent sg) → reachable quiet s → reachable sent s.
Proof.
  intros Hs (me & n & e & s0 & H0 & Hr). exists me, n, e, s0. split; [done|].
  eapply rtc_subrel; [|done]. intros x y [].
  - by eapply step_yield.
  - by eapply step_sleep.
  - by eapply step_wakeup.
  - by eapply step_waitpid.
  - by eapply step_exit_files.
  - by eapply step_exit_locked.
  - by eapply step_fork.
  - by eapply step_fork_fail.
  - by eapply step_fork_rest.
  - eapply step_kill; eauto.
  - by eapply step_signal.
  - by eapply step_growproc.
  - by eapply step_lock.
  - by eapply step_unlock.
  - by eapply step_scheduler_start.
  - by eapply step_scheduler_turn.
  - by eapply step_environment.
Qed.

Lemma option_check {A} (o : option A) (P : A → bool) :
  match o with Some a => P a | None => false end = true → ∃ a, o = Some a ∧ P a = true.
Proof. destruct o; eauto. done. Qed.

(** init runs on CPU 0, forks a child and waits for it. *)
Definition ex_wait : list label := [LStart 0; LTurn 0; LFork 0; LRest 0; LWait 0 (-1)].

(** The child runs on CPU 1 and exits; CPU 1 finishes its round. *)
Definition ex_zombie : list label :=
  [LStart 0; LTurn 0; LFork 0; LRest 0; LStart 1; LTurn 1; LTurn 1; LExit 1 3] ++
  replicate 63 (LTurn 1).

Definition proc_is (s : sys unit) (i : nat) (P : proc → bool) : bool :=
  match procs s !! i with Some p => P p | None => false end.

Lemma proc_is_true s i P : proc_is s i P = true → ∃ p, procs s !! i = Some p ∧ P p = true.
Proof. unfold proc_is. destruct (procs s !! i); [eauto|done]. Qed.

Lemma waitpid_no_lost_exit_witness :
  ∃ s p, reachable quiet s ∧ procs s !! 0%nat = Some p ∧ state p = SLEEPING ∧ chan p = CProc 0.
Proof.
  destruct (option_check (after ex_wait) (λ s, proc_is s 0 (λ p, bool_decide (state p = SLEEPING)) &&
    match kths s !! 0%nat with Some k => bool_decide (k_at k = KWait (-1)) | None => false end))
    as (s & Hs & Hb); [vm_compute; reflexivity|].
  pose proof (after_reachable _ _ Hs) as Hr. apply andb_prop in Hb as [Hp Hk].
  apply proc_is_true in Hp as (p & Hp & Hsl%bool_decide_eq_true_1).
  destruct (kths s !! 0%nat) as [k|] eqn:Ek; [|done]. apply bool_decide_eq_true_1 in Hk.
  exists s, p. split; [exact Hr|]. split; [exact Hp|]. split; [exact Hsl|].
  apply (waitpid_no_lost_exit s 0 p k (-1) Hr Hp Ek Hsl Hk).
Defined.

(** The child is runnable in slot 1 while CPU 1 starts its round at slot 0: one
    turn later the CPU stands at the child, and the next turn runs it. *)
Lemma scheduler_bounded_wait_witness :
  ∃ s s' s'' p, reachable quiet s ∧ run 1 1 1 s s' ∧ scheduler_turn 1 s' = Ok (tt, s'') ∧
    procs s'' !! 1%nat = Some p ∧ (state p = RUNNING ∨ state p = SLEEPING).
Proof.
  destruct (option_check (after [LStart 0; LTurn 0; LFork 0; LRest 0; LStart 1])
    (λ s, let s1 := state_or s (scheduler_turn 1 s) in
      proc_is s 1 (λ p, bool_decide (state p = RUNNABLE)) &&
      bool_decide (pos_of 1 s = Some 0%nat) && is_ok (scheduler_turn 1 s) &&
      proc_is s1 1 (λ p, bool_decide (state p = RUNNABLE)) && is_ok (scheduler_turn 1 s1) &&
      bool_decide (c_proc <$> cpus s1 !! 1%nat = Some None)))
    as (s & Hs & Hb); [vm_compute; reflexivity|].
  pose proof (after_reachable _ _ Hs) as Hr. cbv zeta in Hb.
  apply andb_prop in Hb as [Hb H6]. apply andb_prop in Hb as [Hb H5]. apply andb_prop in Hb as [Hb H4].
  apply andb_prop in Hb as [Hb H3]. apply andb_prop in Hb as [H1 H2].
  apply proc_is_true in H1 as (p & Hp & Hst%bool_decide_eq_true_1).
  apply proc_is_true in H4 as (p' & Hp' & Hst'%bool_decide_eq_true_1).
  apply bool_decide_eq_true_1 in H2, H6. apply fmap_Some in H6 as (cc & Hc & Hcp).
  set (s1 := state_or s (scheduler_turn 1 s)) in *.
  assert (run 1 1 1 s s1) as Hrun
    by exact (run_turn 1 1 0 s s1 _ (state_or_ok s _ H3) (ex_intro _ p' (conj Hp' Hst')) (run_done 1 1 _)).
  destruct (scheduler_bounded_wait 1 1 0 1 s s1 Hr (ex_intro _ p (conj Hp Hst)) H2
    ltac:(unfold NPROC; lia) Hrun) as (_ & _ & Hlast).
  destruct (Hlast eq_refl cc _ Hc (eq_sym Hcp) (state_or_ok s1 _ H5)) as (q & k & Hq & _ & Hcase).
  exists s, s1, (state_or s1 (scheduler_turn 1 s1)), q. split; [exact Hr|]. split; [exact Hrun|].
  split; [exact (state_or_ok s1 _ H5)|]. split; [exact Hq|].
  destruct Hcase as [[? _]|[? _]]; [by left|by right].
Defined.

Lemma waitpid_spec_witness :
  ∃ s s' l q, reachable quiet s ∧ waitpid 0 (-1) s = Ok (Some (2, Some 768), s') ∧
    procs s !! l = Some q ∧ state q = ZOMBIE ∧ 2 = pid q.
Proof.
  destruct (option_check (after ex_zombie) (λ s,
    match cpus s !! 0%nat with
    | Some c => bool_decide (c_proc c = Some 0%nat ∧ c_scan c = None)
    | None => false
    end && proc_is s 0 (λ _, true) &&
    match waitpid 0 (-1) s with
    | Ok (r, _) => bool_decide (r = Some (2, Some 768)) | Err _ => false end))
    as (s & Hs & Hb); [vm_compute; reflexivity|].
  pose proof (after_reachable _ _ Hs) as Hr.
  apply andb_prop in Hb as [Hb H3]. apply andb_prop in Hb as [H1 H2].
  destruct (cpus s !! 0%nat) as [c|] eqn:Hc; [|done]. apply bool_decide_eq_true_1 in H1 as [Hcp Hcs].
  apply proc_is_true in H2 as (p & Hp & _).
  destruct (waitpid 0 (-1) s) as [[r s']|] eqn:Ew; [|done]. apply bool_decide_eq_true_1 in H3. subst r.
  exists s, s'.
  destruct (waitpid_spec 0 0 (-1) _ s s' p Hr (ex_intro _ c (conj Hc (conj Hcp Hcs))) Hp Ew)
    as (l & q & Hq & _ & _ & Hz & Hn & _).
  exists l, q. split; [exact Hr|]. split; [exact Ew|]. split; [exact Hq|]. split; [exact Hz|exact Hn].
Defined.

(** Slot 1 was left with file 99 at descriptor 3; init has no descriptor 3. *)
Definition ex_stale : option (sys unit) :=
  s ← after [LStart 0; LTurn 0; LFork 0];
  Some (set_procs (alter (λ p, set_ofile (<[3%nat := 99]> (ofile p)) p) 1%nat (procs s)) s).

Lemma fork_keeps_stale_descriptors_witness :
  ∃ s s' child, fork_rest 0 (Some 1%nat) s = Ok (2, s') ∧ procs s' !! 1%nat = Some child ∧
    pid child = 2 ∧ ofile child !! 3%nat = Some 99.
Proof.
  destruct (option_check ex_stale (λ s,
    match cpus s !! 0%nat with Some c => bool_decide (c_proc c = Some 0%nat) | None => false end &&
    proc_is s 0 (λ p, bool_decide (ofile p !! 3%nat = Some 0)) &&
    proc_is s 1 (λ p, bool_decide (ofile p !! 3%nat = Some 99)) &&
    match fork_rest 0 (Some 1%nat) s with Ok (r, _) => r =? 2 | Err _ => false end))
    as (s & _ & Hb); [vm_compute; reflexivity|].
  apply andb_prop in Hb as [Hb H4]. apply andb_prop in Hb as [Hb H3]. apply andb_prop in Hb as [H1 H2].
  destruct (cpus s !! 0%nat) as [c|] eqn:Hc; [|done]. apply bool_decide_eq_true_1 in H1.
  apply proc_is_true in H2 as (p & Hp & Hfd%bool_decide_eq_true_1).
  apply proc_is_true in H3 as (old & Hold & Hstale%bool_decide_eq_true_1).
  destruct (fork_rest 0 (Some 1%nat) s) as [[r s']|] eqn:Ef; [|done]. apply Z.eqb_eq in H4. subst r.
  assert (myproc 0 s = Ok (0%nat, s)) as Hme.
  { unfold myproc, the_cpu. unfold mbind, M_bind. rewrite Hc. cbn. by rewrite H1. }
  destruct (fork_keeps_stale_descriptors 0 0 1 p old 2 s s' Hme ltac:(lia) Hp Hold Ef ltac:(lia))
    as (child & Hch & Hpid & Hfiles).
  exists s, s', child. split; [exact Ef|]. split; [exact Hch|]. split; [exact Hpid|].
  rewrite (Hfiles 3%nat Hfd). exact Hstale.
Defined.

(** ** Defects of the signal code *)

(** init runs on CPU 0. *)
Definition ex_running : sys unit := default booted (after [LStart 0; LTurn 0]).

Definition on_check (me : nat) (o : option nat) (s : sys unit) : bool :=
  match cpus s !! me with
  | Some c => bool_decide (c_proc c = o ∧ c_scan c = None) | None => false end.

Lemma on_check_true me o s : on_check me o s = true → on me o s.
Proof.
  unfold on_check. destruct (cpus s !! me) as [c|] eqn:Hc; [|done].
  intros [? ?]%bool_decide_eq_true_1. by exists c.
Qed.

(** [SIGCONT] makes its target runnable whatever it is doing: after init,
    running on CPU 0, sends it to itself, the scheduler of CPU 1 picks init as
    well and the process runs on both CPUs, on one kernel stack. *)
Lemma sigcont_runs_process_twice :
  ∃ s1 s2 s3 c0 c1,
    on 0 (Some 0%nat) ex_running ∧ kill 0 1 SIGCONT ex_running = Ok (0, s1) ∧ on 1 None s1 ∧
    scheduler_start 1 s1 = Ok (tt, s2) ∧ scheduler_turn 1 s2 = Ok (tt, s3) ∧
    cpus s3 !! 0%nat = Some c0 ∧ c_proc c0 = Some 0%nat ∧
    cpus s3 !! 1%nat = Some c1 ∧ c_proc c1 = Some 0%nat.
Proof.
  destruct (option_check (state_of (kill 0 1 SIGCONT ex_running)) (λ s1,
    on_check 0 (Some 0%nat) ex_running && on_check 1 None s1 && (
    match kill 0 1 SIGCONT ex_running with Ok (r, _) => r =? 0 | _ => false end &&
    is_ok (scheduler_start 1 s1) &&
    let s2 := state_or s1 (scheduler_start 1 s1) in is_ok (scheduler_turn 1 s2) &&
    let s3 := state_or s1 (scheduler_turn 1 s2) in
    bool_decide ((cpus s3 !! 0%nat) ≫= c_proc = Some 0%nat) &&
    bool_decide ((cpus s3 !! 1%nat) ≫= c_proc = Some 0%nat)))) as (s1 & H1 & Hb); [vm_compute; reflexivity|].
  apply state_of_Some in H1 as (r & H1). rewrite H1 in Hb. cbv zeta in Hb.
  apply andb_prop in Hb as [[Ho0%on_check_true Ho1%on_check_true]%andb_prop Hb].
  apply andb_prop in Hb as [Hb Hc]. apply andb_prop in Hb as [Hr%Z.eqb_eq H2].
  apply andb_prop in Hc as [H3 Hc]. apply andb_prop in Hc as [Hc0 Hc1].
  apply bool_decide_eq_true_1, bind_Some in Hc0 as (c0 & ? & ?).
  apply bool_decide_eq_true_1, bind_Some in Hc1 as (c1 & ? & ?). subst r.
  eexists s1, _, _, c0, c1. split_and!; [exact Ho0|exact H1|exact Ho1|exact (state_or_ok s1 _ H2)|exact (state_or_ok s1 _ H3)|assumption..].
Qed.

Lemma two_cpus_reachable :
  ∃ s : sys unit, reachable (λ sg, quiet sg ∨ sg = SIGCONT) s ∧
    ∃ c0 c1, cpus s !! 0%nat = Some c0 ∧ cpus s !! 1%nat = Some c1 ∧
      c_proc c0 = Some 0%nat ∧ c_proc c1 = Some 0%nat.
Proof.
  destruct sigcont_runs_process_twice as (s1 & s2 & s3 & c0 & c1 & Ho0 & H1 & Ho1 & H2 & H3 & ? & ? & ? & ?).
  exists s3. split; [|eauto 10]. apply (reachable_steps _ ex_running).
  - apply reachable_weaken; [by left|]. unfold ex_running.
    destruct (after [LStart 0; LTurn 0]) eqn:Ha; [by eapply after_reachable|apply booted_reachable].
  - eapply rtc_l; [eapply (step_kill _ 0 (Some 0%nat)); [exact Ho0|by right|exact H1]|].
    eapply rtc_l; [eapply step_scheduler_start; [exact Ho1|exact H2]|].
    eapply rtc_once, step_scheduler_turn, H3.
Qed.

(** C23. The process table, in every state the CPUs reach from [userinit] by any
    interleaving of the operations of proc.c ([step]) in which no signal that
    stops or continues a process is sent: used entries have distinct positive
    pids below [nextpid]; a process is in state [RUNNING] exactly if it is the
    process of one CPU, and of one only; every process but init has a parent,
    the parent is a living process, so each zombie has somebody to reap it; and
    init lives.  The exclusion is needed: once processes may send [SIGCONT], a
    state is reached in which two CPUs run the same process. *)
Theorem process_table_invariant :
  (∀ (E : Type) (env : ProcEnv E) (s : sys E), reachable quiet s →
    (∀ i j p q, procs s !! i = Some p → procs s !! j = Some q → state p ≠ UNUSED →
       state q ≠ UNUSED → 0 < pid p < nextpid s ∧ (pid p = pid q → i = j)) ∧
    (∀ i, running (procs s) i ↔ ∃ c cc, cpus s !! c = Some cc ∧ c_proc cc = Some i) ∧
    (∀ c d cc cd i, cpus s !! c = Some cc → cpus s !! d = Some cd →
       c_proc cc = Some i → c_proc cd = Some i → c = d) ∧
    (∀ i p, procs s !! i = Some p → state p = ZOMBIE ∨ alive (state p) → initproc s ≠ Some i →
       ∃ j q, parent p = Some j ∧ procs s !! j = Some q ∧ alive (state q)) ∧
    (∃ i p, initproc s = Some i ∧ procs s !! i = Some p ∧ alive (state p))) ∧
  (∃ s : sys unit, reachable (λ signal, quiet signal ∨ signal = SIGCONT) s ∧
    ∃ c0 c1, cpus s !! 0%nat = Some c0 ∧ cpus s !! 1%nat = Some c1 ∧
      c_proc c0 = Some 0%nat ∧ c_proc c1 = Some 0%nat).
Proof.
  split; [|exact two_cpus_reachable]. intros E env s (T & R & L)%reachable_sinv. split_and!.
  - intros i j p q Hp Hq Hup Huq. split; [by eapply (t_pid _ _ _ _ T)|]. by eapply (t_uniq _ _ _ _ T).
  - apply (r_iff _ _ R).
  - apply (r_uniq _ _ R).
  - intros i p Hp Hst Hi. destruct (t_orphan _ _ _ _ T i p Hp Hst) as [|[j Hj]]; [done|].
    destruct (t_parent _ _ _ _ T i p j Hp Hj) as (_ & _ & q & ? & ?). eauto 10.
  - destruct (t_init _ _ _ _ T) as (i & p & ? & ? & ? & _). eauto.
Qed.

Lemma process_table_invariant_witness :
  ∃ s, reachable quiet s ∧ proc_is s 1 (λ p, bool_decide (state p = ZOMBIE)) = true ∧
    ∃ i p, initproc s = Some i ∧ procs s !! i = Some p ∧ alive (state p).
Proof.
  destruct (option_check (after ex_zombie) (λ s, proc_is s 1 (λ p, bool_decide (state p = ZOMBIE))))
    as (s & Hs & Hz); [vm_compute; reflexivity|].
  exists s. pose proof (after_reachable _ _ Hs) as Hr. split; [exact Hr|]. split; [exact Hz|].
  apply (proj1 process_table_invariant unit unit_env s Hr).
Defined.

(** A signal to every process marks the free entries too, and neither
    [allocproc] nor [fork] clears the mark: after init, which ignores
    [SIGTERM], sends it to everybody, the next child it forks is born killed. *)
Theorem fork_after_kill_all_is_killed :
  ∃ s1 s2 s3 p,
    kernel_attach_signal 0 SIGTERM SIG_IGN ex_running = Ok (SIG_DFL, s1) ∧
    kill 0 (-1) SIGTERM s1 = Ok (0, s2) ∧ fork 0 s2 = Ok (2, s3) ∧
    procs s3 !! 1%nat = Some p ∧ pid p = 2 ∧ state p = RUNNABLE ∧ killed p = 1.
Proof.
  destruct (option_check (state_of (kernel_attach_signal 0 SIGTERM SIG_IGN ex_running)) (λ s1,
    match kernel_attach_signal 0 SIGTERM SIG_IGN ex_running with Ok (r, _) => r =? 0 | _ => false end &&
    match kill 0 (-1) SIGTERM s1 with
    | Ok (r, s2) => (r =? 0) && match fork 0 s2 with
        | Ok (r', s3) => (r' =? 2) && proc_is s3 1 (λ p, (pid p =? 2) && bool_decide (state p = RUNNABLE)
            && (killed p =? 1))
        | _ => false end
    | _ => false end)) as (s1 & H1 & Hb); [vm_compute; reflexivity|].
  apply state_of_Some in H1 as (r & H1). rewrite H1 in Hb.
  apply andb_prop in Hb as [Hr%Z.eqb_eq Hb]. subst r.
  destruct (kill 0 (-1) SIGTERM s1) as [[r2 s2]|] eqn:E2; [|done].
  apply andb_prop in Hb as [Hr%Z.eqb_eq Hb]. subst r2.
  destruct (fork 0 s2) as [[r3 s3]|] eqn:E3; [|done].
  apply andb_prop in Hb as [Hr%Z.eqb_eq Hb]. subst r3.
  apply proc_is_true in Hb as (p & Hp & Hb). apply andb_prop in Hb as [Hb Hk%Z.eqb_eq].
  apply andb_prop in Hb as [Hpid%Z.eqb_eq Hst%bool_decide_eq_true_1].
  exists s1, s2, s3, p. split_and!; assumption.
Qed.
End ProcSys.
