(* ===== verification/Heap.v ===== *)
(** * The Kernighan and Ritchie allocator

    kernel/kalloc.c ([kfree], [morecore], [kmalloc], [krealloc], [kcalloc]) and
    userspace/libc/umalloc.c ([free], [allocate_units], [malloc], [realloc],
    [calloc]) contain the same allocator; they differ in where fresh memory
    comes from and in two checks for null pointers.  This file models the
    allocator over a word-addressed memory, with the source of fresh memory as
    the interface [Core]; [Kalloc] and [Umalloc] instantiate it.

    Blocks are measured in units of [sizeof(Header)], 16 bytes.  A block starts
    with its header: the link of the free list at offset 0 and the size in
    units, header included, at offset 8. *)

From S2P Require Import Prelude.

Module Heap.

Definition UNIT : Z := 16.

(** [words] maps the address of each mapped 8-byte word to its content; [ext]
    is the state of the source of fresh memory. *)
Record heap (E : Type) := mkheap {
  words : gmap Z Z;
  freep : Z;
  ext : E;
}.
Arguments mkheap {E} words freep ext.
Arguments words {E} h.
Arguments freep {E} h.
Arguments ext {E} h.

(** The unit addresses of the block of [n] units at [a]. *)
Definition units (a : Z) (n : nat) : gset Z := list_to_set ((λ i : nat, a + UNIT * i) <$> seq 0 n).

Section alloc.
Context {E : Type}.

Definition set_words (w : gmap Z Z) (h : heap E) : heap E := mkheap w (freep h) (ext h).
Definition set_freep (p : Z) (h : heap E) : heap E := mkheap (words h) p (ext h).

Abbreviation H := (M (heap E)).

Definition load (a : Z) : H Z := w ← gets words; from_option (w !! a).
Definition store (a v : Z) : H unit :=
  _ ← load a; modify (λ h, set_words (<[a := v]> (words h)) h).

(** The loop of [kfree] and [free].  The kernel stops at a null pointer
    ([checked]), the C library dereferences it. *)
Fixpoint free_find (checked : bool) (fuel : nat) (p bp : Z) : H (option Z) :=
  match fuel with
  | O => fail EFuel
  | S fuel =>
      if checked && (p =? 0) then mret None
      else
        nx ← load p;
        if (p <? bp) && (bp <? nx) then mret (Some p)
        else if (nx <=? p) && ((p <? bp) || (bp <? nx)) then mret (Some p)
        else free_find checked fuel nx bp
  end.

(** The rest of [kfree]: link the block [bp] after [p], joining it with its
    neighbours where they touch. *)
Definition join_next (p bp : Z) : H unit :=
  bs ← load (bp + 8);
  pn ← load p;
  if bp + UNIT * bs =? pn then
    s ← load (pn + 8);
    _ ← store (bp + 8) (u64 (bs + s));
    nn ← load pn;
    store bp nn
  else store bp pn.

Definition join_prev (p bp : Z) : H unit :=
  ps ← load (p + 8);
  if p + UNIT * ps =? bp then
    bs ← load (bp + 8);
    _ ← store (p + 8) (u64 (ps + bs));
    bn ← load bp;
    store p bn
  else store p bp.

Definition insert_block (p bp : Z) : H unit :=
  _ ← join_next p bp;
  _ ← join_prev p bp;
  modify (set_freep p).

(** Every node of the free list is a mapped word, so this many iterations
    go once around it. *)
Definition free_block (checked : bool) (ap : Z) : H unit :=
  if ap =? 0 then mret tt
  else
    w ← gets words;
    p ← gets freep;
    r ← free_find checked (S (size w)) p (ap - UNIT);
    match r with
    | None => mret tt
    | Some p => insert_block p (ap - UNIT)
    end.

(** [core nu] obtains fresh memory for at least [nu] units, as an address and
    a number of units. *)
Variable core : Z → H (option (Z * Z)).
Variable checked : bool.
(** The address of the static header [base]. *)
Variable base : Z.

Definition morecore (nu : Z) : H Z :=
  r ← core nu;
  match r with
  | None => mret 0
  | Some (p, n) =>
      _ ← store (p + 8) n;
      _ ← free_block checked (p + UNIT);
      gets freep
  end.

(** [(nbytes + sizeof(Header) - 1) / sizeof(Header) + 1] *)
Definition nunits (nbytes : Z) : Z := u64 (nbytes + UNIT - 1) / UNIT + 1.

(** Take [nu] units from the block [p], which follows [prevp]. *)
Definition carve (prevp p nu : Z) : H Z :=
  s ← load (p + 8);
  b ← (if s =? nu then n ← load p; _ ← store prevp n; mret p
       else
         _ ← store (p + 8) (s - nu);
         let q := p + UNIT * (s - nu) in
         _ ← store (q + 8) nu;
         mret q);
  _ ← modify (set_freep prevp);
  mret (b + UNIT).

Fixpoint malloc_loop (fuel : nat) (prevp p nu : Z) : H Z :=
  match fuel with
  | O => fail EFuel
  | S fuel =>
      if checked && (p =? 0) then mret 0
      else
        s ← load (p + 8);
        if nu <=? s then carve prevp p nu
        else
          f ← gets freep;
          if p =? f then
            q ← morecore nu;
            if q =? 0 then mret 0
            else n ← load q; malloc_loop fuel q n nu
          else n ← load p; malloc_loop fuel p n nu
  end.

Definition malloc_block (fuel : nat) (nbytes : Z) : H Z :=
  if nbytes =? 0 then mret 0
  else
    f ← gets freep;
    _ ← (if f =? 0 then
           _ ← store base base;
           _ ← modify (set_freep base);
           store (base + 8) 0
         else mret tt);
    prevp ← gets freep;
    p ← load prevp;
    malloc_loop fuel prevp p (nunits nbytes).

(** [memcpy] of a multiple of 16 bytes, word by word. *)
Fixpoint copy_words (k : nat) (dst src : Z) : H unit :=
  match k with
  | O => mret tt
  | S k => v ← load src; _ ← store dst v; copy_words k (dst + 8) (src + 8)
  end.

Definition realloc_block (fuel : nat) (ptr size : Z) : H Z :=
  if ptr =? 0 then malloc_block fuel size
  else
    hs ← load (ptr - UNIT + 8);
    let old_size := u64 (hs * UNIT) in
    if size <=? old_size then mret ptr
    else
      q ← malloc_block fuel size;
      if q =? 0 then mret 0
      else
        _ ← copy_words (Z.to_nat (old_size / 8)) q ptr;
        _ ← free_block checked ptr;
        mret q.

Fixpoint clear_words (k : nat) (a : Z) : H unit :=
  match k with
  | O => mret tt
  | S k => _ ← store a 0; clear_words k (a + 8)
  end.

(** [memset(a, 0, n)]: whole words, then the low bytes of the last one. *)
Definition clear_bytes (a n : Z) : H unit :=
  _ ← clear_words (Z.to_nat (n / 8)) a;
  if n mod 8 =? 0 then mret tt
  else
    let q := a + 8 * (n / 8) in
    v ← load q;
    store q (Z.shiftl (Z.shiftr v (8 * (n mod 8))) (8 * (n mod 8))).

Definition calloc_block (fuel : nat) (size : Z) : H Z :=
  p ← malloc_block fuel size;
  if p =? 0 then mret 0
  else _ ← clear_bytes p size; mret p.
End alloc.

(** ** The interface of the source of fresh memory *)

(** [held h] is the set of units the source keeps for later; the allocator
    must leave them alone, and gets them, mapped, one block at a time.  Requests
    of more than [core_max] units are outside the contract. *)
Class CoreLaws {E : Type} (core : Z → M (heap E) (option (Z * Z))) := {
  held : heap E → gset Z;
  core_ok : heap E → Prop;
  core_max : Z;
  core_law h nu : core_ok h → 0 < nu ≤ core_max →
    wp (core nu) (λ r h', core_ok h' ∧ freep h' = freep h ∧
      match r with
      | None => h' = h
      | Some (a, n) => ∃ k : nat, n = k ∧ (0 < k)%nat ∧ 0 < a ∧ a + UNIT * k ≤ 2 ^ 64 ∧ a mod UNIT = 0 ∧
          units a k ⊆ held h ∧ held h' = held h ∖ units a k ∧
          (∀ u, u ∈ units a k → is_Some (words h' !! u) ∧ is_Some (words h' !! (u + 8))) ∧
          (∀ x, (∀ u, u ∈ units a k → x ≠ u ∧ x ≠ u + 8) → words h' !! x = words h !! x)
      end) h;
  held_aligned h u : core_ok h → u ∈ held h → u mod UNIT = 0;
  core_frame h h' : core_ok h → ext h' = ext h →
    (∀ u, u ∈ held h → words h' !! u = words h !! u ∧ words h' !! (u + 8) = words h !! (u + 8)) →
    core_ok h' ∧ held h' = held h;
}.

(** ** Blocks *)

Lemma elem_of_units a n u : u ∈ units a n ↔ ∃ i : nat, (i < n)%nat ∧ u = a + UNIT * i.
Proof.
  unfold units. rewrite elem_of_list_to_set, list_elem_of_fmap. split.
  - intros (i & -> & Hi%elem_of_seq). exists i. split; [lia|done].
  - intros (i & Hi & ->). exists i. split; [done|]. apply elem_of_seq. lia.
Qed.

Lemma units_first a n : (0 < n)%nat → a ∈ units a n.
Proof. intros Hn. apply elem_of_units. exists 0%nat. split; [done|]. cbn. lia. Qed.

Lemma units_mod a n u : a mod UNIT = 0 → u ∈ units a n → u mod UNIT = 0.
Proof.
  intros Ha (i & _ & ->)%elem_of_units. unfold UNIT in *.
  rewrite Z.mul_comm, Z_mod_plus_full. done.
Qed.

Lemma units_split a n m : units a (n + m) = units a n ∪ units (a + UNIT * n) m.
Proof.
  apply set_eq. intros u. rewrite elem_of_union, !elem_of_units. split.
  - intros (i & Hi & ->). destruct (decide (i < n)%nat); [left; by exists i|right].
    exists (i - n)%nat. split; [lia|]. unfold UNIT. lia.
  - intros [(i & Hi & ->)|(i & Hi & ->)]; [exists i; split; [lia|done]|].
    exists (n + i)%nat. split; [lia|]. unfold UNIT. lia.
Qed.

(** Two aligned blocks that share no unit do not overlap as intervals. *)
Lemma units_disjoint a n b m :
  a mod UNIT = 0 → b mod UNIT = 0 → (0 < n)%nat → (0 < m)%nat → units a n ## units b m →
  a + UNIT * n ≤ b ∨ b + UNIT * m ≤ a.
Proof.
  unfold UNIT. intros Ha Hb Hn Hm Hd. apply Z.mod_divide in Ha as [qa ->]; [|done].
  apply Z.mod_divide in Hb as [qb ->]; [|done].
  destruct (decide (qa * 16 + 16 * n ≤ qb * 16)); [by left|right].
  destruct (decide (qb * 16 + 16 * m ≤ qa * 16)); [done|]. exfalso.
  destruct (decide (qa ≤ qb)).
  - apply (Hd (qb * 16)); [|by apply units_first]. apply elem_of_units.
    exists (Z.to_nat (qb - qa)). unfold UNIT. split; lia.
  - apply (Hd (qa * 16)); [by apply units_first|]. apply elem_of_units.
    exists (Z.to_nat (qa - qb)). unfold UNIT. split; lia.
Qed.

(** ** The free list *)

Abbreviation blocks := (list (Z * nat)).

(** [l] is linked in memory from its first block to its last, which links to
    [last]. *)
Fixpoint linked (w : gmap Z Z) (l : blocks) (last : Z) : Prop :=
  match l with
  | [] => True
  | (a, s) :: r =>
      w !! a = Some (match r with [] => last | (b, _) :: _ => b end) ∧
      w !! (a + 8) = Some (Z.of_nat s) ∧ linked w r last
  end.

(** The blocks are in address order, with a gap between each and the next. *)
Fixpoint sorted (lo : Z) (l : blocks) : Prop :=
  match l with
  | [] => True
  | (a, s) :: r => lo < a ∧ sorted (a + UNIT * s) r
  end.

Definition free_units (l : blocks) : gset Z := ⋃ ((λ b : Z * nat, units b.1 b.2) <$> l).

Definition mapped (w : gmap Z Z) (us : gset Z) : Prop :=
  ∀ u, u ∈ us → is_Some (w !! u) ∧ is_Some (w !! (u + 8)).

(** The circular free list, from the static header [base], which is below all
    blocks and has size 0. *)
Record free_list {E} (base : Z) (h : heap E) (l : blocks) : Prop := {
  fl_base : 0 < base ∧ base mod UNIT = 0 ∧ head l = Some (base, 0%nat);
  fl_sorted : sorted (base - 1) l;
  fl_block a (s : nat) : (a, s) ∈ l → a mod UNIT = 0 ∧ a + UNIT * s ≤ 2 ^ 64;
  fl_pos a (s : nat) : (a, s) ∈ tail l → (0 < s)%nat;
  fl_links : linked (words h) l base;
  fl_freep : freep h ∈ l.*1;
  fl_mapped : mapped (words h) (free_units l);
}.

Lemma linked_lookup w l last (i : nat) a (s : nat) :
  linked w l last → l !! i = Some (a, s) →
  w !! a = Some (match l !! S i with Some (b, _) => b | None => last end) ∧
  w !! (a + 8) = Some (Z.of_nat s).
Proof.
  revert i. induction l as [|[b t] l IH]; intros i Hl Hi; [done|].
  destruct Hl as (H1 & H2 & H3). destruct i as [|i].
  - cbn in Hi. injection Hi as -> ->. split; [|done]. rewrite H1. by destruct l as [|[]].
  - by apply (IH i).
Qed.

Lemma linked_app w l1 b l2 last :
  linked w (l1 ++ b :: l2) last ↔ linked w l1 b.1 ∧ linked w (b :: l2) last.
Proof.
  induction l1 as [|[a s] l1 IH]; [cbn; tauto|]. rewrite <- app_comm_cons. cbn [linked].
  rewrite IH. destruct l1 as [|[]]; destruct b; cbn; tauto.
Qed.

Lemma linked_frame w w' l last :
  (∀ a (s : nat), (a, s) ∈ l → w' !! a = w !! a ∧ w' !! (a + 8) = w !! (a + 8)) →
  linked w l last → linked w' l last.
Proof.
  induction l as [|[a s] l IH]; [done|]. intros Hf (H1 & H2 & H3).
  destruct (Hf a s ltac:(left)) as [E1 E2]. cbn. rewrite E1, E2. split_and!; [done..|].
  apply IH; [|done]. intros a' s' Hin. apply (Hf a' s'). by right.
Qed.

Lemma sorted_weaken lo lo' l : lo' ≤ lo → sorted lo l → sorted lo' l.
Proof. destruct l as [|[a s] l]; [done|]. cbn. intros. split; [lia|]. tauto. Qed.

Lemma sorted_elem lo l a (s : nat) : sorted lo l → (a, s) ∈ l → lo < a.
Proof.
  revert lo. induction l as [|[b t] l IH]; intros lo; [by intros _ ?%elem_of_nil|].
  intros [Hlo Hs]. rewrite elem_of_cons. intros [[= -> ->]|Hin]; [done|].
  pose proof (IH _ Hs Hin). unfold UNIT in *. lia.
Qed.

Lemma sorted_lookup lo l (i j : nat) a (s : nat) b (t : nat) :
  sorted lo l → (i < j)%nat → l !! i = Some (a, s) → l !! j = Some (b, t) → a + UNIT * s < b.
Proof.
  revert lo i j. induction l as [|[c u] l IH]; intros lo i j; [done|].
  intros [Hlo Hs] Hij Hi Hj. destruct j as [|j]; [lia|]. cbn in Hj. destruct i as [|i].
  - cbn in Hi. injection Hi as -> ->. eapply sorted_elem; [done|]. by eapply list_elem_of_lookup_2.
  - cbn in Hi. eapply (IH _ i j Hs); [lia|done..].
Qed.

Lemma sorted_app lo l1 a (s : nat) l2 :
  sorted lo (l1 ++ (a, s) :: l2) ↔ sorted lo (l1 ++ [(a, s)]) ∧ sorted (a + UNIT * s) l2.
Proof.
  revert lo. induction l1 as [|[b t] l1 IH]; intros lo; cbn; [tauto|].
  rewrite IH. tauto.
Qed.

Lemma sorted_last lo l1 a s s' : sorted lo (l1 ++ [(a, s)]) → sorted lo (l1 ++ [(a, s')]).
Proof.
  revert lo. induction l1 as [|[b t] l1 IH]; intros lo; cbn; [tauto|].
  intros [? ?%IH]. done.
Qed.

Lemma free_units_app l1 l2 : free_units (l1 ++ l2) = free_units l1 ∪ free_units l2.
Proof. unfold free_units. by rewrite fmap_app, union_list_app_L. Qed.

Lemma free_units_cons a s l : free_units ((a, s) :: l) = units a s ∪ free_units l.
Proof. done. Qed.

Lemma elem_of_free_units l u : u ∈ free_units l ↔ ∃ a (s : nat), (a, s) ∈ l ∧ u ∈ units a s.
Proof.
  unfold free_units. rewrite elem_of_union_list. split.
  - intros (X & ([a s] & -> & Hin)%list_elem_of_fmap & Hu). eauto.
  - intros (a & s & Hin & Hu). exists (units a s). split; [|done].
    apply list_elem_of_fmap. by exists (a, s).
Qed.

(** ** Finding the place of a block *)

Section find.
Context {E : Type} (base : Z) (h : heap E) (l : blocks).
Hypothesis Hfl : free_list base h l.

(** The address of the node after node [i], around the circle. *)
Definition next_addr (i : nat) : Z := match l !! S i with Some (b, _) => b | None => base end.

Lemma fl_node_pos a (s : nat) : (a, s) ∈ l → base ≤ a.
Proof. intros Hin. pose proof (sorted_elem _ _ _ _ (fl_sorted _ _ _ Hfl) Hin). lia. Qed.

Lemma load_next (i : nat) a (s : nat) :
  l !! i = Some (a, s) → load a h = Ok (next_addr i, h).
Proof.
  intros Hi. destruct (linked_lookup _ _ _ _ _ _ (fl_links _ _ _ Hfl) Hi) as [E1 _].
  unfold load. rewrite gets_bind, E1. done.
Qed.

Variables (t : nat) (p bp : Z) (ps : nat).
Hypothesis Ht : l !! t = Some (p, ps).
Hypothesis Hlow : p < bp.
Hypothesis Hhigh : ∀ (j : nat) b (s : nat), (t < j)%nat → l !! j = Some (b, s) → bp < b.

Lemma find_step checked fuel (i : nat) a (s : nat) :
  l !! i = Some (a, s) →
  free_find checked (S fuel) a bp h =
    if decide (i = t) then Ok (Some p, h) else free_find checked fuel (next_addr i) bp h.
Proof.
  intros Hi. pose proof (fl_base _ _ _ Hfl) as (Hb & _ & _).
  assert (base ≤ a) as Ha by (eapply fl_node_pos, list_elem_of_lookup_2; exact Hi).
  assert (base ≤ p) as Hp by (eapply fl_node_pos, list_elem_of_lookup_2; exact Ht).
  cbn [free_find]. rewrite (proj2 (Z.eqb_neq a 0)), andb_false_r by lia.
  rewrite (bind_run _ _ _ _ _ (load_next _ _ _ Hi)). unfold next_addr.
  pose proof (fl_sorted _ _ _ Hfl) as Hs.
  destruct (l !! S i) as [[b u]|] eqn:Hn.
  - pose proof (sorted_lookup _ _ i (S i) _ _ _ _ Hs ltac:(lia) Hi Hn) as Hab.
    rewrite (proj2 (Z.leb_gt b a)) by (unfold UNIT in *; lia). cbn [andb].
    destruct (decide (i = t)) as [->|Hne].
    + rewrite Ht in Hi. injection Hi as -> ->. pose proof (Hhigh (S t) _ _ ltac:(lia) Hn).
      rewrite (proj2 (Z.ltb_lt _ _)), (proj2 (Z.ltb_lt _ _)) by lia. done.
    + destruct (decide (i < t)%nat) as [Hlt|Hge].
      * assert (b ≤ p) as Hbp.
        { destruct (decide (S i = t)) as [<-|]; [rewrite Ht in Hn; injection Hn as -> ->; lia|].
          pose proof (sorted_lookup _ _ (S i) t _ _ _ _ Hs ltac:(lia) Hn Ht). unfold UNIT in *; lia. }
        rewrite (proj2 (Z.ltb_ge bp b)), andb_false_r by lia. done.
      * pose proof (Hhigh i _ _ ltac:(lia) Hi).
        rewrite (proj2 (Z.ltb_ge a bp)) by lia. done.
  - rewrite (proj2 (Z.ltb_ge bp base)), andb_false_r, (proj2 (Z.leb_le base a)), orb_false_r by lia.
    cbn [andb]. destruct (decide (i = t)) as [->|Hne].
    + rewrite Ht in Hi. injection Hi as -> ->. by rewrite (proj2 (Z.ltb_lt _ _)) by lia.
    + assert (t < i)%nat as Hti.
      { apply lookup_ge_None in Hn. apply lookup_lt_Some in Ht. lia. }
      pose proof (Hhigh i _ _ Hti Hi). by rewrite (proj2 (Z.ltb_ge a bp)) by lia.
Qed.

Lemma find_forward checked fuel (i : nat) a (s : nat) :
  l !! i = Some (a, s) → (i ≤ t)%nat → (t - i < fuel)%nat →
  free_find checked fuel a bp h = Ok (Some p, h).
Proof.
  revert i a s. induction fuel as [|fuel IH]; intros i a s Hi Hit Hf; [lia|].
  rewrite (find_step _ _ i a s Hi). case_decide; [done|].
  destruct (lookup_lt_is_Some_2 l (S i)) as [[b u] Hb].
  { apply lookup_lt_Some in Ht. lia. }
  unfold next_addr. rewrite Hb. eapply IH; [done|lia|lia].
Qed.

Lemma find_around checked fuel (i : nat) a (s : nat) :
  l !! i = Some (a, s) → (t < i)%nat → (t + length l - i < fuel)%nat →
  free_find checked fuel a bp h = Ok (Some p, h).
Proof.
  revert i a s. induction fuel as [|fuel IH]; intros i a s Hi Hit Hf; [lia|].
  pose proof (lookup_lt_Some _ _ _ Hi).
  rewrite (find_step _ _ i a s Hi), decide_False by lia. unfold next_addr.
  destruct (l !! S i) as [[b u]|] eqn:Hb.
  - eapply IH; [done|lia|]. lia.
  - destruct (fl_base _ _ _ Hfl) as (_ & _ & Hh). rewrite head_lookup in Hh.
    apply lookup_ge_None in Hb. eapply (find_forward _ _ 0); [done|lia|lia].
Qed.

Lemma find_ok checked fuel q :
  q ∈ l.*1 → (length l < fuel)%nat → free_find checked fuel q bp h = Ok (Some p, h).
Proof.
  intros ([a s] & -> & [i Hi]%list_elem_of_lookup)%list_elem_of_fmap Hf. cbn.
  pose proof (lookup_lt_Some _ _ _ Hi). pose proof (lookup_lt_Some _ _ _ Ht).
  destruct (decide (i ≤ t)%nat); [eapply find_forward; [done|lia|lia]|].
  eapply find_around; [done|lia|lia].
Qed.
End find.

(** The list fits in the mapped words, so the fuel of [free_block] suffices. *)
Lemma sorted_nodup lo l : sorted lo l → NoDup l.*1.
Proof.
  revert lo. induction l as [|[a s] l IH]; intros lo; [constructor|]. intros [Hlo Hs]. cbn.
  constructor; [|by eapply IH]. intros ([b t] & E & Hin)%list_elem_of_fmap. cbn in E. subst b.
  pose proof (sorted_elem _ _ _ _ Hs Hin). unfold UNIT in *. lia.
Qed.

Lemma linked_dom w l last : linked w l last → ∀ a, a ∈ l.*1 → is_Some (w !! a).
Proof.
  intros Hl a ([b s] & -> & [i Hi]%list_elem_of_lookup)%list_elem_of_fmap. cbn.
  destruct (linked_lookup _ _ _ _ _ _ Hl Hi) as [-> _]. eauto.
Qed.

Lemma free_list_fuel {E} base (h : heap E) l : free_list base h l → (length l < S (size (words h)))%nat.
Proof.
  intros Hfl. rewrite <- (length_fmap fst), <- (size_list_to_set (C := gset Z));
    [|eapply sorted_nodup, Hfl].
  rewrite <- (size_dom (D := gset Z)). apply Nat.lt_succ_r, subseteq_size.
  intros a Ha%elem_of_list_to_set. apply elem_of_dom.
  eapply linked_dom; [apply (fl_links _ _ _ Hfl)|done].
Qed.

(** ** Loads and stores *)

Lemma wp_load {E} (h : heap E) a v Q : words h !! a = Some v → Q v h → wp (load a) Q h.
Proof. intros Ha HQ. unfold load. do 2 wp_step. by eapply wp_from_option. Qed.

Lemma wp_store {E} (h : heap E) a v Q :
  is_Some (words h !! a) → Q tt (set_words (<[a := v]> (words h)) h) → wp (store a v) Q h.
Proof.
  intros [x Hx] HQ. unfold store. wp_step. eapply wp_load; [done|]. by apply wp_modify.
Qed.

Lemma aligned_ne a b : a mod UNIT = 0 → b mod UNIT = 0 → a ≠ b + 8.
Proof. unfold UNIT. intros Ha Hb ->. rewrite Zplus_mod, Hb in Ha. done. Qed.

(** ** Inserting a block *)

(** Words that differ only at the header of the block [x]. *)
Definition only_at (x : Z) (w w' : gmap Z Z) : Prop := ∀ y, y ≠ x → y ≠ x + 8 → w' !! y = w !! y.

Lemma only_at_linked x w w' l last :
  x mod UNIT = 0 → only_at x w w' → (∀ a (s : nat), (a, s) ∈ l → a ≠ x ∧ a mod UNIT = 0) →
  linked w l last → linked w' l last.
Proof.
  intros Hx Ho Hl. apply linked_frame. intros a s Hin. destruct (Hl a s Hin) as [Hne Ha].
  split; apply Ho; [done|by apply aligned_ne|apply not_eq_sym; by apply aligned_ne|lia].
Qed.

Section insert.
Context {E : Type} (base : Z) (h : heap E) (l1 l2 : blocks) (p : Z) (ps : nat) (bp : Z) (n : nat).
Hypothesis Hfl : free_list base h (l1 ++ (p, ps) :: l2).
Hypothesis Hal : bp mod UNIT = 0.
Hypothesis Hn : (0 < n)%nat.
Hypothesis Htop : bp + UNIT * n ≤ 2 ^ 64.
Hypothesis Hleft : p < bp ∧ p + UNIT * ps ≤ bp.
Hypothesis Hright : ∀ b s, head l2 = Some (b, s) → bp + UNIT * n ≤ b.
Hypothesis Hhdr : words h !! (bp + 8) = Some (Z.of_nat n).
Hypothesis Hmap : mapped (words h) (units bp n).

(** The list from [bp] on, after the first half of [insert_block]. *)
Definition join_right : nat * blocks :=
  match l2 with
  | (b, s) :: r => if decide (bp + UNIT * n = b) then ((n + s)%nat, r) else (n, l2)
  | [] => (n, [])
  end.

Definition joined : blocks :=
  let '(k, r) := join_right in
  if decide (p + UNIT * ps = bp) then l1 ++ (p, (ps + k)%nat) :: r
  else l1 ++ (p, ps) :: (bp, k) :: r.

Lemma in_align a (s : nat) : (a, s) ∈ l1 ++ (p, ps) :: l2 → a mod UNIT = 0.
Proof. apply Hfl. Qed.

Lemma l1_below a (s : nat) : (a, s) ∈ l1 → a < p.
Proof.
  intros [i Hi]%list_elem_of_lookup. pose proof (lookup_lt_Some _ _ _ Hi).
  assert (a + UNIT * s < p); [|unfold UNIT in *; lia].
  eapply (sorted_lookup _ _ i (length l1)); [apply Hfl|done|by rewrite lookup_app_l|].
  rewrite lookup_app_r, Nat.sub_diag by done. done.
Qed.

Lemma sorted_l2 : sorted (p + UNIT * ps) l2.
Proof. pose proof (fl_sorted _ _ _ Hfl) as Hs. by apply sorted_app in Hs as [_ ?]. Qed.

Lemma l2_above a (s : nat) : (a, s) ∈ l2 → bp + UNIT * n ≤ a.
Proof.
  pose proof sorted_l2 as Hs. destruct l2 as [|[b t] r]; [by intros ?%elem_of_nil|].
  specialize (Hright b t eq_refl). intros Hin. destruct Hs as [_ Hs].
  apply elem_of_cons in Hin as [[= -> ->]|Hin]; [done|].
  pose proof (sorted_elem _ _ _ _ Hs Hin). unfold UNIT in *. lia.
Qed.

Lemma p_aligned : p mod UNIT = 0.
Proof. apply (in_align p ps). set_solver. Qed.

Lemma p_mapped : is_Some (words h !! p) ∧ words h !! (p + 8) = Some (Z.of_nat ps).
Proof.
  pose proof (fl_links _ _ _ Hfl) as Hl. apply linked_app in Hl as [_ (H1 & H2 & _)]. eauto.
Qed.

Lemma bp_mapped : is_Some (words h !! bp) ∧ is_Some (words h !! (bp + 8)).
Proof. apply Hmap. by apply units_first. Qed.

Lemma low_bound : 0 < p.
Proof.
  destruct (fl_base _ _ _ Hfl) as (Hb & _ & _).
  pose proof (sorted_elem _ _ p ps (fl_sorted _ _ _ Hfl) ltac:(set_solver)). lia.
Qed.

Lemma l2_links : linked (words h) l2 base.
Proof. pose proof (fl_links _ _ _ Hfl) as Hl. by apply linked_app in Hl as [_ (_ & _ & ?)]. Qed.

Lemma join_next_ok :
  let '(k, r) := join_right in
  wp (join_next p bp) (λ _ h', h' = set_words (words h') h ∧ only_at bp (words h) (words h') ∧
       linked (words h') ((bp, k) :: r) base) h.
Proof.
  pose proof bp_mapped as [Hb1 Hb2]. pose proof low_bound as Hp0.
  pose proof (fl_links _ _ _ Hfl) as Hl. apply linked_app in Hl as [_ (Hp & _ & Hl2)].
  assert (∀ l' : blocks, (∀ a (s : nat), (a, s) ∈ l' → (a, s) ∈ l2) → ∀ a (s : nat), (a, s) ∈ l' → a ≠ bp ∧ a mod UNIT = 0) as Hsub.
  { intros l' Hl' a s Hin%Hl'. split; [apply l2_above in Hin; unfold UNIT in *; lia|].
    apply (in_align a s). set_solver. }
  unfold join_right, join_next. destruct l2 as [|[b t] r].
  - wp_step. eapply wp_load; [done|]. wp_step. eapply wp_load; [done|].
    destruct (fl_base _ _ _ Hfl) as (Hb0 & _ & _).
    pose proof (sorted_elem _ _ p ps (fl_sorted _ _ _ Hfl) ltac:(set_solver)).
    rewrite (proj2 (Z.eqb_neq _ _)) by (unfold UNIT in *; lia).
    apply wp_store; [done|]. split; [done|]. split.
    + intros y H1 H2. cbn. by rewrite lookup_insert_ne.
    + cbn. rewrite lookup_insert_eq, lookup_insert_ne by lia. done.
  - destruct Hl2 as (Hl2a & Hl2b & Hl2c).
    pose proof (Hright b t eq_refl) as Hbr.
    destruct (fl_block _ _ _ Hfl b t ltac:(set_solver)) as [Hbal Hbtop].
    destruct (Hsub ((b, t) :: r) ltac:(done) b t ltac:(left)) as [Hbne _].
    case_decide as Hd.
    + wp_step. eapply wp_load; [done|]. wp_step. eapply wp_load; [done|].
      rewrite (proj2 (Z.eqb_eq _ _)) by done.
      wp_step. eapply wp_load; [done|]. wp_step. apply wp_store; [done|].
      wp_step. eapply wp_load.
      { cbn. rewrite lookup_insert_ne by (apply not_eq_sym; by apply aligned_ne). exact Hl2a. }
      apply wp_store. { cbn. by rewrite lookup_insert_ne by lia. }
      split; [done|]. split.
      * intros y H1 H2. cbn. by rewrite !lookup_insert_ne by done.
      * cbn [linked set_words words]. rewrite lookup_insert_eq.
        rewrite lookup_insert_ne, lookup_insert_eq by lia.
        split; [done|]. split; [f_equal; rewrite wrap_small; unfold UNIT in *; lia|].
        apply (only_at_linked bp (words h)); [done| | |done].
        { intros y H1 H2. by rewrite !lookup_insert_ne by done. }
        apply Hsub. intros a s Hin. by right.
    + wp_step. eapply wp_load; [done|]. wp_step. eapply wp_load; [done|].
      rewrite (proj2 (Z.eqb_neq _ _)) by done.
      apply wp_store; [done|]. split; [done|].
      assert (only_at bp (words h) (<[bp := b]> (words h))) as Ho.
      { intros y H1 H2. by rewrite lookup_insert_ne. }
      split; [done|]. split; [cbn; by rewrite lookup_insert_eq|].
      split; [cbn; by rewrite lookup_insert_ne by lia|].
      apply (only_at_linked bp (words h)); [done|done| |done]. by apply Hsub.
Qed.

(** What [join_right] leaves to be linked: it covers the same units. *)
Lemma join_right_spec :
  let '(k, r) := join_right in
  (n ≤ k)%nat ∧ bp + UNIT * k ≤ 2 ^ 64 ∧ sorted (bp + UNIT * k) r ∧
  units bp k ∪ free_units r = units bp n ∪ free_units l2 ∧
  ∀ b, b ∈ r → b ∈ l2.
Proof.
  pose proof sorted_l2 as Hs. unfold join_right. destruct l2 as [|[b t] r].
  { split_and!; try done. }
  pose proof (Hright b t eq_refl) as Hb. destruct (fl_block _ _ _ Hfl b t ltac:(set_solver)) as [_ Hbt].
  destruct Hs as [_ Hs]. case_decide as Hd.
  - split_and!; [lia|unfold UNIT in *; lia| |rewrite units_split, Hd, free_units_cons; set_solver|by right].
    replace (bp + UNIT * (n + t)%nat) with (b + UNIT * t) by (unfold UNIT in *; lia). done.
  - split_and!; try done. split; [lia|done].
Qed.

Lemma joined_units : free_units joined = free_units (l1 ++ (p, ps) :: l2) ∪ units bp n.
Proof.
  pose proof join_right_spec as Hj. unfold joined. destruct join_right as [k r].
  destruct Hj as (_ & _ & _ & Hu & _). case_decide as Hd.
  - rewrite !free_units_app, !free_units_cons, units_split, Hd. set_solver.
  - rewrite !free_units_app, !free_units_cons. set_solver.
Qed.

Lemma joined_sorted : sorted (base - 1) joined.
Proof.
  pose proof join_right_spec as Hj. unfold joined. destruct join_right as [k r].
  destruct Hj as (_ & _ & Hs & _ & _). pose proof (fl_sorted _ _ _ Hfl) as Hs0.
  apply sorted_app in Hs0 as [Hs1 _]. case_decide as Hd; apply sorted_app.
  - split; [by eapply sorted_last|].
    replace (p + UNIT * (ps + k)%nat) with (bp + UNIT * k) by (unfold UNIT in *; lia). done.
  - split; [done|]. split; [lia|done].
Qed.

Lemma joined_blocks a (s : nat) : (a, s) ∈ joined → a mod UNIT = 0 ∧ a + UNIT * s ≤ 2 ^ 64.
Proof.
  pose proof join_right_spec as Hj. unfold joined. destruct join_right as [k r].
  destruct Hj as (_ & Ht & _ & _ & Hr). pose proof (fl_block _ _ _ Hfl) as Hb. intros Hin.
  case_decide as Hd; rewrite elem_of_app, !elem_of_cons in Hin.
  - destruct Hin as [Hin|[[= -> ->]|Hin]]; [apply Hb; set_solver| |apply Hb; set_solver].
    split; [apply p_aligned|unfold UNIT in *; lia].
  - destruct Hin as [Hin|[[= -> ->]|[[= -> ->]|Hin]]]; [apply Hb; set_solver|apply Hb; set_solver| |].
    + done.
    + apply Hb. set_solver.
Qed.

Lemma joined_shape : head joined = Some (base, 0%nat) ∧ ∀ a (s : nat), (a, s) ∈ tail joined → (0 < s)%nat.
Proof.
  pose proof join_right_spec as Hj. unfold joined. destruct join_right as [k r].
  destruct Hj as (Hk & _ & _ & _ & Hr). destruct (fl_base _ _ _ Hfl) as (_ & _ & Hh).
  pose proof (fl_pos _ _ _ Hfl) as Hpos. destruct l1 as [|b l1']; cbn in Hh, Hpos |- *.
  - injection Hh as -> ->. rewrite decide_False by (unfold UNIT in *; lia). split; [done|].
    intros a s. cbn. rewrite elem_of_cons. intros [[= -> ->]|Hin%Hr]; [lia|]. eapply Hpos. exact Hin.
  - case_decide; (split; [done|]); intros a s; cbn; rewrite elem_of_app, !elem_of_cons.
    + intros [Hin|[[= -> ->]|Hin%Hr]]; [apply (Hpos a)|lia|apply (Hpos a)]; set_solver.
    + intros [Hin|[[= -> ->]|[[= -> ->]|Hin%Hr]]]; [apply (Hpos a)|apply (Hpos p)|lia|apply (Hpos a)]; set_solver.
Qed.

Lemma joined_freep : p ∈ joined.*1.
Proof.
  unfold joined. destruct join_right as [k r].
  case_decide; rewrite fmap_app; apply elem_of_app; right; left.
Qed.

Lemma insert_block_ok :
  wp (insert_block p bp) (λ _ h', free_list base h' joined ∧ ext h' = ext h ∧
    ∀ x, x ≠ p → x ≠ p + 8 → x ≠ bp → x ≠ bp + 8 → words h' !! x = words h !! x) h.
Proof.
  pose proof join_next_ok as Hnext. pose proof join_right_spec as Hj. pose proof joined_shape as Hsh.
  pose proof joined_sorted as Hso. pose proof joined_blocks as Hbl. pose proof joined_freep as Hfp.
  pose proof joined_units as Hun. pose proof p_aligned as Hpal. pose proof p_mapped as [Hpm Hps].
  unfold joined in *. destruct join_right as [k r]. destruct Hj as (Hk & Hktop & Hsr & _ & Hr).
  assert (p ≠ bp ∧ p ≠ bp + 8 ∧ p + 8 ≠ bp ∧ p + 8 ≠ bp + 8) as (N1 & N2 & N3 & N4).
  { split_and!; [lia|by apply aligned_ne|apply not_eq_sym; by apply aligned_ne|lia]. }
  assert (∀ w', only_at bp (words h) w' → linked w' l1 p) as Hl1.
  { intros w' Ho. pose proof (fl_links _ _ _ Hfl) as Hl. apply linked_app in Hl as [Hl _].
    apply (only_at_linked bp (words h)); [done|done| |done].
    intros a s Hin. split; [apply l1_below in Hin; lia|apply (in_align a s); set_solver]. }
  assert (∀ w w', only_at p w w' → linked w l1 p → linked w' l1 p) as Hl1'.
  { intros w w' Ho. apply (only_at_linked p); [done|done|].
    intros a s Hin. split; [apply l1_below in Hin; lia|apply (in_align a s); set_solver]. }
  assert (∀ w w', only_at p w w' → linked w r base → linked w' r base) as Hr'.
  { intros w w' Ho. apply (only_at_linked p); [done|done|]. intros a s Hin%Hr.
    split; [apply l2_above in Hin; unfold UNIT in *; lia|apply (in_align a s); set_solver]. }
  unfold insert_block. wp_step. eapply wp_mono; [exact Hnext|].
  intros [] h1 (E1 & Ho1 & Hlk & Hlk8 & Hlr). unfold join_prev. wp_step. wp_step. eapply wp_load.
  { rewrite Ho1 by done. exact Hps. }
  assert (∀ w', (∀ y, is_Some (words h !! y) → is_Some (w' !! y)) →
    mapped w' (free_units (l1 ++ (p, ps) :: l2) ∪ units bp n)) as Hmapped.
  { intros w' Hw u [Hu|Hu]%elem_of_union.
    - destruct (fl_mapped _ _ _ Hfl u Hu). split; by apply Hw.
    - destruct (Hmap u Hu). split; by apply Hw. }
  assert (∀ y, is_Some (words h !! y) → is_Some (words h1 !! y)) as Hm1.
  { intros y Hy. destruct (decide (y = bp)) as [->|]; [rewrite Hlk; eauto|].
    destruct (decide (y = bp + 8)) as [->|]; [rewrite Hlk8; eauto|]. by rewrite Ho1. }
  destruct (decide (p + UNIT * ps = bp)) as [Hd|Hd].
  - rewrite (proj2 (Z.eqb_eq _ _)) by done. wp_step. eapply wp_load; [exact Hlk8|].
    wp_step. apply wp_store; [rewrite Ho1 by done; eauto|]. wp_step. eapply wp_load.
    { cbn. rewrite lookup_insert_ne by lia. exact Hlk. }
    apply wp_store. { cbn. rewrite lookup_insert_ne by lia. by rewrite Ho1. }
    apply wp_modify. cbn [words set_words set_freep]. set (w2 := <[p := _]> _).
    assert (only_at p (words h1) w2) as Ho2.
    { intros y H1 H2. unfold w2. by rewrite !lookup_insert_ne by done. }
    split; [split; cbn|split; [cbn; by rewrite E1|]].
    + destruct (fl_base _ _ _ Hfl) as (? & ? & _). split_and!; [done..|apply Hsh].
    + done.
    + done.
    + apply Hsh.
    + apply linked_app. split; [by apply (Hl1' (words h1)), Hl1|]. cbn [linked]. unfold w2 at 1 2.
      rewrite lookup_insert_eq, lookup_insert_ne, lookup_insert_eq by lia.
      split; [done|]. split; [f_equal; rewrite wrap_small; unfold UNIT in *; pose proof low_bound; lia|].
      by apply (Hr' (words h1)).
    + done.
    + rewrite Hun. apply Hmapped. intros y Hy%Hm1. unfold w2. rewrite !lookup_insert. repeat case_decide; eauto.
    + intros x H1 H2 H3 H4. rewrite Ho2 by done. by rewrite Ho1.
  - rewrite (proj2 (Z.eqb_neq _ _)) by done. apply wp_store; [by rewrite Ho1 by done|].
    apply wp_modify. cbn [words set_words set_freep]. set (w2 := <[p := _]> _).
    assert (only_at p (words h1) w2) as Ho2.
    { intros y H1 H2. unfold w2. by rewrite !lookup_insert_ne by done. }
    split; [split; cbn|split; [cbn; by rewrite E1|]].
    + destruct (fl_base _ _ _ Hfl) as (? & ? & _). split_and!; [done..|apply Hsh].
    + done.
    + done.
    + apply Hsh.
    + apply linked_app. split; [by apply (Hl1' (words h1)), Hl1|]. cbn [linked]. unfold w2 at 1 2.
      rewrite lookup_insert_eq, lookup_insert_ne by lia. rewrite Ho1 by done.
      rewrite !Ho2 by done. split_and!; [done..|]. by apply (Hr' (words h1)).
    + done.
    + rewrite Hun. apply Hmapped. intros y Hy%Hm1. unfold w2. rewrite !lookup_insert. repeat case_decide; eauto.
    + intros x H1 H2 H3 H4. rewrite Ho2 by done. by rewrite Ho1.
Qed.
End insert.

(** ** Freeing *)

Lemma split_at lo (l : blocks) bp :
  sorted lo l → (∀ a (s : nat), (a, s) ∈ l → a ≠ bp) →
  ∃ l1 l2, l = l1 ++ l2 ∧ (∀ a (s : nat), (a, s) ∈ l1 → a < bp) ∧ (∀ a (s : nat), (a, s) ∈ l2 → bp < a).
Proof.
  revert lo. induction l as [|[a s] l IH]; intros lo Hs Hne.
  { exists [], []. split_and!; [done|by intros ? ? ?%elem_of_nil..]. }
  destruct Hs as [Hlo Hs]. destruct (decide (a < bp)) as [Hlt|Hge].
  - destruct (IH _ Hs) as (l1 & l2 & -> & H1 & H2); [intros b t Hin; apply (Hne b t); by right|].
    exists ((a, s) :: l1), l2. split_and!; [done| |done].
    intros b t [[= -> ->]|Hin]%elem_of_cons; [done|by apply (H1 b t)].
  - exists [], ((a, s) :: l). split_and!; [done|by intros ? ? ?%elem_of_nil|].
    intros b t [[= -> ->]|Hin]%elem_of_cons.
    + pose proof (Hne a s ltac:(left)). lia.
    + pose proof (sorted_elem _ _ _ _ Hs Hin). unfold UNIT in *. lia.
Qed.

(** The words of the units [us], and the header of [base], may change. *)
Definition only_in (base : Z) (us : gset Z) (w w' : gmap Z Z) : Prop :=
  ∀ x, x ≠ base → x ≠ base + 8 → (∀ u, u ∈ us → x ≠ u ∧ x ≠ u + 8) → w' !! x = w !! x.

Lemma node_units {E} base (h : heap E) l a (s : nat) :
  free_list base h l → (a, s) ∈ l → a = base ∨ a ∈ free_units l.
Proof.
  intros Hfl Hin. destruct (fl_base _ _ _ Hfl) as (_ & _ & Hh). destruct l as [|b l]; [done|].
  cbn in Hh. injection Hh as ->. apply elem_of_cons in Hin as [[= -> ->]|Hin]; [by left|right].
  apply elem_of_free_units. exists a, s. split; [by right|].
  apply units_first. by apply (fl_pos _ _ _ Hfl a).
Qed.

(** A block to be freed is apart from every block of the list. *)
Lemma block_apart {E} base (h : heap E) l bp (n : nat) a (s : nat) :
  free_list base h l → bp mod UNIT = 0 → (0 < n)%nat → base < bp → units bp n ## free_units l →
  (a, s) ∈ l → a ≠ bp ∧ (a < bp → a + UNIT * s ≤ bp) ∧ (bp < a → bp + UNIT * n ≤ a).
Proof.
  intros Hfl Hal Hn Hb Hd Hin. destruct (fl_block _ _ _ Hfl a s Hin) as [Ha _].
  destruct (decide (s = 0%nat)) as [->|Hs].
  - assert (a = base) as ->.
    { destruct (fl_base _ _ _ Hfl) as (_ & _ & Hh). destruct l as [|b l]; [done|].
      cbn in Hh. injection Hh as ->. apply elem_of_cons in Hin as [[= ->]|Hin]; [done|].
      apply (fl_pos _ _ _ Hfl) in Hin. lia. }
    unfold UNIT. lia.
  - assert (units a s ## units bp n) as Hd'.
    { intros u Hu1 Hu2. apply (Hd u Hu2). apply elem_of_free_units. eauto. }
    destruct (units_disjoint a s bp n Ha Hal ltac:(lia) Hn Hd'); unfold UNIT in *; lia.
Qed.

Lemma free_block_ok {E} checked base (h : heap E) l bp n :
  free_list base h l → bp mod UNIT = 0 → (0 < n)%nat → base < bp → bp + UNIT * n ≤ 2 ^ 64 →
  units bp n ## free_units l → words h !! (bp + 8) = Some (Z.of_nat n) → mapped (words h) (units bp n) →
  wp (free_block checked (bp + UNIT)) (λ _ h', ∃ l', free_list base h' l' ∧
    free_units l' = free_units l ∪ units bp n ∧ ext h' = ext h ∧
    only_in base (free_units l') (words h) (words h')) h.
Proof.
  intros Hfl Hal Hn Hb Htop Hd Hhdr Hmap.
  assert (∀ a (s : nat), (a, s) ∈ l → a ≠ bp ∧ (a < bp → a + UNIT * s ≤ bp) ∧ (bp < a → bp + UNIT * n ≤ a)) as Hapart.
  { intros a s. by apply (block_apart base h). }
  destruct (split_at _ _ bp (fl_sorted _ _ _ Hfl)) as (lo & l2 & El & Hlo & Hhi).
  { intros a s Hin. by apply (Hapart a s). }
  destruct lo as [|x l1 _] using rev_ind.
  { exfalso. destruct (fl_base _ _ _ Hfl) as (_ & _ & Hh). subst l. cbn in Hh.
    destruct l2 as [|[b t] l2]; [done|]. cbn in Hh. injection Hh as -> ->.
    pose proof (Hhi base 0%nat ltac:(left)). lia. }
  destruct x as [p ps]. rewrite <- app_assoc in El. cbn in El. subst l.
  assert (p < bp) as Hp by (apply (Hlo p ps); set_solver).
  destruct (fl_base _ _ _ Hfl) as (Hb0 & _ & _).
  unfold free_block. rewrite (proj2 (Z.eqb_neq _ _)) by (unfold UNIT; lia).
  replace (bp + UNIT - UNIT) with bp by lia. do 4 wp_step. wp_step.
  apply wp_run. do 2 eexists. split.
  { eapply (find_ok base h _ Hfl (length l1) p bp ps).
    - rewrite lookup_app_r, Nat.sub_diag by done. done.
    - done.
    - intros j b s Hj Hjb. apply (Hhi b s). rewrite lookup_app_r in Hjb by lia.
      destruct (j - length l1)%nat as [|i] eqn:Ej; [lia|]. cbn in Hjb. by eapply list_elem_of_lookup_2.
    - apply Hfl.
    - by eapply free_list_fuel. }
  assert (p < bp ∧ p + UNIT * ps ≤ bp) as Hleft.
  { split; [done|]. apply (Hapart p ps); [set_solver|done]. }
  assert (∀ b s, head l2 = Some (b, s) → bp + UNIT * n ≤ b) as Hright.
  { intros b s Hh. destruct l2 as [|y l2']; [done|]. cbn in Hh. injection Hh as ->.
    apply (Hapart b s); [set_solver|]. apply (Hhi b s). left. }
  eapply wp_mono; [by apply (insert_block_ok base h l1 l2 p ps bp n)|].
  intros [] h' (Hfl' & Hext & Hsame). eexists. split; [exact Hfl'|].
  rewrite (joined_units base h) by done. split_and!; [done|done|]. intros x H1 H2 Hx.
  destruct (Hx bp) as [? ?]. { apply elem_of_union_r. by apply units_first. }
  destruct (node_units _ _ _ p ps Hfl ltac:(set_solver)) as [->|Hpu]; [by apply Hsame|].
  destruct (Hx p ltac:(set_solver)). by apply Hsame.
Qed.

(** ** Taking a block from the free list *)

Lemma units_bounds a (n : nat) u : u ∈ units a n → a ≤ u ∧ u + UNIT ≤ a + UNIT * n.
Proof. intros (i & Hi & ->)%elem_of_units. unfold UNIT. lia. Qed.

Lemma sorted_before lo l1 a (s : nat) l2 b (t : nat) :
  sorted lo (l1 ++ (a, s) :: l2) → (b, t) ∈ l1 → b + UNIT * t < a.
Proof.
  intros Hs [i Hi]%list_elem_of_lookup. pose proof (lookup_lt_Some _ _ _ Hi).
  eapply (sorted_lookup _ _ i (length l1)); [done|done|by rewrite lookup_app_l|].
  rewrite lookup_app_r, Nat.sub_diag by done. done.
Qed.

Lemma sorted_after lo l1 a (s : nat) l2 b (t : nat) :
  sorted lo (l1 ++ (a, s) :: l2) → (b, t) ∈ l2 → a + UNIT * s < b.
Proof. intros [_ Hs]%sorted_app Hin. by eapply sorted_elem. Qed.

Lemma sorted_units_disjoint lo l1 a (s : nat) l2 :
  sorted lo (l1 ++ (a, s) :: l2) → units a s ## free_units l1 ∪ free_units l2.
Proof.
  intros Hs u Hu%units_bounds [Hv|Hv]%elem_of_union;
    apply elem_of_free_units in Hv as (b & t & Hin & Hv%units_bounds).
  - pose proof (sorted_before _ _ _ _ _ _ _ Hs Hin). unfold UNIT in *. lia.
  - pose proof (sorted_after _ _ _ _ _ _ _ Hs Hin). unfold UNIT in *. lia.
Qed.

Section carve.
Context {E : Type} (base : Z) (h : heap E) (l1 l2 : blocks) (q : Z) (qs : nat) (p : Z) (s nu : nat).
Hypothesis Hfl : free_list base h (l1 ++ (q, qs) :: (p, s) :: l2).
Hypothesis Hnu : (0 < nu ≤ s)%nat.

(** What is left of the list, and the block taken. *)
Definition carved : blocks :=
  if decide (s = nu) then l1 ++ (q, qs) :: l2
  else l1 ++ (q, qs) :: (p, (s - nu)%nat) :: l2.
Definition taken : Z := p + UNIT * (s - nu)%nat.

Lemma carve_align : p mod UNIT = 0 ∧ q mod UNIT = 0 ∧ taken mod UNIT = 0 ∧ p + UNIT * s ≤ 2 ^ 64.
Proof.
  destruct (fl_block _ _ _ Hfl p s ltac:(set_solver)) as [Hp Ht].
  destruct (fl_block _ _ _ Hfl q qs ltac:(set_solver)) as [Hq _]. split_and!; try done.
  unfold taken, UNIT in *. by rewrite Z.mul_comm, Z_mod_plus_full.
Qed.

Lemma carve_order : base ≤ q ∧ q < p.
Proof.
  pose proof (fl_sorted _ _ _ Hfl) as Hs.
  pose proof (sorted_elem _ _ q qs Hs ltac:(set_solver)).
  pose proof (sorted_after _ _ _ _ _ p s Hs ltac:(left)). unfold UNIT in *. lia.
Qed.

Lemma carved_units :
  free_units (l1 ++ (q, qs) :: (p, s) :: l2) = units taken nu ∪ free_units carved ∧
  units taken nu ## free_units carved.
Proof.
  pose proof (fl_sorted _ _ _ Hfl) as Hs.
  change (l1 ++ (q, qs) :: (p, s) :: l2) with (l1 ++ [(q, qs)] ++ (p, s) :: l2) in Hs |- *.
  rewrite app_assoc in Hs |- *. pose proof (sorted_units_disjoint _ _ _ _ _ Hs) as Hd.
  assert (units p s = units p (s - nu) ∪ units taken nu) as Eu.
  { unfold taken. rewrite <- units_split. f_equal. lia. }
  assert (units p (s - nu) ## units taken nu) as Hd2.
  { intros u H1%units_bounds H2%units_bounds. unfold taken, UNIT in *. lia. }
  rewrite (free_units_app (l1 ++ _)), (free_units_cons p), Eu in *. unfold carved.
  rewrite free_units_app, free_units_cons in Hd |- *. cbn [free_units fmap list_fmap union_list] in Hd |- *.
  case_decide as Hc.
  - replace (s - nu)%nat with 0%nat in * by lia. change (units p 0) with (∅ : gset Z) in *.
    rewrite free_units_app, free_units_cons. set_solver.
  - rewrite free_units_app, !free_units_cons. set_solver.
Qed.

Lemma carved_sorted : sorted (base - 1) carved.
Proof.
  pose proof (fl_sorted _ _ _ Hfl) as Hs. apply sorted_app in Hs as [Hs1 [Hs2 Hs3]].
  unfold carved. case_decide; apply sorted_app; (split; [done|]).
  - eapply sorted_weaken; [|exact Hs3]. unfold UNIT in *. lia.
  - split; [done|]. eapply sorted_weaken; [|exact Hs3]. unfold UNIT in *. lia.
Qed.

Lemma carved_blocks :
  head carved = Some (base, 0%nat) ∧
  (∀ a (t : nat), (a, t) ∈ tail carved → (0 < t)%nat) ∧
  (∀ a (t : nat), (a, t) ∈ carved → a mod UNIT = 0 ∧ a + UNIT * t ≤ 2 ^ 64) ∧
  q ∈ carved.*1.
Proof.
  destruct (fl_base _ _ _ Hfl) as (_ & _ & Hh). pose proof (fl_pos _ _ _ Hfl) as Hpos.
  pose proof (fl_block _ _ _ Hfl) as Hbl. pose proof carve_align as (Hp & _ & _ & Hpt).
  assert (∀ a (t : nat), (a, t) ∈ carved → (a, t) ∈ l1 ++ (q, qs) :: (p, s) :: l2 ∨ (a = p ∧ t = (s - nu)%nat)) as Hin.
  { intros a t. unfold carved. case_decide; rewrite !elem_of_app, !elem_of_cons; naive_solver. }
  split_and!.
  - unfold carved. case_decide; by destruct l1.
  - intros a t. unfold carved. destruct l1 as [|x l1']; cbn in Hpos |- *.
    + case_decide; cbn; [intros Hi; apply (Hpos a); set_solver|].
      rewrite elem_of_cons. intros [[= -> ->]|Hi]; [lia|apply (Hpos a); set_solver].
    + case_decide; cbn; [intros Hi; apply (Hpos a); set_solver|].
      rewrite elem_of_app, !elem_of_cons. intros [Hi|[Hi|[[= -> ->]|Hi]]]; [| |lia|]; apply (Hpos a); set_solver.
  - intros a t [Hi|[-> ->]]%Hin; [by apply Hbl|]. split; [done|]. unfold UNIT in *. lia.
  - unfold carved. case_decide; rewrite fmap_app; apply elem_of_app; right; left.
Qed.

Lemma carve_ok :
  wp (carve q p nu) (λ r h', r = taken + UNIT ∧ free_list base h' carved ∧ ext h' = ext h ∧
    words h' !! (taken + 8) = Some (Z.of_nat nu) ∧
    (∀ y, is_Some (words h !! y) → is_Some (words h' !! y)) ∧
    only_in base (free_units (l1 ++ (q, qs) :: (p, s) :: l2)) (words h) (words h')) h.
Proof.
  pose proof carve_align as (Hpa & Hqa & Hta & Hptop). pose proof carve_order as [Hbq Hqp].
  pose proof carved_units as [Hun Hdisj]. pose proof carved_sorted as Hso.
  pose proof carved_blocks as (Hh & Hpos & Hbl & Hq). pose proof (fl_sorted _ _ _ Hfl) as Hs0.
  destruct (fl_base _ _ _ Hfl) as (Hb0 & Hba & _). pose proof (fl_mapped _ _ _ Hfl) as Hmap.
  pose proof (fl_links _ _ _ Hfl) as Hl. apply linked_app in Hl as [Hl1 (Hq0 & Hq8 & Hp0 & Hp8 & Hl2)].
  assert (p ∈ free_units (l1 ++ (q, qs) :: (p, s) :: l2)) as Hpu.
  { apply elem_of_free_units. exists p, s. split; [set_solver|]. apply units_first. lia. }
  assert (taken ∈ free_units (l1 ++ (q, qs) :: (p, s) :: l2)) as Htu.
  { rewrite Hun. apply elem_of_union_l, units_first. lia. }
  assert (∀ a (t : nat), (a, t) ∈ l2 → p + UNIT * s < a) as Hl2p.
  { apply sorted_app in Hs0 as [_ [_ Hs2]]. intros a t Hi. by eapply sorted_elem. }
  unfold carve. wp_step. eapply wp_load; [exact Hp8|]. unfold carved in *.
  destruct (decide (s = nu)) as [->|Hne].
  - rewrite Z.eqb_refl. assert (taken = p) as -> by (unfold taken, UNIT; lia).
    wp_step. wp_step. eapply wp_load; [exact Hp0|]. wp_step. apply wp_store; [eauto|]. wp_step.
    do 2 wp_step. apply wp_ret. cbn [words set_words set_freep]. set (w := <[q := _]> _).
    assert (only_at q (words h) w) as Ho by (intros y H1 H2; unfold w; by rewrite lookup_insert_ne).
    split; [done|]. split; [split; cbn; try done|split_and!; [done|cbn; unfold w; rewrite lookup_insert_ne;
      [done|apply aligned_ne; done]|cbn; unfold w; intros y Hy; rewrite lookup_insert; case_decide; eauto|]].
    + apply linked_app. split.
      * eapply (only_at_linked q); [done|done| |exact Hl1]. intros a t Hi.
        split; [pose proof (sorted_before _ _ _ _ _ _ _ Hs0 Hi); unfold UNIT in *; lia|].
        apply (fl_block _ _ _ Hfl a t). set_solver.
      * cbn [linked]. unfold w at 1 2. rewrite lookup_insert_eq, lookup_insert_ne by lia. split_and!; [done..|].
        eapply (only_at_linked q); [done|done| |exact Hl2]. intros a t Hi.
        split; [pose proof (Hl2p a t Hi); unfold UNIT in *; lia|].
        apply (fl_block _ _ _ Hfl a t). set_solver.
    + intros u Hu. rewrite Hun in Hmap. destruct (Hmap u ltac:(set_solver)). unfold w.
      rewrite !lookup_insert. repeat case_decide; eauto.
    + intros x H1 H2 Hx. cbn. destruct (node_units _ _ _ q qs Hfl ltac:(set_solver)) as [->|Hqu]; [by apply Ho|].
      destruct (Hx q Hqu). by apply Ho.
  - rewrite (proj2 (Z.eqb_neq _ _)) by lia. wp_step. wp_step. apply wp_store; [eauto|].
    replace (p + UNIT * (s - nu)) with taken by (unfold taken; lia).
    wp_step. apply wp_store. { cbn. rewrite lookup_insert. case_decide; [eauto|]. by destruct (Hmap taken Htu). }
    wp_step. do 2 wp_step. apply wp_ret. cbn [words set_words set_freep]. set (w := <[taken + 8 := _]> _).
    assert (taken ≠ p) as Htp by (unfold taken, UNIT; lia).
    assert (q < taken) as Hqt by (unfold taken, UNIT; lia).
    set (w1 := <[p + 8 := _]> (words h)) in w.
    assert (only_at p (words h) w1) as Ho1 by (intros y H1 H2; unfold w1; by rewrite lookup_insert_ne).
    assert (only_at taken w1 w) as Ho2 by (intros y H1 H2; unfold w; by rewrite lookup_insert_ne).
    assert (∀ a, a ≠ p → a ≠ taken → a mod UNIT = 0 → w !! a = words h !! a ∧ w !! (a + 8) = words h !! (a + 8)) as Hsame.
    { intros a H1 H2 H3. rewrite !Ho2, !Ho1; try done; try lia; try (by apply aligned_ne);
        apply not_eq_sym; by apply aligned_ne. }
    split; [done|]. split; [split; cbn; try done|split_and!; [done|cbn; unfold w; by rewrite lookup_insert_eq|
      cbn; unfold w, w1; intros y Hy; rewrite !lookup_insert; repeat case_decide; eauto|]].
    + apply linked_app. split.
      * eapply linked_frame; [|exact Hl1]. intros a t Hi. apply Hsame.
        -- pose proof (sorted_before _ _ _ _ _ _ _ Hs0 Hi). unfold UNIT in *. lia.
        -- pose proof (sorted_before _ _ _ _ _ _ _ Hs0 Hi). unfold UNIT in *. lia.
        -- apply (fl_block _ _ _ Hfl a t). set_solver.
      * cbn [linked]. destruct (Hsame q ltac:(lia) ltac:(lia) Hqa) as [-> ->].
        split; [done|]. split; [done|].
        unfold w at 1 2, w1 at 1 2. rewrite (lookup_insert_ne _ (taken + 8) (p + 8)) by lia.
        rewrite (lookup_insert_ne _ (taken + 8) p), (lookup_insert_ne _ (p + 8) p), lookup_insert_eq
          by (try lia; apply not_eq_sym; by apply aligned_ne).
        split; [done|]. split; [f_equal; lia|].
        eapply linked_frame; [|exact Hl2]. intros a t Hi. pose proof (Hl2p a t Hi).
        apply Hsame; [unfold UNIT in *; lia|unfold taken, UNIT in *; lia|].
        apply (fl_block _ _ _ Hfl a t). set_solver.
    + intros u Hu. rewrite Hun in Hmap. destruct (Hmap u ltac:(set_solver)). unfold w, w1.
      rewrite !lookup_insert. repeat case_decide; eauto.
    + intros x H1 H2 Hx. destruct (Hx p Hpu), (Hx taken Htu). cbn. rewrite Ho2 by done. by apply Ho1.
Qed.
End carve.
End Heap.
