(* ===== verification/HeapAlloc.v ===== *)
(** * Allocation with the K&R allocator

    The proof that [Heap.malloc_block] returns, with a block carved out of the
    memory the allocator owns or with 0, from any source of fresh memory that
    satisfies [Heap.CoreLaws]. *)

From S2P Require Import Prelude Heap.

Module HeapAlloc.

Import Heap.

(** ** Allocating *)

Section malloc.
Context {E : Type} (core : Z → M (heap E) (option (Z * Z))) {laws : CoreLaws core}.
Context (checked : bool) (base : Z).

(** The allocator between calls: a free list apart from what the source of
    fresh memory holds, all above [base]. *)
Record heap_inv (h : heap E) (l : blocks) : Prop := {
  hi_list : free_list base h l;
  hi_core : core_ok h;
  hi_disj : free_units l ## held h;
  hi_above u : u ∈ held h → base < u;
}.

(** All the memory the allocator can hand out. *)
Definition pool (h : heap E) (l : blocks) : gset Z := free_units l ∪ held h.

Lemma free_units_aligned (h : heap E) l u : free_list base h l → u ∈ free_units l → u mod UNIT = 0.
Proof.
  intros Hfl (a & s & Hin & Hu)%elem_of_free_units. eapply units_mod; [|done].
  by apply (fl_block _ _ _ Hfl a s).
Qed.

(** Changes within the free units and [base] do not concern the source. *)
Lemma frame_core h l (us : gset Z) (h' : heap E) :
  heap_inv h l → ext h' = ext h → only_in base us (words h) (words h') → us ## held h →
  (∀ u, u ∈ us → u mod UNIT = 0) → core_ok h' ∧ held h' = held h.
Proof.
  intros [Hfl Hok _ Hab] He Ho Hd Hal. apply core_frame; [done|done|]. intros u Hu.
  pose proof (held_aligned _ _ Hok Hu) as Hua. pose proof (Hab u Hu) as Hbu.
  destruct (fl_base _ _ _ Hfl) as (_ & Hba & _).
  split; apply Ho.
  - lia.
  - by apply aligned_ne.
  - intros v Hv. split; [set_solver|]. apply aligned_ne; auto.
  - apply not_eq_sym. by apply aligned_ne.
  - lia.
  - intros v Hv. split; [apply not_eq_sym, aligned_ne; auto|].
    intros Euv. assert (u = v) as -> by lia. set_solver.
Qed.

Lemma only_in_mono b (us us' : gset Z) w w' : us ⊆ us' → only_in b us w w' → only_in b us' w w'.
Proof. intros Hs Ho x H1 H2 Hx. apply Ho; [done..|]. intros u Hu. apply Hx. set_solver. Qed.

Lemma only_in_trans b us w1 w2 w3 : only_in b us w1 w2 → only_in b us w2 w3 → only_in b us w1 w3.
Proof. intros H1 H2 x ???. rewrite H2 by done. by apply H1. Qed.

(** The result of a request for [nu] units. *)
Definition malloc_post (h : heap E) (l : blocks) (nu : nat) (r : Z) (h' : heap E) : Prop :=
  ∃ l', heap_inv h' l' ∧ only_in base (pool h l) (words h) (words h') ∧
    ((r = 0 ∧ pool h' l' = pool h l) ∨
     (∃ b, r = b + UNIT ∧ base < b ∧ b mod UNIT = 0 ∧ b + UNIT * nu ≤ 2 ^ 64 ∧
        words h' !! (b + 8) = Some (Z.of_nat nu) ∧ mapped (words h') (units b nu) ∧
        pool h l = units b nu ∪ pool h' l' ∧ units b nu ## pool h' l')).

Lemma carve_post h l1 q qs p (s nu : nat) l2 :
  heap_inv h (l1 ++ (q, qs) :: (p, s) :: l2) → (0 < nu ≤ s)%nat →
  wp (carve q p nu) (malloc_post h (l1 ++ (q, qs) :: (p, s) :: l2) nu) h.
Proof.
  intros Hinv Hnu. pose proof Hinv as [Hfl Hok Hd Hab].
  eapply wp_mono; [by apply (carve_ok base h l1 l2 q qs p s nu)|].
  intros r h' (-> & Hfl' & He & Hw & Hmono & Ho). pose proof (carved_units _ _ _ _ _ _ _ _ _ Hfl Hnu) as [Hu Hud].
  pose proof (carve_align _ _ _ _ _ _ _ _ nu Hfl Hnu) as (_ & _ & Hta & Htop).
  pose proof (carve_order _ _ _ _ _ _ _ _ _ Hfl Hnu) as [Hbq Hqp].
  destruct (frame_core _ _ _ h' Hinv He Ho Hd) as [Hok' Hh'].
  { intros u. by apply (free_units_aligned h). }
  exists (carved l1 l2 q qs p s nu). split; [|split].
  - split; [done|done| |by rewrite Hh']. rewrite Hh'. set_solver.
  - eapply only_in_mono; [|done]. unfold pool. set_solver.
  - right. exists (taken p s nu). unfold pool. rewrite Hh'.
    split_and!; [done| |done| |done| | |].
    + unfold taken, UNIT. lia.
    + unfold taken, UNIT in *. lia.
    + intros u Hun. assert (u ∈ free_units (l1 ++ (q, qs) :: (p, s) :: l2)) as Hin by set_solver.
      destruct (fl_mapped _ _ _ Hfl u Hin) as [Hm1 Hm2]. split; by apply Hmono.
    + set_solver.
    + set_solver.
Qed.

(** [morecore] moves a block from the source to the free list. *)
Lemma morecore_ok h l nu :
  heap_inv h l → 0 < nu ≤ core_max →
  wp (morecore core checked nu) (λ r h',
    (r = 0 ∧ h' = h) ∨
    (∃ l', heap_inv h' l' ∧ r = freep h' ∧ pool h' l' = pool h l ∧
       (size (held h') < size (held h))%nat ∧ only_in base (pool h l) (words h) (words h'))) h.
Proof.
  intros Hinv Hnu. pose proof Hinv as [Hfl Hok Hd Hab]. unfold morecore. wp_step.
  eapply wp_mono; [by apply core_law|]. intros [[a n]|] h1 (Hok1 & Hf1 & H1); [|apply wp_ret; by left].
  destruct H1 as (k & -> & Hk & Ha0 & Htop & Hal & Hsub & Hheld & Hmap & Hsame).
  destruct (fl_base _ _ _ Hfl) as (Hb0 & Hba & Hhd).
  assert (base < a) as Hba' by (apply Hab, Hsub, units_first; done).
  assert (free_units l ## units a k) as Hda by set_solver.
  wp_step. apply wp_store. { apply Hmap. by apply units_first. }
  set (h2 := set_words (<[a + 8 := Z.of_nat k]> (words h1)) h1).
  assert (∀ x, x ≠ a + 8 → words h2 !! x = words h1 !! x) as Hw2.
  { intros x Hx. cbn. by rewrite lookup_insert_ne. }
  assert (∀ x, x mod UNIT = 0 → x ∉ units a k →
    words h2 !! x = words h !! x ∧ words h2 !! (x + 8) = words h !! (x + 8)) as Hold.
  { intros x Hx Hnin. assert (x ≠ a) by (intros ->; by apply Hnin, units_first).
    rewrite !Hw2 by (lia || by apply aligned_ne).
    split; apply Hsame; intros u Hu; pose proof (units_mod _ _ _ Hal Hu) as Hum.
    - split; [by intros ->|by apply aligned_ne].
    - split; [apply not_eq_sym; by apply aligned_ne|]. intros Eu. assert (x = u) as -> by lia. done. }
  assert (free_list base h2 l) as Hfl2.
  { split; try apply Hfl.
    - eapply linked_frame; [|apply (fl_links _ _ _ Hfl)]. intros b s Hin.
      destruct (fl_block _ _ _ Hfl b s Hin) as [Hbal _]. apply Hold; [done|].
      destruct (node_units _ _ _ _ _ Hfl Hin) as [->|Hu]; [|set_solver].
      intros Hu. apply units_bounds in Hu. lia.
    - cbn. rewrite Hf1. apply Hfl.
    - intros u Hu. destruct (Hold u) as [-> ->]; [by apply (free_units_aligned h l)|set_solver|].
      by apply (fl_mapped _ _ _ Hfl). }
  assert (core_ok h2 ∧ held h2 = held h1) as [Hok2 Hh2].
  { apply core_frame; [done|done|]. intros u Hu. pose proof (held_aligned _ _ Hok1 Hu) as Hua.
    rewrite Hheld in Hu. rewrite !Hw2; [done| |by apply aligned_ne].
    intros Eu. assert (u = a) as -> by lia. apply elem_of_difference in Hu as [_ Hu]. by apply Hu, units_first. }
  assert (heap_inv h2 l) as Hinv2.
  { split; [done|done|rewrite Hh2, Hheld; set_solver|]. intros u. rewrite Hh2, Hheld. set_solver. }
  wp_step. eapply wp_mono.
  { apply (free_block_ok checked base h2 l a k Hfl2 Hal Hk Hba' Htop); [set_solver|cbn; by rewrite lookup_insert_eq|].
    intros u Hu. destruct (Hmap u Hu). cbn. rewrite !lookup_insert. repeat case_decide; eauto. }
  intros [] h3 (l' & Hfl3 & Hfu & Hext & Ho). apply wp_gets. right. exists l'.
  destruct (frame_core h2 l (free_units l') h3 Hinv2 Hext Ho) as [Hok3 Hh3].
  { rewrite Hh2, Hheld, Hfu. set_solver. }
  { intros u. by apply (free_units_aligned h3 l'). }
  rewrite Hh2, Hheld in Hh3.
  assert (pool h3 l' = pool h l) as Hpool.
  { unfold pool. rewrite Hh3, Hfu. apply set_eq. intros u. destruct (decide (u ∈ units a k)); set_solver. }
  split; [|split; [done|split; [done|split]]].
  - split; [done|done|rewrite Hh3, Hfu; set_solver|rewrite Hh3; set_solver].
  - rewrite Hh3. apply subset_size. split; [set_solver|]. intros Hc.
    pose proof (Hc a (Hsub _ (units_first _ _ Hk))) as Hin. apply elem_of_difference in Hin as [_ Hin].
    by apply Hin, units_first.
  - intros x Hx1 Hx2 Hx. rewrite Ho; [|done|done|]; cycle 1.
    { intros u Hu. apply Hx. unfold pool. rewrite Hfu in Hu. set_solver. }
    rewrite Hw2; [|by destruct (Hx a) as [_ ?]; [unfold pool; pose proof (units_first a k Hk); set_solver|]].
    apply Hsame. intros u Hu. apply Hx. unfold pool. set_solver.
Qed.

Lemma post_weaken h l nu h' l' r h'' :
  pool h' l' = pool h l → only_in base (pool h l) (words h) (words h') →
  malloc_post h' l' nu r h'' → malloc_post h l nu r h''.
Proof.
  intros Ep Ho (l2 & Hinv & Ho2 & Hr). rewrite Ep in *. exists l2. split; [done|]. split; [|done].
  by eapply only_in_trans.
Qed.

Lemma node_at h l i a (s : nat) :
  heap_inv h l → l !! i = Some (a, s) → 0 < a ∧ load (a + 8) h = Ok (Z.of_nat s, h) ∧
  load a h = Ok (next_addr base l i, h).
Proof.
  intros [Hfl _ _ _] Hi. destruct (linked_lookup _ _ _ _ _ _ (fl_links _ _ _ Hfl) Hi) as [E1 E2].
  destruct (fl_base _ _ _ Hfl) as (Hb & _ & _).
  pose proof (fl_node_pos _ _ _ Hfl a s (list_elem_of_lookup_2 _ _ _ Hi)).
  split; [lia|]. split; [unfold load; by rewrite gets_bind, E2|by apply (load_next base h l Hfl i a s)].
Qed.

(** The index of the next node, around the circle. *)
Definition next_ix (l : blocks) (i : nat) : nat := if decide (S i < length l)%nat then S i else 0%nat.

Lemma next_ix_lookup h l i a (s : nat) :
  heap_inv h l → l !! i = Some (a, s) →
  ∃ t, l !! next_ix l i = Some (next_addr base l i, t).
Proof.
  intros [Hfl _ _ _] Hi. unfold next_ix, next_addr. case_decide as Hd.
  - destruct (lookup_lt_is_Some_2 l (S i) Hd) as [[b t] Hb]. rewrite Hb. eauto.
  - rewrite (lookup_ge_None_2 l (S i)) by lia. destruct (fl_base _ _ _ Hfl) as (_ & _ & Hh).
    rewrite head_lookup in Hh. eauto.
Qed.

Definition dist (l : blocks) (i j : nat) : nat := if decide (i ≤ j)%nat then (j - i)%nat else (j + length l - i)%nat.

Lemma dist_next l i j :
  (i < length l)%nat → (j < length l)%nat → i ≠ j → dist l i j = S (dist l (next_ix l i) j).
Proof. intros Hi Hj Hne. unfold dist, next_ix. repeat case_decide; lia. Qed.

Lemma head_size h l i (s : nat) : heap_inv h l → l !! i = Some (base, s) → s = 0%nat ∨ i ≠ 0%nat.
Proof.
  intros [Hfl _ _ _] Hi. destruct (fl_base _ _ _ Hfl) as (_ & _ & Hh). rewrite head_lookup in Hh.
  destruct i; [left; congruence|by right].
Qed.

(** One look at a node: it fits, or it is where the search started, or the
    search goes on. *)
Lemma malloc_loop_step h l (nu : nat) fuel i q qs j p (s : nat) :
  heap_inv h l → (0 < nu)%nat → nu ≤ core_max → l !! i = Some (q, qs) → j = next_ix l i → l !! j = Some (p, s) →
  (p ≠ freep h → wp (malloc_loop core checked fuel p (next_addr base l j) nu) (malloc_post h l nu) h) →
  (∀ h' l' i' q' qs', heap_inv h' l' → pool h' l' = pool h l → (size (held h') < size (held h))%nat →
     only_in base (pool h l) (words h) (words h') →
     morecore core checked nu h = Ok (q', h') → l' !! i' = Some (q', qs') →
     wp (malloc_loop core checked fuel q' (next_addr base l' i') nu) (malloc_post h' l' nu) h') →
  wp (malloc_loop core checked (S fuel) q p nu) (malloc_post h l nu) h.
Proof.
  intros Hinv Hnu Hmax Hi -> Hj Hnext Hmore. destruct (node_at _ _ _ _ _ Hinv Hj) as (Hp0 & Hp8 & Hpn).
  cbn [malloc_loop]. rewrite (proj2 (Z.eqb_neq p 0)), andb_false_r by lia.
  apply wp_bind, wp_run. do 2 eexists. split; [exact Hp8|].
  destruct (Z.leb_spec (Z.of_nat nu) (Z.of_nat s)) as [Hle|Hgt].
  - unfold next_ix in Hj. case_decide as Hd; cycle 1.
    { destruct (fl_base _ _ _ (hi_list _ _ Hinv)) as (_ & _ & Hh). rewrite head_lookup, Hj in Hh.
      injection Hh as -> ->. lia. }
    assert (l = take i l ++ (q, qs) :: (p, s) :: drop (S (S i)) l) as El.
    { by rewrite <- (drop_S l (p, s) (S i)), <- (drop_S l (q, qs) i), take_drop by done. }
    rewrite El. apply carve_post; [by rewrite <- El|lia].
  - do 2 wp_step. destruct (Z.eqb_spec p (freep h)) as [Ef|Ef].
    + wp_step. destruct (proj1 (wp_run _ _ _) (morecore_ok h l nu Hinv ltac:(lia))) as (r & h' & Er & Hr).
      apply wp_run. do 2 eexists. split; [exact Er|]. destruct Hr as [[-> ->]|(l' & Hinv' & -> & Hpool & Hsz & Ho)].
      { rewrite Z.eqb_refl. apply wp_ret. exists l. split; [done|]. split; [by intros x ???|]. by left. }
      pose proof (fl_freep _ _ _ (hi_list _ _ Hinv')) as ([q' qs'] & Eq & [i' Hi']%list_elem_of_lookup)%list_elem_of_fmap.
      cbn in Eq. rewrite Eq in Er |- *. destruct (node_at _ _ _ _ _ Hinv' Hi') as (Hq0 & _ & Hqn).
      rewrite (proj2 (Z.eqb_neq q' 0)) by lia. apply wp_bind, wp_run. do 2 eexists. split; [exact Hqn|].
      eapply wp_mono; [by eapply Hmore|]. intros r h2. by apply post_weaken.
    + apply wp_bind, wp_run. do 2 eexists. split; [exact Hpn|]. by apply Hnext.
Qed.

Lemma length_free_list h l : heap_inv h l → (length l ≤ S (size (pool h l)))%nat.
Proof.
  intros [Hfl _ _ _]. pose proof (sorted_nodup _ _ (fl_sorted _ _ _ Hfl)) as Hnd.
  destruct (fl_base _ _ _ Hfl) as (_ & _ & Hh). destruct l as [|x l]; [done|]. cbn in Hh. injection Hh as ->.
  cbn in Hnd |- *. apply NoDup_cons in Hnd as [_ Hnd].
  rewrite <- (length_fmap fst), <- (size_list_to_set (C := gset Z)) by done.
  apply le_n_S, subseteq_size. intros a Ha%elem_of_list_to_set.
  apply list_elem_of_fmap in Ha as ([b s] & -> & Hin). unfold pool. apply elem_of_union_l, elem_of_free_units.
  exists b, s. split; [by right|]. apply units_first. by apply (fl_pos _ _ _ Hfl b).
Qed.

Lemma dist_bound l i j : (j < length l)%nat → (dist l (next_ix l i) j < length l)%nat.
Proof. intros Hj. unfold dist, next_ix. repeat case_decide; lia. Qed.

(** The search looks at each node of the free list at most once for each block
    it gets from the source, and the source holds finitely many units. *)
Lemma malloc_loop_ok (nu : nat) B fuel h l i q qs fi fs :
  (0 < nu)%nat → nu ≤ core_max → heap_inv h l → B = S (size (pool h l)) → l !! i = Some (q, qs) →
  l !! fi = Some (freep h, fs) → (size (held h) * B + dist l (next_ix l i) fi < fuel)%nat →
  wp (malloc_loop core checked fuel q (next_addr base l i) nu) (malloc_post h l nu) h.
Proof.
  intros Hnu Hmax. revert h l i q qs fi fs. induction fuel as [|fuel IH]; intros h l i q qs fi fs Hinv HB Hi Hfi Hf; [lia|].
  pose proof (length_free_list _ _ Hinv) as Hlen. pose proof (lookup_lt_Some _ _ _ Hfi) as Hlfi.
  destruct (next_ix_lookup _ _ _ _ _ Hinv Hi) as [s Hj].
  pose proof (lookup_lt_Some _ _ _ Hj) as Hlj.
  apply (malloc_loop_step _ _ _ _ i q qs (next_ix l i) _ s); try done.
  - intros Hne. eapply IH; [done|done|exact Hj|exact Hfi|].
    rewrite (dist_next l (next_ix l i) fi) in Hf; [lia|done|done|]. intros Ex. rewrite Ex in Hj. congruence.
  - intros h' l' i' q' qs' Hinv' Hpool Hsz _ _ Hi'.
    pose proof (fl_freep _ _ _ (hi_list _ _ Hinv')) as ([f fs'] & Ef & [fi' Hfi']%list_elem_of_lookup)%list_elem_of_fmap.
    cbn in Ef. rewrite <- Ef in Hfi'.
    eapply IH; [done|by rewrite Hpool|done|exact Hfi'|].
    pose proof (length_free_list _ _ Hinv') as Hlen'. rewrite Hpool in Hlen'.
    pose proof (dist_bound l' i' fi' (lookup_lt_Some _ _ _ Hfi')). rewrite HB in *. nia.
Qed.

(** Before the first request the free list is empty and [base] unset. *)
Definition ready (h : heap E) (l : blocks) : Prop :=
  heap_inv h l ∨
  (freep h = 0 ∧ l = [] ∧ 0 < base ∧ base mod UNIT = 0 ∧ base ≤ 2 ^ 64 ∧
   is_Some (words h !! base) ∧ is_Some (words h !! (base + 8)) ∧ core_ok h ∧
   ∀ u, u ∈ held h → base < u).

Definition init_heap (h : heap E) : heap E :=
  if freep h =? 0 then set_words (<[base + 8 := 0]> (<[base := base]> (words h))) (set_freep base h) else h.

Lemma freep_nonzero h l : heap_inv h l → freep h ≠ 0.
Proof.
  intros [Hfl _ _ _]. pose proof (fl_freep _ _ _ Hfl) as ([f fs] & Ef & Hin)%list_elem_of_fmap.
  pose proof (fl_node_pos _ _ _ Hfl _ _ Hin). destruct (fl_base _ _ _ Hfl) as (Hb & _). cbn in Ef. lia.
Qed.

Lemma init_ok h l :
  ready h l → ∃ l', heap_inv (init_heap h) l' ∧ pool (init_heap h) l' = pool h l ∧
    held (init_heap h) = held h ∧ only_in base (pool h l) (words h) (words (init_heap h)).
Proof.
  intros [Hinv|(Hf & -> & Hb & Hal & Htop & Hm1 & Hm2 & Hok & Hab)]; unfold init_heap.
  - rewrite (proj2 (Z.eqb_neq _ _)) by by eapply freep_nonzero. exists l. split_and!; [done..|by intros x ???].
  - rewrite Hf, Z.eqb_refl. set (h' := set_words _ _).
    assert (core_ok h' ∧ held h' = held h) as [Hok' Hh'].
    { apply core_frame; [done|done|]. intros u Hu. pose proof (held_aligned _ _ Hok Hu) as Hua.
      pose proof (Hab u Hu). cbn. rewrite !lookup_insert_ne; try done; try lia; try (by apply aligned_ne);
        apply not_eq_sym; by apply aligned_ne. }
    exists [(base, 0%nat)]. unfold pool. rewrite Hh'. split_and!.
    + split; [|done|rewrite Hh'; unfold free_units; cbn; set_solver|by rewrite Hh'].
      split; cbn; try done.
      * lia.
      * intros a s [= -> ->]%list_elem_of_singleton. split; [done|lia].
      * by intros a s ?%elem_of_nil.
      * rewrite lookup_insert_ne, lookup_insert_eq, lookup_insert_eq by lia. done.
      * left.
    + unfold free_units. cbn. set_solver.
    + done.
    + intros x H1 H2 _. cbn. by rewrite !lookup_insert_ne.
Qed.

Lemma init_run h l :
  ready h l →
  wp (if freep h =? 0 then
        _ ← store base base; _ ← modify (set_freep base); store (base + 8) 0
      else mret tt) (λ _ h', h' = init_heap h) h.
Proof.
  unfold init_heap. intros [Hi%freep_nonzero|(-> & _ & _ & _ & _ & Hx & Hy & _)].
  - rewrite (proj2 (Z.eqb_neq _ _)) by done. by apply wp_ret.
  - rewrite Z.eqb_refl. wp_step. apply wp_store; [done|]. do 2 wp_step. apply wp_store; [|done].
    cbn. by rewrite lookup_insert_ne by lia.
Qed.

Definition alloc_fuel (h : heap E) (l : blocks) : nat := S (size (held h) + 1) * S (size (pool h l)).

(** A request that is not for zero bytes. *)
Lemma malloc_block_ok h l nbytes fuel :
  ready h l → 0 < nbytes < 2 ^ 64 → nunits nbytes ≤ core_max → (alloc_fuel h l ≤ fuel)%nat →
  wp (malloc_block core checked base fuel nbytes) (malloc_post h l (Z.to_nat (nunits nbytes))) h.
Proof.
  intros Hr Hn Hmax Hf. destruct (init_ok h l Hr) as (l' & Hinv & Hpool & Hheld & Ho).
  assert (0 < nunits nbytes) as Hnu.
  { unfold nunits. pose proof (wrap_range 64 (nbytes + UNIT - 1) ltac:(lia)).
    pose proof (Z.div_pos (u64 (nbytes + UNIT - 1)) UNIT ltac:(lia) ltac:(done)). lia. }
  unfold malloc_block. rewrite (proj2 (Z.eqb_neq _ _)) by lia. do 2 wp_step. wp_step.
  eapply wp_mono; [by apply (init_run h l)|]. intros [] ? ->.
  do 2 wp_step.
  pose proof (fl_freep _ _ _ (hi_list _ _ Hinv)) as ([f fs] & Ef & [fi Hfi]%list_elem_of_lookup)%list_elem_of_fmap.
  cbn in Ef. destruct (node_at _ _ _ _ _ Hinv Hfi) as (_ & _ & Hnext). rewrite <- Ef in Hnext, Hfi.
  apply wp_bind, wp_run. do 2 eexists. split; [exact Hnext|].
  rewrite <- (Z2Nat.id (nunits nbytes)) at 1 by lia.
  eapply wp_mono; [eapply (malloc_loop_ok (Z.to_nat (nunits nbytes)) _ fuel _ l' fi _ _ fi fs)|].
  - lia.
  - lia.
  - done.
  - done.
  - done.
  - done.
  - pose proof (dist_bound l' fi fi (lookup_lt_Some _ _ _ Hfi)). pose proof (length_free_list _ _ Hinv).
    rewrite Hpool in *. unfold alloc_fuel in Hf.
    rewrite Hheld. lia.
  - intros r h'. by apply post_weaken.
Qed.
End malloc.

End HeapAlloc.
