(* ===== verification/Kalloc.v ===== *)
(** * Kernel memory (kernel/kalloc.c)

    The page allocator keeps the free pages in a list threaded through their
    first words; the K&R allocator of [Heap] takes its memory from it, one page
    at a time. *)

From S2P Require Import Prelude Heap HeapAlloc.

Module Kalloc.

Import Heap HeapAlloc.

Definition PGSIZE : Z := 4096.
Definition PHYSLIMIT : Z := 0x80000000.
Definition KERNBASE : Z := 2 ^ 64 - PHYSLIMIT.
Definition DEVSPACE : Z := 0xFD000000.
Definition DEVBASE : Z := KERNBASE - 2 ^ 30.

Definition PGROUNDUP (sz : Z) : Z := Z.land (u64 (sz + PGSIZE - 1)) (u64 (Z.lnot (PGSIZE - 1))).
Definition PGROUNDDOWN (a : Z) : Z := Z.land a (u64 (Z.lnot (PGSIZE - 1))).
Definition V2P (a : Z) : Z := u64 (a - KERNBASE).
Definition V2IO (a : Z) : Z := u64 (a - (DEVBASE - DEVSPACE)).

(** [lock] is held by the running thread. *)
Record kmem := mkkmem {
  lock : bool;
  freelist : Z;
  use_lock : bool;
}.

Abbreviation kheap := (heap kmem).
Abbreviation K := (M kheap).

Definition set_ext (f : kmem → kmem) : K unit :=
  modify (λ h, mkheap (words h) (freep h) (f (ext h))).
Definition set_freelist (p : Z) : K unit := set_ext (λ k, mkkmem (lock k) p (use_lock k)).
Definition set_use_lock (b : bool) : K unit := set_ext (λ k, mkkmem (lock k) (freelist k) b).
Definition set_lock (b : bool) : K unit := set_ext (λ k, mkkmem b (freelist k) (use_lock k)).

Definition acquire : K unit :=
  k ← gets ext; _ ← kernel_assert (negb (lock k)); set_lock true.
Definition release : K unit :=
  k ← gets ext; _ ← kernel_assert (lock k); set_lock false.

(** [if (kmem.use_lock) f()] *)
Definition if_lock (m : K unit) : K unit :=
  k ← gets ext; if use_lock k then m else mret tt.

Section kalloc.
(** The end of the kernel image, and the amount of physical memory found at
    boot (0 before it is known). *)
Variables kernel_end available_memory : Z.

Definition kpage_free (v : Z) : K unit :=
  if DEVBASE <=? V2IO v then mret tt
  else if negb (v mod PGSIZE =? 0) then panic "kpage_free"
  else if v <? kernel_end then panic "kpage_free within kernel memory"
  else if (available_memory <=? V2P v) && (0 <? available_memory) then panic "kpage_free mem things"
  else
    _ ← if_lock acquire;
    k ← gets ext;
    _ ← store v (freelist k);
    _ ← set_freelist v;
    if_lock release.

Definition kpage_alloc : K Z :=
  _ ← if_lock acquire;
  k ← gets ext;
  let r := freelist k in
  _ ← (if r =? 0 then mret tt else n ← load r; set_freelist n);
  _ ← if_lock release;
  mret r.

(** [for (; p + PGSIZE <= vend; p += PGSIZE)], [k] iterations. *)
Fixpoint freerange_loop (k : nat) (p : Z) : K unit :=
  match k with
  | O => mret tt
  | S k => _ ← kpage_free p; freerange_loop k (p + PGSIZE)
  end.

Definition freerange (vstart vend : Z) : K unit :=
  let p := PGROUNDUP vstart in
  freerange_loop (Z.to_nat ((vend - p) / PGSIZE)) p.

Definition kinit1 (vstart vend : Z) : K unit :=
  _ ← set_lock false;
  _ ← set_use_lock false;
  freerange vstart vend.

Definition kinit2 (vstart vend : Z) : K unit :=
  _ ← freerange vstart vend;
  set_use_lock true.
End kalloc.

(** [morecore] gets one page, whatever the request. *)
Definition page_core (nu : Z) : K (option (Z * Z)) :=
  p ← kpage_alloc;
  if p =? 0 then mret None else mret (Some (p, PGSIZE / UNIT)).

(** The static header [base] of kalloc.c, at its link-time address. *)
Section kmalloc.
Variable base : Z.

Definition kfree (ap : Z) : K unit := free_block true ap.
Definition kmorecore (nu : Z) : K Z := morecore page_core true nu.
Definition kmalloc (fuel : nat) (nbytes : Z) : K Z := malloc_block page_core true base fuel nbytes.
Definition krealloc (fuel : nat) (ptr size : Z) : K Z := realloc_block page_core true base fuel ptr size.
Definition kcalloc (fuel : nat) (size : Z) : K Z := calloc_block page_core true base fuel size.
End kmalloc.

(** ** The page list *)

(** The pages [ps], linked from [p] and ended by a null pointer. *)
Fixpoint chained (w : gmap Z Z) (p : Z) (ps : list Z) : Prop :=
  match ps with
  | [] => p = 0
  | a :: ps => p = a ∧ a ≠ 0 ∧ ∃ n, w !! a = Some n ∧ chained w n ps
  end.

Fixpoint walk (fuel : nat) (w : gmap Z Z) (p : Z) : list Z :=
  match fuel with
  | O => []
  | S fuel => if p =? 0 then [] else p :: walk fuel w (default 0 (w !! p))
  end.

Lemma walk_chained w p ps fuel : chained w p ps → (length ps ≤ fuel)%nat → walk fuel w p = ps.
Proof.
  revert p fuel. induction ps as [|a ps IH]; intros p fuel Hc Hf; cbn in Hc.
  - subst. by destruct fuel.
  - destruct Hc as (-> & Ha & n & En & Hc). destruct fuel as [|fuel]; cbn in Hf; [lia|]. cbn.
    rewrite (proj2 (Z.eqb_neq _ _)), En by done. cbn. f_equal. apply IH; [done|lia].
Qed.

Lemma chained_frame w w' p ps :
  (∀ a, a ∈ ps → w' !! a = w !! a) → chained w p ps → chained w' p ps.
Proof.
  revert p. induction ps as [|a ps IH]; intros p Hf; [done|]. intros (-> & Ha & n & En & Hc).
  split; [done|]. split; [done|]. exists n. rewrite Hf by left. split; [done|].
  apply IH; [|done]. intros b Hb. apply Hf. by right.
Qed.

#[local] Arguments units : simpl never.
Definition page_units (ps : list Z) : gset Z := ⋃ ((λ p, units p 256) <$> ps).

#[local] Arguments page_units : simpl never.

Lemma elem_of_page_units ps u : u ∈ page_units ps ↔ ∃ p, p ∈ ps ∧ u ∈ units p 256.
Proof.
  unfold page_units. rewrite elem_of_union_list. split.
  - intros (X & (p & -> & Hp)%list_elem_of_fmap & Hu). eauto.
  - intros (p & Hp & Hu). exists (units p 256). split; [|done]. apply list_elem_of_fmap. eauto.
Qed.

(** The free pages: aligned, distinct, mapped. *)
Record free_pages (h : kheap) (ps : list Z) : Prop := {
  fp_chain : chained (words h) (freelist (ext h)) ps;
  fp_nodup : NoDup ps;
  fp_page p : p ∈ ps → 0 < p ∧ p mod PGSIZE = 0 ∧ p + PGSIZE ≤ 2 ^ 64;
  fp_mapped : mapped (words h) (page_units ps);
  fp_lock : lock (ext h) = false;
}.

Definition pages (h : kheap) : list Z := walk (size (words h)) (words h) (freelist (ext h)).

Lemma free_pages_length h ps : free_pages h ps → (length ps ≤ size (words h))%nat.
Proof.
  intros [Hc Hnd _ Hm _]. rewrite <- (size_list_to_set (C := gset Z)) by done.
  rewrite <- (size_dom (D := gset Z)). apply subseteq_size. intros p Hp%elem_of_list_to_set.
  apply elem_of_dom. apply (Hm p), elem_of_page_units. exists p. split; [done|]. apply units_first. lia.
Qed.

Lemma pages_eq h ps : free_pages h ps → pages h = ps.
Proof. intros Hf. apply walk_chained; [apply Hf|by apply free_pages_length]. Qed.

Lemma pages_disjoint p q : p mod PGSIZE = 0 → q mod PGSIZE = 0 → p ≠ q → units p 256 ## units q 256.
Proof.
  unfold PGSIZE. intros Hp Hq Hne u Hu%units_bounds Hv%units_bounds. unfold UNIT in *.
  apply Z.mod_divide in Hp as [a ->]; [|done]. apply Z.mod_divide in Hq as [b ->]; [|done]. lia.
Qed.

Lemma page_align p : p mod PGSIZE = 0 → p mod UNIT = 0.
Proof.
  unfold PGSIZE, UNIT. intros Hp. apply Z.mod_divide in Hp as [a ->]; [|done].
  apply Z.mod_divide; [done|]. exists (a * 256). lia.
Qed.

Lemma if_lock_run (m : K unit) h :
  (use_lock (ext h) = true → m h = Ok (tt, mkheap (words h) (freep h) (mkkmem (negb (lock (ext h))) (freelist (ext h)) true))) →
  if_lock m h = Ok (tt, mkheap (words h) (freep h)
    (mkkmem (if use_lock (ext h) then negb (lock (ext h)) else lock (ext h)) (freelist (ext h)) (use_lock (ext h)))).
Proof.
  intros Hm. unfold if_lock. rewrite gets_bind. destruct (use_lock (ext h)) eqn:E; [by apply Hm|].
  destruct h as [w f [lk fl ul]]. cbn in *. by subst.
Qed.

Lemma kmem_acquire_run h : lock (ext h) = false →
  if_lock acquire h = Ok (tt, mkheap (words h) (freep h) (mkkmem (use_lock (ext h)) (freelist (ext h)) (use_lock (ext h)))).
Proof.
  intros Hl. rewrite if_lock_run.
  - rewrite Hl. by destruct (use_lock (ext h)).
  - intros Hu. destruct h as [w f [lk fl ul]]. cbn in *. by subst.
Qed.

Lemma kmem_release_run h : lock (ext h) = use_lock (ext h) →
  if_lock release h = Ok (tt, mkheap (words h) (freep h) (mkkmem false (freelist (ext h)) (use_lock (ext h)))).
Proof.
  intros Hl. rewrite if_lock_run.
  - rewrite Hl. by destruct (use_lock (ext h)).
  - intros Hu. destruct h as [w f [lk fl ul]]. cbn in *. by subst.
Qed.

(** [kpage_alloc] takes the first page of the list, or returns 0. *)
Lemma kpage_alloc_run h ps :
  free_pages h ps →
  kpage_alloc h = Ok (hd 0 ps, mkheap (words h) (freep h) (mkkmem false (hd 0 (tail ps)) (use_lock (ext h)))).
Proof.
  intros [Hc _ _ _ Hl]. unfold kpage_alloc. rewrite (bind_run _ _ _ _ _ (kmem_acquire_run _ Hl)), gets_bind.
  cbn [ext freelist]. destruct ps as [|p ps]; cbn in Hc.
  - rewrite Hc, Z.eqb_refl, ret_bind. erewrite bind_run by by apply kmem_release_run. done.
  - destruct Hc as (-> & Hp & n & En & Hc). rewrite (proj2 (Z.eqb_neq _ _)) by done.
    erewrite bind_run; [|unfold load; rewrite bind_assoc, gets_bind; cbn [words]; rewrite En; reflexivity].
    erewrite bind_run by by apply kmem_release_run. cbn. destruct ps as [|q ps]; cbn in Hc; [by subst|].
    by destruct Hc as (-> & _).
Qed.

Lemma free_pages_tail h p ps f' :
  free_pages h (p :: ps) →
  free_pages (mkheap (words h) f' (mkkmem false (hd 0 ps) (use_lock (ext h)))) ps.
Proof.
  intros [Hc Hnd Hp Hm Hl]. cbn in Hc. destruct Hc as (_ & _ & n & En & Hc).
  apply NoDup_cons in Hnd as [_ Hnd]. split; cbn; try done.
  - destruct ps as [|q ps]; [done|]. cbn in Hc |- *. by destruct Hc as (_ & ? & ?).
  - intros q Hq. apply Hp. by right.
  - intros u (q & Hq & Hu)%elem_of_page_units. apply Hm, elem_of_page_units. exists q. split; [by right|done].
Qed.

(** ** The source of fresh memory of the kernel heap *)

Definition page_held (h : kheap) : gset Z := page_units (pages h).

Lemma page_core_ok h nu ps :
  free_pages h ps →
  wp (page_core nu) (λ r h', freep h' = freep h ∧
    match ps with
    | [] => r = None ∧ h' = h
    | p :: ps => r = Some (p, 256) ∧ words h' = words h ∧ free_pages h' ps
    end) h.
Proof.
  intros Hf. unfold page_core. apply wp_bind, wp_run. do 2 eexists. split; [by apply kpage_alloc_run|].
  destruct ps as [|p ps]; cbn [hd tail].
  - rewrite Z.eqb_refl. apply wp_ret. destruct Hf as [Hc _ _ _ Hl]. cbn in Hc.
    destruct h as [w f [lk fl ul]]. cbn in *. by subst.
  - destruct (fp_page _ _ Hf p ltac:(left)). rewrite (proj2 (Z.eqb_neq _ _)) by lia. apply wp_ret.
    split_and!; try done. cbn. by eapply free_pages_tail.
Qed.

#[export] Program Instance page_laws : CoreLaws page_core := {
  held := page_held;
  core_ok h := ∃ ps, free_pages h ps;
  core_max := 2 ^ 64;
}.
Next Obligation.
  intros h nu [ps Hf] _. eapply wp_mono; [by apply page_core_ok|]. intros r h' [Ef Hr].
  destruct ps as [|p ps].
  - destruct Hr as [-> ->]. eauto.
  - destruct Hr as (-> & Ew & Hf'). split; [by exists ps|]. split; [done|]. exists 256%nat.
    destruct (fp_page _ _ Hf p ltac:(left)) as (Hp0 & Hp1 & Hp2).
    pose proof (fp_nodup _ _ Hf) as [Hnin _]%NoDup_cons.
    assert (∀ q, q ∈ ps → units p 256 ## units q 256) as Hdisj.
    { intros q Hq. apply pages_disjoint; [done| |by intros ->].
      by apply (fp_page _ _ Hf' q). }
    unfold page_held. rewrite (pages_eq _ _ Hf), (pages_eq _ _ Hf'). split_and!; try done.
    + lia.
    + by apply page_align.
    + intros u Hu. apply elem_of_page_units. exists p. split; [left|done].
    + apply set_eq. intros u. rewrite elem_of_difference, !elem_of_page_units. split.
      * intros (q & Hq & Hu). split; [exists q; split; [by right|done]|].
        intros Hu'. by apply (Hdisj q Hq u).
      * intros [(q & [->|Hq]%elem_of_cons & Hu) Hn]; [done|eauto].
    + intros u Hu. rewrite Ew. apply (fp_mapped _ _ Hf), elem_of_page_units. exists p. split; [left|done].
    + intros x _. by rewrite Ew.
Qed.
Next Obligation.
  intros h u [ps Hf]. unfold page_held. rewrite (pages_eq _ _ Hf), elem_of_page_units.
  intros (p & Hp & Hu). eapply units_mod; [|done]. by apply page_align, (fp_page _ _ Hf p).
Qed.
Next Obligation.
  intros h h' [ps Hf] He Hw. unfold page_held in *. rewrite (pages_eq _ _ Hf) in *.
  assert (free_pages h' ps) as Hf'.
  { split; try apply Hf.
    - rewrite He. eapply chained_frame; [|apply Hf]. intros p Hp. apply Hw, elem_of_page_units.
      exists p. split; [done|]. apply units_first. lia.
    - intros u Hu. destruct (Hw u Hu) as [-> ->]. by apply (fp_mapped _ _ Hf).
    - rewrite He. apply Hf. }
  split; [by exists ps|]. by rewrite (pages_eq _ _ Hf').
Qed.

(** ** Freeing pages *)

Section pages.
Variables kernel_end available_memory : Z.

(** A page the allocator accepts. *)
Definition page_ok (v : Z) : Prop :=
  KERNBASE ≤ v ∧ v mod PGSIZE = 0 ∧ v + PGSIZE ≤ 2 ^ 64 ∧ kernel_end ≤ v ∧
  (available_memory ≤ 0 ∨ v - KERNBASE < available_memory).

Lemma page_ok_guards v : page_ok v →
  (DEVBASE <=? V2IO v) = false ∧ (v mod PGSIZE =? 0) = true ∧ (v <? kernel_end) = false ∧
  (available_memory <=? V2P v) && (0 <? available_memory) = false.
Proof.
  intros (H1 & H2 & H3 & H4 & H5). unfold V2IO, V2P, DEVBASE, KERNBASE, PHYSLIMIT, DEVSPACE, PGSIZE in *.
  rewrite !wrap_small by lia. split_and!.
  - apply Z.leb_gt. lia.
  - by apply Z.eqb_eq.
  - by apply Z.ltb_ge.
  - apply andb_false_iff. destruct H5; [right; by apply Z.ltb_ge|left; by apply Z.leb_gt].
Qed.

Lemma kpage_free_run h v :
  page_ok v → lock (ext h) = false → is_Some (words h !! v) →
  kpage_free kernel_end available_memory v h =
    Ok (tt, mkheap (<[v := freelist (ext h)]> (words h)) (freep h) (mkkmem false v (use_lock (ext h)))).
Proof.
  intros Hv Hl [x Hx]. destruct (page_ok_guards v Hv) as (G1 & G2 & G3 & G4).
  unfold kpage_free. rewrite G1, G2, G3, G4. cbn [negb].
  rewrite (bind_run _ _ _ _ _ (kmem_acquire_run _ Hl)), gets_bind. cbn [ext freelist].
  erewrite bind_run; [|unfold store, load; rewrite bind_assoc, gets_bind; cbn [words]; rewrite Hx; reflexivity].
  erewrite bind_run by reflexivity. by rewrite kmem_release_run.
Qed.

Lemma kpage_free_ok h v ps :
  free_pages h ps → page_ok v → v ∉ ps → mapped (words h) (units v 256) →
  wp (kpage_free kernel_end available_memory v) (λ _ h', free_pages h' (v :: ps) ∧
    use_lock (ext h') = use_lock (ext h) ∧ freep h' = freep h ∧
    (∀ y, is_Some (words h !! y) → is_Some (words h' !! y))) h.
Proof.
  intros Hf Hv Hnin Hmap. apply wp_run. do 2 eexists. split.
  { apply kpage_free_run; [done|apply Hf|]. apply Hmap, units_first. lia. }
  destruct Hv as (H1 & H2 & H3 & _).
  assert (0 < v) as Hv0 by (unfold KERNBASE, PHYSLIMIT in *; lia).
  assert (∀ y, is_Some (words h !! y) → is_Some (<[v := freelist (ext h)]> (words h) !! y)) as Hmono.
  { intros y Hy. rewrite lookup_insert. case_decide; eauto. }
  split; [|done].
  split; cbn.
  - split; [done|]. split; [lia|]. exists (freelist (ext h)). split; [apply lookup_insert_eq|].
    eapply chained_frame; [|apply Hf]. intros a Ha. rewrite lookup_insert_ne; [done|by intros ->].
  - constructor; [done|apply Hf].
  - intros p [->|Hp]%elem_of_cons; [done|by apply (fp_page _ _ Hf)].
  - intros u (p & [->|Hp]%elem_of_cons & Hu)%elem_of_page_units.
    + destruct (Hmap u Hu). split; by apply Hmono.
    + destruct (fp_mapped _ _ Hf u) as [? ?]; [apply elem_of_page_units; eauto|]. split; by apply Hmono.
  - done.
Qed.

Lemma freerange_loop_ok k p h ps :
  free_pages h ps → p mod PGSIZE = 0 →
  (∀ i : nat, (i < k)%nat → page_ok (p + PGSIZE * i) ∧ ((p + PGSIZE * i) ∉ ps) ∧
     mapped (words h) (units (p + PGSIZE * i) 256)) →
  wp (freerange_loop kernel_end available_memory k p) (λ _ h',
    free_pages h' (reverse ((λ i : nat, p + PGSIZE * i) <$> (seq 0 k)) ++ ps) ∧
    use_lock (ext h') = use_lock (ext h) ∧ freep h' = freep h) h.
Proof.
  revert p h ps. induction k as [|k IH]; intros p h ps Hf Hp Hok; [by apply wp_ret|].
  cbn [freerange_loop]. apply wp_bind.
  destruct (Hok 0%nat ltac:(lia)) as (Hv & Hn & Hm). replace (p + PGSIZE * 0%nat) with p in * by lia.
  eapply wp_mono; [by apply (kpage_free_ok h p ps)|]. intros [] h1 (Hf1 & Eu & Ef & Hmono).
  assert (∀ i : nat, p + PGSIZE + PGSIZE * i = p + PGSIZE * S i) as Eshift by (intros i; lia).
  eapply wp_mono; [apply (IH (p + PGSIZE) h1 (p :: ps))|].
  - done.
  - unfold PGSIZE in *. by rewrite <- Zplus_mod_idemp_r, Z_mod_same_full, Z.add_0_r.
  - intros i Hi. rewrite Eshift. destruct (Hok (S i) ltac:(lia)) as (H1 & H2 & H3). split_and!; [done| |].
    + intros [E|?]%elem_of_cons; [|done]. unfold PGSIZE in E. lia.
    + intros u Hu. destruct (H3 u Hu). split; by apply Hmono.
  - intros [] h2 (Hf2 & E2 & E3). split; [|split; congruence]. cbn [seq fmap list_fmap].
    rewrite reverse_cons, <- app_assoc. cbn. replace (p + PGSIZE * 0%nat) with p by lia.
    rewrite <- fmap_S_seq, <- list_fmap_compose. erewrite list_fmap_ext; [exact Hf2|].
    intros i j _. cbn. by rewrite Eshift.
Qed.
End pages.

(** ** Rounding to pages *)

Lemma land_page x : 0 ≤ x < 2 ^ 64 → Z.land x (2 ^ 64 - 2 ^ 12) = x / 4096 * 4096.
Proof.
  intros Hx. change (2 ^ 64 - 2 ^ 12) with (Z.shiftl (Z.ones 52) 12). change 4096 with (2 ^ 12).
  rewrite <- Z.shiftr_div_pow2, <- Z.shiftl_mul_pow2 by lia.
  apply Z.bits_inj'. intros n Hn. rewrite Z.land_spec. destruct (decide (n < 12)).
  - by rewrite !Z.shiftl_spec_low, andb_false_r by lia.
  - rewrite !Z.shiftl_spec, Z.shiftr_spec by lia. replace (n - 12 + 12) with n by lia.
    destruct (decide (n < 64)); [by rewrite Z.ones_spec_low, andb_true_r by lia|].
    rewrite (Z.bits_above_log2 x n); [done|lia|].
    destruct (decide (x = 0)) as [->|]; [cbn; lia|]. apply Z.log2_lt_pow2; [lia|].
    eapply Z.lt_le_trans; [apply Hx|]. apply Z.pow_le_mono_r; lia.
Qed.

Lemma pgroundup_eq a : 0 ≤ a ≤ 2 ^ 64 - 4096 → PGROUNDUP a = (a + 4095) / 4096 * 4096.
Proof.
  intros Ha. unfold PGROUNDUP, PGSIZE. rewrite (wrap_small 64) by lia.
  change (u64 (Z.lnot (4096 - 1))) with (2 ^ 64 - 2 ^ 12). rewrite land_page by lia.
  by replace (a + 4096 - 1) with (a + 4095) by lia.
Qed.

Lemma pgroundup_bounds a :
  0 ≤ a ≤ 2 ^ 64 - 4096 → PGROUNDUP a mod PGSIZE = 0 ∧ a ≤ PGROUNDUP a < a + 4096.
Proof.
  intros Ha. rewrite pgroundup_eq by done. split; [apply Z_mod_mult|].
  pose proof (Z.div_mod (a + 4095) 4096 ltac:(done)). pose proof (Z.mod_pos_bound (a + 4095) 4096 ltac:(done)). lia.
Qed.

(** The pages [freerange] frees. *)
Definition range_pages (vstart vend : Z) : list Z :=
  (λ i : nat, PGROUNDUP vstart + PGSIZE * i) <$> (seq 0 (Z.to_nat ((vend - PGROUNDUP vstart) / PGSIZE))).

Lemma elem_of_range_pages vstart vend p :
  0 ≤ vstart ≤ 2 ^ 64 - 4096 →
  p ∈ range_pages vstart vend ↔ p mod PGSIZE = 0 ∧ vstart ≤ p ∧ p + PGSIZE ≤ vend.
Proof.
  intros Hv. destruct (pgroundup_bounds vstart Hv) as [Hm Hb]. unfold range_pages, PGSIZE in *.
  set (p0 := PGROUNDUP vstart) in *. clearbody p0. rewrite list_elem_of_fmap. split.
  - intros (i & -> & Hi%elem_of_seq). pose proof (Z.mul_div_le (vend - p0) 4096 ltac:(lia)).
    split; [by rewrite Z.mul_comm, Z_mod_plus_full|]. lia.
  - intros (H1 & H2 & H3). exists (Z.to_nat ((p - p0) / 4096)). rewrite elem_of_seq.
    apply Z.mod_divide in H1 as [a ->]; [|done]. apply Z.mod_divide in Hm as [b ->]; [|done].
    replace (a * 4096 - b * 4096) with ((a - b) * 4096) by lia.
    rewrite Z.div_mul by done. split; [lia|]. split; [lia|]. cbn.
    apply Z2Nat.inj_lt; [lia|apply Z.div_pos; lia|].
    apply Z.lt_le_trans with (a - b + 1); [lia|]. apply Z.div_le_lower_bound; lia.
Qed.

Lemma free_pages_nil (h : kheap) : freelist (ext h) = 0 → lock (ext h) = false → free_pages h [].
Proof.
  intros Hf Hl. split; [done|apply NoDup_nil_2|by intros p ?%elem_of_nil| |done].
  by intros u (p & ?%elem_of_nil & _)%elem_of_page_units.
Qed.

Lemma range_pages_ok kernel_end available_memory vstart vend (h : kheap) (i : nat) :
  KERNBASE ≤ vstart ≤ vend → kernel_end ≤ vstart → vend ≤ 2 ^ 64 - 4096 →
  (available_memory ≤ 0 ∨ vend - KERNBASE ≤ available_memory) →
  (∀ a, vstart ≤ a < vend → a mod 8 = 0 → is_Some (words h !! a)) →
  (i < Z.to_nat ((vend - PGROUNDUP vstart) / PGSIZE))%nat →
  let p := PGROUNDUP vstart + PGSIZE * i in
  page_ok kernel_end available_memory p ∧ (p ∉ []) ∧ mapped (words h) (units p 256).
Proof.
  intros Hv Hk He Ha Hm Hi p.
  assert (p ∈ range_pages vstart vend) as Hp.
  { apply list_elem_of_fmap. exists i. split; [done|]. apply elem_of_seq. lia. }
  apply elem_of_range_pages in Hp as (H1 & H2 & H3); [|unfold KERNBASE, PHYSLIMIT in *; lia].
  unfold PGSIZE in *. clearbody p. split_and!; [|by intros ?%elem_of_nil|].
  - unfold page_ok, PGSIZE. split_and!; [lia|done|lia|lia|]. destruct Ha; [by left|right; lia].
  - intros u Hu. pose proof (units_mod _ _ _ (page_align _ H1) Hu) as Hu16. apply units_bounds in Hu.
    unfold UNIT in *. apply Z.mod_divide in Hu16 as [a ->]; [|done].
    split; (apply Hm; [lia|]; apply Z.mod_divide; [done|]); [exists (2 * a); lia|exists (2 * a + 1); lia].
Qed.

(** ** Properties *)

(** Boot-time initialisation of the page allocator.  [kinit1] on a range
    of mapped kernel memory above the kernel image leaves on the free list
    exactly the whole pages inside the range, each once. *)
Theorem kinit1_pages kernel_end available_memory vstart vend (h : kheap) :
  freelist (ext h) = 0 → KERNBASE ≤ vstart ≤ vend → kernel_end ≤ vstart → vend ≤ 2 ^ 64 - 4096 →
  (available_memory ≤ 0 ∨ vend - KERNBASE ≤ available_memory) →
  (∀ a, vstart ≤ a < vend → a mod 8 = 0 → is_Some (words h !! a)) →
  ∃ h' ps, kinit1 kernel_end available_memory vstart vend h = Ok (tt, h') ∧
    free_pages h' ps ∧ use_lock (ext h') = false ∧
    ∀ p, p ∈ ps ↔ p mod PGSIZE = 0 ∧ vstart ≤ p ∧ p + PGSIZE ≤ vend.
Proof.
  intros Hfl Hv Hk He Ha Hm.
  assert (∀ p, p ∈ range_pages vstart vend ↔ p mod PGSIZE = 0 ∧ vstart ≤ p ∧ p + PGSIZE ≤ vend) as Hin.
  { intros p. apply elem_of_range_pages. unfold KERNBASE, PHYSLIMIT in *. lia. }
  set (h0 := mkheap (words h) (freep h) (mkkmem false 0 false)).
  destruct (proj1 (wp_run _ _ _) (freerange_loop_ok kernel_end available_memory
    (Z.to_nat ((vend - PGROUNDUP vstart) / PGSIZE)) (PGROUNDUP vstart) h0 [] (free_pages_nil h0 eq_refl eq_refl)
    ltac:(apply pgroundup_bounds; unfold KERNBASE, PHYSLIMIT in *; lia)
    ltac:(intros i Hi; by apply (range_pages_ok _ _ vstart vend h i Hv Hk He Ha Hm))))
    as ([] & h' & E & Hf & Hu & _).
  exists h', (reverse (range_pages vstart vend)). rewrite app_nil_r in Hf.
  split; [|split; [done|split; [done|intros p; by rewrite elem_of_reverse]]].
  unfold kinit1, set_lock, set_use_lock, set_ext. rewrite !modify_bind. cbn. rewrite Hfl. exact E.
Qed.

Lemma nunits_enough nbytes :
  0 < nbytes ≤ 2 ^ 64 - 16 → nbytes ≤ UNIT * (nunits nbytes - 1) < nbytes + UNIT ∧ 0 ≤ nunits nbytes.
Proof.
  intros Hn. unfold nunits, UNIT. rewrite wrap_small by lia.
  pose proof (Z.div_mod (nbytes + 16 - 1) 16 ltac:(done)). pose proof (Z.mod_pos_bound (nbytes + 16 - 1) 16 ltac:(done)).
  lia.
Qed.

(** C32. [kmalloc] hands out disjoint memory.  From a consistent heap it
    returns within the fuel, with the heap consistent again.  It returns 0 and
    changes no more than the free list, or a 16-byte aligned block with a
    header and at least [nbytes] bytes, taken from the memory the allocator
    owned (free list and free pages) and no longer part of it.  No word outside
    that memory and the static header changes. *)
Theorem kmalloc_correct base h l nbytes fuel :
  ready page_core base h l → 0 < nbytes ≤ 2 ^ 64 - 16 → (alloc_fuel page_core h l ≤ fuel)%nat →
  ∃ r h' l', kmalloc base fuel nbytes h = Ok (r, h') ∧ heap_inv page_core base h' l' ∧
    only_in base (pool page_core h l) (words h) (words h') ∧
    ((r = 0 ∧ pool page_core h' l' = pool page_core h l) ∨
     ∃ b (n : nat), r = b + UNIT ∧ b mod UNIT = 0 ∧ nbytes ≤ UNIT * (n - 1) ∧ b + UNIT * n ≤ 2 ^ 64 ∧
       words h' !! (b + 8) = Some (Z.of_nat n) ∧
       pool page_core h l = units b n ∪ pool page_core h' l' ∧ units b n ## pool page_core h' l').
Proof.
  intros Hr Hn Hf. destruct (nunits_enough _ Hn) as [Hu Hu0].
  assert (nunits nbytes ≤ core_max) as Hmax by (unfold UNIT in Hu; cbn [core_max page_laws]; lia).
  destruct (proj1 (wp_run _ _ _) (malloc_block_ok page_core true base h l nbytes fuel Hr ltac:(lia) Hmax Hf))
    as (r & h' & E & l' & Hinv & Ho & Hres).
  exists r, h', l'. split; [done|]. split; [done|]. split; [done|].
  destruct Hres as [?|(b & -> & Hb & Hal & Htop & Hw & Hm & Hp & Hd)]; [by left|right].
  exists b, (Z.to_nat (nunits nbytes)). split_and!; try done. rewrite Z2Nat.id by done. lia.
Qed.

(** C33. [kfree] returns a block to the pool.  A block that [kmalloc] handed
    out and that is still apart from the pool is added to it, the heap stays
    consistent (sorted, coalesced, circular), and nothing outside changes. *)
Theorem kfree_correct base h l b n :
  heap_inv page_core base h l → b mod UNIT = 0 → (0 < n)%nat → base < b → b + UNIT * n ≤ 2 ^ 64 →
  words h !! (b + 8) = Some (Z.of_nat n) → mapped (words h) (units b n) →
  units b n ## pool page_core h l →
  ∃ h' l', kfree (b + UNIT) h = Ok (tt, h') ∧ heap_inv page_core base h' l' ∧
    pool page_core h' l' = pool page_core h l ∪ units b n ∧
    only_in base (pool page_core h' l') (words h) (words h').
Proof.
  intros Hinv Hal Hn Hb Htop Hw Hm Hd. pose proof Hinv as [Hfl Hok Hdisj Hab].
  unfold pool in Hd. assert (units b n ## free_units l) as Hd1 by set_solver.
  destruct (proj1 (wp_run _ _ _) (free_block_ok true base h l b n Hfl Hal Hn Hb Htop Hd1 Hw Hm))
    as ([] & h' & E & l' & Hfl' & Hu & He & Ho).
  destruct (frame_core page_core base h l (free_units l') h' Hinv He Ho) as [Hok' Hh'].
  { rewrite Hu. set_solver. }
  { intros u. by apply (free_units_aligned base h' l'). }
  exists h', l'. split; [done|]. split; [|split].
  - split; [done|done| |by rewrite Hh']. rewrite Hh', Hu. set_solver.
  - unfold pool. rewrite Hh', Hu. set_solver.
  - eapply only_in_mono; [|done]. unfold pool. set_solver.
Qed.

(** [krealloc] takes the header for usable space: asked to grow a block of
    [n] units by up to 16 bytes past its usable size, it returns the block
    unchanged, too small for the request. *)
Theorem krealloc_too_small base fuel h ptr n size :
  0 < ptr → words h !! (ptr - UNIT + 8) = Some n → 0 < n → UNIT * (n - 1) < size ≤ UNIT * n →
  UNIT * n < 2 ^ 64 →
  krealloc base fuel ptr size h = Ok (ptr, h).
Proof.
  intros Hp Hw Hn Hs Ht. unfold krealloc, realloc_block. rewrite (proj2 (Z.eqb_neq _ _)) by lia.
  erewrite bind_run; [|unfold load; rewrite gets_bind, Hw; reflexivity].
  rewrite wrap_small by (unfold UNIT in *; lia).
  rewrite (proj2 (Z.leb_le _ _)) by lia. done.
Qed.

(** ** Examples: a heap with one free page *)

Definition ex_base : Z := KERNBASE + 0x200000.
Definition ex_page : Z := KERNBASE + 0x400000.
Definition ex_words : gmap Z Z :=
  list_to_map (((ex_base, 0) :: (ex_base + 8, 0) :: ((λ i : nat, (ex_page + 8 * i, 0)) <$> (seq 0 512)))).
Definition ex_boot : kheap := mkheap ex_words 0 (mkkmem false 0 false).
(** The heap after [kinit1] on that page. *)
Definition ex_heap : kheap := mkheap (<[ex_page := 0]> ex_words) 0 (mkkmem false ex_page false).

Lemma ex_words_page a : ex_page ≤ a < ex_page + 4096 → a mod 8 = 0 → is_Some (ex_words !! a).
Proof.
  intros Ha Hm. destruct (ex_words !! a) as [d|] eqn:E; [eauto|]. exfalso.
  apply not_elem_of_list_to_map_2 in E. apply E. cbn [fmap list_fmap fst]. do 2 right.
  rewrite <- list_fmap_compose. apply list_elem_of_fmap. apply Z.mod_divide in Hm as [q ->]; [|done].
  exists (Z.to_nat (q - ex_page / 8)). rewrite elem_of_seq.
  assert (ex_page = 8 * (ex_page / 8)) as Eq by (vm_compute; reflexivity). cbn [compose fst]. lia.
Qed.

Lemma kinit1_pages_witness :
  ∃ h' ps, kinit1 (KERNBASE + 0x300000) 0 ex_page (ex_page + 4096) ex_boot = Ok (tt, h') ∧
    free_pages h' ps ∧ use_lock (ext h') = false ∧
    ∀ p, p ∈ ps ↔ p mod PGSIZE = 0 ∧ ex_page ≤ p ∧ p + PGSIZE ≤ ex_page + 4096.
Proof.
  apply (kinit1_pages (KERNBASE + 0x300000) 0 ex_page (ex_page + 4096) ex_boot).
  - reflexivity.
  - unfold ex_page, KERNBASE, PHYSLIMIT. lia.
  - unfold ex_page, KERNBASE, PHYSLIMIT. lia.
  - unfold ex_page, KERNBASE, PHYSLIMIT. lia.
  - left. lia.
  - apply ex_words_page.
Defined.

Lemma insert_some (m : gmap Z Z) k v a : is_Some (m !! a) → is_Some (<[k := v]> m !! a).
Proof. intros Ha. rewrite lookup_insert. case_decide; eauto. Qed.

Lemma ex_heap_pages : free_pages ex_heap [ex_page].
Proof.
  split.
  - split; [vm_compute; reflexivity|]. split; [vm_compute; discriminate|]. exists 0.
    split; [apply lookup_insert_eq|reflexivity].
  - apply NoDup_singleton.
  - intros p ->%list_elem_of_singleton. unfold ex_page, KERNBASE, PHYSLIMIT, PGSIZE. split_and!; [lia|vm_compute; reflexivity|lia].
  - intros u (p & ->%list_elem_of_singleton & Hu)%elem_of_page_units.
    pose proof (units_mod ex_page 256 u ltac:(vm_compute; reflexivity) Hu) as Hum.
    apply units_bounds in Hu. unfold UNIT in *. apply Z.mod_divide in Hum as [q ->]; [|done].
    cbn [words ex_heap]. split; apply insert_some, ex_words_page.
    + lia.
    + apply Z.mod_divide; [lia|]. exists (2 * q). lia.
    + lia.
    + apply Z.mod_divide; [lia|]. exists (2 * q + 1). lia.
  - reflexivity.
Qed.

Lemma ex_heap_ready : ready page_core ex_base ex_heap [].
Proof.
  right. split_and!; [reflexivity|reflexivity|vm_compute; reflexivity|vm_compute; reflexivity|vm_compute; discriminate
    |eexists; vm_compute; reflexivity|eexists; vm_compute; reflexivity| |].
  - exists [ex_page]. apply ex_heap_pages.
  - intros u. change (held ex_heap) with (page_held ex_heap). unfold page_held.
    rewrite (pages_eq _ _ ex_heap_pages), elem_of_page_units.
    intros (p & ->%list_elem_of_singleton & Hu%units_bounds). unfold ex_base, ex_page in *. lia.
Qed.

Lemma kmalloc_correct_witness :
  ∃ r h' l', kmalloc ex_base (alloc_fuel page_core ex_heap []) 24 ex_heap = Ok (r, h') ∧
    heap_inv page_core ex_base h' l' ∧
    only_in ex_base (pool page_core ex_heap []) (words ex_heap) (words h') ∧
    ((r = 0 ∧ pool page_core h' l' = pool page_core ex_heap []) ∨
     ∃ b (n : nat), r = b + UNIT ∧ b mod UNIT = 0 ∧ 24 ≤ UNIT * (n - 1) ∧ b + UNIT * n ≤ 2 ^ 64 ∧
       words h' !! (b + 8) = Some (Z.of_nat n) ∧
       pool page_core ex_heap [] = units b n ∪ pool page_core h' l' ∧ units b n ## pool page_core h' l').
Proof.
  apply (kmalloc_correct ex_base ex_heap [] 24 (alloc_fuel page_core ex_heap [])).
  - apply ex_heap_ready.
  - lia.
  - apply Nat.le_refl.
Defined.

(** The heap after that request: the last three units of the page are taken. *)
Definition ex_taken : Z := ex_page + UNIT * 253.
Definition ex_used : kheap :=
  mkheap (<[ex_taken + 8 := 3]> (<[ex_page + 8 := 253]> (<[ex_base := ex_page]> (<[ex_page := ex_base]>
    (<[ex_page + 8 := 256]> (<[ex_base + 8 := 0]> (words ex_heap))))))) ex_base (mkkmem false 0 false).
Definition ex_free : blocks := [(ex_base, 0%nat); (ex_page, 253%nat)].

Lemma ex_used_mapped u : u ∈ units ex_page 256 → is_Some (words ex_used !! u) ∧ is_Some (words ex_used !! (u + 8)).
Proof.
  intros Hu. destruct (fp_mapped _ _ ex_heap_pages u) as [H1 H2].
  { apply elem_of_page_units. exists ex_page. split; [left|exact Hu]. }
  cbn [words ex_used]. split; do 6 apply insert_some; assumption.
Qed.

Lemma ex_used_inv : heap_inv page_core ex_base ex_used ex_free.
Proof.
  assert (free_pages ex_used []) as Hp.
  { split; [vm_compute; reflexivity|apply NoDup_nil_2|by intros p ?%elem_of_nil| |reflexivity].
    by intros u (p & ?%elem_of_nil & _)%elem_of_page_units. }
  assert (held ex_used = ∅) as Eh.
  { change (held ex_used) with (page_units (pages ex_used)). by rewrite (pages_eq _ _ Hp). }
  split; [|exists []; exact Hp|rewrite Eh; apply disjoint_empty_r|rewrite Eh; intros u []%not_elem_of_empty]. split.
  - split_and!; vm_compute; reflexivity.
  - cbn. unfold ex_base, ex_page, UNIT. lia.
  - intros a s [E|[E|[]%elem_of_nil]%elem_of_cons]%elem_of_cons; injection E as -> ->;
      (split; [vm_compute; reflexivity|vm_compute; discriminate]).
  - intros a s E%list_elem_of_singleton. injection E as -> ->. lia.
  - unfold ex_free. cbn [linked]. split_and!; [vm_compute; reflexivity..|exact I].
  - change (ex_free.*1) with [ex_base; ex_page]. left.
  - intros u (a & s & [E|[E|[]%elem_of_nil]%elem_of_cons]%elem_of_cons & Hu)%elem_of_free_units;
      injection E as -> ->; [by apply elem_of_units in Hu as (i & Hi & _); lia|].
    apply ex_used_mapped. change 256%nat with (253 + 3)%nat. rewrite units_split. by apply elem_of_union_l.
Qed.

Lemma kfree_correct_witness :
  ∃ h' l', kfree (ex_taken + UNIT) ex_used = Ok (tt, h') ∧ heap_inv page_core ex_base h' l' ∧
    pool page_core h' l' = pool page_core ex_used ex_free ∪ units ex_taken 3 ∧
    only_in ex_base (pool page_core h' l') (words ex_used) (words h').
Proof.
  apply (kfree_correct ex_base ex_used ex_free ex_taken 3).
  - apply ex_used_inv.
  - vm_compute. reflexivity.
  - lia.
  - vm_compute. reflexivity.
  - vm_compute. discriminate.
  - vm_compute. reflexivity.
  - intros u Hu. apply ex_used_mapped. change 256%nat with (253 + 3)%nat. rewrite units_split.
    apply elem_of_union_r. exact Hu.
  - unfold pool. change (held ex_used) with (page_units (pages ex_used)).
    replace (pages ex_used) with (@nil Z) by (vm_compute; reflexivity).
    intros u Hu [(a & s & Hin & Hu')%elem_of_free_units|(p & []%elem_of_nil & _)%elem_of_page_units]%elem_of_union.
    apply units_bounds in Hu, Hu'. unfold ex_taken, UNIT in *.
    apply elem_of_cons in Hin as [E|[E|[]%elem_of_nil]%elem_of_cons]; injection E as -> ->;
      unfold ex_base, ex_page in *; lia.
Defined.

(** A block of three units has 32 usable bytes; [krealloc] to 48 keeps it. *)
Lemma krealloc_too_small_witness : krealloc ex_base 10 (ex_taken + UNIT) 48 ex_used = Ok (ex_taken + UNIT, ex_used).
Proof.
  apply (krealloc_too_small ex_base 10 ex_used (ex_taken + UNIT) 3 48).
  - vm_compute. reflexivity.
  - vm_compute. reflexivity.
  - lia.
  - unfold UNIT. lia.
  - unfold UNIT. lia.
Defined.

(** [kpage_free] is documented to accept a null pointer; it panics. *)
Lemma kpage_free_null kernel_end available_memory h :
  0 < kernel_end → kpage_free kernel_end available_memory 0 h = Err (EPanic "kpage_free within kernel memory").
Proof.
  intros Hk. unfold kpage_free. change (DEVBASE <=? V2IO 0) with false. cbn [negb Z.eqb Z.modulo].
  change (negb (0 mod PGSIZE =? 0)) with false. by rewrite (proj2 (Z.ltb_lt _ _)) by done.
Qed.
End Kalloc.
