(* ===== verification/Umalloc.v ===== *)
(** * The C library's malloc (userspace/libc/umalloc.c)

    The K&R allocator of [Heap] over the break of the process.  [sbrk] stands
    for the system call ([sys_sbrk] and [growproc]): [limit] is how far the
    break can be moved before the kernel runs out of memory. *)

From S2P Require Import Prelude Heap HeapAlloc.

Module Umalloc.

Import Heap HeapAlloc.

Record ubrk := mkbrk {
  brk : Z;
  limit : Z;
}.

Abbreviation uheap := (heap ubrk).
Abbreviation U := (M uheap).

(** New memory is zeroed. *)
Definition grow (w : gmap Z Z) (a : Z) (k : nat) : gmap Z Z :=
  foldr (λ i w, <[a + 8 * Z.of_nat i := 0]> w) w (seq 0 k).
Definition shrink (w : gmap Z Z) (a : Z) : gmap Z Z := filter (λ x, x.1 < a) w.

(** [sbrk(n)]: the old break, or -1.  A decrement below 0 wraps to an address
    above the break, which [deallocuvm] ignores. *)
Definition sbrk (n : Z) : U Z :=
  e ← gets ext;
  let a := brk e in
  if 0 <? n then
    if limit e <? a + n then mret (-1)
    else
      _ ← modify (λ h, mkheap (grow (words h) a (Z.to_nat (n / 8))) (freep h) (mkbrk (a + n) (limit e)));
      mret a
  else if (n <? 0) && (a + n =? 0) then mret (-1)
  else if (n <? 0) && (0 <? a + n) then
    _ ← modify (λ h, mkheap (shrink (words h) (a + n)) (freep h) (mkbrk (a + n) (limit e)));
    mret a
  else mret a.

Definition MORECORE_THRESHOLD : Z := 4096.

(** The part of [allocate_units] that gets memory; [Heap.morecore] is the
    rest. *)
Definition brk_core (nu : Z) : U (option (Z * Z)) :=
  let nu := if nu <? MORECORE_THRESHOLD then MORECORE_THRESHOLD else nu in
  p ← sbrk (s64 (u64 (nu * UNIT)));
  if p =? -1 then mret None else mret (Some (p, nu)).

Definition allocate_units (nu : Z) : U Z := morecore brk_core false nu.

Section malloc.
Variable base : Z.

Definition free (ap : Z) : U unit := free_block false ap.
Definition malloc (fuel : nat) (nbytes : Z) : U Z := malloc_block brk_core false base fuel nbytes.
Definition realloc (fuel : nat) (ptr size : Z) : U Z := realloc_block brk_core false base fuel ptr size.

(** [ckd_mul] reports a product that does not fit in a [size_t]. *)
Definition calloc (fuel : nat) (nmemb sz : Z) : U Z :=
  if 2 ^ 64 <=? nmemb * sz then mret 0
  else calloc_block brk_core false base fuel (nmemb * sz).
End malloc.

(** ** The break as a source of memory *)

Lemma grow_out w a k x : (∀ i : nat, (i < k)%nat → x ≠ a + 8 * i) → grow w a k !! x = w !! x.
Proof.
  unfold grow. assert (∀ l, (∀ i : nat, i ∈ l → x ≠ a + 8 * i) →
    foldr (λ i w, <[a + 8 * Z.of_nat i := 0]> w) w l !! x = w !! x) as H.
  { induction l as [|i l IH]; intros Hl; [done|]. cbn. rewrite lookup_insert_ne.
    - apply IH. intros j Hj. apply Hl. by right.
    - apply not_eq_sym, Hl. left. }
  intros Hx. apply H. intros i Hi%elem_of_seq. apply Hx. lia.
Qed.

Lemma grow_in w a k (i : nat) : (i < k)%nat → grow w a k !! (a + 8 * i) = Some 0.
Proof.
  unfold grow. assert (∀ l : list nat, i ∈ l →
    foldr (λ i w, <[a + 8 * Z.of_nat i := 0]> w) w l !! (a + 8 * i) = Some 0) as H.
  { induction l as [|j l IH]; [by intros ?%elem_of_nil|]. cbn. rewrite elem_of_cons, lookup_insert.
    case_decide; [done|]. intros [->|Hi]; [lia|by apply IH]. }
  intros Hi. apply H. apply elem_of_seq. lia.
Qed.

Record brk_ok (h : uheap) : Prop := {
  bk_pos : 0 < brk (ext h);
  bk_al : brk (ext h) mod UNIT = 0;
  bk_lim : brk (ext h) ≤ limit (ext h) ≤ 2 ^ 47;
}.

Definition brk_held (h : uheap) : gset Z :=
  units (brk (ext h)) (Z.to_nat ((limit (ext h) - brk (ext h)) / UNIT)).

Lemma brk_core_ok h nu :
  brk_ok h → 0 < nu ≤ 2 ^ 50 →
  wp (brk_core nu) (λ r h', freep h' = freep h ∧
    match r with
    | None => h' = h
    | Some (a, n) => ∃ k : nat, n = k ∧ (0 < k)%nat ∧ a = brk (ext h) ∧ a + UNIT * k ≤ limit (ext h) ∧
        words h' = grow (words h) a (2 * k) ∧ ext h' = mkbrk (a + UNIT * k) (limit (ext h))
    end) h.
Proof.
  intros [Hp Hal Hlim] Hnu. unfold brk_core, MORECORE_THRESHOLD.
  set (n := if nu <? 4096 then 4096 else nu).
  assert (0 < n ≤ 2 ^ 50) as Hn by (unfold n; zcase; lia). clearbody n.
  assert (s64 (u64 (n * UNIT)) = n * UNIT) as ->.
  { unfold UNIT. rewrite wrap_small by lia. rewrite sx_small; [done|change (64 - 1) with 63; lia|lia]. }
  apply wp_bind. unfold sbrk. do 2 wp_step. rewrite (proj2 (Z.ltb_lt _ _)) by (unfold UNIT; lia).
  destruct (Z.ltb_spec (limit (ext h)) (brk (ext h) + n * UNIT)).
  { by apply wp_ret. }
  wp_step. wp_step. apply wp_ret. rewrite (proj2 (Z.eqb_neq _ _)) by lia. apply wp_ret.
  split; [done|]. exists (Z.to_nat n). cbn [words ext freep]. rewrite Z2Nat.id by lia.
  split_and!; [done|lia|done|lia| |].
  - assert (n * UNIT / 8 = 2 * n) as -> by (unfold UNIT; symmetry; apply Z.div_unique_exact; lia).
    f_equal. lia.
  - f_equal. lia.
Qed.

#[export] Program Instance brk_laws : CoreLaws brk_core := {
  held := brk_held;
  core_ok := brk_ok;
  core_max := 2 ^ 50;
}.
Next Obligation.
  intros h nu Hok Hnu. eapply wp_mono; [by apply brk_core_ok|]. intros r h' [Ef Hr].
  destruct r as [[a n]|]; [|by subst]. destruct Hr as (k & -> & Hk & -> & Hlim & Ew & Ee).
  destruct Hok as [Hp Hal Hl]. pose proof (Z.div_mod (limit (ext h) - brk (ext h)) UNIT ltac:(done)) as Hdm.
  pose proof (Z.mod_pos_bound (limit (ext h) - brk (ext h)) UNIT ltac:(done)) as Hmb.
  assert ((brk (ext h) + UNIT * k) mod UNIT = 0) as Hal' by by rewrite Z.mul_comm, Z_mod_plus_full.
  split; [split; rewrite Ee; cbn; [unfold UNIT in *; lia|done|lia]|]. split; [done|]. exists k.
  set (m := Z.to_nat ((limit (ext h) - brk (ext h)) / UNIT)).
  assert (k ≤ m)%nat as Hkm.
  { unfold m. apply Nat2Z.inj_le. rewrite Z2Nat.id by (apply Z.div_pos; unfold UNIT; lia).
    apply Z.div_le_lower_bound; [done|lia]. }
  unfold brk_held. rewrite Ee. cbn. fold m.
  assert (Z.to_nat ((limit (ext h) - (brk (ext h) + UNIT * k)) / UNIT) = (m - k)%nat) as ->.
  { unfold m. replace (limit (ext h) - (brk (ext h) + UNIT * k))
      with ((limit (ext h) - brk (ext h)) + (- k) * UNIT) by lia.
    rewrite Z.div_add by done. lia. }
  assert (units (brk (ext h)) m = units (brk (ext h)) k ∪ units (brk (ext h) + UNIT * k) (m - k)) as Eu.
  { rewrite <- units_split. f_equal. lia. }
  split_and!; try done.
  - lia.
  - rewrite Eu. set_solver.
  - rewrite Eu. apply set_eq. intros u. rewrite elem_of_difference, elem_of_union. split; [|naive_solver].
    intros Hu. split; [by right|]. intros Hu'. apply units_bounds in Hu, Hu'. unfold UNIT in *. lia.
  - intros u (i & Hi & ->)%elem_of_units. rewrite Ew. unfold UNIT.
    replace (brk (ext h) + 16 * i) with (brk (ext h) + 8 * (2 * i)%nat) by lia.
    replace (brk (ext h) + 8 * (2 * i)%nat + 8) with (brk (ext h) + 8 * (2 * i + 1)%nat) by lia.
    rewrite !grow_in by lia. eauto.
  - intros x Hx. rewrite Ew. apply grow_out. intros i Hi ->.
    destruct (Hx (brk (ext h) + UNIT * (i / 2)%nat)) as [H1 H2].
    { apply elem_of_units. exists (i / 2)%nat. split; [|done]. apply Nat.Div0.div_lt_upper_bound. lia. }
    pose proof (Nat.div_mod_eq i 2). pose proof (Nat.mod_upper_bound i 2 ltac:(lia)). unfold UNIT in *. lia.
Qed.
Next Obligation.
  intros h u [_ Hal _] Hu. by eapply units_mod.
Qed.
Next Obligation.
  intros h h' [H1 H2 H3] He _. unfold brk_held. rewrite He. split; [|done]. split; by rewrite He.
Qed.

(** ** Properties *)

(** C34. [malloc] near the top of the address space.  For a request of up to
    2^53 bytes, from a consistent heap, [malloc] returns 0 or a block of at
    least that many bytes, disjoint from all memory it still owns; but for the
    last fifteen values of [size_t] the rounding wraps around and it returns 0
    or a block that consists of its header only. *)
Theorem malloc_block_size base h l nbytes fuel :
  ready brk_core base h l → 0 < nbytes ≤ 2 ^ 53 ∨ 2 ^ 64 - 16 < nbytes < 2 ^ 64 →
  (alloc_fuel brk_core h l ≤ fuel)%nat →
  ∃ r h' l', malloc base fuel nbytes h = Ok (r, h') ∧ heap_inv brk_core base h' l' ∧
    ((r = 0 ∧ pool brk_core h' l' = pool brk_core h l) ∨
     ∃ b (n : nat), r = b + UNIT ∧ words h' !! (b + 8) = Some (Z.of_nat n) ∧
       pool brk_core h l = units b n ∪ pool brk_core h' l' ∧ units b n ## pool brk_core h' l' ∧
       (nbytes ≤ 2 ^ 53 → nbytes ≤ UNIT * (n - 1)) ∧ (2 ^ 64 - 16 < nbytes → n = 1%nat)).
Proof.
  intros Hr Hn Hf.
  assert (nbytes ≤ 2 ^ 53 → nbytes ≤ UNIT * (nunits nbytes - 1) < nbytes + UNIT) as Hlo.
  { intros Hle. unfold nunits, UNIT. rewrite wrap_small by lia.
    pose proof (Z.div_mod (nbytes + 16 - 1) 16 ltac:(done)).
    pose proof (Z.mod_pos_bound (nbytes + 16 - 1) 16 ltac:(done)). lia. }
  assert (2 ^ 64 - 16 < nbytes → nunits nbytes = 1) as Hhi.
  { intros Hgt. unfold nunits, UNIT, wrap.
    replace (nbytes + 16 - 1) with ((nbytes - (2 ^ 64 - 15)) + 1 * 2 ^ 64) by lia.
    rewrite Z_mod_plus_full, Z.mod_small, Z.div_small by lia. done. }
  assert (0 < nunits nbytes ≤ core_max) as Hmax.
  { cbn [core_max brk_laws]. unfold UNIT in Hlo. destruct Hn as [Hn|Hn]; [specialize (Hlo ltac:(lia)); lia|].
    rewrite Hhi; lia. }
  destruct (proj1 (wp_run _ _ _) (malloc_block_ok brk_core false base h l nbytes fuel Hr ltac:(lia) (proj2 Hmax) Hf))
    as (r & h' & E & l' & Hinv & _ & Hres).
  exists r, h', l'. split; [done|]. split; [done|].
  destruct Hres as [?|(b & -> & _ & _ & _ & Hw & _ & Hp & Hd)]; [by left|right].
  exists b, (Z.to_nat (nunits nbytes)). split_and!; try done.
  - intros Hle. specialize (Hlo Hle). rewrite Z2Nat.id; lia.
  - intros Hgt. by rewrite Hhi.
Qed.

Definition ex_base : Z := 0x1000.
Definition ex_uheap : uheap :=
  mkheap (<[ex_base := 0]> {[ex_base + 8 := 0]}) 0 (mkbrk 0x2000 0x20000).

Lemma ex_uheap_ready : ready brk_core ex_base ex_uheap [].
Proof.
  right. split_and!; [reflexivity|reflexivity|vm_compute; reflexivity|reflexivity|vm_compute; discriminate
    |eexists; vm_compute; reflexivity|eexists; vm_compute; reflexivity| |].
  - split; [vm_compute; reflexivity|reflexivity|]. cbn. lia.
  - intros u Hu. change (u ∈ brk_held ex_uheap) in Hu. unfold brk_held in Hu.
    apply units_bounds in Hu. cbn [brk ext ex_uheap] in Hu. unfold ex_base. lia.
Qed.

Lemma malloc_block_size_witness :
  ∃ r h' l', malloc ex_base (alloc_fuel brk_core ex_uheap []) (2 ^ 64 - 1) ex_uheap = Ok (r, h') ∧
    heap_inv brk_core ex_base h' l' ∧
    ((r = 0 ∧ pool brk_core h' l' = pool brk_core ex_uheap []) ∨
     ∃ b (n : nat), r = b + UNIT ∧ words h' !! (b + 8) = Some (Z.of_nat n) ∧
       pool brk_core ex_uheap [] = units b n ∪ pool brk_core h' l' ∧ units b n ## pool brk_core h' l' ∧
       (2 ^ 64 - 1 ≤ 2 ^ 53 → 2 ^ 64 - 1 ≤ UNIT * (n - 1)) ∧ (2 ^ 64 - 16 < 2 ^ 64 - 1 → n = 1%nat)).
Proof.
  apply (malloc_block_size ex_base ex_uheap [] (2 ^ 64 - 1) (alloc_fuel brk_core ex_uheap [])).
  - apply ex_uheap_ready.
  - right. lia.
  - apply Nat.le_refl.
Defined.

(** The overflow that [malloc] misses, [calloc] catches. *)
Lemma calloc_overflow base fuel nmemb sz h :
  2 ^ 64 ≤ nmemb * sz → calloc base fuel nmemb sz h = Ok (0, h).
Proof. intros Hov. unfold calloc. by rewrite (proj2 (Z.leb_le _ _)). Qed.

(** [realloc] has the defect of [krealloc]. *)
Lemma realloc_too_small base fuel h ptr n size :
  0 < ptr → words h !! (ptr - UNIT + 8) = Some n → 0 < n → UNIT * (n - 1) < size ≤ UNIT * n →
  UNIT * n < 2 ^ 64 → realloc base fuel ptr size h = Ok (ptr, h).
Proof.
  intros Hp Hw Hn Hs Ht. unfold realloc, realloc_block. rewrite (proj2 (Z.eqb_neq _ _)) by lia.
  erewrite bind_run; [|unfold load; rewrite gets_bind, Hw; reflexivity].
  rewrite wrap_small by (unfold UNIT in *; lia). by rewrite (proj2 (Z.leb_le _ _)) by lia.
Qed.
End Umalloc.
