(* ===== verification/Vm.v ===== *)
(** * Virtual memory (kernel/vm.c)

    A page directory has 512 entries; each present one points to a page table
    of 512 entries, and each present entry of a table maps a page.  The tables
    live in the same word-addressed memory as the kernel heap, and their pages
    come from the page allocator of [Kalloc].  The two upper levels, which the
    processor also walks, are built once per address space by [setupkvm]. *)

From S2P Require Import Prelude Heap HeapAlloc Kalloc.

Module Vm.
Import Heap HeapAlloc Kalloc.

Definition PTE_P : Z := 1.
Definition PTE_W : Z := 2.
Definition PTE_U : Z := 4.
Definition PTE_PWT : Z := 8.
Definition PTE_PS : Z := 128.
Definition PTE_COW : Z := 512.

Definition NPDENTRIES : Z := 512.
Definition NPTENTRIES : Z := 512.
Definition PTXSHIFT : Z := 12.
Definition PDXSHIFT : Z := 21.
Definition PDPTXSHIFT : Z := 30.
Definition PML4XSHIFT : Z := 39.
Definition PXMASK : Z := 0x1FF.

Definition PML4X (va : Z) : Z := Z.land (Z.shiftr va PML4XSHIFT) PXMASK.
Definition PDPTX (va : Z) : Z := Z.land (Z.shiftr va PDPTXSHIFT) PXMASK.
Definition PDX (va : Z) : Z := Z.land (Z.shiftr va PDXSHIFT) PXMASK.
Definition PTX (va : Z) : Z := Z.land (Z.shiftr va PTXSHIFT) PXMASK.

(** [~0xFFF] is an [int], extended to the width of the entry. *)
Definition PTE_ADDR (pte : Z) : Z := Z.land pte (u64 (Z.lnot 0xFFF)).
Definition PTE_FLAGS (pte : Z) : Z := Z.land (s32 pte) 0xFFF.

Definition p2v (a : Z) : Z := u64 (a + KERNBASE).
Definition v2p (a : Z) : Z := u64 (a - KERNBASE).

Definition EFAULT : Z := 14.
Definition EINVAL : Z := 22.
Definition ENOMEM : Z := 12.

(** Is the bit [b] set in the entry [e]? *)
Definition has (e b : Z) : bool := negb (Z.land e b =? 0).

(** [memset(p, 0, PGSIZE)] and [memmove(p, q, PGSIZE)] on whole pages. *)
Definition clear_page (p : Z) : K unit := clear_words 512 p.
Definition copy_page (p q : Z) : K unit := copy_words 512 p q.

(** One byte of a word in memory, and [memmove] of the bytes [l] to [a]. *)
Definition set_byte (v i b : Z) : Z :=
  Z.lor (Z.ldiff v (Z.shiftl 255 (8 * i))) (Z.shiftl (u8 b) (8 * i)).
Definition store_byte (a b : Z) : K unit :=
  let q := a - a mod 8 in
  v ← load q;
  store q (set_byte v (a mod 8) b).
Fixpoint store_bytes (a : Z) (l : list Z) : K unit :=
  match l with
  | [] => mret tt
  | b :: l => _ ← store_byte a b; store_bytes (a + 1) l
  end.

Section vm.
Variables kernel_end available_memory : Z.
Abbreviation page_free := (kpage_free kernel_end available_memory).

(** The address of the entry for [va], 0 for a null pointer. *)
Definition walkpgdir (pgdir va : Z) (alloc : bool) : K Z :=
  let pde := pgdir + 8 * PDX va in
  e ← load pde;
  if has e PTE_P then mret (p2v (PTE_ADDR e) + 8 * PTX va)
  else if negb alloc then mret 0
  else
    pgtab ← kpage_alloc;
    if pgtab =? 0 then mret 0
    else
      _ ← clear_page pgtab;
      _ ← store pde (Z.lor (Z.lor (Z.lor (V2P pgtab) PTE_P) PTE_W) PTE_U);
      mret (pgtab + 8 * PTX va).

Fixpoint map_loop (fuel : nat) (pgdir a last pa perm : Z) : K Z :=
  match fuel with
  | O => fail EFuel
  | S fuel =>
      pte ← walkpgdir pgdir a true;
      if pte =? 0 then mret (-1)
      else
        e ← load pte;
        if has e PTE_P then panic "remap"
        else
          _ ← store pte (Z.lor pa perm);
          if a =? last then mret 0
          else map_loop fuel pgdir (u64 (a + PGSIZE)) last (u64 (pa + PGSIZE)) perm
  end.

(** The loop runs from the page of [va] to the page of the last byte, through
    the end of the address space when that is before it. *)
Definition mappages_perm (pgdir va size pa perm : Z) : K Z :=
  let a := PGROUNDDOWN va in
  let last := PGROUNDDOWN (u64 (va + size - 1)) in
  map_loop (S (Z.to_nat (u64 (last - a) / PGSIZE))) pgdir a last pa perm.

Definition mappages (pgdir va size pa perm : Z) : K Z :=
  mappages_perm pgdir va size pa (Z.lor perm PTE_P).

Definition mappages_cow (pgdir va size pa perm : Z) : K Z :=
  mappages_perm pgdir va size pa (Z.lor perm PTE_COW).

(** [init] holds the [sz] bytes of the program. *)
Definition inituvm (pgdir : Z) (init : list Z) : K unit :=
  if PGSIZE <=? length init then panic "inituvm: more than a page"
  else
    mem ← kpage_alloc;
    _ ← clear_page mem;
    _ ← mappages pgdir 0 PGSIZE (V2P mem) (Z.lor PTE_W PTE_U);
    store_bytes mem init.

(** The pages a loop from [a] below [top] visits. *)
Definition npages (a top : Z) : nat := Z.to_nat ((top - a + PGSIZE - 1) / PGSIZE).

Fixpoint dealloc_loop (fuel : nat) (pgdir a oldsz : Z) : K unit :=
  if oldsz <=? a then mret tt
  else
    match fuel with
    | O => fail EFuel
    | S fuel =>
        pte ← walkpgdir pgdir a false;
        if pte =? 0 then
          dealloc_loop fuel pgdir (u64 (a + (NPTENTRIES - 1) * PGSIZE + PGSIZE)) oldsz
        else
          e ← load pte;
          _ ← (if has e PTE_P then
                 let pa := PTE_ADDR e in
                 if pa =? 0 then panic "kpage_free"
                 else
                   _ ← (if KERNBASE <? p2v pa then page_free (p2v pa) else mret tt);
                   store pte 0
               else mret tt);
          dealloc_loop fuel pgdir (u64 (a + PGSIZE)) oldsz
    end.

Definition deallocuvm (pgdir oldsz newsz : Z) : K Z :=
  if oldsz <=? newsz then mret oldsz
  else
    let a := PGROUNDUP newsz in
    _ ← dealloc_loop (npages a oldsz) pgdir a oldsz;
    mret newsz.

Fixpoint alloc_loop (fuel : nat) (pgdir a oldsz newsz : Z) : K Z :=
  if newsz <=? a then mret newsz
  else
    match fuel with
    | O => fail EFuel
    | S fuel =>
        mem ← kpage_alloc;
        if mem =? 0 then
          _ ← deallocuvm pgdir newsz oldsz;
          mret 0
        else
          _ ← clear_page mem;
          r ← mappages pgdir a PGSIZE (V2P mem) (Z.lor PTE_W PTE_U);
          if r <? 0 then
            _ ← deallocuvm pgdir newsz oldsz;
            _ ← page_free mem;
            mret 0
          else alloc_loop fuel pgdir (u64 (a + PGSIZE)) oldsz newsz
    end.

Definition allocuvm (pgdir oldsz newsz : Z) : K Z :=
  if KERNBASE <=? newsz then mret 0
  else if newsz <? oldsz then mret oldsz
  else
    let a := PGROUNDUP oldsz in
    alloc_loop (npages a newsz) pgdir a oldsz newsz.

Fixpoint alloc_cow_loop (fuel : nat) (pgdir a oldsz newsz : Z) : K Z :=
  if newsz <=? a then mret newsz
  else
    match fuel with
    | O => fail EFuel
    | S fuel =>
        r ← mappages_cow pgdir a PGSIZE 0 (Z.lor PTE_W PTE_U);
        if r <? 0 then
          _ ← deallocuvm pgdir newsz oldsz;
          mret 0
        else alloc_cow_loop fuel pgdir (u64 (a + PGSIZE)) oldsz newsz
    end.

Definition allocuvm_cow (pgdir oldsz newsz : Z) : K Z :=
  if KERNBASE <=? newsz then mret 0
  else if newsz <? oldsz then mret oldsz
  else
    let a := PGROUNDUP oldsz in
    alloc_cow_loop (npages a newsz) pgdir a oldsz newsz.

(** [alloc_user_bytes] takes its pages from [kmalloc], whose static header is
    at [base]; the result pairs the return value with [*phys_addr]. *)
Section user_bytes.
Variables (base : Z) (malloc_fuel : nat).

Fixpoint user_bytes_loop (fuel : nat) (pgdir i newsize virt_addr phys : Z) : K (Z * Z) :=
  if newsize <=? i then mret (0, phys)
  else
    match fuel with
    | O => fail EFuel
    | S fuel =>
        mem ← kmalloc base malloc_fuel PGSIZE;
        if mem =? 0 then mret (- ENOMEM, phys)
        else
          let phys := if i =? 0 then V2P mem else phys in
          r ← mappages pgdir (u64 (i + PGROUNDUP virt_addr)) PGSIZE (V2P mem) (Z.lor PTE_W PTE_U);
          if r <? 0 then
            _ ← kfree mem;
            mret (- ENOMEM, phys)
          else user_bytes_loop fuel pgdir (u64 (i + PGSIZE)) newsize virt_addr phys
    end.

Definition alloc_user_bytes (pgdir size virt_addr phys : Z) : K (Z * Z) :=
  if size =? 0 then mret (- EINVAL, phys)
  else if pgdir =? 0 then mret (- EINVAL, phys)
  else
    let newsize := PGROUNDUP size in
    user_bytes_loop (npages 0 newsize) pgdir 0 newsize virt_addr phys.
End user_bytes.

(** Entries [i] to [NPDENTRIES - 2] of the directory. *)
Fixpoint free_tables (k : nat) (pgdir i : Z) : K unit :=
  match k with
  | O => mret tt
  | S k =>
      e ← load (pgdir + 8 * i);
      _ ← (if has e PTE_P then page_free (p2v (PTE_ADDR e)) else mret tt);
      free_tables k pgdir (i + 1)
  end.

Definition USERTOP : Z := 0x1da00000.

Definition freevm (pgdir : Z) : K unit :=
  if pgdir =? 0 then panic "freevm: no pgdir"
  else
    _ ← deallocuvm pgdir USERTOP 0;
    _ ← free_tables (Z.to_nat (NPDENTRIES - 2)) pgdir 0;
    page_free pgdir.

Definition clear_pte_mask (pgdir va mask : Z) : K unit :=
  pte ← walkpgdir pgdir va false;
  if pte =? 0 then panic "set_pte_mask"
  else e ← load pte; store pte (Z.land e (u64 (Z.lnot mask))).

Definition set_pte_mask (pgdir va mask : Z) : K unit :=
  pte ← walkpgdir pgdir va false;
  if pte =? 0 then panic "set_pte_mask"
  else e ← load pte; store pte (Z.lor e mask).

Definition clearpteu (pgdir uva : Z) : K unit := clear_pte_mask pgdir uva PTE_U.
Definition setpteu (pgdir uva : Z) : K unit := set_pte_mask pgdir uva PTE_U.

Definition unmap_user_page (pgdir va : Z) : K unit :=
  pte ← walkpgdir pgdir va false;
  if pte =? 0 then panic "unmap_user_page: no page found"
  else store pte 0.

(** [kpdpt] is the table of the kernel half, made by [kvmalloc]. *)
Definition setupkvm (kpdpt : Z) : K Z :=
  pml4 ← kpage_alloc;
  pdpt ← kpage_alloc;
  pgdir ← kpage_alloc;
  _ ← clear_page pml4;
  _ ← clear_page pdpt;
  _ ← clear_page pgdir;
  _ ← store pml4 (Z.lor (Z.lor (Z.lor (v2p pdpt) PTE_P) PTE_W) PTE_U);
  _ ← store (pml4 + 8 * 511) (Z.lor (Z.lor (Z.lor (v2p kpdpt) PTE_P) PTE_W) PTE_U);
  _ ← store pdpt (Z.lor (Z.lor (Z.lor (v2p pgdir) PTE_P) PTE_W) PTE_U);
  _ ← store (pgdir + 8 * 511) (Z.lor pml4 PTE_P);
  _ ← store (pgdir + 8 * 510) (Z.lor pdpt PTE_P);
  mret pgdir.

Fixpoint copy_loop (fuel : nat) (pgdir d i sz : Z) : K Z :=
  if sz <=? i then mret d
  else
    match fuel with
    | O => fail EFuel
    | S fuel =>
        pte ← walkpgdir pgdir i false;
        if pte =? 0 then panic "copyuvm: pte should exist"
        else
          e ← load pte;
          if negb (has e PTE_P) then panic "copyuvm: page not present"
          else
            let pa := PTE_ADDR e in
            let flags := PTE_FLAGS e in
            mem ← kpage_alloc;
            if mem =? 0 then _ ← freevm d; mret 0
            else
              _ ← copy_page mem (p2v pa);
              r ← mappages d i PGSIZE (V2P mem) flags;
              if r <? 0 then
                _ ← page_free mem;
                _ ← freevm d;
                mret 0
              else copy_loop fuel pgdir d (u64 (i + PGSIZE)) sz
    end.

Definition copyuvm (kpdpt pgdir sz : Z) : K Z :=
  d ← setupkvm kpdpt;
  if d =? 0 then mret 0
  else copy_loop (npages 0 sz) pgdir d 0 sz.

Definition uva2ka (pgdir uva : Z) : K Z :=
  pte ← walkpgdir pgdir uva false;
  if pte =? 0 then mret 0
  else
    e ← load pte;
    if negb (has e PTE_P) then mret 0
    else if negb (has e PTE_U) then mret 0
    else mret (p2v (PTE_ADDR e)).

Fixpoint copyout_loop (fuel : nat) (pgdir va : Z) (buf : list Z) : K Z :=
  if (length buf =? 0)%nat then mret 0
  else
    match fuel with
    | O => fail EFuel
    | S fuel =>
        let va0 := u32 (PGROUNDDOWN va) in
        pa0 ← uva2ka pgdir va0;
        if pa0 =? 0 then mret (- EFAULT)
        else
          let n0 := u64 (PGSIZE - (va - va0)) in
          let n := if length buf <? n0 then Z.of_nat (length buf) else n0 in
          _ ← store_bytes (u64 (pa0 + (va - va0))) (take (Z.to_nat n) buf);
          copyout_loop fuel pgdir (u64 (va0 + PGSIZE)) (drop (Z.to_nat n) buf)
    end.

(** Every iteration copies at least one byte. *)
Definition copyout (pgdir va : Z) (buf : list Z) : K Z := copyout_loop (length buf) pgdir va buf.
End vm.

(** ** The kernel's own address space *)

Record kvm := mkkvm { kpml4 : Z; kpdpt : Z; kpgdir0 : Z; kpgdir1 : Z; iopgdir : Z }.

(** The two directories that map physical memory with 2 MiB pages. *)
Fixpoint map_linear (k : nat) (v : kvm) (n : Z) : K unit :=
  match k with
  | O => mret tt
  | S k =>
      _ ← store (kpgdir0 v + 8 * n) (Z.lor (Z.lor (Z.lor (Z.shiftl n PDXSHIFT) PTE_PS) PTE_P) PTE_W);
      _ ← store (kpgdir1 v + 8 * n) (Z.lor (Z.lor (Z.lor (Z.shiftl (n + 512) PDXSHIFT) PTE_PS) PTE_P) PTE_W);
      map_linear k v (n + 1)
  end.

Fixpoint map_framebuffer (k : nat) (v : kvm) (fb_addr n : Z) : K unit :=
  match k with
  | O => mret tt
  | S k =>
      _ ← store (iopgdir v + 8 * n)
        (Z.lor (Z.lor (Z.lor (Z.lor (u64 (fb_addr + Z.shiftl n PDXSHIFT)) PTE_PS) PTE_P) PTE_W) PTE_PWT);
      map_framebuffer k v fb_addr (n + 1)
  end.

(** [fb_addr] is the address of the framebuffer the boot loader reports.  The
    final [switchkvm] loads the physical address of [kpml4] into [cr3]. *)
Definition kvmalloc (fb_addr : Z) : K (kvm * Z) :=
  p4 ← kpage_alloc;
  p3 ← kpage_alloc;
  d0 ← kpage_alloc;
  d1 ← kpage_alloc;
  io ← kpage_alloc;
  let v := mkkvm p4 p3 d0 d1 io in
  _ ← clear_page p4;
  _ ← clear_page p3;
  _ ← clear_page io;
  _ ← store (p4 + 8 * 511) (Z.lor (Z.lor (v2p p3) PTE_P) PTE_W);
  _ ← store (p3 + 8 * 511) (Z.lor (Z.lor (v2p d1) PTE_P) PTE_W);
  _ ← store (p3 + 8 * 510) (Z.lor (Z.lor (v2p d0) PTE_P) PTE_W);
  _ ← store (p3 + 8 * 509) (Z.lor (Z.lor (v2p io) PTE_P) PTE_W);
  _ ← map_linear (Z.to_nat NPDENTRIES) v 0;
  _ ← map_framebuffer 16 v fb_addr 0;
  mret (v, v2p p4).

(** What [switchuvm] loads into [cr3] for an address space. *)
Definition uvm_cr3 (pgdir : Z) : K Z :=
  if pgdir =? 0 then panic "switchuvm: no pgdir"
  else e ← load (pgdir + 8 * 511); mret (v2p (PTE_ADDR e)).
End Vm.
