(* ===== verification/VmTable.v ===== *)
(** * Page tables in memory

    The arithmetic of page table entries, who owns each page, and what
    [walkpgdir] and a store into a table do to the translation. *)

From S2P Require Import Prelude Heap HeapAlloc Kalloc Vm.

Module VmTable.
Import Heap HeapAlloc Kalloc Vm.

(** ** Entries *)

Lemma pte_addr_eq e : 0 ≤ e < 2 ^ 64 → PTE_ADDR e = e / 4096 * 4096.
Proof. intros He. unfold PTE_ADDR. change (u64 (Z.lnot 0xFFF)) with (2 ^ 64 - 2 ^ 12). by apply land_page. Qed.

Lemma land_aligned a b : a mod 4096 = 0 → 0 ≤ b < 4096 → Z.land a b = 0.
Proof.
  intros Hm Hb. apply Z.mod_divide in Hm as [q ->]; [|done]. change 4096 with (2 ^ 12).
  rewrite <- Z.shiftl_mul_pow2 by lia. apply Z.bits_inj'. intros n Hn. rewrite Z.land_spec, Z.bits_0.
  destruct (decide (n < 12)); [by rewrite Z.shiftl_spec_low|].
  rewrite <- (Z.mod_small b (2 ^ 12)) by (change (2 ^ 12) with 4096; lia).
  by rewrite Z.mod_pow2_bits_high, andb_false_r by lia.
Qed.

Lemma lor_flags a f : a mod 4096 = 0 → 0 ≤ f < 4096 → Z.lor a f = a + f.
Proof.
  intros Ha Hf. pose proof (land_aligned a f Ha Hf) as E. rewrite <- Z.lxor_lor by done.
  symmetry. by apply Z.add_nocarry_lxor.
Qed.

(** An entry for the physical page [a]. *)
Lemma entry_addr a f : 0 ≤ a < 2 ^ 64 → a mod 4096 = 0 → 0 ≤ f < 4096 → PTE_ADDR (Z.lor a f) = a.
Proof.
  intros Ha Hm Hf. rewrite lor_flags by done. apply Z.mod_divide in Hm as [q ->]; [|done].
  rewrite pte_addr_eq by lia. rewrite Z.add_comm, Z.div_add, Z.div_small by lia. lia.
Qed.

Lemma entry_has a f b : a mod 4096 = 0 → 0 ≤ b < 4096 → has (Z.lor a f) b = has f b.
Proof. intros Hm Hb. unfold has. by rewrite Z.land_lor_distr_l, land_aligned. Qed.

Lemma index_eq va k : 0 ≤ k → Z.land (Z.shiftr va k) PXMASK = (va / 2 ^ k) mod 512.
Proof.
  intros Hk. change PXMASK with (Z.ones 9). rewrite Z.land_ones by lia. by rewrite Z.shiftr_div_pow2.
Qed.

Lemma pdx_eq va : PDX va = (va / 2 ^ 21) mod 512.
Proof. by apply index_eq. Qed.

Lemma ptx_eq va : PTX va = (va / 4096) mod 512.
Proof. by apply (index_eq va 12). Qed.

Lemma ptx_range va : 0 ≤ PTX va < 512.
Proof. rewrite ptx_eq. apply Z.mod_pos_bound. lia. Qed.

Lemma rounddown_eq va : 0 ≤ va < 2 ^ 64 → PGROUNDDOWN va = va / 4096 * 4096.
Proof. apply land_page. Qed.

(** The user part of an address space: the directory entries below the two
    that hold back pointers. *)
Definition UTOP : Z := 510 * 2 ^ 21.

Lemma pdx_range va : 0 ≤ va < UTOP → PDX va = va / 2 ^ 21 ∧ 0 ≤ PDX va < 510.
Proof.
  intros Hva. unfold UTOP in *. rewrite pdx_eq.
  assert (0 ≤ va / 2 ^ 21 < 510) as H by (split; [apply Z.div_pos; lia|apply Z.div_lt_upper_bound; lia]).
  rewrite Z.mod_small by lia. done.
Qed.

(** Two addresses have the same entry when they are in the same page. *)
Lemma same_entry va va' :
  0 ≤ va < UTOP → 0 ≤ va' < UTOP → PDX va = PDX va' → PTX va = PTX va' → va / 4096 = va' / 4096.
Proof.
  intros H1 H2. rewrite (proj1 (pdx_range _ H1)), (proj1 (pdx_range _ H2)), !ptx_eq. intros Ed Et.
  assert (∀ x, x / 2 ^ 21 = x / 4096 / 512) as E by (intros x; rewrite Z.div_div by lia; done).
  rewrite !E in Ed. rewrite (Z.div_mod (va / 4096) 512), (Z.div_mod (va' / 4096) 512) by done. by rewrite Ed, Et.
Qed.

Lemma same_page va va' : va / 4096 = va' / 4096 → PDX va = PDX va' ∧ PTX va = PTX va'.
Proof.
  intros E. rewrite !ptx_eq, E, !pdx_eq.
  replace (2 ^ 21) with (4096 * 512) by done. rewrite <- !Z.div_div by lia. by rewrite E.
Qed.

(** ** Pages in memory *)

Definition cell (w : gmap Z Z) (p i : Z) : option Z := w !! (p + 8 * i).

Definition page_mapped (w : gmap Z Z) (p : Z) : Prop := ∀ i, 0 ≤ i < 512 → is_Some (cell w p i).

Lemma page_mapped_units w p : page_mapped w p ↔ mapped w (units p 256).
Proof.
  unfold page_mapped, cell. split.
  - intros H u (i & Hi & ->)%elem_of_units. unfold UNIT. split.
    + replace (p + 16 * i) with (p + 8 * (2 * i)) by lia. apply H. lia.
    + replace (p + 16 * i + 8) with (p + 8 * (2 * i + 1)) by lia. apply H. lia.
  - intros H i Hi. pose proof (Z.div_mod i 2 ltac:(done)) as E. pose proof (Z.mod_pos_bound i 2 ltac:(done)).
    assert (p + 16 * (i / 2) ∈ units p 256) as Hu.
    { apply elem_of_units. exists (Z.to_nat (i / 2)). unfold UNIT.
      assert (0 ≤ i / 2 < 256) by (split; [apply Z.div_pos; lia|apply Z.div_lt_upper_bound; lia]). split; lia. }
    destruct (H _ Hu). destruct (decide (i mod 2 = 0)).
    + replace (p + 8 * i) with (p + 16 * (i / 2)) by lia. done.
    + replace (p + 8 * i) with (p + 16 * (i / 2) + 8) by lia. done.
Qed.

(** Words of distinct pages are distinct. *)
Lemma cell_ne p q i j : p mod 4096 = 0 → q mod 4096 = 0 → 0 ≤ i < 512 → 0 ≤ j < 512 →
  p + 8 * i = q + 8 * j → p = q ∧ i = j.
Proof.
  intros Hp Hq Hi Hj E. apply Z.mod_divide in Hp as [a ->]; [|done]. apply Z.mod_divide in Hq as [b ->]; [|done].
  assert (a = b) by lia. split; lia.
Qed.

Lemma cell_insert w p i v q j : p mod 4096 = 0 → q mod 4096 = 0 → 0 ≤ i < 512 → 0 ≤ j < 512 →
  cell (<[p + 8 * i := v]> w) q j = if decide (q = p ∧ j = i) then Some v else cell w q j.
Proof.
  intros Hp Hq Hi Hj. unfold cell. case_decide as H.
  - destruct H as [-> ->]. apply lookup_insert_eq.
  - apply lookup_insert_ne. intros E. apply H. symmetry in E. apply (cell_ne q p) in E; tauto.
Qed.

(** [p] has the same words in both memories. *)
Definition page_same (w w' : gmap Z Z) (p : Z) : Prop := ∀ i, 0 ≤ i < 512 → cell w' p i = cell w p i.

Lemma page_same_refl w p : page_same w w p.
Proof. done. Qed.

Lemma page_same_trans w1 w2 w3 p : page_same w1 w2 p → page_same w2 w3 p → page_same w1 w3 p.
Proof. intros H1 H2 i Hi. by rewrite H2, H1. Qed.

(** A change of the page [p] only. *)
Definition only_page (p : Z) (w w' : gmap Z Z) : Prop :=
  (∀ a, (∀ i, 0 ≤ i < 512 → a ≠ p + 8 * i) → w' !! a = w !! a) ∧ (∀ a, is_Some (w !! a) → is_Some (w' !! a)).

Lemma only_page_refl p w : only_page p w w.
Proof. done. Qed.

Lemma only_page_trans p w1 w2 w3 : only_page p w1 w2 → only_page p w2 w3 → only_page p w1 w3.
Proof. intros [H1 M1] [H2 M2]. split; [intros a Ha; by rewrite H2, H1|auto]. Qed.

Lemma only_page_insert p i v w : 0 ≤ i < 512 → only_page p w (<[p + 8 * i := v]> w).
Proof.
  intros Hi. split.
  - intros a Ha. rewrite lookup_insert_ne; [done|]. intros E. by apply (Ha i).
  - intros a Ha. rewrite lookup_insert. case_decide; eauto.
Qed.

Lemma only_page_same p q w w' : only_page p w w' → p mod 4096 = 0 → q mod 4096 = 0 → q ≠ p → page_same w w' q.
Proof.
  intros [H _] Hp Hq Hne i Hi. apply H. intros j Hj E. apply Hne. by apply (cell_ne q p i j) in E as [].
Qed.

Lemma page_mapped_mono w w' p : (∀ a, is_Some (w !! a) → is_Some (w' !! a)) → page_mapped w p → page_mapped w' p.
Proof. intros H Hp i Hi. by apply H, Hp. Qed.

(** ** Filling pages *)

Lemma clear_words_ok k i (h : kheap) p :
  0 ≤ i → i + Z.of_nat k ≤ 512 → (∀ j, i ≤ j < i + k → is_Some (cell (words h) p j)) →
  wp (clear_words k (p + 8 * i)) (λ _ h', freep h' = freep h ∧ ext h' = ext h ∧ only_page p (words h) (words h') ∧
    (∀ j, i ≤ j < i + k → cell (words h') p j = Some 0) ∧
    (∀ j, 0 ≤ j < i → cell (words h') p j = cell (words h) p j)) h.
Proof.
  revert i h. induction k as [|k IH]; intros i h Hi Hk Hm; cbn [clear_words].
  { apply wp_ret. split_and!; [done|done|apply only_page_refl|intros; lia|done]. }
  apply wp_bind. apply wp_store; [apply Hm; lia|].
  replace (p + 8 * i + 8) with (p + 8 * (i + 1)) by lia.
  set (h1 := set_words _ h).
  assert (∀ j, j ≠ i → cell (words h1) p j = cell (words h) p j) as Hne.
  { intros j Hj. unfold cell. cbn. rewrite lookup_insert_ne; [done|lia]. }
  eapply wp_mono; [apply (IH (i + 1) h1); [lia|lia|]|].
  { intros j Hj. rewrite Hne by lia. apply Hm. lia. }
  intros [] h' (E1 & E2 & Ho & Hz & Hl). split_and!; [done|done|..].
  - eapply only_page_trans; [apply (only_page_insert p i 0); lia|]. done.
  - intros j Hj. destruct (decide (j = i)) as [->|]; [|apply Hz; lia].
    rewrite Hl by lia. unfold cell. cbn. apply lookup_insert_eq.
  - intros j Hj. rewrite Hl by lia. apply Hne. lia.
Qed.

Lemma clear_page_ok (h : kheap) p :
  page_mapped (words h) p →
  wp (clear_page p) (λ _ h', freep h' = freep h ∧ ext h' = ext h ∧ only_page p (words h) (words h') ∧
    ∀ j, 0 ≤ j < 512 → cell (words h') p j = Some 0) h.
Proof.
  intros Hm. unfold clear_page. replace p with (p + 8 * 0) at 1 by lia.
  eapply wp_mono; [apply clear_words_ok; [lia|lia|]|].
  - intros j Hj. apply Hm. lia.
  - intros [] h' (E1 & E2 & Ho & Hz & _). split_and!; try done; intros j Hj; apply Hz; lia.
Qed.

Lemma copy_words_ok k i (h : kheap) p q :
  p mod 4096 = 0 → q mod 4096 = 0 → p ≠ q →
  0 ≤ i → i + Z.of_nat k ≤ 512 → page_mapped (words h) p → page_mapped (words h) q →
  wp (copy_words k (p + 8 * i) (q + 8 * i)) (λ _ h', freep h' = freep h ∧ ext h' = ext h ∧
    only_page p (words h) (words h') ∧
    (∀ j, i ≤ j < i + k → cell (words h') p j = cell (words h) q j) ∧
    (∀ j, 0 ≤ j < i → cell (words h') p j = cell (words h) p j)) h.
Proof.
  intros Hp Hq Hne. revert i h. induction k as [|k IH]; intros i h Hi Hk Hm Hm'; cbn [copy_words].
  { apply wp_ret. split_and!; [done|done|apply only_page_refl|intros; lia|done]. }
  destruct (Hm' i ltac:(lia)) as [v Hv].
  apply wp_bind. eapply wp_load; [apply Hv|].
  apply wp_bind. apply wp_store; [apply Hm; lia|].
  replace (p + 8 * i + 8) with (p + 8 * (i + 1)) by lia.
  replace (q + 8 * i + 8) with (q + 8 * (i + 1)) by lia.
  set (h1 := set_words _ h).
  assert (only_page p (words h) (words h1)) as Ho1 by (apply only_page_insert; lia).
  assert (page_same (words h) (words h1) q) as Hs1 by (by eapply only_page_same).
  eapply wp_mono; [apply (IH (i + 1) h1); [lia|lia|..]|].
  { eapply page_mapped_mono; [apply Ho1|done]. }
  { eapply page_mapped_mono; [apply Ho1|done]. }
  intros [] h' (E1 & E2 & Ho & Hz & Hl). split_and!; [done|done|..].
  - by eapply only_page_trans.
  - intros j Hj. destruct (decide (j = i)) as [->|]; [|rewrite Hz by lia; apply Hs1; lia].
    rewrite Hl by lia. unfold cell in *. cbn. by rewrite lookup_insert_eq.
  - intros j Hj. rewrite Hl by lia. unfold cell. cbn. rewrite lookup_insert_ne; [done|lia].
Qed.

Lemma copy_page_ok (h : kheap) p q :
  p mod 4096 = 0 → q mod 4096 = 0 → p ≠ q → page_mapped (words h) p → page_mapped (words h) q →
  wp (copy_page p q) (λ _ h', freep h' = freep h ∧ ext h' = ext h ∧ only_page p (words h) (words h') ∧
    ∀ j, 0 ≤ j < 512 → cell (words h') p j = cell (words h) q j) h.
Proof.
  intros Hp Hq Hne Hm Hm'. unfold copy_page.
  pose proof (copy_words_ok 512 0 h p q Hp Hq Hne ltac:(lia) ltac:(lia) Hm Hm') as H.
  rewrite !Z.add_0_r in H. eapply wp_mono; [apply H|].
  intros [] h' (E1 & E2 & Ho & Hz & _). split_and!; try done; intros j Hj; apply Hz; lia.
Qed.

(** ** Ownership of pages *)

(** What a page is used for: nothing, the directory of an address space, the
    table for entry [i] of directory [d], the user page number [n] of the
    address space [d], or something else. *)
Inductive role := RFree | RDir | RTable (d i : Z) | RFrame (d n : Z) | ROther.

#[global] Instance role_eq_dec : EqDecision role.
Proof. solve_decision. Defined.

Section own.
Context (kernel_end available_memory : Z).

Abbreviation kpage := (page_ok kernel_end available_memory).

Implicit Types (h : kheap) (G : gmap Z role).

(** The entry of a directory for the table [t]. *)
Definition dir_entry (t : Z) : Z := Z.lor (Z.lor (Z.lor (V2P t) PTE_P) PTE_W) PTE_U.

(** The pages of [G] are kernel pages and all of their words exist, the free
    ones are those of the page allocator's list, and the tables of each
    directory are exactly the pages its present entries point to. *)
Record tables h G : Prop := {
  tb_page p r : G !! p = Some r → kpage p ∧ KERNBASE < p ∧ page_mapped (words h) p;
  tb_free : ∃ ps, free_pages h ps ∧ ∀ p, p ∈ ps ↔ G !! p = Some RFree;
  tb_dir d i e : G !! d = Some RDir → 0 ≤ i < 510 → cell (words h) d i = Some e → has e PTE_P = true →
    G !! p2v (PTE_ADDR e) = Some (RTable d i);
  tb_table t d i : G !! t = Some (RTable d i) →
    G !! d = Some RDir ∧ 0 ≤ i < 510 ∧
    ∃ e, cell (words h) d i = Some e ∧ has e PTE_P = true ∧ p2v (PTE_ADDR e) = t ∧ e = dir_entry t;
}.

(** The entry for [va] in the address space [d]: where it is, and its value; 0
    where there is no table. *)
Definition pte_loc h (d va : Z) : option Z :=
  match cell (words h) d (PDX va) with
  | Some e => if has e PTE_P then Some (p2v (PTE_ADDR e)) else None
  | None => None
  end.

Definition pte h (d va : Z) : Z :=
  match pte_loc h d va with
  | Some t => default 0 (cell (words h) t (PTX va))
  | None => 0
  end.

Section facts.
Context h G (Htb : tables h G).

Lemma page_aligned p r : G !! p = Some r → p mod 4096 = 0.
Proof. intros Hp. by apply Htb in Hp as [(_ & ? & _) _]. Qed.

Lemma page_bounds p r : G !! p = Some r → KERNBASE < p ∧ p + 4096 ≤ 2 ^ 64.
Proof. intros Hp. by apply Htb in Hp as ((_ & _ & ? & _) & ? & _). Qed.

Lemma page_cell p r i : G !! p = Some r → 0 ≤ i < 512 → is_Some (cell (words h) p i).
Proof. intros Hp Hi. apply Htb in Hp as (_ & _ & Hm). by apply Hm. Qed.

Lemma pte_loc_Some d va t :
  G !! d = Some RDir → 0 ≤ va < UTOP → pte_loc h d va = Some t ↔ G !! t = Some (RTable d (PDX va)).
Proof.
  intros Hd Hva. destruct (pdx_range va Hva) as [_ Hi]. unfold pte_loc. split.
  - destruct (cell (words h) d (PDX va)) as [e|] eqn:Ee; [|done]. destruct (has e PTE_P) eqn:Hp; [|done].
    intros [= <-]. by eapply tb_dir.
  - intros Ht. apply Htb in Ht as (_ & _ & e & -> & -> & -> & _). done.
Qed.

(** A table is only used for one entry. *)
Lemma table_unique t t' d i : G !! t = Some (RTable d i) → G !! t' = Some (RTable d i) → t = t'.
Proof.
  intros (_ & _ & e & He & _ & <- & _)%(tb_table _ _ Htb) (_ & _ & e' & He' & _ & <- & _)%(tb_table _ _ Htb).
  by simplify_eq.
Qed.

Lemma walk_run d va :
  G !! d = Some RDir → 0 ≤ va < UTOP →
  walkpgdir d va false h = Ok (match pte_loc h d va with Some t => t + 8 * PTX va | None => 0 end, h).
Proof.
  intros Hd Hva. destruct (pdx_range va Hva) as [_ Hi]. destruct (page_cell d _ (PDX va) Hd ltac:(lia)) as [e He].
  unfold walkpgdir, pte_loc. erewrite bind_run.
  2: { unfold load. rewrite gets_bind. unfold cell in He. rewrite He. reflexivity. }
  rewrite He. by destruct (has e PTE_P).
Qed.
End facts.

(** Entries depend on the directory and on the table only. *)
Lemma pte_same h h' G d va :
  tables h G → G !! d = Some RDir → 0 ≤ va < UTOP → cell (words h') d (PDX va) = cell (words h) d (PDX va) →
  (∀ t, G !! t = Some (RTable d (PDX va)) → cell (words h') t (PTX va) = cell (words h) t (PTX va)) →
  pte h' d va = pte h d va.
Proof.
  intros Htb Hd Hva Ed Et. assert (pte_loc h' d va = pte_loc h d va) as El by (unfold pte_loc; by rewrite Ed).
  unfold pte. rewrite El. destruct (pte_loc h d va) as [t|] eqn:E; [|done].
  rewrite Et; [done|]. by apply (pte_loc_Some h G Htb d va).
Qed.

(** The page allocator's list survives changes of other pages. *)
Lemma free_pages_frame h h' ps :
  free_pages h ps → ext h' = ext h → (∀ a, is_Some (words h !! a) → is_Some (words h' !! a)) →
  (∀ p, p ∈ ps → page_same (words h) (words h') p) → free_pages h' ps.
Proof.
  intros [Hc Hnd Hp Hm Hl] He Hmono Hs. split; [..|by rewrite He]; try done.
  - rewrite He. eapply chained_frame; [|done]. intros a Ha. specialize (Hs a Ha 0 ltac:(lia)).
    unfold cell in Hs. by rewrite Z.add_0_r in Hs.
  - intros u Hu. destruct (Hm u Hu). split; by apply Hmono.
Qed.

(** A change of one page that is not free, not a directory and not a table
    keeps the structure; so does a change that keeps the entries of a
    directory. *)
Lemma tables_change h h' G p r :
  tables h G → G !! p = Some r → r ≠ RFree → ext h' = ext h → only_page p (words h) (words h') →
  (∀ i, r = RDir → 0 ≤ i < 510 → cell (words h') p i = cell (words h) p i) →
  tables h' G.
Proof.
  intros Htb Hp Hr He Ho Hdir. pose proof Ho as [_ Hmono].
  assert (∀ q s, G !! q = Some s → q ≠ p → page_same (words h) (words h') q) as Hs.
  { intros q s Hq Hne. eapply only_page_same; [done|by eapply page_aligned..|done]. }
  assert (∀ d i, G !! d = Some RDir → 0 ≤ i < 510 → cell (words h') d i = cell (words h) d i) as Hd.
  { intros d i Hd Hi. destruct (decide (d = p)) as [->|]; [simplify_eq; by apply Hdir|].
    eapply (Hs d); [done|done|lia]. }
  split.
  - intros q s Hq. destruct (tb_page _ _ Htb _ _ Hq) as (? & ? & Hm). split_and!; try done.
    by eapply page_mapped_mono.
  - destruct (tb_free _ _ Htb) as (ps & Hf & Hin). exists ps. split; [|done].
    eapply free_pages_frame; [done..|]. intros q Hq%Hin. apply (Hs q RFree); [done|]. intros ->. by simplify_eq.
  - intros d i e Hdd Hi He'. rewrite Hd in He' by done. by eapply tb_dir.
  - intros t d i Ht. destruct (tb_table _ _ Htb _ _ _ Ht) as (Hdd & Hi & e & He' & Hp' & Et & Ed).
    split; [done|]. split; [done|]. exists e. by rewrite Hd.
Qed.

(** ** Changing roles *)

(** A page that is neither free nor part of a page table. *)
Definition plain (r : role) : Prop := match r with ROther | RFrame _ _ => True | _ => False end.

Lemma tables_role h G p r r' :
  tables h G → G !! p = Some r → plain r → plain r' → tables h (<[p := r']> G).
Proof.
  intros Htb Hp Hr Hr'.
  assert (∀ q s, ¬ plain s → <[p := r']> G !! q = Some s ↔ G !! q = Some s) as Hne.
  { intros q s Hs. destruct (decide (q = p)) as [->|].
    - rewrite lookup_insert_eq. split; intros E; simplify_eq; tauto.
    - by rewrite lookup_insert_ne. }
  split.
  - intros q s. rewrite lookup_insert. case_decide as E; [|by apply Htb]. intros _. subst. by apply (tb_page _ _ Htb _ _ Hp).
  - destruct (tb_free _ _ Htb) as (ps & Hf & Hin). exists ps. split; [done|]. intros q. by rewrite Hne, Hin by (by intros []).
  - intros d i e Hd Hi He Hpe. rewrite Hne in Hd by (by intros []). rewrite Hne by (by intros []). by eapply tb_dir.
  - intros t d i Ht. rewrite Hne in Ht by (by intros []). rewrite Hne by (by intros []). by eapply tb_table.
Qed.

(** [kpage_alloc] takes a free page, or finds none. *)
Lemma kpage_alloc_own h G :
  tables h G →
  ∃ p h', kpage_alloc h = Ok (p, h') ∧ words h' = words h ∧ freep h' = freep h ∧
    ((p = 0 ∧ h' = h ∧ ∀ q, G !! q ≠ Some RFree) ∨
     (p ≠ 0 ∧ G !! p = Some RFree ∧ tables h' (<[p := ROther]> G))).
Proof.
  intros Htb. destruct (tb_free _ _ Htb) as (ps & Hf & Hin).
  do 2 eexists. split; [by apply kpage_alloc_run|]. split; [done|]. split; [done|].
  destruct ps as [|p ps]; cbn [hd tail].
  - left. split; [done|]. split.
    + destruct Hf as [Hc _ _ _ Hl]. cbn in Hc. destruct h as [w f [lk fl ul]]. cbn in *. by subst.
    + intros q Hq. apply Hin in Hq. by apply elem_of_nil in Hq.
  - right. pose proof Hf as [_ Hnd Hpg _ _]. apply NoDup_cons in Hnd as [Hnin _].
    assert (G !! p = Some RFree) as Hp by (apply Hin; left).
    split; [specialize (Hpg p ltac:(left)); lia|]. split; [done|]. split; cbn [words].
    + intros q s. rewrite lookup_insert. case_decide as E; [|by apply Htb]. intros _. subst. by apply (tb_page _ _ Htb _ _ Hp).
    + exists ps. split; [by eapply free_pages_tail|]. intros q. rewrite lookup_insert. case_decide as E.
      * subst. split; [done|by intros [=]].
      * rewrite <- Hin, elem_of_cons. split; [by right|]. intros [->|?]; done.
    + intros d i e Hd Hi He Hpe. rewrite lookup_insert in Hd. case_decide; [done|].
      rewrite lookup_insert_ne; [by eapply tb_dir|]. intros ->.
      pose proof (tb_dir _ _ Htb _ _ _ Hd Hi He Hpe). congruence.
    + intros t d i Ht. rewrite lookup_insert in Ht. case_decide; [done|].
      destruct (tb_table _ _ Htb _ _ _ Ht) as (Hd & Hrest). split; [|done].
      rewrite lookup_insert_ne; [done|]. intros ->. congruence.
Qed.

(** [kpage_free] of a page that is not part of a page table. *)
Lemma kpage_free_own h G p r :
  tables h G → G !! p = Some r → plain r →
  ∃ h', kpage_free kernel_end available_memory p h = Ok (tt, h') ∧ tables h' (<[p := RFree]> G) ∧
    freep h' = freep h ∧ only_page p (words h) (words h').
Proof.
  intros Htb Hp Hr. destruct (tb_page _ _ Htb _ _ Hp) as (Hk & _ & Hm).
  destruct (tb_free _ _ Htb) as (ps & Hf & Hin).
  assert (p ∉ ps) as Hnin by (intros Hx%Hin; rewrite Hp in Hx; by simplify_eq).
  assert (is_Some (words h !! p)) as Hw.
  { destruct (Hm 0 ltac:(lia)) as [v Hv]. unfold cell in Hv. rewrite Z.add_0_r in Hv. eauto. }
  eexists. split; [apply kpage_free_run; [done|apply Hf|done]|].
  set (h' := mkheap _ _ _).
  assert (only_page p (words h) (words h')) as Ho.
  { pose proof (only_page_insert p 0 (freelist (ext h)) (words h) ltac:(lia)) as Ho. by rewrite Z.add_0_r in Ho. }
  assert (∀ q s, G !! q = Some s → q ≠ p → page_same (words h) (words h') q) as Hs.
  { intros q s Hq Hne. eapply only_page_same; [done|by eapply page_aligned..|done]. }
  assert (∀ q s, s ≠ RFree → ¬ plain s → <[p := RFree]> G !! q = Some s ↔ G !! q = Some s) as Hne.
  { intros q s Hsf Hs'. destruct (decide (q = p)) as [->|].
    - rewrite lookup_insert_eq. split; intros E; simplify_eq; tauto.
    - by rewrite lookup_insert_ne. }
  assert (∀ d i, G !! d = Some RDir → 0 ≤ i < 510 → cell (words h') d i = cell (words h) d i) as Hd.
  { intros d i Hd Hi. apply (Hs d RDir); [done| |lia]. intros ->. by simplify_eq. }
  split; [|done]. split.
  - intros q s. rewrite lookup_insert. case_decide as E.
    + intros [= <-]. subst. destruct (tb_page _ _ Htb _ _ Hp) as (? & ? & ?). split_and!; try done.
      eapply page_mapped_mono; [apply Ho|done].
    + intros Hq. destruct (tb_page _ _ Htb _ _ Hq) as (? & ? & ?). split_and!; try done.
      eapply page_mapped_mono; [apply Ho|done].
  - assert (wp (kpage_free kernel_end available_memory p) (λ _ h1, free_pages h1 (p :: ps)) h) as Hw1.
    { eapply wp_mono; [apply (kpage_free_ok kernel_end available_memory h p ps); try done|].
      - by apply page_mapped_units.
      - by intros [] h1 [? _]. }
    unfold wp in Hw1. rewrite (kpage_free_run kernel_end available_memory h p Hk (fp_lock _ _ Hf) Hw) in Hw1.
    exists (p :: ps). split; [done|]. intros q. rewrite elem_of_cons, lookup_insert. case_decide as E.
    + subst. split; [done|by left].
    + rewrite <- Hin. split; [intros [->|?]; done|by right].
  - intros d i e Hdd Hi He Hpe. rewrite Hne in Hdd by (done || by intros []). rewrite Hd in He by done.
    rewrite Hne by (done || by intros []). by eapply tb_dir.
  - intros t d i Ht. rewrite Hne in Ht by (done || by intros []).
    destruct (tb_table _ _ Htb _ _ _ Ht) as (Hdd & Hi & e & He & Hpe & Ee & Ed).
    rewrite Hne by (done || by intros []). split; [done|]. split; [done|]. exists e. by rewrite Hd.
Qed.

(** ** Adding a table *)

Lemma v2p_page p : kpage p → V2P p = p - KERNBASE ∧ 0 ≤ V2P p < PHYSLIMIT ∧ V2P p mod 4096 = 0 ∧ p2v (V2P p) = p.
Proof.
  intros (Hk & Hm & Ht & _). unfold V2P, p2v, PGSIZE in *. pose proof (wrap_small 64 (p - KERNBASE)) as E.
  assert (KERNBASE = 2 ^ 64 - PHYSLIMIT) as EK by done. assert (PHYSLIMIT = 2 ^ 31) as EP by done.
  rewrite E by lia. split_and!; [done|lia|lia|..].
  - rewrite Zminus_mod, Hm. done.
  - rewrite wrap_small; lia.
Qed.

(** The entry that maps the page [p] with the flags [f]. *)
Lemma entry_page p f b :
  kpage p → 0 ≤ f < 4096 → 0 ≤ b < 4096 →
  p2v (PTE_ADDR (Z.lor (V2P p) f)) = p ∧ has (Z.lor (V2P p) f) b = has f b ∧ PTE_ADDR (Z.lor (V2P p) f) = V2P p.
Proof.
  intros Hp Hf Hb. destruct (v2p_page p Hp) as (_ & Hr & Hm & Hv). unfold PHYSLIMIT in Hr.
  rewrite entry_addr by lia. by rewrite entry_has.
Qed.

Lemma dir_entry_ok t : kpage t → p2v (PTE_ADDR (dir_entry t)) = t ∧ has (dir_entry t) PTE_P = true.
Proof.
  intros Ht. unfold dir_entry. rewrite <- !Z.lor_assoc.
  destruct (entry_page t 7 PTE_P Ht) as (E1 & E2 & _); [lia|done|]. by split.
Qed.

Section attach.
Context h G (d i t e0 : Z) (Htb : tables h G) (Hd : G !! d = Some RDir) (Hi : 0 ≤ i < 510).
Context (Ht : G !! t = Some ROther).
Context (He0 : cell (words h) d i = Some e0) (Hnp : has e0 PTE_P = false).
Context (Hz : ∀ j, 0 ≤ j < 512 → cell (words h) t j = Some 0).

Definition attached : kheap := set_words (<[d + 8 * i := dir_entry t]> (words h)) h.

Lemma attached_cell q r j : G !! q = Some r → 0 ≤ j < 512 →
  cell (words attached) q j = if decide (q = d ∧ j = i) then Some (dir_entry t) else cell (words h) q j.
Proof. intros Hq Hj. apply cell_insert; [by eapply page_aligned..|lia|lia]. Qed.

Lemma attached_tables : tables attached (<[t := RTable d i]> G).
Proof.
  destruct (tb_page _ _ Htb _ _ Ht) as (Hk & _ & _). destruct (dir_entry_ok t Hk) as [Ea Ep].
  assert (t ≠ d) as Htd by (intros ->; congruence).
  assert (only_page d (words h) (words attached)) as Ho by (apply only_page_insert; lia).
  assert (∀ q s, s ≠ RTable d i → s ≠ ROther → <[t := RTable d i]> G !! q = Some s ↔ G !! q = Some s) as Hne.
  { intros q s H1 H2. destruct (decide (q = t)) as [->|].
    - rewrite lookup_insert_eq. split; intros E; congruence.
    - by rewrite lookup_insert_ne. }
  split.
  - intros q s Hq. assert (∃ s', G !! q = Some s') as [s' Hq'].
    { rewrite lookup_insert in Hq. case_decide; [subst|]; eauto. }
    destruct (tb_page _ _ Htb _ _ Hq') as (? & ? & ?). split_and!; try done. eapply page_mapped_mono; [apply Ho|done].
  - destruct (tb_free _ _ Htb) as (ps & Hf & Hin). exists ps. split.
    + eapply free_pages_frame; [done|done|apply Ho|]. intros q Hq%Hin.
      eapply only_page_same; [done|by eapply page_aligned..|]. intros ->. congruence.
    + intros q. by rewrite Hne, Hin.
  - intros d' i' e Hd' Hi' He Hp'. rewrite Hne in Hd' by done. rewrite (attached_cell d' RDir) in He by (done || lia).
    case_decide as E.
    + destruct E as [-> ->]. simplify_eq. rewrite Ea. apply lookup_insert_eq.
    + pose proof (tb_dir _ _ Htb _ _ _ Hd' Hi' He Hp') as H. rewrite lookup_insert_ne; [done|]. intros Et. congruence.
  - intros t' d' i' Ht'. rewrite lookup_insert in Ht'. case_decide as E.
    + injection Ht' as <- <-. subst t'. rewrite Hne by done. split; [done|]. split; [done|]. exists (dir_entry t).
      rewrite (attached_cell d RDir), decide_True by (done || lia). done.
    + destruct (tb_table _ _ Htb _ _ _ Ht') as (Hd' & Hi' & e & He & Hp' & Et & Ed). rewrite Hne by done.
      split; [done|]. split; [done|]. exists e. rewrite (attached_cell d' RDir) by (done || lia).
      rewrite decide_False; [done|]. intros [-> ->]. congruence.
Qed.

Lemma attached_pte d' va : G !! d' = Some RDir → 0 ≤ va < UTOP → pte attached d' va = pte h d' va.
Proof.
  intros Hd' Hva. destruct (pdx_range va Hva) as [_ Hix]. pose proof (ptx_range va) as Hjx.
  destruct (decide (d' = d ∧ PDX va = i)) as [[-> Ei]|Hne].
  - destruct (tb_page _ _ Htb _ _ Ht) as (Hk & _ & _). destruct (dir_entry_ok t Hk) as [Ea Ep].
    unfold pte, pte_loc. rewrite (attached_cell d RDir), decide_True by (done || lia). rewrite Ep, Ea.
    rewrite (attached_cell t ROther) by (done || lia). rewrite decide_False by (intros [-> _]; congruence).
    rewrite Hz by lia. by rewrite Ei, He0, Hnp.
  - apply (pte_same h attached G); [done..| |].
    + rewrite (attached_cell d' RDir), decide_False by (done || lia). done.
    + intros t' Ht'. rewrite (attached_cell t' _ _ Ht'), decide_False by (done || intros [-> _]; congruence). done.
Qed.
End attach.

(** Only free pages get a new role, as tables of [d]. *)
Definition grows (d : Z) G G' : Prop :=
  ∀ p, G' !! p = G !! p ∨ (G !! p = Some RFree ∧ ∃ i, G' !! p = Some (RTable d i)).

Lemma grows_refl d G : grows d G G.
Proof. intros p. by left. Qed.

Lemma grows_trans d G1 G2 G3 : grows d G1 G2 → grows d G2 G3 → grows d G1 G3.
Proof.
  intros H1 H2 p. destruct (H2 p) as [->|[Hf Hi]]; [apply H1|].
  destruct (H1 p) as [E|[? (i & E)]]; [rewrite E in Hf; by right|congruence].
Qed.

Lemma grows_keep d G G' p r : grows d G G' → G !! p = Some r → r ≠ RFree → G' !! p = Some r.
Proof. intros Hg Hp Hr. destruct (Hg p) as [->|[? _]]; congruence. Qed.

(** Pages that are neither free nor part of a page table keep their words. *)
Definition keeps_pages G h h' : Prop := ∀ p r, G !! p = Some r → plain r → page_same (words h) (words h') p.

Lemma keeps_trans d G G' h1 h2 h3 : grows d G G' → keeps_pages G h1 h2 → keeps_pages G' h2 h3 → keeps_pages G h1 h3.
Proof.
  intros Hg H1 H2 p r Hp Hr. eapply page_same_trans; [by eapply H1|]. apply (H2 p r); [|done].
  eapply grows_keep; [done..|]. by intros ->.
Qed.

(** All address spaces of [G] keep their entries. *)
Definition same_ptes G h h' : Prop :=
  ∀ d va, G !! d = Some RDir → 0 ≤ va < UTOP → pte h' d va = pte h d va.

(** What [walkpgdir] with [alloc] does: it finds the table, adds one, or is
    out of pages. *)
Lemma walk_alloc h G d va :
  tables h G → G !! d = Some RDir → 0 ≤ va < UTOP →
  ∃ r h' G', walkpgdir d va true h = Ok (r, h') ∧ tables h' G' ∧ grows d G G' ∧ keeps_pages G h h' ∧
    freep h' = freep h ∧ same_ptes G h h' ∧
    ((r = 0 ∧ h' = h ∧ G' = G ∧ (∀ q, G !! q ≠ Some RFree) ∧ pte_loc h d va = None) ∨
     (∃ t, G' !! t = Some (RTable d (PDX va)) ∧ r = t + 8 * PTX va)).
Proof.
  intros Htb Hd Hva. destruct (pdx_range va Hva) as [_ Hi].
  destruct (page_cell h G Htb d _ (PDX va) Hd ltac:(lia)) as [e He]. unfold walkpgdir.
  assert (load (d + 8 * PDX va) h = Ok (e, h)) as El.
  { unfold load. rewrite gets_bind. unfold cell in He. by rewrite He. }
  rewrite (bind_run _ _ _ _ _ El). destruct (has e PTE_P) eqn:Hp.
  { do 3 eexists. split; [reflexivity|]. split_and!; [done|apply grows_refl|by intros ????|done|by intros ????|].
    right. exists (p2v (PTE_ADDR e)). split; [by eapply tb_dir|done]. }
  cbn [negb]. destruct (kpage_alloc_own h G Htb) as (p & h1 & Ea & Ew & Ef & [(-> & -> & Hno)|(Hp0 & Hfree & Htb1)]).
  { rewrite (bind_run _ _ _ _ _ Ea), Z.eqb_refl. do 3 eexists. split; [reflexivity|].
    split_and!; [done|apply grows_refl|by intros ????|done|by intros ????|]. left. split_and!; try done.
    unfold pte_loc. by rewrite He, Hp. }
  rewrite (bind_run _ _ _ _ _ Ea), (proj2 (Z.eqb_neq _ _)) by done.
  set (G1 := <[p := ROther]> G) in *.
  assert (G1 !! p = Some ROther) as Hp1 by apply lookup_insert_eq.
  assert (p ≠ d) as Hpd by congruence.
  assert (∀ q r, G !! q = Some r → r ≠ RFree → q ≠ p) as Hqp by congruence.
  assert (G1 !! d = Some RDir) as Hd1 by (unfold G1; by rewrite lookup_insert_ne).
  destruct (tb_page _ _ Htb1 _ _ Hp1) as (Hk & _ & Hm).
  destruct (proj1 (wp_run _ _ _) (clear_page_ok h1 p Hm)) as ([] & h2 & Ec & Ef2 & Ee2 & Ho & Hz).
  rewrite (bind_run _ _ _ _ _ Ec).
  assert (tables h2 G1) as Htb2 by (by apply (tables_change h1 h2 G1 p ROther)).
  assert (page_same (words h) (words h2) d) as Hsd.
  { rewrite <- Ew. eapply only_page_same; [done|by eapply page_aligned|by eapply (page_aligned h G)|done]. }
  assert (cell (words h2) d (PDX va) = Some e) as He2 by (rewrite Hsd by lia; done).
  assert (store (d + 8 * PDX va) (dir_entry p) h2 = Ok (tt, attached h2 d (PDX va) p)) as Es.
  { unfold store, load. rewrite bind_assoc, gets_bind. unfold cell in He2. rewrite He2. reflexivity. }
  unfold dir_entry in Es at 1. rewrite (bind_run _ _ _ _ _ Es).
  exists (p + 8 * PTX va), (attached h2 d (PDX va) p), (<[p := RTable d (PDX va)]> G1).
  split; [done|]. split; [by eapply attached_tables|].
  assert (∀ q r, G !! q = Some r → r ≠ RFree → page_same (words h) (words h2) q) as Hs.
  { intros q r Hq Hr. rewrite <- Ew. eapply only_page_same; [done|by eapply page_aligned|by eapply (page_aligned h G)|].
    by eapply Hqp. }
  split_and!.
  - intros q. destruct (decide (q = p)) as [->|].
    + right. split; [done|]. exists (PDX va). apply lookup_insert_eq.
    + left. unfold G1. by rewrite !lookup_insert_ne.
  - intros q r Hq Hr. eapply page_same_trans; [eapply Hs; [done|by intros ->]|].
    eapply only_page_same; [apply only_page_insert; lia|by eapply page_aligned|by eapply (page_aligned h G)|].
    intros ->. rewrite Hd in Hq. by injection Hq as <-.
  - cbn. congruence.
  - intros d' x Hd' Hx. rewrite (attached_pte h2 G1 d (PDX va) p e) by (done || unfold G1; rewrite lookup_insert_ne; congruence).
    apply (pte_same h h2 G); [done..| |].
    + apply (Hs d' RDir); [done|done|]. destruct (pdx_range x Hx). lia.
    + intros t Ht. apply (Hs t _ Ht); [done|]. apply ptx_range.
  - right. exists p. split; [apply lookup_insert_eq|done].
Qed.
End own.
End VmTable.
