(* ===== verification/VmMap.v ===== *)
(** * Mapping and unmapping user pages

    What [mappages], [allocuvm], [deallocuvm], [copyuvm], [freevm] and
    [copyout] do to the entries of an address space and to the pages. *)

From S2P Require Import Prelude Heap HeapAlloc Kalloc Vm VmTable.

Module VmMap.
Import Heap HeapAlloc Kalloc Vm VmTable.

Lemma load_run (h : kheap) a v : words h !! a = Some v → load a h = Ok (v, h).
Proof. intros Hv. unfold load. by rewrite gets_bind, Hv. Qed.

Lemma store_run (h : kheap) a v : is_Some (words h !! a) → store a v h = Ok (tt, set_words (<[a := v]> (words h)) h).
Proof. intros [x Hx]. unfold store, load. by rewrite bind_assoc, gets_bind, Hx. Qed.

Section map.
Context (kernel_end available_memory : Z).

Abbreviation kpage := (page_ok kernel_end available_memory).
Abbreviation tables := (tables kernel_end available_memory).
Abbreviation page_free := (kpage_free kernel_end available_memory).

Implicit Types (h : kheap) (G : gmap Z role).

(** ** Storing an entry *)

Definition with_pte h (t j v : Z) : kheap := set_words (<[t + 8 * j := v]> (words h)) h.

Section entry.
Context h G (d i t : Z) (Htb : tables h G) (Ht : G !! t = Some (RTable d i)).

Lemma with_pte_cell q r j k v : G !! q = Some r → 0 ≤ j < 512 → 0 ≤ k < 512 →
  cell (words (with_pte h t j v)) q k = if decide (q = t ∧ k = j) then Some v else cell (words h) q k.
Proof. intros Hq Hj Hk. apply cell_insert; [by eapply page_aligned..|lia|lia]. Qed.

Lemma with_pte_tables j v : 0 ≤ j < 512 → tables (with_pte h t j v) G.
Proof. intros Hj. eapply tables_change; [done..| |done]. by apply only_page_insert. Qed.

Lemma with_pte_pte j v d' x :
  0 ≤ j < 512 → G !! d' = Some RDir → 0 ≤ x < UTOP →
  pte (with_pte h t j v) d' x = if decide (d' = d ∧ PDX x = i ∧ PTX x = j) then v else pte h d' x.
Proof.
  intros Hj Hd' Hx. destruct (pdx_range x Hx) as [_ Hi]. pose proof (ptx_range x) as Hjx.
  assert (∀ d, G !! d = Some RDir → cell (words (with_pte h t j v)) d (PDX x) = cell (words h) d (PDX x)) as Hdir.
  { intros d1 Hd1. rewrite (with_pte_cell d1 RDir), decide_False; [done| |done|done|lia]. intros [-> _]. congruence. }
  assert (∀ t', G !! t' = Some (RTable d' (PDX x)) → t' = t → d' = d ∧ PDX x = i) as Heq by (intros; simplify_eq; done).
  case_decide as E.
  - destruct E as (-> & Ei & Ej). assert (pte_loc h d x = Some t) as El by (apply (pte_loc_Some _ _ h G Htb); [done..|by rewrite Ei]).
    unfold pte. replace (pte_loc (with_pte h t j v) d x) with (Some t).
    2: { symmetry. rewrite <- El. unfold pte_loc. by rewrite Hdir. }
    rewrite (with_pte_cell t _ _ _ _ Ht), decide_True by done. done.
  - eapply pte_same; [done..|by apply Hdir|]. intros t' Ht'. rewrite (with_pte_cell t' _ _ _ _ Ht') by done.
    rewrite decide_False; [done|]. intros [-> Ej]. apply E. by destruct (Heq t).
Qed.

Lemma with_pte_keeps j v : 0 ≤ j < 512 → keeps_pages G h (with_pte h t j v).
Proof.
  intros Hj p r Hp Hr k Hk. rewrite (with_pte_cell p _ _ _ _ Hp) by done. rewrite decide_False; [done|].
  intros [-> _]. rewrite Ht in Hp. by injection Hp as <-.
Qed.
End entry.

(** The address of an entry is not null. *)
Lemma entry_nonnull h G t r va : tables h G → G !! t = Some r → t + 8 * PTX va ≠ 0.
Proof.
  intros Htb Ht. destruct (page_bounds _ _ h G Htb t r Ht). pose proof (ptx_range va).
  unfold KERNBASE, PHYSLIMIT in *. lia.
Qed.

Lemma same_entry_iff va x : 0 ≤ va < UTOP → 0 ≤ x < UTOP → (PDX x = PDX va ∧ PTX x = PTX va) ↔ x / 4096 = va / 4096.
Proof.
  intros Hva Hx. split; [intros [? ?]; by apply same_entry|apply same_page].
Qed.

(** ** [mappages] *)

(** One iteration: the entry for [a] is found or its table made, or no page is
    left for the table. *)
Lemma map_one h G d a v :
  tables h G → G !! d = Some RDir → 0 ≤ a < UTOP →
  ∃ r h1 G1, walkpgdir d a true h = Ok (r, h1) ∧ tables h1 G1 ∧ grows d G G1 ∧ keeps_pages G h h1 ∧
    freep h1 = freep h ∧ same_ptes G h h1 ∧
    ((r = 0 ∧ ∀ q, G1 !! q ≠ Some RFree) ∨
     (r ≠ 0 ∧ words h1 !! r = Some (pte h d a) ∧
      let h2 := set_words (<[r := v]> (words h1)) h1 in
      tables h2 G1 ∧ keeps_pages G h h2 ∧
      ∀ d' x, G !! d' = Some RDir → 0 ≤ x < UTOP →
        pte h2 d' x = if decide (d' = d ∧ x / 4096 = a / 4096) then v else pte h d' x)).
Proof.
  intros Htb Hd Ha. pose proof (ptx_range a) as Hj.
  destruct (walk_alloc kernel_end available_memory h G d a Htb Hd Ha)
    as (r & h1 & G1 & Ew & Htb1 & Hg & Hk & Ef & Hp & Hr).
  exists r, h1, G1. split_and!; [done..|]. destruct Hr as [(-> & _ & -> & Hno & _)|(t & Ht & ->)]; [by left|right].
  split; [by eapply entry_nonnull|].
  assert (∀ d', G !! d' = Some RDir → G1 !! d' = Some RDir) as Hd1 by (intros d' ?; by eapply grows_keep).
  split.
  - destruct (page_cell _ _ h1 G1 Htb1 t _ (PTX a) Ht Hj) as [e He].
    rewrite <- (Hp d a Hd Ha). unfold pte. rewrite (proj2 (pte_loc_Some _ _ h1 G1 Htb1 d a t (Hd1 d Hd) Ha)) by done.
    rewrite He. exact He.
  - split; [by apply (with_pte_tables h1 G1 d (PDX a))|]. split.
    + eapply keeps_trans; [done..|]. by apply (with_pte_keeps h1 G1 d (PDX a)).
    + intros d' x Hd' Hx. unshelve epose proof (with_pte_pte h1 G1 d (PDX a) t Htb1 Ht (PTX a) v d' x Hj _ Hx) as E; [by apply Hd1|].
      unfold with_pte in E. rewrite E, (Hp d' x Hd' Hx). apply decide_ext. by rewrite (same_entry_iff a x).
Qed.

(** The pages [a], [a + PGSIZE], ... of which there are [m]. *)
Definition in_run (a m x : Z) : Prop := a ≤ x < a + m * PGSIZE.
#[global] Instance in_run_dec a m x : Decision (in_run a m x).
Proof. unfold in_run. apply _. Defined.

Lemma in_run_first a x : a mod 4096 = 0 → x / 4096 = a / 4096 ↔ in_run a 1 x.
Proof.
  intros Ha. apply Z.mod_divide in Ha as [q ->]; [|done]. rewrite Z.div_mul by done. unfold in_run, PGSIZE.
  pose proof (Z.div_mod x 4096 ltac:(done)). pose proof (Z.mod_pos_bound x 4096 ltac:(done)). split; [lia|].
  intros Hb. symmetry. apply (Z.div_unique x 4096 q (x - q * 4096)); lia.
Qed.

(** The result of mapping [m] pages from [a] at physical addresses from [pa]. *)
Definition mapped_run (G : gmap Z role) h h' (d a m pa perm : Z) : Prop :=
  ∀ d' x, G !! d' = Some RDir → 0 ≤ x < UTOP →
    pte h' d' x = if decide (d' = d ∧ in_run a m x) then Z.lor (pa + (x / 4096 * 4096 - a)) perm else pte h d' x.

Lemma mapped_run_cons G G1 h h2 h3 d a m pa perm :
  a mod 4096 = 0 → 0 ≤ m → grows d G G1 →
  (∀ d' x, G !! d' = Some RDir → 0 ≤ x < UTOP →
     pte h2 d' x = if decide (d' = d ∧ x / 4096 = a / 4096) then Z.lor pa perm else pte h d' x) →
  mapped_run G1 h2 h3 d (a + 4096) m (pa + 4096) perm → mapped_run G h h3 d a (m + 1) pa perm.
Proof.
  intros Ha Hm Hg H1 H2 d' x Hd' Hx. rewrite (H2 d' x) by (by eapply grows_keep || done). rewrite (H1 d' x) by done.
  pose proof (in_run_first a x Ha) as Hf. unfold in_run, PGSIZE in *.
  destruct (decide (d' = d)) as [->|]; [|rewrite !decide_False by tauto; done].
  destruct (decide (x / 4096 = a / 4096)) as [E|E].
  - pose proof (proj1 Hf E). rewrite decide_False by lia. rewrite !decide_True by (split; [done|lia]).
    f_equal. rewrite E. apply Z.mod_divide in Ha as [q ->]; [|done]. rewrite Z.div_mul by done. lia.
  - rewrite (decide_False (P := _ ∧ x / 4096 = _)) by tauto. destruct (decide (a + 4096 ≤ x < a + 4096 + m * 4096)).
    + rewrite !decide_True by (split; [done|lia]). f_equal. lia.
    + rewrite !decide_False by (intros [_ ?]; lia || (apply E, Hf; lia)). done.
Qed.

Lemma map_loop_S n d a last pa perm :
  map_loop (S n) d a last pa perm =
    pte ← walkpgdir d a true;
    if pte =? 0 then mret (-1)
    else
      e ← load pte;
      if has e PTE_P then panic "remap"
      else
        _ ← store pte (Z.lor pa perm);
        if a =? last then mret 0 else map_loop n d (u64 (a + PGSIZE)) last (u64 (pa + PGSIZE)) perm.
Proof. done. Qed.

Lemma map_loop_ok (n : nat) h G d a pa perm :
  tables h G → G !! d = Some RDir → 0 ≤ a → a mod 4096 = 0 → a + (n + 1) * 4096 ≤ UTOP →
  0 ≤ pa → pa + n * 4096 < 2 ^ 64 →
  (∀ x, in_run a (n + 1) x → has (pte h d x) PTE_P = false) →
  ∃ r h' G' (m : nat), map_loop (S n) d a (a + n * 4096) pa perm h = Ok (r, h') ∧
    tables h' G' ∧ grows d G G' ∧ keeps_pages G h h' ∧ freep h' = freep h ∧ mapped_run G h h' d a m pa perm ∧
    ((r = 0 ∧ m = S n) ∨ (r = -1 ∧ (m ≤ n)%nat ∧ ∀ q, G' !! q ≠ Some RFree)).
Proof.
  revert h G a pa. induction n as [|n IH]; intros h G a pa Htb Hd Ha Hal Htop Hpa Hpt Hnp.
  all: destruct (map_one h G d a (Z.lor pa perm) Htb Hd ltac:(lia)) as (r & h1 & G1 & Ew & Htb1 & Hg & Hk & Ef & Hp & Hr).
  all: rewrite map_loop_S, (bind_run _ _ _ _ _ Ew); clear Ew.
  all: assert (mapped_run G h h1 d a 0 pa perm) as Hm0
    by (intros d' x Hd' Hx; rewrite decide_False by (unfold in_run; lia); by apply Hp).
  all: destruct Hr as [(-> & Hno)|(Hr & He & Htb2 & Hk2 & Hp2)];
    [exists (-1), h1, G1, 0%nat; split_and!; try done; right; split_and!; (done || lia)|].
  all: rewrite (proj2 (Z.eqb_neq _ _)) by done; rewrite (bind_run _ _ _ _ _ (load_run _ _ _ He)).
  all: rewrite (Hnp a) by (unfold in_run, PGSIZE; lia).
  all: rewrite (bind_run _ _ _ _ _ (store_run h1 r _ ltac:(eauto))).
  - rewrite (proj2 (Z.eqb_eq _ _)) by lia. do 2 eexists. exists G1, 1%nat. split; [reflexivity|].
    split_and!; [done..| |by left]. change (Z.of_nat 1) with (0 + 1).
    apply (mapped_run_cons G G1 h (set_words (<[r:=Z.lor pa perm]> (words h1)) h1)); [done|done|done|done|].
    intros d' x Hd' Hx. by rewrite decide_False by (unfold in_run; lia).
  - rewrite (proj2 (Z.eqb_neq _ _)) by lia. unfold PGSIZE at 1 2. unfold UTOP in *. rewrite !wrap_small by lia.
    set (h2 := set_words _ _) in *.
    replace (a + Z.of_nat (S n) * 4096) with (a + 4096 + n * 4096) by lia.
    destruct (IH h2 G1 (a + 4096) (pa + 4096)) as (r' & h' & G' & m & E & Htb' & Hg' & Hk' & Ef' & Hm & Hres).
    + done.
    + by eapply grows_keep.
    + lia.
    + by rewrite <- Zplus_mod_idemp_r, Z_mod_same_full, Z.add_0_r.
    + lia.
    + lia.
    + lia.
    + intros x Hx. unfold in_run, PGSIZE in *. rewrite (Hp2 d x Hd) by (unfold UTOP; lia). rewrite decide_False.
      * apply Hnp. lia.
      * intros [_ E%in_run_first]; [|done]. unfold in_run, PGSIZE in E. lia.
    + exists r', h', G', (S m). split_and!; [exact E|done|by eapply grows_trans|by eapply keeps_trans|cbn in Ef'; congruence|..].
      * replace (Z.of_nat (S m)) with (m + 1) by lia. by eapply mapped_run_cons; [| |exact Hg|..]; [|lia|..].
      * destruct Hres as [[-> ->]|(-> & ? & ?)]; [by left|right]. split_and!; [done|lia|done].
Qed.

Lemma mappages_perm_ok h G d va size pa perm :
  tables h G → G !! d = Some RDir → 0 ≤ va → 0 < size → va + size ≤ UTOP → 0 ≤ pa → pa + size + 4096 ≤ 2 ^ 64 →
  let a := va / 4096 * 4096 in
  let n := (va + size - 1) / 4096 - va / 4096 in
  (∀ x, in_run a (n + 1) x → has (pte h d x) PTE_P = false) →
  ∃ r h' G' (m : nat), mappages_perm d va size pa perm h = Ok (r, h') ∧
    tables h' G' ∧ grows d G G' ∧ keeps_pages G h h' ∧ freep h' = freep h ∧ mapped_run G h h' d a m pa perm ∧
    ((r = 0 ∧ Z.of_nat m = n + 1) ∨ (r = -1 ∧ m ≤ n ∧ ∀ q, G' !! q ≠ Some RFree)).
Proof.
  intros Htb Hd Hva Hs Htop Hpa Hpt a n Hnp. unfold UTOP in Htop.
  pose proof (Z.div_mod va 4096 ltac:(done)). pose proof (Z.mod_pos_bound va 4096 ltac:(done)).
  pose proof (Z.div_mod (va + size - 1) 4096 ltac:(done)). pose proof (Z.mod_pos_bound (va + size - 1) 4096 ltac:(done)).
  assert (0 ≤ n) as Hn by (unfold n; assert (va / 4096 ≤ (va + size - 1) / 4096) by (apply Z.div_le_mono; lia); lia).
  assert (0 ≤ va / 4096) by (apply Z.div_pos; lia).
  assert (Z.of_nat (Z.to_nat n) = n) as En by lia.
  unfold mappages_perm. rewrite !(wrap_small 64) by (lia || (rewrite !rounddown_eq by (rewrite ?wrap_small; lia); rewrite ?wrap_small; lia)).
  rewrite !rounddown_eq by lia. fold a.
  replace (((va + size - 1) / 4096 * 4096 - a) / PGSIZE) with n
    by (unfold n, a, PGSIZE; rewrite <- Z.mul_sub_distr_r, Z.div_mul; lia).
  replace ((va + size - 1) / 4096 * 4096) with (a + Z.to_nat n * 4096) by (rewrite En; unfold n, a; lia).
  destruct (map_loop_ok (Z.to_nat n) h G d a pa perm) as (r & h' & G' & m & E & ? & ? & ? & ? & ? & Hres).
  - done.
  - done.
  - unfold a. lia.
  - unfold a. apply Z_mod_mult.
  - rewrite En. unfold a, n, UTOP. lia.
  - done.
  - rewrite En. unfold n. lia.
  - rewrite En. exact Hnp.
  - exists r, h', G', m. split_and!; try done. destruct Hres as [[-> ->]|(-> & ? & ?)]; [left; lia|right; split_and!; (done || lia)].
Qed.

(** Mapping one page. *)
Lemma map_page_ok h G d a pa perm :
  tables h G → G !! d = Some RDir → 0 ≤ a → a mod 4096 = 0 → a + 4096 ≤ UTOP → 0 ≤ pa → pa + 8192 ≤ 2 ^ 64 →
  has (pte h d a) PTE_P = false →
  ∃ r h' G', mappages d a PGSIZE pa perm h = Ok (r, h') ∧
    tables h' G' ∧ grows d G G' ∧ keeps_pages G h h' ∧ freep h' = freep h ∧
    ((r = 0 ∧ mapped_run G h h' d a 1 pa (Z.lor perm PTE_P)) ∨
     (r = -1 ∧ same_ptes G h h' ∧ ∀ q, G' !! q ≠ Some RFree)).
Proof.
  intros Htb Hd Ha Hal Htop Hpa Hpt Hnp. unfold mappages. pose proof Hal as [q Eq]%Z.mod_divide; [|done].
  assert (a / 4096 = q) as Ea by (rewrite Eq; by rewrite Z.div_mul).
  assert ((a + PGSIZE - 1) / 4096 = q) as Eb
    by (unfold PGSIZE; rewrite Eq; symmetry; apply (Z.div_unique _ 4096 q 4095); lia).
  destruct (mappages_perm_ok h G d a PGSIZE pa (Z.lor perm PTE_P)) as (r & h' & G' & m & E & H1 & H2 & H3 & H4 & H5 & H6);
    unfold PGSIZE in *; try done; try lia.
  - rewrite Ea, Eb. replace (q * 4096) with a by lia. replace (q - q + 1) with 1 by lia. intros x Hx.
    replace (pte h d x) with (pte h d a); [done|]. apply in_run_first in Hx; [|done].
    destruct (same_page x a Hx) as [E1 E2]. unfold pte, pte_loc. by rewrite E1, E2.
  - exists r, h', G'. split_and!; try done. rewrite Ea, Eb in *. replace (q * 4096) with a in H5 by lia.
    destruct H6 as [[-> Em]|(-> & Hm & Hno)]; [left|right].
    + split; [done|]. by replace (Z.of_nat m) with 1 in H5 by lia.
    + split; [done|]. split; [|done]. intros d' x Hd' Hx. rewrite (H5 d' x) by done.
      rewrite decide_False; [done|]. unfold in_run, PGSIZE. lia.
Qed.
End map.
End VmMap.
