(* ===== verification/VmUser.v ===== *)
(** * User pages

    The frames of an address space: every present entry owns its page.  What
    [deallocuvm], [allocuvm], [copyuvm] and [freevm] do with them. *)

From S2P Require Import Prelude Heap HeapAlloc Kalloc Vm VmTable VmMap.

Module VmUser.
Import Heap HeapAlloc Kalloc Vm VmTable VmMap.

Section user.
Context (kernel_end available_memory : Z).

Abbreviation kpage := (page_ok kernel_end available_memory).
Abbreviation tables := (tables kernel_end available_memory).
Abbreviation page_free := (kpage_free kernel_end available_memory).

Implicit Types (h : kheap) (G : gmap Z role).

Abbreviation present h d x := (has (pte h d x) PTE_P = true).

(** The page an entry maps. *)
Definition frame_of h (d x : Z) : Z := p2v (PTE_ADDR (pte h d x)).

(** The present entries of [d] and the frames of [d] correspond one to one. *)
Record frames h G (d : Z) : Prop := {
  fr_own x : 0 ≤ x < UTOP → present h d x → G !! frame_of h d x = Some (RFrame d (x / 4096));
  fr_entry f n : G !! f = Some (RFrame d n) →
    0 ≤ n ∧ n * 4096 < UTOP ∧ present h d (n * 4096) ∧ frame_of h d (n * 4096) = f;
}.

Lemma pte_page h d x y : x / 4096 = y / 4096 → pte h d x = pte h d y.
Proof. intros [E1 E2]%same_page. unfold pte, pte_loc. by rewrite E1, E2. Qed.

Lemma page_start x : x / 4096 * 4096 / 4096 = x / 4096.
Proof. by rewrite Z.div_mul. Qed.

(** Changing a page outside of the page tables changes no entry. *)
Lemma plain_change h h' G p r :
  tables h G → G !! p = Some r → plain r ∨ r = RFree → only_page p (words h) (words h') →
  same_ptes G h h' ∧ ∀ q s, G !! q = Some s → q ≠ p → page_same (words h) (words h') q.
Proof.
  intros Htb Hp Hr Ho.
  assert (∀ q s, G !! q = Some s → q ≠ p → page_same (words h) (words h') q) as Hs.
  { intros q s Hq Hne. eapply only_page_same; [done|by eapply (page_aligned _ _ h G Htb)..|done]. }
  split; [|done]. intros d x Hd Hx. destruct (pdx_range x Hx) as [_ Hi]. eapply pte_same; [done..| |].
  - apply (Hs d RDir Hd); [|lia]. intros ->. rewrite Hp in Hd. injection Hd as ->. by destruct Hr.
  - intros t Ht. apply (Hs t _ Ht); [|apply ptx_range]. intros ->. rewrite Hp in Ht. injection Ht as ->. by destruct Hr.
Qed.

Lemma same_ptes_frames h h' G G' d :
  G !! d = Some RDir → frames h G d → same_ptes G h h' →
  (∀ f n, G' !! f = Some (RFrame d n) ↔ G !! f = Some (RFrame d n)) → frames h' G' d.
Proof.
  intros Hd [H1 H2] Hp HG. split.
  - intros x Hx. unfold frame_of. rewrite (Hp d x) by done. rewrite HG. by apply H1.
  - intros f n Hf. apply HG, H2 in Hf as (Hn & Hn' & Hpr & Hfo). split; [done|]. split; [done|].
    unfold frame_of in *. by rewrite (Hp d _ Hd) by lia.
Qed.

(** ** [deallocuvm] *)

(** The pages of [d] from [a] below [top] become free. *)
Definition released (d a top : Z) (r : role) : role :=
  match r with
  | RFrame d' n => if decide (d' = d ∧ a ≤ n * 4096 < top) then RFree else r
  | _ => r
  end.
Definition release (d a top : Z) G : gmap Z role := released d a top <$> G.

(** Skipping [NPTENTRIES] pages where there is no table is only right when the
    address is at the start of a table, or when nothing above it is mapped. *)
Definition skip_ok h (d a top : Z) : Prop :=
  a mod 2 ^ 21 = 0 ∨ is_Some (pte_loc h d a) ∨ ∀ x, a ≤ x < top → ¬ present h d x.

(** The effect on the entries. *)
Definition unmapped_run G h h' (d a top : Z) : Prop :=
  ∀ d' x, G !! d' = Some RDir → 0 ≤ x < UTOP →
    pte h' d' x = if decide (d' = d ∧ a ≤ x / 4096 * 4096 < top ∧ present h d x) then 0 else pte h d' x.

Lemma release_none h G d a top :
  frames h G d → (∀ x, a ≤ x < top → 0 ≤ x < UTOP → ¬ present h d x) → release d a top G = G.
Proof.
  intros Hfr Hno. apply map_eq. intros p. unfold release. rewrite lookup_fmap.
  destruct (G !! p) as [r|] eqn:Hp; [|done]. cbn. f_equal. destruct r as [| | |d' n|]; try done. cbn.
  rewrite decide_False; [done|]. intros [-> Hn]. destruct (fr_entry _ _ _ Hfr p n Hp) as (? & ? & Hpr & _).
  by eapply Hno; [..|exact Hpr]; [|lia].
Qed.

(** No page at [a]. *)
Lemma release_skip h G d a b top :
  frames h G d → a mod 4096 = 0 → a ≤ b → (∀ x, a ≤ x < b → x < top → 0 ≤ x < UTOP → ¬ present h d x) →
  release d a top G = release d b top G.
Proof.
  intros Hfr Ha Hab Hno. apply map_eq. intros p. unfold release. rewrite !lookup_fmap.
  destruct (G !! p) as [r|] eqn:Hp; [|done]. cbn. f_equal. destruct r as [| | |d' n|]; try done. cbn.
  apply decide_ext. split; [|intros [-> ?]; split; [done|lia]]. intros [-> Hn]. split; [done|].
  destruct (fr_entry _ _ _ Hfr p n Hp) as (? & ? & Hpr & _).
  destruct (decide (n * 4096 < b)); [|lia]. exfalso. by eapply (Hno (n * 4096)); [..|exact Hpr]; lia.
Qed.

Lemma release_first h G d a top f :
  frames h G d → a mod 4096 = 0 → 0 ≤ a < top → G !! f = Some (RFrame d (a / 4096)) →
  release d a top G = release d (a + 4096) top (<[f := RFree]> G).
Proof.
  intros Hfr Ha Hat Hf. apply map_eq. intros p. unfold release. rewrite !lookup_fmap, lookup_insert.
  apply Z.mod_divide in Ha as [q ->]; [|done]. rewrite Z.div_mul in Hf by done. case_decide as E.
  - subst. rewrite Hf. cbn. by rewrite decide_True by (split; [done|lia]).
  - destruct (G !! p) as [r|] eqn:Hp; [|done]. cbn. f_equal. destruct r as [| | |d' n|]; try done. cbn.
    apply decide_ext. split; [|intros [-> ?]; split; [done|lia]]. intros [-> Hn]. split; [done|].
    destruct (decide (n = q)) as [->|]; [|lia]. exfalso. apply E.
    destruct (fr_entry _ _ _ Hfr p q Hp) as (_ & _ & _ & <-). by destruct (fr_entry _ _ _ Hfr f q Hf) as (_ & _ & _ & <-).
Qed.

(** Freeing the page at [a] and clearing its entry. *)
Lemma dealloc_one h G d a t :
  tables h G → G !! d = Some RDir → frames h G d → 0 ≤ a < UTOP → present h d a →
  G !! t = Some (RTable d (PDX a)) →
  ∃ h1, (page_free (frame_of h d a) ≫= λ _, store (t + 8 * PTX a) 0) h = Ok (tt, h1) ∧
    let G1 := <[frame_of h d a := RFree]> G in
    tables h1 G1 ∧ frames h1 G1 d ∧ freep h1 = freep h ∧ keeps_pages G1 h h1 ∧
    (∀ d' x, G !! d' = Some RDir → 0 ≤ x < UTOP →
      pte h1 d' x = if decide (d' = d ∧ x / 4096 = a / 4096) then 0 else pte h d' x).
Proof.
  intros Htb Hd Hfr Ha Hpr Ht. pose proof (fr_own _ _ _ Hfr a Ha Hpr) as Hf. set (f := frame_of h d a) in *.
  destruct (kpage_free_own _ _ h G f _ Htb Hf ltac:(done)) as (h0 & E0 & Htb0 & Ef0 & Ho).
  destruct (plain_change h h0 G f _ Htb Hf ltac:(by left) Ho) as [Hp0 Hs0]. set (G1 := <[f := RFree]> G) in *.
  assert (∀ q r, plain r ∨ r = RDir ∨ (∃ d i, r = RTable d i) → G1 !! q = Some r → G !! q = Some r ∧ q ≠ f) as Hold.
  { intros q r Hr Hq. unfold G1 in Hq. rewrite lookup_insert in Hq. case_decide; [|done]. injection Hq as <-.
    destruct Hr as [[]|[?|(? & ? & ?)]]; done. }
  assert (∀ q r, r ≠ RFree → ¬ plain r → G !! q = Some r → G1 !! q = Some r) as Hnew.
  { intros q r H1 H2 Hq. unfold G1. rewrite lookup_insert_ne; [done|]. intros <-. rewrite Hf in Hq. by injection Hq as <-. }
  assert (G1 !! t = Some (RTable d (PDX a))) as Ht1 by (apply Hnew; (done || by intros [])).
  assert (G1 !! d = Some RDir) as Hd1 by (apply Hnew; (done || by intros [])).
  pose proof (ptx_range a) as Hj. destruct (page_cell _ _ h0 G1 Htb0 t _ (PTX a) Ht1 Hj) as [e He].
  rewrite (bind_run _ _ _ _ _ E0), (store_run h0 _ 0) by (unfold cell in He; eauto).
  eexists. split; [reflexivity|]. change (set_words _ h0) with (with_pte h0 t (PTX a) 0). cbn zeta.
  pose proof (with_pte_pte _ _ h0 G1 d (PDX a) t Htb0 Ht1 (PTX a) 0) as Hpte.
  assert (∀ d' x, G !! d' = Some RDir → 0 ≤ x < UTOP →
      pte (with_pte h0 t (PTX a) 0) d' x = if decide (d' = d ∧ x / 4096 = a / 4096) then 0 else pte h d' x) as Hx.
  { intros d' x Hd' Hx. rewrite Hpte by (done || (apply Hnew; (done || by intros []))). rewrite (Hp0 d' x) by done.
    apply decide_ext. by rewrite (same_entry_iff a x). }
  split; [by apply (with_pte_tables _ _ h0 G1 d (PDX a))|]. split; [|split; [done|split; [|done]]].
  - split.
    + intros x Hxu. unfold frame_of. rewrite (Hx d x) by done. case_decide as E; [done|]. intros Hprx.
      unfold G1. rewrite lookup_insert_ne; [by apply Hfr|]. intros Ef.
      pose proof (fr_own _ _ _ Hfr x Hxu Hprx) as Hfx. unfold frame_of in Hfx. rewrite <- Ef, Hf in Hfx.
      injection Hfx as Hn. by apply E.
    + intros g n Hg. apply Hold in Hg as [Hg Hne]; [|by left].
      destruct (fr_entry _ _ _ Hfr g n Hg) as (H1 & H2 & H3 & H4). unfold frame_of. rewrite (Hx d (n * 4096)) by (done || lia).
      rewrite decide_False; [done|]. intros [_ E]. apply Hne. rewrite <- H4. unfold f, frame_of. by rewrite (pte_page h d _ _ E).
  - intros q r Hq Hr. pose proof (with_pte_keeps _ _ h0 G1 d (PDX a) t Htb0 Ht1 (PTX a) 0 Hj q r Hq Hr) as Hk.
    eapply page_same_trans; [|exact Hk]. apply Hold in Hq as [Hq Hne]; [|by left]. by eapply Hs0.
Qed.

Lemma table_end a : 0 ≤ a → a mod 4096 = 0 → (a + 4096) mod 2 ^ 21 = 0 ∨ PDX (a + 4096) = PDX a.
Proof.
  intros Ha Hal. apply Z.mod_divide in Hal as [q ->]; [|done]. rewrite !pdx_eq.
  replace (q * 4096 + 4096) with ((q + 1) * 4096) by lia. replace (2 ^ 21) with (512 * 4096) by done.
  rewrite Zmult_mod_distr_r, !Z.div_mul_cancel_r by done.
  pose proof (Z.div_mod q 512 ltac:(done)). pose proof (Z.mod_pos_bound q 512 ltac:(done)).
  destruct (decide (q mod 512 = 511)).
  - left. replace (q + 1) with ((q / 512 + 1) * 512) by lia. by rewrite Z_mod_mult.
  - right. f_equal. symmetry. apply (Z.div_unique _ 512 _ (q mod 512 + 1)); lia.
Qed.

(** Inside of a table the skip does not matter. *)
Lemma skip_ok_next h G d a top t :
  tables h G → G !! d = Some RDir → 0 ≤ a → a mod 4096 = 0 → a + 4096 < UTOP →
  G !! t = Some (RTable d (PDX a)) → skip_ok h d (a + 4096) top.
Proof.
  intros Htb Hd Ha Hal Hu Ht. destruct (table_end a Ha Hal) as [E|E]; [by left|right; left].
  exists t. apply (pte_loc_Some _ _ h G Htb); [done|lia|]. by rewrite E.
Qed.

Lemma not_mapped_table h d a x : pte_loc h d a = None → PDX x = PDX a → pte h d x = 0.
Proof. intros Hl E. unfold pte, pte_loc in *. rewrite E. by rewrite Hl. Qed.

Lemma same_table a x : a mod 2 ^ 21 = 0 → a ≤ x < a + 2 ^ 21 → PDX x = PDX a.
Proof.
  intros Ha Hx. apply Z.mod_divide in Ha as [q ->]; [|done]. rewrite !pdx_eq, Z.div_mul by done. f_equal.
  symmetry. apply (Z.div_unique _ (2 ^ 21) q (x - q * 2 ^ 21)); lia.
Qed.

(** A table that is not there maps nothing up to the next address looked at. *)
Lemma skipped h d a top :
  skip_ok h d a top → pte_loc h d a = None →
  (∀ x, a ≤ x < a + 2 ^ 21 → x < top → ¬ present h d x) ∧ skip_ok h d (a + 2 ^ 21) top.
Proof.
  intros Hsk Hl. destruct Hsk as [Ha|[[t Ht]|Hno]]; [|congruence|].
  - split.
    + intros x Hx _. by rewrite (not_mapped_table h d a x Hl) by (by apply same_table).
    + left. by rewrite <- Zplus_mod_idemp_r, Z_mod_same_full, Z.add_0_r.
  - split; [intros x Hx Hxt; apply Hno; lia|]. right; right. intros x Hx. apply Hno. lia.
Qed.

Lemma unmapped_run_skip G h h' d a b top :
  a mod 4096 = 0 → a ≤ b → (∀ x, a ≤ x < b → x < top → ¬ present h d x) →
  unmapped_run G h h' d b top → unmapped_run G h h' d a top.
Proof.
  intros Ha Hab Hno Hu d' x Hd' Hx. rewrite (Hu d' x) by done. apply decide_ext.
  split; [intros (-> & H1 & H2); split_and!; (done || lia)|]. intros (-> & H1 & H2). split; [done|]. split; [|done].
  destruct (decide (x / 4096 * 4096 < b)); [|lia]. exfalso. apply (Hno (x / 4096 * 4096)); [lia|lia|].
  by rewrite (pte_page h d _ x (page_start x)).
Qed.

Lemma unmapped_run_cons G G1 h h1 h' d a top :
  a mod 4096 = 0 → a < top → (∀ d', G !! d' = Some RDir → G1 !! d' = Some RDir) → present h d a →
  (∀ d' x, G !! d' = Some RDir → 0 ≤ x < UTOP →
     pte h1 d' x = if decide (d' = d ∧ x / 4096 = a / 4096) then 0 else pte h d' x) →
  unmapped_run G1 h1 h' d (a + 4096) top → unmapped_run G h h' d a top.
Proof.
  intros Ha Hat HG Hpr H1 H2 d' x Hd' Hx. rewrite (H2 d' x) by auto. apply Z.mod_divide in Ha as [q ->]; [|done].
  destruct (decide (d' = d)) as [->|]; [|rewrite (H1 d' x) by done; rewrite !decide_False by tauto; done].
  rewrite !(H1 d x Hd' Hx), Z.div_mul by done.
  destruct (decide (x / 4096 = q)) as [E|E].
  - rewrite !(decide_True (P := d = d ∧ x / 4096 = q)) by done. rewrite (decide_True (P := _ ∧ _ ∧ has (pte h d x) _ = _)).
    + by case_decide.
    + split; [done|]. split; [lia|]. rewrite (pte_page h d x (q * 4096)); [done|]. by rewrite Z.div_mul.
  - rewrite !(decide_False (P := d = d ∧ x / 4096 = q)) by tauto. apply decide_ext.
    split; intros (_ & Hb & Hc); (split; [done|split; [lia|done]]).
Qed.

Lemma dealloc_loop_S fuel d a top :
  dealloc_loop kernel_end available_memory (S fuel) d a top =
  if top <=? a then mret tt
  else
    pte ← walkpgdir d a false;
    if pte =? 0 then
      dealloc_loop kernel_end available_memory fuel d (u64 (a + (NPTENTRIES - 1) * PGSIZE + PGSIZE)) top
    else
      e ← load pte;
      _ ← (if has e PTE_P then
             let pa := PTE_ADDR e in
             if pa =? 0 then panic "kpage_free"
             else
               _ ← (if KERNBASE <? p2v pa then page_free (p2v pa) else mret tt);
               store pte 0
           else mret tt);
      dealloc_loop kernel_end available_memory fuel d (u64 (a + PGSIZE)) top.
Proof. done. Qed.

Lemma dealloc_loop_done fuel d a top h :
  top ≤ a → dealloc_loop kernel_end available_memory fuel d a top h = Ok (tt, h).
Proof. intros Ha. destruct fuel; cbn [dealloc_loop]; by rewrite (proj2 (Z.leb_le _ _)). Qed.

(** An owned page is not physical page 0, and is above the kernel's base. *)
Lemma frame_guards h G d x :
  tables h G → frames h G d → 0 ≤ x < UTOP → present h d x →
  (PTE_ADDR (pte h d x) =? 0) = false ∧ (KERNBASE <? frame_of h d x) = true.
Proof.
  intros Htb Hfr Hx Hpr. destruct (page_bounds _ _ h G Htb _ _ (fr_own _ _ _ Hfr x Hx Hpr)) as [Hk _].
  split; [|by apply Z.ltb_lt]. apply Z.eqb_neq. intros E. unfold frame_of in Hk. rewrite E in Hk.
  unfold p2v in Hk. by rewrite wrap_small in Hk.
Qed.

Lemma dealloc_loop_ok fuel h G d a top :
  tables h G → G !! d = Some RDir → frames h G d → 0 ≤ a → a mod 4096 = 0 → top ≤ UTOP →
  top ≤ a + Z.of_nat fuel * 4096 → skip_ok h d a top →
  ∃ h', dealloc_loop kernel_end available_memory fuel d a top h = Ok (tt, h') ∧
    tables h' (release d a top G) ∧ frames h' (release d a top G) d ∧ freep h' = freep h ∧
    keeps_pages (release d a top G) h h' ∧ unmapped_run G h h' d a top.
Proof.
  revert h G a. induction fuel as [|fuel IH]; intros h G a Htb Hd Hfr Ha Hal Htop Hfuel Hsk;
    (destruct (decide (top ≤ a)) as [Hdone|Hmore];
      [rewrite dealloc_loop_done by done; exists h; rewrite (release_none h) by (done || (intros; lia));
       split_and!; try done; intros d' x Hd' Hx; by rewrite decide_False by lia|]); [lia|].
  rewrite dealloc_loop_S, (proj2 (Z.leb_gt _ _)) by lia. unfold UTOP in *.
  rewrite (bind_run _ _ _ _ _ (walk_run _ _ h G Htb d a Hd ltac:(unfold UTOP; lia))).
  destruct (pte_loc h d a) as [t|] eqn:Hl.
  - assert (G !! t = Some (RTable d (PDX a))) as Ht by (apply (pte_loc_Some _ _ h G Htb d a t Hd); [unfold UTOP; lia|done]).
    rewrite (proj2 (Z.eqb_neq _ _)) by (by eapply entry_nonnull).
    assert (words h !! (t + 8 * PTX a) = Some (pte h d a)) as He.
    { destruct (page_cell _ _ h G Htb t _ (PTX a) Ht (ptx_range a)) as [e He]. unfold pte. rewrite Hl, He. exact He. }
    rewrite (bind_run _ _ _ _ _ (load_run _ _ _ He)). unfold PGSIZE. rewrite (wrap_small 64) by lia.
    destruct (has (pte h d a) PTE_P) eqn:Hpr.
    + destruct (frame_guards h G d a Htb Hfr ltac:(unfold UTOP; lia) Hpr) as [G1 G2]. cbn zeta. rewrite G1.
      fold (frame_of h d a). rewrite G2.
      destruct (dealloc_one h G d a t Htb Hd Hfr ltac:(unfold UTOP; lia) Hpr Ht) as (h1 & E1 & Htb1 & Hfr1 & Ef1 & Hk1 & Hp1).
      rewrite (bind_run _ _ _ _ _ E1).
      pose proof (fr_own _ _ _ Hfr a ltac:(unfold UTOP; lia) Hpr) as Hf. set (f := frame_of h d a) in *.
      assert (∀ q r, r ≠ RFree → ¬ plain r → G !! q = Some r → <[f := RFree]> G !! q = Some r) as Hnew.
      { intros q r H1 H2 Hq. rewrite lookup_insert_ne; [done|]. intros <-. rewrite Hf in Hq. by injection Hq as <-. }
      destruct (IH h1 (<[f := RFree]> G) (a + 4096)) as (h' & E' & Htb' & Hfr' & Ef' & Hk' & Hu').
      * done.
      * apply Hnew; (done || by intros []).
      * done.
      * lia.
      * by rewrite <- Zplus_mod_idemp_r, Z_mod_same_full, Z.add_0_r.
      * done.
      * lia.
      * destruct (decide (a + 4096 < 510 * 2 ^ 21)); [|right; right; intros; lia].
        eapply (skip_ok_next h1 _ d a top t); [exact Htb1|apply Hnew; (done || by intros [])|done|done|unfold UTOP; lia|].
        apply Hnew; (done || by intros []).
      * rewrite <- (release_first h) in * by (done || lia). exists h'. split_and!; [done..|congruence| |].
        -- intros p r Hp Hr. eapply page_same_trans; [|by eapply Hk']. eapply Hk1; [|exact Hr].
           rewrite (release_first h G d a top f) in Hp by (done || lia). unfold release in Hp. rewrite lookup_fmap in Hp.
           destruct (<[f := RFree]> G !! p) as [r0|]; [|done]. cbn in Hp. injection Hp as <-. f_equal.
           destruct r0; try done. cbn in *. by case_decide.
        -- eapply (unmapped_run_cons G _ h h1); [done|lia| |done|done|done]. intros d' Hd'. apply Hnew; (done || by intros []).
    + rewrite ret_bind.
      assert (∀ x, a ≤ x < a + 4096 → x < top → ¬ present h d x) as Hno.
      { intros x Hx _. rewrite (pte_page h d x a); [by rewrite Hpr|]. apply in_run_first; [done|].
        unfold in_run, PGSIZE. lia. }
      destruct (IH h G (a + 4096)) as (h' & E' & Htb' & Hfr' & Ef' & Hk' & Hu'); try done.
      * lia.
      * by rewrite <- Zplus_mod_idemp_r, Z_mod_same_full, Z.add_0_r.
      * lia.
      * destruct (decide (a + 4096 < 510 * 2 ^ 21)); [|right; right; intros; lia].
        eapply (skip_ok_next h G d a top t); try done.
      * rewrite (release_skip h G d a (a + 4096) top) by (done || lia || (intros; by apply Hno)).
        exists h'. split_and!; try done. eapply unmapped_run_skip; [done| |exact Hno|done]. lia.
  - rewrite Z.eqb_refl. unfold NPTENTRIES, PGSIZE. replace (a + (512 - 1) * 4096 + 4096) with (a + 2 ^ 21) by lia.
    rewrite wrap_small by lia. destruct (skipped h d a top Hsk Hl) as [Hno Hsk'].
    destruct (IH h G (a + 2 ^ 21)) as (h' & E' & Htb' & Hfr' & Ef' & Hk' & Hu'); try done.
    + lia.
    + replace (2 ^ 21) with (512 * 4096) by done. by rewrite Z_mod_plus_full.
    + lia.
    + rewrite (release_skip h G d a (a + 2 ^ 21) top) by (done || lia || (intros; by apply Hno)).
      exists h'. split_and!; try done. eapply unmapped_run_skip; [done| |exact Hno|done]. lia.
Qed.

Lemma npages_bounds (a top : Z) :
  top ≤ a + npages a top * 4096 ∧ (a < top + 4096 → a + npages a top * 4096 < top + 4096).
Proof.
  unfold npages, PGSIZE. pose proof (Z.div_mod (top - a + 4096 - 1) 4096 ltac:(done)).
  pose proof (Z.mod_pos_bound (top - a + 4096 - 1) 4096 ltac:(done)). lia.
Qed.

Lemma npages_fuel (a top : Z) : top ≤ a + npages a top * 4096.
Proof. apply npages_bounds. Qed.

(** Rounding up to a page. *)
Definition page_up (a : Z) : Z := (a + 4095) / 4096 * 4096.

Lemma page_up_ok a : page_up a mod 4096 = 0 ∧ a ≤ page_up a < a + 4096.
Proof.
  unfold page_up. split; [apply Z_mod_mult|].
  pose proof (Z.div_mod (a + 4095) 4096 ltac:(done)). pose proof (Z.mod_pos_bound (a + 4095) 4096 ltac:(done)). lia.
Qed.

Lemma deallocuvm_ok h G d oldsz newsz :
  tables h G → G !! d = Some RDir → frames h G d → 0 ≤ newsz < oldsz → oldsz ≤ UTOP →
  let a := page_up newsz in
  skip_ok h d a oldsz →
  ∃ h', deallocuvm kernel_end available_memory d oldsz newsz h = Ok (newsz, h') ∧
    tables h' (release d a oldsz G) ∧ frames h' (release d a oldsz G) d ∧ freep h' = freep h ∧
    keeps_pages (release d a oldsz G) h h' ∧ unmapped_run G h h' d a oldsz.
Proof.
  intros Htb Hd Hfr Hsz Htop a Hsk. unfold deallocuvm, UTOP in *. rewrite (proj2 (Z.leb_gt _ _)) by lia.
  rewrite pgroundup_eq by lia. fold (page_up newsz). fold a. destruct (page_up_ok newsz) as [Hal Hb]. fold a in Hal, Hb.
  destruct (dealloc_loop_ok (npages a oldsz) h G d a oldsz) as (h' & E & H); try done.
  - lia.
  - pose proof (npages_fuel a oldsz). lia.
  - exists h'. split; [|done]. by rewrite (bind_run _ _ _ _ _ E).
Qed.

(** ** Filling a run of pages

    The state of a loop that has mapped [m] fresh pages from [a0] in the
    address space [d], page number [n] with the flags [flags n] and the words
    [content n]; [q] is a page taken from the allocator and not yet mapped, 0
    if there is none. *)
Section fill.
Context (h0 : kheap) (G0 : gmap Z role) (d a0 : Z) (flags : Z → Z) (content : Z → Z → option Z).

Definition new_role (m q : Z) G (p : Z) : Prop :=
  (∃ i, G !! p = Some (RTable d i)) ∨ (∃ n, G !! p = Some (RFrame d n) ∧ in_run a0 m (n * 4096)) ∨
  (G !! p = Some ROther ∧ p = q).

Record filled (m q : Z) h G : Prop := {
  fi_tables : tables h G;
  fi_frames : frames h G d;
  fi_new p : G !! p = G0 !! p ∨ (G0 !! p = Some RFree ∧ new_role m q G p);
  fi_pages : keeps_pages G0 h0 h;
  fi_freep : freep h = freep h0;
  fi_other d' x : G0 !! d' = Some RDir → 0 ≤ x < UTOP → ¬ (d' = d ∧ in_run a0 m x) → pte h d' x = pte h0 d' x;
  fi_run x : in_run a0 m x → ∃ f, G0 !! f = Some RFree ∧ G !! f = Some (RFrame d (x / 4096)) ∧
    pte h d x = Z.lor (V2P f) (flags (x / 4096)) ∧
    ∀ j, 0 ≤ j < 512 → cell (words h) f j = content (x / 4096) j;
}.

Lemma fi_keep m q h G p r : filled m q h G → G0 !! p = Some r → r ≠ RFree → G !! p = Some r.
Proof. intros Hf Hp Hr. destruct (fi_new _ _ _ _ Hf p) as [->|[? _]]; congruence. Qed.

Hypothesis Hd0 : G0 !! d = Some RDir.

Lemma filled_start : tables h0 G0 → frames h0 G0 d → filled 0 0 h0 G0.
Proof.
  intros Htb Hfr. split; [done|done|by left|by intros ????|done|done|].
  intros x Hx. unfold in_run in Hx. lia.
Qed.

(** Taking a page from the allocator. *)
Lemma filled_take m h h1 G p :
  filled m 0 h G → G !! p = Some RFree → words h1 = words h → freep h1 = freep h →
  tables h1 (<[p := ROther]> G) → filled m p h1 (<[p := ROther]> G).
Proof.
  intros [H1 H2 H3 H4 H5 H6 H7] Hp Ew Ef Htb.
  assert (∀ d x, pte h1 d x = pte h d x) as Hpte by (intros; unfold pte, pte_loc; by rewrite Ew).
  assert (∀ f n, <[p := ROther]> G !! f = Some (RFrame d n) ↔ G !! f = Some (RFrame d n)) as Hfr.
  { intros f n. rewrite lookup_insert. case_decide as E; [|done]. subst. rewrite Hp. split; by intros [=]. }
  split; [done|..].
  - eapply (same_ptes_frames h h1 G); [|done|by intros ????|done]. destruct (H3 d) as [->|[? _]]; congruence.
  - intros p'. rewrite lookup_insert. case_decide as E.
    + subst p'. right. split.
      * destruct (H3 p) as [<-|[? _]]; done.
      * right; right. split; [apply lookup_insert_eq|done].
    + destruct (H3 p') as [?|[Hf0 Hr]]; [by left|right]. split; [done|]. unfold new_role. rewrite lookup_insert_ne by done.
      destruct Hr as [?|[?|[Ho ->]]]; [by left|by right; left|].
      destruct (page_bounds _ _ h G H1 0 ROther Ho). unfold KERNBASE, PHYSLIMIT in *. lia.
  - intros p' r Hp' Hr j Hj. rewrite Ew. by eapply H4.
  - congruence.
  - intros d' x Hd' Hx Hn. rewrite Hpte. by apply H6.
  - intros x Hx. destruct (H7 x Hx) as (f & Hf0 & Hf & He & Hc). exists f. split_and!; [done|by apply Hfr|by rewrite Hpte|].
    intros j Hj. rewrite Ew. by apply Hc.
Qed.

(** Writing the page that is in flight. *)
Lemma filled_write m q h h1 G :
  filled m q h G → G !! q = Some ROther → G0 !! q = Some RFree → only_page q (words h) (words h1) → ext h1 = ext h →
  freep h1 = freep h → filled m q h1 G.
Proof.
  intros [H1 H2 H3 H4 H5 H6 H7] Hq Hq0 Ho Ee Ef.
  destruct (plain_change h h1 G q _ H1 Hq ltac:(by left) Ho) as [Hp Hs].
  assert (G !! d = Some RDir) as Hd by (destruct (H3 d) as [->|[? _]]; congruence).
  split; [by apply (tables_change _ _ h h1 G q ROther)|by eapply (same_ptes_frames h h1 G G)|done|..].
  - intros p r Hp' Hr. eapply page_same_trans; [by eapply H4|].
    assert (G !! p = Some r) as HGp by (destruct (H3 p) as [->|[? _]]; [done|rewrite Hp' in *; by simplify_eq]).
    apply (Hs p r HGp). congruence.
  - congruence.
  - intros d' x Hd' Hx Hn. rewrite (Hp d' x); [by apply H6| |done]. destruct (H3 d') as [->|[? _]]; congruence.
  - intros x Hx. destruct (H7 x Hx) as (f & Hf0 & Hf & He & Hc). exists f. split_and!; [done|done|..].
    + rewrite (Hp d x); [done|done|]. destruct (fr_entry _ _ _ H2 f _ Hf) as (? & ? & _).
      unfold UTOP in *. pose proof (Z.div_mod x 4096 ltac:(done)). pose proof (Z.mod_pos_bound x 4096 ltac:(done)). lia.
    + intros j Hj. rewrite (Hs f _ Hf) by (congruence || done). by apply Hc.
Qed.

(** Giving it back. *)
Lemma filled_give m q h G :
  filled m q h G → G !! q = Some ROther → G0 !! q = Some RFree →
  ∃ h', page_free q h = Ok (tt, h') ∧ filled m 0 h' (<[q := RFree]> G).
Proof.
  intros [H1 H2 H3 H4 H5 H6 H7] Hq Hq0.
  destruct (kpage_free_own _ _ h G q _ H1 Hq ltac:(done)) as (h1 & E1 & Htb1 & Ef & Ho). exists h1. split; [done|].
  destruct (plain_change h h1 G q _ H1 Hq ltac:(by left) Ho) as [Hp Hs].
  assert (G !! d = Some RDir) as Hd by (destruct (H3 d) as [->|[? _]]; congruence).
  assert (∀ f n, <[q := RFree]> G !! f = Some (RFrame d n) ↔ G !! f = Some (RFrame d n)) as Hfr.
  { intros f n. rewrite lookup_insert. case_decide as E; [|done]. subst. rewrite Hq. split; by intros [=]. }
  split; [done|by eapply (same_ptes_frames h)|..].
  - intros p. rewrite lookup_insert. case_decide as E; [subst; by left|].
    destruct (H3 p) as [?|[Hf0 Hr]]; [by left|right]. split; [done|]. unfold new_role. rewrite lookup_insert_ne by done.
    destruct Hr as [?|[?|[Hx ->]]]; [by left|by right; left|done].
  - intros p r Hp' Hr. eapply page_same_trans; [by eapply H4|].
    assert (G !! p = Some r) as HGp by (destruct (H3 p) as [->|[? _]]; [done|rewrite Hp' in *; by simplify_eq]).
    apply (Hs p r HGp). congruence.
  - congruence.
  - intros d' x Hd' Hx Hn. rewrite (Hp d' x); [by apply H6| |done]. destruct (H3 d') as [->|[? _]]; congruence.
  - intros x Hx. destruct (H7 x Hx) as (f & Hf0 & Hf & He & Hc). exists f. split_and!; [done|by apply Hfr|..].
    + rewrite (Hp d x); [done|done|]. destruct (fr_entry _ _ _ H2 f _ Hf) as (? & ? & _).
      unfold UTOP in *. pose proof (Z.div_mod x 4096 ltac:(done)). pose proof (Z.mod_pos_bound x 4096 ltac:(done)). lia.
    + intros j Hj. rewrite (Hs f _ Hf) by (congruence || done). by apply Hc.
Qed.

Hypothesis Hflags : ∀ n, 0 ≤ flags n < 4096 ∧ has (flags n) PTE_P = true.
Hypothesis Ha0 : 0 ≤ a0 ∧ a0 mod 4096 = 0.

Lemma run_next m x : 0 ≤ m → in_run a0 (m + 1) x ↔ in_run a0 m x ∨ in_run (a0 + m * 4096) 1 x.
Proof. unfold in_run, PGSIZE. lia. Qed.

Lemma run_page m x : in_run a0 m (x / 4096 * 4096) ↔ in_run a0 m x.
Proof.
  destruct Ha0 as [_ [k Hk]%Z.mod_divide]; [|done]. unfold in_run, PGSIZE.
  pose proof (Z.div_mod x 4096 ltac:(done)). pose proof (Z.mod_pos_bound x 4096 ltac:(done)). lia.
Qed.

(** The pages of the run are present. *)
Lemma run_present m q h G x : filled m q h G → in_run a0 m x → present h d x.
Proof.
  intros Hf Hx. destruct (fi_run _ _ _ _ Hf x Hx) as (f & _ & HG & -> & _).
  destruct (tb_page _ _ _ _ (fi_tables _ _ _ _ Hf) _ _ HG) as (Hk & _). destruct (Hflags (x / 4096)) as [Hfl Hpr].
  by destruct (entry_page _ _ f (flags (x / 4096)) PTE_P Hk Hfl) as (_ & -> & _).
Qed.

(** New tables alone change nothing. *)
Lemma filled_grow m q h h' G G' :
  filled m q h G → tables h' G' → grows d G G' → keeps_pages G h h' → freep h' = freep h → same_ptes G h h' →
  filled m q h' G'.
Proof.
  intros Hf Htb Hg Hkp Efp Hsame. pose proof Hf as [H1 H2 H3 H4 H5 H6 H7].
  assert (∀ p r, G !! p = Some r → r ≠ RFree → G' !! p = Some r) as Hgk by (intros; by eapply grows_keep).
  assert (G !! d = Some RDir) as Hd by by eapply fi_keep.
  split; [done|..].
  - eapply (same_ptes_frames h h' G); try done. intros f k. split; [|intros; by apply Hgk].
    intros HG. destruct (Hg f) as [<-|[_ (i & E')]]; congruence.
  - intros p. destruct (H3 p) as [Ep|[Hf0 Hr]].
    + rewrite <- Ep. destruct (Hg p) as [?|[? Hi]]; [by left|right]. split; [congruence|]. by left.
    + right. split; [done|]. destruct Hr as [[i Hr]|[(k & Hr & Hk')|[Hr ->]]];
        [left; exists i|right; left; exists k|right; right]; (split || idtac); try done; by apply Hgk.
  - intros p r' Hp0 Hr'. eapply page_same_trans; [by eapply H4|]. apply (Hkp p r'); [|done].
    eapply fi_keep; [done..|]. by intros ->.
  - congruence.
  - intros d' x Hd' Hx Hn. rewrite (Hsame d' x) by (by eapply fi_keep || done). by apply H6.
  - intros x Hx. destruct (H7 x Hx) as (f & Hf0 & HG & He & Hcc). exists f. split_and!; [done|by apply Hgk|..].
    + rewrite (Hsame d x); [done|done|]. destruct (fr_entry _ _ _ H2 f _ HG) as (? & ? & _).
      pose proof (Z.div_mod x 4096 ltac:(done)). pose proof (Z.mod_pos_bound x 4096 ltac:(done)). unfold UTOP in *. lia.
    + intros j Hj. rewrite (Hkp f _ HG) by done. by apply Hcc.
Qed.

(** One more frame. *)
Lemma frames_extend h h' G G' q n v :
  G !! d = Some RDir → frames h G d → grows d G G' → G !! q = Some ROther → 0 ≤ n → n * 4096 < UTOP →
  ¬ present h d (n * 4096) → p2v (PTE_ADDR v) = q → has v PTE_P = true →
  (∀ x, 0 ≤ x < UTOP → pte h' d x = if decide (x / 4096 = n) then v else pte h d x) →
  frames h' (<[q := RFrame d n]> G') d.
Proof.
  intros Hd H2 Hg Hq Hn Hnu Hnp Eq1 Eq2 Hp'.
  assert (∀ f k, G' !! f = Some (RFrame d k) → G !! f = Some (RFrame d k)) as Hfr.
  { intros f k HG. destruct (Hg f) as [<-|[_ (i & E')]]; congruence. }
  split.
  - intros x Hx. unfold frame_of. rewrite (Hp' x) by done. case_decide as Ex.
    + intros _. rewrite Eq1, Ex. apply lookup_insert_eq.
    + intros Hprx. pose proof (fr_own _ _ _ H2 x Hx Hprx) as HG. unfold frame_of in HG.
      rewrite lookup_insert_ne; [by eapply grows_keep|]. congruence.
  - intros f k. rewrite lookup_insert. case_decide as Efq.
    + intros [= <-]. subst f. unfold frame_of. rewrite (Hp' (n * 4096)) by lia.
      rewrite Z.div_mul, decide_True by done. by split_and!.
    + intros HG%Hfr. destruct (fr_entry _ _ _ H2 f k HG) as (K1 & K2 & K3 & K4). unfold frame_of.
      rewrite (Hp' (k * 4096)) by lia. rewrite Z.div_mul, decide_False by (done || by intros ->). done.
Qed.

(** The page in flight becomes page number [n] of the run. *)
Lemma filled_extend m q h h' G G' :
  filled m q h G → tables h' G' → grows d G G' → keeps_pages G h h' → freep h' = freep h →
  0 ≤ m → a0 + m * 4096 + 4096 ≤ UTOP → G !! q = Some ROther → G0 !! q = Some RFree →
  let n := (a0 + m * 4096) / 4096 in
  (∀ j, 0 ≤ j < 512 → cell (words h) q j = content n j) → ¬ present h d (n * 4096) →
  (∀ d' x, G !! d' = Some RDir → 0 ≤ x < UTOP →
    pte h' d' x = if decide (d' = d ∧ x / 4096 = n) then Z.lor (V2P q) (flags n) else pte h d' x) →
  filled (m + 1) 0 h' (<[q := RFrame d n]> G').
Proof.
  intros Hf Htb Hg Hkp Efp Hm Htop Hq Hq0 n Hc Hnp Hp'. destruct Ha0 as [Ha0p Ha0m].
  assert ((a0 + m * 4096) mod 4096 = 0) as Ham by (by rewrite Z_mod_plus_full).
  assert (n * 4096 = a0 + m * 4096) as Hna by (unfold n; apply Z.mod_divide in Ham as [k ->]; [|done]; by rewrite Z.div_mul).
  assert (G !! d = Some RDir) as Hd by by eapply fi_keep.
  pose proof Hf as [H1 H2 H3 H4 H5 H6 H7]. destruct (tb_page _ _ _ _ H1 _ _ Hq) as (Hk & _).
  destruct (Hflags n) as [Hfl Hpr]. destruct (entry_page _ _ q (flags n) PTE_P Hk Hfl ltac:(done)) as (Eq1 & Eq2 & _).
  assert (∀ p r, G !! p = Some r → r ≠ RFree → G' !! p = Some r) as Hgk by (intros; by eapply grows_keep).
  assert (∀ x, in_run (a0 + m * 4096) 1 x ↔ x / 4096 = n) as Hrun1 by (intros; by rewrite <- in_run_first).
  split.
  - by apply (tables_role _ _ h' G' q ROther); [|apply Hgk|..].
  - apply (frames_extend h h' G G' q n (Z.lor (V2P q) (flags n))); try done.
    + apply Z.div_pos; lia.
    + unfold UTOP in *. lia.
    + by rewrite Eq2.
    + intros x Hx. rewrite (Hp' d x) by done. apply decide_ext. tauto.
  - intros p. rewrite lookup_insert. case_decide as Epq.
    + subst p. right. split; [done|]. right; left. exists n. split; [apply lookup_insert_eq|].
      rewrite Hna. apply run_next; [done|]. right. unfold in_run, PGSIZE. lia.
    + destruct (H3 p) as [Ep|[Hf0 Hr]].
      * rewrite <- Ep. destruct (Hg p) as [?|[? Hi]]; [by left|right]. split; [congruence|]. left.
        by rewrite lookup_insert_ne.
      * right. split; [done|]. unfold new_role. rewrite lookup_insert_ne by done.
        destruct Hr as [[i Hr]|[(k & Hr & Hk')|[_ ->]]]; [left; exists i; by apply Hgk| |done].
        right; left. exists k. split; [by apply Hgk|]. apply run_next; [done|by left].
  - intros p r' Hp0 Hr'. eapply page_same_trans; [by eapply H4|]. apply (Hkp p r'); [|done].
    eapply fi_keep; [done..|]. by intros ->.
  - congruence.
  - intros d' x Hd' Hx Hn. rewrite (Hp' d' x) by (by eapply fi_keep || done). rewrite decide_False.
    + apply H6; [done|done|]. intros [-> Hr]. apply Hn. split; [done|]. apply run_next; [done|by left].
    + intros [-> Ex]. apply Hn. split; [done|]. apply run_next; [done|right]. by apply Hrun1.
  - intros x [Hx|Hx]%run_next; [| |lia].
    + destruct (H7 x Hx) as (f & Hf0 & HG & He & Hcc). exists f. assert (f ≠ q) as Hfq by congruence.
      split_and!; [done|rewrite lookup_insert_ne by done; by apply Hgk|..].
      * rewrite (Hp' d x); [|done|unfold in_run, PGSIZE, UTOP in *; lia].
        rewrite decide_False; [done|]. intros [_ Ex%Hrun1]. unfold in_run, PGSIZE in *. lia.
      * intros j Hj. rewrite (Hkp f _ HG) by done. by apply Hcc.
    + assert (0 ≤ x < UTOP) as Hxu by (unfold in_run, PGSIZE in Hx; unfold UTOP in *; lia).
      apply Hrun1 in Hx. rewrite Hx. exists q. split_and!; [done|apply lookup_insert_eq|..].
      * rewrite (Hp' d x) by done. by rewrite decide_True.
      * intros j Hj. rewrite (Hkp q _ Hq) by done. by apply Hc.
Qed.

(** Mapping the page in flight. *)
Lemma filled_map m q h G perm :
  filled m q h G → 0 ≤ m → a0 + m * 4096 + 4096 ≤ UTOP → G !! q = Some ROther → G0 !! q = Some RFree →
  let a := a0 + m * 4096 in
  (∀ j, 0 ≤ j < 512 → cell (words h) q j = content (a / 4096) j) → ¬ present h0 d a →
  Z.lor perm PTE_P = flags (a / 4096) →
  ∃ r h', mappages d a PGSIZE (V2P q) perm h = Ok (r, h') ∧
    ((r = 0 ∧ ∃ G', filled (m + 1) 0 h' G') ∨
     (r = -1 ∧ ∃ G', filled m q h' G' ∧ G' !! q = Some ROther ∧ ∀ p, G' !! p ≠ Some RFree)).
Proof.
  intros Hf Hm Htop Hq Hq0 a Hc Hnp Hperm. destruct Ha0 as [Ha0p Ha0m].
  assert (a mod 4096 = 0) as Ham by (unfold a; by rewrite Z_mod_plus_full).
  assert (a / 4096 * 4096 = a) as Hna by (apply Z.mod_divide in Ham as [k ->]; [|done]; by rewrite Z.div_mul).
  assert (G !! d = Some RDir) as Hd by by eapply fi_keep.
  pose proof (fi_tables _ _ _ _ Hf) as H1. destruct (tb_page _ _ _ _ H1 _ _ Hq) as (Hk & _).
  destruct (v2p_page _ _ q Hk) as (_ & Hv & _ & Hvq). unfold PHYSLIMIT in Hv.
  assert (pte h d a = pte h0 d a) as Hpa.
  { apply (fi_other _ _ _ _ Hf); [done|unfold a, UTOP in *; lia|]. intros [_ Hr]. unfold in_run, PGSIZE, a in Hr. lia. }
  destruct (map_page_ok kernel_end available_memory h G d a (V2P q) perm)
    as (r & h' & G' & E & Htb & Hg & Hkp & Efp & Hres); try done.
  all: try (unfold a, UTOP in *; lia).
  { rewrite Hpa. by apply not_true_is_false. }
  exists r, h'. split; [done|]. destruct Hres as [[-> Hmap]|(-> & Hsame & Hno)]; [left|right]; (split; [done|]).
  - eexists. eapply (filled_extend m q h h' G G'); try done.
    + fold a. by rewrite Hna, Hpa.
    + intros d' x Hd' Hx. rewrite (Hmap d' x) by done. rewrite Hperm. fold a.
      destruct (decide (d' = d ∧ x / 4096 = a / 4096)) as [[-> Ex]|Hne].
      * rewrite decide_True by (split; [done|by apply in_run_first]). f_equal. rewrite Ex. lia.
      * rewrite decide_False; [done|]. intros [-> Hx1]. apply Hne. split; [done|]. by apply in_run_first.
  - exists G'. split_and!; [by eapply (filled_grow m q h h' G)|by eapply grows_keep|done].
Qed.

(** Taking the run back: no entry and no frame of it is left. *)
Lemma filled_unmap m q h G oldsz newsz :
  filled m q h G → 0 ≤ m → 0 ≤ oldsz < newsz → newsz ≤ UTOP → a0 = page_up oldsz →
  a0 + m * 4096 < newsz + 4096 → (∀ x, a0 ≤ x < newsz → pte h0 d x = 0) →
  ∃ h' G', deallocuvm kernel_end available_memory d newsz oldsz h = Ok (oldsz, h') ∧ filled 0 q h' G' ∧
    (G !! q = Some ROther → G' !! q = Some ROther).
Proof.
  intros Hf Hm Hsz Htop Ea Hrun Hnp. pose proof Hf as [H1 H2 H3 H4 H5 H6 H7].
  assert (G !! d = Some RDir) as Hd by by eapply fi_keep.
  assert (∀ x, a0 ≤ x / 4096 * 4096 < newsz → 0 ≤ x < UTOP → present h d x → in_run a0 m x) as Hpr.
  { intros x Hx Hxu Hp. destruct (decide (in_run a0 m x)) as [|Hn]; [done|exfalso].
    rewrite (H6 d x) in Hp by (done || tauto). rewrite <- (pte_page h0 d _ x (page_start x)), Hnp in Hp by done. done. }
  assert (∀ x, in_run a0 m x → a0 ≤ x / 4096 * 4096 < newsz ∧ 0 ≤ x < UTOP) as Hin.
  { intros x Hx. destruct (fi_run _ _ _ _ Hf x Hx) as (f & _ & HG & _). destruct (fr_entry _ _ _ H2 _ _ HG) as (? & ? & _).
    pose proof (proj2 (run_page m x) Hx) as Hx'. destruct Ha0 as [Ha0p [k Hk]%Z.mod_divide]; [|done].
    pose proof (Z.div_mod x 4096 ltac:(done)). pose proof (Z.mod_pos_bound x 4096 ltac:(done)).
    unfold in_run, PGSIZE, UTOP in *. lia. }
  destruct (deallocuvm_ok h G d newsz oldsz) as (h' & E & Htb & Hfr & Ef & Hkp & Hu); try done.
  { rewrite <- Ea. destruct (decide (m = 0)) as [->|].
    - right; right. intros x Hx Hp. assert (in_run a0 0 x) as Hr; [|unfold in_run in Hr; lia].
      destruct Ha0 as [Ha0p [k Hk]%Z.mod_divide]; [|done].
      pose proof (Z.div_mod x 4096 ltac:(done)). pose proof (Z.mod_pos_bound x 4096 ltac:(done)).
      apply Hpr; [lia|unfold UTOP in *; lia|done].
    - right; left. assert (present h d a0) as Hp by (eapply run_present; [done|]; unfold in_run, PGSIZE; lia).
      unfold pte in Hp. destruct (pte_loc h d a0); [eauto|done]. }
  rewrite <- Ea in *. exists h', (release d a0 newsz G). split; [done|].
  assert (∀ p, release d a0 newsz G !! p = G0 !! p ∨
      (G0 !! p = Some RFree ∧ new_role 0 q (release d a0 newsz G) p)) as Hnew.
  { intros p. unfold new_role, release. rewrite lookup_fmap. destruct (H3 p) as [Ep|[Hf0 Hr]].
    - left. rewrite <- Ep. destruct (G !! p) as [r|] eqn:Hp; [|done]. cbn. f_equal. destruct r as [| | |d' n|]; try done.
      cbn. rewrite decide_False; [done|]. intros [-> Hn]. destruct (fr_entry _ _ _ H2 p n Hp) as (? & ? & Hpn & Hfo).
      assert (in_run a0 m (n * 4096)) as Hr by (apply Hpr; [by rewrite Z.div_mul|lia|done]).
      destruct (H7 _ Hr) as (f & Hf0 & HG & _). rewrite Z.div_mul in HG by done.
      destruct (fr_entry _ _ _ H2 f n HG) as (_ & _ & _ & Hfo'). congruence.
    - destruct Hr as [[i Hr]|[(n & Hr & Hn)|[Hr ->]]]; rewrite Hr; cbn.
      + right. split; [done|]. left. by exists i.
      + left. rewrite decide_True; [done|]. split; [done|]. apply Hin in Hn as [Hn _]. by rewrite Z.div_mul in Hn.
      + right. split; [done|]. by right; right. }
  split.
  - split; [done|done|done|..].
    + intros p r Hp Hr. eapply page_same_trans; [by eapply H4|]. eapply (Hkp p r); [|done].
      destruct (Hnew p) as [->|[Hf0 _]]; [done|]. rewrite Hp in Hf0. by injection Hf0 as ->.
    + congruence.
    + intros d' x Hd' Hx _. rewrite (Hu d' x) by (by eapply fi_keep || done). case_decide as Hc.
      * destruct Hc as (-> & Hc1 & _). by rewrite <- (pte_page h0 d _ x (page_start x)), Hnp.
      * apply H6; [done|done|]. intros [-> Hr]. apply Hc. split_and!; [done|by apply Hin..|]. by eapply run_present.
    + intros x Hx. unfold in_run in Hx. lia.
  - intros Hq. unfold release. by rewrite lookup_fmap, Hq.
Qed.
End fill.
End user.
End VmUser.
