(* ===== verification/VmSpace.v ===== *)
(** * Growing, copying and freeing address spaces

    The theorems about [mappages], [allocuvm], [deallocuvm], [copyuvm],
    [freevm] and [copyout]. *)

From S2P Require Import Prelude Heap HeapAlloc Kalloc Vm VmTable VmMap VmUser.

Module VmSpace.
Import Heap HeapAlloc Kalloc Vm VmTable VmMap VmUser.

Section space.
Context (kernel_end available_memory : Z).

Abbreviation kpage := (page_ok kernel_end available_memory).
Abbreviation tables := (tables kernel_end available_memory).
Abbreviation page_free := (kpage_free kernel_end available_memory).
Abbreviation filled := (filled kernel_end available_memory).
Abbreviation present h d x := (has (pte h d x) PTE_P = true).

Implicit Types (h : kheap) (G : gmap Z role).

(** ** [allocuvm] *)

Definition user_flags (n : Z) : Z := 7.
Definition zeroes (n j : Z) : option Z := Some 0.

Section grow.
Context h0 G0 (d oldsz newsz : Z) (Hd0 : G0 !! d = Some RDir).
Context (Hsz : 0 ≤ oldsz ≤ newsz) (Htop : newsz ≤ UTOP) (Hnp : ∀ x, page_up oldsz ≤ x < newsz → pte h0 d x = 0).

Abbreviation grown := (filled h0 G0 d (page_up oldsz) user_flags zeroes).

(** Out of memory: everything that was mapped is unmapped again. *)
Lemma alloc_undo m q h G :
  grown m q h G → 0 ≤ m → page_up oldsz + m * 4096 < newsz →
  ∃ h' G', deallocuvm kernel_end available_memory d newsz oldsz h = Ok (oldsz, h') ∧ grown 0 q h' G' ∧
    (G !! q = Some ROther → G' !! q = Some ROther).
Proof.
  intros Hf Hm Hlt. destruct (page_up_ok oldsz) as [Hal Hb].
  apply (filled_unmap kernel_end available_memory h0 G0 d (page_up oldsz) user_flags zeroes Hd0 ltac:(done)
    ltac:(split; [lia|done]) m q h G oldsz newsz); (done || lia).
Qed.

Lemma alloc_loop_S fuel a :
  alloc_loop kernel_end available_memory (S fuel) d a oldsz newsz =
  if newsz <=? a then mret newsz
  else
    mem ← kpage_alloc;
    if mem =? 0 then _ ← deallocuvm kernel_end available_memory d newsz oldsz; mret 0
    else
      _ ← clear_page mem;
      r ← mappages d a PGSIZE (V2P mem) (Z.lor PTE_W PTE_U);
      if r <? 0 then
        _ ← deallocuvm kernel_end available_memory d newsz oldsz;
        _ ← page_free mem;
        mret 0
      else alloc_loop kernel_end available_memory fuel d (u64 (a + PGSIZE)) oldsz newsz.
Proof. done. Qed.

Lemma alloc_loop_ok fuel m h G :
  grown m 0 h G → 0 ≤ m → m ≤ npages (page_up oldsz) newsz →
  newsz ≤ page_up oldsz + m * 4096 + Z.of_nat fuel * 4096 →
  ∃ r h' G', alloc_loop kernel_end available_memory fuel d (page_up oldsz + m * 4096) oldsz newsz h = Ok (r, h') ∧
    ((r = newsz ∧ grown (npages (page_up oldsz) newsz) 0 h' G') ∨ (r = 0 ∧ grown 0 0 h' G')).
Proof.
  destruct (page_up_ok oldsz) as [Hal Hb]. set (a0 := page_up oldsz) in *.
  assert (∀ k, 0 ≤ k → k ≤ npages a0 newsz → newsz ≤ a0 + k * 4096 → k = npages a0 newsz) as Hlast.
  { intros k Hk1 Hk2 Hk3. unfold npages, PGSIZE in *.
    pose proof (Z.div_mod (newsz - a0 + 4096 - 1) 4096 ltac:(done)). pose proof (Z.mod_pos_bound (newsz - a0 + 4096 - 1) 4096 ltac:(done)). lia. }
  revert m h G. induction fuel as [|fuel IH]; intros m h G Hf Hm Hmn Hfuel.
  { exists newsz, h, G. cbn [alloc_loop]. rewrite (proj2 (Z.leb_le _ _)) by lia. split; [done|]. left. split; [done|].
    by rewrite <- (Hlast m) by lia. }
  rewrite alloc_loop_S. destruct (decide (newsz ≤ a0 + m * 4096)) as [Hdone|Hmore].
  { exists newsz, h, G. rewrite (proj2 (Z.leb_le _ _)) by lia. split; [done|]. left. split; [done|].
    by rewrite <- (Hlast m) by lia. }
  rewrite (proj2 (Z.leb_gt _ _)) by lia. unfold UTOP in *.
  destruct (kpage_alloc_own _ _ h G (fi_tables _ _ _ _ _ _ _ _ _ _ _ _ Hf))
    as (p & h1 & Ea & Ew & Ef & [(-> & -> & Hno)|(Hp0 & Hp & Htb1)]); rewrite (bind_run _ _ _ _ _ Ea).
  { rewrite Z.eqb_refl. destruct (alloc_undo m 0 h G Hf Hm ltac:(lia)) as (h' & G' & E & Hf' & _).
    rewrite (bind_run _ _ _ _ _ E). exists 0, h', G'. split; [done|]. by right. }
  rewrite (proj2 (Z.eqb_neq _ _)) by done.
  assert (G0 !! p = Some RFree) as Hp00.
  { destruct (fi_new _ _ _ _ _ _ _ _ _ _ _ _ Hf p) as [<-|[? _]]; done. }
  pose proof (filled_take _ _ h0 G0 d _ _ _ Hd0 m h h1 G p Hf Hp Ew Ef Htb1) as Hf1.
  set (G1 := <[p := ROther]> G) in *. assert (G1 !! p = Some ROther) as Hp1 by apply lookup_insert_eq.
  destruct (tb_page _ _ _ _ Htb1 _ _ Hp1) as (_ & _ & Hpm).
  destruct (proj1 (wp_run _ _ _) (clear_page_ok h1 p Hpm)) as ([] & h2 & Ec & Ef2 & Ee2 & Ho & Hz).
  rewrite (bind_run _ _ _ _ _ Ec).
  pose proof (filled_write _ _ h0 G0 d _ _ _ Hd0 m p h1 h2 G1 Hf1 Hp1 Hp00 Ho Ee2 Ef2) as Hf2.
  destruct (filled_map kernel_end available_memory h0 G0 d a0 user_flags zeroes Hd0 ltac:(done) ltac:(split; [lia|done])
    m p h2 G1 (Z.lor PTE_W PTE_U)) as (r & h3 & E3 & Hr); try done.
  { assert (a0 + m * 4096 + 4096 ≤ UTOP) as H; [|exact H]. unfold UTOP.
    apply Z.mod_divide in Hal as [k Ek]; [|done]. lia. }
  { rewrite Hnp by lia. done. }
  rewrite (bind_run _ _ _ _ _ E3).
  destruct Hr as [[-> (G3 & Hf3)]|(-> & G3 & Hf3 & Hp3 & _)]; cbn [Z.ltb Z.compare].
  - unfold PGSIZE. rewrite wrap_small by lia. replace (a0 + m * 4096 + 4096) with (a0 + (m + 1) * 4096) by lia.
    apply (IH (m + 1) h3 G3); [done|lia| |lia].
    unfold npages, PGSIZE in *. pose proof (Z.div_mod (newsz - a0 + 4096 - 1) 4096 ltac:(done)).
    pose proof (Z.mod_pos_bound (newsz - a0 + 4096 - 1) 4096 ltac:(done)). lia.
  - destruct (alloc_undo m p h3 G3 Hf3 Hm ltac:(lia)) as (h4 & G4 & E4 & Hf4 & Hp4). rewrite (bind_run _ _ _ _ _ E4).
    destruct (filled_give _ _ h0 G0 d _ _ _ Hd0 0 p h4 G4 Hf4 (Hp4 Hp3) Hp00) as (h5 & E5 & Hf5).
    rewrite (bind_run _ _ _ _ _ E5). do 3 eexists. split; [done|]. right. split; [done|exact Hf5].
Qed.

Lemma allocuvm_ok :
  tables h0 G0 → frames h0 G0 d →
  ∃ r h' G', allocuvm kernel_end available_memory d oldsz newsz h0 = Ok (r, h') ∧
    ((r = newsz ∧ grown (npages (page_up oldsz) newsz) 0 h' G') ∨ (r = 0 ∧ grown 0 0 h' G')).
Proof.
  intros Htb Hfr. unfold allocuvm. assert (UTOP < KERNBASE) by done. rewrite (proj2 (Z.leb_gt _ _)) by lia.
  rewrite (proj2 (Z.ltb_ge _ _)) by lia. rewrite pgroundup_eq by (unfold UTOP in *; lia). fold (page_up oldsz).
  pose proof (alloc_loop_ok (npages (page_up oldsz) newsz) 0 h0 G0) as Hloop. rewrite Z.mul_0_l, Z.add_0_r in Hloop.
  apply Hloop; [by apply filled_start|lia|lia|]. apply npages_fuel.
Qed.
End grow.

(** ** [freevm] *)

(** The tables of [d] with an index below [i] are free; [d] itself is no longer
    a directory. *)
Definition untabled (d i : Z) (r : role) : role :=
  match r with
  | RTable d' j => if decide (d' = d) then (if decide (j < i) then RFree else ROther) else r
  | _ => r
  end.
Definition taken_apart (d i : Z) G : gmap Z role := <[d := ROther]> (untabled d i <$> G).

Lemma apart_lookup d i G p r :
  p ≠ d → G !! p = Some r → taken_apart d i G !! p = Some (untabled d i r).
Proof. intros Hne Hp. unfold taken_apart. by rewrite lookup_insert_ne, lookup_fmap, Hp. Qed.

Lemma apart_inv d i G p r :
  taken_apart d i G !! p = Some r → (p = d ∧ r = ROther) ∨ (p ≠ d ∧ ∃ r0, G !! p = Some r0 ∧ r = untabled d i r0).
Proof.
  unfold taken_apart. rewrite lookup_insert. case_decide as E; [intros [= <-]; left; by subst|].
  rewrite lookup_fmap. destruct (G !! p) as [r0|]; [|done]. intros [= <-]. right. split; [done|]. by exists r0.
Qed.

Lemma apart_tables h G d : tables h G → G !! d = Some RDir → tables h (taken_apart d 0 G).
Proof.
  intros Htb Hd.
  assert (∀ t d' i, G !! t = Some (RTable d' i) → 0 ≤ i) as Hi by (intros t d' i Ht; destruct (tb_table _ _ _ _ Htb t d' i Ht) as (_ & ? & _); lia).
  split.
  - intros p r [[-> ->]|(_ & r0 & Hp & ->)]%apart_inv; by eapply tb_page.
  - destruct (tb_free _ _ _ _ Htb) as (ps & Hf & Hin). exists ps. split; [done|]. intros p. rewrite Hin. split.
    + intros Hp. by rewrite (apart_lookup d 0 G p RFree) by congruence.
    + intros [[-> ?]|(_ & r0 & Hp & E)]%apart_inv; [done|]. destruct r0 as [| |d' j| |]; try done. cbn in E.
      case_decide; [|done]. rewrite decide_False in E by (apply Hi in Hp; lia). done.
  - intros d' i e Hd' Hii He Hpr. apply apart_inv in Hd' as [[-> ?]|(Hne & r0 & Hp & E)]; [done|].
    assert (r0 = RDir) as -> by (destruct r0; try done; cbn in E; by repeat case_decide).
    pose proof (tb_dir _ _ _ _ Htb d' i e Hp Hii He Hpr) as Ht.
    rewrite (apart_lookup d 0 G _ (RTable d' i)) by congruence. cbn. by rewrite decide_False.
  - intros t d' i [[-> ?]|(Hne & r0 & Hp & E)]%apart_inv; [done|].
    destruct r0 as [| |d2 j| |]; try done. cbn in E. case_decide; [by case_decide|]. injection E as <- <-.
    destruct (tb_table _ _ _ _ Htb t d' i Hp) as (Hd' & Hrest). split; [|done].
    by rewrite (apart_lookup d 0 G d' RDir).
Qed.

Lemma apart_skip d i G : (∀ t, G !! t ≠ Some (RTable d i)) → taken_apart d (i + 1) G = taken_apart d i G.
Proof.
  intros Hno. unfold taken_apart. f_equal. apply map_eq. intros p. rewrite !lookup_fmap.
  destruct (G !! p) as [r|] eqn:Hp; [|done]. cbn. f_equal. destruct r as [| |d' j| |]; try done. cbn.
  case_decide; [|done]. subst. apply decide_ext. assert (j ≠ i) by (intros ->; by apply (Hno p)). lia.
Qed.

Lemma apart_next h G d i t :
  tables h G → G !! t = Some (RTable d i) → t ≠ d → taken_apart d (i + 1) G = <[t := RFree]> (taken_apart d i G).
Proof.
  intros Htb Ht Htd. apply map_eq. intros p. rewrite lookup_insert. case_decide as E.
  { subst p. rewrite (apart_lookup d _ G t _ Htd Ht). cbn. by rewrite !decide_True by lia. }
  unfold taken_apart. rewrite !lookup_insert. case_decide; [done|]. rewrite !lookup_fmap.
  destruct (G !! p) as [r|] eqn:Hp; [|done]. cbn. f_equal. destruct r as [| |d' j| |]; try done. cbn.
  case_decide; [|done]. subst. apply decide_ext. assert (j ≠ i); [|lia]. intros ->. apply E.
  by eapply (table_unique _ _ h G Htb).
Qed.

(** What a step of [freevm] may do to the rest of memory. *)
Definition apart_frame G h h' (d : Z) : Prop :=
  page_same (words h) (words h') d ∧ freep h' = freep h ∧
  (∀ d' x, G !! d' = Some RDir → d' ≠ d → 0 ≤ x < UTOP → pte h' d' x = pte h d' x) ∧ keeps_pages G h h'.

Lemma apart_frame_trans G h1 h2 h3 d : apart_frame G h1 h2 d → apart_frame G h2 h3 d → apart_frame G h1 h3 d.
Proof.
  intros (A1 & A2 & A3 & A4) (B1 & B2 & B3 & B4). split_and!.
  - by eapply page_same_trans.
  - congruence.
  - intros d' x Hd' Hne Hx. by rewrite B3, A3.
  - intros p r Hp Hr. eapply page_same_trans; [by eapply A4|by eapply B4].
Qed.

Lemma free_tables_ok (k : nat) i h h0 G d :
  tables h0 G → G !! d = Some RDir → 0 ≤ i → i + Z.of_nat k = 510 →
  tables h (taken_apart d i G) → apart_frame G h0 h d →
  ∃ h', free_tables kernel_end available_memory k d i h = Ok (tt, h') ∧ tables h' (taken_apart d 510 G) ∧
    apart_frame G h0 h' d.
Proof.
  intros Htb0 Hd. revert i h. induction k as [|k IH]; intros i h Hi Hk Htb Hfr; cbn [free_tables].
  { exists h. by replace i with 510 in Htb by lia. }
  destruct (page_cell _ _ h0 G Htb0 d _ i Hd ltac:(lia)) as [e He].
  assert (cell (words h) d i = Some e) as He' by (rewrite (proj1 Hfr) by lia; done).
  rewrite (bind_run _ _ _ _ _ (load_run _ _ _ He')). destruct (has e PTE_P) eqn:Hp.
  - pose proof (tb_dir _ _ _ _ Htb0 d i e Hd ltac:(lia) He Hp) as Ht.
    set (t := p2v (PTE_ADDR e)) in *. assert (t ≠ d) as Htd by congruence.
    assert (taken_apart d i G !! t = Some ROther) as Ht'.
    { rewrite (apart_lookup d i G t _ Htd Ht). cbn. by rewrite decide_True, decide_False by lia. }
    destruct (kpage_free_own _ _ h _ t _ Htb Ht' ltac:(done)) as (h1 & E & Htb1 & Ef & Ho).
    destruct (plain_change _ _ h h1 _ t _ Htb Ht' ltac:(by left) Ho) as [Hpt Hs].
    rewrite (bind_run _ _ _ _ _ E). apply (IH (i + 1)); [lia|lia|by erewrite apart_next|].
    eapply apart_frame_trans; [exact Hfr|]. split_and!.
    + apply (Hs d ROther); [unfold taken_apart; apply lookup_insert_eq|done].
    + done.
    + intros d' x Hd' Hne Hx. apply Hpt; [|done]. by rewrite (apart_lookup d i G d' RDir).
    + intros p r Hp' Hr. apply (Hs p r).
      * rewrite (apart_lookup d i G p r); [|intros ->; rewrite Hd in Hp'; by injection Hp' as <-|done]. by destruct r.
      * intros ->. rewrite Ht in Hp'. by injection Hp' as <-.
  - rewrite ret_bind. apply (IH (i + 1)); [lia|lia| |done]. rewrite apart_skip; [done|].
    intros t Ht. destruct (tb_table _ _ _ _ Htb0 t d i Ht) as (_ & _ & e' & E1 & E2 & _). congruence.
Qed.

(** The directory, the tables and the pages of [d] are free. *)
Definition given_back (d : Z) (r : role) : role :=
  match r with
  | RTable d' _ | RFrame d' _ => if decide (d' = d) then RFree else r
  | _ => r
  end.
Definition reclaimed (d : Z) G : gmap Z role := <[d := RFree]> (given_back d <$> G).

Lemma apart_reclaimed h G d :
  tables h G → frames h G d → (∀ f n, G !! f = Some (RFrame d n) → n * 4096 < USERTOP) →
  <[d := RFree]> (taken_apart d 510 (release d 0 USERTOP G)) = reclaimed d G.
Proof.
  intros Htb Hfr Htop. unfold taken_apart, reclaimed, release. rewrite insert_insert_eq. f_equal. apply map_eq.
  intros p. rewrite !lookup_fmap. destruct (G !! p) as [r|] eqn:Hp; [|done]. cbn. f_equal.
  destruct r as [| |d' i|d' n|]; try done; cbn.
  - case_decide; [|done]. subst. destruct (tb_table _ _ _ _ Htb p d i Hp) as (_ & ? & _). by rewrite decide_True by lia.
  - destruct (decide (d' = d)) as [->|]; [|by rewrite decide_False by tauto].
    rewrite decide_True; [done|]. split; [done|]. destruct (fr_entry _ _ _ Hfr p n Hp) as (? & _).
    specialize (Htop p n Hp). lia.
Qed.

(** Entries of other address spaces and pages that are not freed. *)
Definition others_kept (G G' : gmap Z role) h h' (d : Z) : Prop :=
  freep h' = freep h ∧ (∀ d' x, G !! d' = Some RDir → d' ≠ d → 0 ≤ x < UTOP → pte h' d' x = pte h d' x) ∧
  ∀ p r, G' !! p = Some r → plain r → page_same (words h) (words h') p.

(** What [freevm] frees: the frames below [USERTOP], the tables and the
    directory. *)
Definition torn_down (d : Z) G : gmap Z role := <[d := RFree]> (taken_apart d 510 (release d 0 USERTOP G)).

Lemma freevm_run h G d :
  tables h G → G !! d = Some RDir → frames h G d →
  ∃ h', freevm kernel_end available_memory d h = Ok (tt, h') ∧ tables h' (torn_down d G) ∧
    others_kept G (torn_down d G) h h' d.
Proof.
  intros Htb Hd Hfr. destruct (page_bounds _ _ h G Htb d _ Hd) as [Hdb _].
  unfold freevm. rewrite (proj2 (Z.eqb_neq _ _)) by (unfold KERNBASE, PHYSLIMIT in *; lia).
  destruct (deallocuvm_ok _ _ h G d USERTOP 0 Htb Hd Hfr ltac:(done) ltac:(done)) as (h1 & E1 & Htb1 & Hfr1 & Ef1 & Hk1 & Hu1).
  { by left. }
  rewrite (bind_run _ _ _ _ _ E1). change (page_up 0) with 0 in *. set (G1 := release d 0 USERTOP G) in *.
  assert (∀ q r, ¬ plain r → G !! q = Some r → G1 !! q = Some r) as HG1.
  { intros q r Hr Hq. unfold G1, release. rewrite lookup_fmap, Hq. cbn. f_equal. by destruct r; try destruct (Hr I). }
  assert (G1 !! d = Some RDir) as Hd1 by (apply HG1; (done || by intros [])).
  destruct (free_tables_ok (Z.to_nat (NPDENTRIES - 2)) 0 h1 h1 G1 d Htb1 Hd1 ltac:(done) ltac:(done))
    as (h2 & E2 & Htb2 & Hpd & Ef2 & Hp2 & Hk2); [by apply apart_tables|by split_and!|].
  rewrite (bind_run _ _ _ _ _ E2). set (G2 := taken_apart d 510 G1) in *.
  assert (G2 !! d = Some ROther) as Hd2 by apply lookup_insert_eq.
  destruct (kpage_free_own _ _ h2 G2 d _ Htb2 Hd2 ltac:(done)) as (h3 & E3 & Htb3 & Ef3 & Ho).
  destruct (plain_change _ _ h2 h3 G2 d _ Htb2 Hd2 ltac:(by left) Ho) as [Hp3 Hs3].
  exists h3. split; [done|]. split; [done|]. unfold torn_down. split_and!; [congruence|..].
  - intros d' x Hd' Hne Hx. rewrite Hp3, Hp2; try done.
    + rewrite (Hu1 d' x) by done. by rewrite decide_False by tauto.
    + apply HG1; (done || by intros []).
    + unfold G2. rewrite (apart_lookup d 510 G1 d' RDir); [done|done|]. apply HG1; (done || by intros []).
  - intros p r Hp Hr. rewrite lookup_insert in Hp. case_decide as E; [by injection Hp as <-|].
    assert (G1 !! p = Some r) as Hp1.
    { fold G1 in Hp. apply apart_inv in Hp as [[-> _]|(_ & r0 & Hp & ->)]; [done|]. destruct r0 as [| |d' j| |]; try done.
      exfalso. cbn in Hr. case_decide; [|done]. case_decide; [done|].
      destruct (tb_table _ _ _ _ Htb1 p d' j Hp) as (_ & ? & _). lia. }
    eapply page_same_trans; [by eapply Hk1|]. eapply page_same_trans; [by eapply Hk2|].
    apply (Hs3 p r); [exact Hp|done].
Qed.

Lemma freevm_ok h G d :
  tables h G → G !! d = Some RDir → frames h G d → (∀ f n, G !! f = Some (RFrame d n) → n * 4096 < USERTOP) →
  ∃ h', freevm kernel_end available_memory d h = Ok (tt, h') ∧ tables h' (reclaimed d G) ∧
    others_kept G (reclaimed d G) h h' d.
Proof.
  intros Htb Hd Hfr Htop. rewrite <- (apart_reclaimed h G d Htb Hfr Htop). by apply freevm_run.
Qed.

(** ** [setupkvm] *)

(** At least [n] pages are free. *)
Definition enough (n : nat) G : Prop := ∃ l, NoDup l ∧ length l = n ∧ Forall (λ p, G !! p = Some RFree) l.

Lemma enough_take n G p r : enough (S n) G → enough n (<[p := r]> G).
Proof.
  intros (l & Hnd & Hl & Hf).
  assert (∀ l', NoDup l' → l' ⊆ l → p ∉ l' → length l' = n → enough n (<[p := r]> G)) as Hsub.
  { intros l' Hnd' Hs Hp Hl'. exists l'. split_and!; [done|done|]. apply Forall_forall. intros q Hq.
    rewrite lookup_insert_ne by (intros ->; done). by apply (proj1 (Forall_forall _ _) Hf q), Hs. }
  destruct (decide (p ∈ l)) as [Hin|Hnin].
  - apply list_elem_of_split in Hin as (l1 & l2 & ->). apply (Hsub (l1 ++ l2)).
    + apply NoDup_app in Hnd as (H1 & H2 & [_ H3]%NoDup_cons). apply NoDup_app. split_and!; [done| |done].
      intros x Hx Hx2. apply (H2 x Hx). by right.
    + intros x. rewrite !elem_of_app, elem_of_cons. tauto.
    + rewrite NoDup_app, NoDup_cons in Hnd. destruct Hnd as (_ & H2 & [H3 _]). rewrite elem_of_app. intros [Hx|Hx]; [|done].
      apply (H2 p Hx). left.
    + rewrite length_app in *. cbn in Hl. lia.
  - destruct l as [|x l]; [done|]. apply NoDup_cons in Hnd as [_ Hnd]. apply (Hsub l); [done| | |by injection Hl].
    + intros y Hy. by right.
    + intros Hp. apply Hnin. by right.
Qed.

Lemma enough_alloc n h G :
  tables h G → enough (S n) G →
  ∃ p h', kpage_alloc h = Ok (p, h') ∧ words h' = words h ∧ freep h' = freep h ∧ p ≠ 0 ∧ G !! p = Some RFree ∧
    tables h' (<[p := ROther]> G) ∧ enough n (<[p := ROther]> G).
Proof.
  intros Htb He. destruct (kpage_alloc_own _ _ h G Htb) as (p & h' & E & Ew & Ef & [(_ & _ & Hno)|(H1 & H2 & H3)]).
  - destruct He as ([|x l] & _ & Hl & Hf); [done|]. apply Forall_cons in Hf as [Hx _]. by destruct (Hno x).
  - exists p, h'. split_and!; try done. by apply enough_take.
Qed.

(** Writes to the pages [ps], which are not part of any page table. *)
Definition quiet G (ps : list Z) h h' : Prop :=
  tables h' G ∧ same_ptes G h h' ∧ freep h' = freep h ∧
  ∀ q r, G !! q = Some r → q ∉ ps → page_same (words h) (words h') q.

Lemma quiet_trans G ps h1 h2 h3 : quiet G ps h1 h2 → quiet G ps h2 h3 → quiet G ps h1 h3.
Proof.
  intros (A1 & A2 & A3 & A4) (B1 & B2 & B3 & B4). split_and!; [done| |congruence|].
  - intros d x Hd Hx. by rewrite B2, A2.
  - intros q r Hq Hn. eapply page_same_trans; [by eapply A4|by eapply B4].
Qed.

Lemma quiet_page G ps h h' p :
  tables h G → G !! p = Some ROther → p ∈ ps → only_page p (words h) (words h') → ext h' = ext h → freep h' = freep h →
  quiet G ps h h'.
Proof.
  intros Htb Hp Hin Ho Ee Ef. destruct (plain_change _ _ h h' G p _ Htb Hp ltac:(by left) Ho) as [H1 H2].
  split_and!; [by apply (tables_change _ _ h h' G p ROther)|done|done|].
  intros q r Hq Hn. apply (H2 q r Hq). by intros ->.
Qed.

Lemma clear_quiet G ps h p :
  tables h G → G !! p = Some ROther → p ∈ ps →
  ∃ h', clear_page p h = Ok (tt, h') ∧ quiet G ps h h' ∧ only_page p (words h) (words h') ∧
    ∀ j, 0 ≤ j < 512 → cell (words h') p j = Some 0.
Proof.
  intros Htb Hp Hin. destruct (tb_page _ _ _ _ Htb _ _ Hp) as (_ & _ & Hm).
  destruct (proj1 (wp_run _ _ _) (clear_page_ok h p Hm)) as ([] & h' & E & Ef & Ee & Ho & Hz).
  exists h'. split_and!; try done. by apply (quiet_page G ps h h' p).
Qed.

Lemma store_quiet G ps h p i v :
  tables h G → G !! p = Some ROther → p ∈ ps → 0 ≤ i < 512 →
  store (p + 8 * i) v h = Ok (tt, with_pte h p i v) ∧ quiet G ps h (with_pte h p i v) ∧
  ∀ q r j, G !! q = Some r → 0 ≤ j < 512 →
    cell (words (with_pte h p i v)) q j = if decide (q = p ∧ j = i) then Some v else cell (words h) q j.
Proof.
  intros Htb Hp Hin Hi. destruct (tb_page _ _ _ _ Htb _ _ Hp) as (_ & _ & Hm). split_and!.
  - apply store_run. by apply Hm.
  - apply (quiet_page G ps h _ p); try done. by apply only_page_insert.
  - intros q r j Hq Hj. apply cell_insert; [by eapply page_aligned..|done|done].
Qed.

(** An empty page can become a directory. *)
Lemma tables_dir h G p :
  tables h G → G !! p = Some ROther → (∀ i, 0 ≤ i < 510 → cell (words h) p i = Some 0) → tables h (<[p := RDir]> G).
Proof.
  intros Htb Hp Hz.
  assert (∀ q r, r ≠ RDir → r ≠ ROther → <[p := RDir]> G !! q = Some r ↔ G !! q = Some r) as Hne.
  { intros q r H1 H2. rewrite lookup_insert. case_decide as E; [|done]. subst. rewrite Hp. split; intros [= <-]; done. }
  split.
  - intros q r. rewrite lookup_insert. case_decide as E; [|by apply (tb_page _ _ _ _ Htb)]. intros _. subst.
    by apply (tb_page _ _ _ _ Htb _ _ Hp).
  - destruct (tb_free _ _ _ _ Htb) as (ps & Hf & Hin). exists ps. split; [done|]. intros q. by rewrite Hne, Hin.
  - intros d i e. rewrite lookup_insert. case_decide as E.
    + subst. intros _ Hi He Hpr. rewrite Hz in He by done. by injection He as <-.
    + intros Hd Hi He Hpr. rewrite Hne by done. by eapply tb_dir.
  - intros t d i Ht. rewrite Hne in Ht by done. destruct (tb_table _ _ _ _ Htb t d i Ht) as (Hd & Hrest).
    split; [|done]. rewrite lookup_insert. by case_decide.
Qed.

(** The pages of a new address space, and what the levels above the directory
    hold. *)
Record fresh_space (kp d p4 p3 : Z) G0 h' G' : Prop := {
  fs_roles : G' = <[d := RDir]> (<[d := ROther]> (<[p3 := ROther]> (<[p4 := ROther]> G0)));
  fs_free : G0 !! p4 = Some RFree ∧ G0 !! p3 = Some RFree ∧ G0 !! d = Some RFree;
  fs_ne : p4 ≠ p3 ∧ p4 ≠ d ∧ p3 ≠ d;
  fs_tables : tables h' G';
  fs_empty x : 0 ≤ x < UTOP → pte h' d x = 0;
  fs_pml4 : cell (words h') p4 0 = Some (dir_entry p3) ∧ cell (words h') p4 511 = Some (dir_entry kp);
  fs_pdpt : cell (words h') p3 0 = Some (dir_entry d);
  fs_back : cell (words h') d 511 = Some (Z.lor p4 PTE_P) ∧ cell (words h') d 510 = Some (Z.lor p3 PTE_P);
}.

Lemma setupkvm_ok h G kp :
  tables h G → enough 3 G →
  ∃ d p4 p3 h' G', setupkvm kp h = Ok (d, h') ∧ fresh_space kp d p4 p3 G h' G' ∧ freep h' = freep h ∧
    same_ptes G h h' ∧ keeps_pages G h h'.
Proof.
  intros Htb He. unfold setupkvm.
  destruct (enough_alloc 2 h G Htb He) as (p4 & h1 & E1 & W1 & F1 & Z1 & R1 & Htb1 & He1).
  destruct (enough_alloc 1 h1 _ Htb1 He1) as (p3 & h2 & E2 & W2 & F2 & Z2 & R2 & Htb2 & He2).
  destruct (enough_alloc 0 h2 _ Htb2 He2) as (d & h3 & E3 & W3 & F3 & Z3 & R3 & Htb3 & _).
  rewrite (bind_run _ _ _ _ _ E1), (bind_run _ _ _ _ _ E2), (bind_run _ _ _ _ _ E3). clear E1 E2 E3 He1 He2.
  assert (p4 ≠ p3) as N1 by (intros ->; rewrite lookup_insert_eq in R2; done).
  assert (p3 ≠ d) as N2 by (intros ->; rewrite lookup_insert_eq in R3; done).
  rewrite lookup_insert_ne in R2 by done. rewrite lookup_insert_ne in R3 by done.
  assert (p4 ≠ d) as N3 by (intros ->; rewrite lookup_insert_eq in R3; done).
  rewrite lookup_insert_ne in R3 by done.
  set (G3 := <[d := ROther]> _) in *. set (ps := [p4; p3; d]).
  assert (G3 !! p4 = Some ROther ∧ G3 !! p3 = Some ROther ∧ G3 !! d = Some ROther) as (Q4 & Q3 & Qd).
  { unfold G3. split_and!; rewrite !lookup_insert; repeat case_decide; done. }
  assert (p4 ∈ ps ∧ p3 ∈ ps ∧ d ∈ ps) as (I4 & I3 & Id) by (unfold ps; rewrite !elem_of_cons; tauto).
  destruct (clear_quiet G3 ps h3 p4 Htb3 Q4 I4) as (h4 & E4 & A4 & O4 & C4). rewrite (bind_run _ _ _ _ _ E4).
  destruct (clear_quiet G3 ps h4 p3 (proj1 A4) Q3 I3) as (h5 & E5 & A5 & O5 & C5). rewrite (bind_run _ _ _ _ _ E5).
  destruct (clear_quiet G3 ps h5 d (proj1 A5) Qd Id) as (h6 & E6 & A6 & O6 & C6). rewrite (bind_run _ _ _ _ _ E6).
  assert (∀ p r, G3 !! p = Some r → p mod 4096 = 0) as Hal by (intros p r Hp; by eapply (page_aligned _ _ h3 G3)).
  assert (∀ j, 0 ≤ j < 512 → cell (words h6) p4 j = Some 0) as C4'.
  { intros j Hj. rewrite (only_page_same d p4 _ _ O6), (only_page_same p3 p4 _ _ O5); eauto. }
  assert (∀ j, 0 ≤ j < 512 → cell (words h6) p3 j = Some 0) as C5'.
  { intros j Hj. rewrite (only_page_same d p3 _ _ O6); eauto. }
  destruct (store_quiet G3 ps h6 p4 0 (dir_entry p3) (proj1 A6) Q4 I4 ltac:(lia)) as (S7 & A7 & C7).
  rewrite Z.mul_0_r, Z.add_0_r in S7. rewrite (bind_run _ _ _ _ _ S7). set (h7 := with_pte h6 _ _ _) in *.
  destruct (store_quiet G3 ps h7 p4 511 (dir_entry kp) (proj1 A7) Q4 I4 ltac:(lia)) as (S8 & A8 & C8).
  rewrite (bind_run _ _ _ _ _ S8). set (h8 := with_pte h7 _ _ _) in *.
  destruct (store_quiet G3 ps h8 p3 0 (dir_entry d) (proj1 A8) Q3 I3 ltac:(lia)) as (S9 & A9 & C9).
  rewrite Z.mul_0_r, Z.add_0_r in S9. rewrite (bind_run _ _ _ _ _ S9). set (h9 := with_pte h8 _ _ _) in *.
  destruct (store_quiet G3 ps h9 d 511 (Z.lor p4 PTE_P) (proj1 A9) Qd Id ltac:(lia)) as (S10 & A10 & C10).
  rewrite (bind_run _ _ _ _ _ S10). set (h10 := with_pte h9 _ _ _) in *.
  destruct (store_quiet G3 ps h10 d 510 (Z.lor p3 PTE_P) (proj1 A10) Qd Id ltac:(lia)) as (S11 & A11 & C11).
  rewrite (bind_run _ _ _ _ _ S11). set (h11 := with_pte h10 _ _ _) in *.
  assert (∀ q r j, G3 !! q = Some r → 0 ≤ j < 512 → cell (words h11) q j =
    if decide (q = d ∧ j = 510) then Some (Z.lor p3 PTE_P) else if decide (q = d ∧ j = 511) then Some (Z.lor p4 PTE_P)
    else if decide (q = p3 ∧ j = 0) then Some (dir_entry d) else if decide (q = p4 ∧ j = 511) then Some (dir_entry kp)
    else if decide (q = p4 ∧ j = 0) then Some (dir_entry p3) else cell (words h6) q j) as C.
  { intros q r j Hq Hj. by rewrite (C11 q r j), (C10 q r j), (C9 q r j), (C8 q r j), (C7 q r j). }
  assert (quiet G3 ps h3 h11) as (Htb11 & Hp11 & Ef11 & Hs11) by
    (do 7 (eapply quiet_trans; [eassumption|]); exact A11).
  assert (∀ i, 0 ≤ i < 510 → cell (words h11) d i = Some 0) as Hz.
  { intros i Hi. rewrite (C d ROther) by (done || lia). rewrite !decide_False by lia. apply C6. lia. }
  assert (∀ d' x, pte h3 d' x = pte h d' x) as Hp3 by (intros; unfold pte, pte_loc; by rewrite W3, W2, W1).
  assert (∀ q r, G !! q = Some r → r ≠ RFree → G3 !! q = Some r ∧ q ∉ ps) as HG3.
  { intros q r Hq Hr. unfold G3. rewrite !lookup_insert_ne by congruence. split; [done|].
    unfold ps. rewrite !elem_of_cons, elem_of_nil. intros [->|[->|[->|[]]]]; congruence. }
  exists d, p4, p3, h11, (<[d := RDir]> G3). split; [done|]. split; [|split_and!].
  - split; try done.
    + by apply tables_dir.
    + intros x Hx. unfold pte, pte_loc. destruct (pdx_range x Hx) as [_ Hi]. rewrite Hz by lia. done.
    + rewrite !(C p4 ROther) by (done || lia). split.
      * rewrite !decide_False by (intros [? ?]; (done || lia)). by rewrite decide_True.
      * rewrite !decide_False by (intros [? ?]; (done || lia)). by rewrite decide_True.
    + rewrite !(C p3 ROther) by (done || lia). rewrite !decide_False by (intros [? ?]; (done || lia)). by rewrite decide_True.
    + rewrite !(C d ROther) by (done || lia). rewrite !decide_False by lia. by rewrite !decide_True.
  - cbn in Ef11 |- *. congruence.
  - intros d' x Hd' Hx. rewrite <- Hp3. apply Hp11; [|done]. by apply (HG3 d' RDir).
  - intros p r Hp Hr. destruct (HG3 p r Hp ltac:(by intros ->)) as [Hp' Hn]. intros j Hj. rewrite (Hs11 p r Hp' Hn j Hj).
    by rewrite W3, W2, W1.
Qed.

(** ** [copyuvm] *)

(** User pages belong to address spaces that exist. *)
Definition owned G : Prop := ∀ f d n, G !! f = Some (RFrame d n) → G !! d = Some RDir.

Lemma pte_flags_range e : 0 ≤ PTE_FLAGS e < 4096.
Proof. unfold PTE_FLAGS. change 0xFFF with (Z.ones 12). rewrite Z.land_ones by lia. by apply Z.mod_pos_bound. Qed.

Lemma lor_range a b : 0 ≤ a < 4096 → 0 ≤ b < 4096 → 0 ≤ Z.lor a b < 4096.
Proof.
  intros Ha Hb. split; [apply Z.lor_nonneg; lia|]. change 4096 with (2 ^ 12).
  rewrite <- (Z.mod_small a (2 ^ 12)), <- (Z.mod_small b (2 ^ 12)) by (change (2 ^ 12) with 4096; lia).
  rewrite <- !Z.land_ones by lia. rewrite <- Z.land_lor_distr_l, Z.land_ones by lia. by apply Z.mod_pos_bound.
Qed.

Section copy.
Context h G (pgdir sz : Z) (Htb : tables h G) (Hpd : G !! pgdir = Some RDir) (Hfr : frames h G pgdir).
Context (Hown : owned G) (Hsz : 0 ≤ sz ≤ USERTOP) (Hpr : ∀ x, 0 ≤ x < sz → present h pgdir x).

(** The child's pages: the parent's flags and the parent's words. *)
Definition parent_flags (n : Z) : Z := Z.lor (PTE_FLAGS (pte h pgdir (n * 4096))) PTE_P.
Definition parent_words (n j : Z) : option Z := cell (words h) (frame_of h pgdir (n * 4096)) j.

Context (kp d p4 p3 : Z) (h1 : kheap) (G1 : gmap Z role) (Hfs : fresh_space kp d p4 p3 G h1 G1).
Context (Hp1 : same_ptes G h h1) (Hk1 : keeps_pages G h h1).

Abbreviation copied := (filled h1 G1 d 0 parent_flags parent_words).

Lemma copy_flags n : 0 ≤ parent_flags n < 4096 ∧ has (parent_flags n) PTE_P = true.
Proof.
  unfold parent_flags. split; [apply lor_range; [apply pte_flags_range|done]|].
  unfold has. rewrite Z.land_comm. rewrite Z.land_lor_distr_r. apply negb_true_iff, Z.eqb_neq. intros E.
  apply (f_equal (λ z, Z.testbit z 0)) in E. rewrite Z.lor_spec in E. cbn in E. by rewrite orb_true_r in E.
Qed.

Lemma space_lookup q r : G !! q = Some r → r ≠ RFree → G1 !! q = Some r.
Proof.
  destruct Hfs as [-> (F1 & F2 & F3) _ _ _ _ _ _]. intros Hq Hr. rewrite !lookup_insert_ne by congruence. done.
Qed.

Lemma space_dir : G1 !! d = Some RDir.
Proof. rewrite (fs_roles _ _ _ _ _ _ _ Hfs). apply lookup_insert_eq. Qed.

Lemma dir_fresh : G !! d = Some RFree.
Proof. by destruct (fs_free _ _ _ _ _ _ _ Hfs) as (_ & _ & ?). Qed.

Lemma copy_start : copied 0 0 h1 G1.
Proof.
  pose proof space_dir as Hd1. apply filled_start; [apply Hfs|]. split.
  - intros x Hx. rewrite (fs_empty _ _ _ _ _ _ _ Hfs) by done. done.
  - intros f n HG. exfalso. pose proof dir_fresh as Hd. rewrite (fs_roles _ _ _ _ _ _ _ Hfs), !lookup_insert in HG.
    repeat case_decide; try done. apply Hown in HG. congruence.
Qed.

(** The parent is as it was before. *)
Lemma copy_parent m q hc Gc x :
  copied m q hc Gc → 0 ≤ x < UTOP → pte hc pgdir x = pte h pgdir x.
Proof.
  intros Hf Hx. rewrite (fi_other _ _ _ _ _ _ _ _ _ _ _ _ Hf); [by apply Hp1|by apply space_lookup|done|].
  intros [-> _]. pose proof dir_fresh. congruence.
Qed.

Lemma copy_parent_page m q hc Gc n j :
  copied m q hc Gc → 0 ≤ n → n * 4096 < sz → 0 ≤ j < 512 →
  cell (words hc) (frame_of h pgdir (n * 4096)) j = parent_words n j.
Proof.
  intros Hf Hn Hs Hj. assert (USERTOP < UTOP) by done.
  pose proof (fr_own _ _ _ Hfr (n * 4096) ltac:(lia) (Hpr (n * 4096) ltac:(lia))) as Hfo.
  rewrite (fi_pages _ _ _ _ _ _ _ _ _ _ _ _ Hf _ _ (space_lookup _ _ Hfo ltac:(done))) by done.
  by rewrite (Hk1 _ _ Hfo) by done.
Qed.

(** Giving up: all pages but the two upper tables are free again. *)
Definition undone h' G' : Prop :=
  tables h' G' ∧ (∀ p, G' !! p = if decide (p = p4 ∨ p = p3) then Some ROther else G !! p) ∧
  same_ptes G h h' ∧ keeps_pages G h h'.

Lemma copy_undo m hc Gc :
  copied m 0 hc Gc → 0 ≤ m → m * 4096 < USERTOP + 4096 →
  ∃ h' G', freevm kernel_end available_memory d hc = Ok (tt, h') ∧ undone h' G'.
Proof.
  intros Hf Hm Htop. pose proof Hf as [H1 H2 H3 H4 H5 H6 _]. pose proof dir_fresh as Hdf.
  assert (Gc !! d = Some RDir) as Hd by (eapply fi_keep; [done|apply space_dir|done]).
  assert (∀ f n, G1 !! f ≠ Some (RFrame d n) ∧ G1 !! f ≠ Some (RTable d n)) as Hno1.
  { intros f n. rewrite (fs_roles _ _ _ _ _ _ _ Hfs), !lookup_insert. repeat case_decide; try done. split.
    - intros HG. apply Hown in HG. congruence.
    - intros HG. destruct (tb_table _ _ _ _ Htb _ _ _ HG) as (? & _). congruence. }
  destruct (freevm_ok hc Gc d H1 Hd H2) as (h' & E & Htb' & _ & Hp' & Hk').
  { intros f n HG. destruct (H3 f) as [Ef|[_ Hr]]; [rewrite HG in Ef; by destruct (Hno1 f n)|].
    destruct Hr as [[i Hr]|[(k & Hr & Hrun)|[Hr _]]]; [congruence| |congruence].
    rewrite HG in Hr. injection Hr as <-. unfold in_run, PGSIZE, USERTOP in *. lia. }
  exists h', (reclaimed d Gc). split; [done|]. destruct Hfs as [Eroles (F1 & F2 & F3) (N1 & N2 & N3) _ _ _ _ _].
  assert (∀ p, reclaimed d Gc !! p = if decide (p = p4 ∨ p = p3) then Some ROther else G !! p) as HG'.
  { intros p. unfold reclaimed. rewrite lookup_insert. destruct (decide (d = p)) as [<-|Hne].
    { rewrite decide_False by (intros [?|?]; congruence). done. }
    rewrite lookup_fmap. destruct (H3 p) as [Ep|[Hf0 Hr]].
    - rewrite Ep. assert (given_back d <$> G1 !! p = G1 !! p) as ->.
      { destruct (G1 !! p) as [r|] eqn:Hp; [|done]. cbn. f_equal. destruct r as [| |d' i|d' i|]; try done; cbn;
          (case_decide; [|done]); subst; by destruct (Hno1 p i). }
      rewrite Eroles, !lookup_insert. rewrite !(decide_False (P := d = p)) by done.
      destruct (decide (p3 = p)) as [->|]; [by rewrite decide_True by tauto|].
      destruct (decide (p4 = p)) as [->|]; [by rewrite decide_True by tauto|].
      rewrite decide_False by (intros [?|?]; congruence). done.
    - assert (G !! p = Some RFree ∧ p ≠ p4 ∧ p ≠ p3) as (Hp & ? & ?).
      { rewrite Eroles, !lookup_insert in Hf0. by repeat case_decide. }
      rewrite decide_False by tauto. rewrite Hp. destruct Hr as [[i Hr]|[(k & Hr & _)|[Hr ->]]].
      + rewrite Hr. cbn. by rewrite decide_True.
      + rewrite Hr. cbn. by rewrite decide_True.
      + destruct (page_bounds _ _ hc Gc H1 0 _ Hr). unfold KERNBASE, PHYSLIMIT in *. lia. }
  assert (∀ q r, G !! q = Some r → r ≠ RFree → Gc !! q = Some r ∧ q ≠ d ∧ q ≠ p4 ∧ q ≠ p3) as Hkeep.
  { intros q r Hq Hr. split; [|split_and!; congruence]. eapply fi_keep; [done|by apply space_lookup|done]. }
  split_and!; [done|done|..].
  - intros d' x Hd' Hx. destruct (Hkeep d' _ Hd' ltac:(done)) as (Hc & Hne & _). rewrite Hp', H6, Hp1; try done.
    + by apply space_lookup.
    + tauto.
  - intros p r Hp Hr. destruct (Hkeep p r Hp ltac:(by intros ->)) as (Hc & Hne & Hn4 & Hn3).
    eapply page_same_trans; [by eapply Hk1|]. eapply page_same_trans; [eapply (H4 p r); [apply space_lookup; [done|by intros ->]|done]|].
    apply (Hk' p r); [|done]. rewrite HG', decide_False by tauto. done.
Qed.

Lemma copy_loop_S fuel i :
  copy_loop kernel_end available_memory (S fuel) pgdir d i sz =
  if sz <=? i then mret d
  else
    pte ← walkpgdir pgdir i false;
    if pte =? 0 then panic "copyuvm: pte should exist"
    else
      e ← load pte;
      if negb (has e PTE_P) then panic "copyuvm: page not present"
      else
        let pa := PTE_ADDR e in
        let flags := PTE_FLAGS e in
        mem ← kpage_alloc;
        if mem =? 0 then _ ← freevm kernel_end available_memory d; mret 0
        else
          _ ← copy_page mem (p2v pa);
          r ← mappages d i PGSIZE (V2P mem) flags;
          if r <? 0 then
            _ ← page_free mem;
            _ ← freevm kernel_end available_memory d;
            mret 0
          else copy_loop kernel_end available_memory fuel pgdir d (u64 (i + PGSIZE)) sz.
Proof. done. Qed.

(** The entry of the parent, as the loop reads it. *)
Lemma pte_read hc Gc x :
  tables hc Gc → Gc !! pgdir = Some RDir → 0 ≤ x < UTOP → present hc pgdir x →
  ∃ a, walkpgdir pgdir x false hc = Ok (a, hc) ∧ a ≠ 0 ∧ load a hc = Ok (pte hc pgdir x, hc).
Proof.
  intros Htbc Hdc Hx Hprx. rewrite (walk_run _ _ hc Gc Htbc pgdir x Hdc Hx). unfold pte in Hprx |- *.
  destruct (pte_loc hc pgdir x) as [t|] eqn:Hl; [|done].
  assert (Gc !! t = Some (RTable pgdir (PDX x))) as Ht by (by apply (pte_loc_Some _ _ hc Gc Htbc)).
  exists (t + 8 * PTX x). split; [done|]. split; [by eapply entry_nonnull|].
  destruct (page_cell _ _ hc Gc Htbc t _ (PTX x) Ht (ptx_range x)) as [e He]. rewrite He. by apply load_run.
Qed.

Lemma copy_loop_ok fuel m hc Gc :
  copied m 0 hc Gc → 0 ≤ m → m ≤ npages 0 sz → sz ≤ m * 4096 + Z.of_nat fuel * 4096 →
  ∃ r h' G', copy_loop kernel_end available_memory fuel pgdir d (m * 4096) sz hc = Ok (r, h') ∧
    ((r = d ∧ copied (npages 0 sz) 0 h' G') ∨ (r = 0 ∧ undone h' G')).
Proof.
  assert (USERTOP + 4096 < UTOP) as Hut by done.
  assert (∀ k, 0 ≤ k → k ≤ npages 0 sz → sz ≤ k * 4096 → k = npages 0 sz) as Hlast.
  { intros k ? ? ?. unfold npages, PGSIZE in *.
    pose proof (Z.div_mod (sz - 0 + 4096 - 1) 4096 ltac:(done)). pose proof (Z.mod_pos_bound (sz - 0 + 4096 - 1) 4096 ltac:(done)). lia. }
  revert m hc Gc. induction fuel as [|fuel IH]; intros m hc Gc Hf Hm Hmn Hfuel.
  { exists d, hc, Gc. cbn [copy_loop]. rewrite (proj2 (Z.leb_le _ _)) by lia. split; [done|]. left. split; [done|].
    by rewrite <- (Hlast m) by lia. }
  rewrite copy_loop_S. destruct (decide (sz ≤ m * 4096)) as [Hdone|Hmore].
  { exists d, hc, Gc. rewrite (proj2 (Z.leb_le _ _)) by lia. split; [done|]. left. split; [done|].
    by rewrite <- (Hlast m) by lia. }
  rewrite (proj2 (Z.leb_gt _ _)) by lia.
  assert (pte hc pgdir (m * 4096) = pte h pgdir (m * 4096)) as Hpe by (apply (copy_parent m 0 hc Gc); [done|lia]).
  pose proof (Hpr (m * 4096) ltac:(lia)) as Hprm.
  destruct (pte_read hc Gc (m * 4096)) as (a & E1 & Ha & E2).
  { apply Hf. } { eapply fi_keep; [done|by apply space_lookup|done]. } { lia. } { by rewrite Hpe. }
  rewrite (bind_run _ _ _ _ _ E1), (proj2 (Z.eqb_neq _ _)), (bind_run _ _ _ _ _ E2) by done.
  rewrite Hpe, Hprm. cbn [negb]. cbn zeta. clear E1 E2.
  destruct (kpage_alloc_own _ _ hc Gc (fi_tables _ _ _ _ _ _ _ _ _ _ _ _ Hf))
    as (p & h2 & Ea & Ew & Ef & [(-> & -> & Hno)|(Hp0 & Hp & Htb1)]); rewrite (bind_run _ _ _ _ _ Ea).
  { rewrite Z.eqb_refl. destruct (copy_undo m hc Gc Hf Hm ltac:(lia)) as (h' & G' & E & Hu).
    rewrite (bind_run _ _ _ _ _ E). exists 0, h', G'. split; [done|]. by right. }
  rewrite (proj2 (Z.eqb_neq _ _)) by done.
  assert (G1 !! p = Some RFree) as Hp00.
  { destruct (fi_new _ _ _ _ _ _ _ _ _ _ _ _ Hf p) as [<-|[? _]]; done. }
  pose proof (filled_take _ _ h1 G1 d _ _ _ space_dir m hc h2 Gc p Hf Hp Ew Ef Htb1) as Hf1.
  set (G2 := <[p := ROther]> Gc) in *. assert (G2 !! p = Some ROther) as Hp2 by apply lookup_insert_eq.
  destruct (tb_page _ _ _ _ Htb1 _ _ Hp2) as (_ & _ & Hpm).
  fold (frame_of h pgdir (m * 4096)). set (f := frame_of h pgdir (m * 4096)).
  assert (G !! f = Some (RFrame pgdir (m * 4096 / 4096))) as Hfo by (apply (fr_own _ _ _ Hfr); [lia|done]).
  assert (G2 !! f = Some (RFrame pgdir (m * 4096 / 4096))) as Hfo2.
  { eapply fi_keep; [exact Hf1|by apply space_lookup|done]. }
  destruct (proj1 (wp_run _ _ _) (copy_page_ok h2 p f (page_aligned _ _ h2 G2 Htb1 p _ Hp2)
    (page_aligned _ _ h2 G2 Htb1 f _ Hfo2) ltac:(congruence) Hpm (proj2 (proj2 (tb_page _ _ _ _ Htb1 _ _ Hfo2)))))
    as ([] & h3 & Ec & Ef2 & Ee2 & Ho & Hz).
  rewrite (bind_run _ _ _ _ _ Ec).
  pose proof (filled_write _ _ h1 G1 d _ _ _ space_dir m p h2 h3 G2 Hf1 Hp2 Hp00 Ho Ee2 Ef2) as Hf2.
  destruct (filled_map kernel_end available_memory h1 G1 d 0 parent_flags parent_words space_dir copy_flags ltac:(done)
    m p h3 G2 (PTE_FLAGS (pte h pgdir (m * 4096)))) as (r & h4 & E3 & Hr); try done; rewrite ?Z.add_0_l, ?Z.div_mul by done.
  { lia. }
  { intros j Hj. rewrite Hz by done. apply (copy_parent_page m p h2 G2); [done|done|lia|done]. }
  { rewrite (fs_empty _ _ _ _ _ _ _ Hfs) by lia. done. }
  { done. }
  rewrite Z.add_0_l in E3. rewrite (bind_run _ _ _ _ _ E3).
  destruct Hr as [[-> (G3 & Hf3)]|(-> & G3 & Hf3 & Hp3 & _)]; cbn [Z.ltb Z.compare].
  - unfold PGSIZE. rewrite wrap_small by (unfold USERTOP in *; lia). replace (m * 4096 + 4096) with ((m + 1) * 4096) by lia.
    apply (IH (m + 1) h4 G3); [done|lia| |lia].
    unfold npages, PGSIZE in *. pose proof (Z.div_mod (sz - 0 + 4096 - 1) 4096 ltac:(done)).
    pose proof (Z.mod_pos_bound (sz - 0 + 4096 - 1) 4096 ltac:(done)). lia.
  - destruct (filled_give _ _ h1 G1 d _ _ _ space_dir m p h4 G3 Hf3 Hp3 Hp00) as (h5 & E5 & Hf5).
    rewrite (bind_run _ _ _ _ _ E5). destruct (copy_undo m h5 _ Hf5 Hm ltac:(lia)) as (h' & G' & E & Hu).
    rewrite (bind_run _ _ _ _ _ E). exists 0, h', G'. split; [done|]. by right.
Qed.
End copy.

Lemma copyuvm_ok h G kp pgdir sz :
  tables h G → G !! pgdir = Some RDir → frames h G pgdir → owned G → 0 ≤ sz ≤ USERTOP →
  (∀ x, 0 ≤ x < sz → present h pgdir x) → enough 3 G →
  ∃ r d p4 p3 h1 G1 h' G', copyuvm kernel_end available_memory kp pgdir sz h = Ok (r, h') ∧
    fresh_space kp d p4 p3 G h1 G1 ∧ same_ptes G h h1 ∧ keeps_pages G h h1 ∧
    ((r = d ∧ d ≠ 0 ∧ filled h1 G1 d 0 (parent_flags h pgdir) (parent_words h pgdir) (npages 0 sz) 0 h' G') ∨
     (r = 0 ∧ undone h G p4 p3 h' G')).
Proof.
  intros Htb Hd Hfr Hown Hsz Hpr He.
  destruct (setupkvm_ok h G kp Htb He) as (d & p4 & p3 & h1 & G1 & E & Hfs & Ef & Hp1 & Hk1).
  assert (d ≠ 0) as Hd0.
  { intros ->. destruct (page_bounds _ _ h G Htb 0 RFree) as [? _].
    - by destruct (fs_free _ _ _ _ _ _ _ Hfs) as (_ & _ & ?).
    - unfold KERNBASE, PHYSLIMIT in *. lia. }
  unfold copyuvm. rewrite (bind_run _ _ _ _ _ E), (proj2 (Z.eqb_neq _ _)) by done.
  destruct (copy_loop_ok h G pgdir sz Htb Hd Hfr Hown Hsz Hpr kp d p4 p3 h1 G1 Hfs Hp1 Hk1 (npages 0 sz) 0 h1 G1)
    as (r & h' & G' & E' & Hr).
  - by eapply copy_start.
  - done.
  - lia.
  - pose proof (npages_fuel 0 sz). lia.
  - exists r, d, p4, p3, h1, G1, h', G'. split_and!; try done. destruct Hr as [[-> Hf]|[-> Hu]]; [left|right]; done.
Qed.
End space.
End VmSpace.
