(* ===== verification/VmCopy.v ===== *)
(** * Writing into user memory

    The bytes of an address space, and [copyout]. *)

From S2P Require Import Prelude Heap HeapAlloc Kalloc Vm VmTable VmMap VmUser VmSpace.

Module VmCopy.
Import Heap HeapAlloc Kalloc Vm VmTable VmMap VmUser VmSpace.

(** ** Bytes of words *)

Definition get_byte (v i : Z) : Z := Z.land (Z.shiftr v (8 * i)) 255.

Lemma testbit_byte v i n : 0 ≤ i → 0 ≤ n → Z.testbit (get_byte v i) n = (n <? 8) && Z.testbit v (n + 8 * i).
Proof.
  intros Hi Hn. unfold get_byte. rewrite Z.land_spec, Z.shiftr_spec by done. change 255 with (Z.ones 8).
  destruct (Z.ltb_spec n 8); [by rewrite Z.ones_spec_low, andb_true_r by lia|by rewrite Z.ones_spec_high, andb_false_r by lia].
Qed.

Lemma testbit_u8 b n : 0 ≤ n → Z.testbit (u8 b) n = (n <? 8) && Z.testbit b n.
Proof.
  intros Hn. unfold wrap. destruct (Z.ltb_spec n 8); [by rewrite Z.mod_pow2_bits_low|by rewrite Z.mod_pow2_bits_high by lia].
Qed.

Lemma testbit_mask i n : 0 ≤ i → 0 ≤ n → Z.testbit (Z.shiftl 255 (8 * i)) n = (8 * i <=? n) && (n <? 8 * i + 8).
Proof.
  intros Hi Hn. rewrite Z.shiftl_spec by done. change 255 with (Z.ones 8). rewrite Z.testbit_ones by lia.
  destruct (Z.leb_spec 0 (n - 8 * i)), (Z.ltb_spec (n - 8 * i) 8), (Z.leb_spec (8 * i) n), (Z.ltb_spec n (8 * i + 8)); (done || lia).
Qed.

Lemma get_set_byte v i j b : 0 ≤ i → 0 ≤ j → get_byte (set_byte v i b) j = if decide (j = i) then u8 b else get_byte v j.
Proof.
  intros Hi Hj. apply Z.bits_inj'. intros n Hn. rewrite testbit_byte by done.
  unfold set_byte. rewrite Z.lor_spec, Z.ldiff_spec, testbit_mask, Z.shiftl_spec by lia. case_decide as E.
  - subst j. replace (n + 8 * i - 8 * i) with n by lia. rewrite !testbit_u8 by done.
    destruct (Z.ltb_spec n 8); [|done].
    rewrite (proj2 (Z.leb_le _ _)), (proj2 (Z.ltb_lt _ _)) by lia. cbn. by rewrite andb_false_r.
  - rewrite testbit_byte by done. destruct (Z.ltb_spec n 8); [|done]. cbn.
    assert ((8 * i <=? n + 8 * j) && (n + 8 * j <? 8 * i + 8) = false) as ->.
    { destruct (Z.leb_spec (8 * i) (n + 8 * j)), (Z.ltb_spec (n + 8 * j) (8 * i + 8)); try done. lia. }
    rewrite andb_true_r. destruct (decide (n + 8 * j < 8 * i)).
    + rewrite (Z.testbit_neg_r (u8 b)) by lia. apply orb_false_r.
    + rewrite testbit_u8, (proj2 (Z.ltb_ge _ 8)) by lia. cbn. apply orb_false_r.
Qed.

(** The byte at offset [o] of the page [f]. *)
Definition page_byte (w : gmap Z Z) (f o : Z) : Z :=
  match cell w f (o / 8) with Some v => get_byte v (o mod 8) | None => 0 end.

Lemma store_byte_ok (h : kheap) f o b :
  f mod 4096 = 0 → 0 ≤ o < 4096 → page_mapped (words h) f →
  wp (store_byte (f + o) b) (λ _ h', ext h' = ext h ∧ freep h' = freep h ∧ only_page f (words h) (words h') ∧
    ∀ o', 0 ≤ o' < 4096 → page_byte (words h') f o' = if decide (o' = o) then u8 b else page_byte (words h) f o') h.
Proof.
  intros Hf Ho Hm. unfold store_byte.
  assert (∀ x, 0 ≤ x < 4096 → 0 ≤ x / 8 < 512) as Hdiv by (intros x Hx; split; [apply Z.div_pos; lia|apply Z.div_lt_upper_bound; lia]).
  assert ((f + o) mod 8 = o mod 8) as Em.
  { apply Z.mod_divide in Hf as [q ->]; [|done]. replace (q * 4096 + o) with (o + q * 512 * 8) by lia. apply Z_mod_plus_full. }
  assert (f + o - (f + o) mod 8 = f + 8 * (o / 8)) as Ea by (rewrite Em; pose proof (Z.div_mod o 8 ltac:(done)); lia).
  rewrite Ea, Em. destruct (Hm (o / 8) (Hdiv o Ho)) as [v Hv].
  apply wp_bind. eapply wp_load; [exact Hv|]. apply wp_store; [unfold cell in Hv; eauto|].
  split; [done|]. split; [done|]. split; [apply only_page_insert; by apply Hdiv|].
  intros o' Ho'. unfold page_byte. cbn [words set_words]. rewrite cell_insert by (done || by apply Hdiv).
  pose proof (Z.mod_pos_bound o 8 ltac:(done)). pose proof (Z.mod_pos_bound o' 8 ltac:(done)).
  pose proof (Z.div_mod o 8 ltac:(done)). pose proof (Z.div_mod o' 8 ltac:(done)).
  destruct (decide (f = f ∧ o' / 8 = o / 8)) as [[_ E]|Hne].
  - rewrite get_set_byte by lia. rewrite E, Hv. apply decide_ext. split; [lia|by intros ->].
  - rewrite decide_False; [done|]. intros ->. by apply Hne.
Qed.

Lemma user_bytes_stored l (h : kheap) f o :
  f mod 4096 = 0 → 0 ≤ o → o + length l ≤ 4096 → page_mapped (words h) f → Forall (λ b, 0 ≤ b < 256) l →
  wp (store_bytes (f + o) l) (λ _ h', ext h' = ext h ∧ freep h' = freep h ∧ only_page f (words h) (words h') ∧
    ∀ o', 0 ≤ o' < 4096 → page_byte (words h') f o' =
      if decide (o ≤ o' < o + length l) then default 0 (l !! Z.to_nat (o' - o)) else page_byte (words h) f o') h.
Proof.
  intros Hf. revert h o. induction l as [|b l IH]; intros h o Ho Hl Hm Hb; cbn [store_bytes length] in *.
  { apply wp_ret. split_and!; [done|done|apply only_page_refl|]. intros o' Ho'. by rewrite decide_False by lia. }
  apply Forall_cons in Hb as [Hb Hbs].
  apply wp_bind. eapply wp_mono; [apply store_byte_ok; (done || lia)|].
  intros [] h1 (E1 & E2 & O1 & B1). replace (f + o + 1) with (f + (o + 1)) by lia.
  eapply wp_mono; [apply IH; [lia|lia|eapply page_mapped_mono; [apply O1|done]|done]|].
  intros [] h2 (E3 & E4 & O2 & B2). split_and!; [congruence|congruence|by eapply only_page_trans|].
  intros o' Ho'. rewrite B2, B1 by done. destruct (decide (o + 1 ≤ o' < o + 1 + length l)).
  - rewrite decide_True by lia. by replace (Z.to_nat (o' - o)) with (S (Z.to_nat (o' - (o + 1)))) by lia.
  - destruct (decide (o' = o)) as [->|].
    + rewrite decide_True by lia. rewrite Z.sub_diag. cbn. apply wrap_small. exact Hb.
    + by rewrite decide_False by lia.
Qed.

Section copy.
Context (kernel_end available_memory : Z).

Abbreviation tables := (tables kernel_end available_memory).
Abbreviation present h d x := (has (pte h d x) PTE_P = true).

Implicit Types (h : kheap) (G : gmap Z role).

(** ** The user's view of memory *)

(** User code may access the page of [x]. *)
Definition user_ok h (d x : Z) : bool := has (pte h d x) PTE_P && has (pte h d x) PTE_U.

(** The byte user code finds at [x]. *)
Definition user_byte h (d x : Z) : Z := page_byte (words h) (frame_of h d x) (x mod 4096).

Lemma uva2ka_run h G d x :
  tables h G → G !! d = Some RDir → 0 ≤ x < UTOP →
  uva2ka d x h = Ok (if user_ok h d x then frame_of h d x else 0, h).
Proof.
  intros Htb Hd Hx. unfold uva2ka, user_ok. rewrite (bind_run _ _ _ _ _ (walk_run _ _ h G Htb d x Hd Hx)).
  unfold frame_of, pte. destruct (pte_loc h d x) as [t|] eqn:Hl; [|by rewrite Z.eqb_refl].
  assert (G !! t = Some (RTable d (PDX x))) as Ht by (by apply (pte_loc_Some _ _ h G Htb)).
  rewrite (proj2 (Z.eqb_neq _ _)) by (by eapply entry_nonnull).
  destruct (page_cell _ _ h G Htb t _ (PTX x) Ht (ptx_range x)) as [e He]. rewrite He. cbn.
  rewrite (bind_run _ _ _ _ _ (load_run _ _ _ He)). by destruct (has e PTE_P), (has e PTE_U).
Qed.

(** A page that [allocuvm] mapped. *)
Lemma filled_zero h0 G0 d a0 m q h G x :
  filled kernel_end available_memory h0 G0 d a0 user_flags zeroes m q h G → in_run a0 m x →
  present h d x ∧ user_ok h d x = true ∧ user_byte h d x = 0 ∧ G0 !! frame_of h d x = Some RFree.
Proof.
  intros Hf Hx. destruct (fi_run _ _ _ _ _ _ _ _ _ _ _ _ Hf x Hx) as (f & Hf0 & Hf1 & He & Hc).
  destruct (tb_page _ _ _ _ (fi_tables _ _ _ _ _ _ _ _ _ _ _ _ Hf) _ _ Hf1) as (Hkf & _).
  destruct (entry_page _ _ f 7 PTE_P Hkf ltac:(done) ltac:(done)) as (E1 & E2 & _).
  destruct (entry_page _ _ f 7 PTE_U Hkf ltac:(done) ltac:(done)) as (_ & E3 & _).
  unfold user_ok, user_byte, frame_of, page_byte. rewrite He. unfold user_flags. rewrite E1, E2, E3.
  split; [done|]. split; [done|]. split; [|done]. rewrite Hc; [cbn; unfold get_byte; by rewrite Z.shiftr_0_l|].
  pose proof (Z.mod_pos_bound x 4096 ltac:(done)). split; [apply Z.div_pos; lia|apply Z.div_lt_upper_bound; lia].
Qed.

(** [n] bytes of [buf] have been written at [va]. *)
Record written G h h' (d va : Z) (buf : list Z) (n : nat) : Prop := {
  wr_tables : tables h' G;
  wr_ptes : same_ptes G h h';
  wr_freep : freep h' = freep h;
  wr_bytes x : 0 ≤ x < UTOP → present h d x →
    user_byte h' d x = if decide (va ≤ x < va + n) then default 0 (buf !! Z.to_nat (x - va)) else user_byte h d x;
  wr_pages p r : G !! p = Some r → (∀ n, r ≠ RFrame d n) → page_same (words h) (words h') p;
}.

(** Part of a page. *)
Lemma written_page h G d va l :
  tables h G → G !! d = Some RDir → frames h G d → 0 ≤ va < UTOP → present h d va →
  Forall (λ b, 0 ≤ b < 256) l → va mod 4096 + length l ≤ 4096 →
  ∃ h', store_bytes (frame_of h d va + va mod 4096) l h = Ok (tt, h') ∧ written G h h' d va l (length l).
Proof.
  intros Htb Hd Hfr Hva Hpr Hl Hlen. pose proof (fr_own _ _ _ Hfr va Hva Hpr) as Hf.
  destruct (tb_page _ _ _ _ Htb _ _ Hf) as (_ & _ & Hm). pose proof (page_aligned _ _ h G Htb _ _ Hf) as Hal.
  pose proof (Z.mod_pos_bound va 4096 ltac:(done)) as Hmod.
  destruct (proj1 (wp_run _ _ _) (user_bytes_stored l h _ (va mod 4096) Hal ltac:(lia) Hlen Hm Hl))
    as ([] & h' & E & Ee & Ef & Ho & Hb).
  exists h'. split; [done|].
  destruct (plain_change _ _ h h' G _ _ Htb Hf ltac:(by left) Ho) as [Hp Hs].
  split; [|done|done|..].
  - eapply (tables_change _ _ h h' G); [done|exact Hf|done..].
  - intros x Hx Hprx. unfold user_byte, frame_of. rewrite (Hp d x) by done.
    pose proof (fr_own _ _ _ Hfr x Hx Hprx) as Hfx. unfold frame_of in *.
    pose proof (Z.div_mod va 4096 ltac:(done)). pose proof (Z.div_mod x 4096 ltac:(done)).
    pose proof (Z.mod_pos_bound x 4096 ltac:(done)).
    destruct (decide (x / 4096 = va / 4096)) as [E'|Hne].
    + rewrite (pte_page h d x va E'). rewrite Hb by done. destruct (decide (va ≤ x < va + length l)).
      * rewrite decide_True by lia. do 2 f_equal. lia.
      * by rewrite decide_False by lia.
    + rewrite decide_False by lia. unfold page_byte. rewrite (Hs _ _ Hfx); [done| |].
      * intros Efr. rewrite Efr, Hf in Hfx. injection Hfx as Hfx. by apply Hne.
      * split; [apply Z.div_pos; lia|apply Z.div_lt_upper_bound; lia].
  - intros p r Hp' Hr. apply (Hs p r Hp'). intros ->. rewrite Hf in Hp'. injection Hp' as <-. by eapply Hr.
Qed.

Lemma written_nil h G d va buf : tables h G → written G h h d va buf 0.
Proof. intros Htb. split; [done|by intros ????|done| |done]. intros x Hx _. by rewrite decide_False by lia. Qed.

Lemma written_trans h1 h2 h3 G d va l1 l2 n :
  G !! d = Some RDir → written G h1 h2 d va l1 (length l1) → written G h2 h3 d (va + length l1) l2 n →
  written G h1 h3 d va (l1 ++ l2) (length l1 + n).
Proof.
  intros Hd [A1 A2 A3 A4 A5] [B1 B2 B3 B4 B5]. split; [done| |congruence|..].
  - intros d' x Hd' Hx. by rewrite B2, A2.
  - intros x Hx Hpr. rewrite B4; [|done|by rewrite (A2 d x)]. rewrite A4 by done.
    destruct (decide (va + length l1 ≤ x < va + length l1 + n)).
    + rewrite decide_True by lia. rewrite lookup_app_r by lia. do 2 f_equal. lia.
    + destruct (decide (va ≤ x < va + length l1)).
      * rewrite decide_True by lia. by rewrite lookup_app_l by lia.
      * by rewrite decide_False by lia.
  - intros p r Hp Hr. eapply page_same_trans; [by eapply A5|by eapply B5].
Qed.

Lemma copyout_loop_ok fuel h G d va buf :
  tables h G → G !! d = Some RDir → frames h G d → Forall (λ b, 0 ≤ b < 256) buf →
  0 ≤ va → va + length buf ≤ UTOP → (length buf ≤ fuel)%nat →
  ∃ r h' n, copyout_loop fuel d va buf h = Ok (r, h') ∧ (n ≤ length buf)%nat ∧ written G h h' d va buf n ∧
    ((r = 0 ∧ n = length buf) ∨ (r = - EFAULT ∧ (n < length buf)%nat ∧ user_ok h d (va + n) = false)) ∧
    (∀ x, va ≤ x < va + n → user_ok h d x = true).
Proof.
  revert h va buf. induction fuel as [|fuel IH]; intros h va buf Htb Hd Hfr Hb Hva Htop Hfuel; cbn [copyout_loop].
  { destruct buf; [|cbn in Hfuel; lia]. exists 0, h, 0%nat. split_and!; [done|done|by apply written_nil|by left|lia]. }
  destruct (Nat.eqb_spec (length buf) 0) as [E0|Hlen].
  { exists 0, h, 0%nat. split_and!; [done|lia|by apply written_nil|left; lia|lia]. }
  unfold UTOP in *. pose proof (Z.div_mod va 4096 ltac:(done)). pose proof (Z.mod_pos_bound va 4096 ltac:(done)) as Hmod.
  rewrite rounddown_eq by lia. rewrite (wrap_small 32) by lia. set (va0 := va / 4096 * 4096) in *.
  assert (va - va0 = va mod 4096) as Eoff by (unfold va0; lia).
  assert (0 ≤ va0) by (unfold va0; assert (0 ≤ va / 4096) by (apply Z.div_pos; lia); lia).
  rewrite (bind_run _ _ _ _ _ (uva2ka_run h G d va0 Htb Hd ltac:(unfold UTOP; lia))).
  assert (pte h d va0 = pte h d va) as Ep by (apply pte_page; unfold va0; apply page_start).
  unfold user_ok, frame_of. rewrite Ep. fold (user_ok h d va). fold (frame_of h d va).
  destruct (user_ok h d va) eqn:Hok.
  2: { rewrite Z.eqb_refl. exists (- EFAULT), h, 0%nat. split_and!; [done|lia|by apply written_nil| |lia].
       right. split_and!; [done|lia|]. by rewrite Z.add_0_r. }
  assert (∀ x, va ≤ x < va0 + 4096 → user_ok h d x = true) as Huser.
  { intros x Hx. unfold user_ok. rewrite (pte_page h d x va); [exact Hok|]. unfold va0 in *. symmetry.
    apply (Z.div_unique _ _ _ (x - va / 4096 * 4096)); lia. }
  apply andb_prop in Hok as [Hpr Hu].
  pose proof (fr_own _ _ _ Hfr va ltac:(unfold UTOP; lia) Hpr) as Hf. destruct (page_bounds _ _ h G Htb _ _ Hf) as [Hk Hk'].
  rewrite (proj2 (Z.eqb_neq _ _)) by (unfold KERNBASE, PHYSLIMIT in *; lia). rewrite Eoff. unfold PGSIZE.
  rewrite (wrap_small 64 (4096 - va mod 4096)) by lia.
  rewrite (wrap_small 64 (frame_of h d va + va mod 4096)) by (unfold KERNBASE, PHYSLIMIT in *; lia).
  set (n := if length buf <? 4096 - va mod 4096 then Z.of_nat (length buf) else 4096 - va mod 4096).
  assert (0 < n ≤ 4096 - va mod 4096 ∧ n ≤ length buf) as Hn by (unfold n; destruct (Z.ltb_spec (length buf) (4096 - va mod 4096)); lia).
  assert (length (take (Z.to_nat n) buf) = Z.to_nat n) as Etk by (rewrite length_take; lia).
  destruct (written_page h G d va (take (Z.to_nat n) buf)) as (h1 & E1 & Hw); try done.
  { unfold UTOP; lia. } { by apply Forall_take. } { lia. }
  rewrite (bind_run _ _ _ _ _ E1). rewrite Etk in Hw. rewrite (wrap_small 64) by lia.
  assert (frames h1 G d) as Hfr1 by (by eapply (same_ptes_frames h h1 G G); [..|apply Hw|]).
  destruct (decide (Z.to_nat n = length buf)) as [Eall|Hmore].
  { destruct (IH h1 (va0 + 4096) (drop (Z.to_nat n) buf)) as (r & h2 & m & E2 & Hm & Hw2 & Hr & Hu2); try done.
    { apply Hw. } { by apply Forall_drop. } { lia. } { rewrite length_drop. unfold va0, UTOP. lia. } { rewrite length_drop. lia. }
    rewrite length_drop in *. assert (m = 0%nat) as -> by lia. exists r, h2, (length buf). split_and!; [done|done| | |intros x Hx; apply Huser; lia].
    - pose proof (written_trans h h1 h2 G d va (take (Z.to_nat n) buf) [] 0 Hd) as H3.
      rewrite Etk, app_nil_r, Nat.add_0_r in H3.
      replace buf with (take (Z.to_nat n) buf) by (apply take_ge; lia). rewrite Etk. apply H3; [done|].
      destruct Hw2 as [B1 B2 B3 B4 B5]. split; try done. intros x Hx Hprx. rewrite B4 by done.
      by rewrite !decide_False by lia.
    - destruct Hr as [[-> _]|(_ & ? & _)]; [by left|lia]. }
  assert (n = 4096 - va mod 4096) as En by (unfold n in *; destruct (Z.ltb_spec (length buf) (4096 - va mod 4096)); lia).
  destruct (IH h1 (va0 + 4096) (drop (Z.to_nat n) buf)) as (r & h2 & m & E2 & Hm & Hw2 & Hr & Hu2); try done.
  { apply Hw. } { by apply Forall_drop. } { lia. } { rewrite length_drop. unfold UTOP. lia. } { rewrite length_drop. lia. }
  exists r, h2, (Z.to_nat n + m)%nat. rewrite length_drop in *. split_and!; [done|lia| | |].
  - pose proof (written_trans h h1 h2 G d va (take (Z.to_nat n) buf) (drop (Z.to_nat n) buf) m Hd) as H3.
    rewrite Etk, take_drop in H3. apply H3; [done|]. by replace (va + Z.to_nat n) with (va0 + 4096) by lia.
  - destruct Hr as [[-> ?]|(-> & ? & Hno)]; [left; lia|right]. split_and!; [done|lia|].
    replace (va + (Z.to_nat n + m)%nat) with (va0 + 4096 + m) by lia.
    destruct Hw as [_ Hpt _ _ _]. unfold user_ok in *. by rewrite <- (Hpt d (va0 + 4096 + m)) by (done || unfold UTOP; lia).
  - intros x Hx. destruct (decide (x < va0 + 4096)); [apply Huser; lia|].
    destruct Hw as [_ Hpt _ _ _]. specialize (Hu2 x ltac:(lia)). unfold user_ok in *.
    by rewrite <- (Hpt d x) by (done || unfold UTOP; lia).
Qed.
End copy.
End VmCopy.
