(* ===== verification/VmThm.v ===== *)
(** * Address spaces: properties

    The walk the processor does from [cr3], and the theorems about
    [mappages], [allocuvm], [deallocuvm], [copyuvm], [freevm], [copyout] and
    [kvmalloc]. *)

From S2P Require Import Prelude Heap HeapAlloc Kalloc Vm VmTable VmMap VmUser VmSpace VmCopy.

Module VmThm.
Import Heap HeapAlloc Kalloc Vm VmTable VmMap VmUser VmSpace VmCopy.

(** ** The processor's translation

    Four levels of tables; an entry of the third with [PTE_PS] maps 2 MiB.
    The result is the physical address and whether the page may be written and
    accessed by user code, which all entries on the way must allow.  Physical
    memory is seen through the kernel's linear map. *)
Definition next_level (w : gmap Z Z) (t i : Z) : option Z :=
  e ← cell w (p2v t) i; if has e PTE_P then Some e else None.

(** What the entries of a walk allow: writing, and access from user mode. *)
Definition rights (es : list Z) : bool * bool :=
  (forallb (λ e, has e PTE_W) es, forallb (λ e, has e PTE_U) es).

Definition mmu (w : gmap Z Z) (cr3 va : Z) : option (Z * (bool * bool)) :=
  e4 ← next_level w cr3 (PML4X va);
  e3 ← next_level w (PTE_ADDR e4) (PDPTX va);
  e2 ← next_level w (PTE_ADDR e3) (PDX va);
  if has e2 PTE_PS then Some (e2 / 2 ^ 21 * 2 ^ 21 + va mod 2 ^ 21, rights [e4; e3; e2])
  else e1 ← next_level w (PTE_ADDR e2) (PTX va); Some (PTE_ADDR e1 + va mod 4096, rights [e4; e3; e2; e1]).

Section thm.
Context (kernel_end available_memory : Z).

Abbreviation kpage := (page_ok kernel_end available_memory).
Abbreviation tables := (tables kernel_end available_memory).
Abbreviation present h d x := (has (pte h d x) PTE_P = true).

Implicit Types (h : kheap) (G : gmap Z role).

(** The levels above the directory [d], as [setupkvm] leaves them. *)
Record space h (d p4 p3 : Z) : Prop := {
  sp_kpages : kpage d ∧ kpage p4 ∧ kpage p3;
  sp_pml4 : cell (words h) p4 0 = Some (dir_entry p3);
  sp_pdpt : cell (words h) p3 0 = Some (dir_entry d);
}.

Lemma user_indices va : 0 ≤ va < UTOP → PML4X va = 0 ∧ PDPTX va = 0.
Proof.
  unfold UTOP. intros Hva. unfold PML4X, PDPTX. rewrite !index_eq by done.
  unfold PML4XSHIFT, PDPTXSHIFT. by rewrite !(Z.div_small va) by lia.
Qed.

Lemma next_entry h t t' i :
  kpage t → cell (words h) t' i = Some (dir_entry t) → p2v (v2p t') = t' →
  next_level (words h) (v2p t') i = Some (dir_entry t) ∧ PTE_ADDR (dir_entry t) = v2p t.
Proof.
  intros Ht Hc Hv. unfold next_level. rewrite Hv, Hc. cbn.
  destruct (dir_entry_ok _ _ t Ht) as [_ Hp]. rewrite Hp. split; [done|].
  unfold dir_entry. rewrite <- !Z.lor_assoc. change (Z.lor PTE_P (Z.lor PTE_W PTE_U)) with 7.
  by destruct (entry_page _ _ t 7 PTE_P Ht) as (_ & _ & ->).
Qed.

(** The upper entries allow everything. *)
Lemma dir_entry_rights t : kpage t → has (dir_entry t) PTE_W = true ∧ has (dir_entry t) PTE_U = true.
Proof.
  intros Ht. unfold dir_entry. rewrite <- !Z.lor_assoc. change (Z.lor PTE_P (Z.lor PTE_W PTE_U)) with 7.
  destruct (entry_page _ _ t 7 PTE_W Ht) as (_ & -> & _); [done..|].
  by destruct (entry_page _ _ t 7 PTE_U Ht) as (_ & -> & _).
Qed.

(** The processor finds what [pte] says. *)
Lemma mmu_pte h G d p4 p3 va :
  tables h G → G !! d = Some RDir → space h d p4 p3 → 0 ≤ va < UTOP →
  mmu (words h) (v2p p4) va =
    if has (pte h d va) PTE_P
    then Some (PTE_ADDR (pte h d va) + va mod 4096, (has (pte h d va) PTE_W, has (pte h d va) PTE_U)) else None.
Proof.
  intros Htb Hd [(K1 & K2 & K3) H4 H3] Hva. destruct (user_indices va Hva) as [E4 E3].
  unfold mmu. rewrite E4, E3.
  assert (∀ p, kpage p → p2v (v2p p) = p) as Hv by (intros p Hp; by destruct (v2p_page _ _ p Hp) as (_ & _ & _ & ?)).
  destruct (next_entry h p3 p4 0 K3 H4 (Hv p4 K2)) as [N4 A4]. rewrite N4. cbn. rewrite A4.
  destruct (next_entry h d p3 0 K1 H3 (Hv p3 K3)) as [N3 A3]. rewrite N3. cbn. rewrite A3.
  unfold pte. destruct (pte_loc h d va) as [t|] eqn:Hl.
  - assert (G !! t = Some (RTable d (PDX va))) as Ht by (by apply (pte_loc_Some _ _ h G Htb)).
    destruct (tb_page _ _ _ _ Htb _ _ Ht) as (Kt & _).
    destruct (tb_table _ _ _ _ Htb _ _ _ Ht) as (_ & _ & e2 & He2 & _ & _ & ->).
    destruct (next_entry h t d (PDX va) Kt He2 (Hv d K1)) as [N2 A2]. rewrite N2. cbn.
    assert (has (dir_entry t) PTE_PS = false) as ->.
    { unfold dir_entry. rewrite <- !Z.lor_assoc. change (Z.lor PTE_P (Z.lor PTE_W PTE_U)) with 7.
      destruct (entry_page _ _ t 7 PTE_PS Kt) as (_ & -> & _); done. }
    rewrite A2. unfold next_level. rewrite (Hv t Kt).
    destruct (page_cell _ _ h G Htb t _ (PTX va) Ht (ptx_range va)) as [e He]. rewrite He. cbn.
    destruct (has e PTE_P); [|done]. cbn. unfold rights. cbn [forallb].
    destruct (dir_entry_rights p3 K3) as [-> ->], (dir_entry_rights d K1) as [-> ->], (dir_entry_rights t Kt) as [-> ->].
    cbn. by rewrite !andb_true_r.
  - unfold next_level. rewrite (Hv d K1). unfold pte_loc in Hl.
    destruct (cell (words h) d (PDX va)) as [e|]; [|done]. cbn. by destruct (has e PTE_P).
Qed.

Lemma space_kept h h' G d p4 p3 :
  space h d p4 p3 → G !! p4 = Some ROther → G !! p3 = Some ROther → keeps_pages G h h' → space h' d p4 p3.
Proof.
  intros [Hk H4 H3] R4 R3 Hkp. split; [done|..].
  - by rewrite (Hkp p4 _ R4) by done.
  - by rewrite (Hkp p3 _ R3) by done.
Qed.

(** Where the entry for page [x] of a run at [a] points. *)
Lemma run_target a pa perm x :
  a mod 4096 = 0 → pa mod 4096 = 0 → 0 ≤ perm < 4096 → a ≤ x → 0 ≤ pa → pa + (x - a) < 2 ^ 64 →
  let e := Z.lor (pa + (x / 4096 * 4096 - a)) (Z.lor perm PTE_P) in
  has e PTE_P = true ∧ PTE_ADDR e + x mod 4096 = pa + (x - a) ∧
  has e PTE_W = has perm PTE_W ∧ has e PTE_U = has perm PTE_U.
Proof.
  intros Ha Hpa Hperm Hx Hpa0 Hlim e. pose proof (Z.div_mod x 4096 ltac:(done)). pose proof (Z.mod_pos_bound x 4096 ltac:(done)).
  assert (0 ≤ x / 4096 * 4096 - a) by (apply Z.mod_divide in Ha as [k ->]; [|done]; lia).
  assert ((pa + (x / 4096 * 4096 - a)) mod 4096 = 0) as Hm.
  { apply Z.mod_divide in Ha as [k ->]; [|done]. apply Z.mod_divide in Hpa as [l ->]; [|done].
    replace (l * 4096 + (x / 4096 * 4096 - k * 4096)) with ((l + x / 4096 - k) * 4096) by lia. apply Z_mod_mult. }
  assert (0 ≤ Z.lor perm PTE_P < 4096) as Hp by (by apply lor_range).
  split_and!.
  - unfold e. rewrite entry_has by done. unfold has. rewrite Z.land_lor_distr_l. apply negb_true_iff, Z.eqb_neq. intros E.
    apply (f_equal (λ z, Z.testbit z 0)) in E. rewrite Z.lor_spec in E. cbn in E. by rewrite orb_true_r in E.
  - unfold e. rewrite entry_addr; [lia|lia|done|done].
  - unfold e. rewrite entry_has by done. unfold has. by rewrite Z.land_lor_distr_l, Z.lor_0_r.
  - unfold e. rewrite entry_has by done. unfold has. by rewrite Z.land_lor_distr_l, Z.lor_0_r.
Qed.

(** C15. [mappages] refines the update of a map from virtual to physical
    addresses.  On an address space whose pages are not yet mapped in the
    range, it returns and, when it returns 0, the processor translates every
    address of the pages of the range to the physical address at the same
    distance from [pa], and lets code write it and user code access it exactly
    when [perm] has [PTE_W] and [PTE_U]; all other addresses of the space and all entries of the
    other address spaces stay as they were.  It returns -1 when it runs out of
    pages for tables, with only a first part of the range mapped. *)
Theorem mappages_translation h G d p4 p3 va size pa perm :
  tables h G → G !! d = Some RDir → space h d p4 p3 → G !! p4 = Some ROther → G !! p3 = Some ROther →
  0 ≤ va → 0 < size → va + size ≤ UTOP → 0 ≤ pa → pa + size + 4096 ≤ 2 ^ 64 → pa mod 4096 = 0 → 0 ≤ perm < 4096 →
  let a := va / 4096 * 4096 in
  let n := (va + size - 1) / 4096 - va / 4096 + 1 in
  (∀ x, a ≤ x < a + n * 4096 → has (pte h d x) PTE_P = false) →
  ∃ r h' G' m, mappages d va size pa perm h = Ok (r, h') ∧ tables h' G' ∧ grows d G G' ∧
    (∀ x, 0 ≤ x < UTOP → mmu (words h') (v2p p4) x =
      if decide (a ≤ x < a + m * 4096) then Some (pa + (x - a), (has perm PTE_W, has perm PTE_U))
      else mmu (words h) (v2p p4) x) ∧
    (∀ d' x, G !! d' = Some RDir → d' ≠ d → 0 ≤ x < UTOP → pte h' d' x = pte h d' x) ∧
    ((r = 0 ∧ m = n) ∨ (r = -1 ∧ 0 ≤ m < n ∧ ∀ q, G' !! q ≠ Some RFree)).
Proof.
  intros Htb Hd Hsp R4 R3 Hva Hs Htop Hpa Hpt Hpam Hperm a n Hnp.
  destruct (mappages_perm_ok kernel_end available_memory h G d va size pa (Z.lor perm PTE_P))
    as (r & h' & G' & m & E & Htb' & Hg & Hk & _ & Hrun & Hres); try done.
  exists r, h', G', m. split_and!; [done..| | |].
  - intros x Hx. rewrite (mmu_pte h' G' d p4 p3 x) by (done || by eapply grows_keep || by eapply space_kept).
    rewrite (mmu_pte h G d p4 p3 x) by done. rewrite (Hrun d x) by done. fold a. unfold in_run, PGSIZE.
    destruct (decide (a ≤ x < a + m * 4096)) as [Hx'|Hx'].
    + rewrite decide_True by done. pose proof (Z.div_mod va 4096 ltac:(done)). pose proof (Z.mod_pos_bound va 4096 ltac:(done)).
      pose proof (Z.div_mod (va + size - 1) 4096 ltac:(done)). pose proof (Z.mod_pos_bound (va + size - 1) 4096 ltac:(done)).
      destruct (run_target a pa perm x) as (-> & -> & -> & ->); try done; [apply Z_mod_mult|lia|].
      apply Z.mod_divide in Hpam as [l ->]; [|done]. unfold UTOP in *.
      destruct Hres as [[_ ?]|(_ & ? & _)]; unfold a in *; lia.
    + by rewrite decide_False by tauto.
  - intros d' x Hd' Hne Hx. rewrite (Hrun d' x) by done. by rewrite decide_False by tauto.
  - destruct Hres as [[-> ?]|(-> & ? & ?)]; [left|right]; unfold n; split_and!; (done || lia).
Qed.

(** A run that is empty: only tables may have been added. *)
Lemma filled_nothing h0 G0 d a0 fl c h G :
  G0 !! d = Some RDir → filled kernel_end available_memory h0 G0 d a0 fl c 0 0 h G →
  grows d G0 G ∧ same_ptes G0 h0 h ∧ keeps_pages G0 h0 h.
Proof.
  intros Hd [H1 H2 H3 H4 H5 H6 _]. split_and!; [|intros d' x Hd' Hx; apply H6; [done|done|unfold in_run; lia]|done].
  intros p. destruct (H3 p) as [?|[Hf [?|[(n & _ & Hn)|[Ho ->]]]]]; [by left|by right|unfold in_run in Hn; lia|].
  destruct (page_bounds _ _ h G H1 0 _ Ho). unfold KERNBASE, PHYSLIMIT in *. lia.
Qed.

(** C17. Growing and shrinking a process.  [allocuvm] from [oldsz] to [newsz],
    with nothing mapped in between, returns [newsz] and every byte from the
    first whole page on is a user byte that reads 0, in a page taken from the
    allocator; all other entries, of this and of every other address space, and
    the contents of all pages in use stay.  [deallocuvm] back to [oldsz] then
    restores every entry and gives every user page back.  When memory runs out
    [allocuvm] returns 0 and has undone what it did; page tables are all that
    can be left behind in either case. *)
Theorem allocuvm_deallocuvm h G d oldsz newsz :
  tables h G → G !! d = Some RDir → frames h G d → 0 ≤ oldsz < newsz → newsz ≤ UTOP →
  (∀ x, page_up oldsz ≤ x < newsz → pte h d x = 0) →
  ∃ r h' G', allocuvm kernel_end available_memory d oldsz newsz h = Ok (r, h') ∧
    tables h' G' ∧ frames h' G' d ∧ keeps_pages G h h' ∧
    ((r = newsz ∧
      (∀ x, page_up oldsz ≤ x < newsz →
        user_ok h' d x = true ∧ user_byte h' d x = 0 ∧ G !! frame_of h' d x = Some RFree) ∧
      (∀ d' x, G !! d' = Some RDir → 0 ≤ x < UTOP → ¬ (d' = d ∧ page_up oldsz ≤ x < page_up newsz) →
        pte h' d' x = pte h d' x) ∧
      ∃ h'' G'', deallocuvm kernel_end available_memory d newsz oldsz h' = Ok (oldsz, h'') ∧
        tables h'' G'' ∧ frames h'' G'' d ∧ grows d G G'' ∧ same_ptes G h h'' ∧ keeps_pages G h h'') ∨
     (r = 0 ∧ grows d G G' ∧ same_ptes G h h')).
Proof.
  intros Htb Hd Hfr Hsz Htop Hno. destruct (page_up_ok oldsz) as [Hal Hb].
  destruct (allocuvm_ok kernel_end available_memory h G d oldsz newsz Hd ltac:(lia) Htop Hno Htb Hfr)
    as (r & h' & G' & E & Hr).
  exists r, h', G'. assert (0 ≤ page_up oldsz ∧ page_up oldsz mod 4096 = 0) as Ha0 by (split; [lia|done]).
  destruct Hr as [[-> Hf]|[-> Hf]].
  - pose proof Hf as [H1 H2 H3 H4 H5 H6 H7]. split_and!; [done..|]. left.
    set (k := npages (page_up oldsz) newsz) in *.
    destruct (npages_bounds (page_up oldsz) newsz) as [Hk1 Hk2]. fold k in Hk1, Hk2. specialize (Hk2 ltac:(lia)).
    split; [done|]. split; [|split].
    + intros x Hx. apply (filled_zero _ _ _ _ _ _ _ _ _ _ x Hf). unfold in_run, PGSIZE. lia.
    + intros d' x Hd' Hx Hn. apply H6; [done|done|]. intros [-> Hr]. apply Hn. split; [done|].
      destruct (page_up_ok newsz) as [Hal' Hb']. apply Z.mod_divide in Hal as [u Hu]; [|done]. apply Z.mod_divide in Hal' as [v Hv]; [|done].
      unfold in_run, PGSIZE in Hr. lia.
    + destruct (filled_unmap kernel_end available_memory h G d (page_up oldsz) user_flags zeroes Hd ltac:(done) Ha0 k 0 h' G' oldsz newsz)
        as (h'' & G'' & E' & Hf' & _); try done; [lia|].
      exists h'', G''. destruct (filled_nothing _ _ _ _ _ _ _ _ Hd Hf') as (? & ? & ?).
      split_and!; try done; apply Hf'.
  - destruct (filled_nothing _ _ _ _ _ _ _ _ Hd Hf) as (? & ? & ?). split_and!; [done|apply Hf|apply Hf|done|]. by right.
Qed.

Lemma flags_entry f fl : kpage f → 0 ≤ fl < 4096 → PTE_FLAGS (Z.lor (V2P f) fl) = fl.
Proof.
  intros Hf Hfl. destruct (v2p_page _ _ f Hf) as (_ & Hv & Hm & _). unfold PTE_FLAGS, PHYSLIMIT in *.
  rewrite lor_flags by done. apply Z.mod_divide in Hm as [k Hk]; [|done]. rewrite Hk in *.
  rewrite sx_small by lia. change 0xFFF with (Z.ones 12). rewrite Z.land_ones by lia. change (2 ^ 12) with 4096.
  rewrite Z.add_comm, Z_mod_plus_full. apply Z.mod_small. lia.
Qed.

(** A present entry already has [PTE_P] among its flags. *)
Lemma flags_present e : has e PTE_P = true → Z.lor (PTE_FLAGS e) PTE_P = PTE_FLAGS e.
Proof.
  intros Hp. unfold has, PTE_P in Hp. apply negb_true_iff, Z.eqb_neq in Hp.
  assert (Z.testbit e 0 = true) as Hb.
  { destruct (Z.testbit e 0) eqn:E; [done|]. exfalso. apply Hp. change 1 with (Z.ones 1). rewrite Z.land_ones by lia.
    change (2 ^ 1) with 2. by rewrite <- Z.bit0_mod, E. }
  assert (Z.testbit (PTE_FLAGS e) 0 = true) as Hf.
  { unfold PTE_FLAGS. rewrite Z.land_spec. cbn [Z.testbit]. rewrite andb_true_r. unfold sx.
    assert (Z.testbit (e mod 2 ^ 32) 0 = true) as E by (by rewrite Z.mod_pow2_bits_low by lia).
    case_match; [done|]. rewrite <- E, !Z.bit0_odd, Z.odd_sub. by destruct (Z.odd (e mod 2 ^ 32)). }
  apply Z.bits_inj'. intros n Hn. rewrite Z.lor_spec. destruct (decide (n = 0)) as [->|]; [by rewrite Hf|].
  rewrite (Z.bits_above_log2 PTE_P n); [by rewrite orb_false_r|done|cbn; lia].
Qed.

(** C16. [fork]'s copy of an address space.  [copyuvm] of a process of [sz]
    bytes, all of whose pages are present, returns a new directory [d] in which
    every byte below [sz] has the same value and the same permissions as in
    the parent, but lives in a page that was free before; or it returns 0 and
    every page it took is free again, except for the two upper tables of the
    new space.  In both cases the parent and every other address space have
    the entries they had, and the contents of all pages in use are unchanged. *)
Theorem copyuvm_copies h G kp pgdir sz :
  tables h G → G !! pgdir = Some RDir → frames h G pgdir → owned G → 0 ≤ sz ≤ USERTOP →
  (∀ x, 0 ≤ x < sz → present h pgdir x) → enough 3 G →
  ∃ r h' G', copyuvm kernel_end available_memory kp pgdir sz h = Ok (r, h') ∧ tables h' G' ∧
    same_ptes G h h' ∧ keeps_pages G h h' ∧
    ((r ≠ 0 ∧ G !! r = Some RFree ∧ G' !! r = Some RDir ∧ frames h' G' r ∧
      ∀ x, 0 ≤ x < sz → present h' r x ∧ PTE_FLAGS (pte h' r x) = PTE_FLAGS (pte h pgdir x) ∧
        user_byte h' r x = user_byte h pgdir x ∧ G !! frame_of h' r x = Some RFree) ∨
     (r = 0 ∧ ∃ p4 p3, ∀ p, G' !! p = if decide (p = p4 ∨ p = p3) then Some ROther else G !! p)).
Proof.
  intros Htb Hd Hfr Hown Hsz Hpr He. assert (USERTOP < UTOP) by done.
  destruct (copyuvm_ok kernel_end available_memory h G kp pgdir sz Htb Hd Hfr Hown Hsz Hpr He)
    as (r & d & p4 & p3 & h1 & G1 & h' & G' & E & Hfs & Hp1 & Hk1 & Hr).
  exists r, h', G'. split; [done|]. destruct Hr as [(-> & Hd0 & Hf)|[-> (Htb' & HG' & Hp' & Hk')]].
  2: { split_and!; [done..|]. right. split; [done|]. by exists p4, p3. }
  pose proof Hf as [H1 H2 H3 H4 H5 H6 H7].
  assert (G !! d = Some RFree) as Hdf by by eapply dir_fresh.
  assert (∀ q s, G !! q = Some s → s ≠ RFree → G1 !! q = Some s) as HG1 by (intros; by eapply space_lookup).
  split_and!; [done|..|left; split_and!].
  - intros d' x Hd' Hx. rewrite H6, Hp1; try done; [by apply HG1|]. intros [-> _]. congruence.
  - intros p s Hp Hs. eapply page_same_trans; [by eapply Hk1|]. eapply (H4 p s); [|done]. apply HG1; [done|by intros ->].
  - done.
  - done.
  - eapply fi_keep; [done|by eapply space_dir|done].
  - done.
  - intros x Hx. destruct (npages_bounds 0 sz) as [Hn _].
    destruct (H7 x) as (f & Hf0 & Hf1 & Hpt & Hc); [unfold in_run, PGSIZE; lia|].
    destruct (tb_page _ _ _ _ H1 _ _ Hf1) as (Hkf & _).
    assert (pte h pgdir (x / 4096 * 4096) = pte h pgdir x) as Ex by apply pte_page, page_start.
    assert (parent_flags h pgdir (x / 4096) = PTE_FLAGS (pte h pgdir x)) as Efl.
    { unfold parent_flags. rewrite Ex. apply flags_present. by apply Hpr. }
    pose proof (pte_flags_range (pte h pgdir x)) as Hfl. rewrite Efl in Hpt.
    destruct (entry_page _ _ f _ PTE_P Hkf Hfl ltac:(done)) as (E1 & E2 & _).
    split_and!.
    + rewrite Hpt, E2, <- Efl. by apply copy_flags.
    + rewrite Hpt. by apply flags_entry.
    + unfold user_byte, frame_of, page_byte. rewrite Hpt, E1. rewrite Hc.
      * unfold parent_words, frame_of. by rewrite Ex.
      * pose proof (Z.mod_pos_bound x 4096 ltac:(done)). split; [apply Z.div_pos; lia|apply Z.div_lt_upper_bound; lia].
    + unfold frame_of. rewrite Hpt, E1. rewrite (fs_roles _ _ _ _ _ _ _ _ _ Hfs), !lookup_insert in Hf0.
      by repeat case_decide.
Qed.

(** C18. Tearing down an address space.  [freevm] returns.  The pages mapped
    below 0x1da00000, all page tables and the directory are free afterwards;
    the user pages mapped at or above that address are not freed, although
    [allocuvm] maps pages there.  The roles of all other pages, the entries of
    every other address space and the contents of all pages that are still in
    use are unchanged.  The two tables above the directory are not freed. *)
Theorem freevm_reclaims h G d :
  tables h G → G !! d = Some RDir → frames h G d →
  ∃ h' G', freevm kernel_end available_memory d h = Ok (tt, h') ∧ tables h' G' ∧
    (∀ p, G' !! p = match G !! p with
      | Some RDir => if decide (p = d) then Some RFree else Some RDir
      | Some (RTable d' i) => Some (if decide (d' = d) then RFree else RTable d' i)
      | Some (RFrame d' n) => Some (if decide (d' = d ∧ n * 4096 < 0x1da00000) then RFree else RFrame d' n)
      | o => o
      end) ∧
    (∀ d' x, G !! d' = Some RDir → d' ≠ d → 0 ≤ x < UTOP → pte h' d' x = pte h d' x) ∧
    keeps_pages G' h h'.
Proof.
  intros Htb Hd Hfr. destruct (freevm_run _ _ h G d Htb Hd Hfr) as (h' & E & Htb' & _ & Hp & Hk).
  exists h', (torn_down d G). split_and!; [done|done| |done|done]. intros p. unfold torn_down. rewrite lookup_insert.
  destruct (decide (d = p)) as [<-|Hne]; [rewrite Hd, decide_True by done; done|].
  destruct (G !! p) as [r|] eqn:Hp'.
  - erewrite (apart_lookup d 510 _ p _ ltac:(done)); [|unfold release; rewrite lookup_fmap, Hp'; reflexivity].
    destruct r as [| |d' i|d' n|]; cbn; rewrite ?decide_False by done; try done.
    + case_decide; [|done]. subst. destruct (tb_table _ _ _ _ Htb p d i Hp') as (_ & ? & _). by rewrite decide_True by lia.
    + destruct (decide (d' = d ∧ n * 4096 < 0x1da00000)) as [[-> Hn]|Hn].
      * rewrite decide_True; [done|]. split; [done|]. destruct (fr_entry _ _ _ Hfr p n Hp') as (? & _). unfold USERTOP. lia.
      * rewrite decide_False; [done|]. unfold USERTOP. intros [-> ?]. apply Hn. split; [done|lia].
  - unfold taken_apart. rewrite lookup_insert_ne, lookup_fmap by done. unfold release. by rewrite lookup_fmap, Hp'.
Qed.

(** C19. Copying to user memory.  [copyout] of [buf] to [va] returns; it writes
    the bytes up to the first page that user code may not access, and returns
    0 if there is none and [-EFAULT] otherwise: every byte it wrote is in a
    page that is present and user-accessible, and the byte it stopped at is
    not.  The user's view of all other
    bytes, all entries, and all pages that are not user pages of this address
    space stay. *)
Theorem copyout_correct h G d va buf :
  tables h G → G !! d = Some RDir → frames h G d → Forall (λ b, 0 ≤ b < 256) buf → 0 ≤ va → va + length buf ≤ UTOP →
  ∃ r h' (n : nat), copyout d va buf h = Ok (r, h') ∧ (n ≤ length buf)%nat ∧
    (∀ x, 0 ≤ x < UTOP → present h d x →
      user_byte h' d x = if decide (va ≤ x < va + n) then default 0 (buf !! Z.to_nat (x - va)) else user_byte h d x) ∧
    (∀ x, va ≤ x < va + n → present h d x ∧ has (pte h d x) PTE_U = true) ∧
    ((r = 0 ∧ n = length buf) ∨
     (r = - EFAULT ∧ (n < length buf)%nat ∧ ¬ (present h d (va + n) ∧ has (pte h d (va + n)) PTE_U = true))) ∧
    tables h' G ∧ same_ptes G h h' ∧ ∀ p r, G !! p = Some r → (∀ n, r ≠ RFrame d n) → page_same (words h) (words h') p.
Proof.
  intros Htb Hd Hfr Hb Hva Htop.
  destruct (copyout_loop_ok kernel_end available_memory (length buf) h G d va buf) as (r & h' & n & E & Hn & [H1 H2 H3 H4 H5] & Hr & Hu); try done.
  exists r, h', n. split_and!; [done..| | |done|done|done].
  - intros x Hx. apply andb_prop, Hu, Hx.
  - destruct Hr as [?|(? & ? & Hno)]; [by left|right]. split_and!; [done..|]. intros [Hp Hq]. unfold user_ok in Hno.
    by rewrite Hp, Hq in Hno.
Qed.

(** ** The kernel's linear map *)

Definition large_entry (j : Z) : Z := Z.lor (Z.lor (Z.lor (Z.shiftl j PDXSHIFT) PTE_PS) PTE_P) PTE_W.

Lemma large_entry_ok j :
  0 ≤ j → has (large_entry j) PTE_P = true ∧ has (large_entry j) PTE_PS = true ∧ large_entry j / 2 ^ 21 = j ∧
    has (large_entry j) PTE_W = true ∧ has (large_entry j) PTE_U = false.
Proof.
  intros Hj. unfold large_entry. rewrite <- !Z.lor_assoc. change (Z.lor PTE_PS (Z.lor PTE_P PTE_W)) with 0x83.
  rewrite Z.shiftl_mul_pow2 by done. unfold PDXSHIFT.
  assert ((j * 2 ^ 21) mod 4096 = 0) as Hm by (replace (j * 2 ^ 21) with (j * 512 * 4096) by lia; apply Z_mod_mult).
  split_and!; [by rewrite entry_has|by rewrite entry_has| |by rewrite entry_has|by rewrite entry_has].
  rewrite lor_flags by done. symmetry. apply (Z.div_unique _ _ j 0x83); lia.
Qed.

(** The entries of the framebuffer: 2 MiB pages from [fb] on. *)
Definition fb_entry (fb n : Z) : Z :=
  Z.lor (Z.lor (Z.lor (Z.lor (u64 (fb + Z.shiftl n PDXSHIFT)) PTE_PS) PTE_P) PTE_W) PTE_PWT.

Lemma fb_entry_ok fb j :
  fb mod 2 ^ 21 = 0 → 0 ≤ fb → fb + 2 ^ 25 ≤ 2 ^ 52 → 0 ≤ j < 16 →
  has (fb_entry fb j) PTE_P = true ∧ has (fb_entry fb j) PTE_PS = true ∧
    fb_entry fb j / 2 ^ 21 * 2 ^ 21 = fb + j * 2 ^ 21 ∧
    has (fb_entry fb j) PTE_W = true ∧ has (fb_entry fb j) PTE_U = false.
Proof.
  intros Hm Hfb Hlim Hj. unfold fb_entry. rewrite Z.shiftl_mul_pow2 by done. unfold PDXSHIFT. rewrite wrap_small by lia.
  rewrite <- !Z.lor_assoc. change (Z.lor PTE_PS (Z.lor PTE_P (Z.lor PTE_W PTE_PWT))) with 0x8b.
  apply Z.mod_divide in Hm as [k ->]; [|done].
  assert ((k * 2 ^ 21 + j * 2 ^ 21) mod 4096 = 0) as Hm
    by (replace (k * 2 ^ 21 + j * 2 ^ 21) with ((k + j) * 512 * 4096) by lia; apply Z_mod_mult).
  split_and!; [by rewrite entry_has|by rewrite entry_has| |by rewrite entry_has|by rewrite entry_has].
  rewrite lor_flags by done. rewrite <- (Z.div_unique _ _ (k + j) 0x8b); lia.
Qed.

(** Pages other than [p] and [q]. *)
Lemma map_linear_ok (k : nat) n h G ps v :
  tables h G → G !! kpgdir0 v = Some ROther → G !! kpgdir1 v = Some ROther → kpgdir0 v ∈ ps → kpgdir1 v ∈ ps →
  kpgdir0 v ≠ kpgdir1 v → 0 ≤ n → n + k ≤ 512 →
  ∃ h', map_linear k v n h = Ok (tt, h') ∧ quiet kernel_end available_memory G ps h h' ∧
    (∀ j, n ≤ j < n + k → cell (words h') (kpgdir0 v) j = Some (large_entry j) ∧
       cell (words h') (kpgdir1 v) j = Some (large_entry (j + 512))) ∧
    (∀ q r j, G !! q = Some r → 0 ≤ j < 512 → (q ≠ kpgdir0 v ∧ q ≠ kpgdir1 v) ∨ j < n →
       cell (words h') q j = cell (words h) q j).
Proof.
  intros Htb R0 R1 I0 I1 Hne. revert n h Htb. induction k as [|k IH]; intros n h Htb Hn Hk; cbn [map_linear].
  { exists h. split_and!; [done|split_and!; [done|by intros ????|done|by intros ?????]|intros; lia|done]. }
  destruct (store_quiet _ _ G ps h (kpgdir0 v) n (large_entry n) Htb R0 I0 ltac:(lia)) as (S1 & A1 & C1).
  rewrite (bind_run _ _ _ _ _ S1). set (h1 := with_pte h _ _ _) in *.
  destruct (store_quiet _ _ G ps h1 (kpgdir1 v) n (large_entry (n + 512)) (proj1 A1) R1 I1 ltac:(lia)) as (S2 & A2 & C2).
  rewrite (bind_run _ _ _ _ _ S2). set (h2 := with_pte h1 _ _ _) in *.
  destruct (IH (n + 1) h2 (proj1 A2) ltac:(lia) ltac:(lia)) as (h' & E & A & Hc & Ho).
  exists h'. split_and!; [done|by do 2 (eapply quiet_trans; [done|])|..].
  - intros j Hj. destruct (decide (j = n)) as [->|]; [|apply Hc; lia].
    rewrite !(Ho _ _ n R0), !(Ho _ _ n R1) by lia. rewrite !(C2 _ _ n R0), !(C2 _ _ n R1), !(C1 _ _ n R0) by lia.
    rewrite (decide_False (P := kpgdir0 v = kpgdir1 v ∧ _)) by tauto. by rewrite !decide_True.
  - intros q r j Hq Hj Hor. rewrite (Ho q r j Hq Hj) by (destruct Hor; [tauto|right; lia]).
    rewrite (C2 q r j Hq Hj), (C1 q r j Hq Hj). rewrite !decide_False; [done|intros [-> ->]; destruct Hor; (tauto || lia)..].
Qed.

Lemma map_framebuffer_ok (k : nat) n h G ps v fb :
  tables h G → G !! iopgdir v = Some ROther → iopgdir v ∈ ps → 0 ≤ n → n + k ≤ 512 →
  ∃ h', map_framebuffer k v fb n h = Ok (tt, h') ∧ quiet kernel_end available_memory G ps h h' ∧
    (∀ j, n ≤ j < n + k → cell (words h') (iopgdir v) j = Some (fb_entry fb j)) ∧
    (∀ q r j, G !! q = Some r → 0 ≤ j < 512 → q ≠ iopgdir v ∨ j < n → cell (words h') q j = cell (words h) q j).
Proof.
  intros Htb R I. revert n h Htb. induction k as [|k IH]; intros n h Htb Hn Hk; cbn [map_framebuffer].
  { exists h. split_and!; [done|split_and!; [done|by intros ????|done|by intros ?????]|intros; lia|done]. }
  match goal with |- context [store _ ?e] =>
    destruct (store_quiet _ _ G ps h (iopgdir v) n e Htb R I ltac:(lia)) as (S1 & A1 & C1) end.
  rewrite (bind_run _ _ _ _ _ S1). destruct (IH (n + 1) _ (proj1 A1) ltac:(lia) ltac:(lia)) as (h' & E & A & Hc & Ho).
  exists h'. split_and!; [done|by eapply quiet_trans|..].
  - intros j Hj. destruct (decide (j = n)) as [->|]; [|apply Hc; lia]. rewrite (Ho _ _ n R) by lia.
    rewrite (C1 _ _ n R) by lia. by rewrite decide_True.
  - intros q r j Hq Hj Hor. rewrite (Ho q r j Hq Hj) by (destruct Hor; [tauto|right; lia]). rewrite (C1 q r j Hq Hj).
    rewrite decide_False; [done|]. intros [-> ->]. destruct Hor; (done || lia).
Qed.

Lemma kernel_indices x : 0 ≤ x < PHYSLIMIT →
  PML4X (KERNBASE + x) = 511 ∧ PDPTX (KERNBASE + x) = 510 + x / 2 ^ 30 ∧
  PDX (KERNBASE + x) = (x / 2 ^ 21) mod 512 ∧ (KERNBASE + x) mod 2 ^ 21 = x mod 2 ^ 21.
Proof.
  unfold PHYSLIMIT. intros Hx. unfold PML4X, PDPTX, PDX. rewrite !index_eq by done.
  unfold PML4XSHIFT, PDPTXSHIFT, PDXSHIFT, KERNBASE, PHYSLIMIT. split_and!.
  - rewrite <- (Z.div_unique _ (2 ^ 39) (2 ^ 25 - 1) (2 ^ 39 - 2 ^ 31 + x)); [done|lia|lia].
  - replace (2 ^ 64 - 0x80000000 + x) with (x + (2 ^ 34 - 2) * 2 ^ 30) by lia. rewrite Z.div_add by done.
    assert (0 ≤ x / 2 ^ 30 < 2) by (split; [apply Z.div_pos; lia|apply Z.div_lt_upper_bound; lia]).
    replace (x / 2 ^ 30 + (2 ^ 34 - 2)) with (x / 2 ^ 30 + 510 + (2 ^ 25 - 1) * 512) by lia.
    rewrite Z_mod_plus_full. rewrite Z.mod_small; lia.
  - replace (2 ^ 64 - 0x80000000 + x) with (x + (2 ^ 43 - 2 ^ 10) * 2 ^ 21) by lia. rewrite Z.div_add by done.
    replace (2 ^ 43 - 2 ^ 10) with ((2 ^ 34 - 2) * 512) by done. by rewrite Z_mod_plus_full.
  - replace (2 ^ 64 - 0x80000000 + x) with (x + (2 ^ 43 - 2 ^ 10) * 2 ^ 21) by lia. by rewrite Z_mod_plus_full.
Qed.

Lemma device_indices x : 0 ≤ x < 2 ^ 25 →
  PML4X (DEVBASE + x) = 511 ∧ PDPTX (DEVBASE + x) = 509 ∧ PDX (DEVBASE + x) = x / 2 ^ 21 ∧
  (DEVBASE + x) mod 2 ^ 21 = x mod 2 ^ 21.
Proof.
  intros Hx. unfold PML4X, PDPTX, PDX. rewrite !index_eq by done.
  unfold PML4XSHIFT, PDPTXSHIFT, PDXSHIFT, DEVBASE, KERNBASE, PHYSLIMIT. split_and!.
  - rewrite <- (Z.div_unique _ (2 ^ 39) (2 ^ 25 - 1) (2 ^ 39 - 3 * 2 ^ 30 + x)); [done|lia|lia].
  - rewrite <- (Z.div_unique _ (2 ^ 30) (2 ^ 34 - 3) x); [done|lia|lia].
  - replace (2 ^ 64 - 0x80000000 - 2 ^ 30 + x) with (x + (2 ^ 34 - 3) * 512 * 2 ^ 21) by lia. rewrite Z.div_add by done.
    rewrite Z_mod_plus_full. apply Z.mod_small. split; [apply Z.div_pos; lia|apply Z.div_lt_upper_bound; lia].
  - replace (2 ^ 64 - 0x80000000 - 2 ^ 30 + x) with (x + (2 ^ 34 - 3) * 512 * 2 ^ 21) by lia. by rewrite Z_mod_plus_full.
Qed.

(** A kernel table entry: present and writable. *)
Definition kernel_entry (t : Z) : Z := Z.lor (Z.lor (v2p t) PTE_P) PTE_W.

Lemma next_kernel w t t' i :
  kpage t → p2v (v2p t') = t' → cell w t' i = Some (kernel_entry t) →
  next_level w (v2p t') i = Some (kernel_entry t) ∧ PTE_ADDR (kernel_entry t) = v2p t ∧
  has (kernel_entry t) PTE_W = true ∧ has (kernel_entry t) PTE_U = false.
Proof.
  intros Ht Hv Hc. unfold next_level. rewrite Hv, Hc. cbn. unfold kernel_entry. rewrite <- !Z.lor_assoc.
  change (Z.lor PTE_P PTE_W) with 3. change (v2p t) with (V2P t).
  destruct (entry_page _ _ t 3 PTE_P Ht) as (_ & -> & ->); [done..|].
  destruct (entry_page _ _ t 3 PTE_W Ht) as (_ & -> & _); [done..|].
  by destruct (entry_page _ _ t 3 PTE_U Ht) as (_ & -> & _).
Qed.

(** The tables as [kvmalloc] fills them. *)
Record kernel_tables (w : gmap Z Z) (v : kvm) (fb : Z) : Prop := {
  kt_pages : kpage (kpml4 v) ∧ kpage (kpdpt v) ∧ kpage (kpgdir0 v) ∧ kpage (kpgdir1 v) ∧ kpage (iopgdir v);
  kt_top : cell w (kpml4 v) 511 = Some (kernel_entry (kpdpt v));
  kt_high : cell w (kpdpt v) 511 = Some (kernel_entry (kpgdir1 v));
  kt_low : cell w (kpdpt v) 510 = Some (kernel_entry (kpgdir0 v));
  kt_io : cell w (kpdpt v) 509 = Some (kernel_entry (iopgdir v));
  kt_linear j : 0 ≤ j < 512 →
    cell w (kpgdir0 v) j = Some (large_entry j) ∧ cell w (kpgdir1 v) j = Some (large_entry (j + 512));
  kt_fb j : 0 ≤ j < 16 → cell w (iopgdir v) j = Some (fb_entry fb j);
}.

(** A walk that ends in a 2 MiB page of directory [d]. *)
Lemma kernel_walk w v fb d va e :
  kernel_tables w v fb → kpage d → PML4X va = 511 → cell w (kpdpt v) (PDPTX va) = Some (kernel_entry d) →
  cell w d (PDX va) = Some e → has e PTE_P = true → has e PTE_PS = true → has e PTE_W = true →
  mmu w (v2p (kpml4 v)) va = Some (e / 2 ^ 21 * 2 ^ 21 + va mod 2 ^ 21, (true, false)).
Proof.
  intros [(K4 & K3 & _) Ht _ _ _ _ _] Kd E4 Hc He Hp Hs Hw. unfold mmu. rewrite E4.
  assert (∀ p, kpage p → p2v (v2p p) = p) as Hv by (intros p Hp'; by destruct (v2p_page _ _ p Hp') as (_ & _ & _ & ?)).
  destruct (next_kernel w _ _ 511 K3 (Hv _ K4) Ht) as (-> & A & W4 & U4). cbn. rewrite A.
  destruct (next_kernel w _ _ _ Kd (Hv _ K3) Hc) as (-> & A3 & W3 & U3). cbn. rewrite A3.
  unfold next_level. rewrite (Hv _ Kd), He. cbn. rewrite Hp. cbn. rewrite Hs. unfold rights. cbn [forallb].
  by rewrite W4, U4, W3, Hw.
Qed.

Lemma linear_mmu w v fb :
  kernel_tables w v fb → ∀ x, 0 ≤ x < PHYSLIMIT → mmu w (v2p (kpml4 v)) (KERNBASE + x) = Some (x, (true, false)).
Proof.
  intros Hk x Hx. destruct (kernel_indices x Hx) as (E4 & E3 & E2 & Em). pose proof Hk as [(_ & _ & K0 & K1 & _) _ H1 H0 _ Cj _].
  unfold PHYSLIMIT in Hx.
  assert (0 ≤ x / 2 ^ 30 < 2) as Hhi by (split; [apply Z.div_pos; lia|apply Z.div_lt_upper_bound; lia]).
  pose proof (Z.mod_pos_bound (x / 2 ^ 21) 512 ltac:(done)) as Hj. pose proof (Z.div_mod (x / 2 ^ 21) 512 ltac:(done)) as Ed.
  rewrite Z.div_div in Ed by lia. change (2 ^ 21 * 512) with (2 ^ 30) in Ed. pose proof (Z.div_mod x (2 ^ 21) ltac:(done)) as Ex.
  destruct (Cj _ Hj) as [C0 C1]. destruct (decide (x / 2 ^ 30 = 0)) as [Ez|].
  - destruct (large_entry_ok ((x / 2 ^ 21) mod 512) ltac:(lia)) as (P & S & D & W & _).
    rewrite (kernel_walk w v fb _ _ _ Hk K0 E4 ltac:(rewrite E3, Ez; exact H0) ltac:(rewrite E2; exact C0) P S W). rewrite D, Em. do 2 f_equal. lia.
  - assert (x / 2 ^ 30 = 1) as Ez by lia.
    destruct (large_entry_ok ((x / 2 ^ 21) mod 512 + 512) ltac:(lia)) as (P & S & D & W & _).
    rewrite (kernel_walk w v fb _ _ _ Hk K1 E4 ltac:(rewrite E3, Ez; exact H1) ltac:(rewrite E2; exact C1) P S W). rewrite D, Em. do 2 f_equal. lia.
Qed.

Lemma framebuffer_mmu w v fb :
  kernel_tables w v fb → fb mod 2 ^ 21 = 0 → 0 ≤ fb → fb + 2 ^ 25 ≤ 2 ^ 52 →
  ∀ x, 0 ≤ x < 2 ^ 25 → mmu w (v2p (kpml4 v)) (DEVBASE + x) = Some (fb + x, (true, false)).
Proof.
  intros Hk Hm Hfb Hlim x Hx. destruct (device_indices x Hx) as (E4 & E3 & E2 & Em).
  pose proof Hk as [(_ & _ & _ & _ & Ki) _ _ _ Hi _ Cj].
  assert (0 ≤ x / 2 ^ 21 < 16) as Hj by (split; [apply Z.div_pos; lia|apply Z.div_lt_upper_bound; lia]).
  pose proof (Z.div_mod x (2 ^ 21) ltac:(done)) as Ex. pose proof (Cj _ Hj) as C.
  destruct (fb_entry_ok fb (x / 2 ^ 21) Hm Hfb Hlim Hj) as (P & S & D & W & _).
  rewrite (kernel_walk w v fb _ _ _ Hk Ki E4 ltac:(rewrite E3; exact Hi) ltac:(rewrite E2; exact C) P S W). rewrite D, Em. do 2 f_equal. lia.
Qed.

Lemma still_free G p q : <[p := ROther]> G !! q = Some RFree → q ≠ p ∧ G !! q = Some RFree.
Proof. rewrite lookup_insert. case_decide; [done|]. intros. split; [congruence|done]. Qed.

Lemma kvmalloc_tables h G fb :
  tables h G → enough 5 G →
  ∃ v h', kvmalloc fb h = Ok ((v, v2p (kpml4 v)), h') ∧ kernel_tables (words h') v fb ∧
    same_ptes G h h' ∧ keeps_pages G h h'.
Proof.
  intros Htb He. unfold kvmalloc.
  destruct (enough_alloc _ _ 4 h G Htb He) as (p4 & h1 & E1 & W1 & F1 & Z1 & R1 & Htb1 & He1).
  destruct (enough_alloc _ _ 3 h1 _ Htb1 He1) as (p3 & h2 & E2 & W2 & F2 & Z2 & R2 & Htb2 & He2).
  destruct (enough_alloc _ _ 2 h2 _ Htb2 He2) as (d0 & h3 & E3 & W3 & F3 & Z3 & R3 & Htb3 & He3).
  destruct (enough_alloc _ _ 1 h3 _ Htb3 He3) as (d1 & h4 & E4 & W4 & F4 & Z4 & R4 & Htb4 & He4).
  destruct (enough_alloc _ _ 0 h4 _ Htb4 He4) as (io & h5 & E5 & W5 & F5 & Z5 & R5 & Htb5 & _).
  rewrite (bind_run _ _ _ _ _ E1), (bind_run _ _ _ _ _ E2), (bind_run _ _ _ _ _ E3), (bind_run _ _ _ _ _ E4), (bind_run _ _ _ _ _ E5).
  clear E1 E2 E3 E4 E5 He1 He2 He3 He4. apply still_free in R2 as [? R2].
  apply still_free in R3 as [? [? R3]%still_free]. apply still_free in R4 as [? [? [? R4]%still_free]%still_free].
  apply still_free in R5 as [? [? [? [? R5]%still_free]%still_free]%still_free].
  set (G5 := <[io := ROther]> _) in *. set (ps := [p4; p3; d0; d1; io]). set (v := mkkvm p4 p3 d0 d1 io).
  assert (G5 !! p4 = Some ROther ∧ G5 !! p3 = Some ROther ∧ G5 !! d0 = Some ROther ∧ G5 !! d1 = Some ROther ∧ G5 !! io = Some ROther)
    as (Q4 & Q3 & Q0 & Q1 & Qi) by (unfold G5; split_and!; rewrite !lookup_insert; by repeat case_decide).
  assert (p4 ∈ ps ∧ p3 ∈ ps ∧ d0 ∈ ps ∧ d1 ∈ ps ∧ io ∈ ps) as (I4 & I3 & I0 & I1 & Ii) by (unfold ps; rewrite !elem_of_cons; tauto).
  destruct (clear_quiet _ _ G5 ps h5 p4 Htb5 Q4 I4) as (h6 & E6 & A6 & _). rewrite (bind_run _ _ _ _ _ E6).
  destruct (clear_quiet _ _ G5 ps h6 p3 (proj1 A6) Q3 I3) as (h7 & E7 & A7 & _). rewrite (bind_run _ _ _ _ _ E7).
  destruct (clear_quiet _ _ G5 ps h7 io (proj1 A7) Qi Ii) as (h8 & E8 & A8 & _). rewrite (bind_run _ _ _ _ _ E8).
  destruct (store_quiet _ _ G5 ps h8 p4 511 (kernel_entry p3) (proj1 A8) Q4 I4 ltac:(lia)) as (S9 & A9 & C9).
  rewrite (bind_run _ _ _ _ _ S9). set (h9 := with_pte h8 _ _ _) in *.
  destruct (store_quiet _ _ G5 ps h9 p3 511 (kernel_entry d1) (proj1 A9) Q3 I3 ltac:(lia)) as (S10 & A10 & C10).
  rewrite (bind_run _ _ _ _ _ S10). set (h10 := with_pte h9 _ _ _) in *.
  destruct (store_quiet _ _ G5 ps h10 p3 510 (kernel_entry d0) (proj1 A10) Q3 I3 ltac:(lia)) as (S11 & A11 & C11).
  rewrite (bind_run _ _ _ _ _ S11). set (h11 := with_pte h10 _ _ _) in *.
  destruct (store_quiet _ _ G5 ps h11 p3 509 (kernel_entry io) (proj1 A11) Q3 I3 ltac:(lia)) as (S12 & A12 & C12).
  rewrite (bind_run _ _ _ _ _ S12). set (h12 := with_pte h11 _ _ _) in *.
  destruct (map_linear_ok 512 0 h12 G5 ps v (proj1 A12) Q0 Q1 I0 I1 ltac:(done) ltac:(done) ltac:(done)) as (h13 & E13 & A13 & L13 & O13).
  rewrite (bind_run _ _ _ _ _ E13).
  destruct (map_framebuffer_ok 16 0 h13 G5 ps v fb (proj1 A13) Qi Ii ltac:(done) ltac:(done)) as (h14 & E14 & A14 & F14 & O14).
  rewrite (bind_run _ _ _ _ _ E14).
  assert (quiet kernel_end available_memory G5 ps h5 h14) as (Hq1 & Hq2 & _ & Hq4)
    by (do 8 (eapply quiet_trans; [eassumption|]); exact A14).
  assert (∀ q r, G !! q = Some r → r ≠ RFree → G5 !! q = Some r ∧ q ∉ ps) as HG5.
  { intros q r Hq Hr. unfold G5. rewrite !lookup_insert_ne by congruence. split; [done|].
    unfold ps. rewrite !elem_of_cons, elem_of_nil. intros [->|[->|[->|[->|[->|[]]]]]]; congruence. }
  assert (∀ p, G5 !! p = Some ROther → kpage p) as HK by (intros p Hp; by apply (tb_page _ _ _ _ Hq1) in Hp as [? _]).
  assert (∀ q i, G5 !! q = Some ROther → 0 ≤ i < 512 → q ≠ d0 → q ≠ d1 → q ≠ io →
    cell (words h14) q i = cell (words h12) q i) as H12.
  { intros q i Hq Hi ???. rewrite (O14 q _ i Hq), (O13 q _ i Hq) by (done || by left). done. }
  exists v, h14. split; [done|]. split_and!; [split; cbn [kpml4 kpdpt kpgdir0 kpgdir1 iopgdir v]| |].
  - split_and!; by apply HK.
  - rewrite H12, (C12 p4 _ 511 Q4), (C11 p4 _ 511 Q4), (C10 p4 _ 511 Q4), (C9 p4 _ 511 Q4) by (done || lia).
    rewrite !(decide_False (P := p4 = p3 ∧ _)) by (intros [? _]; congruence). by rewrite decide_True.
  - rewrite H12, (C12 p3 _ 511 Q3), (C11 p3 _ 511 Q3), (C10 p3 _ 511 Q3) by (done || lia).
    rewrite !decide_False by lia. by rewrite decide_True.
  - rewrite H12, (C12 p3 _ 510 Q3), (C11 p3 _ 510 Q3) by (done || lia). rewrite !decide_False by lia. by rewrite decide_True.
  - rewrite H12, (C12 p3 _ 509 Q3) by (done || lia). by rewrite decide_True.
  - intros j Hj. rewrite (O14 d0 _ j Q0), (O14 d1 _ j Q1) by (done || by left). apply L13. lia.
  - intros j Hj. apply F14. lia.
  - intros d x Hd Hx. rewrite Hq2 by (done || by apply (HG5 d RDir)). unfold pte, pte_loc. by rewrite W5, W4, W3, W2, W1.
  - intros p r Hp Hr. destruct (HG5 p r Hp ltac:(by intros ->)) as [Hp' Hn]. intros j Hj. rewrite (Hq4 p r Hp' Hn j Hj).
    by rewrite W5, W4, W3, W2, W1.
Qed.

(** C21. The kernel's address space.  With five free pages [kvmalloc] returns,
    and under the tables it loads into [cr3] every kernel address
    [KERNBASE + x] below the 2 GiB limit is translated to the physical address
    [x], and, for a framebuffer at a 2 MiB boundary, the 32 MiB from [DEVBASE]
    on are translated to the framebuffer.  All of it may be written, and user
    code may not access it.  No page in use and no entry of an existing address
    space changes. *)
Theorem kvmalloc_linear_map h G fb :
  tables h G → enough 5 G →
  ∃ v cr3 h', kvmalloc fb h = Ok ((v, cr3), h') ∧
    (∀ x, 0 ≤ x < PHYSLIMIT → mmu (words h') cr3 (KERNBASE + x) = Some (x, (true, false))) ∧
    (fb mod 2 ^ 21 = 0 → 0 ≤ fb → fb + 2 ^ 25 ≤ 2 ^ 52 →
      ∀ x, 0 ≤ x < 2 ^ 25 → mmu (words h') cr3 (DEVBASE + x) = Some (fb + x, (true, false))) ∧
    same_ptes G h h' ∧ keeps_pages G h h'.
Proof.
  intros Htb He. destruct (kvmalloc_tables h G fb Htb He) as (v & h' & E & Hk & Hp & Hkp).
  exists v, (v2p (kpml4 v)), h'. split_and!; [done|by eapply linear_mmu|by apply framebuffer_mmu|done|done].
Qed.
End thm.

(** ** Examples: a process with one page *)

Definition ex_page (i : Z) : Z := KERNBASE + 0x400000 + 4096 * i.
Definition ex_kernel_end : Z := KERNBASE + 0x300000.

(** Pages 0 and 1 are the upper tables, 2 the directory, 3 the table, 4 the
    user page; 5 to 15 are free. *)
Definition ex_val (i j : Z) : Z :=
  if i =? 0 then (if j =? 0 then dir_entry (ex_page 1) else 0)
  else if i =? 1 then (if j =? 0 then dir_entry (ex_page 2) else 0)
  else if i =? 2 then
    (if j =? 0 then dir_entry (ex_page 3) else if j =? 510 then Z.lor (ex_page 1) 1
     else if j =? 511 then Z.lor (ex_page 0) 1 else 0)
  else if i =? 3 then (if j =? 0 then Z.lor (V2P (ex_page 4)) 7 else 0)
  else if i =? 4 then 1000 + j
  else if (j =? 0) && (i <? 15) then ex_page (i + 1) else 0.

Definition ex_words : gmap Z Z :=
  list_to_map (i ← seqZ 0 16; (λ j, (ex_page i + 8 * j, ex_val i j)) <$> (seqZ 0 512)).
Definition ex_h : kheap := mkheap ex_words 0 (mkkmem false (ex_page 5) false).

Definition ex_role (i : Z) : role :=
  if i <? 2 then ROther else if i =? 2 then RDir else if i =? 3 then RTable (ex_page 2) 0
  else if i =? 4 then RFrame (ex_page 2) 0 else RFree.
Definition ex_G : gmap Z role := list_to_map ((λ i, (ex_page i, ex_role i)) <$> (seqZ 0 16)).
Definition ex_free : list Z := ex_page <$> (seqZ 5 11).

Lemma ex_cell i j : 0 ≤ i < 16 → 0 ≤ j < 512 → cell ex_words (ex_page i) j = Some (ex_val i j).
Proof.
  intros Hi Hj.
  assert (forallb (λ i, forallb (λ j, bool_decide (cell ex_words (ex_page i) j = Some (ex_val i j))) (seqZ 0 512)) (seqZ 0 16) = true)
    as H by (vm_compute; reflexivity).
  rewrite forallb_forall in H. specialize (H i). rewrite <- list_elem_of_In, elem_of_seqZ, forallb_forall in H.
  specialize (H ltac:(lia) j). rewrite <- list_elem_of_In, elem_of_seqZ in H. specialize (H ltac:(lia)). by apply bool_decide_eq_true in H.
Qed.

Lemma ex_G_Some p r : ex_G !! p = Some r → ∃ i, 0 ≤ i < 16 ∧ p = ex_page i ∧ r = ex_role i.
Proof.
  intros H%elem_of_list_to_map_2. apply list_elem_of_fmap in H as (i & E & Hi%elem_of_seqZ). injection E as -> ->.
  exists i. split; [lia|done].
Qed.

Lemma ex_G_page i : 0 ≤ i < 16 → ex_G !! ex_page i = Some (ex_role i).
Proof.
  intros Hi. assert (forallb (λ i, bool_decide (ex_G !! ex_page i = Some (ex_role i))) (seqZ 0 16) = true) as H by (vm_compute; reflexivity).
  rewrite forallb_forall in H. specialize (H i). rewrite <- list_elem_of_In, elem_of_seqZ in H. specialize (H ltac:(lia)). by apply bool_decide_eq_true in H.
Qed.

Lemma ex_role_inv i : 0 ≤ i < 16 →
  match ex_role i with ROther => i = 0 ∨ i = 1 | RDir => i = 2 | RTable d j => i = 3 ∧ d = ex_page 2 ∧ j = 0
  | RFrame d n => i = 4 ∧ d = ex_page 2 ∧ n = 0 | RFree => 5 ≤ i end.
Proof.
  intros Hi. unfold ex_role. destruct (Z.ltb_spec i 2); [lia|]. destruct (Z.eqb_spec i 2); [done|].
  destruct (Z.eqb_spec i 3); [done|]. destruct (Z.eqb_spec i 4); [done|lia].
Qed.

Lemma ex_page_ok i : 0 ≤ i < 16 → page_ok ex_kernel_end 0 (ex_page i) ∧ KERNBASE < ex_page i ∧ page_mapped ex_words (ex_page i).
Proof.
  intros Hi. unfold page_ok, ex_kernel_end, PGSIZE. split_and!; try (unfold ex_page, KERNBASE, PHYSLIMIT; lia).
  - unfold ex_page. rewrite Z.mul_comm, Z_mod_plus_full. vm_compute. reflexivity.
  - intros j Hj. rewrite ex_cell by done. by eexists.
Qed.

Lemma ex_free_pages : free_pages ex_h ex_free.
Proof.
  split.
  - change ex_free with [ex_page 5; ex_page 6; ex_page 7; ex_page 8; ex_page 9; ex_page 10;
    ex_page 11; ex_page 12; ex_page 13; ex_page 14; ex_page 15]. cbn [chained].
    repeat (split; [done|split; [done|eexists; split; [vm_compute; reflexivity|]]]). done.
  - apply (bool_decide_unpack _). vm_compute. exact I.
  - intros p (i & -> & Hi%elem_of_seqZ)%list_elem_of_fmap. destruct (ex_page_ok i ltac:(lia)) as ((H1 & H2 & H3 & _) & H4 & _).
    unfold KERNBASE, PHYSLIMIT in *. split_and!; [lia|done|done].
  - intros u (p & (i & -> & Hi%elem_of_seqZ)%list_elem_of_fmap & Hu)%elem_of_page_units.
    destruct (ex_page_ok i ltac:(lia)) as (_ & _ & Hm). by apply page_mapped_units in Hm; apply Hm.
  - done.
Qed.

Lemma ex_tables : VmTable.tables ex_kernel_end 0 ex_h ex_G.
Proof.
  split.
  - intros p r (i & Hi & -> & _)%ex_G_Some. by apply ex_page_ok.
  - exists ex_free. split; [apply ex_free_pages|]. intros p. split.
    + intros (i & -> & Hi%elem_of_seqZ)%list_elem_of_fmap. rewrite ex_G_page by lia. f_equal.
      pose proof (ex_role_inv i ltac:(lia)). destruct (ex_role i); (done || lia).
    + intros (i & Hi & -> & Hr)%ex_G_Some. pose proof (ex_role_inv i Hi) as H. rewrite <- Hr in H.
      apply list_elem_of_fmap. exists i. split; [done|]. apply elem_of_seqZ. lia.
  - intros d i e (k & Hk & -> & Hr)%ex_G_Some Hi He Hp. pose proof (ex_role_inv k Hk) as H. rewrite <- Hr in H. subst k.
    cbn [words ex_h] in He. rewrite ex_cell in He by lia. injection He as <-. unfold ex_val in *. cbn [Z.eqb Pos.eqb] in *.
    destruct (Z.eqb_spec i 0) as [->|]; [vm_compute; reflexivity|]. rewrite (proj2 (Z.eqb_neq i 510)), (proj2 (Z.eqb_neq i 511)) in Hp by lia.
    done.
  - intros t d i (k & Hk & -> & Hr)%ex_G_Some. pose proof (ex_role_inv k Hk) as H. rewrite <- Hr in H.
    destruct H as (-> & -> & ->). split; [vm_compute; reflexivity|]. split; [done|]. exists (dir_entry (ex_page 3)).
    split_and!; vm_compute; reflexivity.
Qed.

Lemma ex_pte x : 0 ≤ x < UTOP → pte ex_h (ex_page 2) x = if decide (x < 4096) then Z.lor (V2P (ex_page 4)) 7 else 0.
Proof.
  intros Hx. destruct (pdx_range x Hx) as [E Hi]. pose proof (ptx_range x) as Hj.
  unfold pte, pte_loc. cbn [words ex_h]. rewrite ex_cell by lia.
  assert (ex_val 2 (PDX x) = if PDX x =? 0 then dir_entry (ex_page 3) else 0) as ->.
  { unfold ex_val. cbn [Z.eqb Pos.eqb]. by rewrite (proj2 (Z.eqb_neq (PDX x) 510)), (proj2 (Z.eqb_neq (PDX x) 511)) by lia. }
  destruct (Z.eqb_spec (PDX x) 0) as [E0|].
  - change (has (dir_entry (ex_page 3)) PTE_P) with true. change (p2v (PTE_ADDR (dir_entry (ex_page 3)))) with (ex_page 3).
    cbv iota beta. rewrite (ex_cell 3) by lia. unfold ex_val. cbn [Z.eqb Pos.eqb default].
    assert (PTX x = x / 4096) as Et.
    { rewrite ptx_eq. apply Z.mod_small. split; [apply Z.div_pos; lia|]. rewrite E0 in E. symmetry in E.
      apply Z.div_small_iff in E; [|done]. apply Z.div_lt_upper_bound; lia. }
    rewrite Et. case_decide; [by rewrite Z.div_small by lia|].
    rewrite (proj2 (Z.eqb_neq _ _)); [done|]. intros [?|?]%Z.div_small_iff; lia.
  - rewrite decide_False; [done|]. intros Hlt. apply n. rewrite E. apply Z.div_small. lia.
Qed.

Lemma ex_frames : frames ex_h ex_G (ex_page 2).
Proof.
  split.
  - intros x Hx. unfold frame_of. rewrite ex_pte by done. case_decide; [|done]. intros _. rewrite Z.div_small by lia.
    vm_compute. reflexivity.
  - intros f n (k & Hk & -> & Hr)%ex_G_Some. pose proof (ex_role_inv k Hk) as H. rewrite <- Hr in H. destruct H as (-> & _ & ->).
    split_and!; vm_compute; (reflexivity || discriminate).
Qed.

Lemma ex_space : space ex_kernel_end 0 ex_h (ex_page 2) (ex_page 0) (ex_page 1).
Proof. split; [by split_and!; apply ex_page_ok|vm_compute; reflexivity..]. Qed.

Lemma ex_enough n : (n ≤ 11)%nat → enough n ex_G.
Proof.
  intros Hn. exists (take n ex_free). split_and!.
  - pose proof (fp_nodup _ _ ex_free_pages) as H. rewrite <- (take_drop n ex_free) in H. by apply NoDup_app in H as [? _].
  - rewrite length_take. change (length ex_free) with 11%nat. lia.
  - apply Forall_take, Forall_forall. intros p (i & -> & Hi%elem_of_seqZ)%list_elem_of_fmap. rewrite ex_G_page by lia.
    f_equal. pose proof (ex_role_inv i ltac:(lia)). destruct (ex_role i); (done || lia).
Qed.

Lemma ex_owned : owned ex_G.
Proof.
  intros f d n (k & Hk & -> & Hr)%ex_G_Some. pose proof (ex_role_inv k Hk) as H. rewrite <- Hr in H. destruct H as (_ & -> & _).
  vm_compute. reflexivity.
Qed.

(** Two device pages at address 0x200000. *)
Lemma mappages_translation_witness :
  ∃ r h' G' m, mappages (ex_page 2) 0x200000 8192 0xFD000000 6 ex_h = Ok (r, h') ∧
    VmTable.tables ex_kernel_end 0 h' G' ∧ grows (ex_page 2) ex_G G' ∧
    (∀ x, 0 ≤ x < UTOP → mmu (words h') (v2p (ex_page 0)) x =
      if decide (0x200000 ≤ x < 0x200000 + m * 4096) then Some (0xFD000000 + (x - 0x200000), (has 6 PTE_W, has 6 PTE_U))
      else mmu ex_words (v2p (ex_page 0)) x) ∧
    (∀ d' x, ex_G !! d' = Some RDir → d' ≠ ex_page 2 → 0 ≤ x < UTOP → pte h' d' x = pte ex_h d' x) ∧
    ((r = 0 ∧ m = 2) ∨ (r = -1 ∧ 0 ≤ m < 2 ∧ ∀ q, G' !! q ≠ Some RFree)).
Proof.
  apply (mappages_translation ex_kernel_end 0 ex_h ex_G (ex_page 2) (ex_page 0) (ex_page 1) 0x200000 8192 0xFD000000 6);
    [apply ex_tables|vm_compute; reflexivity|apply ex_space|vm_compute; reflexivity|vm_compute; reflexivity|lia|lia
    |vm_compute; discriminate|lia|lia|reflexivity|lia|].
  change (0x200000 / 4096 * 4096) with 0x200000. change ((0x200000 + 8192 - 1) / 4096 - 0x200000 / 4096 + 1) with 2.
  intros x Hx. rewrite ex_pte, decide_False by (unfold UTOP; lia). reflexivity.
Defined.

Lemma allocuvm_deallocuvm_witness :
  ∃ r h' G', allocuvm ex_kernel_end 0 (ex_page 2) 5000 9000 ex_h = Ok (r, h') ∧
    VmTable.tables ex_kernel_end 0 h' G' ∧ frames h' G' (ex_page 2) ∧ keeps_pages ex_G ex_h h' ∧
    ((r = 9000 ∧
      (∀ x, page_up 5000 ≤ x < 9000 →
        user_ok h' (ex_page 2) x = true ∧ user_byte h' (ex_page 2) x = 0 ∧ ex_G !! frame_of h' (ex_page 2) x = Some RFree) ∧
      (∀ d' x, ex_G !! d' = Some RDir → 0 ≤ x < UTOP → ¬ (d' = ex_page 2 ∧ page_up 5000 ≤ x < page_up 9000) →
        pte h' d' x = pte ex_h d' x) ∧
      ∃ h'' G'', deallocuvm ex_kernel_end 0 (ex_page 2) 9000 5000 h' = Ok (5000, h'') ∧
        VmTable.tables ex_kernel_end 0 h'' G'' ∧ frames h'' G'' (ex_page 2) ∧ grows (ex_page 2) ex_G G'' ∧
        same_ptes ex_G ex_h h'' ∧ keeps_pages ex_G ex_h h'') ∨
     (r = 0 ∧ grows (ex_page 2) ex_G G' ∧ same_ptes ex_G ex_h h')).
Proof.
  apply (allocuvm_deallocuvm ex_kernel_end 0 ex_h ex_G (ex_page 2) 5000 9000);
    [apply ex_tables|vm_compute; reflexivity|apply ex_frames|lia|vm_compute; discriminate|].
  change (page_up 5000) with 8192. intros x Hx. rewrite ex_pte, decide_False by (unfold UTOP; lia). reflexivity.
Defined.

Lemma copyuvm_copies_witness :
  ∃ r h' G', copyuvm ex_kernel_end 0 (KERNBASE + 0x350000) (ex_page 2) 4000 ex_h = Ok (r, h') ∧
    VmTable.tables ex_kernel_end 0 h' G' ∧ same_ptes ex_G ex_h h' ∧ keeps_pages ex_G ex_h h' ∧
    ((r ≠ 0 ∧ ex_G !! r = Some RFree ∧ G' !! r = Some RDir ∧ frames h' G' r ∧
      ∀ x, 0 ≤ x < 4000 → has (pte h' r x) PTE_P = true ∧ PTE_FLAGS (pte h' r x) = PTE_FLAGS (pte ex_h (ex_page 2) x) ∧
        user_byte h' r x = user_byte ex_h (ex_page 2) x ∧ ex_G !! frame_of h' r x = Some RFree) ∨
     (r = 0 ∧ ∃ p4 p3, ∀ p, G' !! p = if decide (p = p4 ∨ p = p3) then Some ROther else ex_G !! p)).
Proof.
  apply (copyuvm_copies ex_kernel_end 0 ex_h ex_G (KERNBASE + 0x350000) (ex_page 2) 4000);
    [apply ex_tables|vm_compute; reflexivity|apply ex_frames|apply ex_owned|vm_compute; split; discriminate| |apply ex_enough; lia].
  intros x Hx. rewrite ex_pte, decide_True by (unfold UTOP; lia). reflexivity.
Defined.

Lemma freevm_reclaims_witness :
  ∃ h' G', freevm ex_kernel_end 0 (ex_page 2) ex_h = Ok (tt, h') ∧ VmTable.tables ex_kernel_end 0 h' G' ∧
    (∀ p, G' !! p = match ex_G !! p with
      | Some RDir => if decide (p = ex_page 2) then Some RFree else Some RDir
      | Some (RTable d' i) => Some (if decide (d' = ex_page 2) then RFree else RTable d' i)
      | Some (RFrame d' n) => Some (if decide (d' = ex_page 2 ∧ n * 4096 < 0x1da00000) then RFree else RFrame d' n)
      | o => o
      end) ∧
    (∀ d' x, ex_G !! d' = Some RDir → d' ≠ ex_page 2 → 0 ≤ x < UTOP → pte h' d' x = pte ex_h d' x) ∧
    keeps_pages G' ex_h h'.
Proof.
  apply (freevm_reclaims ex_kernel_end 0 ex_h ex_G (ex_page 2)); [apply ex_tables|vm_compute; reflexivity|apply ex_frames].
Defined.

Lemma copyout_correct_witness :
  ∃ r h' (n : nat), copyout (ex_page 2) 4094 [1; 2; 3] ex_h = Ok (r, h') ∧ (n ≤ 3)%nat ∧
    (∀ x, 0 ≤ x < UTOP → has (pte ex_h (ex_page 2) x) PTE_P = true →
      user_byte h' (ex_page 2) x = if decide (4094 ≤ x < 4094 + n) then default 0 ([1; 2; 3] !! Z.to_nat (x - 4094))
        else user_byte ex_h (ex_page 2) x) ∧
    (∀ x, 4094 ≤ x < 4094 + n → has (pte ex_h (ex_page 2) x) PTE_P = true ∧ has (pte ex_h (ex_page 2) x) PTE_U = true) ∧
    ((r = 0 ∧ n = 3%nat) ∨
     (r = - EFAULT ∧ (n < 3)%nat ∧
      ¬ (has (pte ex_h (ex_page 2) (4094 + n)) PTE_P = true ∧ has (pte ex_h (ex_page 2) (4094 + n)) PTE_U = true))) ∧
    VmTable.tables ex_kernel_end 0 h' ex_G ∧ same_ptes ex_G ex_h h' ∧
    ∀ p r, ex_G !! p = Some r → (∀ n, r ≠ RFrame (ex_page 2) n) → page_same ex_words (words h') p.
Proof.
  apply (copyout_correct ex_kernel_end 0 ex_h ex_G (ex_page 2) 4094 [1; 2; 3]);
    [apply ex_tables|vm_compute; reflexivity|apply ex_frames|repeat constructor; lia|lia|vm_compute; discriminate].
Defined.

Lemma kvmalloc_linear_map_witness :
  ∃ v cr3 h', kvmalloc 0xE0000000 ex_h = Ok ((v, cr3), h') ∧
    (∀ x, 0 ≤ x < PHYSLIMIT → mmu (words h') cr3 (KERNBASE + x) = Some (x, (true, false))) ∧
    (∀ x, 0 ≤ x < 2 ^ 25 → mmu (words h') cr3 (DEVBASE + x) = Some (0xE0000000 + x, (true, false))) ∧
    same_ptes ex_G ex_h h' ∧ keeps_pages ex_G ex_h h'.
Proof.
  destruct (kvmalloc_linear_map ex_kernel_end 0 ex_h ex_G 0xE0000000) as (v & cr3 & h' & E & H1 & H2 & H3);
    [apply ex_tables|apply ex_enough; lia|].
  exists v, cr3, h'. split; [exact E|]. split; [exact H1|]. split; [apply H2; [reflexivity|lia|lia]|exact H3].
Defined.
End VmThm.
