(* ===== verification/Exec.v ===== *)
(** * Program loading (kernel/exec.c)

    [execve] builds a new address space from an ELF file, puts the arguments
    on its stack and switches the process to it.  The state joins the memory
    of Vm.v, the files of File.v and the fields of [curproc] that change.  The
    strings of [argv] and [envp] are lists of bytes without their NUL. *)

From S2P Require Import Prelude Mem Words Block Bio Log CType KString Heap HeapAlloc Kalloc Vm Fs RingBuf Pipe File Sysfile.

Module Exec.
Import Heap Kalloc Vm.

Definition E2BIG : Z := 7.
Definition ENOEXEC : Z := 8.
Definition EACCES : Z := 13.
Definition MAXARG : Z := 32.
Definition MAXENV : Z := 32.

Definition S_IXUSR : Z := 0x40.
Definition S_IXGRP : Z := 0x8.
Definition S_HASPERM (mode mask : Z) : bool := Z.land mode mask =? mask.

(** ** The ELF header and a program header, in the bytes read from the file *)

Definition ELF_MAGIC_NUMBER : Z := 0x464C457F.
Definition EI_CLASS : nat := 4.
Definition EI_DATA : nat := 5.
Definition EI_VERSION : nat := 6.
Definition EI_OSABI : nat := 7.
Definition ELFCLASS64 : Z := 2.
Definition ELFDATA2LSB : Z := 1.
Definition EV_CURRENT : Z := 1.
Definition ELFOSABI_SYSV : Z := 0.
Definition ELFOSABI_LINUX : Z := 3.
Definition PT_LOAD : Z := 1.

Definition EHDR_SIZE : nat := 64.
Definition PHDR_SIZE : nat := 56.

Definition magic (d : list Z) : Z := get_le 4 d 0.
Definition e_ident (d : list Z) (i : nat) : Z := get_le 1 d i.
Definition e_entry (d : list Z) : Z := get_le 8 d 24.
Definition e_phoff (d : list Z) : Z := get_le 8 d 32.
Definition e_phnum (d : list Z) : Z := get_le 2 d 56.

Definition p_type (d : list Z) : Z := get_le 4 d 0.
Definition p_offset (d : list Z) : Z := get_le 8 d 8.
Definition p_vaddr (d : list Z) : Z := get_le 8 d 16.
Definition p_filesz (d : list Z) : Z := get_le 8 d 32.
Definition p_memsz (d : list Z) : Z := get_le 8 d 40.
Definition p_align (d : list Z) : Z := get_le 8 d 48.

(** ** The state *)

Record proc := mkproc {
  pgdir : Z;
  sz : Z;
  name : list Z;
  rip : Z;
  rsp : Z;
  rdi : Z;
  rsi : Z;
  rdx : Z;
  r10 : Z;
  r8 : Z;
  r9 : Z;
  mmap_info : list Z;
  mmap_count : Z;
  cred : Sysfile.cred;
}.

(** [cr3] is the register of the processor the call runs on. *)
Record exec := mkexec { kh : kheap; ks : File.vfs; curproc : proc; cr3 : Z }.

Definition set_kh v (s : exec) : exec := mkexec v (ks s) (curproc s) (cr3 s).
Definition set_ks v (s : exec) : exec := mkexec (kh s) v (curproc s) (cr3 s).
Definition set_curproc v (s : exec) : exec := mkexec (kh s) (ks s) v (cr3 s).
Definition set_cr3 v (s : exec) : exec := mkexec (kh s) (ks s) (curproc s) v.

Abbreviation X := (M exec).

Definition onh {A} (m : K A) : X A := zoom kh set_kh m.
Definition onv {A} (m : File.VFS A) : X A := zoom ks set_ks m.
Definition onf {A} (m : Fs.FS A) : X A := onv (File.onfs m).

(** The return value of an error; 0 stands for [-ENOEXEC] at the end. *)
Definition bad_result (return_errno : Z) : Z := if return_errno =? 0 then - ENOEXEC else return_errno.

Section exec.
Variables kernel_end available_memory : Z.

(** The process, what is on the stack where [elf], [ph] and a [struct dirent]
    are declared, and the devices. *)
Context (self : nat) (elf0 ph0 de : list Z) (kpdpt : Z) (parent_cred : option Sysfile.cred).
Context (dev_close : Z → option (Z → File.VFS Z)).
Context (dev_read : Z → option (Z → nat → Z → Fs.FS (Z * list Z))).

Abbreviation allocuvm := (allocuvm kernel_end available_memory).
Abbreviation freevm := (freevm kernel_end available_memory).

(** ** Loading a segment (kernel/vm.c) *)

Fixpoint load_loop (fuel : nat) (d addr : Z) (ip : nat) (offset n i : Z) : X Z :=
  if n <=? i then mret 0
  else
    match fuel with
    | O => fail EFuel
    | S fuel =>
        pte ← onh (walkpgdir d (u64 (addr + i)) false);
        if pte =? 0 then panic "loaduvm: address should exist"
        else
          e ← onh (load pte);
          let m := if n - i <? PGSIZE then n - i else PGSIZE in
          '(r, bs) ← onf (Fs.inode_read dev_read ip (s64 (offset + i)) m);
          _ ← onh (store_bytes (p2v (PTE_ADDR e)) bs);
          if negb (u64 r =? m) then mret (-1)
          else load_loop fuel d addr ip offset n (i + PGSIZE)
    end.

Definition loaduvm (d addr : Z) (ip : nat) (offset n : Z) : X Z :=
  if negb (addr mod PGSIZE =? 0) then panic "loaduvm: addr must be page aligned"
  else load_loop (npages 0 n) d addr ip offset n 0.

(** ** The program headers *)

(** What to do with one header: skip it, refuse it, or load it; the remainder
    by an alignment of 0 is undefined. *)
Inductive verdict := Skip | Refuse | Load.

Definition judge (ph : list Z) : X verdict :=
  if negb (p_type ph =? PT_LOAD) then mret Skip
  else if p_memsz ph =? 0 then mret Skip
  else if p_align ph =? 0 then fail EFault
  else if negb (p_vaddr ph mod p_align ph =? p_offset ph mod p_align ph) then mret Refuse
  else if p_memsz ph <? p_filesz ph then mret Refuse
  else if u64 (p_vaddr ph + p_memsz ph) <? p_vaddr ph then mret Refuse
  else mret Load.

(** The size of the image, or the error number; [ph] keeps the bytes of the
    last header where a read is short. *)
Fixpoint load_segments (k : nat) (d : Z) (ip : nat) (ph : list Z) (off size : Z) : X (Z + Z) :=
  match k with
  | O => mret (inr size)
  | S k =>
      '(r, bs) ← onf (Fs.inode_read dev_read ip (s64 off) PHDR_SIZE);
      let ph := put_bytes ph 0 bs in
      if r <? 0 then mret (inl (s32 r))
      else
        v ← judge ph;
        match v with
        | Skip => load_segments k d ip ph (u64 (off + PHDR_SIZE)) size
        | Refuse => mret (inl 0)
        | Load =>
            size ← onh (allocuvm d size (u64 (p_vaddr ph + p_memsz ph)));
            if size =? 0 then mret (inl (- Vm.ENOMEM))
            else
              r ← loaduvm d (p_vaddr ph) ip (s64 (p_offset ph)) (p_filesz ph);
              if r <? 0 then mret (inl r)
              else load_segments k d ip ph (u64 (off + PHDR_SIZE)) size
        end
  end.

(** ** The stack *)

(** The words of [ustack], an array on the kernel stack. *)
Definition USTACK_WORDS : Z := 3 + MAXARG + MAXENV + 1.
Definition ustack_index (i : Z) : K unit := if i <? USTACK_WORDS then mret tt else fail EFault.

(** The strings go on the stack one below the other, each at a multiple of 8;
    their addresses are stored in [ustack] from [idx] on, and a null pointer
    behind them.  The result is the error, or the addresses and the stack
    pointer. *)
Fixpoint push_user_stack (d : Z) (vec : list (list Z)) (idx count sp : Z) : K (Z + list Z * Z) :=
  match vec with
  | [] => _ ← ustack_index (idx + count); mret (inr ([], sp))
  | s :: vec =>
      if MAXARG <=? count then mret (inl (- E2BIG))
      else
        let sp := Z.land (u64 (sp - (length s + 1))) (u64 (Z.lnot 7)) in
        r ← copyout d sp (s ++ [0]);
        if r <? 0 then mret (inl r)
        else
          _ ← ustack_index (idx + count);
          o ← push_user_stack d vec idx (count + 1) sp;
          match o with
          | inl e => mret (inl e)
          | inr (ps, sp') => mret (inr (sp :: ps, sp'))
          end
  end.

(** [ustack]: a fake return address, [argc], [argv], [envp], and the two
    vectors, each ended by a null pointer. *)
Definition ustack (argvs envs : list Z) (sp : Z) : list Z :=
  let argv_size := Z.of_nat (length argvs) + 1 in
  let envc_size := Z.of_nat (length envs) + 1 in
  [0xffffffff; Z.of_nat (length argvs); u64 (sp - u32 (argv_size + envc_size) * 8); u64 (sp - envc_size * 8)] ++
  argvs ++ [0] ++ envs ++ [0].

Definition set_args (u : list Z) (p : proc) : proc :=
  mkproc (pgdir p) (sz p) (name p) (rip p) (rsp p) (u !!! 1%nat) (u !!! 2%nat) (u !!! 3%nat) (r10 p) (r8 p) (r9 p)
    (mmap_info p) (mmap_count p) (cred p).

(** The part of a path behind the last slash. *)
Fixpoint last_element (last s : list Z) : list Z :=
  match s with
  | [] => last
  | c :: s => if c =? Fs.SLASH then last_element s s else last_element last s
  end.

(** [__safestrcpy] into the 16 bytes of [name]. *)
Definition set_name (old path : list Z) : list Z :=
  put_bytes old 0 (take 15 (last_element path path ++ [0]) ++ [0]).

Definition ROUND_UP (x round_to : Z) : Z := u64 (u64 (x + (round_to - 1)) / round_to * round_to).

(** The process after the switch to the new image. *)
Definition commit (path : list Z) (d size entry sp : Z) (p : proc) : proc :=
  mkproc d size (set_name (name p) path) entry (u64 (ROUND_UP sp 16 - 8)) (rdi p) (rsi p) (rdx p) (r10 p) (r8 p) (r9 p)
    (replicate (length (mmap_info p)) 0) 0 (default (cred p) parent_cred).

(** Files that are marked are closed; their descriptors stay. *)
Fixpoint close_marked (l : list (option nat)) : X unit :=
  match l with
  | [] => mret tt
  | None :: l => close_marked l
  | Some f :: l =>
      x ← onv (File.the_file f);
      _ ← (if (0 <? File.ref x) && (File.flags x =? Sysfile.O_CLOEXEC)
           then _ ← onv (File.vfs_close dev_close f); mret tt else mret tt);
      close_marked l
  end.

(** ** The call *)

(** The checks of the header; the magic number and four bytes of [e_ident]. *)
Definition elf_ok (elf : list Z) : bool :=
  (magic elf =? ELF_MAGIC_NUMBER) && (e_ident elf EI_CLASS =? ELFCLASS64) && (e_ident elf EI_DATA =? ELFDATA2LSB) &&
  ((e_ident elf EI_OSABI =? ELFOSABI_SYSV) || (e_ident elf EI_OSABI =? ELFOSABI_LINUX)) &&
  (e_ident elf EI_VERSION =? EV_CURRENT).

Definition may_execute (n : Fs.inode) : bool :=
  S_HASPERM (Fs.mode (Fs.di n)) S_IXUSR ||
  (S_HASPERM (Fs.mode (Fs.di n)) S_IXGRP && negb (Z.land (Fs.gid (Fs.di n)) 1 =? 0)).

(** Everything after the segments: the stack, the arguments and the switch.
    [ip] is no longer held. *)
Definition enter (path : list Z) (argv envp : list (list Z)) (d entry size : Z) : X Z :=
  let bad e := _ ← onh (freevm d); mret (bad_result e) in
  let size := PGROUNDUP size in
  size ← onh (allocuvm d size (u64 (size + 4 * PGSIZE)));
  if size =? 0 then bad (- Vm.ENOMEM)
  else
    _ ← onh (clearpteu d (u64 (size - 4 * PGSIZE)));
    _ ← onh (clearpteu d 0);
    a ← onh (push_user_stack d argv 4 0 size);
    match a with
    | inl _ => bad (- Vm.EFAULT)
    | inr (argvs, sp) =>
        b ← onh (push_user_stack d envp (length argvs + 4 + 1) 0 sp);
        match b with
        | inl _ => bad (- Vm.EFAULT)
        | inr (envs, sp) =>
            let u := ustack argvs envs sp in
            _ ← modify (λ s, set_curproc (set_args u (curproc s)) s);
            let sp := u64 (sp - 8 * length u) in
            r ← onh (copyout d sp (concat (le_bytes 8 <$> u)));
            if r <? 0 then bad (- Vm.EFAULT)
            else
              oldpgdir ← gets (λ s, pgdir (curproc s));
              _ ← modify (λ s, set_curproc (commit path d size entry sp (curproc s)) s);
              l ← onv (gets (File.my_ofile self));
              _ ← close_marked l;
              v ← onh (uvm_cr3 d);
              _ ← modify (set_cr3 v);
              _ ← onh (freevm oldpgdir);
              mret 0
        end
    end.

(** The label [bad] while [ip] is held. *)
Definition bad (ip : nat) (e : Z) : X Z :=
  _ ← onf (Fs.inode_unlockput ip);
  _ ← onv File.end_op;
  mret (bad_result e).

(** From the check of the header on. *)
Definition load_program (path : list Z) (argv envp : list (list Z)) (ip : nat) (elf : list Z) : X Z :=
  d ← onh (setupkvm kpdpt);
  if d =? 0 then bad ip (- Vm.ENOMEM)
  else
    o ← load_segments (Z.to_nat (e_phnum elf)) d ip ph0 (e_phoff elf) 0;
    match o with
    | inl e => _ ← onh (freevm d); bad ip e
    | inr size =>
        _ ← onf (Fs.inode_unlockput ip);
        _ ← onv File.end_op;
        enter path argv envp d (e_entry elf) size
    end.

Definition execve (path : list Z) (argv envp : list (list Z)) : X Z :=
  _ ← onv File.begin_op;
  o ← onv (File.namei_with_fd self de dev_read File.AT_FDCWD path);
  match o with
  | None => _ ← onv File.end_op; mret (- File.ENOENT)
  | Some ip =>
      _ ← onf (Fs.inode_lock ip);
      n ← onf (Fs.the_inode ip);
      if negb (may_execute n) then
        _ ← onv File.end_op;
        _ ← onf (Fs.inode_unlockput ip);
        mret (- EACCES)
      else
        '(r, bs) ← onf (Fs.inode_read dev_read ip 0 EHDR_SIZE);
        let elf := put_bytes elf0 0 bs in
        if r <? 0 then bad ip (s32 r)
        else if negb (elf_ok elf) then bad ip 0
        else load_program path argv envp ip elf
  end.

End exec.
End Exec.
