(* ===== verification/ExecSpace.v ===== *)
(** * The user's view of an address space under construction

    What [execve] needs of Vm.v, stated for the memory as user code sees it: a
    size, which pages it may access, and a byte at every address below the
    size.  Each lemma also says that the other address spaces stay. *)

From S2P Require Import Prelude Words Heap HeapAlloc Kalloc Vm VmTable VmMap VmUser VmSpace VmCopy.

Module ExecSpace.
Import Heap HeapAlloc Kalloc Vm VmTable VmMap VmUser VmSpace VmCopy.

(** The bytes [l] at [va], over [B]. *)
Definition overlay (B : Z → Z) (va : Z) (l : list Z) (x : Z) : Z :=
  if decide (va ≤ x < va + length l) then default 0 (l !! Z.to_nat (x - va)) else B x.

Definition belongs (d : Z) (r : role) : Prop :=
  match r with RTable d' _ | RFrame d' _ => d' = d | _ => False end.

Section space.
Context (kernel_end available_memory : Z).

Abbreviation tables := (tables kernel_end available_memory).
Abbreviation present h d x := (has (pte h d x) PTE_P = true).
Abbreviation bytes_ok l := (Forall (λ b, 0 ≤ b < 256) l).

Implicit Types (h : kheap) (G : gmap Z role).

(** The pages below [top] are mapped, accessible where [U] says so, and hold
    the bytes [B]. *)
Record uspace h G (d top : Z) (U : Z → bool) (B : Z → Z) : Prop := {
  us_tables : tables h G;
  us_dir : G !! d = Some RDir;
  us_frames : frames h G d;
  us_top : 0 ≤ top ≤ USERTOP;
  us_in x : 0 ≤ x < top → present h d x ∧ user_ok h d x = U x ∧ user_byte h d x = B x;
  us_out x : top ≤ x < UTOP → pte h d x = 0;
}.

(** Pages and address spaces that are not part of [d] stay. *)
Record apart (d : Z) G h G' h' : Prop := {
  ap_roles p r : G !! p = Some r → r ≠ RFree → ¬ belongs d r → G' !! p = Some r;
  ap_ptes d' x : G !! d' = Some RDir → d' ≠ d → 0 ≤ x < UTOP → pte h' d' x = pte h d' x;
  ap_pages p r : G !! p = Some r → plain r → ¬ belongs d r → page_same (words h) (words h') p;
  ap_back p d' n : G' !! p = Some (RFrame d' n) → d' ≠ d → G !! p = Some (RFrame d' n);
}.

Lemma apart_refl d G h : apart d G h G h.
Proof. split; [done|done| |done]. intros. apply page_same_refl. Qed.

Lemma apart_trans d G1 h1 G2 h2 G3 h3 : apart d G1 h1 G2 h2 → apart d G2 h2 G3 h3 → apart d G1 h1 G3 h3.
Proof.
  intros [A1 A2 A3 A4] [B1 B2 B3 B4]. split.
  - intros p r Hp Hr Hb. apply B1; [by apply A1|done|done].
  - intros d' x Hd' Hne Hx. rewrite B2; [by apply A2| |done|done]. by apply A1; [..|intros []].
  - intros p r Hp Hr Hb. eapply page_same_trans; [by eapply A3|]. apply (B3 p r); [|done|done].
    apply A1; [done|by intros ->|done].
  - intros p d' n Hp Hne. apply A4; [by apply B4|done].
Qed.

(** Another address space is seen unchanged. *)
Lemma apart_user d G h G' h' d' x :
  apart d G h G' h' → G !! d' = Some RDir → d' ≠ d → frames h G d' → 0 ≤ x < UTOP →
  user_ok h' d' x = user_ok h d' x ∧ (present h d' x → user_byte h' d' x = user_byte h d' x).
Proof.
  intros [A1 A2 A3 _] Hd' Hne Hfr Hx. unfold user_ok, user_byte, frame_of. rewrite A2 by done. split; [done|]. intros Hpr.
  pose proof (fr_own _ _ _ Hfr x Hx Hpr) as Hf. unfold page_byte. unfold frame_of in Hf.
  rewrite (A3 _ _ Hf); [done|done|by intros ->|]. pose proof (Z.mod_pos_bound x 4096 ltac:(done)).
  split; [apply Z.div_pos; lia|apply Z.div_lt_upper_bound; lia].
Qed.

Lemma uspace_ext h G d top U U' B B' :
  uspace h G d top U B → (∀ x, 0 ≤ x < top → U x = U' x) → (∀ x, 0 ≤ x < top → B x = B' x) → uspace h G d top U' B'.
Proof.
  intros [H1 H2 H3 H4 H5 H6] HU HB. split; try done. intros x Hx. rewrite <- HU, <- HB by done. by apply H5.
Qed.

Lemma usertop_page a : a ≤ USERTOP → page_up a ≤ USERTOP.
Proof.
  intros H. destruct (page_up_ok a) as [Hm Hb]. apply Z.mod_divide in Hm as [k Hk]; [|done].
  change USERTOP with (121344 * 4096) in *. lia.
Qed.

(** ** Growing *)

Lemma uspace_grow h G d top U B oldsz newsz h' G' :
  uspace h G d top U B → top = page_up oldsz → 0 ≤ oldsz ≤ newsz → newsz ≤ USERTOP →
  filled kernel_end available_memory h G d top user_flags zeroes (npages top newsz) 0 h' G' →
  uspace h' G' d (page_up newsz) (λ x, if decide (x < top) then U x else true) (λ x, if decide (x < top) then B x else 0).
Proof.
  intros [Htb Hd Hfr Ht Hin Hout] Etop Hsz Hnew Hf. destruct (page_up_ok oldsz) as [Hal Hb]. destruct (page_up_ok newsz) as [Hal' Hb'].
  assert (USERTOP < UTOP) as HU by done. pose proof (usertop_page newsz Hnew) as Hnt.
  pose proof (npages_bounds top newsz) as [Hk1 Hk2]. set (k := npages top newsz) in *.
  assert (top + k * 4096 = page_up newsz) as Erun.
  { rewrite <- Etop in *. apply Z.mod_divide in Hal as [u Hu]; [|done]. apply Z.mod_divide in Hal' as [v Hv]; [|done].
    destruct (decide (top < newsz)) as [Hlt|Hge]; [lia|].
    assert (k = 0%nat) as ->; [|lia]. unfold k, npages. rewrite Z.div_small; [done|]. unfold PGSIZE. lia. }
  pose proof Hf as [F1 F2 F3 F4 F5 F6 F7]. split; try done.
  - by eapply fi_keep.
  - lia.
  - intros x Hx. destruct (decide (x < top)) as [Hlt|Hge].
    + destruct (Hin x ltac:(lia)) as (Hpr & Hu & HB). assert (pte h' d x = pte h d x) as Ep.
      { apply F6; [done|lia|]. unfold in_run. lia. }
      unfold user_ok, user_byte, frame_of in *. rewrite Ep. split_and!; [done|done|]. rewrite <- HB. unfold page_byte.
      pose proof (fr_own _ _ _ Hfr x ltac:(lia) Hpr) as Hfo. unfold frame_of in Hfo. rewrite (F4 _ _ Hfo); [done|done|].
      pose proof (Z.mod_pos_bound x 4096 ltac:(done)). split; [apply Z.div_pos; lia|apply Z.div_lt_upper_bound; lia].
    + destruct (filled_zero _ _ _ _ _ _ _ _ _ _ x Hf) as (Hpr & Hu & HB & _); [unfold in_run, PGSIZE; lia|]. done.
  - intros x Hx. rewrite F6; [apply Hout; lia|done|lia|]. unfold in_run, PGSIZE. lia.
Qed.

Lemma filled_apart h G d top fl c m h' G' :
  filled kernel_end available_memory h G d top fl c m 0 h' G' → apart d G h G' h'.
Proof.
  intros Hf. pose proof Hf as [F1 F2 F3 F4 F5 F6 F7]. split.
  - intros p r Hp Hr _. by eapply fi_keep.
  - intros d' x Hd' Hne Hx. apply F6; [done|done|tauto].
  - intros p r Hp Hr _. by eapply F4.
  - intros p d' n Hp Hne. destruct (F3 p) as [<-|[_ [[i E]|[(n' & E & _)|[E _]]]]]; [done|congruence..].
Qed.

Lemma uspace_alloc h G d top U B oldsz newsz :
  uspace h G d top U B → top = page_up oldsz → 0 ≤ oldsz ≤ newsz → newsz ≤ USERTOP →
  ∃ r h' G', allocuvm kernel_end available_memory d oldsz newsz h = Ok (r, h') ∧ apart d G h G' h' ∧
    ((r = newsz ∧ uspace h' G' d (page_up newsz) (λ x, if decide (x < top) then U x else true)
        (λ x, if decide (x < top) then B x else 0)) ∨
     (r = 0 ∧ uspace h' G' d top U B)).
Proof.
  intros Hus Etop Hsz Hnew. pose proof Hus as [Htb Hd Hfr Ht Hin Hout]. assert (USERTOP < UTOP) as HU by done.
  destruct (allocuvm_ok kernel_end available_memory h G d oldsz newsz Hd Hsz ltac:(lia)) as (r & h' & G' & E & Hr); [|done|done|].
  { intros x Hx. apply Hout. lia. }
  exists r, h', G'. split; [done|]. rewrite <- Etop in Hr.
  destruct Hr as [[-> Hf]|[-> Hf]]; (split; [by eapply filled_apart|]); [left|right]; (split; [done|]).
  - by eapply (uspace_grow h G d top U B oldsz).
  - pose proof Hf as [F1 F2 F3 F4 F5 F6 F7]. split; try done.
    + by eapply fi_keep.
    + intros x Hx. destruct (Hin x Hx) as (Hpr & Hu & HB). assert (pte h' d x = pte h d x) as Ep.
      { apply F6; [done|lia|]. unfold in_run. lia. }
      unfold user_ok, user_byte, frame_of in *. rewrite Ep. split_and!; [done|done|]. rewrite <- HB. unfold page_byte.
      pose proof (fr_own _ _ _ Hfr x ltac:(lia) Hpr) as Hfo. unfold frame_of in Hfo. rewrite (F4 _ _ Hfo); [done|done|].
      pose proof (Z.mod_pos_bound x 4096 ltac:(done)). split; [apply Z.div_pos; lia|apply Z.div_lt_upper_bound; lia].
    + intros x Hx. rewrite F6; [by apply Hout|done|lia|]. unfold in_run. lia.
Qed.

(** ** Writing *)

Lemma uspace_written h h' G d top U B va l n :
  uspace h G d top U B → written kernel_end available_memory G h h' d va l n → n = length l →
  uspace h' G d top U (overlay B va l) ∧ apart d G h G h'.
Proof.
  intros [Htb Hd Hfr Ht Hin Hout] [W1 W2 W3 W4 W5] ->. assert (USERTOP < UTOP) as HU by done. split; split; try done.
  - eapply (same_ptes_frames h h' G G); done.
  - intros x Hx. destruct (Hin x Hx) as (Hpr & Hu & HB). unfold user_ok in *. rewrite (W2 d x) by (done || lia).
    split; [done|]. split; [done|]. rewrite W4 by (done || lia). unfold overlay. by rewrite HB.
  - intros x Hx. rewrite (W2 d x) by (done || lia). by apply Hout.
  - intros d' x Hd' Hne Hx. by apply W2.
  - intros p r Hp Hr Hb. apply (W5 p r Hp). intros n ->. by apply Hb.
Qed.

(** [copyout] to accessible pages. *)
Lemma uspace_copyout h G d top U B va l :
  uspace h G d top U B → bytes_ok l → 0 ≤ va → va + length l ≤ top → (∀ x, va ≤ x < va + length l → U x = true) →
  ∃ h', copyout d va l h = Ok (0, h') ∧ uspace h' G d top U (overlay B va l) ∧ apart d G h G h'.
Proof.
  intros Hus Hl Hva Htop HU. pose proof Hus as [Htb Hd Hfr Ht Hin Hout]. assert (USERTOP < UTOP) by done.
  destruct (copyout_loop_ok kernel_end available_memory (length l) h G d va l) as (r & h' & n & E & Hn & Hw & Hr & _); try done; [lia|].
  exists h'. destruct Hr as [[-> ->]|(_ & Hlt & Hno)].
  - split; [exact E|]. by eapply uspace_written.
  - exfalso. destruct (Hin (va + n) ltac:(lia)) as (_ & Hok & _). rewrite HU in Hok by lia. congruence.
Qed.

(** ** Taking a page from the user *)

Lemma has_clear e : has (Z.land e (u64 (Z.lnot PTE_U))) PTE_U = false ∧ has (Z.land e (u64 (Z.lnot PTE_U))) PTE_P = has e PTE_P.
Proof.
  unfold has. rewrite <- !Z.land_assoc. change (Z.land (u64 (Z.lnot PTE_U)) PTE_U) with 0.
  change (Z.land (u64 (Z.lnot PTE_U)) PTE_P) with PTE_P. rewrite Z.land_0_r. done.
Qed.

Lemma addr_clear e : PTE_ADDR (Z.land e (u64 (Z.lnot PTE_U))) = PTE_ADDR e.
Proof. unfold PTE_ADDR. by rewrite <- Z.land_assoc. Qed.

(** Frames do not depend on the other bits of an entry. *)
Lemma frames_same h h' G d :
  (∀ x, 0 ≤ x < UTOP → has (pte h' d x) PTE_P = has (pte h d x) PTE_P ∧ frame_of h' d x = frame_of h d x) →
  frames h G d → frames h' G d.
Proof.
  intros Hs [F1 F2]. split.
  - intros x Hx Hpr. destruct (Hs x Hx) as [E1 E2]. rewrite E2. apply F1; [done|by rewrite <- E1].
  - intros f n Hf. destruct (F2 f n Hf) as (Hn & Hn' & Hpr & Hfo). destruct (Hs (n * 4096) ltac:(lia)) as [E1 E2].
    rewrite E1, E2. done.
Qed.

Lemma uspace_clear h G d top U B va :
  uspace h G d top U B → 0 ≤ va < top →
  ∃ h', clearpteu d va h = Ok (tt, h') ∧ apart d G h G h' ∧
    uspace h' G d top (λ x, if decide (x / 4096 = va / 4096) then false else U x) B.
Proof.
  intros [Htb Hd Hfr Ht Hin Hout] Hva. assert (USERTOP < UTOP) as HU by done.
  unfold clearpteu, clear_pte_mask. rewrite (bind_run _ _ _ _ _ (walk_run _ _ h G Htb d va Hd ltac:(lia))).
  destruct (Hin va Hva) as (Hpr & _ & _). unfold pte in Hpr. destruct (pte_loc h d va) as [t|] eqn:Hl; [|done].
  assert (G !! t = Some (RTable d (PDX va))) as HGt by (apply (pte_loc_Some _ _ h G Htb); [done|lia|done]).
  rewrite (proj2 (Z.eqb_neq _ _)) by (by eapply entry_nonnull).
  destruct (page_cell _ _ h G Htb t _ (PTX va) HGt (ptx_range va)) as [e He]. rewrite He in Hpr.
  rewrite (bind_run _ _ _ _ _ (load_run _ _ _ He)), store_run by (unfold cell in He; by rewrite He).
  set (v := Z.land e _). change (set_words _ h) with (with_pte h t (PTX va) v).
  pose proof (with_pte_pte _ _ h G d (PDX va) t Htb HGt (PTX va) v) as Hp. pose proof (ptx_range va) as Hj.
  assert (∀ x, 0 ≤ x < UTOP → pte (with_pte h t (PTX va) v) d x = if decide (x / 4096 = va / 4096) then v else pte h d x) as Hpd.
  { intros x Hx. rewrite Hp by done. apply decide_ext. rewrite <- (same_entry_iff va x) by lia. tauto. }
  assert (∀ x, x / 4096 = va / 4096 → pte h d x = e) as Hpe.
  { intros x Hx. rewrite (pte_page h d x va Hx). unfold pte. by rewrite Hl, He. }
  destruct (has_clear e) as [Hc1 Hc2].
  assert (∀ x, 0 ≤ x < UTOP → has (pte (with_pte h t (PTX va) v) d x) PTE_P = has (pte h d x) PTE_P ∧
    frame_of (with_pte h t (PTX va) v) d x = frame_of h d x) as Hs.
  { intros x Hx. unfold frame_of. rewrite Hpd by done. case_decide as E; [|done]. rewrite (Hpe x E). unfold v.
    by rewrite Hc2, addr_clear. }
  assert (keeps_pages G h (with_pte h t (PTX va) v)) as Hk by (by eapply with_pte_keeps).
  eexists. split; [reflexivity|]. split; split; try done.
  - intros d' x Hd' Hne Hx. rewrite Hp by done. by rewrite decide_False by tauto.
  - intros p r Hp' Hr _. by eapply Hk.
  - by eapply with_pte_tables.
  - by eapply frames_same.
  - intros x Hx. destruct (Hin x Hx) as (Hprx & Hux & HBx). destruct (Hs x ltac:(lia)) as [E1 E2]. rewrite E1.
    split; [done|]. split.
    + unfold user_ok. rewrite E1. rewrite Hpd by lia. case_decide as E; [|done]. unfold v. by rewrite Hc1, andb_false_r.
    + unfold user_byte. rewrite E2. rewrite <- HBx. unfold user_byte, page_byte.
      pose proof (fr_own _ _ _ Hfr x ltac:(lia) Hprx) as Hfo. rewrite (Hk _ _ Hfo); [done|done|].
      pose proof (Z.mod_pos_bound x 4096 ltac:(done)). split; [apply Z.div_pos; lia|apply Z.div_lt_upper_bound; lia].
  - intros x Hx. rewrite Hpd by lia. rewrite decide_False; [by apply Hout|]. intros E.
    specialize (Hpe x E). rewrite (Hout x Hx) in Hpe. by rewrite <- Hpe in Hpr.
Qed.

(** ** Other address spaces *)

Lemma byte_kept h h' G d x :
  frames h G d → 0 ≤ x < UTOP → present h d x → pte h' d x = pte h d x →
  (∀ f n, G !! f = Some (RFrame d n) → page_same (words h) (words h') f) → user_byte h' d x = user_byte h d x.
Proof.
  intros Hfr Hx Hpr Ep Hk. unfold user_byte, frame_of. rewrite Ep. pose proof (fr_own _ _ _ Hfr x Hx Hpr) as Hf.
  unfold frame_of in Hf. unfold page_byte. rewrite (Hk _ _ Hf); [done|].
  pose proof (Z.mod_pos_bound x 4096 ltac:(done)). split; [apply Z.div_pos; lia|apply Z.div_lt_upper_bound; lia].
Qed.

(** An address space whose entries, frames and pages are as they were. *)
Lemma uspace_kept h h' G G' d top U B :
  uspace h G d top U B → tables h' G' → G' !! d = Some RDir → (∀ x, 0 ≤ x < UTOP → pte h' d x = pte h d x) →
  (∀ f n, G' !! f = Some (RFrame d n) ↔ G !! f = Some (RFrame d n)) →
  (∀ f n, G !! f = Some (RFrame d n) → page_same (words h) (words h') f) → uspace h' G' d top U B.
Proof.
  intros [Htb Hd Hfr Ht Hin Hout] Htb' Hd' Hp HG Hk. assert (USERTOP < UTOP) as HU by done. split; try done.
  - destruct Hfr as [F1 F2]. split.
    + intros x Hx. unfold frame_of. rewrite Hp by done. intros Hpr. apply HG. by apply F1.
    + intros f n Hf. apply HG, F2 in Hf as (Hn & Hn' & Hpr & Hfo). unfold frame_of in *. by rewrite Hp by lia.
  - intros x Hx. destruct (Hin x Hx) as (Hpr & Hu & HB). pose proof (Hp x ltac:(lia)) as Ep. unfold user_ok in *. rewrite Ep.
    split; [done|]. split; [done|]. rewrite <- HB. eapply byte_kept; try done. lia.
  - intros x Hx. rewrite Hp by lia. by apply Hout.
Qed.

Lemma apart_uspace d h G h' G' d' top U B :
  apart d G h G' h' → tables h' G' → d' ≠ d → uspace h G d' top U B → uspace h' G' d' top U B.
Proof.
  intros [A1 A2 A3 A4] Htb' Hne Hus. pose proof Hus as [_ Hd' _ _ _ _]. eapply uspace_kept; try done.
  - by apply A1; [..|intros []].
  - intros x Hx. by apply A2.
  - intros f n. split; [intros Hf; by apply A4|]. intros Hf. by apply A1.
  - intros f n Hf. by apply (A3 f _ Hf).
Qed.

(** ** Giving it back *)

Lemma uspace_free h G d top U B :
  uspace h G d top U B →
  ∃ h', freevm kernel_end available_memory d h = Ok (tt, h') ∧ tables h' (reclaimed d G) ∧ others_kept G (reclaimed d G) h h' d.
Proof.
  intros [Htb Hd Hfr Ht Hin Hout]. apply freevm_ok; try done. intros f n Hf.
  destruct (fr_entry _ _ _ Hfr f n Hf) as (Hn & Hn' & Hpr & _). destruct (decide (n * 4096 < top)); [lia|].
  rewrite Hout in Hpr by lia. done.
Qed.

(** What is left after [d] is gone. *)
Lemma reclaimed_role d G p r : G !! p = Some r → p ≠ d → ¬ belongs d r → reclaimed d G !! p = Some r.
Proof.
  intros Hp Hne Hb. unfold reclaimed. rewrite lookup_insert_ne, lookup_fmap, Hp by done. cbn. f_equal.
  destruct r; cbn in *; try done; by rewrite decide_False.
Qed.

Lemma reclaimed_frame d G p d' n : reclaimed d G !! p = Some (RFrame d' n) → d' ≠ d ∧ G !! p = Some (RFrame d' n).
Proof.
  unfold reclaimed. rewrite lookup_insert. case_decide; [done|]. rewrite lookup_fmap. destruct (G !! p) as [r|]; [|done]. cbn.
  intros [= E]. destruct r as [| |d1 i|d1 m|]; cbn in E; try done; case_decide; try done. by injection E as -> ->.
Qed.

Lemma free_uspace h G d h' d' top U B :
  G !! d = Some RDir → tables h' (reclaimed d G) → others_kept G (reclaimed d G) h h' d → d' ≠ d →
  uspace h G d' top U B → uspace h' (reclaimed d G) d' top U B.
Proof.
  intros Hd Htb' (_ & Hp & Hk) Hne Hus. pose proof Hus as [Htb Hd' Hfr _ _ _].
  assert (∀ f n, G !! f = Some (RFrame d' n) → reclaimed d G !! f = Some (RFrame d' n)) as HG.
  { intros f n Hf. apply reclaimed_role; [done| |done]. intros ->. congruence. }
  eapply uspace_kept; try done.
  - by apply reclaimed_role; [..|intros []].
  - intros x Hx. by apply Hp.
  - intros f n. split; [|apply HG]. by intros [_ Hf]%reclaimed_frame.
  - intros f n Hf. apply (Hk f (RFrame d' n)); [by apply HG|done].
Qed.

(** A new address space is empty. *)
Lemma fresh_uspace kp d p4 p3 h G h1 G1 :
  owned G → fresh_space kernel_end available_memory kp d p4 p3 G h1 G1 → same_ptes G h h1 → keeps_pages G h h1 →
  uspace h1 G1 d 0 (λ _, true) (λ _, 0) ∧ apart d G h G1 h1 ∧ (∀ d', G !! d' = Some RDir → d' ≠ d).
Proof.
  intros Hown [HR (F4 & F3 & Fd) (N1 & N2 & N3) Htb He _ _ _] Hp Hk.
  assert (∀ p r, G !! p = Some r → r ≠ RFree → G1 !! p = Some r) as Hkeep.
  { intros p r Hpr Hr. rewrite HR. rewrite !lookup_insert_ne; [done|..]; congruence. }
  assert (∀ p d' n, G1 !! p = Some (RFrame d' n) → G !! p = Some (RFrame d' n)) as Hback.
  { intros p d' n. rewrite HR. rewrite !lookup_insert. repeat case_decide; done. }
  split_and!.
  - split; [done|by rewrite HR, lookup_insert_eq| |done|lia|].
    + split.
      * intros x Hx Hpr. by rewrite He in Hpr.
      * intros f n Hf. apply Hback, Hown in Hf. congruence.
    + intros x Hx. apply He. lia.
  - split; [by intros; apply Hkeep| | |by intros; apply Hback].
    + intros d' x Hd' _ Hx. by apply Hp.
    + intros p r Hpr Hr _. by eapply Hk.
  - intros d' Hd' ->. congruence.
Qed.

End space.
End ExecSpace.
