(* ===== verification/ExecLoad.v ===== *)
(** * Loading the segments of a program

    [loaduvm] and the loop of [execve] over the program headers, for a file
    whose contents are known: the memory of the new address space is the image
    the headers describe. *)

From S2P Require Import Prelude Mem Words Block Bio Log CType KString Heap HeapAlloc Kalloc Vm VmTable VmMap VmUser VmSpace VmCopy.
From S2P Require Import Fs FsBlock FsTree FsFile RingBuf Pipe File Sysfile Exec ExecSpace.

Module ExecLoad.
Import Heap Kalloc Vm VmTable VmMap VmUser VmSpace VmCopy Exec ExecSpace.

Section load.
Context (kernel_end available_memory : Z) (dev_read : Z → option (Z → nat → Z → Fs.FS (Z * list Z))).

Abbreviation uspace := (uspace kernel_end available_memory).
Abbreviation loaduvm := (loaduvm dev_read).
Abbreviation load_loop := (load_loop dev_read).
Abbreviation bytes_ok l := (Forall (λ b, 0 ≤ b < 256) l).

Implicit Types (s : exec) (G : gmap Z role).

(** The file the program is read from. *)
Definition program s (ip : nat) (c : list Z) : Prop := (∃ n, FsFile.file (File.fsys (ks s)) ip c n) ∧ bytes_ok c.

Lemma program_kh s ip c h : program s ip c → program (set_kh h s) ip c.
Proof. done. Qed.

Lemma program_short s ip c : program s ip c → length c < 2 ^ 62.
Proof. intros [[n Hf] _]. pose proof (FsFile.f_max _ _ _ _ Hf) as Hm. rewrite FsFile.MAXFILE_val in Hm. lia. Qed.

Lemma read_run s ip c (off n : Z) :
  program s ip c → 0 ≤ off ≤ length c → 0 ≤ n < 2 ^ 62 →
  onf (Fs.inode_read dev_read ip off n) s =
    Ok ((Z.of_nat (length (get_bytes c (Z.to_nat off) (Z.to_nat n))), get_bytes c (Z.to_nat off) (Z.to_nat n)), s).
Proof.
  intros [[nd Hf] _] Hoff Hn. unfold onf, onv, zoom, File.onfs.
  pose proof (FsFile.inode_read_run dev_read _ ip c nd (Z.to_nat off) (Z.to_nat n) Hf ltac:(lia) ltac:(lia)) as E.
  rewrite !Z2Nat.id in E by lia. rewrite E, Nat.eqb_refl, andb_false_r. by destruct s as [? []].
Qed.

Lemma onh_run {A} (m : K A) s a h' : m (kh s) = Ok (a, h') → onh m s = Ok (a, set_kh h' s).
Proof. intros E. unfold onh, zoom. by rewrite E. Qed.

Lemma overlay_app B va l1 l2 x : overlay (overlay B va l1) (va + length l1) l2 x = overlay B va (l1 ++ l2) x.
Proof.
  unfold overlay. rewrite length_app. destruct (decide (va + length l1 ≤ x < va + length l1 + length l2)).
  - rewrite decide_True by lia. rewrite lookup_app_r by lia. do 2 f_equal. lia.
  - destruct (decide (va ≤ x < va + length l1)).
    + rewrite decide_True by lia. by rewrite lookup_app_l by lia.
    + by rewrite decide_False by lia.
Qed.

Lemma overlay_nil B va x : overlay B va [] x = B x.
Proof. unfold overlay. rewrite decide_False; [done|]. cbn. lia. Qed.

(** One page of a segment. *)
Lemma load_page s G d top U B va l :
  uspace (kh s) G d top U B → 0 ≤ va < top → va mod 4096 = 0 → bytes_ok l → length l ≤ 4096 → va + length l ≤ top →
  ∃ e p h', walkpgdir d va false (kh s) = Ok (p, kh s) ∧ p ≠ 0 ∧ load p (kh s) = Ok (e, kh s) ∧
    store_bytes (p2v (PTE_ADDR e)) l (kh s) = Ok (tt, h') ∧
    uspace h' G d top U (overlay B va l) ∧ apart d G (kh s) G h'.
Proof.
  intros Hus Hva Hal Hl Hlen Hend. pose proof Hus as [Htb Hd Hfr Ht Hin Hout]. assert (USERTOP < UTOP) as HU by done.
  destruct (Hin va Hva) as (Hpr & _ & _). pose proof Hpr as Hpr'. unfold pte in Hpr. destruct (pte_loc (kh s) d va) as [t|] eqn:Hloc; [|done].
  assert (G !! t = Some (RTable d (PDX va))) as HGt by (apply (pte_loc_Some _ _ (kh s) G Htb); [done|lia|done]).
  destruct (page_cell _ _ (kh s) G Htb t _ (PTX va) HGt (ptx_range va)) as [e He].
  destruct (written_page kernel_end available_memory (kh s) G d va l) as (h' & E & Hw); try done; [lia|lia|].
  exists e, (t + 8 * PTX va), h'. split_and!.
  - rewrite (walk_run _ _ (kh s) G Htb d va Hd ltac:(lia)). by rewrite Hloc.
  - by eapply entry_nonnull.
  - by apply load_run.
  - rewrite Hal, Z.add_0_r in E. unfold frame_of, pte in E. by rewrite Hloc, He in E.
  - by eapply uspace_written.
  - by eapply uspace_written.
Qed.

Lemma get_bytes_app c a n m : get_bytes c a n ++ get_bytes c (a + n) m = get_bytes c a (n + m).
Proof. unfold get_bytes. rewrite <- drop_drop. apply take_take_drop. Qed.

Lemma load_loop_ok (fuel : nat) s G d top U B ip c addr off n i :
  uspace (kh s) G d top U B → program s ip c → 0 ≤ addr → addr mod 4096 = 0 → addr + n ≤ top →
  0 ≤ off → off + n ≤ length c → 0 ≤ i → i mod 4096 = 0 → n ≤ i + fuel * 4096 →
  ∃ h', load_loop fuel d addr ip off n i s = Ok (0, set_kh h' s) ∧
    uspace h' G d top U (overlay B (addr + i) (get_bytes c (Z.to_nat (off + i)) (Z.to_nat (n - i)))) ∧
    apart d G (kh s) G h'.
Proof.
  revert s B i. induction fuel as [|fuel IH]; intros s B i Hus Hpg Hadr Hal Hend Hoff Hlen Hi Him Hfuel; cbn [Exec.load_loop].
  all: pose proof (us_top _ _ _ _ _ _ _ _ Hus) as Ht; assert (USERTOP < 2 ^ 62) as HU by done;
    pose proof (program_short _ _ _ Hpg) as Hshort.
  all: destruct (Z.leb_spec n i) as [Hle|Hgt]; [|try lia].
  1, 2: exists (kh s); split; [by destruct s|]; split; [|apply apart_refl]; eapply uspace_ext; [exact Hus|done|];
    intros x _; replace (Z.to_nat (n - i)) with 0%nat by lia; unfold get_bytes; rewrite take_0; by rewrite overlay_nil.
  rewrite (wrap_small 64) by lia. set (m := if n - i <? PGSIZE then n - i else PGSIZE).
  assert (0 < m ≤ 4096 ∧ m ≤ n - i ∧ (m = 4096 ∨ m = n - i)) as (Hm & Hmn & Hmc).
  { unfold m, PGSIZE. destruct (Z.ltb_spec (n - i) 4096); lia. }
  set (l := get_bytes c (Z.to_nat (off + i)) (Z.to_nat m)).
  assert (length l = Z.to_nat m) as El by (apply length_get_bytes; lia).
  destruct (load_page s G d top U B (addr + i) l) as (e & p & h1 & E1 & Hp & E2 & E3 & Hus1 & Ha1); try done; [lia| | |lia|lia|].
  { by rewrite Z.add_mod, Hal, Him. }
  { apply Forall_take, Forall_drop, Hpg. }
  rewrite (bind_run _ _ _ _ _ (onh_run _ s _ _ E1)). rewrite (proj2 (Z.eqb_neq _ _)) by done.
  replace (set_kh (kh s) s) with s by (by destruct s). rewrite (bind_run _ _ _ _ _ (onh_run _ s _ _ E2)).
  replace (set_kh (kh s) s) with s by (by destruct s).
  rewrite (sx_small 64) by lia. rewrite (bind_run _ _ _ _ _ (read_run s ip c (off + i) m Hpg ltac:(lia) ltac:(lia))). fold l.
  rewrite (bind_run _ _ _ _ _ (onh_run _ s _ _ E3)). rewrite El, Z2Nat.id, wrap_small, Z.eqb_refl by lia. cbn [negb].
  destruct (IH (set_kh h1 s) (overlay B (addr + i) l) (i + 4096)) as (h2 & E & Hus2 & Ha2); try done; [lia| |lia|].
  { by rewrite Z.add_mod, Him. }
  exists h2. split; [exact E|]. split; [|by eapply apart_trans]. eapply uspace_ext; [exact Hus2|done|]. intros x _.
  destruct Hmc as [Em|Em].
  - replace (Z.to_nat (n - i)) with (Z.to_nat m + Z.to_nat (n - (i + 4096)))%nat by lia.
    rewrite <- get_bytes_app. fold l. rewrite <- overlay_app, El. rewrite Em.
    replace (addr + i + Z.to_nat 4096) with (addr + (i + 4096)) by lia. do 2 f_equal. lia.
  - replace (Z.to_nat (n - (i + 4096))) with 0%nat by lia. unfold get_bytes at 1. rewrite take_0, overlay_nil.
    unfold l. by rewrite Em.
Qed.

Lemma loaduvm_ok s G d top U B ip c addr off n :
  uspace (kh s) G d top U B → program s ip c → 0 ≤ addr → addr mod 4096 = 0 → addr + n ≤ top →
  0 ≤ off → 0 ≤ n → off + n ≤ length c →
  ∃ h', loaduvm d addr ip off n s = Ok (0, set_kh h' s) ∧
    uspace h' G d top U (overlay B addr (get_bytes c (Z.to_nat off) (Z.to_nat n))) ∧ apart d G (kh s) G h'.
Proof.
  intros Hus Hpg Hadr Hal Hend Hoff Hn Hlen. unfold Exec.loaduvm. change PGSIZE with 4096. rewrite Hal. cbn [Z.eqb negb].
  destruct (load_loop_ok (npages 0 n) s G d top U B ip c addr off n 0) as (h' & E & Hus' & Ha); try done.
  { pose proof (npages_fuel 0 n). lia. }
  exists h'. rewrite !Z.add_0_r, Z.sub_0_r in Hus'. done.
Qed.

(** ** The image *)

(** Header [i] of the table at [off] in the file [c]. *)
Definition header (c : list Z) (off : Z) (i : nat) : list Z := get_bytes c (Z.to_nat (off + PHDR_SIZE * i)) PHDR_SIZE.

Definition loads (ph : list Z) : bool := (p_type ph =? PT_LOAD) && negb (p_memsz ph =? 0).

(** A header the loader accepts, for a segment that lies in the file and below
    [limit]. *)
Record segment_ok (c : list Z) (limit : Z) (ph : list Z) : Prop := {
  sg_align : p_align ph ≠ 0;
  sg_congr : p_vaddr ph mod p_align ph = p_offset ph mod p_align ph;
  sg_page : p_vaddr ph mod 4096 = 0;
  sg_sizes : p_filesz ph ≤ p_memsz ph;
  sg_file : p_offset ph + p_filesz ph ≤ length c;
  sg_limit : p_vaddr ph + p_memsz ph ≤ limit;
}.

(** The size and the bytes after the segments of [phs]. *)
Fixpoint image_size (phs : list (list Z)) (size : Z) : Z :=
  match phs with
  | [] => size
  | ph :: phs => image_size phs (if loads ph then Z.max size (p_vaddr ph + p_memsz ph) else size)
  end.
Fixpoint image (c : list Z) (phs : list (list Z)) (B : Z → Z) : Z → Z :=
  match phs with
  | [] => B
  | ph :: phs =>
      image c phs (if loads ph then overlay B (p_vaddr ph) (get_bytes c (Z.to_nat (p_offset ph)) (Z.to_nat (p_filesz ph))) else B)
  end.

Lemma header_range w ph off : bytes_ok ph → 0 ≤ get_le w ph off < 256 ^ w.
Proof.
  intros H. unfold get_le. assert (bytes_ok (get_bytes ph off w)) as Hb by (by apply Forall_take, Forall_drop).
  pose proof (le_val_range _ Hb) as Hr. split; [lia|]. eapply Z.lt_le_trans; [apply Hr|]. apply Z.pow_le_mono_r; [lia|].
  unfold get_bytes. rewrite length_take. lia.
Qed.

Lemma judge_run s c limit ph :
  bytes_ok ph → limit < 2 ^ 64 → (loads ph = true → segment_ok c limit ph) →
  judge ph s = Ok (if loads ph then Load else Skip, s).
Proof.
  intros Hb Hlim Hok. unfold judge, loads in *. destruct (p_type ph =? PT_LOAD); [|done]. destruct (p_memsz ph =? 0); [done|]. cbn in *.
  destruct (Hok eq_refl) as [H1 H2 H3 H4 H5 H6]. rewrite (proj2 (Z.eqb_neq _ _)) by done. rewrite H2, Z.eqb_refl. cbn [negb].
  rewrite (proj2 (Z.ltb_ge (p_memsz ph) _)) by done.
  pose proof (header_range 8 ph 16 Hb) as R1. pose proof (header_range 8 ph 40 Hb) as R2. fold (p_vaddr ph) in R1. fold (p_memsz ph) in R2.
  rewrite wrap_small by lia. by rewrite (proj2 (Z.ltb_ge _ _)) by lia.
Qed.

Lemma header_next c off i : 0 ≤ off → header c off (S i) = header c (off + PHDR_SIZE) i.
Proof. intros H. unfold header. f_equal. unfold PHDR_SIZE. lia. Qed.

Lemma put_bytes_whole d l : length d = length l → put_bytes d 0 l = l.
Proof. intros E. unfold put_bytes. cbn. rewrite drop_ge, app_nil_r by lia. done. Qed.

Lemma page_up_mono a b : a ≤ b → page_up a ≤ page_up b.
Proof. intros H. unfold page_up. apply Z.mul_le_mono_nonneg_r; [done|]. apply Z.div_le_mono; lia. Qed.

(** All pages of the image are the user's, and the bytes above it are 0. *)
Definition imaged h G d (size : Z) (B : Z → Z) : Prop :=
  uspace h G d (page_up size) (λ _, true) B ∧ (∀ x, page_up size ≤ x → B x = 0).

(** One segment. *)
Lemma load_segment s G d size B ip c limit ph :
  imaged (kh s) G d size B → program s ip c → 0 ≤ size ≤ limit → limit ≤ USERTOP →
  bytes_ok ph → loads ph = true → segment_ok c limit ph →
  ∃ r h1 G1, allocuvm kernel_end available_memory d size (u64 (p_vaddr ph + p_memsz ph)) (kh s) = Ok (r, h1) ∧
    apart d G (kh s) G1 h1 ∧
    ((r = 0 ∧ ∃ top U B', uspace h1 G1 d top U B') ∨
     (r = Z.max size (p_vaddr ph + p_memsz ph) ∧ r ≠ 0 ∧ r ≤ limit ∧
      ∃ h2, loaduvm d (p_vaddr ph) ip (s64 (p_offset ph)) (p_filesz ph) (set_kh h1 s) = Ok (0, set_kh h2 s) ∧
        apart d G1 h1 G1 h2 ∧
        imaged h2 G1 d r (overlay B (p_vaddr ph) (get_bytes c (Z.to_nat (p_offset ph)) (Z.to_nat (p_filesz ph)))))).
Proof.
  intros [Hus Hz] Hpg Hsz Hlim Hb Hld [H1 H2 H3 H4 H5 H6]. set (newsz := p_vaddr ph + p_memsz ph) in *.
  assert (USERTOP < KERNBASE ∧ USERTOP < 2 ^ 62) as [HU HU2] by done. pose proof (program_short _ _ _ Hpg) as Hshort.
  pose proof (header_range 8 ph 16 Hb) as R1. pose proof (header_range 8 ph 40 Hb) as R2. pose proof (header_range 8 ph 32 Hb) as R3.
  pose proof (header_range 8 ph 8 Hb) as R4. fold (p_vaddr ph) in R1. fold (p_memsz ph) in R2. fold (p_filesz ph) in R3. fold (p_offset ph) in R4.
  assert (0 < newsz) as Hpos by (unfold loads in Hld; destruct (Z.eqb_spec (p_memsz ph) 0); rewrite ?andb_false_r in Hld; [done|lia]).
  rewrite wrap_small by lia.
  assert (∃ r h1 G1, allocuvm kernel_end available_memory d size newsz (kh s) = Ok (r, h1) ∧ apart d G (kh s) G1 h1 ∧
    ((r = 0 ∧ ∃ top U B', uspace h1 G1 d top U B') ∨
     (r = Z.max size newsz ∧ uspace h1 G1 d (page_up r) (λ _, true) B))) as (r & h1 & G1 & E & Ha & Hr).
  { destruct (decide (newsz < size)) as [Hlt|Hge].
    - exists size, (kh s), G. split_and!; [|apply apart_refl|right; split; [lia|done]]. unfold allocuvm.
      rewrite (proj2 (Z.leb_gt _ _)), (proj2 (Z.ltb_lt _ _)) by lia. done.
    - destruct (uspace_alloc kernel_end available_memory (kh s) G d _ _ B size newsz Hus eq_refl ltac:(lia) ltac:(lia))
        as (r & h1 & G1 & E & Ha & Hr). exists r, h1, G1. split; [done|]. split; [done|]. destruct Hr as [[-> Hus1]|[-> Hus1]].
      + right. split; [lia|]. eapply uspace_ext; [exact Hus1|intros x _; cbv beta; by case_match|]. intros x Hx.
        cbv beta. case_match; [done|]. symmetry. apply Hz. lia.
      + left. split; [done|]. eauto. }
  exists r, h1, G1. split; [done|]. split; [done|]. destruct Hr as [?|[-> Hus1]]; [by left|right].
  destruct (page_up_ok (Z.max size newsz)) as [_ Hup].
  split_and!; [done|lia|lia|]. rewrite sx_small by lia.
  destruct (loaduvm_ok (set_kh h1 s) G1 d (page_up (Z.max size newsz)) (λ _, true) B ip c (p_vaddr ph) (p_offset ph) (p_filesz ph)) as (h2 & E2 & Hus2 & Ha2); try done; try lia.
  exists h2. split; [exact E2|]. split; [done|]. split; [done|]. intros x Hx. unfold overlay. rewrite decide_False.
  - apply Hz. pose proof (page_up_mono size (Z.max size newsz)). lia.
  - unfold get_bytes. rewrite length_take. lia.
Qed.

Lemma load_segments_ok (k : nat) : ∀ s G d size B ip c limit ph off,
  imaged (kh s) G d size B → program s ip c → 0 ≤ size ≤ limit → limit ≤ USERTOP →
  length ph = PHDR_SIZE → 0 ≤ off → off + PHDR_SIZE * k ≤ length c →
  (∀ i, (i < k)%nat → loads (header c off i) = true → segment_ok c limit (header c off i)) →
  let phs := header c off <$> seq 0 k in
  ∃ r h' G', load_segments kernel_end available_memory dev_read k d ip ph off size s = Ok (r, set_kh h' s) ∧
    apart d G (kh s) G' h' ∧
    ((r = inr (image_size phs size) ∧ image_size phs size ≤ limit ∧ imaged h' G' d (image_size phs size) (image c phs B)) ∨
     (r = inl (- ENOMEM) ∧ ∃ top U B', uspace h' G' d top U B')).
Proof.
  induction k as [|k IH]; intros s G d size B ip c limit ph off Him Hpg Hsz Hlim Hph Hoff Hend Hseg phs.
  { exists (inr size), (kh s), G. split; [by destruct s|]. split; [apply apart_refl|]. left. split; [done|]. split; [apply Hsz|done]. }
  pose proof (program_short _ _ _ Hpg) as Hshort. unfold PHDR_SIZE in Hend.
  assert (header c off 0 = get_bytes c (Z.to_nat off) PHDR_SIZE) as E0 by (unfold header; do 2 f_equal; lia).
  set (ph1 := header c off 0) in *.
  assert (length ph1 = PHDR_SIZE) as El by (rewrite E0; apply length_get_bytes; unfold PHDR_SIZE; lia).
  assert (bytes_ok ph1) as Hb by (rewrite E0; apply Forall_take, Forall_drop, Hpg).
  assert (phs = ph1 :: (header c (off + PHDR_SIZE) <$> seq 0 k)) as Ephs.
  { unfold phs. cbn. f_equal. rewrite <- fmap_S_seq, <- list_fmap_compose. apply list_fmap_ext. intros ? x _.
    by apply header_next. }
  cbn [load_segments]. rewrite (sx_small 64) by lia.
  pose proof (read_run s ip c off PHDR_SIZE Hpg ltac:(lia) ltac:(unfold PHDR_SIZE; lia)) as Er. rewrite Nat2Z.id, <- E0 in Er.
  rewrite (bind_run _ _ _ _ _ Er), (proj2 (Z.ltb_ge _ 0)) by lia. rewrite put_bytes_whole by congruence.
  assert (limit < 2 ^ 64) as Hlim' by (assert (USERTOP < 2 ^ 64) by done; lia).
  rewrite (bind_run _ _ _ _ _ (judge_run s c limit ph1 Hb Hlim' (Hseg 0%nat ltac:(lia)))).
  rewrite Ephs. cbn [image_size image]. rewrite (wrap_small 64) by (unfold PHDR_SIZE; lia).
  assert (∀ i, (i < k)%nat → loads (header c (off + PHDR_SIZE) i) = true → segment_ok c limit (header c (off + PHDR_SIZE) i)) as Hseg'.
  { intros i Hi. rewrite <- header_next by done. apply Hseg. lia. }
  destruct (loads ph1) eqn:Hl.
  2: { apply (IH s G d size B ip c limit ph1); try done; unfold PHDR_SIZE; lia. }
  destruct (load_segment s G d size B ip c limit ph1) as (r & h1 & G1 & E1 & Ha1 & Hr); try done.
  { by apply (Hseg 0%nat); [lia|]. }
  rewrite (bind_run _ _ _ _ _ (onh_run _ s _ _ E1)). destruct Hr as [[-> Hbad]|(-> & Hne & Hle & h2 & E2 & Ha2 & Him2)].
  { exists (inl (- ENOMEM)), h1, G1. split; [done|]. split; [done|]. by right. }
  rewrite (proj2 (Z.eqb_neq _ _)) by done. rewrite (bind_run _ _ _ _ _ E2). cbn [Z.ltb Z.compare].
  destruct (IH (set_kh h2 s) G1 d (Z.max size (p_vaddr ph1 + p_memsz ph1)) _ ip c limit ph1 (off + PHDR_SIZE) Him2)
    as (r & h3 & G3 & E3 & Ha3 & Hr); try done; try (unfold PHDR_SIZE; lia).
  exists r, h3, G3. split; [exact E3|]. split; [|done]. eapply apart_trans; [exact Ha1|]. eapply apart_trans; [exact Ha2|exact Ha3].
Qed.

End load.
End ExecLoad.
