(* ===== verification/ExecStack.v ===== *)
(** * The arguments on the stack of a new program

    [push_user_stack] copies the strings below the stack pointer and
    [ustack] the vectors below the strings.  The lemmas say where everything
    is and that the pieces do not overwrite each other. *)

From S2P Require Import Prelude Mem Words Block Bio Log CType KString Heap HeapAlloc Kalloc Vm VmTable VmMap VmUser VmSpace VmCopy.
From S2P Require Import Fs FsBlock FsTree FsFile RingBuf Pipe File Sysfile Exec ExecSpace.

Module ExecStack.
Import Heap Kalloc Vm VmTable VmMap VmUser VmSpace VmCopy Exec ExecSpace.

Abbreviation bytes_ok l := (Forall (λ b, 0 ≤ b < 256) l).

(** ** Strings *)

(** The room a string takes, with its NUL. *)
Definition room (s : list Z) : Z := (length s + 8) / 8 * 8.

Lemma room_ok s : length s + 1 ≤ room s < length s + 9 ∧ room s mod 8 = 0.
Proof.
  unfold room. pose proof (Z.div_mod (length s + 8) 8 ltac:(done)). pose proof (Z.mod_pos_bound (length s + 8) 8 ltac:(done)).
  split; [lia|]. apply Z_mod_mult.
Qed.

Lemma land_words x : 0 ≤ x < 2 ^ 64 → Z.land x (u64 (Z.lnot 7)) = x / 8 * 8.
Proof.
  intros Hx. change (u64 (Z.lnot 7)) with (Z.shiftl (Z.ones 61) 3). change 8 with (2 ^ 3).
  rewrite <- Z.shiftr_div_pow2, <- Z.shiftl_mul_pow2 by lia.
  apply Z.bits_inj'. intros n Hn. rewrite Z.land_spec. destruct (decide (n < 3)).
  - rewrite !Z.shiftl_spec, (Z.testbit_neg_r (Z.ones 61)), (Z.testbit_neg_r (Z.shiftr x 3)), andb_false_r by lia. done.
  - rewrite !Z.shiftl_spec, Z.shiftr_spec by lia. replace (n - 3 + 3) with n by lia.
    rewrite Z.testbit_ones by lia. rewrite (proj2 (Z.leb_le _ _)) by lia. cbn.
    destruct (Z.ltb_spec (n - 3) 61); [by rewrite andb_true_r|]. rewrite andb_false_r. symmetry.
    destruct (decide (x = 0)) as [->|]; [apply Z.bits_0|]. apply Z.bits_above_log2; [lia|].
    apply Z.lt_le_trans with 64; [|lia]. apply Z.log2_lt_pow2; lia.
Qed.

Lemma push_address sp s : sp mod 8 = 0 → room s ≤ sp < 2 ^ 64 →
  Z.land (u64 (sp - (length s + 1))) (u64 (Z.lnot 7)) = sp - room s.
Proof.
  intros Hal Hsp. destruct (room_ok s) as [Hr Hm]. rewrite wrap_small, land_words by lia.
  apply Z.mod_divide in Hal as [k ->]; [|done]. apply Z.mod_divide in Hm as [j Hj]; [|done].
  pose proof (Z.div_mod (k * 8 - (length s + 1)) 8 ltac:(done)). pose proof (Z.mod_pos_bound (k * 8 - (length s + 1)) 8 ltac:(done)).
  lia.
Qed.

(** The addresses of the strings, from [sp] down. *)
Fixpoint addresses (vec : list (list Z)) (sp : Z) : list Z :=
  match vec with [] => [] | s :: vec => sp - room s :: addresses vec (sp - room s) end.
Definition rooms (vec : list (list Z)) : Z := foldr (λ s n, room s + n) 0 vec.
Fixpoint pushed (vec : list (list Z)) (sp : Z) (B : Z → Z) : Z → Z :=
  match vec with [] => B | s :: vec => pushed vec (sp - room s) (overlay B (sp - room s) (s ++ [0])) end.

Lemma rooms_nonneg vec : 0 ≤ rooms vec ∧ rooms vec mod 8 = 0.
Proof.
  induction vec as [|s vec IH]; [done|]. change (rooms (s :: vec)) with (room s + rooms vec). destruct (room_ok s) as [? Hm]. destruct IH as [? IH]. split; [lia|].
  by rewrite Z.add_mod, Hm, IH.
Qed.

Lemma length_addresses vec : ∀ sp, length (addresses vec sp) = length vec.
Proof. induction vec as [|s vec IH]; intros sp; cbn; [done|]. by rewrite IH. Qed.

Lemma pushed_above vec : ∀ sp B x, sp ≤ x → pushed vec sp B x = B x.
Proof.
  induction vec as [|s vec IH]; intros sp B x Hx; [done|]. cbn. destruct (room_ok s) as [Hr _]. rewrite IH by lia.
  unfold overlay. rewrite decide_False; [done|]. rewrite length_app. cbn. lia.
Qed.

Lemma pushed_below vec : ∀ sp B x, x < sp - rooms vec → pushed vec sp B x = B x.
Proof.
  induction vec as [|s vec IH]; intros sp B x Hx; [done|]. change (rooms (s :: vec)) with (room s + rooms vec) in Hx. cbn [pushed].
  destruct (room_ok s) as [Hr _].
  pose proof (rooms_nonneg vec) as [? _]. rewrite IH by lia. unfold overlay. rewrite decide_False; [done|]. lia.
Qed.

(** The bytes [l] are at [p]. *)
Definition at_bytes (B : Z → Z) (p : Z) (l : list Z) : Prop := ∀ (i : nat) b, l !! i = Some b → B (p + i) = b.

Lemma at_overlay B p l : at_bytes (overlay B p l) p l.
Proof.
  intros i b Hi. pose proof (lookup_lt_Some _ _ _ Hi). unfold overlay. rewrite decide_True by lia.
  replace (Z.to_nat (p + i - p)) with i by lia. by rewrite Hi.
Qed.

Lemma at_bytes_same B B' p l : (∀ x, p ≤ x < p + length l → B' x = B x) → at_bytes B p l → at_bytes B' p l.
Proof. intros E H i b Hi. pose proof (lookup_lt_Some _ _ _ Hi). rewrite E by lia. by apply H. Qed.

Lemma pushed_strings vec : ∀ sp B i s, vec !! i = Some s →
  ∃ p, addresses vec sp !! i = Some p ∧ at_bytes (pushed vec sp B) p (s ++ [0]) ∧
    sp - rooms vec ≤ p ∧ p + length s + 1 ≤ sp.
Proof.
  induction vec as [|s0 vec IH]; intros sp B [|i] s Hi; [done|done| |]; change (rooms (s0 :: vec)) with (room s0 + rooms vec); cbn in *.
  - injection Hi as ->. destruct (room_ok s) as [Hr _]. pose proof (rooms_nonneg vec) as [? _].
    exists (sp - room s). split; [done|]. split; [|lia]. eapply at_bytes_same; [|apply at_overlay]. intros x Hx. apply pushed_above. lia.
  - destruct (IH (sp - room s0) (overlay B (sp - room s0) (s0 ++ [0])) i s Hi) as (p & Hp & Hb & Hlo & Hhi).
    destruct (room_ok s0) as [Hr _]. exists p. split; [done|]. split; [done|]. lia.
Qed.

Section stack.
Context (kernel_end available_memory : Z).
Abbreviation uspace := (uspace kernel_end available_memory).

Lemma push_ok vec : ∀ h G d top U B low idx count sp,
  uspace h G d top U B → Forall (λ s, bytes_ok s) vec → sp mod 8 = 0 → 0 ≤ low → low ≤ sp - rooms vec → sp ≤ top →
  (∀ x, low ≤ x < top → U x = true) → count + length vec ≤ MAXARG → idx + count + length vec < USTACK_WORDS →
  ∃ h', push_user_stack d vec idx count sp h = Ok (inr (addresses vec sp, sp - rooms vec), h') ∧
    uspace h' G d top U (pushed vec sp B) ∧ apart d G h G h'.
Proof.
  induction vec as [|s vec IH]; intros h G d top U B low idx count sp Hus Hvec Hal Hlow Hsp Htop HU Hcnt Hidx; cbn [push_user_stack].
  { exists h. unfold ustack_index. rewrite (proj2 (Z.ltb_lt _ _)) by (cbn in Hidx; lia). split; [|split; [done|apply apart_refl]].
    rewrite ret_bind. cbn. by rewrite Z.sub_0_r. }
  apply Forall_cons in Hvec as [Hs Hvec]. cbn [length rooms foldr] in *. fold (rooms vec) in *.
  destruct (room_ok s) as [Hr Hm]. pose proof (rooms_nonneg vec) as [Hrs _]. pose proof (us_top _ _ _ _ _ _ _ _ Hus) as Ht.
  assert (USERTOP < 2 ^ 64) as HU64 by done. rewrite (proj2 (Z.leb_gt _ _)) by lia. rewrite push_address by (done || lia).
  assert (length (s ++ [0]) = S (length s)) as El by (rewrite length_app; cbn; lia).
  destruct (uspace_copyout kernel_end available_memory h G d top U B (sp - room s) (s ++ [0])) as (h1 & E1 & Hus1 & Ha1); try done.
  { apply Forall_app. split; [done|]. by repeat constructor. } { lia. } { lia. } { intros x Hx. apply HU. lia. }
  rewrite (bind_run _ _ _ _ _ E1). cbn [Z.ltb Z.compare]. unfold ustack_index at 1. rewrite (proj2 (Z.ltb_lt _ _)) by lia. rewrite ret_bind.
  destruct (IH h1 G d top U (overlay B (sp - room s) (s ++ [0])) low idx (count + 1) (sp - room s)) as (h2 & E2 & Hus2 & Ha2); try done; try lia.
  { apply Z.mod_divide in Hal as [a ->]; [|done]. apply Z.mod_divide in Hm as [b ->]; [|done].
    replace (a * 8 - b * 8) with ((a - b) * 8) by lia. apply Z_mod_mult. }
  rewrite (bind_run _ _ _ _ _ E2). exists h2. split; [|split; [done|by eapply apart_trans]].
  replace (sp - room s - rooms vec) with (sp - (room s + rooms vec)) by lia. done.
Qed.
End stack.

(** ** Vectors *)

(** The word user code reads at [a]. *)
Definition word_at (B : Z → Z) (a : Z) : Z := le_val ((λ i : nat, B (a + i)) <$> seq 0 8).

Abbreviation encode u := (concat (le_bytes 8 <$> u)).

Lemma length_encode u : length (encode u) = (8 * length u)%nat.
Proof. induction u as [|v u IH]; [done|]. cbn [fmap list_fmap concat length]. rewrite length_app, length_le_bytes. fold (fmap (M := list) (le_bytes 8) u). lia. Qed.

Lemma encode_lookup u : ∀ (j i : nat) v, u !! j = Some v → (i < 8)%nat → encode u !! (8 * j + i)%nat = le_bytes 8 v !! i.
Proof.
  induction u as [|w u IH]; intros [|j] i v Hj Hi; [done|done| |]; cbn [fmap list_fmap concat].
  - injection Hj as ->. rewrite lookup_app_l; [f_equal; lia|]. rewrite length_le_bytes. lia.
  - rewrite lookup_app_r by (rewrite length_le_bytes; lia). rewrite length_le_bytes.
    replace (8 * S j + i - 8)%nat with (8 * j + i)%nat by lia. by apply IH.
Qed.

(** A vector that was copied out is read back word by word. *)
Lemma word_at_overlay B a u (j : nat) v :
  u !! j = Some v → 0 ≤ v < 2 ^ 64 → word_at (overlay B a (encode u)) (a + 8 * j) = v.
Proof.
  intros Hj Hv. pose proof (lookup_lt_Some _ _ _ Hj) as Hlt. unfold word_at.
  replace ((λ i : nat, overlay B a (encode u) (a + 8 * j + i)) <$> seq 0 8) with (le_bytes 8 v).
  { apply le_val_bytes. exact Hv. }
  apply list_eq. intros i. destruct (decide (i < 8)%nat) as [Hi|Hi].
  - rewrite list_lookup_fmap, lookup_seq_lt by done. cbn [fmap option_fmap option_map].
    assert (is_Some (le_bytes 8 v !! i)) as [b Hb] by (apply lookup_lt_is_Some_2; by rewrite length_le_bytes).
    rewrite Hb. f_equal. symmetry. replace (a + 8 * j + (0 + i)%nat) with (a + (8 * j + i)%nat) by lia. apply at_overlay.
    by rewrite (encode_lookup u j i v).
  - rewrite !lookup_ge_None_2; [done|..]; rewrite ?length_fmap, ?length_seq, ?length_le_bytes; lia.
Qed.

Lemma bytes_encode u : bytes_ok (encode u).
Proof. apply Forall_concat, Forall_fmap, Forall_forall. intros v _. apply le_bytes_range. Qed.

End ExecStack.
