(* ===== verification/ExecThm.v ===== *)
(** * A program is started

    [enter] builds the stack and switches, [execve] does the whole call. *)

From S2P Require Import Prelude Mem Words Block Bio Log CType KString Heap HeapAlloc Kalloc Vm VmTable VmMap VmUser VmSpace VmCopy VmThm.
From S2P Require Import Fs FsBlock FsTree FsFile FsPath RingBuf Pipe File Sysfile Exec ExecSpace ExecLoad ExecStack.

Module ExecThm.
Import Heap Kalloc Vm VmTable VmMap VmUser VmSpace VmCopy Exec ExecSpace ExecLoad ExecStack.

(** ** The words on the stack *)

Section words.
Context (argvs envs : list Z) (sp : Z).
Let n : nat := length argvs.
Let m : nat := length envs.
Let low : Z := sp - 8 * (n + m + 6).
Context (Hsp : 8 * (n + m + 6) ≤ sp < 2 ^ 64) (Hn : n + m < 2 ^ 31).

Lemma length_ustack : length (ustack argvs envs sp) = (n + m + 6)%nat.
Proof. unfold ustack. rewrite !length_app. cbn. lia. Qed.

Lemma ustack_head :
  ustack argvs envs sp = [0xffffffff; Z.of_nat n; low + 32; low + 32 + 8 * (n + 1)] ++ argvs ++ [0] ++ envs ++ [0].
Proof.
  unfold ustack. subst low n m. rewrite (wrap_small 32), !(wrap_small 64) by lia. cbn [app].
  do 2 f_equal. f_equal; [lia|]. f_equal. lia.
Qed.

Lemma ustack_argv (i : nat) p : (argvs ++ [0]) !! i = Some p → ustack argvs envs sp !! (4 + i)%nat = Some p.
Proof.
  intros Hp. unfold ustack. rewrite lookup_app_r by (cbn; lia). cbn [length]. replace (4 + i - 4)%nat with i by lia.
  rewrite app_assoc. by apply lookup_app_l_Some.
Qed.

Lemma ustack_envp (i : nat) p : (envs ++ [0]) !! i = Some p → ustack argvs envs sp !! (4 + (n + 1 + i))%nat = Some p.
Proof.
  intros Hp. unfold ustack. rewrite lookup_app_r by (cbn; lia). cbn [length]. rewrite app_assoc.
  rewrite lookup_app_r by (rewrite length_app; cbn; lia). rewrite length_app. cbn [length]. rewrite <- Hp. f_equal. lia.
Qed.
End words.

(** A vector of pointers to strings, ended by a null pointer. *)
Definition vector (B : Z → Z) (a : Z) (l : list (list Z)) : Prop :=
  (∀ (i : nat) s, l !! i = Some s → at_bytes B (word_at B (a + 8 * i)) (s ++ [0])) ∧ word_at B (a + 8 * length l) = 0.

Lemma vector_ok B a l ps :
  length ps = length l → (∀ (i : nat) p, (ps ++ [0]) !! i = Some p → word_at B (a + 8 * i) = p) →
  (∀ (i : nat) s, l !! i = Some s → ∃ p, ps !! i = Some p ∧ at_bytes B p (s ++ [0])) → vector B a l.
Proof.
  intros El Hw Hs. split.
  - intros i s Hi. destruct (Hs i s Hi) as (p & Hp & Hb). rewrite (Hw i p); [done|]. by apply lookup_app_l_Some.
  - apply Hw. rewrite lookup_app_r, El, Nat.sub_diag by lia. done.
Qed.

(** ** The stack of the new program *)

(** The arguments fit into [ustack] and into the three pages of the stack. *)
Record fits (argv envp : list (list Z)) : Prop := {
  ft_bytes : Forall (λ s, bytes_ok s) (argv ++ envp);
  ft_argc : length argv ≤ MAXARG;
  ft_envc : length envp ≤ MAXENV;
  ft_words : length argv + length envp ≤ 62;
  ft_room : rooms argv + rooms envp + 8 * (length argv + length envp + 7) ≤ 12288;
}.

Definition stack_pointer (argv envp : list (list Z)) (top : Z) : Z :=
  top - rooms argv - rooms envp - 8 * (length argv + length envp + 6).

(** What [main] finds: [B] is the memory, [low] the lowest address of the
    stack. *)
Record arguments (B : Z → Z) (low top : Z) (argv envp : list (list Z)) : Prop := {
  ar_low : low + 8 ≤ stack_pointer argv envp top ≤ top;
  ar_aligned : stack_pointer argv envp top mod 8 = 0;
  ar_return : word_at B (stack_pointer argv envp top) = 0xffffffff;
  ar_argv : vector B (stack_pointer argv envp top + 32) argv;
  ar_envp : vector B (stack_pointer argv envp top + 32 + 8 * (length argv + 1)) envp;
}.

Lemma words_range argv envp top (u := ustack (addresses argv top) (addresses envp (top - rooms argv)) (top - rooms argv - rooms envp)) :
  fits argv envp → 12288 ≤ top < 2 ^ 63 → Forall (λ v, 0 ≤ v < 2 ^ 64) u.
Proof.
  intros [_ Ha He Hw Hr] Htop. pose proof (rooms_nonneg argv) as [? _]. pose proof (rooms_nonneg envp) as [? _].
  assert (∀ vec t, Forall (λ v, t - rooms vec ≤ v ≤ t) (addresses vec t)) as Hads.
  { intros vec. induction vec as [|s vec IH]; intros t; cbn [addresses]; [constructor|].
    change (rooms (s :: vec)) with (room s + rooms vec). destruct (room_ok s) as [? _]. pose proof (rooms_nonneg vec) as [? _].
    constructor; [lia|]. eapply Forall_impl; [apply IH|]. cbn. lia. }
  unfold u. rewrite ustack_head by (rewrite ?length_addresses; unfold MAXARG, MAXENV in *; lia). rewrite !length_addresses.
  unfold MAXARG, MAXENV in *. repeat (apply Forall_app; split); try (repeat constructor; lia).
  - eapply Forall_impl; [apply Hads|]. cbn. lia.
  - eapply Forall_impl; [apply Hads|]. cbn. lia.
Qed.

Lemma arguments_ok B top argv envp
    (u := ustack (addresses argv top) (addresses envp (top - rooms argv)) (top - rooms argv - rooms envp)) :
  fits argv envp → 12288 ≤ top < 2 ^ 63 → top mod 8 = 0 →
  arguments (overlay (pushed envp (top - rooms argv) (pushed argv top B)) (stack_pointer argv envp top) (encode u))
    (top - 12288) top argv envp.
Proof.
  intros Hfit Htop Hal. pose proof (words_range argv envp top Hfit Htop) as Hu. fold u in Hu. destruct Hfit as [_ Ha He Hw Hr].
  unfold MAXARG, MAXENV in *. pose proof (rooms_nonneg argv) as [Ra Ma]. pose proof (rooms_nonneg envp) as [Re Me].
  set (sp := stack_pointer argv envp top). assert (Esp : sp = top - rooms argv - rooms envp - 8 * (length argv + length envp + 6)) by done.
  assert (length u = (length argv + length envp + 6)%nat) as Eu by (unfold u; rewrite length_ustack, !length_addresses; lia).
  set (B1 := pushed envp _ _). assert (∀ (j : nat) v, u !! j = Some v → word_at (overlay B1 sp (encode u)) (sp + 8 * j) = v) as Hword.
  { intros j v Hj. apply word_at_overlay; [done|]. by eapply Forall_lookup_1 in Hu. }
  assert (∀ p l, top - rooms argv - rooms envp ≤ p → at_bytes B1 p l → at_bytes (overlay B1 sp (encode u)) p l) as Hab.
  { intros p l Hp. apply at_bytes_same. intros x Hx. unfold overlay. rewrite decide_False; [done|]. rewrite length_encode. lia. }
  split; fold sp.
  - lia.
  - rewrite Esp. apply Z.mod_divide in Hal as [a ->]; [|done]. apply Z.mod_divide in Ma as [b ->]; [|done].
    apply Z.mod_divide in Me as [c ->]; [|done]. apply Z.mod_divide; [done|]. exists (a - b - c - (length argv + length envp + 6)). lia.
  - specialize (Hword 0%nat). rewrite Z.add_0_r in Hword. by apply Hword.
  - eapply (vector_ok _ _ _ (addresses argv top)); [apply length_addresses|..].
    + intros i p Hp. replace (sp + 32 + 8 * i) with (sp + 8 * (4 + i)%nat) by lia. apply Hword. by apply ustack_argv.
    + intros i s Hs. destruct (pushed_strings argv top B i s Hs) as (p & Hp & Hb & Hlo & Hhi). exists p. split; [done|].
      apply Hab; [lia|]. eapply at_bytes_same; [|exact Hb]. intros x Hx. apply pushed_above. lia.
  - eapply (vector_ok _ _ _ (addresses envp (top - rooms argv))); [apply length_addresses|..].
    + intros i p Hp. replace (sp + 32 + 8 * (length argv + 1) + 8 * i) with (sp + 8 * (4 + (length argv + 1 + i))%nat) by lia.
      apply Hword. rewrite <- (length_addresses argv top). by apply ustack_envp.
    + intros i s Hs. destruct (pushed_strings envp (top - rooms argv) (pushed argv top B) i s Hs) as (p & Hp & Hb & Hlo & Hhi).
      exists p. split; [done|]. apply Hab; [lia|done].
Qed.

Section enter.
Context (kernel_end available_memory : Z) (self : nat) (parent_cred : option Sysfile.cred) (dev_close : Z → option (Z → File.VFS Z)).

Abbreviation uspace := (uspace kernel_end available_memory).
Abbreviation tables := (tables kernel_end available_memory).
Abbreviation enter := (enter kernel_end available_memory self parent_cred dev_close).
Abbreviation close_marked := (close_marked dev_close).

Implicit Types (s : exec) (G : gmap Z role).

(** No open file of the process is to be closed. *)
Definition unmarked (v : File.vfs) (l : list (option nat)) : Prop :=
  ∀ f, Some f ∈ l → ∃ x, File.file_table v !! f = Some x ∧ (0 <? File.ref x) && (File.flags x =? Sysfile.O_CLOEXEC) = false.

Lemma close_unmarked s l : unmarked (ks s) l → close_marked l s = Ok (tt, s).
Proof.
  induction l as [|[f|] l IH]; intros Hl; [done| |].
  - destruct (Hl f) as (x & Hx & Hno); [by left|]. cbn [Exec.close_marked].
    assert (onv (File.the_file f) s = Ok (x, s)) as E.
    { unfold onv, zoom, File.the_file. rewrite Hx. by destruct s. }
    rewrite (bind_run _ _ _ _ _ E), Hno, ret_bind. apply IH. intros g Hg. apply Hl. by right.
  - apply IH. intros g Hg. apply Hl. by right.
Qed.

(** The pages of the image and of the stack the program may access: not page 0
    and not the page below the stack. *)
Definition accessible (P x : Z) : bool := negb (x / 4096 =? 0) && negb (x / 4096 =? P / 4096).

Lemma accessible_stack P x : 0 ≤ P → P mod 4096 = 0 → P + 4096 ≤ x → accessible P x = true.
Proof.
  intros HP Hal Hx. apply Z.mod_divide in Hal as [k ->]; [|done]. unfold accessible. rewrite Z.div_mul by done.
  assert (k + 1 ≤ x / 4096) by (apply Z.div_le_lower_bound; lia).
  by rewrite !(proj2 (Z.eqb_neq _ _)) by lia.
Qed.

(** The memory of the program: the image, the guard page and three pages of
    stack. *)
Lemma stack_pages s G d size B :
  imaged kernel_end available_memory (kh s) G d size B → 0 ≤ size → page_up size + 16384 ≤ USERTOP →
  let P := page_up size in
  ∃ r h1 G1, allocuvm kernel_end available_memory d P (P + 16384) (kh s) = Ok (r, h1) ∧ apart d G (kh s) G1 h1 ∧
    ((r = 0 ∧ uspace h1 G1 d P (λ _, true) B) ∨
     (r = P + 16384 ∧ ∃ h2 h3, clearpteu d P h1 = Ok (tt, h2) ∧ clearpteu d 0 h2 = Ok (tt, h3) ∧
       apart d G1 h1 G1 h3 ∧ uspace h3 G1 d (P + 16384) (accessible P) B)).
Proof.
  intros [Hus Hz] Hsz Htop P. destruct (page_up_ok size) as [Hal Hb]. fold P in Hal, Hb, Htop, Hz, Hus.
  assert (page_up P = P) as EP.
  { unfold page_up. apply Z.mod_divide in Hal as [k ->]; [|done]. rewrite Z.div_add_l by done. rewrite (Z.div_small 4095) by done. lia. }
  assert (page_up (P + 16384) = P + 16384) as EP'.
  { unfold page_up. apply Z.mod_divide in Hal as [k ->]; [|done]. replace (k * 4096 + 16384 + 4095) with ((k + 4) * 4096 + 4095) by lia.
    rewrite Z.div_add_l by done. rewrite (Z.div_small 4095) by done. lia. }
  destruct (uspace_alloc kernel_end available_memory (kh s) G d P _ B P (P + 16384) Hus ltac:(done) ltac:(lia) ltac:(lia))
    as (r & h1 & G1 & E & Ha & Hr).
  exists r, h1, G1. split; [done|]. split; [done|]. destruct Hr as [[-> Hus1]|[-> Hus1]]; [right|by left]. split; [done|].
  rewrite EP' in Hus1.
  destruct (uspace_clear kernel_end available_memory h1 G1 d _ _ _ P Hus1 ltac:(lia)) as (h2 & E2 & Ha2 & Hus2).
  destruct (uspace_clear kernel_end available_memory h2 G1 d _ _ _ 0 Hus2 ltac:(lia)) as (h3 & E3 & Ha3 & Hus3).
  exists h2, h3. split; [done|]. split; [done|]. split; [by eapply apart_trans|]. eapply uspace_ext; [exact Hus3|..].
  - intros x Hx. unfold accessible. cbv beta. change (0 / 4096) with 0. destruct (Z.eqb_spec (x / 4096) 0).
    + by rewrite decide_True.
    + rewrite decide_False by done. destruct (Z.eqb_spec (x / 4096) (P / 4096)); [by rewrite decide_True|]. rewrite decide_False by done.
      by case_match.
  - intros x Hx. cbv beta. case_match; [done|]. symmetry. apply Hz. lia.
Qed.

Lemma strings_pushed h G d P B argv envp (top := P + 16384)
    (u := ustack (addresses argv top) (addresses envp (top - rooms argv)) (top - rooms argv - rooms envp)) :
  uspace h G d top (accessible P) B → 0 ≤ P → P mod 4096 = 0 → fits argv envp →
  ∃ h1 h2 h3, push_user_stack d argv 4 0 top h = Ok (inr (addresses argv top, top - rooms argv), h1) ∧
    push_user_stack d envp (length argv + 4 + 1) 0 (top - rooms argv) h1 =
      Ok (inr (addresses envp (top - rooms argv), top - rooms argv - rooms envp), h2) ∧
    copyout d (stack_pointer argv envp top) (encode u) h2 = Ok (0, h3) ∧ apart d G h G h3 ∧
    ∃ B', uspace h3 G d top (accessible P) B' ∧ (∀ x, x < P + 4096 → B' x = B x) ∧ arguments B' (P + 4096) top argv envp.
Proof.
  intros Hus HP Hal Hfit. pose proof (us_top _ _ _ _ _ _ _ _ Hus) as Ht. assert (USERTOP < 2 ^ 63) as HU by done.
  assert (top mod 8 = 0 ∧ 12288 ≤ top < 2 ^ 63) as [Hal8 Htop].
  { unfold top in *. split; [|lia]. apply Z.mod_divide in Hal as [k ->]; [|done]. apply Z.mod_divide; [done|]. exists (k * 512 + 2048). lia. }
  pose proof (arguments_ok B top argv envp Hfit Htop Hal8) as Harg. fold u in Harg.
  destruct Hfit as [Hb Ha He Hw Hr]. apply Forall_app in Hb as [Hba Hbe]. unfold MAXARG, MAXENV in *.
  pose proof (rooms_nonneg argv) as [Ra Ma]. pose proof (rooms_nonneg envp) as [Re Me].
  assert (∀ x, P + 4096 ≤ x < top → accessible P x = true) as Hacc by (intros x Hx; apply accessible_stack; (done || lia)).
  unfold top in *.
  destruct (push_ok kernel_end available_memory argv h G d _ _ B (P + 4096) 4 0 _ Hus Hba Hal8) as (h1 & E1 & Hus1 & Ha1);
    try (unfold USTACK_WORDS, MAXARG, MAXENV; lia); [done|].
  destruct (push_ok kernel_end available_memory envp h1 G d _ _ _ (P + 4096) (length argv + 4 + 1) 0 (P + 16384 - rooms argv) Hus1 Hbe)
    as (h2 & E2 & Hus2 & Ha2); try (unfold USTACK_WORDS, MAXARG, MAXENV; lia); [|done|].
  { apply Z.mod_divide in Hal8 as [a ->]; [|done]. apply Z.mod_divide in Ma as [b ->]; [|done]. apply Z.mod_divide; [done|].
    exists (a - b). lia. }
  assert (length (encode u) = (8 * (length argv + length envp + 6))%nat) as Eu.
  { rewrite length_encode. unfold u. rewrite length_ustack, !length_addresses. lia. }
  destruct (uspace_copyout kernel_end available_memory h2 G d _ _ _ (stack_pointer argv envp (P + 16384)) (encode u) Hus2)
    as (h3 & E3 & Hus3 & Ha3); try (unfold stack_pointer; lia); [apply bytes_encode| |].
  { intros x Hx. apply Hacc. unfold stack_pointer in Hx. lia. }
  exists h1, h2, h3. split_and!; [done..| |].
  - eapply apart_trans; [done|]. by eapply apart_trans.
  - eexists. split; [exact Hus3|]. split.
    + intros x Hx. unfold overlay. rewrite decide_False by (unfold stack_pointer; lia).
      rewrite pushed_below by lia. apply pushed_below. lia.
    + by replace (P + 4096) with (P + 16384 - 12288) by lia.
Qed.

Lemma entry_rsp sp : sp mod 8 = 0 → 8 ≤ sp < 2 ^ 63 →
  u64 (ROUND_UP sp 16 - 8) mod 16 = 8 ∧ sp - 8 ≤ u64 (ROUND_UP sp 16 - 8) ≤ sp.
Proof.
  intros Hal Hsp. apply Z.mod_divide in Hal as [k ->]; [|done]. unfold ROUND_UP. rewrite (wrap_small 64 (k * 8 + _)) by lia.
  pose proof (Z.div_mod (k * 8 + (16 - 1)) 16 ltac:(done)) as Hd. pose proof (Z.mod_pos_bound (k * 8 + (16 - 1)) 16 ltac:(done)).
  set (q := (k * 8 + (16 - 1)) / 16) in *. rewrite (wrap_small 64 (q * 16)), wrap_small by lia. split; [|lia].
  replace (q * 16 - 8) with (8 + (q - 1) * 16) by lia. by rewrite Z_mod_plus_full.
Qed.

(** The process [p] has become the program. *)
Record started (p p' : proc) (path : list Z) (argv envp : list (list Z)) (d P entry : Z) : Prop := {
  sd_pgdir : pgdir p' = d;
  sd_sz : sz p' = P + 16384;
  sd_name : name p' = set_name (name p) path;
  sd_rip : rip p' = entry;
  sd_rsp : rsp p' mod 16 = 8 ∧ stack_pointer argv envp (P + 16384) - 8 ≤ rsp p' ≤ stack_pointer argv envp (P + 16384);
  sd_argc : rdi p' = length argv;
  sd_argv : rsi p' = stack_pointer argv envp (P + 16384) + 32;
  sd_envp : rdx p' = rsi p' + 8 * (length argv + 1);
  sd_mmap : mmap_info p' = replicate (length (mmap_info p)) 0 ∧ mmap_count p' = 0;
  sd_cred : cred p' = default (cred p) parent_cred;
}.

Lemma commit_started p path argv envp d P entry (top := P + 16384)
    (u := ustack (addresses argv top) (addresses envp (top - rooms argv)) (top - rooms argv - rooms envp)) :
  fits argv envp → 0 ≤ P → P mod 4096 = 0 → top < 2 ^ 63 →
  started p (commit parent_cred path d top entry (stack_pointer argv envp top) (set_args u p)) path argv envp d P entry.
Proof.
  intros [_ Ha He Hw Hr] HP Hal Htop. unfold MAXARG, MAXENV in *. pose proof (rooms_nonneg argv) as [Ra Ma].
  pose proof (rooms_nonneg envp) as [Re Me].
  assert (stack_pointer argv envp top mod 8 = 0) as Hsp.
  { unfold stack_pointer, top. apply Z.mod_divide in Hal as [k ->]; [|done]. apply Z.mod_divide in Ma as [b ->]; [|done].
    apply Z.mod_divide in Me as [c ->]; [|done]. apply Z.mod_divide; [done|].
    exists (k * 512 + 2048 - b - c - (length argv + length envp + 6)). lia. }
  assert (u = [0xffffffff; Z.of_nat (length argv); stack_pointer argv envp top + 32; stack_pointer argv envp top + 32 + 8 * (length argv + 1)] ++
    addresses argv top ++ [0] ++ addresses envp (top - rooms argv) ++ [0]) as Eu.
  { unfold u. rewrite ustack_head by (rewrite !length_addresses; unfold top; lia). rewrite !length_addresses. done. }
  destruct (entry_rsp (stack_pointer argv envp top) Hsp) as [R1 R2]; [unfold stack_pointer, top in *; lia|].
  split; try done; cbn [commit set_args rdi rsi rdx]; by rewrite Eu.
Qed.

(** Address spaces, except those in [l], look as before. *)
Definition spaces_kept (l : list Z) G h G' h' : Prop :=
  ∀ d' top U B, d' ∉ l → uspace h G d' top U B → uspace h' G' d' top U B.

Lemma spaces_kept_trans l G1 h1 G2 h2 G3 h3 : spaces_kept l G1 h1 G2 h2 → spaces_kept l G2 h2 G3 h3 → spaces_kept l G1 h1 G3 h3.
Proof. intros H1 H2 d' top U B Hl Hus. apply H2; [done|]. by apply H1. Qed.

Lemma spaces_kept_apart l d G h G' h' : d ∈ l → tables h' G' → apart d G h G' h' → spaces_kept l G h G' h'.
Proof. intros Hd Htb Ha d' top U B Hl Hus. eapply apart_uspace; [done|done| |done]. intros ->. by apply Hl. Qed.

(** An address space is given back. *)
Definition gone (d : Z) G' : Prop := G' !! d = Some RFree ∧ ∀ p r, G' !! p = Some r → ¬ belongs d r.

Lemma free_space l h G d top U B :
  uspace h G d top U B → d ∈ l →
  ∃ h' G', freevm kernel_end available_memory d h = Ok (tt, h') ∧ tables h' G' ∧ gone d G' ∧ spaces_kept l G h G' h'.
Proof.
  intros Hus Hl. destruct (uspace_free _ _ _ _ _ _ _ _ Hus) as (h' & E & Htb & Ho). pose proof (us_dir _ _ _ _ _ _ _ _ Hus) as Hd.
  exists h', (reclaimed d G). split; [done|]. split; [done|]. split; [split|].
  - unfold reclaimed. by rewrite lookup_insert_eq.
  - intros p r. unfold reclaimed. rewrite lookup_insert. case_decide; [intros [= <-] []|]. rewrite lookup_fmap.
    destruct (G !! p) as [r0|]; [|done]. intros [= <-]. destruct r0; cbn; try tauto; case_decide; cbn; tauto.
  - intros d' t U' B' Hd' Hus'. eapply free_uspace; [exact Hd|exact Htb|exact Ho| |exact Hus']. intros ->. by apply Hd'.
Qed.

Lemma cr3_run h G d top U B : uspace h G d top U B → ∃ e, uvm_cr3 d h = Ok (v2p (PTE_ADDR e), h).
Proof.
  intros Hus. pose proof (us_tables _ _ _ _ _ _ _ _ Hus) as Htb. pose proof (us_dir _ _ _ _ _ _ _ _ Hus) as Hd.
  destruct (page_bounds _ _ h G Htb d _ Hd) as [Hdb _]. destruct (page_cell _ _ h G Htb d _ 511 Hd ltac:(lia)) as [e He].
  exists e. unfold uvm_cr3. rewrite (proj2 (Z.eqb_neq _ _)) by (unfold KERNBASE, PHYSLIMIT in *; lia).
  by rewrite (bind_run _ _ _ _ _ (load_run _ _ _ He)).
Qed.

Definition all_started s (p' : proc) h' path argv envp (d old P entry : Z) (B : Z → Z) G : Prop :=
  started (curproc s) p' path argv envp d P entry ∧
  ∃ G' B', uspace h' G' d (P + 16384) (accessible P) B' ∧ (∀ x, x < P → B' x = B x) ∧
    arguments B' (P + 4096) (P + 16384) argv envp ∧ gone old G' ∧ spaces_kept [d; old] G (kh s) G' h'.

Lemma enter_ok s G d size B path argv envp entry topo Uo Bo (P := page_up size) (old := pgdir (curproc s)) :
  imaged kernel_end available_memory (kh s) G d size B → 0 ≤ size → P + 16384 ≤ USERTOP → fits argv envp →
  old ≠ d → uspace (kh s) G old topo Uo Bo → unmarked (ks s) (File.my_ofile self (ks s)) →
  ∃ r h' p' c', enter path argv envp d entry size s = Ok (r, mkexec h' (ks s) p' c') ∧
    ((r = 0 ∧ all_started s p' h' path argv envp d old P entry B G) ∨
     (r = - ENOMEM ∧ p' = curproc s ∧ c' = cr3 s ∧ ∃ G', tables h' G' ∧ gone d G' ∧ spaces_kept [d] G (kh s) G' h')).
Proof.
  intros Him Hsz Htop Hfit Hne Hold Hun. assert (USERTOP < 2 ^ 63) as HU by done. destruct (page_up_ok size) as [Hal Hb]. fold P in Hal, Hb.
  unfold Exec.enter. rewrite pgroundup_eq by lia. fold (page_up size). fold P. unfold PGSIZE.
  change (4 * 4096) with 16384. rewrite (wrap_small 64 (P + 16384)) by lia.
  destruct (stack_pages s G d size B Him Hsz Htop) as (r & h1 & G1 & E1 & Ha1 & Hr). fold P in E1, Hr.
  rewrite (bind_run _ _ _ _ _ (onh_run _ s _ _ E1)). destruct Hr as [[-> Hus1]|(-> & h2 & h3 & E2 & E3 & Ha3 & Hus3)].
  { destruct (free_space [d] _ _ _ _ _ _ Hus1) as (h' & G' & E & Htb & Hgone & Hk); [by left|]. cbn [Z.eqb].
    rewrite (bind_run _ _ _ _ _ (onh_run _ (set_kh h1 s) _ _ E)). exists (- ENOMEM), h', (curproc s), (cr3 s). split; [done|]. right.
    split_and!; [done..|]. exists G'. split; [done|]. split; [done|]. eapply spaces_kept_trans; [|exact Hk].
    eapply spaces_kept_apart; [by left| |exact Ha1]. by eapply us_tables. }
  rewrite (proj2 (Z.eqb_neq _ _)) by lia. rewrite (wrap_small 64) by lia. replace (P + 16384 - 16384) with P by lia.
  rewrite (bind_run _ _ _ _ _ (onh_run _ (set_kh h1 s) _ _ E2)), (bind_run _ _ _ _ _ (onh_run _ (set_kh h2 s) _ _ E3)).
  destruct (strings_pushed h3 G1 d P B argv envp Hus3 ltac:(lia) Hal Hfit) as (h4 & h5 & h6 & E4 & E5 & E6 & Ha6 & B' & Hus6 & HB' & Harg).
  rewrite (bind_run _ _ _ _ _ (onh_run _ (set_kh h3 s) _ _ E4)). rewrite length_addresses.
  rewrite (bind_run _ _ _ _ _ (onh_run _ (set_kh h4 s) _ _ E5)). set (u := ustack _ _ _) in *.
  assert (u64 (P + 16384 - rooms argv - rooms envp - 8 * length u) = stack_pointer argv envp (P + 16384)) as Esp.
  { pose proof (ar_low _ _ _ _ _ Harg) as Hl. unfold stack_pointer in *. unfold u. rewrite length_ustack, !length_addresses.
    rewrite wrap_small; lia. }
  rewrite modify_bind, Esp. rewrite (bind_run _ _ _ _ _ (onh_run _ (set_curproc _ (set_kh h5 s)) _ _ E6)). cbn [Z.ltb Z.compare].
  rewrite gets_bind, modify_bind.
  match goal with |- context [(onv (gets _) ≫= _) ?t] => set (s7 := t) end.
  assert (onv (gets (File.my_ofile self)) s7 = Ok (File.my_ofile self (ks s), s7)) as E7 by done.
  rewrite (bind_run _ _ _ _ _ E7), (bind_run _ _ _ _ _ (close_unmarked s7 _ Hun)).
  assert (kh s7 = h6) as Eh7 by done.
  destruct (cr3_run _ _ _ _ _ _ Hus6) as [e E8].
  rewrite (bind_run _ _ _ _ _ (onh_run _ s7 _ _ E8)), modify_bind.
  assert (spaces_kept [d] G (kh s) G1 h6) as Hk6.
  { eapply spaces_kept_apart; [by left|by eapply us_tables|]. eapply apart_trans; [exact Ha1|]. by eapply apart_trans. }
  destruct (free_space [old] h6 G1 old topo Uo Bo) as (h' & G' & E9 & Htb9 & Hgone & Hk9); [|by left|].
  { apply Hk6; [set_solver|done]. }
  rewrite (bind_run _ _ _ _ _ (onh_run _ (set_cr3 _ (set_kh h6 s7)) _ _ E9)).
  eexists 0, h', _, _. split; [reflexivity|]. left. split; [done|]. split; [by apply commit_started; (done || lia)|].
  exists G', B'. split_and!; [apply Hk9; [set_solver|done]| |done|done|].
  - intros x Hx. apply HB'. lia.
  - intros d' t U' B'' Hd' Hus'. apply Hk9; [set_solver|]. apply Hk6; [set_solver|done].
Qed.

(** ** The call *)

Context (elf0 ph0 de : list Z) (kpdpt : Z) (dev_read : Z → option (Z → nat → Z → Fs.FS (Z * list Z))).

Abbreviation load_program := (load_program kernel_end available_memory self ph0 kpdpt parent_cred dev_close dev_read).
Abbreviation execve := (execve kernel_end available_memory self elf0 ph0 de kpdpt parent_cred dev_close dev_read).

(** The path leads to the file [ip] with the contents [c], which may be run;
    [v2] is the state with the file locked and [v3] the one after it is let
    go. *)
Record executable (v v2 v3 : File.vfs) (path : list Z) (ip : nat) (c : list Z) : Prop := {
  ex_found : ∃ v0 v1, File.begin_op v = Ok (tt, v0) ∧
    File.namei_with_fd self de dev_read File.AT_FDCWD path v0 = Ok (Some ip, v1) ∧ File.onfs (Fs.inode_lock ip) v1 = Ok (tt, v2);
  ex_file : ∃ n, FsFile.file (File.fsys v2) ip c n ∧ may_execute n = true;
  ex_bytes : bytes_ok c;
  ex_closed : ∃ v, File.onfs (Fs.inode_unlockput ip) v2 = Ok (tt, v) ∧ File.end_op v = Ok (tt, v3);
}.

(** The ELF header of a file and its program headers. *)
Definition elf_header (c : list Z) : list Z := get_bytes c 0 EHDR_SIZE.
Definition program_headers (c : list Z) : list (list Z) :=
  header c (e_phoff (elf_header c)) <$> seq 0 (Z.to_nat (e_phnum (elf_header c))).

Record loadable (c : list Z) : Prop := {
  ld_header : (EHDR_SIZE ≤ length c)%nat;
  ld_elf : elf_ok (elf_header c) = true;
  ld_table : e_phoff (elf_header c) + PHDR_SIZE * e_phnum (elf_header c) ≤ length c;
  ld_segments ph : ph ∈ program_headers c → loads ph = true → segment_ok c (USERTOP - 16384) ph;
}.

Lemma onv_run {A} (m : File.VFS A) s a v : m (ks s) = Ok (a, v) → onv m s = Ok (a, set_ks v s).
Proof. intros E. unfold onv, zoom. by rewrite E. Qed.

Lemma image_size_ge phs : ∀ size, size ≤ image_size phs size.
Proof. induction phs as [|ph phs IH]; intros size; cbn; [lia|]. etrans; [|apply IH]. case_match; lia. Qed.

Lemma table_range c : bytes_ok c → 0 ≤ e_phoff (elf_header c) ∧ 0 ≤ e_phnum (elf_header c).
Proof.
  intros Hb. assert (bytes_ok (elf_header c)) as Hbe by (unfold elf_header, get_bytes; by apply Forall_take).
  pose proof (header_range 8 (elf_header c) 32 Hbe). pose proof (header_range 2 (elf_header c) 56 Hbe).
  unfold e_phoff, e_phnum. lia.
Qed.

Lemma stack_limit size : size ≤ USERTOP - 16384 → page_up size + 16384 ≤ USERTOP.
Proof.
  intros Hlim. pose proof (usertop_page (size + 16384) ltac:(lia)) as H. unfold page_up in H |- *.
  replace (size + 16384 + 4095) with (size + 4095 + 4 * 4096) in H by lia. rewrite Z.div_add in H by done. lia.
Qed.

(** The result of a call that got as far as the segments. *)
Definition outcome s v3 G path c argv envp (run : X Z) s2 : Prop :=
  let P := page_up (image_size (program_headers c) 0) in
  ∃ r h' p' c', run s2 = Ok (r, mkexec h' v3 p' c') ∧
    ((r = 0 ∧ started (curproc s) p' path argv envp (pgdir p') P (e_entry (elf_header c)) ∧
      ∃ G' B, uspace h' G' (pgdir p') (P + 16384) (accessible P) B ∧
        (∀ x, 0 ≤ x < P → B x = image c (program_headers c) (λ _, 0) x) ∧
        arguments B (P + 4096) (P + 16384) argv envp ∧
        gone (pgdir (curproc s)) G' ∧ spaces_kept [pgdir (curproc s)] G (kh s) G' h') ∨
     (r = - ENOMEM ∧ p' = curproc s ∧ c' = cr3 s ∧ ∃ G', spaces_kept [] G (kh s) G' h')).

Lemma load_program_ok s v2 v3 v4 G path ip c argv envp topo Uo Bo (s2 := set_ks v2 s) :
  program s2 ip c → File.onfs (Fs.inode_unlockput ip) v2 = Ok (tt, v4) → File.end_op v4 = Ok (tt, v3) →
  loadable c → fits argv envp → length ph0 = PHDR_SIZE → unmarked v3 (File.my_ofile self v3) →
  tables (kh s) G → owned G → enough 3 G → uspace (kh s) G (pgdir (curproc s)) topo Uo Bo →
  outcome s v3 G path c argv envp (load_program path argv envp ip (elf_header c)) s2.
Proof.
  intros Hpg F3 F4 [L1 L2 L3 L4] Hfit Hph Hun Htb Hown He Hold. unfold outcome, Exec.load_program, Exec.bad.
  destruct (setupkvm_ok _ _ (kh s) G kpdpt Htb He) as (d & p4 & p3 & h1 & G1 & E5 & Hfresh & _ & Hp & Hkp).
  destruct (fresh_uspace _ _ _ _ _ _ (kh s) _ _ _ Hown Hfresh Hp Hkp) as (Hus1 & Ha1 & Hnew).
  pose proof (Hnew _ (us_dir _ _ _ _ _ _ _ _ Hold)) as Hne. rewrite (bind_run _ _ _ _ _ (onh_run _ s2 _ _ E5)).
  destruct (page_bounds _ _ h1 G1 (us_tables _ _ _ _ _ _ _ _ Hus1) d _ (us_dir _ _ _ _ _ _ _ _ Hus1)) as [Hdb _].
  rewrite (proj2 (Z.eqb_neq d 0)) by (unfold KERNBASE, PHYSLIMIT in *; lia).
  destruct (table_range c (proj2 Hpg)) as [R1 R2].
  destruct (load_segments_ok kernel_end available_memory dev_read (Z.to_nat (e_phnum (elf_header c))) (set_kh h1 s2) G1 d 0 (λ _, 0) ip c
    (USERTOP - 16384) ph0 (e_phoff (elf_header c))) as (r & h2 & G2 & E6 & Ha2 & Hr); try (done || lia).
  { intros i Hi Hl. apply L4; [|done]. apply list_elem_of_fmap. exists i. split; [done|]. apply elem_of_seq. lia. }
  fold (program_headers c) in Hr. rewrite (bind_run _ _ _ _ _ E6). change (set_kh h2 (set_kh h1 s2)) with (set_kh h2 s2).
  assert (∀ h, onf (Fs.inode_unlockput ip) (set_kh h s2) = Ok (tt, set_ks v4 (set_kh h s2))) as E7 by (intros h; by apply onv_run).
  assert (∀ h, onv File.end_op (set_ks v4 (set_kh h s2)) = Ok (tt, set_ks v3 (set_kh h s2))) as E8.
  { intros h. by rewrite (onv_run _ (set_ks v4 (set_kh h s2)) _ _ F4). }
  pose proof (apart_trans _ _ _ _ _ _ _ Ha1 Ha2) as Ha.
  destruct Hr as [(-> & Hlim & Him)|[-> (top & U & B & Hus2)]].
  2: { destruct (free_space [d] _ _ _ _ _ _ Hus2) as (h' & G' & E & Htb' & _ & Hk); [by left|].
    rewrite (bind_run _ _ _ _ _ (onh_run _ (set_kh h2 s2) _ _ E)). change (set_kh h' (set_kh h2 s2)) with (set_kh h' s2).
    rewrite (bind_run _ _ _ _ _ (E7 h')), (bind_run _ _ _ _ _ (E8 h')).
    exists (- ENOMEM), h', (curproc s), (cr3 s). split; [done|]. right. split_and!; [done..|]. exists G'.
    intros d' t U' B' _ Hus'. assert (d' ≠ d) by (apply Hnew; by eapply us_dir).
    apply Hk; [set_solver|]. eapply apart_uspace; [exact Ha|by eapply us_tables|done|done]. }
  rewrite (bind_run _ _ _ _ _ (E7 h2)), (bind_run _ _ _ _ _ (E8 h2)).
  pose proof (us_tables _ _ _ _ _ _ _ _ (proj1 Him)) as Htb2. set (size := image_size (program_headers c) 0) in *.
  destruct (enter_ok (set_ks v3 (set_kh h2 s2)) G2 d size (image c (program_headers c) (λ _, 0)) path argv envp (e_entry (elf_header c)) topo Uo Bo)
    as (r & h' & p' & c' & E9 & Hr); try done; [apply image_size_ge|by apply stack_limit|by eapply apart_uspace|].
  exists r, h', p', c'. split; [exact E9|].
  assert (∀ d' t U' B', d' ≠ d → uspace (kh s) G d' t U' B' → uspace h2 G2 d' t U' B') as Hk2 by (intros; by eapply apart_uspace).
  destruct Hr as [(-> & Hst & G' & B' & Hus & HB & Harg & Hgone & Hk)|(-> & -> & -> & G' & _ & _ & Hk)]; [left|right].
  - rewrite (sd_pgdir _ _ _ _ _ _ _ _ Hst) in *. split; [done|]. split; [done|]. exists G', B'. split_and!; try done.
    + intros x Hx. apply HB. lia.
    + intros d' t U' B'' Hd' Hus'. assert (d' ≠ d) by (apply Hnew; by eapply us_dir). apply Hk; [set_solver|]. by apply Hk2.
  - split_and!; [done..|]. exists G'. intros d' t U' B'' _ Hus'. assert (d' ≠ d) by (apply Hnew; by eapply us_dir).
    apply Hk; [set_solver|]. by apply Hk2.
Qed.

(** C11. [execve] on a loadable ELF file the user may run.  It returns, having
    let go of the file and its transaction.  When it returns 0, the process is
    the new program: its memory is the image the program headers describe,
    with zeroes in between, a page nobody may access and three pages of stack;
    page 0 is not accessible; it starts at the entry point with [argc], [argv]
    and [envp] in its registers, the two vectors are in its memory, ended by a
    null pointer, and their pointers lead to the strings; the stack pointer is
    8 modulo 16, below everything and inside the stack; the old address space
    is given back.  Otherwise it returns [-ENOMEM], with the process and its
    address space as they were.  No other address space changes. *)
Theorem execve_starts_program s v2 v3 G path ip c argv envp topo Uo Bo :
  executable (ks s) v2 v3 path ip c → loadable c → fits argv envp →
  length elf0 = EHDR_SIZE → length ph0 = PHDR_SIZE → unmarked v3 (File.my_ofile self v3) →
  tables (kh s) G → owned G → enough 3 G → uspace (kh s) G (pgdir (curproc s)) topo Uo Bo →
  outcome s v3 G path c argv envp (execve path argv envp) s.
Proof.
  intros [(v0 & v1 & F0 & F1 & F2) (n & Hfile & Hmay) Hbytes (v4 & F3 & F4)] Hld Hfit Helf Hph Hun Htb Hown He Hold.
  pose proof Hld as [L1 L2 _ _]. set (s2 := set_ks v2 s).
  assert (onf (Fs.the_inode ip) s2 = Ok (n, s2)) as E3.
  { unfold onf, onv, zoom, File.onfs, Fs.the_inode. cbn [ks s2 set_ks]. destruct Hfile as [[-> _ _ _ _] _ _ _ _ _ _]. cbn.
    rewrite Nat.eqb_refl, andb_false_r. by destruct v2. }
  assert (program s2 ip c) as Hpg by (split; [by exists n|done]).
  pose proof (read_run dev_read s2 ip c 0 EHDR_SIZE Hpg ltac:(lia) ltac:(unfold EHDR_SIZE; lia)) as E4.
  rewrite Nat2Z.id in E4. change (get_bytes c (Z.to_nat 0) EHDR_SIZE) with (elf_header c) in E4.
  assert (length (elf_header c) = EHDR_SIZE) as El by (apply length_get_bytes; done).
  destruct (load_program_ok s v2 v3 v4 G path ip c argv envp topo Uo Bo) as (r & h' & p' & c' & E & Hr); try done.
  exists r, h', p', c'. split; [|exact Hr]. rewrite <- E.
  unfold Exec.execve. rewrite (bind_run _ _ _ _ _ (onv_run _ s _ _ F0)), (bind_run _ _ _ _ _ (onv_run _ (set_ks v0 s) _ _ F1)).
  cbn [set_ks]. rewrite (bind_run _ _ _ _ _ (onv_run _ (set_ks v1 s) _ _ F2)). fold s2.
  rewrite (bind_run _ _ _ _ _ E3), Hmay. cbn [negb].
  rewrite (bind_run _ _ _ _ _ E4). rewrite put_bytes_whole by congruence. rewrite (proj2 (Z.ltb_ge _ _)) by lia. by rewrite L2.
Qed.

End enter.

(** ** Example: the process of VmThm.v runs "/a"

    The file has the two headers and one segment, the file itself at address
    0x1000. *)

Import VmThm(ex_page, ex_kernel_end, ex_h, ex_G, ex_tables, ex_owned, ex_enough, ex_pte, ex_frames).
Import Block(mkabs).

Definition ex_elf : list Z :=
  [127; 69; 76; 70; 2; 1; 1; 0] ++ replicate 16 0 ++ le_bytes 8 0x1000 ++ le_bytes 8 64 ++ replicate 16 0 ++ le_bytes 2 1 ++ replicate 6 0.
Definition ex_phdr : list Z :=
  le_bytes 4 1 ++ le_bytes 4 5 ++ le_bytes 8 0 ++ le_bytes 8 0x1000 ++ le_bytes 8 0x1000 ++ le_bytes 8 120 ++ le_bytes 8 200 ++ le_bytes 8 4096.
Definition ex_program : list Z := ex_elf ++ ex_phdr.

Definition ex_node : Fs.dinode := Fs.mkdinode 0 0 0 120 (Z.lor Fs.S_IFREG S_IXUSR) 0 0 (7 :: replicate 9 0) 0 0 1.
Definition ex_disk : Fs.fs :=
  let zeros := replicate Block.BSIZE 0 in
  Fs.mkfs (mkabs (<[3 := Fs.put_dinode (Fs.put_dinode zeros (Fs.ioff 1) 0 FsPath.sample_root) (Fs.ioff 2) 0 ex_node]>
               (<[4 := 255 :: replicate (Block.BSIZE - 1) 0]>
               (<[6 := FsPath.sample_entry ++ replicate (Block.BSIZE - 260) 0]>
               (<[7 := ex_program ++ replicate (Block.BSIZE - 120) 0]>
               (list_to_map ((λ b, (b, zeros)) <$> seqZ 0 24)))))) ∅ ∅)
    [] (Fs.mksb Fs.SIGNATURE 24 18 16 1 2 3 4)
    [Fs.mkinode 1 1 1 false false FsPath.sample_root; Fs.mkinode 0 0 0 false false ex_node; Fs.mkinode 0 0 0 false false ex_node] 9.
Definition ex_files : File.vfs := File.mkvfs ex_disk [] [replicate 16 None] [0%nat] [] ∅ ∅ ∅ 0 [].
Definition ex_proc : proc := mkproc (ex_page 2) 4096 (replicate 16 0) 0 0 0 0 0 0 0 0 [1; 2] 1 (Sysfile.mkcred 0 []).
Definition ex_state : exec := mkexec ex_h ex_files ex_proc 0.

(** The states of the file system on the way. *)
Definition after {S A} (m : M S A) (s : S) : S := match m s with Ok (_, t) => t | Err _ => s end.

Lemma after_run {S A} (m : M S A) s a :
  match m s with Ok (b, _) => b = a | Err _ => False end → m s = Ok (a, after m s).
Proof. unfold after. destruct (m s) as [[b t]|]; [|done]. by intros ->. Qed.

Definition ex_v0 : File.vfs := after File.begin_op ex_files.
Definition ex_v1 : File.vfs := after (File.namei_with_fd 0 (replicate 260 0) (λ _, None) File.AT_FDCWD [47; 97]) ex_v0.
Definition ex_v2 : File.vfs := after (File.onfs (Fs.inode_lock 1)) ex_v1.
Definition ex_v4 : File.vfs := after (File.onfs (Fs.inode_unlockput 1)) ex_v2.
Definition ex_v3 : File.vfs := after File.end_op ex_v4.
Definition ex_fs : Fs.fs := File.fsys ex_v2.
Definition ex_inode : Fs.inode := Fs.mkinode 1 2 1 true true ex_node.

Lemma ex_addr k : default 0 ((7 :: replicate 9 0) !! k) = if decide (k = 0%nat) then 7 else 0.
Proof. destruct k as [|k]; [done|]. rewrite decide_False by done. cbn [lookup list_lookup]. destruct (replicate 9 0 !! k) eqn:Hk; [|done]. by apply lookup_replicate in Hk as [-> _]. Qed.

Lemma ex_val s σ : FsTree.slot_ok σ → FsTree.val s (7 :: replicate 9 0) σ = if decide (σ = FsTree.SAddr 0) then 7 else 0.
Proof.
  destruct σ as [i|j|j|j k]; intros Hok; cbn [FsTree.val]; rewrite ex_addr.
  2-4: by rewrite !decide_False by (vm_compute; discriminate).
  cbn in Hok. case_decide as E.
  - rewrite decide_True; [done|]. f_equal. lia.
  - rewrite decide_False; [done|]. by intros [= ->].
Qed.

Lemma ex_sb : Fs.sb ex_fs = Fs.mksb Fs.SIGNATURE 24 18 16 1 2 3 4.
Proof. vm_compute. reflexivity. Qed.

Lemma ex_bitmap b : FsBlock.is_bitmap ex_fs b → b = 4.
Proof.
  intros (b' & Hb' & ->). unfold FsBlock.in_fs in Hb'. rewrite ex_sb in *. unfold Fs.BBLOCK. cbn [Fs.bmapstart Fs.sb_size] in *.
  rewrite Z.div_small; [done|]. change Fs.BPB with 16384. lia.
Qed.

Lemma ex_is_inode b : FsTree.is_inode ex_fs b → b = 3.
Proof.
  intros (j & Hj & ->). rewrite ex_sb in *. unfold Fs.IBLOCK. cbn [Fs.ninodes Fs.inodestart] in *. change Fs.IPB with 16.
  rewrite Z.div_small; [done|lia].
Qed.

Lemma ex_program_file : FsFile.file ex_fs 1 ex_program ex_inode.
Proof.
  assert (Hin : FsTree.inodes_ok ex_fs).
  { intros b ->%ex_is_inode. split_and!; [unfold FsBlock.in_fs; by rewrite ex_sb|vm_compute; reflexivity|]. by intros ?%ex_bitmap. }
  split; [|done..| |].
  - split; [vm_compute; reflexivity| |done| |].
    + apply FsBlock.disk_okb_ok. vm_compute. reflexivity.
    + split; [done|..].
      * intros σ τ Hσ Hτ. cbn [Fs.di Fs.addrs ex_inode ex_node]. rewrite !ex_val by done. repeat case_decide; (done || congruence).
      * intros σ Hσ. cbn [Fs.di Fs.addrs ex_inode ex_node]. rewrite ex_val by done. case_decide; [intros _|done].
        split_and!; [unfold FsBlock.in_fs; by rewrite ex_sb|vm_compute; reflexivity|by intros ?%ex_bitmap|by intros ?%ex_is_inode].
    + intros x. assert (Block.a_held (Fs.store ex_fs) = ∅) as E by (vm_compute; reflexivity). unfold FsBlock.held. by rewrite E.
  - rewrite FsFile.MAXFILE_val. cbn. lia.
  - intros o x Ho. pose proof (lookup_lt_Some _ _ _ Ho) as Hlt. change (length ex_program) with 120%nat in Hlt.
    assert (forallb (λ o, bool_decide (FsFile.byte_at ex_fs (Fs.addrs (Fs.di ex_inode)) (Z.of_nat o) = ex_program !! o)) (seq 0 120) = true)
      as H by (vm_compute; reflexivity).
    rewrite forallb_forall in H. specialize (H o ltac:(apply in_seq; lia)). apply bool_decide_eq_true in H. by rewrite H.
Qed.

Lemma ex_executable : executable 0 (replicate 260 0) (λ _, None) ex_files ex_v2 ex_v3 [47; 97] 1 ex_program.
Proof.
  split.
  - exists ex_v0, ex_v1. split; [|split]; [unfold ex_v0|unfold ex_v1|unfold ex_v2]; apply after_run; vm_compute; reflexivity.
  - exists ex_inode. split; [apply ex_program_file|vm_compute; reflexivity].
  - apply (bool_decide_unpack _). vm_compute. exact I.
  - exists ex_v4. split; [unfold ex_v4|unfold ex_v3]; apply after_run; vm_compute; reflexivity.
Qed.

Lemma ex_loadable : loadable ex_program.
Proof.
  split; [apply Nat.leb_le; vm_compute; reflexivity|vm_compute; reflexivity|vm_compute; discriminate|].
  intros ph Hph _. assert (program_headers ex_program = [ex_phdr]) as E by (vm_compute; reflexivity).
  rewrite E in Hph. apply list_elem_of_singleton in Hph as ->. split; vm_compute; (reflexivity || discriminate).
Qed.

Lemma ex_uspace : uspace ex_kernel_end 0 ex_h ex_G (ex_page 2) 4096 (λ _, true) (user_byte ex_h (ex_page 2)).
Proof.
  split; [apply ex_tables|vm_compute; reflexivity|apply ex_frames|done|..].
  - intros x Hx. unfold user_ok. rewrite ex_pte by (unfold UTOP; lia). rewrite decide_True by lia. split_and!; [vm_compute; reflexivity..|done].
  - intros x Hx. rewrite ex_pte by lia. rewrite decide_False by lia. done.
Qed.

Abbreviation ex_run := (execve ex_kernel_end 0 0 (replicate 64 0) (replicate 56 0) (replicate 260 0) 0 None (λ _, None) (λ _, None)
  [47; 97] [[97; 98]; [99]] [[120]]).

Lemma execve_starts_program_witness :
  (match ex_run ex_state with Ok (r, s') => (r =? 0) && (rip (curproc s') =? 0x1000) && (rdi (curproc s') =? 2) | Err _ => false end = true) ∧
  outcome ex_kernel_end 0 None ex_state ex_v3 ex_G [47; 97] ex_program [[97; 98]; [99]] [[120]] ex_run ex_state.
Proof.
  split; [vm_compute; reflexivity|].
  apply (execve_starts_program ex_kernel_end 0 0 None (λ _, None) (replicate 64 0) (replicate 56 0) (replicate 260 0) 0 (λ _, None)
    ex_state ex_v2 ex_v3 ex_G [47; 97] 1 ex_program [[97; 98]; [99]] [[120]] 4096 (λ _, true) (user_byte ex_h (ex_page 2))).
  - apply ex_executable.
  - apply ex_loadable.
  - split; [repeat constructor; lia|vm_compute; discriminate..].
  - reflexivity.
  - reflexivity.
  - intros f Hf. assert (File.my_ofile 0 ex_v3 = replicate 16 None) as E by (vm_compute; reflexivity). rewrite E in Hf.
    apply elem_of_replicate in Hf as [Hf _]. discriminate Hf.
  - apply ex_tables.
  - apply ex_owned.
  - by apply ex_enough; lia.
  - apply ex_uspace.
Defined.

End ExecThm.
