(* ===== verification/ExecKeep.v ===== *)
(** * Memory during [execve]

    While [execve] builds the new address space, whatever the file and the
    arguments are, it writes only pages that were free: the lemmas say, for
    each step, that the new space stays well-formed and that everything that
    is not part of it stays. *)

From S2P Require Import Prelude Mem Words Block Bio Log CType KString Heap HeapAlloc Kalloc Vm VmTable VmMap VmUser VmSpace VmCopy.
From S2P Require Import Fs FsBlock FsTree FsFile RingBuf Pipe File Sysfile Exec ExecSpace ExecLoad ExecStack ExecThm.

Module ExecKeep.
Import Heap Kalloc Vm VmTable VmMap VmUser VmSpace VmCopy Exec ExecSpace ExecLoad ExecStack ExecThm.

Abbreviation bytes_ok l := (Forall (λ b, 0 ≤ b < 256) l).

Lemma wlp_onh {A} (m : K A) (Q : A → exec → Prop) s :
  wlp m (λ a h, Q a (set_kh h s)) (kh s) → wlp (onh m) Q s.
Proof. unfold wlp, onh, zoom. by destruct (m (kh s)) as [[]|]. Qed.

Lemma wlp_onv {A} (m : File.VFS A) (Q : A → exec → Prop) s :
  (∀ a v, m (ks s) = Ok (a, v) → Q a (set_ks v s)) → wlp (onv m) Q s.
Proof. unfold wlp, onv, zoom. destruct (m (ks s)) as [[a v]|]; [|done]. intros H. by apply H. Qed.

Lemma wlp_run {S A} (m : M S A) (Q : A → S → Prop) s a s' : m s = Ok (a, s') → Q a s' → wlp m Q s.
Proof. unfold wlp. by intros ->. Qed.

(** A part whose result is 0. *)
Definition zero (m : X Z) : Prop := ∀ s, wlp m (λ r _, r = 0) s.

Lemma zero_bind {A} (m : X A) (k : A → X Z) : (∀ a, zero (k a)) → zero (m ≫= k).
Proof. intros Hk s. apply wlp_bind. unfold wlp at 1. destruct (m s) as [[a s']|]; [|done]. apply Hk. Qed.

Lemma bytes_put d off l : bytes_ok d → bytes_ok l → bytes_ok (put_bytes d off l).
Proof. intros Hd Hl. unfold put_bytes. rewrite !Forall_app. split_and!; [by apply Forall_take|done|by apply Forall_drop]. Qed.

Lemma s64_range z : - 2 ^ 63 ≤ s64 z < 2 ^ 63.
Proof. unfold sx. pose proof (Z.mod_pos_bound z (2 ^ 64) ltac:(done)). case_match eqn:E; [apply Z.ltb_lt in E|apply Z.ltb_ge in E]; cbn in *; lia. Qed.

(** ** Reading the file at any offset *)

Definition inside (c : list Z) (off : Z) : bool := bool_decide (0 ≤ off ≤ length c).
Definition piece (c : list Z) (off n : Z) : list Z :=
  if inside c off then get_bytes c (Z.to_nat off) (Z.to_nat n) else [].

Lemma piece_ok c off n : bytes_ok c → 0 ≤ n → bytes_ok (piece c off n) ∧ length (piece c off n) ≤ n.
Proof.
  intros Hc Hn. unfold piece, get_bytes. case_match; [|done]. split; [by apply Forall_take, Forall_drop|].
  rewrite length_take. lia.
Qed.

Lemma read_any dev_read s ip c off n :
  program s ip c → - 2 ^ 63 ≤ off < 2 ^ 63 → 0 ≤ n < 2 ^ 62 →
  ∃ r, onf (Fs.inode_read dev_read ip off n) s = Ok ((r, piece c off n), s) ∧ (r <? 0) = negb (inside c off).
Proof.
  intros Hp Hoff Hn. unfold piece, inside. case_bool_decide as Hin.
  - eexists. split; [by apply read_run|]. apply Z.ltb_ge. lia.
  - exists (- Fs.EDOM). split; [|done]. pose proof (program_short _ _ _ Hp). destruct Hp as [[nd Hf] _].
    unfold onf, onv, zoom, File.onfs.
    assert (Fs.inode_read dev_read ip off n (File.fsys (ks s)) = Ok ((- Fs.EDOM, []), File.fsys (ks s))) as E.
    { destruct Hf as [Hf Hlk Hreg _ Hsz _ _]. unfold Fs.inode_read.
      rewrite (FsFile.locked_bind ip nd) by (apply Hf || done). rewrite Hreg, Hsz.
      rewrite (proj2 (Z.ltb_lt _ _)); [done|]. destruct (decide (0 ≤ off)); [rewrite wrap_small; lia|].
      unfold wrap. rewrite <- (Z.mod_unique off (2 ^ 64) (-1) (off + 2 ^ 64)); lia. }
    rewrite E, Nat.eqb_refl, andb_false_r. by destruct s as [? []].
Qed.

Section keep.
Context (kernel_end available_memory : Z) (dev_read : Z → option (Z → nat → Z → Fs.FS (Z * list Z))).

Abbreviation uspace := (uspace kernel_end available_memory).
Abbreviation tables := (tables kernel_end available_memory).

Implicit Types (s : exec) (h : kheap) (G : gmap Z role).

(** ** Segments *)

Lemma load_loop_any (fuel : nat) : ∀ s G d top U B ip c addr off n i,
  uspace (kh s) G d top U B → program s ip c → 0 ≤ addr → addr mod 4096 = 0 → addr + n ≤ top → 0 ≤ i → i mod 4096 = 0 →
  wlp (load_loop dev_read fuel d addr ip off n i)
    (λ _ s', ∃ h' B', s' = set_kh h' s ∧ uspace h' G d top U B' ∧ apart d G (kh s) G h') s.
Proof.
  induction fuel as [|fuel IH]; intros s G d top U B ip c addr off n i Hus Hpg Ha Hal Hend Hi Him; cbn [load_loop].
  all: pose proof (us_top _ _ _ _ _ _ _ _ Hus) as Ht; assert (USERTOP < 2 ^ 62) as HU by done.
  all: destruct (Z.leb_spec n i) as [Hle|Hgt]; [apply wlp_ret; exists (kh s), B; split_and!; [by destruct s|done|apply apart_refl]|].
  1: apply wlp_fail.
  rewrite (wrap_small 64) by lia. set (m := if n - i <? PGSIZE then n - i else PGSIZE).
  assert (0 < m ≤ 4096 ∧ m ≤ n - i) as [Hm Hmn] by (unfold m, PGSIZE; destruct (Z.ltb_spec (n - i) 4096); lia).
  destruct (piece_ok c (s64 (off + i)) m (proj2 Hpg) ltac:(lia)) as [Hb Hl]. set (l := piece c (s64 (off + i)) m) in *.
  destruct (load_page kernel_end available_memory s G d top U B (addr + i) l) as (e & p & h1 & E1 & Hp & E2 & E3 & Hus1 & Ha1); try done; try lia.
  { by rewrite Z.add_mod, Hal, Him. }
  apply wlp_bind, (wlp_run _ _ _ _ _ (onh_run _ s _ _ E1)). rewrite (proj2 (Z.eqb_neq _ _)) by done.
  replace (set_kh (kh s) s) with s by (by destruct s). apply wlp_bind, (wlp_run _ _ _ _ _ (onh_run _ s _ _ E2)).
  replace (set_kh (kh s) s) with s by (by destruct s).
  destruct (read_any dev_read s ip c (s64 (off + i)) m Hpg (s64_range _) ltac:(lia)) as (r & Er & _). fold l in Er.
  apply wlp_bind, (wlp_run _ _ _ _ _ Er). apply wlp_bind, (wlp_run _ _ _ _ _ (onh_run _ s _ _ E3)).
  destruct (negb _); [apply wlp_ret; eauto|].
  eapply wlp_mono; [apply (IH (set_kh h1 s) G d top U (overlay B (addr + i) l) ip c addr off n (i + PGSIZE)); try done|].
  { unfold PGSIZE. lia. } { unfold PGSIZE. by rewrite Z.add_mod, Him. }
  intros _ s' (h' & B' & -> & Hus' & Ha'). exists h', B'. split; [done|]. split; [done|]. by eapply apart_trans.
Qed.

(** The headers [load_segments] works on: a read at the end of the file is
    short and leaves bytes of the header before it, one behind it ends the
    loop. *)
Fixpoint headers_met (c ph : list Z) (off : Z) (k : nat) : list (list Z) :=
  match k with
  | O => []
  | S k =>
      if inside c (s64 off) then
        let ph := put_bytes ph 0 (get_bytes c (Z.to_nat (s64 off)) PHDR_SIZE) in
        ph :: headers_met c ph (u64 (off + PHDR_SIZE)) k
      else []
  end.

Lemma judge_wlp s ph : wlp (judge ph) (λ v s', s' = s ∧
  (v = Load → loads ph = true ∧ p_filesz ph ≤ p_memsz ph ∧ p_vaddr ph ≤ u64 (p_vaddr ph + p_memsz ph))) s.
Proof.
  unfold judge, loads. destruct (p_type ph =? PT_LOAD); [|done]. destruct (p_memsz ph =? 0); [done|]. cbn [negb andb].
  destruct (p_align ph =? 0); [done|]. destruct (negb _); [done|]. destruct (Z.ltb_spec (p_memsz ph) (p_filesz ph)); [done|].
  destruct (Z.ltb_spec (u64 (p_vaddr ph + p_memsz ph)) (p_vaddr ph)); [done|]. by apply wlp_ret.
Qed.

Lemma alloc_any h G d size newsz :
  (∃ U B, uspace h G d (page_up size) U B) → 0 ≤ size → newsz ≤ USERTOP →
  ∃ r h1 G1, allocuvm kernel_end available_memory d size newsz h = Ok (r, h1) ∧ apart d G h G1 h1 ∧
    ((r = 0 ∧ ∃ top U B, uspace h1 G1 d top U B) ∨ (r = Z.max size newsz ∧ ∃ U B, uspace h1 G1 d (page_up r) U B)).
Proof.
  intros (U & B & Hus) Hsz Hlim. assert (USERTOP < KERNBASE) as HU by done. destruct (decide (newsz < size)) as [Hlt|Hge].
  - exists size, h, G. split; [|split; [apply apart_refl|right; split; [lia|by eauto]]]. unfold allocuvm.
    rewrite (proj2 (Z.leb_gt _ _)), (proj2 (Z.ltb_lt _ _)) by lia. done.
  - destruct (uspace_alloc kernel_end available_memory h G d _ U B size newsz Hus eq_refl ltac:(lia) Hlim) as (r & h1 & G1 & E & Ha & Hr).
    exists r, h1, G1. split; [done|]. split; [done|]. destruct Hr as [[-> ?]|[-> ?]]; [right|left; by eauto].
    rewrite Z.max_r by lia. by eauto.
Qed.

(** What [load_segments] leaves behind. *)
Definition segments_left s G d (limit : Z) (r : Z + Z) s' : Prop :=
  ∃ h' G', s' = set_kh h' s ∧ apart d G (kh s) G' h' ∧
    match r with
    | inl _ => ∃ top U B, uspace h' G' d top U B
    | inr size => 0 ≤ size ≤ limit ∧ ∃ U B, uspace h' G' d (page_up size) U B
    end.

Lemma segments_left_trans s h1 G G1 d limit r s' :
  apart d G (kh s) G1 h1 → segments_left (set_kh h1 s) G1 d limit r s' → segments_left s G d limit r s'.
Proof. intros Ha (h' & G' & -> & Ha' & Hr). exists h', G'. split; [done|]. split; [by eapply apart_trans|done]. Qed.

Lemma load_segments_any (k : nat) : ∀ s G d size ip c limit ph off,
  (∃ U B, uspace (kh s) G d (page_up size) U B) → program s ip c → 0 ≤ size ≤ limit → limit ≤ USERTOP → bytes_ok ph →
  (∀ ph', ph' ∈ headers_met c ph off k → loads ph' = true → p_vaddr ph' + p_memsz ph' ≤ limit) →
  wlp (load_segments kernel_end available_memory dev_read k d ip ph off size) (segments_left s G d limit) s.
Proof.
  induction k as [|k IH]; intros s G d size ip c limit ph off Hus Hpg Hsz Hlim Hph Hlow; cbn [load_segments].
  { apply wlp_ret. exists (kh s), G. split; [by destruct s|]. split; [apply apart_refl|done]. }
  destruct (read_any dev_read s ip c (s64 off) PHDR_SIZE Hpg (s64_range _) ltac:(unfold PHDR_SIZE; lia)) as (r & Er & Hr).
  apply wlp_bind, (wlp_run _ _ _ _ _ Er). rewrite Hr. cbn [headers_met] in Hlow.
  destruct (piece_ok c (s64 off) PHDR_SIZE (proj2 Hpg) ltac:(unfold PHDR_SIZE; lia)) as [Hpb _]. unfold piece in *.
  destruct (inside c (s64 off)); cbn [negb].
  2: { apply wlp_ret. exists (kh s), G. split; [by destruct s|]. split; [apply apart_refl|]. destruct Hus as (? & ? & ?). eauto. }
  rewrite Nat2Z.id in *. set (ph1 := put_bytes ph 0 _) in *. assert (bytes_ok ph1) as Hph1 by (by apply bytes_put).
  assert (∀ ph', ph' ∈ headers_met c ph1 (u64 (off + PHDR_SIZE)) k → loads ph' = true → p_vaddr ph' + p_memsz ph' ≤ limit) as Hlow'
    by (intros ph' Hin; apply Hlow; by right).
  apply wlp_bind. eapply wlp_mono; [apply judge_wlp|]. intros v ? [-> Hv]. destruct v.
  - by eapply IH.
  - apply wlp_ret. exists (kh s), G. split; [by destruct s|]. split; [apply apart_refl|]. destruct Hus as (? & ? & ?). eauto.
  - destruct (Hv eq_refl) as (Hl & Hf & _). assert (USERTOP < 2 ^ 62) as HU by done.
    pose proof (Hlow ph1 ltac:(by left) Hl) as Hl1.
    pose proof (header_range 8 ph1 16 Hph1) as R1. pose proof (header_range 8 ph1 40 Hph1) as R2. pose proof (header_range 8 ph1 32 Hph1) as R3.
    fold (p_vaddr ph1) in R1. fold (p_memsz ph1) in R2. fold (p_filesz ph1) in R3. rewrite (wrap_small 64 (p_vaddr ph1 + p_memsz ph1)) by lia.
    destruct (alloc_any (kh s) G d size (p_vaddr ph1 + p_memsz ph1) Hus ltac:(lia) ltac:(lia)) as (r' & h1 & G1 & E1 & Ha1 & Hr').
    apply wlp_bind, (wlp_run _ _ _ _ _ (onh_run _ s _ _ E1)). destruct (Z.eqb_spec r' 0) as [->|Hne].
    { apply wlp_ret. exists h1, G1. split; [done|]. split; [done|]. destruct Hr' as [[_ ?]|[_ (? & ? & ?)]]; eauto. }
    destruct Hr' as [[? _]|[Er' (U1 & B1 & Hus1)]]; [done|].
    destruct (page_up_ok r') as [_ Hup]. unfold loaduvm. destruct (Z.eqb_spec (p_vaddr ph1 mod PGSIZE) 0) as [Hal|]; cbn [negb].
    2: { by apply wlp_bind, wlp_fail. }
    apply wlp_bind. eapply wlp_mono; [apply (load_loop_any _ (set_kh h1 s) G1 d (page_up r') U1 B1 ip c); try done; try lia|].
    intros r2 s2 (h2 & B2 & -> & Hus2 & Ha2). change (set_kh h2 (set_kh h1 s)) with (set_kh h2 s).
    pose proof (apart_trans _ _ _ _ _ _ _ Ha1 Ha2) as Ha. cbn [kh set_kh] in Ha.
    destruct (r2 <? 0).
    { apply wlp_ret. exists h2, G1. split; [done|]. split; [done|]. by eauto. }
    eapply wlp_mono; [apply (IH (set_kh h2 s) G1 d r' ip c limit ph1); try done; [by eauto|lia]|].
    intros r3 s3. by apply segments_left_trans.
Qed.

(** ** The stack *)

Lemma copyout_any h G d top U B va l :
  uspace h G d top U B → bytes_ok l → 0 ≤ va → va + length l ≤ top →
  ∃ r h' B', copyout d va l h = Ok (r, h') ∧ uspace h' G d top U B' ∧ apart d G h G h'.
Proof.
  intros Hus Hl Hva Htop. pose proof Hus as [Htb Hd Hfr Ht _ _]. assert (USERTOP < UTOP) by done.
  destruct (copyout_loop_ok kernel_end available_memory (length l) h G d va l) as (r & h' & n & E & Hn & Hw & _ & _); try done; [lia|].
  exists r, h', (overlay B va (take n l)). split; [exact E|]. eapply uspace_written; [exact Hus| |done].
  assert (length (take n l) = n) as En by (rewrite length_take; lia). destruct Hw as [W1 W2 W3 W4 W5]. split; try done.
  intros x Hx Hpr. rewrite W4 by done. rewrite En. case_decide; [|done]. by rewrite lookup_take_lt by lia.
Qed.

Lemma push_any vec : ∀ h G d top U B idx count sp,
  uspace h G d top U B → Forall (λ l, bytes_ok l) vec → sp mod 8 = 0 → rooms vec ≤ sp → sp ≤ top →
  wlp (push_user_stack d vec idx count sp) (λ r h', (∃ B', uspace h' G d top U B') ∧ apart d G h G h' ∧
    ∀ ps sp', r = inr (ps, sp') → sp' = sp - rooms vec ∧ length ps = length vec) h.
Proof.
  induction vec as [|str vec IH]; intros h G d top U B idx count sp Hus Hvec Hal Hsp Htop; cbn [push_user_stack].
  { apply wlp_bind. unfold ustack_index. case_match; [|done]. do 2 apply wlp_ret. split_and!; [by eauto|apply apart_refl|].
    intros ps sp' [= <- <-]. cbn. split; [lia|done]. }
  apply Forall_cons in Hvec as [Hs Hvec]. cbn [rooms foldr] in *. fold (rooms vec) in *.
  destruct (room_ok str) as [Hr Hm]. pose proof (rooms_nonneg vec) as [Hrs _]. pose proof (us_top _ _ _ _ _ _ _ _ Hus) as Ht.
  assert (USERTOP < 2 ^ 64) as HU64 by done. case_match; [apply wlp_ret; split_and!; [by eauto|apply apart_refl|done]|].
  rewrite push_address by (done || lia). assert (length (str ++ [0]) = S (length str)) as El by (rewrite length_app; cbn; lia).
  destruct (copyout_any h G d top U B (sp - room str) (str ++ [0])) as (r & h1 & B1 & E1 & Hus1 & Ha1); try done; try lia.
  { apply Forall_app. split; [done|]. by repeat constructor. }
  apply wlp_bind, (wlp_run _ _ _ _ _ E1). case_match; [apply wlp_ret; split_and!; [by eauto|done|done]|].
  apply wlp_bind. unfold ustack_index at 1. case_match; [|done]. apply wlp_ret, wlp_bind.
  eapply wlp_mono; [apply (IH h1 G d top U B1 idx (count + 1) (sp - room str)); try done; try lia|].
  { apply Z.mod_divide in Hal as [a ->]; [|done]. apply Z.mod_divide in Hm as [b ->]; [|done].
    replace (a * 8 - b * 8) with ((a - b) * 8) by lia. apply Z_mod_mult. }
  intros [e|[ps sp']] h2 (Hus2 & Ha2 & Hres); apply wlp_ret; (split; [done|split; [by eapply apart_trans|]]); [done|].
  intros ? ? [= <- <-]. destruct (Hres ps sp' eq_refl) as [-> Hps]. cbn. split; [lia|by rewrite Hps].
Qed.

Context (self : nat) (parent_cred : option Sysfile.cred) (dev_close : Z → option (Z → File.VFS Z)).

Abbreviation spaces_kept := (spaces_kept kernel_end available_memory).

(** Arguments whose strings and pointers take at most four pages. *)
Record small (argv envp : list (list Z)) : Prop := {
  sm_bytes : Forall (λ l, bytes_ok l) (argv ++ envp);
  sm_room : rooms argv + rooms envp + 8 * (length argv + length envp + 6) ≤ 16384;
}.

(** The result of an attempt that fails. *)
Definition undone_by d s G (r : Z) s' : Prop := r ≠ 0 → ∃ G', spaces_kept [d] G (kh s) G' (kh s').

(** Giving up the new space. *)
Lemma drop_new_space s h G G1 d top U B e (k : X Z) :
  uspace h G1 d top U B → apart d G (kh s) G1 h → (∀ t, wlp k (λ r t', kh t' = kh t) t) → kh e = h →
  wlp (_ ← onh (freevm kernel_end available_memory d); k) (undone_by d s G) e.
Proof.
  intros Hus Ha Hk <-. destruct (free_space kernel_end available_memory dev_close [d] _ _ _ _ _ _ Hus) as (h' & G' & E & _ & _ & Hsk); [by left|].
  apply wlp_bind, (wlp_run _ _ _ _ _ (onh_run _ e _ _ E)). eapply wlp_mono; [apply Hk|]. cbn. intros r t' Et _. exists G'. rewrite Et.
  eapply spaces_kept_trans; [|exact Hsk]. eapply spaces_kept_apart; [by left|by eapply us_tables|done].
Qed.

Lemma enter_any s G d size path argv envp entry :
  (∃ U B, uspace (kh s) G d (page_up size) U B) → 0 ≤ size ≤ USERTOP - 16384 → small argv envp →
  wlp (enter kernel_end available_memory self parent_cred dev_close path argv envp d entry size) (undone_by d s G) s.
Proof.
  intros (U & B & Hus) Hsz [Hb Hroom]. apply Forall_app in Hb as [Hba Hbe]. assert (USERTOP < 2 ^ 62) as HU by done.
  destruct (page_up_ok size) as [Hal Hup]. pose proof (stack_limit size ltac:(lia)) as Hlim.
  pose proof (rooms_nonneg argv) as [Ra Ma]. pose proof (rooms_nonneg envp) as [Re Me].
  unfold enter. rewrite pgroundup_eq by lia. fold (page_up size). set (P := page_up size) in *. unfold PGSIZE.
  change (4 * 4096) with 16384. rewrite (wrap_small 64 (P + 16384)) by lia. cbv zeta.
  assert (page_up P = P ∧ page_up (P + 16384) = P + 16384) as [EP EP4].
  { apply Z.mod_divide in Hal as [k Hk]; [|done]. unfold page_up. rewrite Hk. split.
    - rewrite <- (Z.div_unique _ 4096 k 4095); lia.
    - rewrite <- (Z.div_unique _ 4096 (k + 4) 4095); lia. }
  destruct (alloc_any (kh s) G d P (P + 16384)) as (r & h1 & G1 & E1 & Ha1 & Hr); [rewrite EP; by eauto|lia|lia|].
  apply wlp_bind, (wlp_run _ _ _ _ _ (onh_run _ s _ _ E1)). destruct (Z.eqb_spec r 0) as [->|Hne].
  { assert (∃ top U B, uspace h1 G1 d top U B) as (top & U1 & B1 & Hus1) by (destruct Hr as [[_ ?]|[_ (? & ? & ?)]]; eauto).
    eapply drop_new_space; [exact Hus1|exact Ha1|by intros t|done]. }
  destruct Hr as [[? _]|[Er (U1 & B1 & Hus1)]]; [done|]. rewrite Z.max_r in Er by lia. subst r. rewrite EP4 in Hus1.
  rewrite (wrap_small 64) by lia. replace (P + 16384 - 16384) with P by lia.
  destruct (uspace_clear _ _ _ _ _ _ _ _ P Hus1 ltac:(lia)) as (h2 & E2 & Ha2 & Hus2).
  destruct (uspace_clear _ _ _ _ _ _ _ _ 0 Hus2 ltac:(lia)) as (h3 & E3 & Ha3 & Hus3).
  apply wlp_bind, (wlp_run _ _ _ _ _ (onh_run _ (set_kh h1 s) _ _ E2)).
  apply wlp_bind, (wlp_run _ _ _ _ _ (onh_run _ (set_kh h2 s) _ _ E3)).
  pose proof (apart_trans _ _ _ _ _ _ _ Ha1 (apart_trans _ _ _ _ _ _ _ Ha2 Ha3)) as Ha. clear Ha1 Ha2 Ha3 E1 E2 E3 Hus1 Hus2.
  set (top := P + 16384) in *.
  assert (top mod 8 = 0) as Htm.
  { apply Z.mod_divide in Hal as [k Hk]; [|done]. unfold top. rewrite Hk. replace (k * 4096 + 16384) with ((k * 512 + 2048) * 8) by lia.
    apply Z_mod_mult. }
  apply wlp_bind, wlp_onh. eapply wlp_mono; [apply (push_any argv _ _ _ _ _ _ 4 0 top Hus3); (done || lia)|].
  intros o h4 ((B4 & Hus4) & Ha4 & Hres). pose proof (apart_trans _ _ _ _ _ _ _ Ha Ha4) as Hk4.
  destruct o as [e|[argvs sp]]; [eapply drop_new_space; [exact Hus4|exact Hk4|by intros t|done]|].
  destruct (Hres argvs sp eq_refl) as [-> Eargv].
  apply wlp_bind, wlp_onh. eapply wlp_mono; [apply (push_any envp _ _ _ _ _ _ _ 0 (top - rooms argv) Hus4); try (done || lia)|].
  { apply Z.mod_divide in Htm as [x Hx]; [|done]. apply Z.mod_divide in Ma as [y Hy]; [|done]. rewrite Hx, Hy.
    replace (x * 8 - y * 8) with ((x - y) * 8) by lia. apply Z_mod_mult. }
  intros o h5 ((B5 & Hus5) & Ha5 & Hres'). pose proof (apart_trans _ _ _ _ _ _ _ Hk4 Ha5) as Hk5.
  destruct o as [e|[envs sp]]; [eapply drop_new_space; [exact Hus5|exact Hk5|by intros t|done]|].
  destruct (Hres' envs sp eq_refl) as [-> Eenvp]. apply wlp_bind, wlp_modify. set (u := ustack _ _ _).
  assert (length u = (length argv + length envp + 6)%nat) as Eu.
  { unfold u. rewrite <- Eargv, <- Eenvp. apply length_ustack. }
  rewrite (wrap_small 64) by lia.
  destruct (copyout_any h5 G1 d top _ B5 (top - rooms argv - rooms envp - 8 * length u) (concat (le_bytes 8 <$> u)) Hus5)
    as (r & h6 & B6 & E6 & Hus6 & Ha6); [apply Forall_concat, Forall_fmap, Forall_forall; intros v _; apply le_bytes_range|lia|rewrite length_encode; lia|].
  apply wlp_bind, (wlp_run _ _ _ _ _ (onh_run _ (set_curproc _ (set_kh h5 s)) _ _ E6)).
  destruct (r <? 0); [eapply drop_new_space; [exact Hus6|by eapply apart_trans|by intros t|done]|].
  match goal with |- wlp ?m _ _ => assert (zero m) as Hz by (repeat (apply zero_bind; intros); by intros ?) end.
  eapply wlp_mono; [apply Hz|]. by intros r' ? -> ?.
Qed.
End keep.
End ExecKeep.
