(* ===== verification/ExecFail.v ===== *)
(** * A call of [execve] that fails

    Whatever goes wrong, and in whatever state it is called, the process keeps
    the program it has. *)

From S2P Require Import Prelude Mem Words Block Bio Log CType KString Heap HeapAlloc Kalloc Vm VmTable VmMap VmUser VmSpace VmCopy VmThm.
From S2P Require Import Fs FsFile RingBuf Pipe File Sysfile Exec ExecSpace ExecLoad ExecStack ExecThm ExecKeep.

Module ExecFail.
Import Heap Kalloc Vm VmTable VmMap VmUser VmSpace Exec ExecSpace ExecLoad ExecThm ExecKeep.

(** Everything of the process but the three argument registers. *)
Definition same_image (p p' : proc) : Prop :=
  pgdir p' = pgdir p ∧ sz p' = sz p ∧ name p' = name p ∧ rip p' = rip p ∧ rsp p' = rsp p ∧
  mmap_info p' = mmap_info p ∧ mmap_count p' = mmap_count p ∧ cred p' = cred p.

(** The process and [cr3] are left alone. *)
Definition harmless {A} (m : X A) : Prop := ∀ s, wlp m (λ _ s', curproc s' = curproc s ∧ cr3 s' = cr3 s) s.

Lemma harmless_ret {A} (a : A) : harmless (mret a).
Proof. done. Qed.
Lemma harmless_fail {A} e : harmless (fail e : X A).
Proof. done. Qed.
Lemma harmless_onh {A} (m : K A) : harmless (onh m).
Proof. intros s. unfold onh, zoom, wlp. by destruct (m (kh s)) as [[]|]. Qed.
Lemma harmless_onv {A} (m : File.VFS A) : harmless (onv m).
Proof. intros s. unfold onv, zoom, wlp. by destruct (m (ks s)) as [[]|]. Qed.
Lemma harmless_onf {A} (m : Fs.FS A) : harmless (onf m).
Proof. apply harmless_onv. Qed.

Lemma harmless_bind {A B} (m : X A) (k : A → X B) : harmless m → (∀ a, harmless (k a)) → harmless (m ≫= k).
Proof.
  intros Hm Hk s. apply wlp_bind. eapply wlp_mono; [apply Hm|]. intros a s1 [E1 E2]. eapply wlp_mono; [apply Hk|].
  cbn. intros b s2 [-> ->]. done.
Qed.

Create HintDb harmless.
#[local] Hint Resolve harmless_ret harmless_fail harmless_onh harmless_onv harmless_onf : harmless.
#[local] Hint Extern 1 (harmless (panic _)) => apply harmless_fail : harmless.

Ltac harmless :=
  repeat first
    [ solve [eauto with harmless]
    | apply harmless_bind; [|intros]
    | match goal with
      | |- harmless (if ?b then _ else _) => destruct b
      | |- harmless (match ?o with _ => _ end) => destruct o
      | |- harmless (let _ := _ in _) => cbv zeta
      end ].

Section fail.
Context (kernel_end available_memory : Z) (self : nat) (elf0 ph0 de : list Z) (kpdpt : Z) (parent_cred : option Sysfile.cred).
Context (dev_close : Z → option (Z → File.VFS Z)) (dev_read : Z → option (Z → nat → Z → Fs.FS (Z * list Z))).

Lemma harmless_load fuel : ∀ d addr ip offset n i, harmless (load_loop dev_read fuel d addr ip offset n i).
Proof. induction fuel as [|fuel IH]; intros; cbn [load_loop]; harmless. Qed.

Lemma harmless_loaduvm d addr ip offset n : harmless (loaduvm dev_read d addr ip offset n).
Proof. pose proof harmless_load. unfold loaduvm. harmless. Qed.

Lemma harmless_judge ph : harmless (judge ph).
Proof. unfold judge. harmless. Qed.

Lemma harmless_segments k : ∀ d ip ph off size, harmless (load_segments kernel_end available_memory dev_read k d ip ph off size).
Proof.
  pose proof harmless_loaduvm. pose proof harmless_judge. induction k as [|k IH]; intros; cbn [load_segments]; harmless.
Qed.

Lemma harmless_bad ip e : harmless (bad ip e).
Proof. unfold bad. harmless. Qed.

(** A part that may switch the process, but only when its result is 0. *)
Definition safe (m : X Z) : Prop :=
  ∀ s, wlp m (λ r s', r ≠ 0 → same_image (curproc s) (curproc s') ∧ cr3 s' = cr3 s) s.

Lemma same_image_refl p : same_image p p.
Proof. done. Qed.

Lemma safe_harmless m : harmless m → safe m.
Proof. intros H s. eapply wlp_mono; [apply H|]. cbn. intros r s' [-> ->] _. done. Qed.

Lemma safe_bind {A} (m : X A) (k : A → X Z) : harmless m → (∀ a, safe (k a)) → safe (m ≫= k).
Proof.
  intros Hm Hk s. apply wlp_bind. eapply wlp_mono; [apply Hm|]. intros a s1 [E1 E2]. eapply wlp_mono; [apply Hk|].
  cbn. by rewrite E1, E2.
Qed.

(** The argument registers may change on the way. *)
Lemma safe_modify (f : exec → exec) (k : X Z) :
  (∀ s, same_image (curproc s) (curproc (f s)) ∧ cr3 (f s) = cr3 s) → safe k → safe (modify f ≫= λ _, k).
Proof.
  intros Hf Hk s. apply wlp_bind, wlp_modify. eapply wlp_mono; [apply Hk|]. cbn.
  intros r s' H Hr. destruct (H Hr) as [H1 ->]. destruct (Hf s) as [H2 ->]. split; [|done]. unfold same_image in *.
  destruct H1 as (-> & -> & -> & -> & -> & -> & -> & ->). exact H2.
Qed.

(** After the switch the result is 0. *)
Lemma zero_safe m : zero m → safe m.
Proof. intros H s. eapply wlp_mono; [apply H|]. by intros r s' ->. Qed.

Lemma safe_enter path argv envp d entry size :
  safe (enter kernel_end available_memory self parent_cred dev_close path argv envp d entry size).
Proof.
  unfold enter. cbv zeta.
  assert (∀ e, safe (_ ← onh (freevm kernel_end available_memory d); mret (bad_result e))) as Hbad by (intros; apply safe_harmless; harmless).
  apply safe_bind; [harmless|]. intros sz'. destruct (sz' =? 0); [apply Hbad|].
  do 2 (apply safe_bind; [harmless|]; intros _). apply safe_bind; [harmless|]. intros [?|[argvs sp]]; [apply Hbad|].
  apply safe_bind; [harmless|]. intros [?|[envs sp']]; [apply Hbad|].
  apply safe_modify; [done|]. apply safe_bind; [harmless|]. intros r. destruct (r <? 0); [apply Hbad|].
  apply zero_safe. repeat (apply zero_bind; intros). by intros s.
Qed.

Lemma safe_load_program path argv envp ip elf :
  safe (load_program kernel_end available_memory self ph0 kpdpt parent_cred dev_close dev_read path argv envp ip elf).
Proof.
  pose proof harmless_segments. pose proof harmless_bad. unfold load_program.
  apply safe_bind; [harmless|]. intros d. destruct (d =? 0); [apply safe_harmless; harmless|].
  apply safe_bind; [harmless|]. intros [e|size]; [apply safe_harmless; harmless|].
  do 2 (apply safe_bind; [harmless|]; intros _). apply safe_enter.
Qed.

Lemma execve_image path argv envp :
  safe (execve kernel_end available_memory self elf0 ph0 de kpdpt parent_cred dev_close dev_read path argv envp).
Proof.
  pose proof harmless_bad. unfold execve. do 2 (apply safe_bind; [harmless|]; intros). case_match; [|apply safe_harmless; harmless].
  do 2 (apply safe_bind; [harmless|]; intros). case_match; [apply safe_harmless; harmless|].
  apply safe_bind; [harmless|]. intros [r' bs]. case_match; [by apply safe_harmless|]. case_match; [by apply safe_harmless|].
  apply safe_load_program.
Qed.

(** ** Memory *)

Abbreviation uspace := (uspace kernel_end available_memory).
Abbreviation tables := (tables kernel_end available_memory).

(** Every address space keeps its pages, their permissions and their bytes. *)
Definition memory_kept (G : gmap Z role) (h h' : kheap) : Prop :=
  ∃ G', ∀ d top U B, uspace h G d top U B → uspace h' G' d top U B.

Lemma memory_kept_refl G h : memory_kept G h h.
Proof. by exists G. Qed.

(** The header of the file, as [execve] has it on its stack. *)
Definition elf_in_hand (c : list Z) : list Z := put_bytes elf0 0 (get_bytes c 0 EHDR_SIZE).

(** No header the call meets asks for memory less than 16 KiB below
    [USERTOP], which leaves the room of the stack. *)
Definition low_segments (c : list Z) : Prop :=
  ∀ ph, ph ∈ headers_met c ph0 (e_phoff (elf_in_hand c)) (Z.to_nat (e_phnum (elf_in_hand c))) → loads ph = true →
    p_vaddr ph + p_memsz ph ≤ 0x1d9fc000.

(** If the path leads to a file, it is a well-formed one with low segments. *)
Definition low_program (v : File.vfs) (path : list Z) : Prop :=
  ∀ v0 ip v1 v2, File.begin_op v = Ok (tt, v0) → File.namei_with_fd self de dev_read File.AT_FDCWD path v0 = Ok (Some ip, v1) →
    File.onfs (Fs.inode_lock ip) v1 = Ok (tt, v2) →
    ∃ c n, FsFile.file (File.fsys v2) ip c n ∧ bytes_ok c ∧ low_segments c.

(** The parts that only use the file system. *)
Lemma bad_heap ip e t : wlp (bad ip e) (λ _ t', kh t' = kh t) t.
Proof. unfold bad. apply wlp_bind, wlp_onv. intros _ v1 _. apply wlp_bind, wlp_onv. intros _ v2 _. by apply wlp_ret. Qed.

Lemma load_program_any s G path argv envp ip c :
  program s ip c → low_segments c → bytes_ok ph0 → small argv envp → tables (kh s) G → owned G → enough 3 G →
  wlp (load_program kernel_end available_memory self ph0 kpdpt parent_cred dev_close dev_read path argv envp ip (elf_in_hand c))
    (λ r s', r ≠ 0 → memory_kept G (kh s) (kh s')) s.
Proof.
  intros Hpg Hlow Hph Hsm Htb Hown He. unfold load_program.
  destruct (setupkvm_ok _ _ (kh s) G kpdpt Htb He) as (d & p4 & p3 & h1 & G1 & E & Hfresh & _ & Hp & Hkp).
  destruct (fresh_uspace _ _ _ _ _ _ (kh s) _ _ _ Hown Hfresh Hp Hkp) as (Hus1 & Ha1 & Hnew).
  apply wlp_bind, (wlp_run _ _ _ _ _ (onh_run _ s _ _ E)).
  destruct (page_bounds _ _ h1 G1 (us_tables _ _ _ _ _ _ _ _ Hus1) d _ (us_dir _ _ _ _ _ _ _ _ Hus1)) as [Hdb _].
  rewrite (proj2 (Z.eqb_neq d 0)) by (unfold KERNBASE, PHYSLIMIT in *; lia).
  assert (∀ r s', undone_by kernel_end available_memory d s G r s' → r ≠ 0 → memory_kept G (kh s) (kh s')) as Hdone.
  { intros r s' Hu Hr. destruct (Hu Hr) as [G' Hk]. exists G'. intros d' top U B Hus. apply Hk; [|done].
    rewrite list_elem_of_singleton. apply Hnew. by eapply us_dir. }
  apply wlp_bind. eapply wlp_mono; [apply (load_segments_any kernel_end available_memory dev_read _ (set_kh h1 s) G1 d 0 ip c (USERTOP - 16384)); try done|].
  { change (page_up 0) with 0. by eauto. }
  intros o s2 (h2 & G2 & -> & Ha2 & Ho). pose proof (apart_trans _ _ _ _ _ _ _ Ha1 Ha2) as Ha.
  eapply wlp_mono; [|exact Hdone]. destruct o as [e|size].
  - destruct Ho as (top & U & B & Hus2). eapply drop_new_space; [exact dev_close|exact Hus2|exact Ha|apply bad_heap|done].
  - destruct Ho as [Hsz Hus2]. apply wlp_bind, wlp_onv. intros _ v1 _. apply wlp_bind, wlp_onv. intros _ v2 _.
    eapply wlp_mono; [apply (enter_any _ _ _ _ _ (set_ks v2 (set_kh h2 s)) G2 d size); done|]. intros r s' Hu Hr.
    destruct (Hu Hr) as [G' Hk]. exists G'. eapply spaces_kept_trans; [|exact Hk].
    destruct Hus2 as (U & B & Hus2). eapply spaces_kept_apart; [by left|by eapply us_tables|done].
Qed.

Lemma execve_memory path argv envp s G :
  low_program (ks s) path → bytes_ok ph0 → small argv envp → tables (kh s) G → owned G → enough 3 G →
  wlp (execve kernel_end available_memory self elf0 ph0 de kpdpt parent_cred dev_close dev_read path argv envp)
    (λ r s', r ≠ 0 → memory_kept G (kh s) (kh s')) s.
Proof.
  intros Hlow Hph Hsm Htb Hown He. unfold execve. apply wlp_bind, wlp_onv. intros [] v0 E0. apply wlp_bind, wlp_onv. intros o v1 E1.
  destruct o as [ip|]; [|apply wlp_bind, wlp_onv; intros; apply wlp_ret; intros; apply memory_kept_refl].
  apply wlp_bind, wlp_onv. intros [] v2 E2. destruct (Hlow v0 ip v1 v2 E0 E1 E2) as (c & n & Hf & Hb & Hseg).
  set (s2 := set_ks v2 (set_ks v1 (set_ks v0 s))). assert (program s2 ip c) as Hpg by (split; [by exists n|done]).
  apply wlp_bind, wlp_onv. intros n' v3 E3. assert (v3 = v2) as ->.
  { unfold File.onfs, Fs.the_inode in E3. destruct Hf as [[Hi _ _ _ _] _ _ _ _ _ _]. cbn [ks set_ks s2] in E3.
    rewrite Hi in E3. cbn in E3. rewrite Nat.eqb_refl, andb_false_r in E3. injection E3 as _ <-. by destruct v2. }
  destruct (negb (may_execute n')).
  { apply wlp_bind, wlp_onv. intros _ v4 _. apply wlp_bind, wlp_onv. intros _ v5 _. apply wlp_ret. intros _. apply memory_kept_refl. }
  change (set_ks v2 s2) with s2.
  destruct (read_any dev_read s2 ip c 0 EHDR_SIZE Hpg ltac:(lia) ltac:(unfold EHDR_SIZE; lia)) as (r & Er & _).
  assert (piece c 0 EHDR_SIZE = get_bytes c 0 EHDR_SIZE) as Ep.
  { unfold piece, inside. rewrite bool_decide_eq_true_2 by lia. by rewrite Nat2Z.id. }
  rewrite Ep in Er. apply wlp_bind, (wlp_run _ _ _ _ _ Er). fold (elf_in_hand c).
  assert (∀ e, wlp (bad ip e) (λ r s', r ≠ 0 → memory_kept G (kh s) (kh s')) s2) as Hbad.
  { intros e. eapply wlp_mono; [apply bad_heap|]. cbn. intros ? ? -> _. apply memory_kept_refl. }
  case_match; [apply Hbad|]. case_match; [apply Hbad|]. by apply (load_program_any s2 G path argv envp ip c).
Qed.

(** C20. A failed [execve] does not harm the caller.  In whatever state and with
    whatever file and arguments it is called, when it returns anything but 0
    the process has the address space, size, name, entry point, stack pointer,
    mappings and credentials it had, and [cr3] still points to its tables.
    With three free pages, arguments of at most 16 KiB and a file whose
    segments end 16 KiB below 0x1da00000, its memory is untouched too: in its
    address space, as in every other one, every page is mapped as it was,
    accessible as it was, and holds the bytes it held. *)
Theorem execve_failure_keeps_process path argv envp s r s' G :
  execve kernel_end available_memory self elf0 ph0 de kpdpt parent_cred dev_close dev_read path argv envp s = Ok (r, s') → r ≠ 0 →
  (same_image (curproc s) (curproc s') ∧ cr3 s' = cr3 s) ∧
  (low_program (ks s) path → bytes_ok ph0 → small argv envp → tables (kh s) G → owned G → enough 3 G →
    ∃ G', ∀ d top U B, uspace (kh s) G d top U B → uspace (kh s') G' d top U B).
Proof.
  intros E Hr. split.
  - exact (wlp_ok _ _ _ _ _ (execve_image path argv envp s) E Hr).
  - intros Hlow Hph Hsm Htb Hown He. exact (wlp_ok _ _ _ _ _ (execve_memory path argv envp s G Hlow Hph Hsm Htb Hown He) E Hr).
Qed.

End fail.

Lemma ok_state {S A} (a b : A) (s t : S) : Ok (a, s) = Ok (b, t) → s = t.
Proof. by intros [=]. Qed.

(** 33 arguments are one too many: the new address space is given up when the
    stack is built. *)
Lemma execve_failure_keeps_process_witness :
  ∃ s', execve VmThm.ex_kernel_end 0 0 (replicate 64 0) (replicate 56 0) (replicate 260 0) 0 None (λ _, None) (λ _, None)
      [47; 97] (replicate 33 [97]) [] ExecThm.ex_state = Ok (- Vm.EFAULT, s') ∧
    (same_image (curproc ExecThm.ex_state) (curproc s') ∧ cr3 s' = 0) ∧
    ∃ G', ExecSpace.uspace VmThm.ex_kernel_end 0 (kh s') G' (VmThm.ex_page 2) 4096 (λ _, true)
      (VmCopy.user_byte VmThm.ex_h (VmThm.ex_page 2)).
Proof.
  set (run := execve _ _ _ _ _ _ _ _ _ _ _ _ _).
  assert (∃ s', run ExecThm.ex_state = Ok (- Vm.EFAULT, s')) as [s' E].
  { exists (ExecThm.after run ExecThm.ex_state). apply ExecThm.after_run. vm_compute. reflexivity. }
  exists s'. split; [exact E|].
  destruct (execve_failure_keeps_process _ _ _ _ _ _ _ _ _ _ _ _ _ _ _ _ VmThm.ex_G E ltac:(discriminate)) as [H1 H2].
  split; [exact H1|]. destruct H2 as [G' HG].
  - intros v0 ip v1 v2 E0 E1 E2. destruct ExecThm.ex_executable as [(w0 & w1 & F0 & F1 & F2) (n & Hf & _) Hb _].
    pose proof (eq_trans (eq_sym F0) E0) as X0. injection X0 as <-.
    pose proof (eq_trans (eq_sym F1) E1) as X1. injection X1 as <- <-.
    pose proof (ok_state _ _ _ _ (eq_trans (eq_sym F2) E2)) as X2. destruct X2.
    exists ExecThm.ex_program, n. split; [exact Hf|]. split; [exact Hb|]. intros ph Hph _.
    assert (headers_met ExecThm.ex_program (replicate 56 0) (e_phoff (elf_in_hand (replicate 64 0) ExecThm.ex_program))
      (Z.to_nat (e_phnum (elf_in_hand (replicate 64 0) ExecThm.ex_program))) = [ExecThm.ex_phdr]) as Eh by (vm_compute; reflexivity).
    rewrite Eh in Hph. apply list_elem_of_singleton in Hph as ->. vm_compute. discriminate.
  - apply (bool_decide_unpack _). vm_compute. exact I.
  - split; [apply (bool_decide_unpack _); vm_compute; exact I|vm_compute; discriminate].
  - apply VmThm.ex_tables.
  - apply VmThm.ex_owned.
  - apply VmThm.ex_enough. lia.
  - exists G'. apply HG, ExecThm.ex_uspace.
Defined.

End ExecFail.
