(* ===== verification/Syscall.v ===== *)
(** * The arguments of system calls (kernel/syscall.c, sys_execve of kernel/sysfile.c)

    A call gets its arguments in registers; pointers among them are checked
    against the size of the process, and the kernel then reads the memory of
    the process through its page tables, where a page that is not there is a
    fault. *)

From S2P Require Import Prelude Mem Words Block Bio Log CType KString Heap HeapAlloc Kalloc Vm VmTable VmMap VmUser VmSpace VmCopy.
From S2P Require Import VmThm Fs FsBlock FsTree FsFile FsPath RingBuf Pipe File Sysfile Exec ExecSpace ExecLoad ExecStack ExecThm.

Module Syscall.
Import Heap Kalloc Vm VmTable VmMap VmUser VmCopy Exec ExecSpace ExecStack.

(** A byte of the current process. *)
Definition fetch_byte (a : Z) : X Z := λ s,
  let d := pgdir (curproc s) in
  if has (pte (kh s) d a) PTE_P then Ok (user_byte (kh s) d a, s) else Err EFault.

Fixpoint fetch_bytes (n : nat) (a : Z) : X (list Z) :=
  match n with
  | O => mret []
  | S n => b ← fetch_byte a; l ← fetch_bytes n (a + 1); mret (b :: l)
  end.

(** [SYSCALL_ARG_FETCH] for a type of [n] bytes: the value, or the error. *)
Definition fetch (n : nat) (addr : Z) : X (Z + Z) :=
  size ← gets (λ s, sz (curproc s));
  if (size <=? addr) || (size <? u64 (addr + n)) then mret (inl (- Vm.EFAULT))
  else l ← fetch_bytes n addr; mret (inr (le_val l)).

Definition fetchint (addr : Z) : X (Z + Z) := v ← fetch 4 addr; mret (match v with inl e => inl e | inr x => inr (s32 x) end).
Definition fetchunsigned_int (addr : Z) : X (Z + Z) := fetch 4 addr.
Definition fetchuintptr_t (addr : Z) : X (Z + Z) := fetch 8 addr.
Definition fetchunsigned_long (addr : Z) : X (Z + Z) := fetch 8 addr.

(** The loop of [fetchstr], from [a] to the end of the process: the length, or
    [None] when the string has no end; the byte at 0 is not looked at. *)
Fixpoint string_loop (k : nat) (a : Z) : X (option Z) :=
  match k with
  | O => mret None
  | S k =>
      b ← (if a =? 0 then mret 1 else fetch_byte a);
      if b =? 0 then mret (Some 0)
      else o ← string_loop k (a + 1); mret (Z.succ <$> o)
  end.

(** The length, or the error; [addr] is the pointer the caller gets. *)
Definition fetchstr (addr : Z) : X (Z + Z) :=
  size ← gets (λ s, sz (curproc s));
  if size <=? addr then mret (inl (- Vm.EFAULT))
  else
    o ← string_loop (Z.to_nat (size - addr)) addr;
    mret (match o with Some n => inr n | None => inl (-1) end).

Definition fetcharg (n : Z) : X Z :=
  p ← gets curproc;
  if n =? 0 then mret (rdi p)
  else if n =? 1 then mret (rsi p)
  else if n =? 2 then mret (rdx p)
  else if n =? 3 then mret (r10 p)
  else if n =? 4 then mret (r8 p)
  else if n =? 5 then mret (r9 p)
  else fail EFault.

(** [SYSCALL_ARG_N]: the register, converted to the type. *)
Definition argint (n : Z) : X Z := v ← fetcharg n; mret (s32 v).
Definition argunsigned_int (n : Z) : X Z := v ← fetcharg n; mret (u32 v).
Definition argunsigned_long (n : Z) : X Z := v ← fetcharg n; mret (u64 v).
Definition arguintptr_t (n : Z) : X Z := v ← fetcharg n; mret (u64 v).
Definition argintptr_t (n : Z) : X Z := v ← fetcharg n; mret (s64 v).
Definition argssize_t (n : Z) : X Z := v ← fetcharg n; mret (s64 v).
Definition argsize_t (n : Z) : X Z := v ← fetcharg n; mret (u64 v).
Definition argoff_t (n : Z) : X Z := v ← fetcharg n; mret (s64 v).
Definition argmode_t (n : Z) : X Z := v ← fetcharg n; mret (u32 v).
Definition argdev_t (n : Z) : X Z := v ← fetcharg n; mret (u64 v).
Definition argpid_t (n : Z) : X Z := v ← fetcharg n; mret (s32 v).
Definition arguid_t (n : Z) : X Z := v ← fetcharg n; mret (s32 v).
Definition arggid_t (n : Z) : X Z := v ← fetcharg n; mret (s32 v).
Definition argclockid_t (n : Z) : X Z := v ← fetcharg n; mret (s32 v).

(** The pointer, or the error. *)
Definition argptr (n size : Z) : X (Z + Z) :=
  ptr ← arguintptr_t n;
  total ← gets (λ s, sz (curproc s));
  if (size <? 0) || (total <=? ptr) || (total <? u64 (ptr + size)) then mret (inl (- Vm.EFAULT))
  else mret (inr ptr).

(** The pointer, or the error. *)
Definition argstr (n : Z) : X (Z + Z) :=
  addr ← arguintptr_t n;
  r ← fetchstr addr;
  mret (match r with inl e => inl e | inr _ => inr addr end).

(** ** sys_execve *)

Definition EINVAL : Z := 22.

(** The pointers of a vector, [i] of which are read; [max] is [MAXARG] or
    [MAXENV]. *)
Fixpoint fetch_vector (k : nat) (max uargv i : Z) : X (Z + list Z) :=
  match k with
  | O => fail EFuel
  | S k =>
      if max <=? i then mret (inl (- E2BIG))
      else
        v ← fetchuintptr_t (u64 (uargv + 8 * i));
        match v with
        | inl _ => mret (inl (- EINVAL))
        | inr uarg =>
            if uarg =? 0 then mret (inr [])
            else
              o ← fetchstr uarg;
              match o with
              | inl _ => mret (inl (- EINVAL))
              | inr _ =>
                  r ← fetch_vector k max uargv (i + 1);
                  mret (match r with inl e => inl e | inr l => inr (uarg :: l) end)
              end
        end
  end.

(** The string a pointer into the process leads to, as [execve] reads it. *)
Fixpoint user_string (k : nat) (a : Z) : X (list Z) :=
  match k with
  | O => fail EFuel
  | S k => b ← fetch_byte a; if b =? 0 then mret [] else l ← user_string k (a + 1); mret (b :: l)
  end.

Definition deref (a : Z) : X (list Z) :=
  size ← gets (λ s, sz (curproc s));
  user_string (S (Z.to_nat (size - a))) a.

Fixpoint derefs (l : list Z) : X (list (list Z)) :=
  match l with
  | [] => mret []
  | a :: l => x ← deref a; xs ← derefs l; mret (x :: xs)
  end.

Section execve.
Context (kernel_end available_memory : Z) (self : nat) (elf0 ph0 de : list Z) (kpdpt : Z) (parent_cred : option Sysfile.cred).
Context (dev_close : Z → option (Z → File.VFS Z)) (dev_read : Z → option (Z → nat → Z → Fs.FS (Z * list Z))).
Abbreviation execve := (Exec.execve kernel_end available_memory self elf0 ph0 de kpdpt parent_cred dev_close dev_read).

Definition sys_execve : X Z :=
  p ← argstr 0;
  match p with
  | inl e => mret e
  | inr path =>
      uargv ← arguintptr_t 1;
      uenvp ← arguintptr_t 2;
      a ← fetch_vector (S (Z.to_nat MAXARG)) MAXARG uargv 0;
      match a with
      | inl e => mret e
      | inr argv =>
          b ← fetch_vector (S (Z.to_nat MAXENV)) MAXENV uenvp 0;
          match b with
          | inl e => mret e
          | inr envp => path ← deref path; argv ← derefs argv; envp ← derefs envp; execve path argv envp
          end
      end
  end.
End execve.

(** ** What the kernel reads *)

Section user.
Context (s : exec) (size : Z) (B : Z → Z).
Hypothesis Hsize : sz (curproc s) = size.
Hypothesis Hmax : 0 ≤ size < 2 ^ 63.
Hypothesis Hmem : ∀ x, 0 ≤ x < size → has (pte (kh s) (pgdir (curproc s)) x) PTE_P = true ∧ user_byte (kh s) (pgdir (curproc s)) x = B x.

Lemma fetch_byte_run a : 0 ≤ a < size → fetch_byte a s = Ok (B a, s).
Proof. intros Ha. unfold fetch_byte. destruct (Hmem a Ha) as [-> ->]. done. Qed.

Lemma fetch_bytes_run (n : nat) : ∀ a, 0 ≤ a → a + n ≤ size → fetch_bytes n a s = Ok ((λ i : nat, B (a + i)) <$> seq 0 n, s).
Proof.
  induction n as [|n IH]; intros a Ha Hn; [done|]. cbn [fetch_bytes]. rewrite (bind_run _ _ _ _ _ (fetch_byte_run a ltac:(lia))).
  rewrite (bind_run _ _ _ _ _ (IH (a + 1) ltac:(lia) ltac:(lia))). cbn [seq fmap list_fmap].
  rewrite <- fmap_S_seq, <- list_fmap_compose. unfold mret, M_ret. rewrite Z.add_0_r. do 3 f_equal.
  apply list_fmap_ext. intros _ i _. cbn. f_equal. lia.
Qed.

Lemma fetch_word a : 0 ≤ a → a + 8 ≤ size → fetchuintptr_t a s = Ok (inr (word_at B a), s).
Proof.
  intros Ha Hn. unfold fetchuintptr_t, fetch. rewrite gets_bind, Hsize. rewrite (wrap_small 64) by lia.
  rewrite (proj2 (Z.leb_gt _ _)), (proj2 (Z.ltb_ge _ _)) by lia. cbn [orb]. by rewrite (bind_run _ _ _ _ _ (fetch_bytes_run 8 a Ha Hn)).
Qed.

(** A string of the process. *)
Record ustring (p : Z) (x : list Z) : Prop := {
  us_pos : 0 < p;
  us_bytes : at_bytes B p (x ++ [0]);
  us_nonzero : Forall (λ b, b ≠ 0) x;
  us_end : p + length x + 1 ≤ size;
}.

Lemma ustring_cons p b x : ustring p (b :: x) → B p = b ∧ b ≠ 0 ∧ ustring (p + 1) x.
Proof.
  intros [H1 H2 H3 H4]. apply Forall_cons in H3 as [Hb H3]. split_and!; [|done|].
  - specialize (H2 0%nat b eq_refl). by rewrite Z.add_0_r in H2.
  - cbn [length] in H4. split; [lia| |done|lia]. intros i c Hi. specialize (H2 (S i) c Hi). rewrite <- H2. f_equal. lia.
Qed.

Lemma ustring_nil p : ustring p [] → B p = 0.
Proof. intros [_ H _ _]. specialize (H 0%nat 0 eq_refl). by rewrite Z.add_0_r in H. Qed.

Lemma string_loop_run x : ∀ (k : nat) p, ustring p x → (length x < k)%nat → string_loop k p s = Ok (Some (Z.of_nat (length x)), s).
Proof.
  induction x as [|b x IH]; intros [|k] p Hx Hk; cbn [length] in Hk; try lia; cbn [string_loop].
  - pose proof (us_pos _ _ Hx) as Hp. pose proof (us_end _ _ Hx) as He. cbn in He. rewrite (proj2 (Z.eqb_neq p 0)) by lia.
    rewrite (bind_run _ _ _ _ _ (fetch_byte_run p ltac:(lia))). by rewrite (ustring_nil p Hx).
  - pose proof (us_pos _ _ Hx) as Hp. pose proof (us_end _ _ Hx) as He. cbn [length] in He.
    destruct (ustring_cons _ _ _ Hx) as (Hb & Hne & Hx'). rewrite (proj2 (Z.eqb_neq p 0)) by lia.
    rewrite (bind_run _ _ _ _ _ (fetch_byte_run p ltac:(lia))), Hb, (proj2 (Z.eqb_neq b 0)) by done.
    rewrite (bind_run _ _ _ _ _ (IH k (p + 1) Hx' ltac:(lia))). unfold mret, M_ret. cbn. do 3 f_equal. lia.
Qed.

Lemma fetchstr_run p x : ustring p x → fetchstr p s = Ok (inr (Z.of_nat (length x)), s).
Proof.
  intros Hx. pose proof (us_pos _ _ Hx) as Hp. pose proof (us_end _ _ Hx) as He. unfold fetchstr. rewrite gets_bind, Hsize.
  rewrite (proj2 (Z.leb_gt _ _)) by lia. by rewrite (bind_run _ _ _ _ _ (string_loop_run x (Z.to_nat (size - p)) p Hx ltac:(lia))).
Qed.

Lemma user_string_run x : ∀ (k : nat) p, ustring p x → (length x < k)%nat → user_string k p s = Ok (x, s).
Proof.
  induction x as [|b x IH]; intros [|k] p Hx Hk; cbn [length] in Hk; try lia; cbn [user_string];
    pose proof (us_pos _ _ Hx) as Hp; pose proof (us_end _ _ Hx) as He; cbn [length] in He;
    rewrite (bind_run _ _ _ _ _ (fetch_byte_run p ltac:(lia))).
  - by rewrite (ustring_nil p Hx).
  - destruct (ustring_cons _ _ _ Hx) as (Hb & Hne & Hx'). rewrite Hb, (proj2 (Z.eqb_neq b 0)) by done.
    by rewrite (bind_run _ _ _ _ _ (IH k (p + 1) Hx' ltac:(lia))).
Qed.

Lemma deref_run p x : ustring p x → deref p s = Ok (x, s).
Proof.
  intros Hx. pose proof (us_pos _ _ Hx) as Hp. pose proof (us_end _ _ Hx) as He. unfold deref. rewrite gets_bind, Hsize.
  apply user_string_run; [done|lia].
Qed.

Lemma derefs_run ps l : Forall2 ustring ps l → derefs ps s = Ok (l, s).
Proof.
  induction 1 as [|p x ps l Hx _ IH]; [done|]. cbn [derefs]. rewrite (bind_run _ _ _ _ _ (deref_run p x Hx)).
  by rewrite (bind_run _ _ _ _ _ IH).
Qed.

(** A vector of the process: the words at [a] are the pointers [ps] and a null
    pointer. *)
Record uvector (a : Z) (ps : list Z) (l : list (list Z)) : Prop := {
  uv_start : 0 ≤ a;
  uv_end : a + 8 * (length ps + 1) ≤ size;
  uv_words (i : nat) p : (ps ++ [0]) !! i = Some p → word_at B (a + 8 * i) = p;
  uv_strings : Forall2 ustring ps l;
}.

Lemma fetch_vector_run (k : nat) : ∀ max a i ps done l, uvector a (done ++ ps) (l) → i = Z.of_nat (length done) →
  i + length ps < max → (length ps < k)%nat → fetch_vector k max a i s = Ok (inr ps, s).
Proof.
  induction k as [|k IH]; intros max a i ps dn l Hv -> Hm Hk; [lia|]. cbn [fetch_vector].
  pose proof Hv as [Ha He Hw Hs]. rewrite length_app in He. rewrite (proj2 (Z.leb_gt _ _)) by lia. rewrite (wrap_small 64) by lia.
  rewrite (bind_run _ _ _ _ _ (fetch_word (a + 8 * length dn) ltac:(lia) ltac:(lia))). destruct ps as [|p ps].
  - rewrite (Hw (length dn) 0) by (rewrite app_nil_r; by apply list_lookup_middle). done.
  - rewrite (Hw (length dn) p) by (rewrite <- app_assoc; by apply list_lookup_middle).
    apply Forall2_app_inv_l in Hs as (l1 & l2 & _ & Hs & _). destruct l2 as [|x l2]; [by inversion Hs|].
    apply Forall2_cons in Hs as [Hx _]. rewrite (proj2 (Z.eqb_neq p 0)) by (pose proof (us_pos _ _ Hx); lia).
    rewrite (bind_run _ _ _ _ _ (fetchstr_run p x Hx)). cbn [length] in *.
    erewrite (bind_run _ _ _ _ _ (IH max a (length dn + 1) ps (dn ++ [p]) l _ _ _ _)); [done|..].
    Unshelve. all: rewrite ?length_app, <- ?app_assoc; cbn [length app]; (done || lia).
Qed.

(** C13. The arguments of [execve] arrive.  When the memory of the process holds
    the path and two vectors of at most 31 pointers to strings, ended by a null
    pointer, all below the size of the process, [sys_execve] runs [execve] with
    exactly these strings. *)
Theorem sys_execve_arguments kernel_end available_memory self elf0 ph0 de kpdpt parent_cred dev_close dev_read path ap argv ep envp :
  ustring (u64 (rdi (curproc s))) path → uvector (u64 (rsi (curproc s))) ap argv → uvector (u64 (rdx (curproc s))) ep envp →
  length argv < MAXARG → length envp < MAXENV →
  sys_execve kernel_end available_memory self elf0 ph0 de kpdpt parent_cred dev_close dev_read s =
    execve kernel_end available_memory self elf0 ph0 de kpdpt parent_cred dev_close dev_read path argv envp s.
Proof.
  intros Hp Ha He Hla Hle. unfold sys_execve.
  pose proof (Forall2_length _ _ _ (uv_strings _ _ _ Ha)) as La. pose proof (Forall2_length _ _ _ (uv_strings _ _ _ He)) as Le.
  assert (argstr 0 s = Ok (inr (u64 (rdi (curproc s))), s)) as E0.
  { unfold argstr, arguintptr_t, fetcharg. rewrite !bind_assoc, gets_bind. cbn [Z.eqb]. rewrite !ret_bind. by rewrite (bind_run _ _ _ _ _ (fetchstr_run _ _ Hp)). }
  rewrite (bind_run _ _ _ _ _ E0).
  assert (arguintptr_t 1 s = Ok (u64 (rsi (curproc s)), s)) as E1 by done. rewrite (bind_run _ _ _ _ _ E1).
  assert (arguintptr_t 2 s = Ok (u64 (rdx (curproc s)), s)) as E2 by done. rewrite (bind_run _ _ _ _ _ E2).
  unfold MAXARG, MAXENV in *.
  rewrite (bind_run _ _ _ _ _ (fetch_vector_run (S (Z.to_nat 32)) 32 _ 0 ap [] argv Ha eq_refl ltac:(cbn; lia) ltac:(lia))).
  rewrite (bind_run _ _ _ _ _ (fetch_vector_run (S (Z.to_nat 32)) 32 _ 0 ep [] envp He eq_refl ltac:(cbn; lia) ltac:(lia))).
  rewrite (bind_run _ _ _ _ _ (deref_run _ _ Hp)), (bind_run _ _ _ _ _ (derefs_run _ _ (uv_strings _ _ _ Ha))).
  by rewrite (bind_run _ _ _ _ _ (derefs_run _ _ (uv_strings _ _ _ He))).
Qed.
End user.

(** The two records as tests. *)
Lemma ustring_check size B p x : (0 <? p) && (p + length x + 1 <=? size) && forallb (λ b, negb (b =? 0)) x &&
  bool_decide ((λ i : nat, B (p + i)) <$> seq 0 (S (length x)) = x ++ [0]) = true → ustring size B p x.
Proof.
  rewrite !andb_true_iff, Z.ltb_lt, Z.leb_le, bool_decide_eq_true. intros [[[H1 H2] H3] H4]. split; [done| | |done].
  - intros i b Hi. rewrite <- H4, list_lookup_fmap in Hi. apply fmap_Some in Hi as (j & [-> _]%lookup_seq & ->). done.
  - apply Forall_forall. intros b Hb. rewrite forallb_forall in H3. rewrite list_elem_of_In in Hb. specialize (H3 b Hb).
    by apply negb_true_iff, Z.eqb_neq in H3.
Qed.

Lemma uvector_check size B a ps l : (0 <=? a) && (a + 8 * (length ps + 1) <=? size) &&
  bool_decide ((λ i : nat, word_at B (a + 8 * i)) <$> seq 0 (S (length ps)) = ps ++ [0]) = true →
  Forall2 (ustring size B) ps l → uvector size B a ps l.
Proof.
  rewrite !andb_true_iff, !Z.leb_le, bool_decide_eq_true. intros [[H1 H2] H3] H4. split; [done..| |done].
  intros i p Hi. rewrite <- H3, list_lookup_fmap in Hi. apply fmap_Some in Hi as (j & [-> _]%lookup_seq & ->). done.
Qed.

(** ** A process that calls execve *)

Import VmThm(ex_page, ex_kernel_end, ex_words).

(** The page at [ex_page 4], which is address 0 of the process: the pointers of
    the arguments at 0x10, those of the environment at 0x28, the strings from
    0x38 on. *)
Definition ex_heap : kheap :=
  let w := foldr (λ '(j, v), <[ex_page 4 + 8 * j := v]>) ex_words
    [(2, 0x40); (3, 0x48); (4, 0); (5, 0x50); (6, 0); (7, 0x612f); (8, 0x6261); (9, 0x63); (10, 0x78)] in
  mkheap w 0 (mkkmem false (ex_page 5) false).
Definition ex_caller : exec :=
  mkexec ex_heap ExecThm.ex_files (mkproc (ex_page 2) 128 (replicate 16 0) 0 0 0x38 0x10 0x28 0 0 0 [1; 2] 1 (Sysfile.mkcred 0 [])) 0.
Abbreviation ex_byte := (user_byte ex_heap (ex_page 2)).

Lemma ex_present x : 0 ≤ x < 128 → has (pte ex_heap (ex_page 2) x) PTE_P = true.
Proof.
  intros Hx. assert (forallb (λ x, has (pte ex_heap (ex_page 2) x) PTE_P) (seqZ 0 128) = true) as H by (vm_compute; reflexivity).
  rewrite forallb_forall in H. apply H. rewrite <- list_elem_of_In, elem_of_seqZ. lia.
Qed.

(** The caller above: "/a" with the arguments "ab", "c" and the environment
    "x". *)
Lemma sys_execve_arguments_witness :
  (match sys_execve ex_kernel_end 0 0 (replicate 64 0) (replicate 56 0) (replicate 260 0) 0 None (λ _, None) (λ _, None) ex_caller with
   Ok (r, s') => (r =? 0) && (rip (curproc s') =? 0x1000) && (rdi (curproc s') =? 2) | Err _ => false end = true) ∧
  sys_execve ex_kernel_end 0 0 (replicate 64 0) (replicate 56 0) (replicate 260 0) 0 None (λ _, None) (λ _, None) ex_caller =
  execve ex_kernel_end 0 0 (replicate 64 0) (replicate 56 0) (replicate 260 0) 0 None (λ _, None) (λ _, None)
    [47; 97] [[97; 98]; [99]] [[120]] ex_caller.
Proof.
  split; [vm_compute; reflexivity|].
  apply (sys_execve_arguments ex_caller 128 ex_byte) with (ap := [0x40; 0x48]) (ep := [0x50]).
  - reflexivity.
  - lia.
  - intros x Hx. split; [by apply ex_present|reflexivity].
  - apply ustring_check. vm_compute. reflexivity.
  - apply uvector_check; [vm_compute; reflexivity|]. repeat (apply List.Forall2_cons; [apply ustring_check; vm_compute; reflexivity|]). apply List.Forall2_nil.
  - apply uvector_check; [vm_compute; reflexivity|]. repeat (apply List.Forall2_cons; [apply ustring_check; vm_compute; reflexivity|]). apply List.Forall2_nil.
  - vm_compute. reflexivity.
  - vm_compute. reflexivity.
Defined.

End Syscall.
