(* ===== verification/Printf.v ===== *)
(** * Formatted output (userspace/libc/printf.c)

    A function gives back its result and the characters it passes to
    [put_function], in order.  A format is a list of bytes without its NUL, the
    arguments a list of typed values; taking one of the wrong type is
    undefined.  Floating-point arithmetic is the class [Floating]. *)

From S2P Require Import Prelude.

Module Printf.

Definition FLAG_PADZERO : Z := 0x01.
Definition FLAG_ALTFORM : Z := 0x02.
Definition FLAG_LJUST : Z := 0x04.
Definition FLAG_BLANK : Z := 0x08.
Definition FLAG_SIGN : Z := 0x10.
Definition FLAG_LONG : Z := 0x20.
Definition FLAG_PRECISION : Z := 0x40.
Definition IS_SET (x flag : Z) : bool := Z.land x flag =? flag.

Definition PRINTF_INT_BUF_SIZE : Z := 4096.

(** ** Integers

    [buf] holds the characters from the last to the first; [i] is its
    length. *)
Definition MAYBE_APPEND (buf : list Z) (data : Z) : list Z :=
  if length buf <? PRINTF_INT_BUF_SIZE then buf ++ [data] else buf.

(** [while (i < limit) MAYBE_APPEND(buf, data);], for at most [k] turns *)
Fixpoint pad_loop (k : nat) (limit data : Z) (buf : list Z) : res (list Z) :=
  if length buf <? limit then
    match k with
    | O => Err EFuel
    | S k => pad_loop k limit data (MAYBE_APPEND buf data)
    end
  else mret buf.

Definition digits : list Z := [48; 49; 50; 51; 52; 53; 54; 55; 56; 57; 97; 98; 99; 100; 101; 102].

Fixpoint numlen_loop (k : nat) (x_copy base numlen : Z) : res Z :=
  match k with
  | O => Err EFuel
  | S k => let x_copy := x_copy / base in if x_copy =? 0 then mret numlen else numlen_loop k x_copy base (numlen + 1)
  end.

Fixpoint digit_loop (k : nat) (x base : Z) (buf : list Z) : res (list Z) :=
  match k with
  | O => Err EFuel
  | S k =>
      let buf := MAYBE_APPEND buf (default 0 (digits !! Z.to_nat (x mod base))) in
      let x := x / base in
      if x =? 0 then mret buf else digit_loop k x base buf
  end.

(** The field width an alternative form leaves. *)
Definition alt_padding (flags base x_copy numlen padding : Z) : Z :=
  if IS_SET flags FLAG_ALTFORM then
    if (base =? 16) || (base =? 2) then padding - 2
    else if base =? 8 then (if negb (x_copy =? 0) && (padding <? numlen) then padding + 1 else padding)
    else padding
  else padding.

Definition alt_prefix (flags base x_copy : Z) (buf : list Z) : list Z :=
  if IS_SET flags FLAG_ALTFORM then
    if negb (x_copy =? 0) || (x_copy =? 0) && (IS_SET flags FLAG_PRECISION || IS_SET flags FLAG_PADZERO) then
      let buf := if base =? 16 then MAYBE_APPEND buf 120 else if base =? 2 then MAYBE_APPEND buf 98 else buf in
      MAYBE_APPEND buf 48
    else buf
  else buf.

(** Fuel for the padding: enough for a full buffer. *)
Definition pad (limit data : Z) (buf : list Z) : res (list Z) := pad_loop (S (Z.to_nat PRINTF_INT_BUF_SIZE)) limit data buf.

Definition printint (xx base : Z) (sgn : bool) (flags padding : Z) : res (Z * list Z) :=
  let neg := sgn && (xx <? 0) in
  if neg && (xx =? - 2 ^ 63) then Err EFault
  else
    let x := if neg then - xx else u64 xx in
    numlen ← numlen_loop 64 x base 1;
    let padding := alt_padding flags base x numlen padding in
    buf ← (if IS_SET flags FLAG_LJUST && negb (IS_SET flags FLAG_PRECISION) then pad (padding - numlen) 32 [] else mret []);
    buf ← digit_loop 64 x base buf;
    buf ← (if IS_SET flags FLAG_PADZERO then pad padding 48 buf else mret buf);
    let buf := alt_prefix flags base x buf in
    let buf := if neg then MAYBE_APPEND buf 45 else if IS_SET flags FLAG_SIGN then MAYBE_APPEND buf 43 else buf in
    buf ← (if IS_SET flags FLAG_BLANK then pad padding 32 buf
           else if IS_SET flags FLAG_PRECISION then pad padding 48 buf else mret buf);
    buf ← (if negb (IS_SET flags FLAG_LJUST) && negb (IS_SET flags FLAG_PADZERO) && negb (padding =? 0)
           then pad padding 32 buf else mret buf);
    mret (Z.of_nat (length buf), rev buf).

(** ** Strings *)

Definition null_string : list Z := [40; 110; 117; 108; 108; 41].

(** [print_n_chars] bounds the length, but the loop prints the string to its
    end. *)
Definition print_string (s : option (list Z)) (flags str_pad print_n_chars : Z) : Z * list Z :=
  let s := default null_string s in
  let len := match s with [] => 0 | _ => s32 (Z.min (length s) print_n_chars) end in
  let text := if len =? 0 then [] else s in
  let spaces := if IS_SET flags FLAG_LJUST && (len <? str_pad) then replicate (Z.to_nat (str_pad - len)) 32 else [] in
  (length text + length spaces, text ++ spaces).

(** ** The format *)

(** What the code uses of the type [double].  A conversion to an integer that
    does not hold the value is undefined. *)
Class Floating (double : Type) := {
  to_u64 : double → res Z;
  of_u64 : Z → double;
  fadd : double → double → double;
  fsub : double → double → double;
  fmul : double → double → double;
  half : double;
}.

Definition pow_10 (n : Z) : Z := Nat.iter (Z.to_nat n) (λ result, u64 (result * 10)) 1.

Definition print_double {double} `{Floating double} (num : double) (flags str_pad base : Z) : res (Z * list Z) :=
  whole ← to_u64 num;
  '(written, out) ← printint (s64 whole) base true flags 0;
  let fraction := fmul (fsub num (of_u64 whole)) (of_u64 (pow_10 str_pad)) in
  fraction_as_integer ← to_u64 (fadd fraction half);
  '(n, out') ← printint (s64 fraction_as_integer) base false FLAG_PADZERO str_pad;
  mret (written + 1 + n, out ++ 46 :: out').

Section format.
Context (double : Type) (FD : Floating double).

Inductive arg :=
| AInt (v : Z)
| ALong (v : Z)
| AString (s : option (list Z))
| ADouble (d : double).

Definition arg_int (argp : list arg) : res (Z * list arg) :=
  match argp with AInt v :: argp => mret (v, argp) | _ => Err EFault end.
Definition arg_long (argp : list arg) : res (Z * list arg) :=
  match argp with ALong v :: argp => mret (v, argp) | _ => Err EFault end.
Definition arg_string (argp : list arg) : res (option (list Z) * list arg) :=
  match argp with AString s :: argp => mret (s, argp) | _ => Err EFault end.
Definition arg_double (argp : list arg) : res (double * list arg) :=
  match argp with ADouble d :: argp => mret (d, argp) | _ => Err EFault end.

(** A conversion: what it prints and the arguments left. *)
Definition convert (c flags str_pad print_n_chars : Z) (argp : list arg) : res (Z * list Z * list arg) :=
  let number signed base :=
    '(v, argp) ← (if IS_SET flags FLAG_LONG then '(v, argp) ← arg_long argp; mret (if (signed : bool) then s64 v else u64 v, argp)
                  else '(v, argp) ← arg_int argp; mret (if signed then s32 v else u32 v, argp));
    '(n, out) ← printint v base signed flags str_pad;
    mret (n, out, argp) in
  if (c =? 105) || (c =? 100) then number true 10
  else if c =? 98 then number false 2
  else if (c =? 103) || (c =? 102) then
    '(d, argp) ← arg_double argp;
    '(n, out) ← print_double d flags (if 0 <? str_pad then str_pad else 6) (if IS_SET flags FLAG_ALTFORM then 16 else 10);
    mret (n, out, argp)
  else if c =? 117 then number false 10
  else if c =? 120 then number false 16
  else if c =? 112 then
    '(v, argp) ← arg_long argp;
    '(n, out) ← printint (s64 v) 16 false (Z.lor flags FLAG_ALTFORM) str_pad;
    mret (n, out, argp)
  else if c =? 111 then
    '(v, argp) ← arg_int argp;
    '(n, out) ← printint (s32 v) 8 false flags str_pad;
    mret (n, out, argp)
  else if c =? 115 then
    '(s, argp) ← arg_string argp;
    let '(n, out) := print_string s flags str_pad print_n_chars in mret (n, out, argp)
  else if c =? 99 then
    '(v, argp) ← arg_int argp;
    mret (1, [u8 v], argp)
  else if c =? 37 then mret (1, [37], argp)
  else mret (1, [37; c], argp).

(** [int] arithmetic of the field width. *)
Definition next_pad (str_pad d : Z) : res Z :=
  let v := str_pad * 10 + d in
  if (- 2 ^ 31 <=? v) && (v <=? INT_MAX) then mret v else Err EFault.

(** [state] says whether a [%] was read. *)
Fixpoint template (fmt : list Z) (state : bool) (flags str_pad : Z) (argp : list arg) (print_n_chars count : Z)
    : res (Z * list Z) :=
  match fmt with
  | [] => mret (s32 count, [])
  | ch :: fmt =>
      let c := Z.land ch 0xff in
      if negb state then
        if c =? 37 then template fmt true flags str_pad argp print_n_chars count
        else
          '(n, out) ← template fmt false flags str_pad argp print_n_chars (u64 (count + 1));
          mret (n, c :: out)
      else if (c =? 46) && (str_pad =? 0) then template fmt true (Z.lor flags FLAG_PRECISION) str_pad argp print_n_chars count
      else if (c =? 48) && (str_pad =? 0) then template fmt true (Z.lor flags FLAG_PADZERO) str_pad argp print_n_chars count
      else if (c =? 46) || (48 <=? c) && (c <=? 57) then
        str_pad ← next_pad str_pad (c - 48);
        template fmt true flags str_pad argp print_n_chars count
      else if c =? 42 then
        '(v, argp) ← arg_int argp;
        template fmt true flags (s32 v) argp print_n_chars count
      else if c =? 35 then template fmt true (Z.lor flags FLAG_ALTFORM) str_pad argp print_n_chars count
      else if c =? 45 then
        let flags := Z.lor flags FLAG_LJUST in
        let flags := if IS_SET flags FLAG_PADZERO then Z.lxor flags FLAG_PADZERO else flags in
        match fmt with
        | nx :: fmt' =>
            if 0 <=? s8 nx - 48 then template fmt' true flags (s8 nx - 48) argp print_n_chars count
            else template fmt true flags str_pad argp print_n_chars count
        | [] => template fmt true flags str_pad argp print_n_chars count
        end
      else if c =? 32 then template fmt true (Z.lor flags FLAG_BLANK) str_pad argp print_n_chars count
      else if c =? 43 then template fmt true (Z.lor flags FLAG_SIGN) str_pad argp print_n_chars count
      else if (c =? 122) || (c =? 108) then template fmt true (Z.lor flags FLAG_LONG) str_pad argp print_n_chars count
      else
        '(n, out, argp) ← convert c flags str_pad print_n_chars argp;
        '(r, out') ← template fmt false 0 0 argp print_n_chars (u64 (count + n));
        mret (r, out ++ out')
  end.

Definition __libc_vprintf_template (fmt : list Z) (argp : list arg) (print_n_chars : Z) : res (Z * list Z) :=
  template fmt false 0 0 argp print_n_chars 0.

End format.
(** ** Digits *)

Definition digit_value (c : Z) : Z := if c <? 58 then c - 48 else c - 87.
Definition value (base : Z) (ds : list Z) : Z := fold_left (λ v c, v * base + digit_value c) ds 0.

(** The digits of [x], without leading zeroes. *)
Record numeral (base x : Z) (ds : list Z) : Prop := {
  nu_value : value base ds = x;
  nu_digits : Forall (λ c, c ∈ digits ∧ 0 ≤ digit_value c < base) ds;
  nu_first : ∃ c rest, ds = c :: rest ∧ (c ≠ 48 ∨ rest = []);
}.

Lemma value_app base ds c : value base (ds ++ [c]) = value base ds * base + digit_value c.
Proof. unfold value. by rewrite fold_left_app. Qed.

Lemma digit_ok d : 0 ≤ d < 16 → ∃ c, digits !! Z.to_nat d = Some c ∧ digit_value c = d ∧ (c = 48 ↔ d = 0).
Proof.
  intros Hd.
  assert (forallb (λ d, match digits !! Z.to_nat d with Some c => (digit_value c =? d) && Bool.eqb (c =? 48) (d =? 0) | None => false end) (seqZ 0 16) = true)
    as H by (vm_compute; reflexivity).
  rewrite forallb_forall in H. specialize (H d). rewrite <- list_elem_of_In, elem_of_seqZ in H. specialize (H ltac:(lia)).
  destruct (digits !! Z.to_nat d) as [c|]; [|done]. apply andb_prop in H as [H1%Z.eqb_eq H2%eqb_prop].
  exists c. split; [done|]. split; [done|]. destruct (Z.eqb_spec c 48), (Z.eqb_spec d 0); (done || lia).
Qed.

Lemma append_ok buf c : (length buf < 4096)%nat → MAYBE_APPEND buf c = buf ++ [c].
Proof. intros H. unfold MAYBE_APPEND, PRINTF_INT_BUF_SIZE. by rewrite (proj2 (Z.ltb_lt _ _)) by lia. Qed.

Lemma digit_loop_ok base (k : nat) : ∀ x buf, 2 ≤ base ≤ 16 → 0 ≤ x < base ^ k → (length buf + k ≤ 4096)%nat → (0 < k)%nat →
  ∃ ds, digit_loop k x base buf = Ok (buf ++ rev ds) ∧ numeral base x ds ∧ (length ds ≤ k)%nat ∧
    ∀ n, numlen_loop k x base n = Ok (n + length ds - 1).
Proof.
  induction k as [|k IH]; intros x buf Hb Hx Hlen Hk; [lia|]. cbn [digit_loop numlen_loop].
  pose proof (Z.mod_pos_bound x base ltac:(lia)) as Hm. pose proof (Z.div_mod x base ltac:(lia)) as Ex.
  destruct (digit_ok (x mod base) ltac:(lia)) as (c & Hc & Hv & Hz). rewrite Hc. change (default 0 (Some c)) with c. rewrite append_ok by lia.
  assert (c ∈ digits) as Hin by (by eapply list_elem_of_lookup_2).
  destruct (Z.eqb_spec (x / base) 0) as [E0|E0].
  - exists [c]. split; [done|]. split; [|cbn; split; [lia|intros n; unfold mret, res_ret; f_equal; lia]].
    split; [unfold value; cbn; lia|apply Forall_singleton; split; [done|lia]|]. exists c, []. split; [done|by right].
  - assert (k ≠ 0%nat) as Hk0. { intros ->. apply E0, Z.div_small. rewrite Z.pow_1_r in Hx. done. }
    assert (0 ≤ x / base < base ^ k) as Hq.
    { split; [apply Z.div_pos; lia|]. apply Z.div_lt_upper_bound; [lia|]. rewrite Nat2Z.inj_succ, Z.pow_succ_r in Hx by lia. lia. }
    destruct (IH (x / base) (buf ++ [c]) Hb Hq) as (ds & E & [N1 N2 (c0 & rest & N3 & N4)] & Hl & Hn); [rewrite length_app; cbn; lia|lia|].
    exists (ds ++ [c]). split; [rewrite E, <- app_assoc, rev_app_distr; done|]. split; [|split].
    + split; [rewrite value_app; lia|apply Forall_app; split; [done|apply Forall_singleton; split; [done|lia]]|].
      exists c0, (rest ++ [c]). split; [by rewrite N3|]. left. destruct N4 as [?| ->]; [done|]. intros ->.
      rewrite N3 in N1. unfold value in N1. cbn in N1. lia.
    + rewrite length_app. cbn. lia.
    + intros n. rewrite Hn, length_app. cbn. f_equal. lia.
Qed.

(** ** Padding *)

Lemma pad_loop_ok (k : nat) : ∀ limit c buf, limit ≤ 4096 → limit ≤ length buf + k →
  pad_loop k limit c buf = Ok (buf ++ replicate (Z.to_nat (limit - length buf)) c).
Proof.
  induction k as [|k IH]; intros limit c buf Hl Hk; cbn [pad_loop]; destruct (Z.ltb_spec (length buf) limit) as [Hlt|Hge]; try lia.
  1, 3: replace (Z.to_nat (limit - length buf)) with 0%nat by lia; by rewrite app_nil_r.
  rewrite append_ok by lia. rewrite IH; [|done|rewrite length_app; cbn; lia]. rewrite length_app, <- app_assoc. cbn [length app].
  replace (Z.to_nat (limit - length buf)) with (S (Z.to_nat (limit - (length buf + 1)%nat))) by lia. done.
Qed.

(** A wider field than the buffer is never reached. *)
Lemma pad_loop_stuck (k : nat) : ∀ limit c buf, 4096 < limit → (length buf ≤ 4096)%nat → pad_loop k limit c buf = Err EFuel.
Proof.
  induction k as [|k IH]; intros limit c buf Hl Hb; cbn [pad_loop]; rewrite (proj2 (Z.ltb_lt _ _)) by lia; [done|].
  apply IH; [done|]. unfold MAYBE_APPEND, PRINTF_INT_BUF_SIZE. destruct (Z.ltb_spec (length buf) 4096); [|done].
  rewrite length_app. cbn. lia.
Qed.

(** The magnitude of a number and its sign. *)
Definition magnitude (sgn : bool) (xx : Z) : Z := if sgn && (xx <? 0) then - xx else u64 xx.
Definition sign (sgn : bool) (xx : Z) : list Z := if sgn && (xx <? 0) then [45] else [].

Lemma magnitude_range sgn xx : - 2 ^ 63 < xx → 0 ≤ magnitude sgn xx < 2 ^ 64.
Proof.
  intros H. unfold magnitude. destruct (sgn && _) eqn:E; [|by apply wrap_range]. apply andb_prop in E as [_ E]. zbool. lia.
Qed.

(** No flag but [FLAG_PADZERO] and [FLAG_LONG] is set. *)
Definition simple (flags : Z) : Prop :=
  IS_SET flags FLAG_LJUST = false ∧ IS_SET flags FLAG_ALTFORM = false ∧ IS_SET flags FLAG_SIGN = false ∧
  IS_SET flags FLAG_BLANK = false ∧ IS_SET flags FLAG_PRECISION = false.

Lemma printint_run xx base sgn :
  - 2 ^ 63 < xx → 2 ≤ base ≤ 16 →
  ∃ ds, numeral base (magnitude sgn xx) ds ∧ (length ds ≤ 64)%nat ∧ ∀ flags padding, simple flags →
    printint xx base sgn flags padding =
      (buf ← (if IS_SET flags FLAG_PADZERO then pad padding 48 (rev ds) else mret (rev ds));
       let buf := if sgn && (xx <? 0) then MAYBE_APPEND buf 45 else buf in
       buf ← (if negb (IS_SET flags FLAG_PADZERO) && negb (padding =? 0) then pad padding 32 buf else mret buf);
       mret (Z.of_nat (length buf), rev buf)).
Proof.
  intros Hx Hb. pose proof (magnitude_range sgn xx Hx) as Hm.
  assert (magnitude sgn xx < base ^ 64%nat) as Hlt.
  { eapply Z.lt_le_trans; [apply Hm|]. apply Z.pow_le_mono_l. lia. }
  destruct (digit_loop_ok base 64 (magnitude sgn xx) [] Hb ltac:(lia) ltac:(cbn; lia) ltac:(lia)) as (ds & E & Hn & Hl & Hnl).
  exists ds. split; [done|]. split; [done|]. intros flags padding (H1 & H2 & H3 & H4 & H5). unfold printint. cbv zeta.
  rewrite (proj2 (Z.eqb_neq xx _)), andb_false_r by lia.
  fold (magnitude sgn xx). rewrite Hnl. cbn [mbind res_bind]. unfold alt_padding, alt_prefix. rewrite H1, H2, H3, H4, H5. cbn [andb negb].
  change ((mret [] : res (list Z)) ≫= ?k) with (k []). cbv beta.
  rewrite E. cbn [mbind res_bind app].
  destruct (if IS_SET flags FLAG_PADZERO then _ else _) as [buf|]; [|done]. by destruct (sgn && _).
Qed.

Lemma rev_replicate (n : nat) (c : Z) : rev (replicate n c) = replicate n c.
Proof. induction n as [|n IH]; [done|]. cbn [replicate rev]. by rewrite IH, <- replicate_cons_app. Qed.

Lemma append_sign sgn xx buf : (length buf < 4096)%nat →
  (if sgn && (xx <? 0) then MAYBE_APPEND buf 45 else buf) = buf ++ sign sgn xx.
Proof. intros H. unfold sign. destruct (sgn && _); [by apply append_ok|]. by rewrite app_nil_r. Qed.

Lemma pad_ok limit c buf : limit ≤ 4096 → pad limit c buf = Ok (buf ++ replicate (Z.to_nat (limit - length buf)) c).
Proof. intros H. apply pad_loop_ok; [done|]. unfold PRINTF_INT_BUF_SIZE. lia. Qed.

Lemma rev_sign sgn xx : rev (sign sgn xx) = sign sgn xx.
Proof. unfold sign. by destruct (sgn && _). Qed.

Lemma printint_ok xx base sgn padding :
  - 2 ^ 63 < xx → 2 ≤ base ≤ 16 → padding ≤ PRINTF_INT_BUF_SIZE - 1 →
  ∃ ds, numeral base (magnitude sgn xx) ds ∧ (length ds ≤ 64)%nat ∧
    (let body := sign sgn xx ++ ds in
     printint xx base sgn 0 padding =
       Ok (Z.max padding (length body), replicate (Z.to_nat (padding - length body)) 32 ++ body)) ∧
    printint xx base sgn FLAG_PADZERO padding =
      Ok (length (sign sgn xx) + Z.max padding (length ds),
          sign sgn xx ++ replicate (Z.to_nat (padding - length ds)) 48 ++ ds).
Proof.
  intros Hx Hb Hp. unfold PRINTF_INT_BUF_SIZE in Hp.
  destruct (printint_run xx base sgn) as (ds & Hn & Hl & E); [done..|]. exists ds. split; [done|]. split; [done|]. cbv zeta.
  split; rewrite E by done.
  - change (IS_SET 0 FLAG_PADZERO) with false. cbv iota. cbn [negb andb]. change ((mret (rev ds) : res (list Z)) ≫= ?k) with (k (rev ds)).
    cbv beta zeta. rewrite append_sign by (rewrite length_rev; lia).
    assert (rev ds ++ sign sgn xx = rev (sign sgn xx ++ ds)) as -> by (by rewrite rev_app_distr, rev_sign).
    set (body := sign sgn xx ++ ds). assert (Z.of_nat (length body) ≤ 65) as Hbl.
    { unfold body, sign. rewrite length_app. destruct (sgn && _); cbn; lia. }
    destruct (Z.eqb_spec padding 0) as [->|Hp0]; cbn [negb].
    + change ((mret (rev body) : res (list Z)) ≫= ?k) with (k (rev body)). cbv beta. rewrite rev_involutive, length_rev.
      rewrite Z.max_r by lia. by replace (Z.to_nat (0 - length body)) with 0%nat by lia.
    + rewrite pad_ok by lia. cbn [mbind res_bind]. rewrite rev_app_distr, rev_involutive, rev_replicate, length_app, length_rev, length_replicate.
      unfold mret, res_ret. do 2 f_equal. lia.
  - change (IS_SET FLAG_PADZERO FLAG_PADZERO) with true. cbv iota. cbn [negb andb]. rewrite pad_ok by lia. cbn [mbind res_bind].
    rewrite append_sign by (rewrite length_app, length_rev, length_replicate; lia).
    change ((mret ?b : res (list Z)) ≫= ?k) with (k b). cbv beta.
    rewrite !rev_app_distr, rev_involutive, rev_replicate, rev_sign, !length_app, !length_rev, length_replicate.
    unfold mret, res_ret. do 2 f_equal. lia.
Qed.

(** C40. Numbers are printed right.  [printint] without flags prints spaces up to
    the width, a minus sign for a negative signed number, and the digits of its
    magnitude in the base without leading zeroes; with [FLAG_PADZERO] zeroes
    come between the sign and the digits, which alone fill the width.  It
    returns the number of characters. *)
Theorem printint_correct xx base sgn padding :
  - 2 ^ 63 < xx → 2 ≤ base ≤ 16 → padding ≤ PRINTF_INT_BUF_SIZE - 1 →
  ∃ ds, numeral base (magnitude sgn xx) ds ∧
    (let body := sign sgn xx ++ ds in
     printint xx base sgn 0 padding =
       Ok (Z.max padding (length body), replicate (Z.to_nat (padding - length body)) 32 ++ body)) ∧
    printint xx base sgn FLAG_PADZERO padding =
      Ok (length (sign sgn xx) + Z.max padding (length ds),
          sign sgn xx ++ replicate (Z.to_nat (padding - length ds)) 48 ++ ds).
Proof. intros Hx Hb Hp. destruct (printint_ok xx base sgn padding Hx Hb Hp) as (ds & Hn & _ & H). by exists ds. Qed.

(** A field wider than the buffer of 4096 characters is never finished: the
    loop that fills it up stops writing when the buffer is full and then waits
    for ever for it to grow. *)
Theorem printint_wide_field xx base sgn padding :
  - 2 ^ 63 < xx → 2 ≤ base ≤ 16 → PRINTF_INT_BUF_SIZE < padding →
  printint xx base sgn 0 padding = Err EFuel ∧
  ∀ (k : nat) data buf, length buf ≤ PRINTF_INT_BUF_SIZE → pad_loop k padding data buf = Err EFuel.
Proof.
  intros Hx Hb Hp. unfold PRINTF_INT_BUF_SIZE in *. split.
  - destruct (printint_run xx base sgn Hx Hb) as (ds & _ & Hl & E). rewrite E by done. change (IS_SET 0 FLAG_PADZERO) with false.
    cbv iota. cbn [negb andb]. change ((mret (rev ds) : res (list Z)) ≫= ?k) with (k (rev ds)). cbv beta zeta.
    rewrite append_sign by (rewrite length_rev; lia). rewrite (proj2 (Z.eqb_neq _ _)) by lia. cbn [negb].
    unfold pad. rewrite pad_loop_stuck; [done|done|]. rewrite length_app, length_rev. unfold sign. destruct (sgn && _); cbn; lia.
  - intros k data buf Hbuf. apply pad_loop_stuck; [done|lia].
Qed.

Lemma printint_correct_witness :
  printint (-42) 10 true 0 6 = Ok (6, [32; 32; 32; 45; 52; 50]) ∧ printint (-42) 10 true FLAG_PADZERO 6 = Ok (7, [45; 48; 48; 48; 48; 52; 50]) ∧
  ∃ ds, numeral 10 42 ds ∧ printint (-42) 10 true 0 6 = Ok (Z.max 6 (length (45 :: ds)), replicate (Z.to_nat (6 - length (45 :: ds))) 32 ++ 45 :: ds).
Proof.
  split; [vm_compute; reflexivity|]. split; [vm_compute; reflexivity|].
  destruct (printint_correct (-42) 10 true 6) as (ds & Hn & E & _); [lia|lia|unfold PRINTF_INT_BUF_SIZE; lia|]. exists ds. split; [exact Hn|exact E].
Defined.

Lemma printint_wide_field_witness : printint 1 10 true 0 5000 = Err EFuel ∧ ∀ k : nat, pad_loop k 5000 32 [49] = Err EFuel.
Proof.
  destruct (printint_wide_field 1 10 true 5000) as [H1 H2]; [lia|lia|unfold PRINTF_INT_BUF_SIZE; lia|].
  split; [exact H1|]. intros k. apply H2. unfold PRINTF_INT_BUF_SIZE. cbn. lia.
Defined.

End Printf.
