(* ===== verification/LibStd.v ===== *)
(** * Numbers, random numbers and exit handlers of the C library (userspace/libc/stdlib.c) *)

From S2P Require Import Prelude Mem CType Printf.

Module LibStd.

(** Signed arithmetic that leaves its type is undefined. *)
Definition int_ok (w v : Z) : res Z := if (- 2 ^ (w - 1) <=? v) && (v <? 2 ^ (w - 1)) then mret v else Err EFault.

(** [n * base + c - d], from the left *)
Definition accumulate (w n base c d : Z) : res Z :=
  a ← int_ok w (n * base);
  b ← int_ok w (a + c);
  int_ok w (b - d).

(** ** Parsing *)

Fixpoint atoi_loop (k : nat) (m : mem) (s n : Z) : res Z :=
  match k with
  | O => Err EFuel
  | S k =>
      c ← loadc m s;
      if (48 <=? c) && (c <=? 57) then n ← accumulate 32 n 10 c 48; atoi_loop k m (s + 1) n
      else mret n
  end.

Definition atoi (m : mem) (s : Z) : res Z := atoi_loop (fuel m) m s 0.

Fixpoint skip_space (k : nat) (m : mem) (s i : Z) : res Z :=
  match k with
  | O => Err EFuel
  | S k => c ← loadc m (s + i); if CType.isspace c then skip_space k m s (i + 1) else mret i
  end.

(** [strncmp(s, lit, strlen(lit)) == 0] *)
Fixpoint has_prefix (m : mem) (s : Z) (lit : list Z) : res bool :=
  match lit with
  | [] => mret true
  | l :: lit => c ← load m s; if negb (c =? 0) && (c =? l) then has_prefix m (s + 1) lit else mret false
  end.

(** The base and the index of the first digit. *)
Definition find_base (m : mem) (s i base : Z) : res (Z * Z) :=
  if (base =? 0) || (base =? 16) then
    x ← has_prefix m (s + i) [48; 120];
    y ← (if (x : bool) then mret true else has_prefix m (s + i) [48; 88]);
    if (y : bool) then mret (16, i + 2)
    else
      z ← has_prefix m (s + i) [48];
      if (z : bool) then mret (8, i + 1) else mret (10, i)
  else mret (base, i).

Fixpoint decimal_loop (k : nat) (m : mem) (s i base num : Z) : res (Z * Z) :=
  match k with
  | O => Err EFuel
  | S k =>
      c ← loadc m (s + i);
      if (48 <=? c) && (c <=? 57) then num ← accumulate 64 num base c 48; decimal_loop k m s (i + 1) base num
      else mret (num, i)
  end.

(** A digit, and then a letter; a letter counts from 0. *)
Fixpoint letter_loop (k : nat) (m : mem) (s i base num : Z) : res (Z * Z) :=
  match k with
  | O => Err EFuel
  | S k =>
      c ← loadc m (s + i);
      if CType.isdigit c || CType.islower c || CType.isupper c then
        '(num, i) ← (if CType.isdigit c then num ← accumulate 64 num base c 48; mret (num, i + 1) else mret (num, i));
        c ← loadc m (s + i);
        '(num, i) ← (if CType.islower c then num ← accumulate 64 num base c 97; mret (num, i + 1)
                     else if CType.isupper c then num ← accumulate 64 num base c 65; mret (num, i + 1)
                     else mret (num, i));
        letter_loop k m s i base num
      else mret (num, i)
  end.

(** The number, what is stored through [endptr], and whether [errno] is set to
    [EINVAL]. *)
Definition strtoll (m : mem) (s base : Z) : res (Z * option Z * bool) :=
  if negb (base =? 0) && (base <? 2) || (36 <? base) then mret (0, None, true)
  else
    i ← skip_space (fuel m) m s 0;
    c ← loadc m (s + i);
    let positive := negb (c =? 45) in
    let i := if (c =? 43) || (c =? 45) then i + 1 else i in
    '(base, i) ← find_base m s i base;
    if base <=? 10 then
      '(num, i) ← decimal_loop (fuel m) m s i base 0;
      mret (num, Some (s + i + 1), false)
    else if base <=? 36 then
      '(num, i) ← letter_loop (fuel m) m s i base 0;
      num ← (if positive then mret num else int_ok 64 (- num));
      mret (num, Some (s + i + 1), false)
    else mret (0, None, true).

Definition strtol (m : mem) (s base : Z) : res (Z * option Z * bool) := strtoll m s base.
Definition atol (m : mem) (s : Z) : res Z := '(n, _, _) ← strtol m s 0; mret n.
Definition atoll (m : mem) (s : Z) : res Z := '(n, _, _) ← strtoll m s 0; mret n.
Definition strtoull (m : mem) (s base : Z) : res (Z * option Z * bool) := '(n, e, b) ← strtoll m s base; mret (u64 n, e, b).
Definition strtoul (m : mem) (s base : Z) : res (Z * option Z * bool) := strtoull m s base.

(** ** Random numbers and absolute values *)

Definition RAND_MAX : Z := 32767.

(** The number and the new state. *)
Definition rand (s_next_rand : Z) : Z * Z :=
  let s := u64 (s_next_rand * 1103515245 + 12345) in
  (u32 (s / ((RAND_MAX + 1) * 2)) mod (RAND_MAX + 1), s).

Definition srand (seed : Z) : Z := u32 seed.

Definition abs (i : Z) : res Z := if 0 <=? i then mret i else int_ok 32 (- i).
Definition labs (i : Z) : res Z := if 0 <=? i then mret i else int_ok 64 (- i).
Definition llabs (i : Z) : res Z := if 0 <=? i then mret i else int_ok 64 (- i).

(** ** Exit handlers *)

Definition ATEXIT_MAX : nat := 32.

Fixpoint first_slot (l : list (option Z)) (f : Z) : option (list (option Z)) :=
  match l with
  | [] => None
  | None :: l => Some (Some f :: l)
  | Some g :: l => (Some g ::.) <$> first_slot l f
  end.

Definition atexit (handlers : list (option Z)) (f : Z) : Z * list (option Z) :=
  match first_slot handlers f with Some l => (0, l) | None => (-1, handlers) end.

(** The handlers that are called, in order; [call] is what a handler does to
    the table. *)
Fixpoint exit_loop (call : Z → list (option Z) → list (option Z)) (i : nat) (handlers : list (option Z)) : list Z :=
  match i with
  | O => []
  | S i =>
      match handlers !! i with
      | Some (Some f) => f :: exit_loop call i (call f handlers)
      | _ => exit_loop call i handlers
      end
  end.

Definition exit (call : Z → list (option Z) → list (option Z)) (handlers : list (option Z)) : list Z :=
  exit_loop call ATEXIT_MAX handlers.

(** ** What [atoi] reads *)

Lemma accumulate_ok n c : 0 ≤ n → 48 ≤ c ≤ 57 → n * 10 + c < 2 ^ 31 → accumulate 32 n 10 c 48 = Ok (n * 10 + (c - 48)).
Proof.
  intros Hn Hc Hmax. unfold accumulate, int_ok. change (32 - 1) with 31.
  rewrite !(proj2 (Z.leb_le _ _)), !(proj2 (Z.ltb_lt _ _)) by lia. cbn [andb mbind res_bind]. unfold mret, res_ret. cbn [mbind res_bind].
  rewrite !(proj2 (Z.leb_le _ _)), !(proj2 (Z.ltb_lt _ _)) by lia. cbn [andb mbind res_bind].
  rewrite !(proj2 (Z.leb_le _ _)), !(proj2 (Z.ltb_lt _ _)) by lia. cbn [andb]. f_equal. lia.
Qed.

Abbreviation read_on n ds := (fold_left (λ v c, v * 10 + Printf.digit_value c) ds n).

Lemma decimal_digit c : 48 ≤ c ≤ 57 → Printf.digit_value c = c - 48.
Proof. intros H. unfold Printf.digit_value. by rewrite (proj2 (Z.ltb_lt _ _)) by lia. Qed.

Lemma read_on_ge ds : ∀ n, 0 ≤ n → Forall (λ c, 48 ≤ c ≤ 57) ds → n ≤ read_on n ds.
Proof.
  induction ds as [|c ds IH]; intros n Hn Hd; [cbn; lia|]. apply Forall_cons in Hd as [Hc Hd]. cbn. rewrite decimal_digit by done.
  pose proof (IH (n * 10 + (c - 48)) ltac:(lia) Hd). lia.
Qed.

Lemma atoi_loop_ok k m s n ds : cstr m s ds → Forall (λ c, 48 ≤ c ≤ 57) ds → 0 ≤ n → (length ds < k)%nat →
  read_on n ds + 48 < 2 ^ 31 → atoi_loop k m s n = Ok (read_on n ds).
Proof.
  revert k s n. induction ds as [|c ds IH]; intros [|k] s n Hs Hd Hn Hk Hmax; cbn [length] in Hk; try lia; cbn [atoi_loop].
  - apply cstr_nil in Hs. by rewrite (loadc_bind _ _ _ _ Hs).
  - apply Forall_cons in Hd as [Hc Hd]. apply cstr_cons in Hs as (Hb & _ & Hs). rewrite (loadc_bind _ _ _ _ Hb).
    rewrite (sx_small 8) by (cbn; lia). rewrite !(proj2 (Z.leb_le _ _)) by lia. cbn [andb].
    cbn [fold_left] in Hmax |- *. rewrite decimal_digit in Hmax |- * by done.
    pose proof (read_on_ge ds (n * 10 + (c - 48)) ltac:(lia) Hd). rewrite accumulate_ok by lia. cbn [mbind res_bind].
    apply IH; (done || lia).
Qed.

Lemma numeral_decimal x ds : Printf.numeral 10 x ds → Forall (λ c, 48 ≤ c ≤ 57) ds.
Proof.
  intros [_ H _]. eapply Forall_impl; [exact H|]. cbn. intros c [Hc Hv]. unfold Printf.digits in Hc.
  unfold Printf.digit_value in Hv. destruct (Z.ltb_spec c 58); [lia|].
  assert (Forall (λ c, c ≤ 57 ∨ 97 ≤ c) [48; 49; 50; 51; 52; 53; 54; 55; 56; 57; 97; 98; 99; 100; 101; 102]) as Hall by (repeat constructor; lia).
  rewrite Forall_forall in Hall. specialize (Hall c Hc). lia.
Qed.

(** What [printf] writes, [atoi] reads.  For [n] from 0 to [INT_MAX] - 48,
    the format "%d" prints the number, returns the number of characters, and
    [atoi] of the string, wherever it is stored, gives [n] back. *)
Theorem printf_atoi_roundtrip double FD n print_n_chars :
  0 ≤ n ≤ INT_MAX - 48 →
  ∃ out, Printf.__libc_vprintf_template double FD [37; 100] [Printf.AInt double n] print_n_chars = Ok (Z.of_nat (length out), out) ∧
    ∀ m a, cstr m a out → atoi m a = Ok n.
Proof.
  intros Hn. unfold INT_MAX in Hn.
  destruct (Printf.printint_ok n 10 true 0) as (ds & Hnum & Hl & E & _); [lia|lia|done|].
  assert (Printf.sign true n = []) as Es by (unfold Printf.sign; rewrite (proj2 (Z.ltb_ge n 0)) by lia; done).
  assert (Printf.magnitude true n = n) as Em.
  { unfold Printf.magnitude. rewrite (proj2 (Z.ltb_ge n 0)) by lia. cbn [andb]. apply wrap_small. lia. }
  cbv zeta in E. rewrite Es in E. cbn [app] in E. rewrite Z.max_r in E by lia.
  replace (Z.to_nat (0 - length ds)) with 0%nat in E by lia. cbn [replicate app] in E. rewrite Em in Hnum.
  pose proof (numeral_decimal _ _ Hnum) as Hdec. exists ds. split.
  - assert (Printf.convert double FD 100 0 0 print_n_chars [Printf.AInt double n] = Ok (Z.of_nat (length ds), ds, [])) as Ec.
    { transitivity ('(k, out) ← Printf.printint (s32 n) 10 true 0 0; mret (k, out, @nil (Printf.arg double))); [reflexivity|].
      rewrite sx_small by lia. by rewrite E. }
    transitivity ('(k, out, argp) ← Printf.convert double FD 100 0 0 print_n_chars [Printf.AInt double n];
      '(r, out') ← Printf.template double FD [] false 0 0 argp print_n_chars (u64 (0 + k)); mret (r, out ++ out')); [reflexivity|].
    rewrite Ec. cbn [mbind res_bind Printf.template]. unfold mret, res_ret. cbn [mbind res_bind]. rewrite wrap_small, sx_small, app_nil_r by lia. done.
  - intros m a Hc. pose proof (cstr_size _ _ _ Hc). destruct Hnum as [Hval _ _]. unfold Printf.value in Hval.
    unfold atoi. rewrite (atoi_loop_ok _ m a 0 ds) by (done || (unfold fuel; lia)). by rewrite Hval.
Qed.

(** Numbers counted in halves. *)
Definition halves : Printf.Floating Z :=
  Printf.Build_Floating Z (λ v, if (0 <=? v) && (v / 2 <? 2 ^ 64) then mret (v / 2) else Err EFault) (λ n, 2 * n) Z.add Z.sub
    (λ a b, a * b / 2) 1.

Lemma printf_atoi_roundtrip_witness :
  ∃ out, Printf.__libc_vprintf_template Z halves [37; 100] [Printf.AInt Z 1234] 0 = Ok (Z.of_nat (length out), out) ∧
    ∀ m a, cstr m a out → atoi m a = Ok 1234.
Proof. apply (printf_atoi_roundtrip Z halves 1234 0). unfold INT_MAX. lia. Defined.

(** "%.3f" of 3/2 *)
Example printf_three_halves : Printf.__libc_vprintf_template Z halves [37; 46; 51; 102] [Printf.ADouble Z 3] 0 = Ok (5, [49; 46; 53; 48; 48]).
Proof. vm_compute. reflexivity. Qed.

End LibStd.
