(* ===== verification/UString.v ===== *)
(** * The string functions of the C library (userspace/libc/string.c)

    Over the same memory as the kernel's.  Where a loop is the same as in
    kernel_string.c, its definition is used again. *)

From S2P Require Import Prelude Mem CType KString.

Module UString.

(** ** Comparison and length *)

Definition strcpy (m : mem) (s t : Z) : res (Z * mem) := KString.strcpy m s t.

Fixpoint strcmp_loop (k : nat) (m : mem) (p q : Z) : res Z :=
  match k with
  | O => Err EFuel
  | S k =>
      a ← load m p;
      b ← load m q;
      if negb (a =? 0) && negb (b =? 0) && (a =? b) then strcmp_loop k m (p + 1) (q + 1) else mret (a - b)
  end.

Definition strcmp (m : mem) (p q : Z) : res Z := strcmp_loop (fuel m) m p q.
Definition strcoll (m : mem) (s1 s2 : Z) : res Z := strcmp m s1 s2.

Definition strncmp (m : mem) (p q n : Z) : res Z := if n =? 0 then mret 0 else KString.strncmp m p q n.
Definition strncasecmp (m : mem) (p q n : Z) : res Z := if n =? 0 then mret 0 else KString.strncasecmp m p q n.

Fixpoint strcasecmp_loop (k : nat) (m : mem) (p q : Z) : res Z :=
  match k with
  | O => Err EFuel
  | S k =>
      a ← load m p;
      b ← load m q;
      if negb (a =? 0) && negb (b =? 0) && (CType.tolower (s8 a) =? CType.tolower (s8 b))
      then strcasecmp_loop k m (p + 1) (q + 1) else mret (a - b)
  end.

Definition strcasecmp (m : mem) (p q : Z) : res Z := strcasecmp_loop (fuel m) m p q.

Fixpoint strlen_loop (k : nat) (m : mem) (s n : Z) : res Z :=
  match k with
  | O => Err EFuel
  | S k => c ← load m (s + n); if c =? 0 then mret n else strlen_loop k m s (u64 (n + 1))
  end.

Definition strlen (m : mem) (s : Z) : res Z := strlen_loop (fuel m) m s 0.

Fixpoint strnlen_loop (k : nat) (m : mem) (s size n : Z) : res Z :=
  match k with
  | O => Err EFuel
  | S k =>
      if n <? size then c ← load m (s + n); if c =? 0 then mret n else strnlen_loop k m s size (n + 1)
      else mret n
  end.

Definition strnlen (m : mem) (s size : Z) : res Z := if size =? 0 then mret 0 else strnlen_loop (fuel m) m s size 0.

(** ** Searching *)

Definition strstr (m : mem) (s1 s2 : Z) : res Z := KString.strstr m s1 s2.

(** [i] turns are done, [k] are left. *)
Fixpoint memchr_loop (k : nat) (m : mem) (s c i : Z) : res Z :=
  match k with
  | O => mret NULL
  | S k => x ← loadc m (s + i); if x =? c then mret (s + i) else memchr_loop k m s c (i + 1)
  end.

Definition memchr (m : mem) (s c n : Z) : res Z := memchr_loop (Z.to_nat n) m s c 0.

Definition strchr (m : mem) (s c : Z) : res Z := n ← strlen m s; memchr m s c (u64 (n + 1)).

Definition memrchr (m : mem) (s c n : Z) : res Z := KString.strrchr_loop (Z.to_nat n) m s c.

Definition strrchr (m : mem) (s c : Z) : res Z := n ← strlen m s; memrchr m s c (u64 (n + 1)).

Definition strcspn (m : mem) (s1 s2 : Z) : res Z := KString.strcspn m s1 s2.
Definition strspn (m : mem) (s1 s2 : Z) : res Z := KString.strspn m s1 s2.
Definition strpbrk (m : mem) (s1 s2 : Z) : res Z := KString.strpbrk m s1 s2.

(** ** Copying *)

Definition strncpy (m : mem) (dst src n : Z) : res (Z * mem) := KString.strncpy m dst src n.

Definition stpncpy (m : mem) (dst src n : Z) : res (Z * mem) :=
  if n =? 0 then mret (dst, m) else KString.stpncpy m dst src n.

Fixpoint memset_loop (k : nat) (m : mem) (dst c : Z) : res mem :=
  match k with
  | O => mret m
  | S k => m ← store m dst c; memset_loop k m (dst + 1) c
  end.

Definition memset (m : mem) (dst c n : Z) : res (Z * mem) := m' ← memset_loop (Z.to_nat n) m dst c; mret (dst, m').

Definition memcmp (m : mem) (v1 v2 n : Z) : res Z := if n =? 0 then mret 0 else KString.memcmp m v1 v2 n.

Definition memmove (m : mem) (dst src n : Z) : res (Z * mem) := KString.memmove m dst src n.

Definition memcpy (m : mem) (dst src n : Z) : res (Z * mem) := m' ← KString.copy_forward (Z.to_nat n) m dst src; mret (dst, m').

Definition mempcpy (m : mem) (dst src n : Z) : res (Z * mem) := '(d, m') ← memcpy m dst src n; mret (d + n, m').

Definition stpcpy (m : mem) (dst src : Z) : res (Z * mem) :=
  n ← strlen m src;
  '(p, m) ← mempcpy m dst src n;
  m ← store m p 0;
  mret (p, m).

Definition strcat (m : mem) (dst src : Z) : res (Z * mem) :=
  n ← strlen m dst;
  '(_, m) ← stpcpy m (dst + n) src;
  mret (dst, m).

(** [n] bytes are copied, whatever they are, and nothing is put behind them. *)
Definition strncat (m : mem) (dst src n : Z) : res (Z * mem) :=
  if n =? 0 then mret (dst, m)
  else
    start ← strlen m dst;
    m' ← KString.copy_forward (Z.to_nat (u64 (start + n) - start)) m (dst + start) src;
    mret (dst, m').

Definition __safestrcpy (m : mem) (s t n : Z) : res (Z * mem) := KString.__safestrcpy m s t n.
Definition __strlcpy_nostrlen (m : mem) (dst src dst_len src_len : Z) : res (Z * mem) :=
  __safestrcpy m dst src (if dst_len <? src_len then dst_len else src_len).

(** ** Messages *)

Definition error_texts : list (Z * string) := [
  (1, "Operation not permitted");
  (2, "No such file or directory");
  (3, "No such process");
  (4, "Interrupted system call");
  (5, "I/O error");
  (6, "No such device or address");
  (7, "Argument list too long");
  (8, "Exec format error");
  (9, "Bad file number");
  (10, "No child processes");
  (11, "Try again");
  (12, "Out of memory");
  (13, "Permission denied");
  (14, "Bad address");
  (15, "Block device required");
  (16, "Device or resource busy");
  (17, "File exists");
  (18, "Cross-device link");
  (19, "No such device");
  (20, "Not a directory");
  (21, "Is a directory");
  (22, "Invalid argument");
  (23, "File table overflow");
  (24, "Too many open files");
  (25, "Not a typewriter");
  (26, "Text file busy");
  (27, "File too large");
  (28, "No space left on device");
  (29, "Illegal seek");
  (30, "Read-only file system");
  (31, "Too many links");
  (32, "Broken pipe");
  (33, "Math argument out of domain of func");
  (34, "Math result not representable");
  (35, "Resource deadlock");
  (36, "Name too long");
  (37, "No record locks available");
  (38, "function not implemented");
  (39, "Directory not empty");
  (40, "Too many symbolic links");
  (41, "Address in use");
  (42, "Address not available");
  (43, "Address family not supported");
  (44, "Connection already in progress");
  (45, "Bad message");
  (46, "Operation canceled");
  (47, "Connection aborted");
  (48, "Connection refused");
  (49, "Connection reset");
  (50, "Destination address required");
  (51, "Reserved");
  (52, "Host is unreachable");
  (53, "Identifier removed");
  (54, "Illegal byte sequence");
  (55, "Operation in progress");
  (56, "Socket is connected");
  (57, "Message too large");
  (58, "Reserved");
  (59, "Network is down");
  (60, "Connection aborted by network");
  (61, "Network unreachable");
  (62, "No buffer space available");
  (63, "Reserved");
  (64, "No message of the desired type");
  (65, "Protocol not available");
  (66, "The socket is not connected");
  (67, "State not recoverable");
  (68, "Not a socket");
  (69, "Not supported");
  (70, "Value too large to be stored in data type");
  (71, "Previous owner died");
  (72, "Protocol error");
  (73, "Protocol not supported");
  (74, "Protocol wrong type for socket");
  (75, "Socket type not supported");
  (76, "Reserved");
  (77, "Connection timed out")].

(** The text, and whether [errno] is set to [EINVAL]. *)
Definition strerror (errnum : Z) : string * bool :=
  if errnum =? 0 then ("Success"%string, false)
  else
    match find (λ p : Z * string, p.1 =? errnum) error_texts with
    | Some (_, t) => (t, false)
    | None => ("Unknown errno value"%string, true)
    end.

(** ** Tokens *)

(** The two loops: advance while the membership of the character in [delim] is
    [want]. *)
Fixpoint strtok_skip (k : nat) (m : mem) (want : bool) (tok delim : Z) : res Z :=
  match k with
  | O => Err EFuel
  | S k =>
      c ← loadc m tok;
      if c =? 0 then mret tok
      else
        p ← strchr m delim c;
        if Bool.eqb (negb (p =? NULL)) want then strtok_skip k m want (tok + 1) delim else mret tok
  end.

(** [saveptr] is the pointer the caller keeps. *)
Definition strtok_r (m : mem) (str delim saveptr : Z) : res (Z * Z * mem) :=
  let saveptr := if str =? NULL then saveptr else str in
  if saveptr =? NULL then mret (NULL, saveptr, m)
  else
    saveptr ← strtok_skip (fuel m) m true saveptr delim;
    c ← load m saveptr;
    if c =? 0 then mret (NULL, saveptr, m)
    else
      let start := saveptr in
      saveptr ← strtok_skip (fuel m) m false saveptr delim;
      c ← load m saveptr;
      if c =? 0 then mret (start, saveptr, m)
      else m ← store m saveptr 0; mret (start, saveptr + 1, m).

Definition strtok (m : mem) (str delim __strtok_token : Z) : res (Z * Z * mem) := strtok_r m str delim __strtok_token.

(** ** Copies in new memory *)

Section dup.
Context (malloc : mem → Z → res (Z * mem)).

(** The result and whether [errno] is set to [ENOMEM]. *)
Definition strndup (m : mem) (s n : Z) : res (Z * bool * mem) :=
  if (s =? NULL) || (n =? 0) then mret (s, false, m)
  else
    len ← strnlen m s n;
    '(new_s, m) ← malloc m (u64 (len + 1));
    if new_s =? NULL then mret (NULL, true, m)
    else
      '(_, m) ← memcpy m new_s s len;
      m ← store m (new_s + len) 0;
      mret (new_s, false, m).

Definition strdup (m : mem) (s : Z) : res (Z * bool * mem) :=
  len ← strlen m s;
  '(new_s, m) ← malloc m (u64 (len + 1));
  if new_s =? NULL then mret (NULL, true, m)
  else '(p, m) ← strcpy m new_s s; mret (p, false, m).
End dup.

(** ** Scans *)

Lemma user_strlen_loop k m s x (n : nat) :
  cstr m (s + n) x → (length x < k)%nat → n + length x < 2 ^ 64 → strlen_loop k m s n = Ok (n + length x).
Proof.
  revert n k. induction x as [|b x IH]; intros n [|k] Hx Hk Hn; cbn in Hk; try lia; cbn [strlen_loop].
  - apply cstr_nil in Hx. rewrite (load_bind _ _ _ _ Hx). unfold mret, res_ret. cbn. f_equal. lia.
  - apply cstr_cons in Hx as (Hb & ? & Hx). rewrite (load_bind _ _ _ _ Hb), (proj2 (Z.eqb_neq _ _)) by lia. cbn [length] in *.
    rewrite wrap_small by lia. replace (n + 1) with (Z.of_nat (S n)) by lia. rewrite IH; [f_equal; lia| |lia|lia].
    by replace (s + S n) with (s + n + 1) by lia.
Qed.

Lemma user_strlen m s x : cstr m s x → length x < 2 ^ 64 → strlen m s = Ok (Z.of_nat (length x)).
Proof.
  intros Hx Hn. pose proof (cstr_size _ _ _ Hx). apply (user_strlen_loop _ m s x 0); [by rewrite Z.add_0_r|unfold fuel; lia|lia].
Qed.

(** For a character, [memchr] over the string does what a scan does. *)
Lemma memchr_scan k m s c x (i : nat) :
  cstr m (s + i) x → c ≠ 0 → (length x < k)%nat →
  memchr_loop (S (length x)) m s c i = KString.strchr_loop k m (s + i) c.
Proof.
  intros Hx Hc. revert i k Hx. induction x as [|b x IH]; intros i [|k] Hx Hk; cbn [length] in *; try lia; cbn [memchr_loop KString.strchr_loop].
  - apply cstr_nil in Hx. rewrite !(loadc_bind _ _ _ _ Hx). change (s8 0) with 0. by rewrite (proj2 (Z.eqb_neq 0 c)) by done.
  - apply cstr_cons in Hx as (Hb & Hr & Hx). rewrite !(loadc_bind _ _ _ _ Hb). rewrite (proj2 (Z.eqb_neq (s8 b) 0)) by by apply s8_pos_neq.
    destruct (s8 b =? c); [done|]. replace (i + 1) with (Z.of_nat (S i)) by lia. replace (s + i + 1) with (s + S i) in * by lia.
    apply IH; [done|lia].
Qed.

Lemma strchr_same m s c x : cstr m s x → c ≠ 0 → length x < 2 ^ 63 → strchr m s c = KString.strchr m s c.
Proof.
  intros Hx Hc Hl. pose proof (cstr_size _ _ _ Hx). unfold strchr, memchr. rewrite (user_strlen _ _ x) by (done || lia).
  cbn [mbind res_bind]. rewrite wrap_small by lia. replace (Z.to_nat (length x + 1)) with (S (length x)) by lia.
  assert (cstr m (s + 0%nat) x) as Hx0 by (by rewrite Z.add_0_r).
  pose proof (memchr_scan (fuel m) m s c x 0 Hx0 Hc ltac:(unfold fuel; lia)) as E. rewrite Z.add_0_r in E. exact E.
Qed.

Lemma strtok_skip_same k m want tok delim x dl :
  cstr m tok x → cstr m delim dl → length dl < 2 ^ 63 → strtok_skip k m want tok delim = KString.strtok_skip k m want tok delim.
Proof.
  intros Hx Hd Hl. revert tok x Hx. induction k as [|k IH]; intros tok x Hx; [done|]. cbn [strtok_skip KString.strtok_skip].
  destruct x as [|b x].
  - apply cstr_nil in Hx. by rewrite !(loadc_bind _ _ _ _ Hx).
  - apply cstr_cons in Hx as (Hb & ? & Hx). rewrite !(loadc_bind _ _ _ _ Hb). rewrite (proj2 (Z.eqb_neq (s8 b) 0)) by by apply s8_pos_neq.
    rewrite (strchr_same _ _ _ dl) by (done || by apply s8_pos_neq). destruct (KString.strchr _ _ _); [|done]. cbn [mbind res_bind].
    case_match; [|done]. by eapply IH.
Qed.

(** Where the scan stops, there is still a string. *)
Lemma strtok_skip_string k m want tok delim x tok' :
  cstr m tok x → KString.strtok_skip k m want tok delim = Ok tok' → ∃ y, cstr m tok' y.
Proof.
  revert tok x. induction k as [|k IH]; intros tok x Hx; [done|]. cbn [KString.strtok_skip]. destruct x as [|b x].
  - pose proof Hx as Hb. apply cstr_nil in Hb. rewrite (loadc_bind _ _ _ _ Hb). intros [= <-]. by exists [].
  - pose proof Hx as Hb. apply cstr_cons in Hb as (Hb & ? & Hx'). rewrite (loadc_bind _ _ _ _ Hb).
    rewrite (proj2 (Z.eqb_neq (s8 b) 0)) by by apply s8_pos_neq. destruct (KString.strchr _ _ _); [|done]. cbn [mbind res_bind].
    case_match; [by apply (IH _ x)|]. intros [= <-]. by exists (b :: x).
Qed.

(** On strings, [strtok_r] is the kernel's [strtok]. *)
Lemma strtok_r_same m str delim saveptr x dl :
  cstr m (if str =? NULL then saveptr else str) x → cstr m delim dl → length dl < 2 ^ 63 →
  strtok_r m str delim saveptr = KString.strtok m saveptr str delim.
Proof.
  intros Hx Hd Hl. unfold strtok_r, KString.strtok. destruct (if str =? NULL then _ else _) as [|q|q] eqn:Ea; [done|..].
  all: rewrite (strtok_skip_same _ _ _ _ _ x dl) by done; destruct (KString.strtok_skip (fuel m) m true _ delim) as [t|] eqn:Es; [|done];
    cbn [mbind res_bind]; destruct (strtok_skip_string _ _ _ _ _ _ _ Hx Es) as [y Hy];
    by rewrite (strtok_skip_same _ _ _ _ _ y dl) by done.
Qed.

(** ** All tokens of a string *)

(** The pieces between delimiters, and those that are not empty. *)
Fixpoint split_on (dl x cur : list Z) : list (list Z) :=
  match x with
  | [] => [cur]
  | b :: x => if decide (b ∈ dl) then cur :: split_on dl x [] else split_on dl x (cur ++ [b])
  end.
Definition tokens (dl x : list Z) : list (list Z) := filter (λ t, t ≠ []) (split_on dl x []).

(** Calling [strtok_r] until it returns [NULL]. *)
Fixpoint tokenise (k : nat) (m : mem) (str delim saveptr : Z) : res (list Z * mem) :=
  match k with
  | O => Err EFuel
  | S k =>
      '(p, saveptr, m) ← strtok_r m str delim saveptr;
      if p =? NULL then mret ([], m)
      else '(ps, m) ← tokenise k m NULL delim saveptr; mret (p :: ps, m)
  end.

Lemma tokens_skip (dl d x : list Z) : Forall (λ c, c ∈ dl) d → tokens dl (d ++ x) = tokens dl x.
Proof.
  induction 1 as [|b d Hb _ IH]; [done|]. unfold tokens. cbn [app split_on]. rewrite decide_True by done.
  rewrite filter_cons_False by (intros []; done). exact IH.
Qed.

Lemma split_on_token (dl t x cur : list Z) : Forall (λ c, c ∉ dl) t → split_on dl (t ++ x) cur = split_on dl x (cur ++ t).
Proof.
  intros H. revert cur. induction H as [|b t Hb _ IH]; intros cur; [by rewrite app_nil_r|]. cbn [app split_on].
  rewrite decide_False by done. rewrite IH. by rewrite <- app_assoc.
Qed.

Lemma tokens_next (dl t y : list Z) : t ≠ [] → Forall (λ c, c ∉ dl) t → (∀ c, head y = Some c → c ∈ dl) → tokens dl (t ++ y) = t :: tokens dl (tail y).
Proof.
  intros Ht Hf Hy. unfold tokens. rewrite split_on_token by done. cbn [app]. destruct y as [|b y]; cbn [split_on tail].
  - rewrite filter_cons_True by done. rewrite filter_cons_False by (intros []; done). done.
  - rewrite decide_True by (by apply Hy). by rewrite filter_cons_True by done.
Qed.

(** A string is delimiters, or delimiters, a token and a rest. *)
Lemma string_cases (dl x : list Z) :
  (∃ d, x = d ∧ Forall (λ c, c ∈ dl) d) ∨
  (∃ d t y, x = d ++ t ++ y ∧ Forall (λ c, c ∈ dl) d ∧ t ≠ [] ∧ Forall (λ c, c ∉ dl) t ∧ (∀ c, head y = Some c → c ∈ dl)).
Proof.
  induction x as [|b x IH]; [by left; exists []|]. destruct (decide (b ∈ dl)) as [Hb|Hb].
  - destruct IH as [(d & -> & Hd)|(d & t & y & -> & Hd & H)]; [left; exists (b :: d); auto|right; exists (b :: d), t, y; auto].
  - right. destruct IH as [(d & -> & Hd)|([|b' d] & t & y & -> & Hd & Ht & Hf & Hy)].
    + exists [], [b], d. split_and!; auto. intros c Hc. destruct d as [|c' d]; [done|]. injection Hc as ->. by apply Forall_cons in Hd as [? _].
    + exists [], (b :: t), y. split_and!; auto.
    + exists [], [b], (b' :: d ++ t ++ y). split_and!; auto. intros c [= <-]. by apply Forall_cons in Hd as [? _].
Qed.

Lemma strtok_r_end m str delim saveptr x dl (a := if str =? NULL then saveptr else str) :
  cstr m a x → cstr m delim dl → length dl < 2 ^ 63 → 0 < a → 0 < delim → Forall (λ c, c ∈ dl) x →
  strtok_r m str delim saveptr = Ok (NULL, a + length x, m).
Proof.
  intros Hx Hd Hl Ha Hdel Hf. rewrite (strtok_r_same _ _ _ _ x dl) by done. unfold KString.strtok. fold a.
  rewrite (proj2 (Z.eqb_neq a NULL)) by (unfold NULL; lia). pose proof (cstr_size _ _ _ Hx) as Hsz.
  rewrite (KString.strtok_skip_ok _ m true a delim dl x []); [|by rewrite app_nil_r|done|done|unfold fuel; lia| |done].
  - cbn [mbind res_bind]. by rewrite (load_bind _ _ _ _ (cstr_end _ _ _ Hx)).
  - eapply Forall_impl; [done|]. intros c ?. by rewrite bool_decide_true.
Qed.

Lemma tokenise_ok (k : nat) : ∀ m str delim saveptr x dl (a := if str =? NULL then saveptr else str),
  cstr m a x → cstr m delim dl → length dl < 2 ^ 63 → 0 < a → 0 < delim → disjoint a (S (length x)) delim (S (length dl)) → (length x < k)%nat →
  ∃ ps m', tokenise k m str delim saveptr = Ok (ps, m') ∧ Forall2 (cstr m') ps (tokens dl x) ∧
    (∀ b, ¬ (a ≤ b < a + length x) → m' !! b = m !! b).
Proof.
  induction k as [|k IH]; intros m str delim saveptr x dl a Hx Hd Hl Ha Hdel Hdj Hk; [lia|]. cbn [tokenise].
  destruct (string_cases dl x) as [(d & -> & Hf)|(d & t & y & -> & Hf & Ht & Htf & Hy)].
  { rewrite (strtok_r_end _ _ _ _ d dl) by done. exists [], m. split; [done|]. split; [|done].
    rewrite <- (app_nil_r d), tokens_skip by done. constructor. }
  destruct (KString.strtok_token m saveptr str delim dl a d t y eq_refl) as (sv & m1 & E & Hc1 & Hc2); try done.
  pose proof (KString.strtok_next m saveptr str delim dl a t y eq_refl Ha Hdel Hd Ht d Hx Hf Htf Hy) as E'.
  rewrite <- (strtok_r_same _ _ _ _ _ dl Hx) in E, E' by done. rewrite E. rewrite E in E'. injection E' as Hsv Hm1.
  cbn [mbind res_bind]. rewrite (proj2 (Z.eqb_neq _ NULL)) by (unfold NULL; lia). rewrite !length_app in *.
  assert (length t ≠ 0%nat) as Hlt by (by destruct t).
  assert (a + length d + length t ≤ sv ∧ sv + length (tail y) = a + length d + length t + length y) as [Hs1 Hs2].
  { subst sv. destruct y; [rewrite bool_decide_true by done|rewrite bool_decide_false by done]; cbn; lia. }
  assert (∀ b, ¬ (a ≤ b < a + (length d + (length t + length y))%nat) → m1 !! b = m !! b) as Hm.
  { intros b Hb. subst m1. case_bool_decide as Ey; [done|]. apply lookup_insert_ne. destruct y; [done|]. cbn in Hb. lia. }
  unfold disjoint in Hdj.
  destruct (IH m1 NULL delim sv (tail y) dl) as (ps & m2 & E2 & Hps & Hm2); cbn [Z.eqb NULL]; try done; [|lia| |lia|].
  { eapply cstr_frame; [|exact Hd]. intros b Hb. apply Hm. lia. }
  { unfold disjoint. change (NULL =? NULL) with true. cbv iota. lia. }
  change (NULL =? NULL) with true in *. cbv iota in *.
  rewrite E2. cbn [mbind res_bind]. exists (a + length d :: ps), m2. split; [done|]. split.
  - rewrite tokens_skip, tokens_next by done. constructor; [|done]. eapply cstr_frame; [|exact Hc1]. intros b Hb. apply Hm2.
    subst sv. destruct y; [rewrite bool_decide_true by done|rewrite bool_decide_false by done]; cbn; lia.
  - intros b Hb. rewrite Hm2 by lia. by apply Hm.
Qed.

(** C39. Calling [strtok_r] until it returns [NULL] visits the tokens of a
    string: the pointers it returns lead, one after the other, to the maximal
    runs of characters that are not delimiters, each ended by a NUL in place;
    nothing outside the string is written.  As many calls as the string has
    characters, and one, are enough. *)
Theorem strtok_r_tokens m str delim saveptr x dl :
  cstr m str x → cstr m delim dl → length dl < 2 ^ 63 → 0 < str → 0 < delim →
  disjoint str (S (length x)) delim (S (length dl)) →
  ∃ ps m', tokenise (S (length x)) m str delim saveptr = Ok (ps, m') ∧ Forall2 (cstr m') ps (tokens dl x) ∧
    (∀ b, ¬ (str ≤ b < str + length x) → m' !! b = m !! b).
Proof.
  intros Hx Hd Hl Hs Hdel Hdj. pose proof (tokenise_ok (S (length x)) m str delim saveptr x dl) as H. cbv zeta in H.
  rewrite (proj2 (Z.eqb_neq str NULL)) in H by (unfold NULL; lia). apply H; (done || lia).
Qed.

(** "a,,bc," with the delimiter ",". *)
Definition demo_tokens : mem := set_bytes (set_bytes ∅ 100 [97; 44; 44; 98; 99; 44; 0]) 400 [44; 0].

Lemma strtok_r_tokens_witness :
  tokens [44] [97; 44; 44; 98; 99; 44] = [[97]; [98; 99]] ∧
  ∃ ps m', tokenise 7 demo_tokens 100 400 0 = Ok (ps, m') ∧ Forall2 (cstr m') ps [[97]; [98; 99]] ∧
    (∀ b, ¬ (100 ≤ b < 100 + 6%nat) → m' !! b = demo_tokens !! b).
Proof.
  split; [vm_compute; reflexivity|].
  apply (strtok_r_tokens demo_tokens 100 400 0 [97; 44; 44; 98; 99; 44] [44]).
  - split; [vm_compute; repeat split|repeat constructor; lia].
  - split; [vm_compute; repeat split|repeat constructor; lia].
  - cbn. lia.
  - lia.
  - lia.
  - unfold disjoint. cbn. lia.
Defined.

End UString.
