(* ===== verification/Stdio.v ===== *)
(** * Standard input and output (userspace/libc/stdio.c)

    Streams with their buffers in the memory of the process, the table of open
    streams, and the calls into the kernel they make.  What a stream passes to
    the kernel is the interface [Kernel]; [Streams] says what a file that takes
    all it is given promises. *)

From S2P Require Import Prelude Mem KString UString Printf LibStd.

(** The calls as they return from the kernel, a negative number being an
    error, and the allocator of the process. *)
Class Kernel (K : Type) := {
  sys_write : Z → list Z → K → Z * K;
  sys_writev : Z → list Z → K → Z * K;
  sys_read : Z → Z → K → Z * list Z * K;
  sys_close : Z → K → Z * K;
  sys_openat : option (list Z) → Z → Z → K → Z * K;
  sys_lseek : Z → Z → Z → K → Z * K;
  sys_fcntl : Z → Z → Z → K → Z * K;
  malloc : Z → mem → K → Z * mem * K;
  free : Z → mem → K → mem * K;
}.

Module Stdio.

(** ** Data *)

Definition _IOLBF : Z := 1.
Definition _IOFBF : Z := 2.
Definition _IONBF : Z := 3.
Definition BUFSIZ : Z := 512.
Definition EOF : Z := -1.
Definition OPEN_MAX : Z := 100.
Definition EBADF : Z := 9.
Definition EINVAL : Z := 22.
Definition O_RDONLY : Z := 0x0.
Definition O_WRONLY : Z := 0x1.
Definition O_RDWR : Z := 0x2.
Definition O_CREAT : Z := 0x4.
Definition O_EXCL : Z := 0x8.
Definition O_TRUNC : Z := 0x10.
Definition O_APPEND : Z := 0x20.
Definition O_TMPFILE : Z := Z.lor 0x200 0x100.
Definition O_CLOEXEC : Z := 0x400.
Definition F_SETFL : Z := 0x008.
Definition SEEK_SET : Z := 0.
Definition SEEK_CUR : Z := 1.
(** 0666 *)
Definition file_mode : Z := 438.

Record FILE := mkFILE {
  write_buffer : Z;
  write_buffer_size : Z;
  write_buffer_index : Z;
  static_table_index : Z;
  previous_char : Z;
  fd : Z;
  mode : Z;
  flags : Z;
  buffer_mode : Z;
  eof : bool;
  error : bool;
  stdio_flush : bool;
}.

(** [sizeof(FILE)] *)
Definition FILE_SIZE : Z := 56.

Section stdio.
Context {K : Type} `{Kernel K}.

(** The memory of the process, the streams by their addresses, the static
    variables, and the kernel. *)
Record stdio := mkstdio {
  smem : mem;
  streams : gmap Z FILE;
  open_files : list Z;
  open_files_index : Z;
  stdin : Z;
  stdout : Z;
  stderr : Z;
  errno : Z;
  global_idx : Z;
  world : K;
}.

Definition set_smem v s := mkstdio v (streams s) (open_files s) (open_files_index s) (stdin s) (stdout s) (stderr s) (errno s) (global_idx s) (world s).
Definition set_streams v s := mkstdio (smem s) v (open_files s) (open_files_index s) (stdin s) (stdout s) (stderr s) (errno s) (global_idx s) (world s).
Definition set_open_files v s := mkstdio (smem s) (streams s) v (open_files_index s) (stdin s) (stdout s) (stderr s) (errno s) (global_idx s) (world s).
Definition set_open_files_index v s := mkstdio (smem s) (streams s) (open_files s) v (stdin s) (stdout s) (stderr s) (errno s) (global_idx s) (world s).
Definition set_std i o e s := mkstdio (smem s) (streams s) (open_files s) (open_files_index s) i o e (errno s) (global_idx s) (world s).
Definition set_errno v s := mkstdio (smem s) (streams s) (open_files s) (open_files_index s) (stdin s) (stdout s) (stderr s) v (global_idx s) (world s).
Definition set_global_idx v s := mkstdio (smem s) (streams s) (open_files s) (open_files_index s) (stdin s) (stdout s) (stderr s) (errno s) v (world s).
Definition set_world v s := mkstdio (smem s) (streams s) (open_files s) (open_files_index s) (stdin s) (stdout s) (stderr s) (errno s) (global_idx s) v.

Abbreviation IO := (M stdio).

Definition getf (p : Z) : IO FILE := o ← gets (λ s, streams s !! p); from_option o.
Definition setf (p : Z) (f : FILE) : IO unit := modify (λ s, set_streams (<[p := f]> (streams s)) s).
Definition load_byte (a : Z) : IO Z := m ← gets smem; lift (load m a).
Definition store_byte (a v : Z) : IO unit := m ← gets smem; m ← lift (store m a v); modify (set_smem m).

Fixpoint load_bytes (m : mem) (a : Z) (n : nat) : res (list Z) :=
  match n with
  | O => mret []
  | S n => b ← load m a; l ← load_bytes m (a + 1) n; mret (b :: l)
  end.
Fixpoint store_bytes (m : mem) (a : Z) (l : list Z) : res mem :=
  match l with
  | [] => mret m
  | b :: l => m ← store m a b; store_bytes m (a + 1) l
  end.

(** ** System calls *)

Definition kernel_call {A} (f : K → A * K) : IO A := λ s, let '(a, k) := f (world s) in Ok (a, set_world k s).

Definition __syscall_ret (r : Z) : IO Z :=
  if 2 ^ 64 - 4096 <? u64 r then _ ← modify (set_errno (2 ^ 64 - u64 r)); mret (-1) else mret (s64 r).

Definition write (fd buf count : Z) : IO Z :=
  if fd <? 0 then __syscall_ret (- EBADF)
  else m ← gets smem; l ← lift (load_bytes m buf (Z.to_nat count)); r ← kernel_call (sys_write fd l); __syscall_ret r.

(** [writev] with one vector *)
Definition writev (fd buf count : Z) : IO Z :=
  m ← gets smem; l ← lift (load_bytes m buf (Z.to_nat count)); r ← kernel_call (sys_writev fd l); __syscall_ret r.

(** The result and the bytes for the buffer. *)
Definition read (fd count : Z) : IO (Z * list Z) :=
  if fd <? 0 then r ← __syscall_ret (- EBADF); mret (r, [])
  else '(r, l) ← kernel_call (sys_read fd count); r ← __syscall_ret r; mret (r, l).

Definition close (fd : Z) : IO Z :=
  if fd <? 0 then __syscall_ret (- EBADF) else r ← kernel_call (sys_close fd); r ← __syscall_ret r; mret (s32 r).

Definition open (pathname : option (list Z)) (flags mode : Z) : IO Z :=
  let mode := if (Z.land flags O_CREAT =? O_CREAT) || (Z.land flags O_TMPFILE =? O_TMPFILE) then mode else 0 in
  r ← kernel_call (sys_openat pathname flags mode); r ← __syscall_ret r; mret (s32 r).

Definition lseek (fd offset whence : Z) : IO Z := r ← kernel_call (sys_lseek fd offset whence); __syscall_ret r.
Definition fcntl (fd cmd arg : Z) : IO Z := r ← kernel_call (sys_fcntl fd cmd arg); r ← __syscall_ret r; mret (s32 r).

Definition do_malloc (n : Z) : IO Z := λ s,
  let '(p, m, k) := malloc n (smem s) (world s) in Ok (p, set_smem m (set_world k s)).
Definition do_free (p : Z) : IO unit := λ s,
  let '(m, k) := free p (smem s) (world s) in Ok (tt, set_smem m (set_world k s)).

(** ** Streams *)

Definition set_index (v : Z) (f : FILE) : FILE :=
  mkFILE (write_buffer f) (write_buffer_size f) v (static_table_index f) (previous_char f) (fd f) (mode f) (flags f)
    (buffer_mode f) (eof f) (error f) (stdio_flush f).
Definition set_state (e r : bool) (f : FILE) : FILE :=
  mkFILE (write_buffer f) (write_buffer_size f) (write_buffer_index f) (static_table_index f) (previous_char f) (fd f) (mode f) (flags f)
    (buffer_mode f) e r (stdio_flush f).
Definition set_previous (v : Z) (f : FILE) : FILE :=
  mkFILE (write_buffer f) (write_buffer_size f) (write_buffer_index f) (static_table_index f) v (fd f) (mode f) (flags f)
    (buffer_mode f) (eof f) (error f) (stdio_flush f).
Definition set_fd (v : Z) (f : FILE) : FILE :=
  mkFILE (write_buffer f) (write_buffer_size f) (write_buffer_index f) (static_table_index f) (previous_char f) v (mode f) (flags f)
    (buffer_mode f) (eof f) (error f) (stdio_flush f).
Definition set_flags (v : Z) (f : FILE) : FILE :=
  mkFILE (write_buffer f) (write_buffer_size f) (write_buffer_index f) (static_table_index f) (previous_char f) (fd f) (mode f) v
    (buffer_mode f) (eof f) (error f) (stdio_flush f).
Definition set_buffer (b n : Z) (f : FILE) : FILE :=
  mkFILE b n (write_buffer_index f) (static_table_index f) (previous_char f) (fd f) (mode f) (flags f)
    (buffer_mode f) (eof f) (error f) (stdio_flush f).
Definition set_buffer_mode (v : Z) (f : FILE) : FILE :=
  mkFILE (write_buffer f) (write_buffer_size f) (write_buffer_index f) (static_table_index f) (previous_char f) (fd f) (mode f) (flags f)
    v (eof f) (error f) (stdio_flush f).

(** The result of [writev] is not looked at. *)
Definition flush (stream : Z) : IO Z :=
  if stream =? NULL then _ ← modify (set_errno EBADF); mret (-1)
  else
    f ← getf stream;
    _ ← writev (fd f) (write_buffer f) (write_buffer_index f);
    f ← getf stream;
    _ ← setf stream (set_index 0 f);
    mret 0.

Definition open_file (i : Z) : IO Z := l ← gets open_files; from_option (l !! Z.to_nat i).
Definition set_open_file (i v : Z) : IO unit :=
  l ← gets open_files;
  if (0 <=? i) && (i <? length l) then modify (set_open_files (<[Z.to_nat i := v]> l)) else fail EFault.

Fixpoint flush_all (k : nat) (i : Z) : IO unit :=
  match k with
  | O => fail EFuel
  | S k =>
      n ← gets open_files_index;
      if i <? n then p ← open_file i; _ ← flush p; flush_all k (i + 1) else mret tt
  end.

Definition fflush (stream : Z) : IO Z :=
  _ ← (if stream =? NULL then n ← gets open_files_index; flush_all (S (Z.to_nat n)) 0 else mret tt);
  flush stream.

Definition fileno (stream : Z) : IO Z := f ← getf stream; mret (fd f).
Definition feof (stream : Z) : IO Z := f ← getf stream; mret (Z.b2z (eof f)).
Definition ferror (stream : Z) : IO Z := f ← getf stream; mret (Z.b2z (error f)).
Definition clearerr (stream : Z) : IO unit := f ← getf stream; setf stream (set_state false false f).

(** A mode is the bytes of the string without its NUL. *)
Definition has_char (c : Z) (l : list Z) : bool := existsb (Z.eqb c) l.

Definition string_to_flags (mode : list Z) : Z :=
  let m0 := hd 0 mode in
  let fl := if has_char 43 mode then O_RDWR else if m0 =? 114 then O_RDONLY else O_WRONLY in
  let fl := if has_char 120 mode then Z.lor fl O_EXCL else fl in
  let fl := if has_char 101 mode then Z.lor fl O_CLOEXEC else fl in
  let fl := if negb (m0 =? 114) then Z.lor fl O_CREAT else fl in
  let fl := if m0 =? 119 then Z.lor fl O_TRUNC else fl in
  if m0 =? 97 then Z.lor fl O_APPEND else fl.

Definition first_free (l : list Z) : option nat := fst <$> list_find (λ p, p = NULL) l.

Definition fdopen (fd : Z) (mode : list Z) : IO Z :=
  if fd =? -1 then _ ← modify (set_errno EBADF); mret NULL
  else
    fp ← do_malloc FILE_SIZE;
    if fp =? NULL then mret NULL
    else
      let fl := string_to_flags mode in
      if fl =? -1 then _ ← do_free fp; mret NULL
      else
        buf ← do_malloc BUFSIZ;
        if buf =? NULL then _ ← do_free fp; mret NULL
        else
          let file i := mkFILE buf BUFSIZ 0 i EOF fd file_mode fl _IOFBF false false true in
          n ← gets open_files_index;
          if n <? OPEN_MAX then
            _ ← setf fp (file n);
            _ ← set_open_file n fp;
            _ ← modify (set_open_files_index (n + 1));
            mret fp
          else
            l ← gets open_files;
            match first_free l with
            | Some i => _ ← setf fp (file i); _ ← set_open_file i fp; mret fp
            | None => _ ← do_free buf; _ ← do_free fp; mret NULL
            end.

(** [strchr("rwa", c)] also finds the NUL of an empty mode. *)
Definition fopen (pathname mode : list Z) : IO Z :=
  if negb (has_char (hd 0 mode) [114; 119; 97; 0]) then _ ← modify (set_errno EINVAL); mret NULL
  else
    fd ← open (Some pathname) (string_to_flags mode) file_mode;
    if fd =? -1 then mret NULL else fdopen fd mode.

Definition freopen (pathname : option (list Z)) (mode : list Z) (stream : Z) : IO Z :=
  let fl := string_to_flags mode in
  _ ← fflush stream;
  f ← getf stream;
  _ ← match pathname with Some _ => _ ← close (fd f); mret tt | None => mret tt end;
  _ ← clearerr stream;
  _ ← match pathname with
      | Some _ => mret tt
      | None => f ← getf stream; _ ← fcntl (fd f) F_SETFL fl; f ← getf stream; setf stream (set_flags fl f)
      end;
  f ← getf stream;
  n ← open pathname fl (Stdio.mode f);
  f ← getf stream;
  _ ← setf stream (set_index 0 (set_fd n f));
  mret stream.

Definition fclose (stream : Z) : IO Z :=
  _ ← fflush stream;
  f ← getf stream;
  _ ← (if write_buffer f =? NULL then mret tt else do_free (write_buffer f));
  r ← close (fd f);
  if r <? 0 then f ← getf stream; _ ← setf stream (set_state (eof f) true f); mret EOF
  else
    _ ← set_open_file (static_table_index f) NULL;
    _ ← modify (λ s, set_open_files_index (u64 (open_files_index s - 1)) s);
    _ ← do_free stream;
    _ ← modify (λ s, set_streams (delete stream (streams s)) s);
    mret 0.

Definition setvbuf (stream buf modes n : Z) : IO Z :=
  _ ← (if buf =? NULL then mret tt else _ ← fflush stream; f ← getf stream; setf stream (set_buffer buf n f));
  if negb ((modes =? _IOFBF) || (modes =? _IOLBF) || (modes =? _IONBF)) then _ ← modify (set_errno EINVAL); mret (-1)
  else f ← getf stream; _ ← setf stream (set_buffer_mode modes f); mret 0.

Definition setlinebuf (stream : Z) : IO unit := _ ← setvbuf stream NULL _IOLBF 0; mret tt.
Definition setbuf (stream buf : Z) : IO unit := _ ← setvbuf stream buf (if buf =? NULL then _IONBF else _IOFBF) BUFSIZ; mret tt.

(** The process is killed when a stream cannot be made. *)
Definition __init_stdio : IO unit :=
  file_stdin ← fdopen 0 [114];
  file_stdout ← fdopen 1 [119];
  file_stderr ← fdopen 2 [119];
  if (file_stdin =? NULL) || (file_stderr =? NULL) || (file_stdout =? NULL) then panic "SIGSEGV"
  else
    _ ← setvbuf file_stdin NULL _IOLBF 0;
    _ ← setvbuf file_stdout NULL _IOLBF 0;
    _ ← setvbuf file_stderr NULL _IONBF 0;
    _ ← set_open_file 0 file_stdin;
    _ ← set_open_file 1 file_stdout;
    _ ← set_open_file 2 file_stderr;
    modify (set_std file_stdin file_stdout file_stderr).

Fixpoint fini_loop (k : nat) (i : Z) : IO unit :=
  match k with
  | O => fail EFuel
  | S k =>
      n ← gets open_files_index;
      if i <? n then
        p ← open_file i;
        _ ← (if p =? NULL then mret tt else _ ← fclose p; set_open_file i NULL);
        fini_loop k (i + 1)
      else mret tt
  end.

Definition __fini_stdio : IO unit := n ← gets open_files_index; fini_loop (S (Z.to_nat n)) 0.

(** ** Input *)

Definition ungetc (c stream : Z) : IO Z := f ← getf stream; mret (previous_char f).

(** [read] writes the low byte of an [int]; [junk] is what the other three held
    before. *)
Definition fgetc (junk stream : Z) : IO Z :=
  n ← fileno stream;
  '(r, l) ← read n 1;
  if negb (r =? 1) then mret EOF
  else
    let c := s32 (junk * 256 + hd 0 l) in
    f ← getf stream;
    _ ← setf stream (set_previous c f);
    mret c.

Definition getc (junk stream : Z) : IO Z := fgetc junk stream.
Definition getchar (junk : Z) : IO Z := p ← gets stdin; getc junk p.

(** The loop: [None] at the end of the file. *)
Fixpoint fgets_loop (k : nat) (junk buf max stream i : Z) : IO (option Z) :=
  match k with
  | O => fail EFuel
  | S k =>
      if i + 1 <? max then
        c ← getc junk stream;
        let c := s8 c in
        if c =? EOF then f ← getf stream; _ ← setf stream (set_state true (error f) f); mret None
        else
          _ ← store_byte (buf + i) c;
          if (c =? 10) || (c =? 13) then mret (Some (i + 1)) else fgets_loop k junk buf max stream (i + 1)
      else mret (Some i)
  end.

Definition fgets (junk buf max stream : Z) : IO Z :=
  o ← fgets_loop (S (Z.to_nat max)) junk buf max stream 0;
  match o with
  | None => mret NULL
  | Some i => _ ← store_byte (buf + i) 0; mret buf
  end.

(** ** Output *)

Definition fd_putc (fp c : Z) : IO unit :=
  f ← getf fp;
  _ ← store_byte (write_buffer f + write_buffer_index f) c;
  let i := u64 (write_buffer_index f + 1) in
  _ ← setf fp (set_index i f);
  if ((buffer_mode f =? _IOFBF) && (u64 (write_buffer_size f - 1) <=? i)) || (buffer_mode f =? _IONBF)
     || ((buffer_mode f =? _IOLBF) && (s8 c =? 10))
  then _ ← flush fp; mret tt else mret tt.

Definition string_putc (buf c : Z) : IO unit :=
  i ← gets global_idx;
  _ ← store_byte (buf + i) c;
  modify (set_global_idx (u64 (i + 1))).

Definition null_string_putc : IO unit := modify (λ s, set_global_idx (u64 (global_idx s + 1)) s).

Definition fputc (c stream : Z) : IO Z := _ ← fd_putc stream c; mret c.
Definition putc (c stream : Z) : IO Z := fputc c stream.
Definition putchar (c : Z) : IO Z := p ← gets stdout; putc c p.

(** What the formatter passes to an output function, character by character. *)
Fixpoint put_all (put : Z → IO unit) (l : list Z) : IO unit :=
  match l with
  | [] => mret tt
  | c :: l => _ ← put c; put_all put l
  end.

Section formatted.
Context {double : Type} (FD : Printf.Floating double).
Abbreviation arg := (Printf.arg double).
Abbreviation format := (Printf.__libc_vprintf_template double FD).

Definition vfprintf (stream : Z) (fmt : list Z) (argp : list arg) : IO Z :=
  '(ret, out) ← lift (format fmt argp SIZE_MAX);
  _ ← put_all (fd_putc stream) out;
  f ← getf stream;
  _ ← (if stdio_flush f then _ ← flush stream; mret tt else mret tt);
  mret ret.

Definition vsnprintf (str n : Z) (fmt : list Z) (argp : list arg) : IO Z :=
  _ ← modify (set_global_idx 0);
  '(idx, out) ← lift (format fmt argp n);
  _ ← put_all (if str =? NULL then λ _, null_string_putc else string_putc str) out;
  _ ← (if str =? NULL then mret tt else store_byte (str + idx) 0);
  mret idx.

Definition vsprintf (str : Z) (fmt : list Z) (argp : list arg) : IO Z :=
  _ ← modify (set_global_idx 0);
  '(ret, out) ← lift (format fmt argp SIZE_MAX);
  _ ← put_all (string_putc str) out;
  _ ← (if str =? NULL then mret tt else store_byte (str + ret) 0);
  mret ret.

Definition snprintf (str n : Z) (fmt : list Z) (listp : list arg) : IO Z := vsnprintf str n fmt listp.
Definition sprintf (str : Z) (fmt : list Z) (listp : list arg) : IO Z :=
  ret ← vsprintf str fmt listp;
  _ ← (if str =? NULL then mret tt else store_byte (str + ret) 0);
  mret ret.

Definition fprintf (stream : Z) (fmt : list Z) (listp : list arg) : IO Z := vfprintf stream fmt listp.

Definition dprintf (fd : Z) (fmt : list Z) (listp : list arg) : IO Z :=
  fp ← fdopen fd [119];
  if fp =? NULL then mret (-1)
  else ret ← vfprintf fp fmt listp; _ ← fclose fp; mret ret.

Definition vprintf (fmt : list Z) (argp : list arg) : IO Z := p ← gets stdout; vfprintf p fmt argp.
Definition printf (fmt : list Z) (listp : list arg) : IO Z := vprintf fmt listp.

(** "%s" and a newline *)
Definition fputs (s : option (list Z)) (stream : Z) : IO Z := fprintf stream [37; 115; 10] [Printf.AString double s].
Definition puts (s : option (list Z)) : IO Z := p ← gets stdout; fputs s p.

Definition bytes_of (s : string) : list Z := (λ c, Z.of_nat (Ascii.nat_of_ascii c)) <$> String.list_ascii_of_string s.

(** "%s: %s" and a newline *)
Definition perror (s : option (list Z)) : IO unit :=
  p ← gets stderr;
  e ← gets errno;
  let '(text, bad) := UString.strerror e in
  _ ← (if (bad : bool) then modify (set_errno EINVAL) else mret tt);
  _ ← fprintf p [37; 115; 58; 32; 37; 115; 10] [Printf.AString double s; Printf.AString double (Some (bytes_of text))];
  mret tt.
End formatted.

(** ** Blocks and positions *)

Definition fwrite (ptr size nmemb stream : Z) : IO Z :=
  let count := u64 (size * nmemb) in
  n ← fileno stream;
  ret ← write n ptr count;
  if ret <? 0 then f ← getf stream; _ ← setf stream (set_state (eof f) true f); mret 0
  else if size =? 0 then fail EFault else mret (ret / size).

Definition fread (ptr size nmemb stream : Z) : IO Z :=
  let count := u64 (size * nmemb) in
  n ← fileno stream;
  '(ret, l) ← read n count;
  m ← gets smem;
  m ← lift (store_bytes m ptr l);
  _ ← modify (set_smem m);
  if ret <? 0 then f ← getf stream; _ ← setf stream (set_state (eof f) true f); mret 0
  else if size =? 0 then fail EFault else mret (ret / size).

Definition ftell (stream : Z) : IO Z := f ← getf stream; lseek (fd f) 0 SEEK_CUR.
Definition fseek (stream offset whence : Z) : IO Z :=
  _ ← clearerr stream;
  f ← getf stream;
  r ← lseek (fd f) offset whence;
  mret (s32 r).
Definition rewind (stream : Z) : IO unit := _ ← fseek stream 0 SEEK_SET; clearerr stream.

End stdio.
Arguments stdio : clear implicits.

(** ** A stream as its user sees it *)

(** A descriptor in [accepts] takes all it is given and adds it to what it
    took before. *)
Class Streams (K : Type) `{Kernel K} := {
  accepts : Z → K → Prop;
  output : Z → K → list Z;
  writev_all n l k : accepts n k →
    ∃ k', sys_writev n l k = (Z.of_nat (length l), k') ∧ output n k' = output n k ++ l ∧
      ∀ n', accepts n' k → accepts n' k' ∧ (n' ≠ n → output n' k' = output n' k);
}.

(** What a stream has passed on, and what waits in its buffer. *)
Record astream := mkastream { a_mode : Z; a_size : Z; a_flush : bool; a_sent : list Z; a_pend : list Z }.

Definition passed (a : astream) : astream := mkastream (a_mode a) (a_size a) (a_flush a) (a_sent a ++ a_pend a) [].

Definition full (a : astream) (c : Z) : bool :=
  ((a_mode a =? _IOFBF) && (a_size a - 1 <=? length (a_pend a))) || (a_mode a =? _IONBF) || ((a_mode a =? _IOLBF) && (s8 c =? 10)).

(** [None] when the buffer has no room. *)
Definition a_putc (a : astream) (c : Z) : option astream :=
  if length (a_pend a) <? a_size a then
    let a := mkastream (a_mode a) (a_size a) (a_flush a) (a_sent a) (a_pend a ++ [u8 c]) in
    Some (if full a c then passed a else a)
  else None.

Fixpoint a_puts (a : astream) (l : list Z) : option astream :=
  match l with
  | [] => Some a
  | c :: l => a ← a_putc a c; a_puts a l
  end.

Section streams.
Context {K : Type} `{Streams K}.
Abbreviation stdio := (stdio K).

Record stream_ok (s : stdio) (p : Z) (a : astream) (f : FILE) : Prop := {
  so_null : p ≠ NULL;
  so_file : streams s !! p = Some f;
  so_mode : buffer_mode f = a_mode a;
  so_size : write_buffer_size f = a_size a;
  so_flush : stdio_flush f = a_flush a;
  so_index : write_buffer_index f = length (a_pend a);
  so_pend : bytes_at (smem s) (write_buffer f) (a_pend a);
  so_mapped : mapped (smem s) (write_buffer f) (Z.to_nat (a_size a));
  so_len : length (a_pend a) ≤ a_size a;
  so_max : 2 ≤ a_size a < 2 ^ 62;
  so_accepts : accepts (fd f) (world s);
  so_output : output (fd f) (world s) = a_sent a;
}.

(** Two streams that do not share a buffer or a descriptor. *)
Definition apart (f g : FILE) : Prop :=
  fd f ≠ fd g ∧ disjoint (write_buffer f) (Z.to_nat (write_buffer_size f)) (write_buffer g) (Z.to_nat (write_buffer_size g)).

Record inv (s : stdio) (A : gmap Z astream) : Prop := {
  inv_ok p a : A !! p = Some a → ∃ f, stream_ok s p a f;
  inv_apart p q f g : p ≠ q → is_Some (A !! p) → is_Some (A !! q) → streams s !! p = Some f → streams s !! q = Some g → apart f g;
}.

Definition same (f g : FILE) : Prop := fd f = fd g ∧ write_buffer f = write_buffer g ∧ write_buffer_size f = write_buffer_size g.

(** What an operation on the stream [f] at [p] may change. *)
Record frame (s : stdio) (p : Z) (f : FILE) (s' : stdio) : Prop := {
  fr_streams : ∃ f', streams s' = <[p := f']> (streams s) ∧ same f f';
  fr_mem x : ¬ (write_buffer f ≤ x < write_buffer f + write_buffer_size f) → smem s' !! x = smem s !! x;
  fr_world n : accepts n (world s) → accepts n (world s') ∧ (n ≠ fd f → output n (world s') = output n (world s));
}.

Lemma frame_refl s p f : streams s !! p = Some f → frame s p f s.
Proof. intros Hf. split; [|done|done]. exists f. split; [by rewrite insert_id|done]. Qed.

Lemma stream_frame_trans s p f s1 f1 s2 : frame s p f s1 → same f f1 → frame s1 p f1 s2 → frame s p f s2.
Proof.
  intros [(f' & E1 & S1) M1 W1] (Ef & Eb & Es) [(f2 & E2 & (Ef2 & Eb2 & Es2)) M2 W2]. split.
  - exists f2. rewrite E2, E1, insert_insert_eq. split; [done|]. unfold same. by rewrite Ef, Eb, Es.
  - intros x Hx. rewrite M2, M1; [done|done|]. by rewrite <- Eb, <- Es.
  - intros n Hn. destruct (W1 n Hn) as [H1 H2]. destruct (W2 n H1) as [H3 H4]. split; [done|]. intros Hne.
    rewrite H4, H2; [done|done|]. by rewrite <- Ef.
Qed.

(** An operation on one stream leaves the others alone. *)
Lemma inv_step s s' A p a f a' f' :
  inv s A → A !! p = Some a → stream_ok s p a f → frame s p f s' → stream_ok s' p a' f' → inv s' (<[p := a']> A).
Proof.
  intros [Hok Hap] Hp Hf [(f1 & E & Hs) M W] Hf'.
  assert (f1 = f') as -> by (pose proof (so_file _ _ _ _ Hf') as H1; rewrite E, lookup_insert_eq in H1; congruence).
  assert (∀ q g, q ≠ p → streams s' !! q = Some g → streams s !! q = Some g) as Hq.
  { intros q g Hne Hg. by rewrite E, lookup_insert_ne in Hg by done. }
  split.
  - intros q b Hb. destruct (decide (q = p)) as [->|Hne].
    { rewrite lookup_insert_eq in Hb. injection Hb as <-. by exists f'. }
    rewrite lookup_insert_ne in Hb by done. destruct (Hok q b Hb) as [g Hg]. exists g.
    destruct (Hap q p g f Hne (mk_is_Some _ _ Hb) (mk_is_Some _ _ Hp) (so_file _ _ _ _ Hg) (so_file _ _ _ _ Hf)) as [Hfd Hdis].
    unfold disjoint in Hdis. rewrite (so_size _ _ _ _ Hg), (so_size _ _ _ _ Hf) in Hdis. pose proof (so_max _ _ _ _ Hg) as Hmg. pose proof (so_max _ _ _ _ Hf) as Hmf.
    pose proof (so_len _ _ _ _ Hg) as Hlg.
    assert (∀ x, write_buffer g ≤ x < write_buffer g + a_size b → smem s' !! x = smem s !! x) as Hm.
    { intros x Hx. apply M. rewrite (so_size _ _ _ _ Hf). lia. }
    destruct Hg as [G1 G2 G3 G4 G5 G6 G7 G8 G9 G10 G11 G12]. destruct (W (fd g) G11) as [W1 W2]. split; try done.
    + by rewrite E, lookup_insert_ne by done.
    + apply (bytes_at_frame (smem s)); [|done]. intros x Hx. apply Hm. lia.
    + intros i Hi. rewrite Hm by lia. by apply G8.
    + by rewrite W2.
  - intros q r g h Hne Hqa Hra Hg Hh. rewrite !lookup_insert_is_Some in *.
    destruct (decide (q = p)) as [->|Hqp]; destruct (decide (r = p)) as [->|Hrp]; [done|..].
    + destruct Hs as (Ef & Eb & Es). rewrite E, lookup_insert_eq in Hg. injection Hg as <-. unfold apart. rewrite <- Ef, <- Eb, <- Es.
      apply (Hap p r f h); [done|by eexists|naive_solver|apply (so_file _ _ _ _ Hf)|by apply Hq].
    + destruct Hs as (Ef & Eb & Es). rewrite E, lookup_insert_eq in Hh. injection Hh as <-. unfold apart. rewrite <- Ef, <- Eb, <- Es.
      apply (Hap q p g f); [done|naive_solver|by eexists|by apply Hq|apply (so_file _ _ _ _ Hf)].
    + apply (Hap q r); [done|naive_solver|naive_solver|by apply Hq|by apply Hq].
Qed.

Lemma load_bytes_read m a l : bytes_at m a l → load_bytes m a (length l) = Ok l.
Proof.
  revert a. induction l as [|b l IH]; intros a Hl; [done|]. destruct Hl as [Hb Hl]. cbn [length load_bytes].
  by rewrite (load_bind _ _ _ _ Hb), (IH _ Hl).
Qed.

Lemma lift_bind {S A B} (r : res A) a (k : A → M S B) s : r = Ok a → (lift r ≫= k) s = k a s.
Proof. by intros ->. Qed.

Lemma getf_bind {B} p f (k : FILE → M stdio B) s : streams s !! p = Some f → (getf p ≫= k) s = k f s.
Proof. intros Hf. unfold getf. rewrite bind_assoc, gets_bind, Hf. done. Qed.

Lemma writev_run s n a (l : list Z) : accepts n (world s) → bytes_at (smem s) a l → length l < 2 ^ 62 →
  ∃ k', writev n a (length l) s = Ok (Z.of_nat (length l), set_world k' s) ∧ output n k' = output n (world s) ++ l ∧
    ∀ n', accepts n' (world s) → accepts n' k' ∧ (n' ≠ n → output n' k' = output n' (world s)).
Proof.
  intros Ha Hl Hn. destruct (writev_all n l (world s) Ha) as (k' & E & Ho & Hw). exists k'. split; [|done].
  unfold writev. rewrite gets_bind. rewrite (lift_bind _ l) by (rewrite Nat2Z.id; by apply load_bytes_read).
  rewrite (bind_run _ _ s (Z.of_nat (length l)) (set_world k' s)) by (unfold kernel_call; by rewrite E).
  unfold __syscall_ret. rewrite wrap_small by lia. rewrite (proj2 (Z.ltb_ge _ _)) by lia. by rewrite sx_small by lia.
Qed.

Lemma flush_run s p a f : stream_ok s p a f →
  ∃ s', flush p s = Ok (0, s') ∧ stream_ok s' p (passed a) (set_index 0 f) ∧ frame s p f s'.
Proof.
  intros [H1 H2 H3 H4 H5 H6 H7 H8 H9 H10 H11 H12]. destruct (writev_run s (fd f) (write_buffer f) (a_pend a) H11 H7 ltac:(lia)) as (k' & E & Ho & Hw).
  exists (set_streams (<[p := set_index 0 f]> (streams s)) (set_world k' s)). split_and!.
  - unfold flush. rewrite (proj2 (Z.eqb_neq p NULL)) by done. rewrite (getf_bind p f) by done. rewrite H6.
    rewrite (bind_run _ _ _ _ _ E). by rewrite (getf_bind p f) by done.
  - destruct (Hw _ H11) as [Ha _]. split; try done; cbn [a_pend a_mode a_size a_flush a_sent passed length world set_streams set_world]; try lia.
    + cbn. by rewrite lookup_insert_eq.
    + cbn [fd set_index]. by rewrite Ho, H12.
  - split; [|done|done]. exists (set_index 0 f). split; [done|]. done.
Qed.

Lemma bytes_at_snoc m b l c : bytes_at m b l → bytes_at (<[b + length l := c]> m) b (l ++ [c]).
Proof.
  intros Hl. apply bytes_at_app. split.
  - apply (bytes_at_frame m); [|done]. intros x Hx. by rewrite lookup_insert_ne by lia.
  - cbn. by rewrite lookup_insert_eq.
Qed.

Lemma putc_run s p a f c a' : stream_ok s p a f → a_putc a c = Some a' →
  ∃ s' f', fd_putc p c s = Ok (tt, s') ∧ stream_ok s' p a' f' ∧ same f f' ∧ frame s p f s'.
Proof.
  intros Hf Ha. pose proof Hf as [H1 H2 H3 H4 H5 H6 H7 H8 H9 H10 H11 H12]. unfold a_putc in Ha.
  destruct (Z.ltb_spec (length (a_pend a)) (a_size a)) as [Hlt|]; [|done].
  set (a1 := mkastream (a_mode a) (a_size a) (a_flush a) (a_sent a) (a_pend a ++ [u8 c])) in Ha. cbv zeta in Ha.
  set (f1 := set_index (length (a_pend a) + 1) f).
  set (s1 := set_streams (<[p := f1]> (streams s)) (set_smem (<[write_buffer f + length (a_pend a) := u8 c]> (smem s)) s)).
  assert (stream_ok s1 p a1 f1) as Hf1.
  { split; try done; cbn [a_pend a_mode a_size a_flush a_sent a1 smem streams world s1 set_streams set_smem f1 set_index write_buffer write_buffer_index].
    - by rewrite lookup_insert_eq.
    - rewrite length_app. cbn. lia.
    - by apply bytes_at_snoc.
    - by apply mapped_insert.
    - rewrite length_app. cbn. lia. }
  assert (frame s p f s1) as Hfr.
  { split; [by exists f1| |done]. intros x Hx. cbn. rewrite H4 in Hx. rewrite lookup_insert_ne by lia. done. }
  assert (fd_putc p c s = (if full a1 c then _ ← flush p; mret tt else mret tt) s1) as E.
  { unfold fd_putc. rewrite (getf_bind p f) by done. rewrite H6. unfold store_byte. rewrite bind_assoc, gets_bind, bind_assoc.
    unfold store. destruct (H8 (length (a_pend a)) ltac:(lia)) as [b ->]. rewrite (lift_bind _ _) by done. rewrite modify_bind.
    unfold setf. rewrite modify_bind. rewrite H3, H4. rewrite (wrap_small 64 (a_size a - 1)), (wrap_small 64 (length (a_pend a) + 1)) by lia.
    unfold full. cbn [a_mode a_size a_pend a1]. rewrite length_app. cbn [length]. by replace (Z.of_nat (length (a_pend a) + 1)) with (length (a_pend a) + 1) by lia. }
  rewrite E. destruct (full a1 c); injection Ha as <-.
  - destruct (flush_run s1 p a1 f1 Hf1) as (s2 & E2 & Hf2 & Hfr2). exists s2, (set_index 0 f1). split_and!; [|done|done|].
    + by rewrite (bind_run _ _ _ _ _ E2).
    + by apply (stream_frame_trans s p f s1 f1).
  - exists s1, f1. split_and!; done.
Qed.

Lemma puts_run l : ∀ s p a f a', stream_ok s p a f → a_puts a l = Some a' →
  ∃ s' f', put_all (fd_putc p) l s = Ok (tt, s') ∧ stream_ok s' p a' f' ∧ same f f' ∧ frame s p f s'.
Proof.
  induction l as [|c l IH]; intros s p a f a' Hf Ha; cbn [a_puts put_all] in *.
  { injection Ha as <-. exists s, f. split_and!; [done|done|done|]. apply frame_refl, (so_file _ _ _ _ Hf). }
  destruct (a_putc a c) as [a1|] eqn:E; [|done]. cbn in Ha. destruct (putc_run s p a f c a1 Hf E) as (s1 & f1 & E1 & Hf1 & Hs1 & Hr1).
  destruct (IH s1 p a1 f1 a' Hf1 Ha) as (s2 & f2 & E2 & Hf2 & Hs2 & Hr2). exists s2, f2. split_and!.
  - by rewrite (bind_run _ _ _ _ _ E1).
  - done.
  - destruct Hs1 as (? & ? & ?), Hs2 as (? & ? & ?). unfold same. split_and!; congruence.
  - by apply (stream_frame_trans s p f s1 f1).
Qed.

(** ** Sequences of calls *)

Section calls.
Context {double : Type} (FD : Printf.Floating double).
Abbreviation arg := (Printf.arg double).
Abbreviation format := (Printf.__libc_vprintf_template double FD).

Inductive op :=
| Fputc (c p : Z)
| Fprintf (p : Z) (fmt : list Z) (args : list arg)
| Fflush (p : Z).

Definition step (o : op) : M stdio unit :=
  match o with
  | Fputc c p => _ ← fputc c p; mret tt
  | Fprintf p fmt args => _ ← fprintf FD p fmt args; mret tt
  | Fflush p => _ ← fflush p; mret tt
  end.

Fixpoint steps (l : list op) : M stdio unit :=
  match l with
  | [] => mret tt
  | o :: l => _ ← step o; steps l
  end.

(** The stream of a call, and the characters it puts. *)
Definition target (o : op) : Z := match o with Fputc _ p | Fprintf p _ _ | Fflush p => p end.
Definition text (o : op) : list Z :=
  match o with
  | Fputc c _ => [u8 c]
  | Fprintf _ fmt args => match format fmt args SIZE_MAX with Ok (_, out) => u8 <$> out | Err _ => [] end
  | Fflush _ => []
  end.
Definition texts (p : Z) (l : list op) : list Z := concat ((λ o, if target o =? p then text o else []) <$> l).

Definition a_call (a : astream) (o : op) : option astream :=
  match o with
  | Fputc c _ => a_putc a c
  | Fprintf _ fmt args =>
      match format fmt args SIZE_MAX with
      | Ok (_, out) => a ← a_puts a out; Some (if a_flush a then passed a else a)
      | Err _ => None
      end
  | Fflush _ => Some (passed a)
  end.

Fixpoint a_calls (l : list op) (A : gmap Z astream) : option (gmap Z astream) :=
  match l with
  | [] => Some A
  | o :: l => a ← A !! target o; a ← a_call a o; a_calls l (<[target o := a]> A)
  end.

Lemma a_putc_text a c a' : a_putc a c = Some a' → a_sent a' ++ a_pend a' = a_sent a ++ a_pend a ++ [u8 c].
Proof.
  unfold a_putc. destruct (_ <? _); [|done]. intros [= <-]. destruct (full _ _); cbn; by rewrite ?app_nil_r.
Qed.

Lemma a_puts_text l : ∀ a a', a_puts a l = Some a' → a_sent a' ++ a_pend a' = a_sent a ++ a_pend a ++ (u8 <$> l).
Proof.
  induction l as [|c l IH]; intros a a' Ha; cbn in Ha.
  { injection Ha as <-. cbn. by rewrite app_nil_r. }
  destruct (a_putc a c) as [a1|] eqn:E; [|done]. cbn in Ha. rewrite (IH a1 a' Ha), app_assoc, (a_putc_text a c a1 E). by rewrite <- !app_assoc.
Qed.

Lemma a_call_text a o a' : a_call a o = Some a' → a_sent a' ++ a_pend a' = a_sent a ++ a_pend a ++ text o.
Proof.
  destruct o as [c p|p fmt args|p]; cbn [a_call text].
  - apply a_putc_text.
  - destruct (format fmt args SIZE_MAX) as [[r out]|]; [|done]. destruct (a_puts a out) as [a1|] eqn:E; [|done]. cbn. intros [= <-].
    rewrite <- (a_puts_text _ _ _ E). destruct (a_flush a1); [|done]. cbn. by rewrite app_nil_r.
  - intros [= <-]. cbn. by rewrite !app_nil_r.
Qed.

Lemma step_run s o a f a' : stream_ok s (target o) a f → a_call a o = Some a' →
  ∃ s' f', step o s = Ok (tt, s') ∧ stream_ok s' (target o) a' f' ∧ frame s (target o) f s'.
Proof.
  intros Hf Ha. pose proof (so_null _ _ _ _ Hf) as Hp. destruct o as [c p|p fmt args|p]; cbn [a_call target step] in *.
  - destruct (putc_run s p a f c a' Hf Ha) as (s' & f' & E & Hf' & _ & Hr). exists s', f'. split_and!; [|done|done].
    unfold fputc. by rewrite bind_assoc, (bind_run _ _ _ _ _ E).
  - destruct (format fmt args SIZE_MAX) as [[r out]|] eqn:Ef; [|done]. destruct (a_puts a out) as [a1|] eqn:E; [|done]. cbn in Ha. injection Ha as <-.
    destruct (puts_run out s p a f a1 Hf E) as (s1 & f1 & E1 & Hf1 & Hs1 & Hr1).
    assert (step (Fprintf p fmt args) s = (_ ← (if a_flush a1 then _ ← flush p; mret tt else mret tt); mret tt) s1) as Es.
    { cbn [step]. unfold fprintf, vfprintf. rewrite bind_assoc. rewrite (lift_bind _ (r, out)) by done. cbn beta iota.
      rewrite bind_assoc, (bind_run _ _ _ _ _ E1), bind_assoc, (getf_bind p f1) by apply (so_file _ _ _ _ Hf1).
      rewrite bind_assoc, (so_flush _ _ _ _ Hf1). by destruct (a_flush a1). }
    cbn [step] in Es. rewrite Es. destruct (a_flush a1).
    + destruct (flush_run s1 p a1 f1 Hf1) as (s2 & E2 & Hf2 & Hr2). exists s2, (set_index 0 f1). split_and!; [|done|by apply (stream_frame_trans s p f s1 f1)].
      by rewrite bind_assoc, (bind_run _ _ _ _ _ E2).
    + by exists s1, f1.
  - injection Ha as <-. destruct (flush_run s p a f Hf) as (s1 & E1 & Hf1 & Hr1). exists s1, (set_index 0 f). split_and!; [|done|done].
    unfold fflush. rewrite (proj2 (Z.eqb_neq p NULL)) by done. by rewrite bind_assoc, ret_bind, (bind_run _ _ _ _ _ E1).
Qed.

Lemma a_calls_flushed l q : ∀ A A', a_calls l A = Some A' → last l = Some (Fflush q) → ∃ a, A' !! q = Some a ∧ a_pend a = [].
Proof.
  induction l as [|o l IH]; intros A A' Ha Hl; [done|]. cbn [a_calls] in Ha. destruct (A !! target o) as [a|]; [|done]. cbn in Ha.
  destruct (a_call a o) as [a1|] eqn:E; [|done]. cbn in Ha. destruct l as [|o' l]; [|by apply (IH _ _ Ha)].
  cbn in Hl, Ha. injection Hl as ->. injection Ha as <-. cbn in E. injection E as <-. exists (passed a). by rewrite lookup_insert_eq.
Qed.

(** A stream that is not line-buffered has room for everything. *)
Record roomy (a : astream) : Prop := {
  ro_mode : a_mode a = _IOFBF ∨ a_mode a = _IONBF;
  ro_len : length (a_pend a) < a_size a - 1;
}.

Lemma passed_roomy a : roomy a → roomy (passed a).
Proof. intros [H1 H2]. split; [done|]. cbn. lia. Qed.

Lemma a_putc_roomy a c : roomy a → ∃ a', a_putc a c = Some a' ∧ roomy a'.
Proof.
  intros [H1 H2]. unfold a_putc. rewrite (proj2 (Z.ltb_lt _ _)) by lia. eexists. split; [done|]. unfold full. cbn [a_mode a_size a_pend].
  rewrite length_app. cbn [length]. destruct H1 as [E|E]; rewrite E; cbn [Z.eqb Pos.eqb _IOFBF _IONBF _IOLBF andb orb].
  - rewrite orb_false_r. destruct (Z.leb_spec (a_size a - 1) (length (a_pend a) + 1)%nat); split; cbn; rewrite ?E, ?length_app; cbn; (by left) || lia.
  - split; cbn; [by right|lia].
Qed.

Lemma a_puts_roomy l : ∀ a, roomy a → ∃ a', a_puts a l = Some a' ∧ roomy a'.
Proof.
  induction l as [|c l IH]; intros a Ha; [by exists a|]. cbn. destruct (a_putc_roomy a c Ha) as (a1 & -> & Ha1). cbn. by apply IH.
Qed.

Lemma a_calls_roomy l : ∀ A, map_Forall (λ _, roomy) A →
  Forall (λ o, is_Some (A !! target o) ∧ match o with Fprintf _ fmt args => ∃ r, format fmt args SIZE_MAX = Ok r | _ => True end) l →
  is_Some (a_calls l A).
Proof.
  induction l as [|o l IH]; intros A HA Hl; [by eexists|]. apply Forall_cons in Hl as [[[a Ha] Ho] Hl]. cbn [a_calls]. rewrite Ha. cbn.
  pose proof (HA _ _ Ha) as Hr. assert (∃ a', a_call a o = Some a' ∧ roomy a') as (a' & -> & Hr').
  { destruct o as [c p|p fmt args|p]; cbn [a_call].
    - by apply a_putc_roomy.
    - destruct Ho as [[r out] ->]. destruct (a_puts_roomy out a Hr) as (a1 & -> & H1). cbn. eexists. split; [done|].
      destruct (a_flush a1); [by apply passed_roomy|done].
    - eexists. split; [done|]. by apply passed_roomy. }
  cbn. apply IH; [by apply map_Forall_insert_2|]. apply (Forall_impl _ _ _ Hl). intros o' [Ht Ho']. split; [|done].
  apply lookup_insert_is_Some. destruct (decide (target o = target o')); [by left|by right].
Qed.

(** A line as long as the buffer of a line-buffered stream: the next character
    is stored behind the buffer. *)
Lemma line_overflow s p a f c : stream_ok s p a f → a_mode a = _IOLBF → length (a_pend a) = Z.to_nat (a_size a) →
  smem s !! (write_buffer f + a_size a) = None → fd_putc p c s = Err EFault.
Proof.
  intros [H1 H2 H3 H4 H5 H6 H7 H8 H9 H10 H11 H12] Hm Hl Hn. unfold fd_putc. rewrite (getf_bind p f) by done. rewrite H6, Hl, Z2Nat.id by lia.
  apply bind_err. unfold store_byte. rewrite gets_bind. apply bind_err. unfold lift, store. by rewrite Hn.
Qed.

(** C36. Streams keep the order of what is put on them.  From a state in which no
    two streams share a buffer or a descriptor, any sequence of [fputc],
    [fprintf] and [fflush] on them runs as long as no line outgrows a
    line-buffered stream (buffered and unbuffered streams always have room):
    afterwards the descriptor of each stream has received, in order, what was
    put on that stream before and by the calls on it, but for what its buffer
    still holds; after [fflush] that is nothing. *)
Theorem stdio_streams l : ∀ s A A', inv s A → a_calls l A = Some A' →
  ∃ s', steps l s = Ok (tt, s') ∧ inv s' A' ∧
    (∀ q, last l = Some (Fflush q) → ∃ a, A' !! q = Some a ∧ a_pend a = []) ∧
    ∀ p a, A !! p = Some a → ∃ a' f, A' !! p = Some a' ∧ streams s' !! p = Some f ∧
      output (fd f) (world s') ++ a_pend a' = a_sent a ++ a_pend a ++ texts p l.
Proof.
  induction l as [|o l IH]; intros s A A' Hi Ha; pose proof (λ q, a_calls_flushed _ q A A' Ha) as Hfl; cbn [a_calls steps] in *.
  - injection Ha as <-. exists s. split_and!; [done|done|done|]. intros p a Hp. destruct (inv_ok _ _ Hi p a Hp) as [f Hf]. exists a, f.
    split_and!; [done|apply (so_file _ _ _ _ Hf)|]. rewrite (so_output _ _ _ _ Hf). cbn. by rewrite app_nil_r.
  - destruct (A !! target o) as [a|] eqn:Hp; [|done]. cbn in Ha. destruct (a_call a o) as [a1|] eqn:Ec; [|done]. cbn in Ha.
    destruct (inv_ok _ _ Hi _ a Hp) as [f Hf]. destruct (step_run s o a f a1 Hf Ec) as (s1 & f1 & E1 & Hf1 & Hr).
    destruct (IH s1 _ A' (inv_step s s1 A (target o) a f a1 f1 Hi Hp Hf Hr Hf1) Ha) as (s2 & E2 & Hi2 & _ & Ht). exists s2. split_and!; [|done|done|].
    + by rewrite (bind_run _ _ _ _ _ E1).
    + intros q b Hq. unfold texts. cbn [fmap list_fmap concat]. destruct (Z.eqb_spec (target o) q) as [<-|Hne].
      * assert (b = a) as -> by congruence. destruct (Ht (target o) a1 (lookup_insert_eq _ _ _)) as (a2 & f2 & Ha2 & Hf2 & Ho2).
        exists a2, f2. split_and!; [done|done|]. rewrite Ho2, app_assoc, (a_call_text a o a1 Ec). by rewrite <- !app_assoc.
      * apply Ht. by rewrite lookup_insert_ne by done.
Qed.

End calls.
End streams.

(** ** A kernel whose files take everything *)

(** What each descriptor has received, the descriptors that were closed, and
    the first address the allocator has not given out. *)
Record demo := mkdemo { received : gmap Z (list Z); closed : list Z; next : Z }.

Definition demo_write (n : Z) (l : list Z) (k : demo) : Z * demo :=
  (Z.of_nat (length l), mkdemo (<[n := default [] (received k !! n) ++ l]> (received k)) (closed k) (next k)).

#[export] Instance demo_kernel : Kernel demo := {|
  sys_write := demo_write;
  sys_writev := demo_write;
  sys_read n c k := (0, [], k);
  sys_close n k := (0, mkdemo (received k) (closed k ++ [n]) (next k));
  sys_openat path fl md k := (-2, k);
  sys_lseek n o w k := (-29, k);
  sys_fcntl n c a k := (0, k);
  malloc n m k := (next k, set_bytes m (next k) (replicate (Z.to_nat n) 0), mkdemo (received k) (closed k) (next k + n + 16));
  free p m k := (m, k);
|}.

#[export] Program Instance demo_streams : Streams demo := {|
  accepts _ _ := True;
  output n k := default [] (received k !! n);
|}.
Next Obligation.
  intros n l k _. eexists. split; [reflexivity|]. split; [cbn; by rewrite lookup_insert_eq|]. intros n' _. split; [done|].
  intros Hn. cbn. by rewrite lookup_insert_ne by done.
Qed.

(** A buffered stream with four bytes and a line-buffered one with eight. *)
Definition demo_file (buf n d bm : Z) : FILE := mkFILE buf n 0 0 EOF d file_mode O_WRONLY bm false false true.
Definition demo_state : stdio demo :=
  mkstdio (set_bytes (set_bytes ∅ 100 (replicate 4 0)) 200 (replicate 8 0))
    (<[16 := demo_file 100 4 1 _IOFBF]> {[32 := demo_file 200 8 2 _IOLBF]}) [16; 32] 2 0 0 0 0 0 (mkdemo ∅ [] 1000).
Definition demo_abs : gmap Z astream := <[16 := mkastream _IOFBF 4 true [] []]> {[32 := mkastream _IOLBF 8 true [] []]}.

(** "a", "b", "c" on the first stream around "x" and "%d" of 17 on the
    second. *)
Definition demo_calls : list (op (double := Z)) :=
  [Fputc 97 16; Fputc 120 32; Fputc 98 16; Fprintf 32 [37; 100] [Printf.AInt Z 17]; Fputc 99 16; Fputc 100 16; Fflush 16].

Lemma demo_inv : inv demo_state demo_abs.
Proof.
  split.
  - intros p a Hp. unfold demo_abs in Hp. apply lookup_insert_Some in Hp as [[<- <-]|[_ Hp]].
    + exists (demo_file 100 4 1 _IOFBF). split; try done; cbn; try lia.
      intros i Hi. assert (i = 0 ∨ i = 1 ∨ i = 2 ∨ i = 3) as [->|[->|[->| ->]]] by lia; by eexists.
    + apply lookup_singleton_Some in Hp as [<- <-]. exists (demo_file 200 8 2 _IOLBF). split; try done; cbn; try lia.
      intros i Hi. assert (i = 0 ∨ i = 1 ∨ i = 2 ∨ i = 3 ∨ i = 4 ∨ i = 5 ∨ i = 6 ∨ i = 7) as Hi' by lia. destruct_or! Hi'; subst i; by eexists.
  - intros p q f g Hne _ _ Hf Hg. cbn in Hf, Hg. apply lookup_insert_Some in Hf as [[<- <-]|[_ Hf]];
      apply lookup_insert_Some in Hg as [[<- <-]|[_ Hg]]; try apply lookup_singleton_Some in Hf as [<- <-];
      try apply lookup_singleton_Some in Hg as [<- <-]; try done; (split; [done|]); unfold disjoint; cbn; lia.
Qed.

Lemma stdio_streams_witness :
  ∃ A' s', a_calls LibStd.halves demo_calls demo_abs = Some A' ∧ steps LibStd.halves demo_calls demo_state = Ok (tt, s') ∧
    inv s' A' ∧
    (∀ q, last demo_calls = Some (Fflush q) → ∃ a, A' !! q = Some a ∧ a_pend a = []) ∧
    ∀ p a, demo_abs !! p = Some a → ∃ a' f, A' !! p = Some a' ∧ streams s' !! p = Some f ∧
      output (fd f) (world s') ++ a_pend a' = a_sent a ++ a_pend a ++ texts LibStd.halves p demo_calls.
Proof.
  destruct (a_calls LibStd.halves demo_calls demo_abs) as [A'|] eqn:E; [|vm_compute in E; discriminate E].
  destruct (stdio_streams LibStd.halves demo_calls demo_state demo_abs A' demo_inv E) as (s' & H). exists A', s'. split; [reflexivity|exact H].
Defined.

(** The two descriptors after these calls. *)
Example demo_received : match steps LibStd.halves demo_calls demo_state with
  | Ok (_, s) => (received (world s) !! 1, received (world s) !! 2) = (Some [97; 98; 99; 100], Some [120; 49; 55])
  | Err _ => False end.
Proof. vm_compute. reflexivity. Qed.

(** At exit the loop over the table of streams counts up while [fclose] counts
    the table down: of the three streams a program starts with, the third is
    not closed. *)
Example fini_misses_stream :
  match (_ ← __init_stdio; __fini_stdio) (mkstdio ∅ ∅ (replicate 100 NULL) 0 0 0 0 0 0 (mkdemo ∅ [] 1000)) with
  | Ok (_, s) => closed (world s) = [0; 1] ∧ open_files_index s = 1
  | Err _ => False end.
Proof. vm_compute. split; reflexivity. Qed.
End Stdio.
