(* ===== verification/Libgen.v ===== *)
(** * Parts of path names (userspace/libc/libgen.c)

    Both functions return one of two constant strings or a pointer into the
    path, which they may shorten. *)

From S2P Require Import Prelude Mem KString UString.

Module Libgen.

Inductive name :=
| Dot
| Slash
| At (p : Z).

Definition SLASH : Z := 47.

(** [for (len = strlen(path); len >= 2 && path[len - 1] == '/'; len--)] *)
Fixpoint trim (len : nat) (m : mem) (path : Z) : res mem :=
  match len with
  | S (S _ as n) =>
      c ← load m (path + n);
      if c =? SLASH then m ← store m (path + n) 0; trim n m path else mret m
  | _ => mret m
  end.

Definition basename (m : mem) (path : Z) : res (name * mem) :=
  if path =? NULL then mret (Dot, m)
  else
    c ← load m path;
    if c =? 0 then mret (Dot, m)
    else
      len ← UString.strlen m path;
      m ← trim (Z.to_nat len) m path;
      c ← load m path;
      d ← (if c =? SLASH then load m (path + 1) else mret 1);
      if (c =? SLASH) && (d =? 0) then mret (Slash, m)
      else
        last_slash ← UString.strrchr m path SLASH;
        if last_slash =? NULL then mret (At path, m) else mret (At (last_slash + 1), m).

(** [for (; (path[len] == '/') == want; len--) if (len == 0) return ...]: the
    index where the loop stops, or [None] for the return. *)
Fixpoint back (len : nat) (m : mem) (path : Z) (want : bool) : res (option nat) :=
  c ← load m (path + len);
  if Bool.eqb (c =? SLASH) want then match len with O => mret None | S n => back n m path want end
  else mret (Some len).

Definition dirname (m : mem) (path : Z) : res (name * mem) :=
  if path =? NULL then mret (Dot, m)
  else
    c ← load m path;
    if c =? 0 then mret (Dot, m)
    else
      n ← UString.strlen m path;
      a ← back (Z.to_nat (u64 (n - 1))) m path true;
      match a with
      | None => mret (Slash, m)
      | Some len =>
          b ← back len m path false;
          match b with
          | None => mret (Dot, m)
          | Some len =>
              c ← back len m path true;
              match c with
              | None => mret (Slash, m)
              | Some len => m ← store m (path + Z.of_nat len + 1) 0; mret (At path, m)
              end
          end
      end.

(** ** Proofs *)

(** A loop backwards over a part [x] of the string. *)
Lemma back_run m path want x (i : nat) :
  bytes_at m (path + i) x → Forall (λ b, Bool.eqb (b =? SLASH) want = true) x →
  ∀ b, (i ≠ 0%nat → m !! (path + i - 1) = Some b ∧ Bool.eqb (b =? SLASH) want = false) → x ≠ [] →
  back (i + length x - 1) m path want = Ok (if decide (i = 0%nat) then None else Some (i - 1)%nat).
Proof.
  intros Hx Hf b Hb Hne. induction x as [|c x IH] using rev_ind; [done|]. rewrite length_app. cbn [length].
  apply bytes_at_app in Hx as [Hx [Hc _]]. apply Forall_app in Hf as [Hf Hf'].
  apply Forall_cons in Hf' as [Hw _].
  replace (i + (length x + 1) - 1)%nat with (i + length x)%nat by lia.
  assert (m !! (path + (i + length x)%nat) = Some c) as Hc0 by (rewrite <- Hc; f_equal; lia).
  destruct (i + length x)%nat as [|n] eqn:En; cbn [back]; rewrite (load_bind _ _ c) by done; rewrite Hw.
  { by rewrite decide_True by lia. }
  destruct x as [|c' x].
  - cbn [length] in En. destruct i as [|i]; [lia|]. assert (n = i) as -> by lia. destruct (Hb ltac:(done)) as [Hb1 Hb2].
    rewrite decide_False by done. replace (S i - 1)%nat with i by lia. replace (path + S i - 1) with (path + i) in Hb1 by lia.
    destruct i; cbn [back]; by rewrite (load_bind _ _ _ _ Hb1), Hb2.
  - specialize (IH Hx Hf ltac:(done)). by replace (S n - 1)%nat with n in IH by lia.
Qed.

(** A string whose end is cut off. *)
Lemma cstr_cut m path s tl c : cstr m path (s ++ c :: tl) → cstr (<[path + length s := 0]> m) path s.
Proof.
  intros [Hb Hf]. apply Forall_app in Hf as [Hf _]. split; [|done]. rewrite <- app_assoc in Hb. apply bytes_at_app in Hb as [Hb _].
  apply bytes_at_app. split; [apply KString.bytes_at_insert; [lia|done]|]. cbn. by rewrite lookup_insert_eq.
Qed.

Lemma trim_ok tl : ∀ m path s c, cstr m path ((s ++ [c]) ++ tl) → Forall (λ b, b = SLASH) tl → (c ≠ SLASH ∨ s = []) →
  ∃ m', trim (length s + 1 + length tl) m path = Ok m' ∧ cstr m' path (s ++ [c]).
Proof.
  induction tl as [|b tl IH] using rev_ind; intros m path s c Hc Hf Hlast.
  - rewrite app_nil_r in Hc. cbn [length]. exists m. split; [|done].
    assert (m !! (path + length s) = Some c) as Hl by (apply (bytes_at_lookup _ _ _ _ _ (cstr_bytes _ _ _ Hc)); by apply list_lookup_middle).
    replace (length s + 1 + 0)%nat with (S (length s)) by lia. cbn [trim]. destruct (length s) as [|n] eqn:En; [done|].
    rewrite (load_bind _ _ _ _ Hl). destruct Hlast as [Hne| ->]; [|done]. by rewrite (proj2 (Z.eqb_neq _ _)) by done.
  - apply Forall_app in Hf as [Hf Hb]. apply Forall_cons in Hb as [-> _]. rewrite length_app. cbn [length].
    replace (length s + 1 + (length tl + 1))%nat with (S (length s + 1 + length tl)) by lia.
    assert (length ((s ++ [c]) ++ tl) = (length s + 1 + length tl)%nat) as El by (rewrite !length_app; cbn; lia).
    rewrite app_assoc in Hc.
    assert (m !! (path + (length s + 1 + length tl)%nat) = Some SLASH) as Hl.
    { rewrite <- El. apply (bytes_at_lookup _ _ _ _ _ (cstr_bytes _ _ _ Hc)). by apply list_lookup_middle. }
    cbn [trim]. destruct (length s + 1 + length tl)%nat as [|n] eqn:En; [lia|]. rewrite (load_bind _ _ _ _ Hl), Z.eqb_refl.
    rewrite store_bind by (eauto || lia). rewrite <- En. apply IH; [|done|done]. rewrite En, <- El. by eapply cstr_cut.
Qed.

(** The last slash of a string. *)
Lemma memrchr_ok m path x (k : nat) c :
  bytes_at m path x → Forall (λ b, 0 ≤ b < 256) x → 0 < path → 0 < c < 128 → k = length x →
  KString.strrchr_loop k m path c = Ok (match list_find (λ b, b = c) (rev x) with Some (i, _) => path + (length x - 1 - i) | None => NULL end).
Proof.
  intros Hx Hf Hp Hc ->. induction x as [|b x IH] using rev_ind; [done|]. rewrite length_app, Nat.add_1_r. cbn [KString.strrchr_loop].
  apply bytes_at_app in Hx as [Hx [Hb _]]. apply Forall_app in Hf as [Hf Hb']. apply Forall_cons in Hb' as [Hbr _].
  rewrite (loadc_bind _ _ _ _ Hb), rev_app_distr. cbn [rev app list_find].
  assert ((s8 b =? c) = bool_decide (b = c)) as ->.
  { destruct (Z.eqb_spec (s8 b) c) as [E|E]; case_bool_decide as Eb; try done.
    - destruct Eb. apply (s8_inj b c); [lia|lia|]. rewrite E. symmetry. apply sx_small; cbn; lia.
    - subst b. destruct E. apply sx_small; cbn; lia. }
  case_bool_decide as Eb.
  - rewrite decide_True by done. unfold mret, res_ret. f_equal. lia.
  - rewrite decide_False by done. rewrite IH by done. destruct (list_find _ (rev x)) as [[i y]|]; [|done]. cbn. f_equal. lia.
Qed.

(** The same from any place: the part may be empty when there is something
    below it. *)
Lemma back_over m path want x (i : nat) b :
  bytes_at m (path + i) x → Forall (λ b, Bool.eqb (b =? SLASH) want = true) x →
  (i ≠ 0%nat → m !! (path + i - 1) = Some b ∧ Bool.eqb (b =? SLASH) want = false) → (x ≠ [] ∨ i ≠ 0%nat) →
  back (i + length x - 1) m path want = Ok (if decide (i = 0%nat) then None else Some (i - 1)%nat).
Proof.
  intros Hx Hf Hb Hne. destruct x as [|c x]; [|by eapply back_run]. destruct Hne as [?|Hi]; [done|]. destruct (Hb Hi) as [H1 H2].
  rewrite decide_False by done. cbn [length]. rewrite Nat.add_0_r. destruct i as [|i]; [done|]. replace (S i - 1)%nat with i by lia.
  replace (path + S i - 1) with (path + i) in H1 by lia. destruct i; cbn [back]; by rewrite (load_bind _ _ _ _ H1), H2.
Qed.

(** A path as directory part, name and slashes at the end. *)
Record parts (x pre nm tl : list Z) : Prop := {
  pa_eq : x = pre ++ nm ++ tl;
  pa_name : nm ≠ [] ∧ Forall (λ b, b ≠ SLASH) nm;
  pa_end : Forall (λ b, b = SLASH) tl;
  pa_dir : pre = [] ∨ ∃ q, pre = q ++ [SLASH];
}.

Lemma last_slash m path pre nm :
  cstr m path (pre ++ nm) → 0 < path → length (pre ++ nm) < 2 ^ 63 → Forall (λ b, b ≠ SLASH) nm → (pre = [] ∨ ∃ q, pre = q ++ [SLASH]) →
  UString.strrchr m path SLASH = Ok (if decide (pre = []) then NULL else path + length pre - 1).
Proof.
  intros Hc Hp Hl Hn Hpre. unfold UString.strrchr, UString.memrchr. rewrite (UString.user_strlen _ _ _ Hc) by lia. cbn [mbind res_bind].
  rewrite wrap_small by lia. destruct Hc as [Hb Hf].
  rewrite (memrchr_ok m path ((pre ++ nm) ++ [0])); [|done| |done|done|rewrite !length_app; cbn [length]; lia].
  2: { apply Forall_app. split; [eapply Forall_impl; [exact Hf|cbn; lia]|by repeat constructor]. }
  rewrite !rev_app_distr. cbn [rev app list_find]. rewrite decide_False by done.
  assert (∀ l, Forall (λ b, b ≠ SLASH) l → ∀ r, list_find (λ b, b = SLASH) (l ++ r) = (λ p, (length l + p.1, p.2)%nat) <$> list_find (λ b, b = SLASH) r) as Hskip.
  { intros l Hl'. induction Hl' as [|y l Hy _ IH]; intros r; [cbn; destruct (list_find _ r) as [[]|]; done|]. cbn [app list_find length].
    rewrite decide_False by done. rewrite IH. destruct (list_find _ r) as [[]|]; done. }
  rewrite Hskip by (by apply Forall_rev). destruct Hpre as [->|[q ->]].
  - done.
  - rewrite rev_app_distr. cbn [rev app list_find]. rewrite !decide_True, decide_False by (done || by destruct q).
    cbn. rewrite !length_app, length_rev. cbn. f_equal. lia.
Qed.

Lemma start_ok m path x : cstr m path x → x ≠ [] → ∃ c, m !! path = Some c ∧ c ≠ 0 ∧ head x = Some c.
Proof. intros Hc Hx. destruct x as [|c x]; [done|]. apply cstr_cons in Hc as (? & ? & _). exists c. split_and!; [done|lia|done]. Qed.

Lemma basename_ok m path x pre nm tl :
  cstr m path x → 0 < path → length x < 2 ^ 62 → parts x pre nm tl →
  ∃ m', basename m path = Ok (At (path + length pre), m') ∧ cstr m' (path + length pre) nm.
Proof.
  intros Hc Hp Hl [-> [Hne Hn] Htl Hpre]. unfold basename. rewrite (proj2 (Z.eqb_neq path NULL)) by (unfold NULL; lia).
  destruct (start_ok _ _ _ Hc) as (c0 & Hc0 & Hne0 & _); [by destruct pre, nm|].
  rewrite (load_bind _ _ _ _ Hc0), (proj2 (Z.eqb_neq c0 0)) by done. rewrite (UString.user_strlen _ _ _ Hc) by lia. cbn [mbind res_bind].
  rewrite Nat2Z.id. destruct nm as [|c nm _] using rev_ind; [done|]. apply Forall_app in Hn as [Hn Hcn]. apply Forall_cons in Hcn as [Hcs _].
  destruct (trim_ok tl m path (pre ++ nm) c) as (m' & E & Hc'); [by rewrite <- !app_assoc in *|done|by left|].
  assert (length (pre ++ (nm ++ [c]) ++ tl) = (length (pre ++ nm) + 1 + length tl)%nat) as -> by (rewrite !length_app; cbn; lia).
  rewrite E. cbn [mbind res_bind]. rewrite <- app_assoc in Hc'.
  destruct (start_ok _ _ _ Hc') as (c1 & Hc1 & Hne1 & Hh1); [by destruct pre, nm|]. rewrite (load_bind _ _ _ _ Hc1).
  assert (length (pre ++ nm ++ [c]) < 2 ^ 63) as Hl' by (rewrite !length_app in *; cbn in *; lia).
  assert (Forall (λ b, b ≠ SLASH) (nm ++ [c])) as Hn' by (apply Forall_app; auto).
  assert (∃ d, (if c1 =? SLASH then load m' (path + 1) else mret 1) = Ok d ∧ ((c1 =? SLASH) && (d =? 0)) = false) as (d & Ed & Hd).
  { destruct (Z.eqb_spec c1 SLASH) as [->|]; [|by exists 1]. destruct pre as [|b pre]; [|].
    - destruct nm; injection Hh1 as ->; [done|]. by apply Forall_cons in Hn as [? _].
    - apply cstr_cons in Hc' as (_ & _ & Hc2). destruct (start_ok _ _ _ Hc2) as (c2 & Hc2' & Hne2 & _); [by destruct pre, nm|].
      exists c2. split; [by rewrite (load_ok _ _ _ Hc2')|]. by apply Z.eqb_neq. }
  rewrite Ed. cbn [mbind res_bind]. rewrite Hd. rewrite (last_slash m' path pre (nm ++ [c])) by done. cbn [mbind res_bind].
  exists m'. split; [|by apply (cstr_app _ _ pre)].
  case_decide as Epre; [subst; cbn; by rewrite Z.add_0_r|].
  assert (length pre ≠ 0%nat) by (by destruct pre). rewrite (proj2 (Z.eqb_neq _ NULL)) by (unfold NULL; lia).
  unfold mret, res_ret. do 3 f_equal. lia.
Qed.

Lemma dirname_ok m path x pre nm tl :
  cstr m path x → 0 < path → length x < 2 ^ 62 → parts x pre nm tl →
  dirname m path =
    if decide (pre = []) then Ok (Dot, m)
    else
      a ← back (length pre - 1) m path true;
      match a with
      | None => mret (Slash, m)
      | Some len => m ← store m (path + Z.of_nat len + 1) 0; mret (At path, m)
      end.
Proof.
  intros Hc Hp Hl [-> [Hne Hn] Htl Hpre]. unfold dirname. rewrite (proj2 (Z.eqb_neq path NULL)) by (unfold NULL; lia).
  destruct (start_ok _ _ _ Hc) as (c0 & Hc0 & Hne0 & _); [by destruct pre, nm|].
  rewrite (load_bind _ _ _ _ Hc0), (proj2 (Z.eqb_neq c0 0)) by done. rewrite (UString.user_strlen _ _ _ Hc) by lia. cbn [mbind res_bind].
  pose proof (cstr_bytes _ _ _ Hc) as Hb. apply bytes_at_app in Hb as [Hbp Hb]. apply bytes_at_app in Hb as [Hbn Hbt].
  assert (length nm ≠ 0%nat) as Hnl by (by destruct nm). rewrite !length_app in *. rewrite wrap_small by lia.
  replace (Z.to_nat ((length pre + (length nm + length tl))%nat - 1)) with (length pre + length nm + length tl - 1)%nat by lia.
  destruct nm as [|c nm' _] using rev_ind; [done|]. clear Hnl. set (nm := nm' ++ [c]) in *.
  assert (c ≠ SLASH) as Hcs by (apply Forall_app in Hn as [_ Hn]; by apply Forall_cons in Hn as [? _]).
  assert (length nm = S (length nm')) as Enm by (unfold nm; rewrite length_app; cbn; lia).
  rewrite (back_over m path true tl (length pre + length nm) c); [| |eapply Forall_impl; [exact Htl|intros b ->; done]| |right; lia].
  2: { by replace (path + (length pre + length nm)%nat) with (path + length pre + length nm) by lia. }
  2: { intros _. split; [|by rewrite (proj2 (Z.eqb_neq _ _))]. unfold nm in Hbn. apply bytes_at_app in Hbn as [_ [Hb _]]. rewrite <- Hb. f_equal. lia. }
  rewrite decide_False by lia. cbn [mbind res_bind].
  rewrite (back_over m path false nm (length pre) SLASH); [|done| | |by left; unfold nm; destruct nm'].
  2: { eapply Forall_impl; [exact Hn|]. intros b Hb. cbv beta in Hb. by rewrite (proj2 (Z.eqb_neq _ _)). }
  2: { intros Hpl. split; [|done]. destruct Hpre as [->|[q ->]]; [done|]. apply bytes_at_app in Hbp as [_ [Hb _]]. rewrite <- Hb.
    rewrite length_app. cbn [length]. f_equal. lia. }
  destruct (decide (pre = [])) as [->|Hpe]; [done|]. rewrite decide_False by (by destruct pre). done.
Qed.

(** [basename] and [dirname] take a path apart.  For a path that consists of
    a directory part (empty, or ended by a slash), a name without slashes and
    any number of slashes behind it, [basename] leaves and points to the name.
    [dirname] gives "." when there is no directory part, "/" when it is only
    slashes, and otherwise cuts the path down to the directory part without
    the slashes at its end. *)
Theorem basename_dirname m path x pre nm tl :
  cstr m path x → 0 < path → length x < 2 ^ 62 → parts x pre nm tl →
  (∃ m', basename m path = Ok (At (path + length pre), m') ∧ cstr m' (path + length pre) nm) ∧
  (pre = [] → dirname m path = Ok (Dot, m)) ∧
  (pre ≠ [] → Forall (λ b, b = SLASH) pre → dirname m path = Ok (Slash, m)) ∧
  (∀ q c sl, pre = (q ++ [c]) ++ sl → c ≠ SLASH → sl ≠ [] → Forall (λ b, b = SLASH) sl →
    ∃ m', dirname m path = Ok (At path, m') ∧ cstr m' path (q ++ [c])).
Proof.
  intros Hc Hp Hl Hpa. split; [by eapply basename_ok|]. rewrite (dirname_ok m path x pre nm tl) by done.
  pose proof Hpa as [Ex _ _ _]. subst x. pose proof (cstr_prefix _ _ _ _ Hc) as Hb. split_and!.
  - intros ->. done.
  - intros Hne Hs. rewrite decide_False by done. pose proof (back_over m path true pre 0 0) as E. rewrite Z.add_0_r in E.
    cbn [Nat.add] in E. rewrite E; [done|done|eapply Forall_impl; [exact Hs|by intros b ->]|done|by left].
  - intros q c sl -> Hcs Hsl Hs. rewrite decide_False by (by destruct q). apply bytes_at_app in Hb as [Hq Hsb].
    rewrite length_app. rewrite (back_over m path true sl (length (q ++ [c])) c); [|done|eapply Forall_impl; [exact Hs|by intros b ->]| |by left].
    2: { intros _. split; [|by rewrite (proj2 (Z.eqb_neq _ _))]. apply bytes_at_app in Hq as [_ [H _]]. rewrite <- H.
      rewrite length_app. cbn [length]. f_equal. lia. }
    rewrite length_app. cbn [length]. rewrite decide_False by lia. cbn [mbind res_bind]. destruct sl as [|s0 sl]; [done|].
    assert (path + (length q + 1 - 1)%nat + 1 = path + length (q ++ [c])) as Ea by (rewrite length_app; cbn [length]; lia). rewrite Ea.
    destruct Hsb as [Hs0 _]. rewrite store_bind by (eauto || lia). eexists. split; [done|]. eapply (cstr_cut m path (q ++ [c]) (sl ++ nm ++ tl) s0).
    by rewrite <- !app_assoc in *.
Qed.

(** "/usr//lib/" *)
Definition demo_path : mem := set_bytes ∅ 100 [47; 117; 115; 114; 47; 47; 108; 105; 98; 47; 0].

Lemma basename_dirname_witness :
  (∃ m', basename demo_path 100 = Ok (At 106, m') ∧ cstr m' 106 [108; 105; 98]) ∧
  (∃ m', dirname demo_path 100 = Ok (At 100, m') ∧ cstr m' 100 [47; 117; 115; 114]).
Proof.
  destruct (basename_dirname demo_path 100 [47; 117; 115; 114; 47; 47; 108; 105; 98; 47] [47; 117; 115; 114; 47; 47] [108; 105; 98] [47])
    as (H1 & _ & _ & H2).
  - split; [vm_compute; repeat split|repeat constructor; lia].
  - lia.
  - cbn. lia.
  - split; [reflexivity|split; [discriminate|repeat constructor; discriminate]|repeat constructor|right; by exists [47; 117; 115; 114; 47]].
  - split; [exact H1|]. apply (H2 [47; 117; 115] 114 [47; 47]); [reflexivity|discriminate|discriminate|repeat constructor].
Defined.

End Libgen.
