(* ===== verification/Clock.v ===== *)
(** * The time of day (kernel/dev/lapic.c, userspace/libc/time.c)

    The kernel reads the clock chip and counts the seconds since 1970; the C
    library turns them into a date again.  The registers of the chip are a
    function from their numbers to bytes, and the status register, which is
    polled, a sequence. *)

From S2P Require Import Prelude.

Module Clock.

(** ** The kernel *)

Definition CMOS_STATB : Z := 0x0b.
Definition CMOS_UIP : Z := 0x80.
Definition SECS : Z := 0x00.
Definition MINS : Z := 0x02.
Definition HOURS : Z := 0x04.
Definition DAY : Z := 0x07.
Definition MONTH : Z := 0x08.
Definition YEAR : Z := 0x09.

Definition bcd_to_binary (bcd : Z) : Z := u8 (Z.shiftr bcd 4 * 10 + Z.land bcd 0xf).

Definition is_leap_year (year : Z) : bool := (year mod 4 =? 0) && (negb (year mod 100 =? 0) || (year mod 400 =? 0)).

Definition days_in_year (year : Z) : Z := if is_leap_year year then 366 else 365.

Definition month_table : list Z := [31; 28; 31; 30; 31; 30; 31; 31; 30; 31; 30; 31].
Definition table_at (i : Z) : res Z :=
  if i <? 0 then Err EFault else match month_table !! Z.to_nat i with Some d => Ok d | None => Err EFault end.

Definition days_in_month (year month : Z) : res Z :=
  if (month =? 2) && is_leap_year year then mret 29 else table_at (u32 (month - 1)).

Fixpoint month_loop (k : nat) (year m month result : Z) : res Z :=
  if m <? month then
    match k with
    | O => Err EFuel
    | S k => d ← days_in_month year m; month_loop k year (u32 (m + 1)) month (u32 (result + d))
    end
  else mret result.

Definition day_of_year (year month day : Z) : res Z := month_loop (Z.to_nat month) year 1 month (u32 (day - 1)).

Fixpoint year_loop (k : nat) (y year days : Z) : res Z :=
  if y <? year then
    match k with
    | O => Err EFuel
    | S k => year_loop k (u32 (y + 1)) year (u32 (days + days_in_year y))
    end
  else mret days.

Definition days_since_epoch (year month day : Z) : res Z :=
  if year <? 1970 then Err (EPanic "assertion failed")
  else
    days ← day_of_year year month day;
    year_loop (Z.to_nat (year - 1970)) 1970 year days.

(** [stata i] is what the i-th read of the status register gives. *)
Fixpoint wait_update (k : nat) (stata : nat → Z) (i : nat) : bool :=
  match k with
  | O => false
  | S k => if Z.land (stata i) CMOS_UIP =? 0 then true else wait_update k stata (S i)
  end.

Definition rtc_now (cmos : Z → Z) (stata : nat → Z) : res Z :=
  let sb := cmos CMOS_STATB in
  let bcd := Z.land sb 4 =? 0 in
  let '(year, month, day, hour, minute, second) :=
    if wait_update 100 stata 0 then
      let hour := cmos HOURS in
      let is_pm := negb (Z.land hour 0x80 =? 0) in
      let conv x := if bcd then bcd_to_binary x else x in
      let hour := if bcd then bcd_to_binary (Z.land hour 0x7F) else hour in
      let hour := if Z.land sb 2 =? 0 then (if is_pm then hour mod 12 + 12 else hour mod 12) else hour in
      (conv (cmos YEAR) + 2000, conv (cmos MONTH), conv (cmos DAY), hour, conv (cmos MINS), conv (cmos SECS))
    else (1970, 1, 1, 0, 0, 0) in
  days ← days_since_epoch (u32 year) (u32 month) (u32 day);
  let hours := u64 (days * 24 + hour) in
  let minutes := u64 (hours * 60 + minute) in
  mret (u64 (minutes * 60 + second)).

(** ** The C library *)

Record tm := mktm {
  tm_sec : Z;
  tm_min : Z;
  tm_hour : Z;
  tm_mday : Z;
  tm_mon : Z;
  tm_year : Z;
  tm_wday : Z;
  tm_yday : Z;
  tm_isdst : Z;
  tm_gmtoff : Z;
  tm_zone : string;
}.

Definition leap (curr_year : Z) : bool := (curr_year mod 400 =? 0) || ((curr_year mod 4 =? 0) && negb (curr_year mod 100 =? 0)).

(** The year, and the days left in it. *)
Fixpoint find_year (k : nat) (curr_year days_till_now : Z) : res (Z * Z) :=
  match k with
  | O => Err EFuel
  | S k =>
      if leap curr_year then
        if days_till_now <? 366 then mret (curr_year, days_till_now) else find_year k (curr_year + 1) (days_till_now - 366)
      else
        if days_till_now <? 365 then mret (curr_year, days_till_now) else find_year k (curr_year + 1) (days_till_now - 365)
  end.

(** The loops over the months, for a leap year and for another. *)
Fixpoint find_month (k : nat) (flag : bool) (index month extra_days : Z) : res (Z * Z) :=
  if index <? 12 then
    match k with
    | O => Err EFuel
    | S k =>
        if flag && (index =? 1) then
          if extra_days - 29 <? 0 then mret (month, extra_days) else find_month k flag (index + 1) (month + 1) (extra_days - 29)
        else
          d ← table_at index;
          if extra_days - d <? 0 then mret (month, extra_days) else find_month k flag (index + 1) (month + 1) (extra_days - d)
    end
  else mret (month, extra_days).

(** The current month and the day in it. *)
Definition current_month (flag : bool) (month extra_days : Z) : res (Z * Z) :=
  if 0 <? extra_days then mret (month + 1, extra_days)
  else if (month =? 2) && flag then mret (month, 29)
  else d ← table_at (month - (if 1 <=? month then 1 else 0)); mret (month, d).

(** [s_time] is the static result, which the weekday is computed from. *)
Definition localtime (s_time : tm) (timep : option Z) : res (option tm) :=
  match timep with
  | None => mret None
  | Some unix_seconds =>
      let days_till_now := s32 (unix_seconds / (24 * 60 * 60)) in
      let extra_time := unix_seconds mod (24 * 60 * 60) in
      '(curr_year, days_till_now) ← find_year (Z.to_nat (days_till_now / 365) + 1) 1970 days_till_now;
      let extra_days := days_till_now + 1 in
      let flag := leap curr_year in
      '(month, extra_days) ← find_month 12 flag 0 0 extra_days;
      '(month, date) ← current_month flag month extra_days;
      let hours := extra_time / 3600 in
      let minutes := Z.rem extra_time 3600 / 60 in
      let seconds := Z.rem (Z.rem extra_time 3600) 60 in
      let wday := Z.rem (3 + tm_mday s_time) 7 in
      let wday := if wday <? 0 then wday + 7 else wday in
      mret (Some (mktm seconds minutes hours date month curr_year wday extra_days 0 0 "Etc/Gmt"))
  end.

(** ** The calendar

    Days since the first of January 1970, in closed form. *)
Definition year_start (y : Z) : Z := 365 * (y - 1970) + ((y - 1) / 4 - (y - 1) / 100 + (y - 1) / 400 - 477).
Definition month_start (flag : bool) (m : Z) : Z :=
  default 0 ([0; 31; 59; 90; 120; 151; 181; 212; 243; 273; 304; 334] !! Z.to_nat (m - 1)) + (if (2 <? m) && flag then 1 else 0).
Definition month_length (flag : bool) (m : Z) : Z := if (m =? 2) && flag then 29 else default 0 (month_table !! Z.to_nat (m - 1)).

Record date := mkdate { year : Z; month : Z; day : Z; hour : Z; minute : Z; second : Z }.

Record valid (x : date) : Prop := {
  v_year : 1970 ≤ year x;
  v_month : 1 ≤ month x ≤ 12;
  v_day : 1 ≤ day x ≤ month_length (is_leap_year (year x)) (month x);
  v_hour : 0 ≤ hour x < 24;
  v_minute : 0 ≤ minute x < 60;
  v_second : 0 ≤ second x < 60;
}.

Definition days_of (x : date) : Z := year_start (year x) + month_start (is_leap_year (year x)) (month x) + (day x - 1).
Definition seconds_of (x : date) : Z := 86400 * days_of x + 3600 * hour x + 60 * minute x + second x.

Lemma div_step n k : 0 < k → n / k = (n - 1) / k + (if n mod k =? 0 then 1 else 0).
Proof.
  intros Hk. pose proof (Z.div_mod n k ltac:(lia)) as E. pose proof (Z.mod_pos_bound n k Hk) as B.
  destruct (Z.eqb_spec (n mod k) 0) as [E0|E0].
  - replace (n - 1) with (k - 1 + (n / k - 1) * k) by lia. rewrite Z.div_add by lia. rewrite (Z.div_small (k - 1)) by lia. lia.
  - replace (n - 1) with (n mod k - 1 + n / k * k) by lia. rewrite Z.div_add by lia. rewrite (Z.div_small (n mod k - 1)) by lia. lia.
Qed.

Lemma mod_divide_down n a b : 0 < a → 0 < b → n mod (a * b) = 0 → n mod a = 0.
Proof. intros Ha Hb [c ->]%Z.mod_divide; [|lia]. apply Z.mod_divide; [lia|]. exists (c * b). lia. Qed.

Lemma year_start_next y : year_start (y + 1) = year_start y + days_in_year y.
Proof.
  unfold year_start, days_in_year, is_leap_year. replace (y + 1 - 1) with y by lia.
  rewrite (div_step y 4), (div_step y 100), (div_step y 400) by lia.
  pose proof (mod_divide_down y 4 25 ltac:(lia) ltac:(lia)) as H1. pose proof (mod_divide_down y 100 4 ltac:(lia) ltac:(lia)) as H2.
  change (4 * 25) with 100 in H1. change (100 * 4) with 400 in H2.
  destruct (Z.eqb_spec (y mod 4) 0), (Z.eqb_spec (y mod 100) 0), (Z.eqb_spec (y mod 400) 0); cbn [andb orb negb]; try lia; tauto.
Qed.

Lemma days_in_year_range y : 365 ≤ days_in_year y ≤ 366.
Proof. unfold days_in_year. case_match; lia. Qed.

Lemma year_start_mono (n : nat) y : year_start y + 365 * n ≤ year_start (y + n).
Proof.
  induction n as [|n IH]; [by rewrite !Z.add_0_r|]. replace (y + S n) with (y + n + 1) by lia. rewrite year_start_next.
  pose proof (days_in_year_range (y + n)). lia.
Qed.

Lemma leap_eq y : leap y = is_leap_year y.
Proof.
  unfold leap, is_leap_year. pose proof (mod_divide_down y 4 25 ltac:(lia) ltac:(lia)) as H1.
  pose proof (mod_divide_down y 100 4 ltac:(lia) ltac:(lia)) as H2. change (4 * 25) with 100 in H1. change (100 * 4) with 400 in H2.
  destruct (Z.eqb_spec (y mod 4) 0), (Z.eqb_spec (y mod 100) 0), (Z.eqb_spec (y mod 400) 0); try done; tauto.
Qed.

Lemma find_year_S (k : nat) y days :
  find_year (S k) y days = if days <? days_in_year y then Ok (y, days) else find_year k (y + 1) (days - days_in_year y).
Proof. cbn [find_year]. rewrite leap_eq. unfold days_in_year. by destruct (is_leap_year y). Qed.

Lemma find_year_ok (k : nat) : ∀ y days, 0 ≤ days < 365 * k →
  ∃ y' r, find_year k y days = Ok (y', r) ∧ y ≤ y' ∧ 0 ≤ r < days_in_year y' ∧ year_start y' + r = year_start y + days.
Proof.
  induction k as [|k IH]; intros y days Hd; [lia|]. rewrite find_year_S.
  pose proof (days_in_year_range y). destruct (Z.ltb_spec days (days_in_year y)) as [Hlt|Hge].
  - exists y, days. split; [done|]. lia.
  - destruct (IH (y + 1) (days - days_in_year y) ltac:(lia)) as (y' & r & E & Hy & Hr & Es). exists y', r. split; [done|].
    rewrite year_start_next in Es. lia.
Qed.

Lemma in_bools (b : bool) : In b [true; false].
Proof. destruct b; cbn; tauto. Qed.

(** The months, checked for every day of a year. *)
Definition month_day (flag : bool) (e : Z) : res (Z * Z) :=
  '(month, extra_days) ← find_month 12 flag 0 0 e; current_month flag month extra_days.

Definition stored_yday (flag : bool) (m d : Z) : Z := if d =? month_length flag m then 0 else d.

(** The loop ends with the days before the last day of the month, or with 0
    days behind it. *)
Lemma month_day_ok flag m d : 1 ≤ m ≤ 12 → 1 ≤ d ≤ month_length flag m →
  month_day flag (month_start flag m + d) = Ok (m, d) ∧
  ('(_, e) ← find_month 12 flag 0 0 (month_start flag m + d); mret e) = Ok (stored_yday flag m d).
Proof.
  intros Hm Hd.
  assert (forallb (λ flag : bool, forallb (λ m, forallb (λ d, bool_decide (month_day flag (month_start flag m + d) = Ok (m, d) ∧
    ('(_, e) ← find_month 12 flag 0 0 (month_start flag m + d); mret e) = Ok (stored_yday flag m d)))
    (seqZ 1 (month_length flag m))) (seqZ 1 12)) [true; false] = true) as H by (vm_compute; reflexivity).
  rewrite forallb_forall in H. specialize (H flag (in_bools flag)). rewrite forallb_forall in H.
  specialize (H m). rewrite <- list_elem_of_In, elem_of_seqZ, forallb_forall in H. specialize (H ltac:(lia) d).
  rewrite <- list_elem_of_In, elem_of_seqZ in H. specialize (H ltac:(lia)). by apply bool_decide_eq_true in H.
Qed.

Lemma month_day_exists (flag : bool) e : 1 ≤ e ≤ (if flag then 366 else 365) →
  ∃ m d, e = month_start flag m + d ∧ 1 ≤ m ≤ 12 ∧ 1 ≤ d ≤ month_length flag m.
Proof.
  intros He.
  assert (forallb (λ flag : bool, forallb (λ e, existsb (λ m, (month_start flag m <? e) && (e <=? month_start flag m + month_length flag m)) (seqZ 1 12))
    (seqZ 1 (if flag then 366 else 365))) [true; false] = true) as H by (vm_compute; reflexivity).
  rewrite forallb_forall in H. specialize (H flag (in_bools flag)). rewrite forallb_forall in H.
  specialize (H e). rewrite <- list_elem_of_In, elem_of_seqZ, existsb_exists in H. destruct H as (m & Hm & Hb); [lia|].
  rewrite <- list_elem_of_In, elem_of_seqZ in Hm. apply andb_prop in Hb as [H1 H2]. zbool.
  exists m, (e - month_start flag m). lia.
Qed.

Lemma year_days (flag : bool) m d : 1 ≤ m ≤ 12 → 1 ≤ d ≤ month_length flag m → 1 ≤ month_start flag m + d ≤ if flag then 366 else 365.
Proof.
  intros Hm Hd.
  assert (forallb (λ flag : bool, forallb (λ m, (0 <=? month_start flag m) && (month_start flag m + month_length flag m <=? (if flag then 366 else 365)))
    (seqZ 1 12)) [true; false] = true) as H by (vm_compute; reflexivity).
  rewrite forallb_forall in H. specialize (H flag (in_bools flag)). rewrite forallb_forall in H.
  specialize (H m). rewrite <- list_elem_of_In, elem_of_seqZ in H. specialize (H ltac:(lia)). apply andb_prop in H as [H1 H2]. zbool. lia.
Qed.

(** Every second has one date. *)
Lemma date_exists t : 0 ≤ t → ∃ x, valid x ∧ seconds_of x = t.
Proof.
  intros Ht. pose proof (Z.div_mod t 86400 ltac:(done)) as Et. pose proof (Z.mod_pos_bound t 86400 ltac:(done)) as Bt.
  set (days := t / 86400) in *. assert (0 ≤ days) as Hd by (apply Z.div_pos; lia). set (u := t mod 86400) in *.
  destruct (find_year_ok (Z.to_nat (days / 365) + 1) 1970 days) as (y & r & _ & Hy & Hr & Es).
  { pose proof (Z.div_mod days 365 ltac:(done)). pose proof (Z.mod_pos_bound days 365 ltac:(done)). lia. }
  change (year_start 1970) with 0 in Es. destruct (month_day_exists (is_leap_year y) (r + 1)) as (m & d & E & Hm & Hdm).
  { unfold days_in_year in Hr. destruct (is_leap_year y); lia. }
  pose proof (Z.div_mod u 3600 ltac:(done)) as E1. pose proof (Z.mod_pos_bound u 3600 ltac:(done)) as B1. set (v := u mod 3600) in *.
  pose proof (Z.div_mod v 60 ltac:(done)) as E2. pose proof (Z.mod_pos_bound v 60 ltac:(done)) as B2.
  exists (mkdate y m d (u / 3600) (v / 60) (v mod 60)). split; [|unfold seconds_of, days_of; cbn; lia].
  split; cbn; [done..| |lia|done]. split; [apply Z.div_pos; lia|apply Z.div_lt_upper_bound; lia].
Qed.

Lemma find_year_date (k : nat) x : valid x → days_of x < 365 * k →
  find_year k 1970 (days_of x) = Ok (year x, month_start (is_leap_year (year x)) (month x) + day x - 1).
Proof.
  intros [Hy Hm Hd _ _ _] Hk. pose proof (year_days _ _ _ Hm Hd) as Hr. set (e := month_start _ _ + day x) in *.
  assert (days_of x = year_start (year x) + (e - 1)) as Ed by (unfold days_of, e; lia).
  assert (e ≤ days_in_year (year x)) as He by (unfold days_in_year; destruct (is_leap_year (year x)); lia).
  pose proof (year_start_mono (Z.to_nat (year x - 1970)) 1970) as Hs. replace (1970 + Z.to_nat (year x - 1970)) with (year x) in Hs by lia.
  change (year_start 1970) with 0 in Hs.
  destruct (find_year_ok k 1970 (days_of x)) as (y & r & E & Hy' & Hr' & Es); [lia|]. change (year_start 1970) with 0 in Es. rewrite E.
  assert (y = year x) as ->; [|do 2 f_equal; lia].
  destruct (Z.lt_trichotomy y (year x)) as [Hlt|[?|Hlt]]; [|done|]; exfalso.
  - pose proof (year_start_mono (Z.to_nat (year x - (y + 1))) (y + 1)) as H. rewrite year_start_next in H.
    replace (y + 1 + Z.to_nat (year x - (y + 1))) with (year x) in H by lia. lia.
  - pose proof (year_start_mono (Z.to_nat (y - (year x + 1))) (year x + 1)) as H. rewrite year_start_next in H.
    replace (year x + 1 + Z.to_nat (y - (year x + 1))) with y in H by lia. lia.
Qed.

(** The remainder of C, made non-negative. *)
Lemma rem_fixed w : (if Z.rem w 7 <? 0 then Z.rem w 7 + 7 else Z.rem w 7) = w mod 7.
Proof.
  pose proof (Z.quot_rem' w 7) as E. pose proof (Z.rem_bound_abs w 7 ltac:(done)) as Hb. destruct (Z.ltb_spec (Z.rem w 7) 0).
  - apply (Z.mod_unique w 7 (Z.quot w 7 - 1)); lia.
  - apply (Z.mod_unique w 7 (Z.quot w 7)); lia.
Qed.

Lemma localtime_date s x : valid x → days_of x < 2 ^ 31 →
  localtime s (Some (seconds_of x)) =
    Ok (Some (mktm (second x) (minute x) (hour x) (day x) (month x) (year x)
      ((3 + tm_mday s) mod 7) (stored_yday (is_leap_year (year x)) (month x) (day x)) 0 0 "Etc/Gmt")).
Proof.
  intros Hv Hmax. pose proof Hv as [Hy Hm Hd Hh Hmi Hs]. pose proof (year_days _ _ _ Hm Hd) as Hr.
  set (u := 3600 * hour x + 60 * minute x + second x).
  assert (seconds_of x = u + days_of x * 86400) as Et by (unfold seconds_of, u; lia).
  assert (0 ≤ days_of x) as H0.
  { pose proof (year_start_mono (Z.to_nat (year x - 1970)) 1970) as H. replace (1970 + Z.to_nat (year x - 1970)) with (year x) in H by lia.
    change (year_start 1970) with 0 in H. unfold days_of. lia. }
  unfold localtime. change (24 * 60 * 60) with 86400. rewrite Et, Z.div_add, Z_mod_plus_full by done.
  rewrite (Z.div_small u), (Z.mod_small u) by (unfold u; lia). rewrite Z.add_0_l, sx_small by lia.
  rewrite find_year_date; [|done|].
  2: { pose proof (Z.div_mod (days_of x) 365 ltac:(done)). pose proof (Z.mod_pos_bound (days_of x) 365 ltac:(done)). lia. }
  cbn [mbind res_bind]. rewrite leap_eq. replace (_ + day x - 1 + 1) with (month_start (is_leap_year (year x)) (month x) + day x) by lia.
  destruct (month_day_ok _ _ _ Hm Hd) as [E Ey]. unfold month_day in E.
  destruct (find_month 12 _ 0 0 _) as [[m e]|]; [|done]. cbn [mbind res_bind] in E |- *. rewrite E. cbn in Ey. injection Ey as Ey.
  rewrite rem_fixed, Ey. cbn [mbind res_bind].
  assert (Z.rem u 3600 = 60 * minute x + second x) as E1.
  { rewrite Z.rem_mod_nonneg by (unfold u; lia). unfold u.
    replace (3600 * hour x + 60 * minute x + second x) with (60 * minute x + second x + hour x * 3600) by lia.
    rewrite Z_mod_plus_full, Z.mod_small; lia. }
  rewrite E1. rewrite Z.rem_mod_nonneg by lia.
  assert (u / 3600 = hour x) as -> by (unfold u; replace (3600 * hour x + 60 * minute x + second x) with (60 * minute x + second x + hour x * 3600) by lia;
    rewrite Z.div_add, Z.div_small by lia; lia).
  replace (60 * minute x + second x) with (second x + minute x * 60) by lia.
  rewrite Z.div_add, Z_mod_plus_full, Z.div_small, Z.mod_small by lia. done.
Qed.

(** ** The kernel's count *)

Lemma days_in_month_ok y m : 1 ≤ m ≤ 12 → days_in_month y m = Ok (month_length (is_leap_year y) m).
Proof.
  intros Hm. unfold days_in_month, month_length. destruct (_ && _); [done|]. rewrite wrap_small by lia. unfold table_at.
  rewrite (proj2 (Z.ltb_ge _ _)) by lia. destruct (lookup_lt_is_Some_2 month_table (Z.to_nat (m - 1))) as [d ->]; [cbn; lia|done].
Qed.

Lemma month_start_next (flag : bool) m : 1 ≤ m < 12 → month_start flag (m + 1) = month_start flag m + month_length flag m.
Proof.
  intros Hm.
  assert (forallb (λ flag : bool, forallb (λ m, month_start flag (m + 1) =? month_start flag m + month_length flag m) (seqZ 1 11)) [true; false] = true)
    as H by (vm_compute; reflexivity).
  rewrite forallb_forall in H. specialize (H flag (in_bools flag)). rewrite forallb_forall in H. specialize (H m).
  rewrite <- list_elem_of_In, elem_of_seqZ in H. specialize (H ltac:(lia)). by zbool.
Qed.

Lemma month_length_range flag m : 0 ≤ month_length flag m ≤ 31.
Proof.
  unfold month_length. case_match; [lia|]. destruct (month_table !! _) as [d|] eqn:E; [|cbn; lia]. cbn.
  assert (Forall (λ d, 0 ≤ d ≤ 31) month_table) as Hall by (repeat constructor; lia). by apply (Forall_lookup_1 _ _ _ _ Hall E).
Qed.

Lemma month_loop_ok (k : nat) : ∀ y i m r, 1 ≤ i ≤ m → m ≤ 12 → m - i ≤ k → 0 ≤ r ≤ 31 * i →
  month_loop k y i m r = Ok (r + month_start (is_leap_year y) m - month_start (is_leap_year y) i).
Proof.
  induction k as [|k IH]; intros y i m r Hi Hm Hk Hr; cbn [month_loop]; destruct (Z.ltb_spec i m) as [Hlt|Hge]; try lia.
  1, 3: assert (m = i) as -> by lia; unfold mret, res_ret; f_equal; lia.
  rewrite days_in_month_ok by lia. cbn [mbind res_bind]. pose proof (month_length_range (is_leap_year y) i).
  rewrite !wrap_small by lia. rewrite IH by lia. rewrite month_start_next by lia. f_equal. lia.
Qed.

Lemma year_loop_ok (k : nat) : ∀ y year days, 1970 ≤ y ≤ year → year - y ≤ k → year < 10000 → 0 ≤ days ≤ 366 * (y - 1969) →
  year_loop k y year days = Ok (days + year_start year - year_start y).
Proof.
  induction k as [|k IH]; intros y yr days Hy Hk Hmax Hd; cbn [year_loop]; destruct (Z.ltb_spec y yr) as [Hlt|Hge]; try lia.
  1, 3: assert (yr = y) as -> by lia; unfold mret, res_ret; f_equal; lia.
  pose proof (days_in_year_range y). rewrite !wrap_small by lia. rewrite IH by lia. rewrite year_start_next. f_equal. lia.
Qed.

Lemma days_since_epoch_ok x : valid x → year x < 10000 → days_since_epoch (year x) (month x) (day x) = Ok (days_of x).
Proof.
  intros [Hy Hm Hd _ _ _] Hmax. pose proof (year_days _ _ _ Hm Hd) as Hr. pose proof (month_length_range (is_leap_year (year x)) (month x)).
  unfold days_since_epoch, day_of_year. rewrite (proj2 (Z.ltb_ge _ _)) by lia. rewrite (wrap_small 32) by lia.
  rewrite month_loop_ok by lia. cbn [mbind res_bind].
  assert (month_start (is_leap_year (year x)) 1 = 0) as -> by (by destruct (is_leap_year (year x))).
  rewrite year_loop_ok; [|lia|lia|done|]; [|destruct (is_leap_year (year x)); lia].
  change (year_start 1970) with 0. unfold days_of. f_equal. lia.
Qed.

(** What the chip shows for a date of this century.  Numbers are binary or
    BCD; hours go to 23, or to 12 with a bit for the afternoon. *)
Definition encoded (bcd : bool) (v : Z) : Z := if bcd then v / 10 * 16 + v mod 10 else v.
Definition encoded_hour (bcd half : bool) (h : Z) : Z :=
  if half then (if h <? 12 then 0 else 128) + encoded bcd (if h mod 12 =? 0 then 12 else h mod 12) else encoded bcd h.

Record shows (cmos : Z → Z) (x : date) : Prop := {
  sh_century : 2000 ≤ year x < 2100;
  sh_mode : Z.land (cmos CMOS_STATB) 4 = 0 ∨ Z.land (cmos CMOS_STATB) 2 ≠ 0;
  sh_year : cmos YEAR = encoded (Z.land (cmos CMOS_STATB) 4 =? 0) (year x - 2000);
  sh_month : cmos MONTH = encoded (Z.land (cmos CMOS_STATB) 4 =? 0) (month x);
  sh_day : cmos DAY = encoded (Z.land (cmos CMOS_STATB) 4 =? 0) (day x);
  sh_hour : cmos HOURS = encoded_hour (Z.land (cmos CMOS_STATB) 4 =? 0) (Z.land (cmos CMOS_STATB) 2 =? 0) (hour x);
  sh_minute : cmos MINS = encoded (Z.land (cmos CMOS_STATB) 4 =? 0) (minute x);
  sh_second : cmos SECS = encoded (Z.land (cmos CMOS_STATB) 4 =? 0) (second x);
}.

Lemma decode_ok (bcd : bool) v : 0 ≤ v < 100 → (if bcd then bcd_to_binary (encoded bcd v) else encoded bcd v) = v.
Proof.
  intros Hv. destruct bcd; [|done].
  assert (forallb (λ v, bcd_to_binary (encoded true v) =? v) (seqZ 0 100) = true) as H by (vm_compute; reflexivity).
  rewrite forallb_forall in H. specialize (H v). rewrite <- list_elem_of_In, elem_of_seqZ in H. specialize (H ltac:(lia)). by zbool.
Qed.

(** The hour [rtc_now] makes of the register. *)
Definition decoded_hour (bcd half : bool) (r : Z) : Z :=
  let is_pm := negb (Z.land r 0x80 =? 0) in
  let hour := if bcd then bcd_to_binary (Z.land r 0x7F) else r in
  if half then (if is_pm then hour mod 12 + 12 else hour mod 12) else hour.

Lemma decode_hour bcd half h : 0 ≤ h < 24 → bcd = true ∨ half = false → decoded_hour bcd half (encoded_hour bcd half h) = h.
Proof.
  intros Hh Hm.
  assert (forallb (λ p, forallb (λ h, decoded_hour p.1 p.2 (encoded_hour p.1 p.2 h) =? h) (seqZ 0 24)) [(true, true); (true, false); (false, false)] = true)
    as H by (vm_compute; reflexivity).
  rewrite forallb_forall in H. specialize (H (bcd, half)). rewrite forallb_forall in H.
  specialize (H ltac:(destruct bcd, half; cbn; tauto || (destruct Hm; done)) h). rewrite <- list_elem_of_In, elem_of_seqZ in H.
  specialize (H ltac:(lia)). by zbool.
Qed.

Lemma rtc_now_ok cmos stata x : valid x → shows cmos x → wait_update 100 stata 0 = true → rtc_now cmos stata = Ok (seconds_of x).
Proof.
  intros Hv [Hc Hmode Hy Hm Hd Hh Hmi Hs] Hw. pose proof Hv as [_ Vm Vd Vh Vmi Vs].
  pose proof (month_length_range (is_leap_year (year x)) (month x)) as Hml. unfold rtc_now. rewrite Hw.
  set (bcd := Z.land (cmos CMOS_STATB) 4 =? 0) in *. set (half := Z.land (cmos CMOS_STATB) 2 =? 0) in *. cbv zeta.
  fold (decoded_hour bcd half (cmos HOURS)). rewrite Hy, Hm, Hd, Hh, Hmi, Hs.
  assert (bcd = true ∨ half = false) as Hbh by (unfold bcd, half; destruct Hmode as [->|?]; [by left|right; by apply Z.eqb_neq]).
  rewrite !decode_ok by lia. rewrite decode_hour by done. replace (year x - 2000 + 2000) with (year x) by lia.
  rewrite !(wrap_small 32) by lia. rewrite days_since_epoch_ok by (done || lia). cbn [mbind res_bind].
  assert (0 ≤ days_of x < 100000) as Hdays.
  { pose proof (year_days _ _ _ Vm Vd) as Hr. pose proof (year_start_mono (Z.to_nat (year x - 2000)) 2000) as H1.
    pose proof (year_start_mono (Z.to_nat (2100 - year x)) (year x)) as H2.
    replace (2000 + Z.to_nat (year x - 2000)) with (year x) in H1 by lia. replace (year x + Z.to_nat (2100 - year x)) with 2100 in H2 by lia.
    change (year_start 2000) with 10957 in H1. change (year_start 2100) with 47482 in H2. unfold days_of.
    destruct (is_leap_year (year x)); lia. }
  rewrite (wrap_small 64 (days_of x * 24 + hour x)) by lia. rewrite (wrap_small 64 (_ * 60 + minute x)) by lia.
  rewrite wrap_small by lia. unfold mret, res_ret, seconds_of. f_equal. lia.
Qed.

(** C38. [localtime] is right about the date and the time of day: for every time
    below 2^31 days after 1970 it returns the day, month, year, hour, minute
    and second of the Gregorian calendar in UTC that the number stands for,
    counting months from 1 and years from 0.  The other two fields are what
    the code stores there: [tm_wday] depends only on the day of the month of
    the call before, and [tm_yday] is the day of the month, or 0 on the last
    one. *)
Theorem localtime_correct s t :
  0 ≤ t < 2 ^ 31 * 86400 →
  ∃ x, valid x ∧ seconds_of x = t ∧
    localtime s (Some t) = Ok (Some (mktm (second x) (minute x) (hour x) (day x) (month x) (year x)
      ((3 + tm_mday s) mod 7) (if day x =? month_length (is_leap_year (year x)) (month x) then 0 else day x) 0 0 "Etc/Gmt")).
Proof.
  intros Ht. destruct (date_exists t ltac:(lia)) as (x & Hv & Et). exists x. split; [done|]. split; [done|]. rewrite <- Et.
  apply localtime_date; [done|]. pose proof Hv as [_ _ _ ? ? ?]. unfold seconds_of in Et. lia.
Qed.

(** C37. The kernel and the C library agree on the time.  When the clock chip
    shows a date of this century, in BCD or binary, in 24-hour or (in BCD)
    12-hour format, and finishes its update within 100 polls, [rtc_now] returns
    the number of seconds since 1970 and [localtime] turns it back into the
    date and time the chip shows. *)
Theorem clock_roundtrip cmos stata x s :
  valid x → shows cmos x → (∃ i, (i < 100)%nat ∧ Z.land (stata i) CMOS_UIP = 0) →
  ∃ t wday yday, rtc_now cmos stata = Ok t ∧
    localtime s (Some t) = Ok (Some (mktm (second x) (minute x) (hour x) (day x) (month x) (year x) wday yday 0 0 "Etc/Gmt")).
Proof.
  intros Hv Hsh (i & Hi & Hup).
  assert (∀ k j, (j ≤ i < j + k)%nat → wait_update k stata j = true) as Hw.
  { intros k. induction k as [|k IH]; intros j Hj; [lia|]. cbn. destruct (Z.eqb_spec (Z.land (stata j) CMOS_UIP) 0); [done|].
    apply IH. destruct (decide (j = i)) as [->|]; [done|lia]. }
  assert (days_of x < 2 ^ 31) as Hmax.
  { destruct Hsh as [Hc _ _ _ _ _ _ _]. pose proof Hv as [_ Vm Vd _ _ _]. pose proof (year_days _ _ _ Vm Vd) as Hr.
    pose proof (year_start_mono (Z.to_nat (2100 - year x)) (year x)) as H2. replace (year x + Z.to_nat (2100 - year x)) with 2100 in H2 by lia.
    change (year_start 2100) with 47482 in H2. unfold days_of. destruct (is_leap_year (year x)); lia. }
  eexists (seconds_of x), _, _. split; [|by apply localtime_date]. apply rtc_now_ok; [done|done|]. apply Hw. lia.
Qed.

(** The end of a leap year: 2024-12-31 23:59:58. *)
Definition demo_date : date := mkdate 2024 12 31 23 59 58.
Definition demo_tm : tm := mktm 0 0 0 0 0 0 0 0 0 0 "".

Lemma demo_valid : valid demo_date.
Proof. split; vm_compute; (done || (split; [discriminate|done])) || (split; discriminate). Qed.

Lemma localtime_correct_witness :
  ∃ x, valid x ∧ seconds_of x = 1735689598 ∧
    localtime demo_tm (Some 1735689598) = Ok (Some (mktm (second x) (minute x) (hour x) (day x) (month x) (year x)
      3 (if day x =? month_length (is_leap_year (year x)) (month x) then 0 else day x) 0 0 "Etc/Gmt")).
Proof. apply (localtime_correct demo_tm 1735689598). lia. Defined.

(** In BCD and 12-hour format, after two polls. *)
Definition demo_cmos (r : Z) : Z :=
  if r =? YEAR then 0x24 else if r =? MONTH then 0x12 else if r =? DAY then 0x31 else if r =? HOURS then 0x91
  else if r =? MINS then 0x59 else if r =? SECS then 0x58 else 0.

Lemma clock_roundtrip_witness :
  rtc_now demo_cmos (λ i, if (i <? 2)%nat then 0x80 else 0) = Ok 1735689598 ∧
  ∃ t wday yday, rtc_now demo_cmos (λ i, if (i <? 2)%nat then 0x80 else 0) = Ok t ∧
    localtime demo_tm (Some t) = Ok (Some (mktm 58 59 23 31 12 2024 wday yday 0 0 "Etc/Gmt")).
Proof.
  split; [vm_compute; reflexivity|].
  apply (clock_roundtrip demo_cmos _ demo_date demo_tm).
  - apply demo_valid.
  - split; try (vm_compute; reflexivity); [cbn; lia|by left].
  - exists 2%nat. split; [lia|vm_compute; reflexivity].
Defined.

End Clock.
