(* ===== verification/Shell.v ===== *)
(** * The parser of the shell (userspace/programs/sh.c)

    The parser walks a pointer [s] over the command line towards its end [es].
    A pointer is the text from it to [es]; one that is kept in the tree, such as
    the start and the end of a word, is its distance to [es].  Memory for the
    nodes of the tree does not run out. *)

From S2P Require Import Prelude.

Module Shell.

(** ** Commands *)

Definition MAXARG : nat := 32.
Definition O_RDONLY : Z := 0x0.
Definition O_WRONLY : Z := 0x1.
Definition O_CREAT : Z := 0x4.

(** The start and the end of a word. *)
Abbreviation span := (nat * nat)%type.

Inductive cmd :=
| EXEC (argv : list span)
| REDIR (c : cmd) (file : span) (flags fd : Z)
| PIPE (left right : cmd)
| LIST (left right : cmd)
| BACK (c : cmd).

(** ** Tokens *)

(** " \t\r\n\v" and "<|>&;()" *)
Definition whitespace : list Z := [32; 9; 13; 10; 11].
Definition symbols : list Z := [60; 124; 62; 38; 59; 40; 41].

Definition chr (l : list Z) (c : Z) : bool := existsb (Z.eqb c) l.

Fixpoint skip (s : list Z) : list Z :=
  match s with
  | c :: s' => if chr whitespace c then skip s' else s
  | [] => []
  end.

Fixpoint skip_word (s : list Z) : list Z :=
  match s with
  | c :: s' => if negb (chr whitespace c) && negb (chr symbols c) then skip_word s' else s
  | [] => []
  end.

(** The token, its start and its end, and the pointer behind it. *)
Definition gettoken (s : list Z) : Z * nat * nat * list Z :=
  let q := skip s in
  let '(ret, eq) :=
    match q with
    | [] => (0, [])
    | c :: r =>
        if chr [124; 40; 41; 59; 38; 60] c then (c, r)
        else if c =? 62 then match r with d :: r' => if d =? 62 then (43, r') else (62, r) | [] => (62, r) end
        else (97, skip_word q)
    end in
  (ret, length q, length eq, skip eq).

Definition peek (s : list Z) (toks : list Z) : bool * list Z :=
  let s := skip s in
  (match s with [] => false | c :: _ => chr toks c end, s).

(** ** Parsing *)

(** A redirection around a command. *)
Abbreviation redir := (span * Z * Z)%type.
Definition redircmd (c : cmd) (r : redir) : cmd := let '(file, flags, fd) := r in REDIR c file flags fd.

(** The redirections read, the first of which is the innermost. *)
Fixpoint parseredirs (k : nat) (s : list Z) : res (list redir * list Z) :=
  match k with
  | O => Err EFuel
  | S k =>
      let '(more, s) := peek s [60; 62] in
      if negb more then mret ([], s)
      else
        let '(tok, _, _, s) := gettoken s in
        let '(t, q, eq, s) := gettoken s in
        if negb (t =? 97) then Err (EPanic "missing file for redirection")
        else
          '(l, s) ← parseredirs k s;
          mret (if tok =? 60 then ((q, eq), O_RDONLY, 0) :: l
                else if (tok =? 62) || (tok =? 43) then ((q, eq), Z.lor O_WRONLY O_CREAT, 1) :: l
                else l, s)
  end.

(** The loop over the arguments, [argc] of which were read: the rest of them,
    and the redirections among them. *)
Fixpoint parseargs (k argc : nat) (s : list Z) : res (list span * list redir * list Z) :=
  match k with
  | O => Err EFuel
  | S k =>
      let '(stop, s) := peek s [124; 41; 38; 59] in
      if stop then mret ([], [], s)
      else
        let '(tok, q, eq, s) := gettoken s in
        if tok =? 0 then mret ([], [], s)
        else if negb (tok =? 97) then Err (EPanic "syntax error: expected `a'")
        else if (MAXARG <=? S argc)%nat then Err (EPanic "too many args")
        else
          '(rs, s) ← parseredirs (S (length s)) s;
          '(args, rs', s) ← parseargs k (S argc) s;
          mret ((q, eq) :: args, rs ++ rs', s)
  end.

Fixpoint back_loop (k : nat) (c : cmd) (s : list Z) : res (cmd * list Z) :=
  match k with
  | O => Err EFuel
  | S k =>
      let '(b, s) := peek s [38] in
      if (b : bool) then let '(_, _, _, s) := gettoken s in back_loop k (BACK c) s else mret (c, s)
  end.

(** The node of an [EXEC] is filled in while the redirections around it are
    made. *)
Fixpoint parseline (k : nat) (s : list Z) : res (cmd * list Z) :=
  match k with
  | O => Err EFuel
  | S k =>
      '(c, s) ← parsepipe k s;
      '(c, s) ← back_loop (S (length s)) c s;
      let '(b, s) := peek s [59] in
      if (b : bool) then
        let '(_, _, _, s) := gettoken s in
        '(r, s) ← parseline k s;
        mret (LIST c r, s)
      else mret (c, s)
  end
with parsepipe (k : nat) (s : list Z) : res (cmd * list Z) :=
  match k with
  | O => Err EFuel
  | S k =>
      '(c, s) ← parseexec k s;
      let '(b, s) := peek s [124] in
      if (b : bool) then
        let '(_, _, _, s) := gettoken s in
        '(r, s) ← parsepipe k s;
        mret (PIPE c r, s)
      else mret (c, s)
  end
with parseexec (k : nat) (s : list Z) : res (cmd * list Z) :=
  match k with
  | O => Err EFuel
  | S k =>
      let '(b, s) := peek s [40] in
      if (b : bool) then parseblock k s
      else
        '(rs, s) ← parseredirs (S (length s)) s;
        '(args, rs', s) ← parseargs (S (length s)) 0 s;
        mret (fold_left redircmd (rs ++ rs') (EXEC args), s)
  end
with parseblock (k : nat) (s : list Z) : res (cmd * list Z) :=
  match k with
  | O => Err EFuel
  | S k =>
      let '(b, s) := peek s [40] in
      if negb b then Err (EPanic "parseblock")
      else
        let '(_, _, _, s) := gettoken s in
        '(c, s) ← parseline k s;
        let '(b, s) := peek s [41] in
        if negb b then Err (EPanic "syntax - missing )")
        else
          let '(_, _, _, s) := gettoken s in
          '(rs, s) ← parseredirs (S (length s)) s;
          mret (fold_left redircmd rs c, s)
  end.

(** [buf] is the line with its NUL; the end of a word is counted from there. *)
Definition cut (buf : list Z) (w : span) : list Z := <[(length buf - 1 - w.2)%nat := 0]> buf.

Fixpoint nulterminate (c : cmd) (buf : list Z) : list Z :=
  match c with
  | EXEC argv => fold_left cut argv buf
  | REDIR c file _ _ => cut (nulterminate c buf) file
  | PIPE l r | LIST l r => nulterminate r (nulterminate l buf)
  | BACK c => nulterminate c buf
  end.

(** The tree and the line with the ends of the words marked. *)
Definition parsecmd (s : list Z) : res (cmd * list Z) :=
  '(c, rest) ← parseline (4 * length s + 4) s;
  let '(_, rest) := peek rest [] in
  match rest with
  | [] => mret (c, nulterminate c (s ++ [0]))
  | _ => Err (EPanic "syntax error")
  end.

(** ** What a command means *)

(** Commands with their words, as [runcmd] sees them. *)
Inductive ast :=
| AExec (args : list (list Z))
| ARedir (a : ast) (file : list Z) (flags fd : Z)
| APipe (left right : ast)
| AList (left right : ast)
| ABack (a : ast).

(** The C string at a position. *)
Fixpoint cstring (l : list Z) : list Z :=
  match l with
  | c :: l => if c =? 0 then [] else c :: cstring l
  | [] => []
  end.
Definition string_of (buf : list Z) (w : span) : list Z := cstring (drop (length buf - 1 - w.1) buf).

Fixpoint ast_of (buf : list Z) (c : cmd) : ast :=
  match c with
  | EXEC argv => AExec (string_of buf <$> argv)
  | REDIR c file flags fd => ARedir (ast_of buf c) (string_of buf file) flags fd
  | PIPE l r => APipe (ast_of buf l) (ast_of buf r)
  | LIST l r => AList (ast_of buf l) (ast_of buf r)
  | BACK c => ABack (ast_of buf c)
  end.

(** Commands as text, with parentheses where they are needed; the level says
    what may stand there: 0 a line, 1 a command before [&] or [;], 2 a pipeline,
    3 a part of one. *)
Definition paren (b : bool) (l : list Z) : list Z := if b then 40 :: l ++ [41] else l.

Fixpoint print (lvl : nat) (a : ast) : list Z :=
  match a with
  | AExec args => concat ((λ w, 32 :: w) <$> args)
  | ARedir a file flags fd => print 3 a ++ (if fd =? 0 then 60 else 62) :: file
  | APipe l r => paren (2 <? lvl)%nat (print 3 l ++ 124 :: print 2 r)
  | AList l r => paren (0 <? lvl)%nat (print 1 l ++ 59 :: print 0 r)
  | ABack a => paren (1 <? lvl)%nat (print 1 a ++ [38])
  end.

(** A word: not empty, without white space, symbols and NULs. *)
Definition word_char (c : Z) : bool := negb (chr whitespace c) && negb (chr symbols c).
Record word (w : list Z) : Prop := {
  wd_some : w ≠ [];
  wd_chars : Forall (λ c, word_char c = true ∧ c ≠ 0) w;
}.

(** What can be typed: words, at most 31 of them, and the two redirections. *)
Fixpoint typable (a : ast) : Prop :=
  match a with
  | AExec args => Forall word args ∧ (length args < MAXARG)%nat
  | ARedir a file flags fd => typable a ∧ word file ∧ ((flags, fd) = (O_RDONLY, 0) ∨ (flags, fd) = (Z.lor O_WRONLY O_CREAT, 1))
  | APipe l r | AList l r => typable l ∧ typable r
  | ABack a => typable a
  end.

(** ** Pointers only advance, and loops end *)

Lemma skip_length s : (length (skip s) ≤ length s)%nat.
Proof. induction s as [|c s IH]; cbn [skip]; [cbn; lia|]. destruct (chr whitespace c); cbn; lia. Qed.

Lemma skip_word_length s : (length (skip_word s) ≤ length s)%nat.
Proof. induction s as [|c s IH]; cbn [skip_word]; [cbn; lia|]. destruct (negb (chr whitespace c) && negb (chr symbols c)); cbn; lia. Qed.

Lemma skip_head s c r : skip s = c :: r → chr whitespace c = false.
Proof. induction s as [|d s IH]; cbn [skip]; [done|]. destruct (chr whitespace d) eqn:E; [done|]. by intros [= <- <-]. Qed.

Lemma skip_id c r : chr whitespace c = false → skip (c :: r) = c :: r.
Proof. cbn [skip]. by intros ->. Qed.

Lemma skip_skip s : skip (skip s) = skip s.
Proof. destruct (skip s) as [|c r] eqn:E; [done|]. by apply skip_id, (skip_head s c r). Qed.

Lemma gettoken_length s : let '(_, _, _, s') := gettoken s in (length s' ≤ pred (length (skip s)))%nat.
Proof.
  unfold gettoken. destruct (skip s) as [|c r] eqn:E; [done|]. cbn [length pred].
  destruct (chr [124; 40; 41; 59; 38; 60] c) eqn:E1; [apply skip_length|].
  destruct (Z.eqb_spec c 62) as [->|Hc].
  { destruct r as [|d r']; [done|]. pose proof (skip_length (d :: r')). pose proof (skip_length r'). cbn [length] in *. destruct (d =? 62); lia. }
  assert (negb (chr whitespace c) && negb (chr symbols c) = true) as Hw.
  { rewrite (skip_head s c r E). cbn [negb andb]. revert E1 Hc. unfold chr, symbols. cbn [existsb]. rewrite !orb_false_r.
    intros E1 Hc%Z.eqb_neq. rewrite Hc. apply negb_true_iff. repeat (apply orb_false_iff in E1 as [-> E1]). by rewrite E1. }
  cbn [skip_word]. rewrite Hw. pose proof (skip_length (skip_word r)). pose proof (skip_word_length r). cbn. lia.
Qed.

Lemma gettoken_tail s c r : skip s = c :: r → let '(_, _, _, s') := gettoken (c :: r) in (length s' ≤ length r)%nat.
Proof. intros E. pose proof (gettoken_length (c :: r)) as H. by rewrite <- E, skip_skip, E in H. Qed.

(** A parser that returns does not go back, and its loops end. *)
Definition ends {A} (r : res (A * list Z)) (n : nat) : Prop :=
  match r with Ok (_, s) => (length s ≤ n)%nat | Err e => e ≠ EFuel end.

Lemma ends_bind {A B} (r : res (A * list Z)) (k : A * list Z → res (B * list Z)) n n' :
  ends r n → (∀ a s, (length s ≤ n)%nat → ends (k (a, s)) n') → ends (r ≫= k) n'.
Proof. destruct r as [[a s]|e]; cbn; [|done]. intros Hs Hk. by apply Hk. Qed.

Lemma ends_mono {A} (r : res (A * list Z)) n n' : ends r n → (n ≤ n')%nat → ends r n'.
Proof. destruct r as [[a s]|e]; cbn; [lia|done]. Qed.

Lemma parseredirs_ends k : ∀ s, (length s < k)%nat → ends (parseredirs k s) (length s).
Proof.
  induction k as [|k IH]; intros s Hk; [lia|]. cbn [parseredirs]. unfold peek. pose proof (skip_length s) as H1.
  destruct (skip s) as [|c r] eqn:E; [done|]. destruct (chr [60; 62] c); cbn [negb]; [|cbn in *; lia].
  pose proof (gettoken_tail _ _ _ E) as H2. destruct (gettoken (c :: r)) as [[[tok q0] e0] s1]. cbn in H1, H2.
  pose proof (gettoken_length s1) as H3. destruct (gettoken s1) as [[[t q] e] s2]. pose proof (skip_length s1). destruct (negb _); [done|].
  apply (ends_bind _ _ (length s2)); [apply IH; lia|]. intros l s3 H4. cbn. lia.
Qed.

Lemma parseargs_ends k : ∀ argc s, (length s < k)%nat → ends (parseargs k argc s) (length s).
Proof.
  induction k as [|k IH]; intros argc s Hk; [lia|]. cbn [parseargs]. unfold peek. pose proof (skip_length s) as H1.
  set (b := match skip s with [] => false | c :: _ => chr [124; 41; 38; 59] c end). destruct b; [done|].
  pose proof (gettoken_length (skip s)) as H2. rewrite skip_skip in H2. destruct (gettoken (skip s)) as [[[tok q] e] s1] eqn:Eg.
  destruct (Z.eqb_spec tok 0); [cbn; lia|]. destruct (negb _); [done|]. destruct (_ <=? _)%nat; [done|].
  assert (length (skip s) ≠ 0%nat) as Hne.
  { intros E%length_zero_iff_nil. rewrite E in Eg. unfold gettoken in Eg. cbn in Eg. congruence. }
  apply (ends_bind _ _ (length s1)); [apply parseredirs_ends; lia|]. intros rs s2 H3.
  apply (ends_bind _ _ (length s2)); [apply IH; lia|]. intros [args rs'] s3 H4. cbn. lia.
Qed.

Lemma back_loop_ends k : ∀ c s, (length s < k)%nat → ends (back_loop k c s) (length s).
Proof.
  induction k as [|k IH]; intros c s Hk; [lia|]. cbn [back_loop]. unfold peek. pose proof (skip_length s) as H1.
  destruct (skip s) as [|d r] eqn:E; [cbn; lia|]. destruct (chr [38] d); [|cbn in *; lia].
  pose proof (gettoken_tail _ _ _ E) as H2. destruct (gettoken (d :: r)) as [[[tok q0] e0] s1]. cbn in H1, H2.
  eapply ends_mono; [apply IH; lia|lia].
Qed.

Lemma parse_ends k : ∀ s,
  ((4 * length s + 4 ≤ k)%nat → ends (parseline k s) (length s)) ∧ ((4 * length s + 3 ≤ k)%nat → ends (parsepipe k s) (length s)) ∧
  ((4 * length s + 2 ≤ k)%nat → ends (parseexec k s) (length s)) ∧ ((4 * length s + 1 ≤ k)%nat → ends (parseblock k s) (length s)).
Proof.
  induction k as [|k IH]; intros s; [lia|]. split_and!; intros Hk.
  - cbn [parseline]. apply (ends_bind _ _ (length s)); [apply IH; lia|]. intros c s1 H1.
    apply (ends_bind _ _ (length s1)); [apply back_loop_ends; lia|]. intros c' s2 H2. unfold peek. pose proof (skip_length s2) as H3.
    destruct (skip s2) as [|d r] eqn:E; [cbn; lia|]. destruct (chr [59] d); [|cbn in *; lia].
    pose proof (gettoken_tail _ _ _ E) as H4. destruct (gettoken (d :: r)) as [[[tok q0] e0] s3]. cbn in H3, H4.
    apply (ends_bind _ _ (length s3)); [apply IH; lia|]. intros c2 s4 H5. cbn. lia.
  - cbn [parsepipe]. apply (ends_bind _ _ (length s)); [apply IH; lia|]. intros c s2 H2. unfold peek. pose proof (skip_length s2) as H3.
    destruct (skip s2) as [|d r] eqn:E; [cbn; lia|]. destruct (chr [124] d); [|cbn in *; lia].
    pose proof (gettoken_tail _ _ _ E) as H4. destruct (gettoken (d :: r)) as [[[tok q0] e0] s3]. cbn in H3, H4.
    apply (ends_bind _ _ (length s3)); [apply IH; lia|]. intros c2 s4 H5. cbn. lia.
  - cbn [parseexec]. unfold peek. pose proof (skip_length s) as H3. set (b := match skip s with [] => false | c :: _ => chr [40] c end). destruct b.
    { eapply ends_mono; [apply IH; lia|lia]. }
    apply (ends_bind _ _ (length (skip s))); [apply parseredirs_ends; lia|]. intros rs s1 H1.
    apply (ends_bind _ _ (length s1)); [apply parseargs_ends; lia|]. intros [args rs'] s2 H2. cbn. lia.
  - cbn [parseblock]. unfold peek. pose proof (skip_length s) as H3. destruct (skip s) as [|d r] eqn:E; [done|]. destruct (chr [40] d); [|done]. cbn [negb].
    pose proof (gettoken_tail _ _ _ E) as H4. destruct (gettoken (d :: r)) as [[[tok q0] e0] s1]. cbn in H3, H4.
    apply (ends_bind _ _ (length s1)); [apply IH; lia|]. intros c s2 H5. pose proof (skip_length s2) as H6.
    destruct (skip s2) as [|d' r'] eqn:E'; [done|]. destruct (chr [41] d'); [|done]. cbn [negb].
    pose proof (gettoken_tail _ _ _ E') as H7. destruct (gettoken (d' :: r')) as [[[tok' q1] e1] s3]. cbn in H6, H7.
    apply (ends_bind _ _ (length s3)); [apply parseredirs_ends; lia|]. intros rs s4 H8. cbn. lia.
Qed.

(** ** Tokens of printed text *)

Definition stop (toks rest : list Z) : Prop := match rest with [] => True | c :: _ => chr toks c = true end.
Definition brk (rest : list Z) : Prop := match rest with [] => True | c :: _ => word_char c = false end.

Abbreviation stopE := [124; 41; 38; 59].
Abbreviation stopP := [41; 38; 59].
Abbreviation stopB := [41; 59].
Abbreviation stopL := [41].

Lemma stop_weaken toks toks' rest : (∀ c, chr toks c = true → chr toks' c = true) → stop toks rest → stop toks' rest.
Proof. destruct rest; cbn; auto. Qed.

Lemma chr_In l c : chr l c = true ↔ In c l.
Proof.
  unfold chr. rewrite existsb_exists. split.
  - intros (x & Hx & ->%Z.eqb_eq). done.
  - intros Hx. exists c. split; [done|]. apply Z.eqb_refl.
Qed.

Lemma stopE_P rest : stop stopP rest → stop stopE rest.
Proof. apply stop_weaken. intros c Hc%chr_In. apply chr_In. cbn in *. tauto. Qed.
Lemma stopP_B rest : stop stopB rest → stop stopP rest.
Proof. apply stop_weaken. intros c Hc%chr_In. apply chr_In. cbn in *. tauto. Qed.
Lemma stopB_L rest : stop stopL rest → stop stopB rest.
Proof. apply stop_weaken. intros c Hc%chr_In. apply chr_In. cbn in *. tauto. Qed.

Lemma stopE_cases rest : stop stopE rest → rest = [] ∨ ∃ c r, rest = c :: r ∧ (c = 124 ∨ c = 41 ∨ c = 38 ∨ c = 59).
Proof. destruct rest as [|c r]; [by left|]. intros Hc%chr_In. right. exists c, r. cbn in Hc. split; [done|]. naive_solver. Qed.

Lemma stop_skip rest : stop stopE rest → skip rest = rest.
Proof. intros [->|(c & r & -> & Hc)]%stopE_cases; [done|]. apply skip_id. destruct_or! Hc; by subst. Qed.

Lemma stop_brk rest : stop stopE rest → brk rest.
Proof. intros [->|(c & r & -> & Hc)]%stopE_cases; [done|]. destruct_or! Hc; by subst. Qed.

Lemma word_head w : word w → ∃ c r, w = c :: r ∧ word_char c = true ∧ c ≠ 0.
Proof. intros [H1 H2]. destruct w as [|c r]; [done|]. apply Forall_cons in H2 as [[? ?] _]. by exists c, r. Qed.

Lemma word_char_ws c : word_char c = true → chr whitespace c = false.
Proof. unfold word_char. by intros [?%negb_true_iff _]%andb_true_iff. Qed.
Lemma word_char_sym c : word_char c = true → chr symbols c = false.
Proof. unfold word_char. by intros [_ ?%negb_true_iff]%andb_true_iff. Qed.

Lemma skip_word_app w rest : Forall (λ c, word_char c = true ∧ c ≠ 0) w → brk rest → skip_word (w ++ rest) = rest.
Proof.
  intros Hw Hr. induction w as [|c w IH]; cbn [app].
  - destruct rest as [|c r]; [done|]. cbn [skip_word]. cbn in Hr. unfold word_char in Hr. by rewrite Hr.
  - apply Forall_cons in Hw as [[Hc _] Hw]. cbn [skip_word]. unfold word_char in Hc. rewrite Hc. by apply IH.
Qed.

Lemma skip_word_text w rest : word w → skip (w ++ rest) = w ++ rest.
Proof. intros (c & r & -> & Hc & _)%word_head. apply skip_id. by apply word_char_ws. Qed.

Lemma gettoken_word s w rest : skip s = w ++ rest → word w → brk rest → gettoken s = (97, length (w ++ rest), length rest, skip rest).
Proof.
  intros E Hw Hr. unfold gettoken. rewrite E. pose proof (skip_word_app w rest (wd_chars _ Hw) Hr) as Hk.
  destruct (word_head w Hw) as (c & r & -> & Hc & _). cbn [app] in *.
  assert (∀ l, (∀ x, In x l → In x symbols) → chr l c = false) as Hs.
  { intros l Hl. destruct (chr l c) eqn:Ec; [|done]. apply chr_In, Hl, chr_In in Ec. by rewrite (word_char_sym c Hc) in Ec. }
  rewrite Hs by (cbn; tauto). destruct (Z.eqb_spec c 62) as [->|]; [|by rewrite Hk]. discriminate Hc.
Qed.

Lemma gettoken_sym s c r : skip s = c :: r → chr [124; 40; 41; 59; 38; 60] c = true → gettoken s = (c, S (length r), length r, skip r).
Proof. intros E Hc. unfold gettoken. rewrite E, Hc. done. Qed.

Lemma gettoken_gt s r : skip s = 62 :: r → (∀ r', r ≠ 62 :: r') → gettoken s = (62, S (length r), length r, skip r).
Proof.
  intros E Hr. unfold gettoken. rewrite E. cbn [chr existsb Z.eqb Pos.eqb orb]. destruct r as [|d r']; [done|].
  destruct (Z.eqb_spec d 62) as [->|]; [|done]. by destruct (Hr r').
Qed.

Lemma peek_no s toks rest : skip s = rest → (match rest with [] => True | c :: _ => chr toks c = false end) → peek s toks = (false, rest).
Proof. intros E Hr. unfold peek. rewrite E. destruct rest; [done|]. by rewrite Hr. Qed.

Lemma peek_yes s toks c r : skip s = c :: r → chr toks c = true → peek s toks = (true, c :: r).
Proof. intros E Hc. unfold peek. by rewrite E, Hc. Qed.

(** ** The tree of a line *)

Section line.
Context (T : list Z).

(** The word [x] of the line is what the two pointers delimit. *)
Definition span_ok (w : span) (x : list Z) : Prop :=
  ∃ pre rest, T = pre ++ x ++ rest ∧ w = (length (x ++ rest), length rest) ∧ word x ∧ brk rest.

Abbreviation aredir := (list Z * Z * Z)%type.
Definition redir_ok (r : redir) (a : aredir) : Prop := span_ok r.1.1 a.1.1 ∧ r.1.2 = a.1.2 ∧ r.2 = a.2.

Fixpoint means (c : cmd) (a : ast) : Prop :=
  match c, a with
  | EXEC argv, AExec args => Forall2 span_ok argv args
  | REDIR c w fl d, ARedir a x fl' d' => means c a ∧ span_ok w x ∧ fl = fl' ∧ d = d'
  | PIPE l r, APipe l' r' | LIST l r, AList l' r' => means l l' ∧ means r r'
  | BACK c, ABack a => means c a
  | _, _ => False
  end.

Definition wrap (a : ast) (r : aredir) : ast := let '(x, fl, d) := r in ARedir a x fl d.

Lemma means_wrap rs ars : ∀ c a, Forall2 redir_ok rs ars → means c a → means (fold_left redircmd rs c) (fold_left wrap ars a).
Proof.
  revert ars. induction rs as [|[[w fl] d] rs IH]; intros [|[[x fl'] d'] ars] c a Hr Hc; try by inversion Hr.
  apply Forall2_cons in Hr as [(Hw & Hfl & Hd) Hr]. cbn [fold_left]. apply IH; [done|]. cbn. by split_and!.
Qed.

Lemma suffix_span pre x rest : T = pre ++ x ++ rest → word x → brk rest → span_ok (length (x ++ rest), length rest) x.
Proof. intros -> Hx Hr. by exists pre, rest. Qed.

Definition redir_typ (r : aredir) : Prop := word r.1.1 ∧ (r.1.2, r.2) = (O_RDONLY, 0) ∨ word r.1.1 ∧ (r.1.2, r.2) = (Z.lor O_WRONLY O_CREAT, 1).
Definition print_redir (r : aredir) : list Z := (if r.2 =? 0 then 60 else 62) :: r.1.1.
Abbreviation print_redirs rs := (concat (print_redir <$> rs)).

Lemma redirs_brk rs rest : brk rest → brk (print_redirs rs ++ rest).
Proof. destruct rs as [|[[x fl] d] rs]; [done|]. intros _. cbn. by destruct (d =? 0). Qed.

Lemma parseredirs_run ars : ∀ k s pre rest, Forall redir_typ ars → stop stopE rest ∨ (∃ w r, rest = 32 :: w ++ r ∧ word w) →
  T = pre ++ print_redirs ars ++ rest → skip s = skip (print_redirs ars ++ rest) → (length ars < k)%nat →
  ∃ rs, parseredirs k s = Ok (rs, skip rest) ∧ Forall2 redir_ok rs ars.
Proof.
  induction ars as [|[[x fl] d] ars IH]; intros k s pre rest Ht Hr HT Hs Hk; destruct k as [|k]; try (cbn in Hk; lia); cbn [parseredirs].
  - exists []. split; [|constructor]. cbn [fmap list_fmap concat app] in Hs. rewrite (peek_no s _ (skip rest)); [done|done|].
    destruct Hr as [Hr|(w & r & -> & Hw)].
    + rewrite (stop_skip _ Hr). destruct (stopE_cases _ Hr) as [->|(c & r & -> & Hc)]; [done|]. destruct_or! Hc; by subst.
    + cbn [skip]. change (chr whitespace 32) with true. cbv iota. rewrite (skip_word_text w r Hw). destruct (word_head w Hw) as (c & r' & -> & Hc & _).
      cbn [app]. apply not_true_iff_false. intros Hin%chr_In. assert (chr symbols c = true) as E by (apply chr_In; cbn in *; tauto).
      by rewrite (word_char_sym c Hc) in E.
  - apply Forall_cons in Ht as [Ht Hts]. assert (word x) as Hx by (destruct Ht as [[? _]|[? _]]; done).
    assert (brk (print_redirs ars ++ rest)) as Hb.
    { apply redirs_brk. destruct Hr as [Hr|(w & r & -> & _)]; [by apply stop_brk|done]. }
    set (rest1 := print_redirs ars ++ rest) in *. set (c := if d =? 0 then 60 else 62).
    assert (skip s = c :: x ++ rest1) as E.
    { rewrite Hs. cbn [fmap list_fmap concat]. unfold print_redir at 1. cbn [snd fst]. rewrite <- !app_assoc. cbn [app]. apply skip_id.
      by destruct (d =? 0). }
    assert (chr [60; 62] c = true) as Hc by (unfold c; by destruct (d =? 0)).
    rewrite (peek_yes s _ c (x ++ rest1) E Hc). cbn [negb].
    assert (gettoken (c :: x ++ rest1) = (c, S (length (x ++ rest1)), length (x ++ rest1), x ++ rest1)) as ->.
    { rewrite <- (skip_word_text x rest1 Hx) at 4. unfold c. destruct (d =? 0); [by apply gettoken_sym|]. apply gettoken_gt; [done|].
      intros r' Er. destruct (word_head x Hx) as (c' & r'' & -> & Hc' & _). injection Er as -> _. discriminate Hc'. }
    rewrite (gettoken_word _ x rest1 (skip_word_text x rest1 Hx) Hx Hb). cbn [Z.eqb Pos.eqb negb].
    assert (T = (pre ++ [c]) ++ x ++ rest1) as HT1.
    { rewrite HT. cbn [fmap list_fmap concat]. unfold print_redir at 1. cbn [snd fst]. unfold rest1. by rewrite <- !app_assoc. }
    destruct (IH k (skip rest1) ((pre ++ [c]) ++ x) rest Hts Hr) as (rs & -> & Hrs); [rewrite HT1; apply app_assoc|apply skip_skip|cbn in Hk; lia|].
    cbn [mbind res_bind]. eexists. split; [done|]. pose proof (suffix_span _ _ _ HT1 Hx Hb) as Hsp. unfold c.
    destruct Ht as [[_ [= -> ->]]|[_ [= -> ->]]]; cbn [Z.eqb Pos.eqb orb]; constructor; done.
Qed.

Lemma redirs_length ars rest : (length ars ≤ length (skip (print_redirs ars ++ rest)))%nat.
Proof.
  assert (∀ l, length l ≤ length (print_redirs l))%nat as H.
  { induction l as [|r l IH]; cbn [length fmap list_fmap concat]; [lia|]. rewrite length_app. cbn. lia. }
  destruct ars as [|[[x fl] d] ars]; [cbn; lia|]. specialize (H ((x, fl, d) :: ars)).
  assert (skip (print_redirs ((x, fl, d) :: ars) ++ rest) = print_redirs ((x, fl, d) :: ars) ++ rest) as ->.
  { cbn [fmap list_fmap concat app]. apply skip_id. cbn. by destruct (d =? 0). }
  rewrite length_app. lia.
Qed.

Abbreviation words args := (concat ((λ w, 32 :: w) <$> args)).

Lemma skip_words w args rest : word w → skip (words (w :: args) ++ rest) = w ++ words args ++ rest.
Proof.
  intros Hw. cbn [fmap list_fmap concat app skip]. change (chr whitespace 32) with true. cbv iota. rewrite <- app_assoc. by apply skip_word_text.
Qed.

Lemma words_brk args rest : brk rest → brk (words args ++ rest).
Proof. by destruct args. Qed.

Lemma parseargs_run args : ∀ k argc s pre ars rest, Forall word args → args ≠ [] ∨ ars = [] → Forall redir_typ ars → stop stopE rest →
  T = pre ++ words args ++ print_redirs ars ++ rest → skip s = skip (words args ++ print_redirs ars ++ rest) →
  (length args < k)%nat → (argc + length args < MAXARG)%nat →
  ∃ sp rs, parseargs k argc s = Ok (sp, rs, rest) ∧ Forall2 span_ok sp args ∧ Forall2 redir_ok rs ars.
Proof.
  induction args as [|w args IH]; intros k argc s pre ars rest Hw Ha Ht Hr HT Hs Hk Hm; destruct k as [|k]; try (cbn in Hk; lia); cbn [parseargs].
  - destruct Ha as [Ha| ->]; [done|]. cbn [fmap list_fmap concat app] in Hs. rewrite (stop_skip _ Hr) in Hs. exists [], []. split; [|split; constructor].
    destruct rest as [|c r]; [rewrite (peek_no s _ [] Hs I); done|]. by rewrite (peek_yes s _ c r Hs Hr).
  - apply Forall_cons in Hw as [Hw Hws]. set (tl := print_redirs ars ++ rest) in *.
    assert (brk (words args ++ tl)) as Hb by (by apply words_brk, redirs_brk, stop_brk).
    rewrite (skip_words w args tl Hw) in Hs. destruct (word_head w Hw) as (c & r & Ew & Hc & _).
    rewrite (peek_no s _ (w ++ words args ++ tl) Hs).
    2:{ rewrite Ew. cbn [app]. apply not_true_iff_false. intros Hin%chr_In. assert (chr symbols c = true) as E by (apply chr_In; cbn in *; tauto).
        by rewrite (word_char_sym c Hc) in E. }
    rewrite (gettoken_word _ w (words args ++ tl) (skip_word_text w _ Hw) Hw Hb). cbn [Z.eqb Pos.eqb negb].
    rewrite (proj2 (Nat.leb_gt _ _)) by (cbn [length] in Hm; lia).
    assert (T = (pre ++ [32]) ++ w ++ words args ++ tl) as HT1.
    { rewrite HT. cbn [fmap list_fmap concat]. by rewrite <- !app_assoc. }
    pose proof (suffix_span _ _ _ HT1 Hw Hb) as Hsp.
    assert (T = ((pre ++ [32]) ++ w) ++ words args ++ tl) as HT2 by (rewrite HT1; apply app_assoc).
    destruct args as [|w2 args].
    + cbn [fmap list_fmap concat app] in *. destruct (parseredirs_run ars (S (length (skip tl))) (skip tl) ((pre ++ [32]) ++ w) rest Ht (or_introl Hr) HT2
        (skip_skip _)) as (rs & -> & Hrs); [pose proof (redirs_length ars rest); unfold tl; lia|].
      cbn [mbind res_bind]. destruct (IH k (S argc) (skip rest) (((pre ++ [32]) ++ w) ++ print_redirs ars) [] rest) as (sp & rs' & -> & Hsp' & Hrs');
        [done|by right|done|done|rewrite HT2; apply app_assoc|apply skip_skip|cbn in *; lia|cbn in *; lia|].
      cbn [mbind res_bind]. exists ((length (w ++ tl), length tl) :: sp), (rs ++ rs'). split_and!; [done|by constructor|].
      apply Forall2_nil_inv_r in Hrs' as ->. by rewrite app_nil_r.
    + apply Forall_cons in Hws as Hws'. destruct Hws' as [Hw2 _].
      destruct (parseredirs_run [] (S (length (skip (words (w2 :: args) ++ tl)))) (skip (words (w2 :: args) ++ tl)) ((pre ++ [32]) ++ w) (words (w2 :: args) ++ tl)) as (rs & -> & Hrs);
        [constructor|right; exists w2, (words args ++ tl); split; [cbn; by rewrite <- app_assoc|done]|done|apply skip_skip|cbn; lia|].
      apply Forall2_nil_inv_r in Hrs as ->. cbn [mbind res_bind].
      destruct (IH k (S argc) (skip (words (w2 :: args) ++ tl)) ((pre ++ [32]) ++ w) ars rest) as (sp & rs' & -> & Hsp' & Hrs');
        [done|by left|done|done|done|apply skip_skip|cbn in *; lia|cbn in *; lia|].
      cbn [mbind res_bind]. eexists _, _. split_and!; [done|by constructor|done].
Qed.

Lemma skip_app_length x c y : chr whitespace c = false → (S (length y) ≤ length (skip (x ++ c :: y)))%nat.
Proof.
  intros Hc. induction x as [|d x IH]; cbn [app]; [rewrite skip_id by done; cbn; lia|]. cbn [skip]. destruct (chr whitespace d); [done|].
  cbn [length]. rewrite length_app. cbn. lia.
Qed.

(** What the parsers do on printed text followed by [rest]. *)
Definition E_ok (a : ast) : Prop := ∀ k s pre ars rest, Forall redir_typ ars → stop stopE rest →
  T = pre ++ print 3 a ++ print_redirs ars ++ rest → skip s = skip (print 3 a ++ print_redirs ars ++ rest) →
  (4 * length (skip s) + 2 ≤ k)%nat → ∃ t, parseexec k s = Ok (t, rest) ∧ means t (fold_left wrap ars a).
Definition P_ok (a : ast) : Prop := ∀ k s pre rest, stop stopP rest → T = pre ++ print 2 a ++ rest → skip s = skip (print 2 a ++ rest) →
  (4 * length (skip s) + 3 ≤ k)%nat → ∃ t, parsepipe k s = Ok (t, rest) ∧ means t a.
Definition B_ok (a : ast) : Prop := ∀ k s pre rest, stop stopP rest → T = pre ++ print 1 a ++ rest → skip s = skip (print 1 a ++ rest) →
  (4 * length (skip s) + 3 ≤ k)%nat →
  ∃ t m, ('(c, s) ← parsepipe k s; back_loop (S (length s)) c s) = back_loop m t rest ∧ (length rest < m)%nat ∧ means t a.
Definition L_ok (a : ast) : Prop := ∀ k s pre rest, stop stopL rest → T = pre ++ print 0 a ++ rest → skip s = skip (print 0 a ++ rest) →
  (4 * length (skip s) + 4 ≤ k)%nat → ∃ t, parseline k s = Ok (t, rest) ∧ means t a.

Lemma E_exec args : Forall word args → (length args < MAXARG)%nat → E_ok (AExec args).
Proof.
  intros Hw Hm k s pre ars rest Ht Hr HT Hs Hk. destruct k as [|k]; [lia|]. cbn [parseexec print] in *.
  assert (peek s [40] = (false, skip s)) as ->.
  { apply peek_no; [done|]. rewrite Hs. destruct args as [|w args].
    - destruct ars as [|[[x fl] d] ars]; cbn [fmap list_fmap concat app print_redir fst snd].
      + rewrite (stop_skip _ Hr). destruct (stopE_cases _ Hr) as [->|(c & r & -> & Hc)]; [done|]. destruct_or! Hc; by subst.
      + by destruct (d =? 0).
    - apply Forall_cons in Hw as [Hw _]. rewrite (skip_words w args _ Hw). destruct (word_head w Hw) as (c & r & -> & Hc & _). cbn [app].
      apply not_true_iff_false. intros Hin%chr_In. assert (chr symbols c = true) as E by (apply chr_In; cbn in *; tauto).
      by rewrite (word_char_sym c Hc) in E. }
  destruct args as [|w args].
  - cbn [fmap list_fmap concat app] in *. destruct (parseredirs_run ars (S (length (skip s))) (skip s) pre rest Ht (or_introl Hr) HT) as (rs & -> & Hrs);
      [by rewrite skip_skip|rewrite Hs; pose proof (redirs_length ars rest); lia|]. cbn [mbind res_bind].
    destruct (parseargs_run [] (S (length (skip rest))) 0 (skip rest) (pre ++ print_redirs ars) [] rest) as (sp & rs' & -> & Hsp & Hrs');
      [constructor|by right|constructor|done|rewrite HT; apply app_assoc|apply skip_skip|cbn; lia|done|].
    cbn [mbind res_bind]. eexists. split; [done|]. apply Forall2_nil_inv_r in Hrs' as ->. rewrite app_nil_r. by apply means_wrap.
  - pose proof Hw as [Hw1 _]%Forall_cons. set (tl := print_redirs ars ++ rest) in *.
    destruct (parseredirs_run [] (S (length (skip s))) (skip s) pre (words (w :: args) ++ tl)) as (rs & -> & Hrs);
      [constructor|right; exists w, (words args ++ tl); split; [cbn; by rewrite <- app_assoc|done]|done|by rewrite skip_skip|cbn; lia|].
    apply Forall2_nil_inv_r in Hrs as ->. cbn [mbind res_bind].
    assert (∀ l : list (list Z), length l ≤ length (words l))%nat as Hlen.
    { induction l as [|x l IH]; cbn [length fmap list_fmap concat]; [lia|]. rewrite length_app. cbn. lia. }
    destruct (parseargs_run (w :: args) (S (length (skip (words (w :: args) ++ tl)))) 0 (skip (words (w :: args) ++ tl)) pre ars rest)
      as (sp & rs' & -> & Hsp & Hrs'); [done|by left|done|done|done|apply skip_skip| |done|].
    { rewrite (skip_words w args tl Hw1), !length_app. pose proof (Hlen args). destruct (word_head w Hw1) as (c & r & -> & _). cbn. lia. }
    cbn [mbind res_bind]. eexists. split; [done|]. by apply means_wrap.
Qed.

Lemma E_of_L a : print 3 a = 40 :: print 0 a ++ [41] → L_ok a → E_ok a.
Proof.
  intros Ep HL k s pre ars rest Ht Hr HT Hs Hk. set (tl := print_redirs ars ++ rest) in *. rewrite Ep in HT, Hs. cbn [app] in HT, Hs.
  rewrite <- app_assoc in HT, Hs. cbn [app] in HT, Hs. rewrite skip_id in Hs by done. set (r := print 0 a ++ 41 :: tl) in *.
  destruct k as [|[|k]]; [lia|lia|]. cbn [parseexec]. rewrite (peek_yes s [40] 40 r Hs eq_refl). cbn [parseblock].
  rewrite (peek_yes (40 :: r) [40] 40 r eq_refl eq_refl). cbn [negb]. rewrite (gettoken_sym (40 :: r) 40 r eq_refl eq_refl).
  pose proof (skip_length r) as H1. rewrite Hs in Hk. cbn [length] in Hk.
  destruct (HL k (skip r) (pre ++ [40]) (41 :: tl)) as (t & -> & Hm); [done|rewrite HT; by rewrite <- app_assoc|apply skip_skip|rewrite skip_skip; lia|].
  cbn [mbind res_bind]. rewrite (peek_yes (41 :: tl) [41] 41 tl eq_refl eq_refl). cbn [negb]. rewrite (gettoken_sym (41 :: tl) 41 tl eq_refl eq_refl).
  destruct (parseredirs_run ars (S (length (skip tl))) (skip tl) (pre ++ 40 :: print 0 a ++ [41]) rest Ht (or_introl Hr)) as (rs & -> & Hrs).
  { rewrite HT. unfold r. by rewrite <- !app_assoc; cbn [app]; rewrite <- app_assoc. }
  { apply skip_skip. }
  { pose proof (redirs_length ars rest). unfold tl. lia. }
  cbn [mbind res_bind]. eexists. rewrite (stop_skip _ Hr). split; [done|]. by apply means_wrap.
Qed.

Lemma P_of_E a : print 2 a = print 3 a → E_ok a → P_ok a.
Proof.
  intros Ep HE k s pre rest Hr HT Hs Hk. destruct k as [|k]; [lia|]. rewrite Ep in HT, Hs. cbn [parsepipe].
  destruct (HE k s pre [] rest) as (t & -> & Hm); [constructor|by apply stopE_P|done|done|lia|]. cbn [mbind res_bind]. exists t.
  rewrite (peek_no rest _ rest); [done|by apply stop_skip, stopE_P|]. destruct rest as [|c r]; [done|]. apply not_true_iff_false. intros Hin%chr_In.
  apply chr_In in Hr. cbn in *. naive_solver.
Qed.

Lemma P_pipe l r : E_ok l → P_ok r → P_ok (APipe l r).
Proof.
  intros HE HP k s pre rest Hr HT Hs Hk. destruct k as [|k]; [lia|]. cbn [print paren Nat.ltb Nat.leb] in HT, Hs. rewrite <- app_assoc in HT, Hs. cbn [app] in HT, Hs.
  set (y := print 2 r ++ rest) in *. cbn [parsepipe].
  destruct (HE k s pre [] (124 :: y)) as (t & -> & Hm); [constructor|done|done|done|lia|]. cbn [mbind res_bind].
  rewrite (peek_yes (124 :: y) [124] 124 y eq_refl eq_refl), (gettoken_sym (124 :: y) 124 y eq_refl eq_refl).
  pose proof (skip_app_length (print 3 l) 124 y eq_refl) as H1. rewrite <- Hs in H1. pose proof (skip_length y) as H2.
  destruct (HP k (skip y) (pre ++ print 3 l ++ [124]) rest) as (t' & -> & Hm'); [done|rewrite HT; by rewrite <- !app_assoc|apply skip_skip|rewrite skip_skip; lia|].
  cbn [mbind res_bind]. by exists (PIPE t t').
Qed.

Lemma B_of_P a : print 1 a = print 2 a → P_ok a → B_ok a.
Proof.
  intros Ep HP k s pre rest Hr HT Hs Hk. rewrite Ep in HT, Hs. destruct (HP k s pre rest Hr HT Hs Hk) as (t & -> & Hm). cbn [mbind res_bind].
  exists t, (S (length rest)). split_and!; [done|lia|done].
Qed.

Lemma B_back a : B_ok a → B_ok (ABack a).
Proof.
  intros HB k s pre rest Hr HT Hs Hk. cbn [print paren Nat.ltb Nat.leb] in HT, Hs. rewrite <- app_assoc in HT, Hs.
  destruct (HB k s pre (38 :: rest)) as (t & m & -> & Hlt & Hm); [done|done|done|done|]. destruct m as [|m]; [cbn in Hlt; lia|]. cbn [back_loop].
  rewrite (peek_yes (38 :: rest) [38] 38 rest eq_refl eq_refl), (gettoken_sym (38 :: rest) 38 rest eq_refl eq_refl).
  exists (BACK t), m. rewrite (stop_skip _ (stopE_P _ Hr)). split_and!; [done|cbn in Hlt; lia|done].
Qed.

Lemma back_loop_stop m t rest : stop stopB rest → (length rest < m)%nat → back_loop m t rest = Ok (t, rest).
Proof.
  intros Hr Hlt. destruct m as [|m]; [lia|]. cbn [back_loop]. rewrite (peek_no rest _ rest); [done|by apply stop_skip, stopE_P, stopP_B|].
  destruct rest as [|c r]; [done|]. apply not_true_iff_false. intros Hin%chr_In. apply chr_In in Hr. cbn in *. naive_solver.
Qed.

Lemma parseline_back k s t m rest : ('(c, s) ← parsepipe k s; back_loop (S (length s)) c s) = back_loop m t rest → stop stopB rest →
  (length rest < m)%nat →
  parseline (S k) s = (let '(b, s) := peek rest [59] in
    if (b : bool) then let '(_, _, _, s) := gettoken s in '(r, s) ← parseline k s; mret (LIST t r, s) else mret (t, s)).
Proof.
  intros E Hr Hm. rewrite (back_loop_stop m t rest Hr Hm) in E. cbn [parseline]. destruct (parsepipe k s) as [[c s']|]; [|done].
  cbn [mbind res_bind] in *. by rewrite E.
Qed.

Lemma L_of_B a : print 0 a = print 1 a → B_ok a → L_ok a.
Proof.
  intros Ep HB k s pre rest Hr HT Hs Hk. rewrite Ep in HT, Hs. destruct k as [|k]; [lia|]. pose proof (stopB_L _ Hr) as HrB.
  destruct (HB k s pre rest (stopP_B _ HrB) HT Hs ltac:(lia)) as (t & m & E & Hlt & Hm). exists t. split; [|done].
  rewrite (parseline_back k s t m rest E HrB Hlt). rewrite (peek_no rest _ rest); [done|by apply stop_skip, stopE_P, stopP_B|].
  destruct rest as [|c r]; [done|]. apply not_true_iff_false. intros Hin%chr_In. apply chr_In in Hr. cbn in *. naive_solver.
Qed.

Lemma L_list l r : B_ok l → L_ok r → L_ok (AList l r).
Proof.
  intros HB HL k s pre rest Hr HT Hs Hk. destruct k as [|k]; [lia|]. cbn [print paren Nat.ltb Nat.leb] in HT, Hs. rewrite <- app_assoc in HT, Hs. cbn [app] in HT, Hs.
  set (y := print 0 r ++ rest) in *.
  destruct (HB k s pre (59 :: y)) as (t & m & E & Hlt & Hm); [done|done|done|lia|]. rewrite (parseline_back k s t m (59 :: y) E) by done.
  rewrite (peek_yes (59 :: y) [59] 59 y eq_refl eq_refl), (gettoken_sym (59 :: y) 59 y eq_refl eq_refl).
  pose proof (skip_app_length (print 1 l) 59 y eq_refl) as H1. rewrite <- Hs in H1. pose proof (skip_length y) as H2.
  destruct (HL k (skip y) (pre ++ print 1 l ++ [59]) rest) as (t' & -> & Hm'); [done|rewrite HT; by rewrite <- !app_assoc|apply skip_skip|rewrite skip_skip; lia|].
  cbn [mbind res_bind]. by exists (LIST t t').
Qed.

Lemma E_redir a x fl d : redir_typ (x, fl, d) → E_ok a → E_ok (ARedir a x fl d).
Proof.
  intros Hx HE k s pre ars rest Ht Hr HT Hs Hk. apply (HE k s pre ((x, fl, d) :: ars) rest); [by constructor|done|..|done].
  - rewrite HT. cbn [print fmap list_fmap concat]. unfold print_redir at 2. cbn [fst snd]. by rewrite <- !app_assoc.
  - rewrite Hs. cbn [print fmap list_fmap concat]. unfold print_redir at 2. cbn [fst snd]. by rewrite <- !app_assoc.
Qed.

Lemma all_ok a : typable a → E_ok a ∧ P_ok a ∧ B_ok a ∧ L_ok a.
Proof.
  induction a as [args|a IH x fl d|l IHl r IHr|l IHl r IHr|a IH]; cbn [typable].
  - intros [Hw Hm]. pose proof (E_exec args Hw Hm) as HE. pose proof (P_of_E (AExec args) eq_refl HE) as HP. pose proof (B_of_P (AExec args) eq_refl HP) as HB.
    pose proof (L_of_B (AExec args) eq_refl HB). done.
  - intros (Ha & Hx & Hf). assert (redir_typ (x, fl, d)) as Ht by (unfold redir_typ; cbn; naive_solver).
    pose proof (E_redir a x fl d Ht (proj1 (IH Ha))) as HE. set (b := ARedir a x fl d) in *.
    pose proof (P_of_E b eq_refl HE) as HP. pose proof (B_of_P b eq_refl HP) as HB. pose proof (L_of_B b eq_refl HB). done.
  - intros [Hl Hr]. destruct (IHl Hl) as (HEl & _). destruct (IHr Hr) as (_ & HPr & _). pose proof (P_pipe l r HEl HPr) as HP.
    set (b := APipe l r) in *. pose proof (B_of_P b eq_refl HP) as HB. pose proof (L_of_B b eq_refl HB) as HL. pose proof (E_of_L b eq_refl HL). done.
  - intros [Hl Hr]. destruct (IHl Hl) as (_ & _ & HBl & _). destruct (IHr Hr) as (_ & _ & _ & HLr). pose proof (L_list l r HBl HLr) as HL.
    set (b := AList l r) in *. pose proof (E_of_L b eq_refl HL) as HE. pose proof (P_of_E b eq_refl HE) as HP. pose proof (B_of_P b eq_refl HP). done.
  - intros Ha. destruct (IH Ha) as (_ & _ & HBa & _). pose proof (B_back a HBa) as HB. set (b := ABack a) in *.
    pose proof (L_of_B b eq_refl HB) as HL. pose proof (E_of_L b eq_refl HL) as HE. pose proof (P_of_E b eq_refl HE). done.
Qed.

(** ** The strings after nulterminate *)

(** The characters of words are still there. *)
Definition marked (buf : list Z) : Prop :=
  length buf = S (length T) ∧ ∀ i c, T !! i = Some c → word_char c = true → buf !! i = Some c.
Definition ended (buf : list Z) (w : span) : Prop := buf !! (length buf - 1 - w.2)%nat = Some 0.

Fixpoint spans (c : cmd) : list span :=
  match c with
  | EXEC argv => argv
  | REDIR c w _ _ => w :: spans c
  | PIPE l r | LIST l r => spans l ++ spans r
  | BACK c => spans c
  end.

Lemma cut_ok buf w x : marked buf → span_ok w x → marked (cut buf w) ∧ ended (cut buf w) w ∧ ∀ w', ended buf w' → ended (cut buf w) w'.
Proof.
  intros [Hl Hc] (pre & rest & HT & -> & Hx & Hr). unfold cut, ended. cbn [snd]. assert (length T = length pre + length x + length rest)%nat as HlT.
  { rewrite HT, !length_app. lia. }
  set (p := (length buf - 1 - length rest)%nat). assert (p = length pre + length x)%nat as Hp by lia. split_and!.
  - split; [by rewrite length_insert|]. intros i c Hi Hw. destruct (decide (i = p)) as [->|Hne]; [|by rewrite list_lookup_insert_ne; auto].
    rewrite HT, Hp, app_assoc, <- length_app in Hi. destruct rest as [|d r].
    { rewrite app_nil_r, lookup_ge_None_2 in Hi by lia. done. }
    rewrite list_lookup_middle in Hi by done. injection Hi as ->. cbn in Hr. congruence.
  - rewrite length_insert. apply list_lookup_insert_eq. lia.
  - intros w' Hw'. rewrite length_insert. destruct (decide ((length buf - 1 - w'.2)%nat = p)) as [->|Hne].
    + apply list_lookup_insert_eq. lia.
    + by rewrite list_lookup_insert_ne.
Qed.

Lemma cuts_ok argv : ∀ args buf, Forall2 span_ok argv args → marked buf →
  marked (fold_left cut argv buf) ∧ (∀ w, ended buf w → ended (fold_left cut argv buf) w) ∧ Forall (ended (fold_left cut argv buf)) argv.
Proof.
  induction argv as [|w argv IH]; intros args buf Ha Hm; cbn [fold_left]; [done|].
  destruct args as [|x args]; [by inversion Ha|]. apply Forall2_cons in Ha as [Hw Ha]. destruct (cut_ok buf w x Hm Hw) as (Hm1 & He1 & Hp1).
  destruct (IH args (cut buf w) Ha Hm1) as (Hm2 & Hp2 & He2). split_and!; [done|auto|]. constructor; auto.
Qed.

Lemma nulterminate_ok c : ∀ a buf, means c a → marked buf →
  marked (nulterminate c buf) ∧ (∀ w, ended buf w → ended (nulterminate c buf) w) ∧ Forall (ended (nulterminate c buf)) (spans c).
Proof.
  induction c as [argv|c IH w fl d|l IHl r IHr|l IHl r IHr|c IH]; intros a buf Ha Hm; destruct a as [args|a x fl' d'|a1 a2|a1 a2|a]; try done;
    cbn [means nulterminate spans] in *.
  - by apply (cuts_ok argv args).
  - destruct Ha as (Ha & Hw & _). destruct (IH a buf Ha Hm) as (Hm1 & Hp1 & He1). destruct (cut_ok _ w x Hm1 Hw) as (Hm2 & He2 & Hp2).
    split_and!; [done|auto|]. constructor; [done|]. by apply (Forall_impl _ _ _ He1).
  - destruct Ha as [Hl Hr]. destruct (IHl a1 buf Hl Hm) as (Hm1 & Hp1 & He1). destruct (IHr a2 _ Hr Hm1) as (Hm2 & Hp2 & He2).
    split_and!; [done|auto|]. apply Forall_app. split; [|done]. by apply (Forall_impl _ _ _ He1).
  - destruct Ha as [Hl Hr]. destruct (IHl a1 buf Hl Hm) as (Hm1 & Hp1 & He1). destruct (IHr a2 _ Hr Hm1) as (Hm2 & Hp2 & He2).
    split_and!; [done|auto|]. apply Forall_app. split; [|done]. by apply (Forall_impl _ _ _ He1).
  - by apply (IH a).
Qed.

Lemma cstring_eq x : ∀ l, Forall (λ c, c ≠ 0) x → (∀ i c, x !! i = Some c → l !! i = Some c) → l !! length x = Some 0 → cstring l = x.
Proof.
  induction x as [|c x IH]; intros l Hx Hl He.
  - destruct l as [|d l]; [done|]. by injection He as ->.
  - apply Forall_cons in Hx as [Hc Hx]. destruct l as [|d l]; [done|]. specialize (Hl 0%nat c eq_refl) as Hd. injection Hd as ->. cbn [cstring].
    rewrite (proj2 (Z.eqb_neq c 0)) by done. f_equal. apply IH; [done| |done]. intros i c' Hi. by apply (Hl (S i)).
Qed.

Lemma string_ok buf w x : marked buf → span_ok w x → ended buf w → string_of buf w = x.
Proof.
  intros [Hl Hc] (pre & rest & HT & -> & Hx & Hr) He. unfold string_of, ended in *. cbn [fst snd] in *.
  assert (length T = length pre + length x + length rest)%nat as HlT by (rewrite HT, !length_app; lia). rewrite length_app.
  replace (length buf - 1 - (length x + length rest))%nat with (length pre) by lia. apply cstring_eq.
  - apply (Forall_impl _ _ _ (wd_chars _ Hx)). by intros c [_ ?].
  - intros i c Hi. rewrite lookup_drop. apply Hc.
    + rewrite HT, lookup_app_r, Nat.add_comm, Nat.add_sub by lia. by apply lookup_app_l_Some.
    + pose proof (wd_chars _ Hx) as Hw. rewrite Forall_forall in Hw. apply (Hw c). by apply (list_elem_of_lookup_2 x i).
  - rewrite lookup_drop. rewrite <- He. f_equal. lia.
Qed.

Lemma ast_of_ok buf c : ∀ a, marked buf → means c a → Forall (ended buf) (spans c) → ast_of buf c = a.
Proof.
  intros a Hm. revert a.
  induction c as [argv|c IH w fl d|l IHl r IHr|l IHl r IHr|c IH]; intros a Ha He; destruct a as [args|a x fl' d'|a1 a2|a1 a2|a]; try done;
    cbn [means spans ast_of] in *.
  - f_equal. induction Ha as [|w x argv args Hw _ IH]; [done|]. apply Forall_cons in He as [He1 He]. cbn. f_equal; [by apply string_ok|by apply IH].
  - destruct Ha as (Ha & Hw & -> & ->). apply Forall_cons in He as [He1 He]. f_equal; [by apply IH|by apply string_ok].
  - destruct Ha as [Hl Hr]. apply Forall_app in He as [H1 H2]. f_equal; auto.
  - destruct Ha as [Hl Hr]. apply Forall_app in He as [H1 H2]. f_equal; auto.
  - f_equal. auto.
Qed.

End line.

(** The parser ends on every line: the bound on its recursion is never what
    stops it. *)
Theorem parsecmd_ends s : parsecmd s ≠ Err EFuel.
Proof.
  unfold parsecmd. destruct (parse_ends (4 * length s + 4) s) as (H & _). specialize (H (Nat.le_refl _)).
  destruct (parseline (4 * length s + 4) s) as [[c rest]|e]; cbn in *; [|congruence]. by destruct (skip rest).
Qed.

(** C22. The shell understands what can be typed.  A command of any shape, with
    words of ordinary characters, at most 31 arguments and the redirections
    [<] and [>], written as text with parentheses where the grammar needs them,
    is parsed into a tree that, with the strings [nulterminate] leaves in the
    line, is that command. *)
Theorem parse_print a : typable a → ∃ c buf, parsecmd (print 0 a) = Ok (c, buf) ∧ ast_of buf c = a.
Proof.
  intros Ha. set (T := print 0 a). destruct (all_ok T a Ha) as (_ & _ & _ & HL).
  destruct (HL (4 * length T + 4)%nat T [] []) as (c & E & Hm); [done|by rewrite app_nil_r|by rewrite app_nil_r|pose proof (skip_length T); lia|].
  exists c, (nulterminate c (T ++ [0])). split; [unfold parsecmd; by rewrite E|].
  assert (marked T (T ++ [0])) as Hk.
  { split; [rewrite length_app; cbn; lia|]. intros i ch Hi _. by apply lookup_app_l_Some. }
  destruct (nulterminate_ok T c a _ Hm Hk) as (Hm1 & _ & He). by apply (ast_of_ok T).
Qed.

Lemma parse_print_witness :
  let a := APipe (ARedir (AExec [[97]; [98]]) [99] 0 0) (AList (AExec [[100]]) (ABack (AExec [[101]]))) in
  print 0 a = [32; 97; 32; 98; 60; 99; 124; 40; 32; 100; 59; 32; 101; 38; 41] ∧
  ∃ c buf, parsecmd (print 0 a) = Ok (c, buf) ∧ ast_of buf c = a.
Proof.
  split; [reflexivity|]. apply parse_print. cbn [typable]. unfold MAXARG.
  repeat match goal with
  | |- _ ∧ _ => split
  | |- Forall _ [] => constructor
  | |- Forall _ (_ :: _) => apply Forall_cons_2
  | |- word _ => split
  | |- _ ∨ _ => left
  | |- _ => first [reflexivity | discriminate | (cbn; lia)]
  end.
Defined.

End Shell.
