(* ===== verification/Search.v ===== *)
(** * Binary search (lib/search.c)

    [bsearch] on addresses: the array's elements lie at [base + i * size], and
    the comparison function is an argument, as it is in C; it may fault. *)

From S2P Require Import Prelude Mem.

Module Search.

Section bsearch.
Context (compar : Z → Z → res Z).

(** The loop over [base] and [nmemb], both of which the body updates. *)
Fixpoint bsearch_loop (key base nmemb size : Z) (k : nat) : res Z :=
  match k with
  | O => Err EFuel
  | S k =>
      if nmemb =? 0 then Ok NULL
      else
        let corr := nmemb mod 2 in
        let nmemb := nmemb / 2 in
        let pivot := u64 (base + u64 (nmemb * size)) in
        rc ← compar key pivot;
        if rc >? 0 then bsearch_loop key (u64 (pivot + size)) (u64 (nmemb - (1 - corr))) size k
        else if rc =? 0 then Ok pivot
        else bsearch_loop key base nmemb size k
  end.

(** [log2 nmemb + 1] comparisons, and one turn to leave. *)
Definition bsearch (key base nmemb size : Z) : res Z :=
  bsearch_loop key base nmemb size (Z.to_nat (Z.log2 nmemb) + 2).

(** ** The search interval *)

Context (key a n size : Z) (c : Z → Z).
Hypothesis Hsize : 0 < size.
Hypothesis Hfits : 0 < a ∧ a + n * size < 2 ^ 64.
Hypothesis Hcompar : ∀ i, 0 ≤ i < n → compar key (a + i * size) = Ok (c i).
Hypothesis Hup : ∀ i j, 0 ≤ i ≤ j → j < n → 0 < c j → 0 < c i.
Hypothesis Hdown : ∀ i j, 0 ≤ i ≤ j → j < n → c i < 0 → c j < 0.

(** What is outside of [lo, lo + m) does not match. *)
Definition narrowed (lo m : Z) : Prop :=
  0 ≤ lo ∧ 0 ≤ m ∧ lo + m ≤ n ∧
  (∀ i, 0 ≤ i < lo → 0 < c i) ∧ (∀ i, lo + m ≤ i < n → c i < 0).

Definition found (p : Z) : Prop :=
  (∃ i, 0 ≤ i < n ∧ c i = 0 ∧ p = a + i * size) ∨ (p = NULL ∧ ∀ i, 0 ≤ i < n → c i ≠ 0).

(** The interval halves on every turn, so it is empty before the fuel is. *)
Lemma bsearch_loop_found lo m k :
  narrowed lo m → m < 2 ^ (Z.of_nat k - 1) → (0 < k)%nat →
  ∃ p, bsearch_loop key (a + lo * size) m size k = Ok p ∧ found p.
Proof using Hsize Hfits Hcompar Hup Hdown.
  revert lo m. induction k as [|k IH]; [lia|].
  intros lo m (Hlo & Hm & Hle & Hl & Hr) Hk _. cbn [bsearch_loop].
  destruct (Z.eqb_spec m 0) as [->|Hm0].
  { exists NULL. split; [done|]. right. split; [done|]. intros i Hi E.
    destruct (decide (i < lo)); [pose proof (Hl i)|pose proof (Hr i)]; lia. }
  destruct k as [|k]; [cbn in Hk; lia|].
  assert (m / 2 < 2 ^ (Z.of_nat (S k) - 1)) as Hhalf.
  { apply Z.div_lt_upper_bound; [lia|]. rewrite <- Z.pow_succ_r by lia.
    by replace (Z.succ (S k - 1)) with (S (S k) - 1) by lia. }
  pose proof (Z.div_mod m 2). pose proof (Z.mod_pos_bound m 2).
  assert (0 ≤ m / 2 < m) by (split; [apply Z.div_pos; lia|apply Z.div_lt; lia]).
  assert (∀ i, 0 ≤ i ≤ n → u64 (a + i * size) = a + i * size) as Haddr.
  { intros i Hi. apply wrap_small. nia. }
  assert (u64 (m / 2 * size) = m / 2 * size) as -> by (apply wrap_small; nia).
  replace (a + lo * size + m / 2 * size) with (a + (lo + m / 2) * size) by lia.
  rewrite Haddr by lia. rewrite Hcompar by lia. cbn [mbind res_bind].
  destruct (Z.gtb_spec (c (lo + m / 2)) 0) as [Hc|Hc].
  - replace (a + (lo + m / 2) * size + size) with (a + (lo + m / 2 + 1) * size) by lia.
    rewrite Haddr by lia. rewrite (wrap_small 64 (m / 2 - _)) by nia.
    apply IH; [|lia|lia]. split_and!; [lia..| |].
    + intros i Hi. apply (Hup i (lo + m / 2)); lia.
    + intros i Hi. apply Hr. lia.
  - destruct (Z.eqb_spec (c (lo + m / 2)) 0) as [Hz|Hz].
    + eexists. split; [done|]. left. exists (lo + m / 2). lia.
    + apply IH; [|lia|lia]. split_and!; [lia..|done|].
      intros i Hi. apply (Hdown (lo + m / 2) i); lia.
Qed.

End bsearch.

(** [bsearch] on an array of [n] elements of [size] bytes at [a], ordered
    with respect to the key, returns the address of an element that compares
    equal to the key, or [NULL] when there is none.  It calls the comparison
    function only on elements of the array and at most [log2 n + 1] times:
    the bound on the turns of the loop is never what ends it.  No sum of
    addresses wraps around. *)
Theorem bsearch_correct compar key a n size (c : Z → Z) :
  0 ≤ n → 0 < size → 0 < a ∧ a + n * size < 2 ^ 64 →
  (∀ i, 0 ≤ i < n → compar key (a + i * size) = Ok (c i)) →
  (∀ i j, 0 ≤ i ≤ j → j < n → 0 < c j → 0 < c i) →
  (∀ i j, 0 ≤ i ≤ j → j < n → c i < 0 → c j < 0) →
  ∃ p, bsearch compar key a n size = Ok p ∧
    ((∃ i, 0 ≤ i < n ∧ c i = 0 ∧ p = a + i * size) ∨
     (p = NULL ∧ ∀ i, 0 ≤ i < n → c i ≠ 0)).
Proof.
  intros Hn Hs Hf Hc Hu Hd. unfold bsearch.
  set (k := (Z.to_nat (Z.log2 n) + 2)%nat).
  assert (n < 2 ^ (Z.of_nat k - 1)) as Hk.
  { unfold k. rewrite Nat2Z.inj_add, Z2Nat.id by apply Z.log2_nonneg.
    destruct (decide (n = 0)) as [->|]; [cbn; lia|].
    replace (Z.log2 n + 2%nat - 1) with (Z.succ (Z.log2 n)) by lia.
    apply Z.log2_spec. lia. }
  destruct (bsearch_loop_found compar key a n size c Hs Hf Hc Hu Hd 0 n k) as (p & E & Hp).
  - split_and!; [lia..| |]; intros; lia.
  - done.
  - lia.
  - exists p. split; [|done]. by replace (a + 0 * size) with a in E by lia.
Qed.

(** The keys 2, 4, 6, 8, 10 as bytes at address 100. *)
Definition sample_compar (key p : Z) : res Z :=
  if (100 <=? p) && (p <? 105) then Ok (key - 2 * (p - 99)) else Err EFault.

Lemma bsearch_correct_witness :
  (bsearch sample_compar 8 100 5 1 = Ok 103 ∧ bsearch sample_compar 7 100 5 1 = Ok NULL) ∧
  ∃ p, bsearch sample_compar 8 100 5 1 = Ok p ∧
    ((∃ i, 0 ≤ i < 5 ∧ 8 - 2 * (i + 1) = 0 ∧ p = 100 + i * 1) ∨
     (p = NULL ∧ ∀ i, 0 ≤ i < 5 → 8 - 2 * (i + 1) ≠ 0)).
Proof.
  split; [split; vm_compute; reflexivity|].
  apply (bsearch_correct sample_compar 8 100 5 1 (λ i, 8 - 2 * (i + 1))); [lia|lia|lia|..].
  - intros i Hi. unfold sample_compar.
    rewrite (proj2 (Z.leb_le 100 _)), (proj2 (Z.ltb_lt _ 105)) by lia. cbn. f_equal. lia.
  - intros. lia.
  - intros. lia.
Defined.

End Search.
