(* ===== verification/Qsort.v ===== *)
(** * Sorting (lib/qsort.c)

    [qsort] on the bytes of memory: the array has [n] elements of [es] bytes at
    [a], the comparison function is an argument that reads memory.  The proofs
    see the array as a list of elements, each a list of bytes. *)

From stdpp Require Import sorting.
From S2P Require Import Prelude Mem.

Module Qsort.

(** ** The code *)

Fixpoint swap_loop (m : mem) (a b es : Z) (k : nat) : res mem :=
  match k with
  | O => Err EFuel
  | S k =>
      t ← load m a;
      u ← load m b;
      m ← store m a u;
      m ← store m b t;
      let es := u64 (es - 1) in
      if 0 <? es then swap_loop m (a + 1) (b + 1) es k else Ok m
  end.

Definition swapfunc (m : mem) (a b es : Z) : res mem := swap_loop m a b es (fuel m).

Definition vecswap (m : mem) (a b n : Z) : res mem := if 0 <? n then swapfunc m a b n else Ok m.

Section code.
Context (cmp : mem → Z → Z → res Z).

Definition med3 (m : mem) (a b c : Z) : res Z :=
  ab ← cmp m a b;
  bc ← cmp m b c;
  if ab <? 0 then
    if bc <? 0 then Ok b else ac ← cmp m a c; Ok (if ac <? 0 then c else a)
  else
    if 0 <? bc then Ok b else ac ← cmp m a c; Ok (if ac <? 0 then a else c).

Context (es : Z).

(** [for (pl = pm; pl > a && CMP(pl - es, pl) > 0; pl -= es) swap] *)
Fixpoint sink (m : mem) (a pl : Z) (k : nat) : res mem :=
  match k with
  | O => Err EFuel
  | S k =>
      if a <? pl then
        r ← cmp m (pl - es) pl;
        if 0 <? r then m ← swapfunc m pl (pl - es) es; sink m a (pl - es) k else Ok m
      else Ok m
  end.

(** The insertion sort: [pm] up to the end of the array. *)
Fixpoint insertion (m : mem) (a n pm : Z) (k : nat) : res mem :=
  match k with
  | O => Err EFuel
  | S k =>
      if pm <? a + n * es then
        m ← sink m a pm (S (Z.to_nat n));
        insertion m a n (pm + es) k
      else Ok m
  end.

(** The two scans of the partition; [sc] is [swap_cnt]. *)
Fixpoint scan_up (m : mem) (a pa pb pc sc : Z) (k : nat) : res (mem * Z * Z * Z) :=
  match k with
  | O => Err EFuel
  | S k =>
      if pb <=? pc then
        r ← cmp m pb a;
        if r <=? 0 then
          if r =? 0 then m ← swapfunc m pa pb es; scan_up m a (pa + es) (pb + es) pc 1 k
          else scan_up m a pa (pb + es) pc sc k
        else Ok (m, pa, pb, sc)
      else Ok (m, pa, pb, sc)
  end.

Fixpoint scan_down (m : mem) (a pb pc pd sc : Z) (k : nat) : res (mem * Z * Z * Z) :=
  match k with
  | O => Err EFuel
  | S k =>
      if pb <=? pc then
        r ← cmp m pc a;
        if 0 <=? r then
          if r =? 0 then m ← swapfunc m pc pd es; scan_down m a pb (pc - es) (pd - es) 1 k
          else scan_down m a pb (pc - es) pd sc k
        else Ok (m, pc, pd, sc)
      else Ok (m, pc, pd, sc)
  end.

Fixpoint partition (m : mem) (a n pa pb pc pd sc : Z) (k : nat) : res (mem * Z * Z * Z * Z * Z) :=
  match k with
  | O => Err EFuel
  | S k =>
      '(m, pa, pb, sc) ← scan_up m a pa pb pc sc (S (Z.to_nat n));
      '(m, pc, pd, sc) ← scan_down m a pb pc pd sc (S (Z.to_nat n));
      if pc <? pb then Ok (m, pa, pb, pc, pd, sc)
      else
        m ← swapfunc m pb pc es;
        partition m a n pa (pb + es) (pc - es) pd 1 k
  end.

(** The choice of the pivot. *)
Definition pivot (m : mem) (a n : Z) : res Z :=
  let pm := a + n / 2 * es in
  if 7 <? n then
    let pl := a in
    let pn := a + (n - 1) * es in
    '(pl, pm, pn) ← (if 40 <? n then
        let d := n / 8 * es in
        pl ← med3 m pl (pl + d) (pl + 2 * d);
        pm ← med3 m (pm - d) pm (pm + d);
        pn ← med3 m (pn - 2 * d) (pn - d) pn;
        Ok (pl, pm, pn)
      else Ok (pl, pm, pn));
    med3 m pl pm pn
  else Ok pm.

(** From the label [loop] on; the recursive calls and the jumps back both sort
    a part that leaves out the pivot. *)
Fixpoint qsort_loop (m : mem) (a n : Z) (k : nat) : res mem :=
  match k with
  | O => Err EFuel
  | S k =>
      if n <? 7 then insertion m a n (a + es) (S (Z.to_nat n))
      else
        pm ← pivot m a n;
        m ← swapfunc m a pm es;
        '(m, pa, pb, pc, pd, sc) ←
          partition m a n (a + es) (a + es) (a + (n - 1) * es) (a + (n - 1) * es) 0 (S (Z.to_nat n));
        if sc =? 0 then insertion m a n (a + es) (S (Z.to_nat n))
        else
          let pn := a + n * es in
          let d1 := Z.min (pa - a) (pb - pa) in
          m ← vecswap m a (pb - d1) d1;
          let d1 := Z.min (pd - pc) (pn - pd - es) in
          m ← vecswap m pb (pn - d1) d1;
          let d1 := pb - pa in
          let d2 := pd - pc in
          let rec m a d := if d / es <? 2 then Ok m else qsort_loop m a (d / es) k in
          if d1 <=? d2 then
            m ← (if es <? d1 then rec m a d1 else Ok m);
            if es <? d2 then qsort_loop m (pn - d2) (d2 / es) k else Ok m
          else
            m ← (if es <? d2 then rec m (pn - d2) d2 else Ok m);
            if es <? d1 then qsort_loop m a (d1 / es) k else Ok m
  end.

Definition local_qsort (m : mem) (a n : Z) : res mem :=
  if n <? 2 then Ok m else qsort_loop m a n (S (Z.to_nat n)).

End code.

Definition qsort (cmp : mem → Z → Z → res Z) (m : mem) (a n es : Z) : res mem := local_qsort cmp es m a n.

(** ** Swapping byte ranges *)

Lemma swap_loop_ok m p q u v k :
  bytes_at m p u → bytes_at m q v → length u = length v → u ≠ [] →
  Forall byte_ok u → Forall byte_ok v → length u < 2 ^ 64 →
  p = q ∨ disjoint p (length u) q (length v) → (length u ≤ k)%nat →
  swap_loop m p q (length u) k = Ok (set_bytes (set_bytes m p v) q u).
Proof.
  intros Hu Hv Hlen Hne Hbu Hbv Hw Hd Hk. revert m p q v k Hu Hv Hlen Hbv Hd Hk.
  induction Hbu as [|b u Hb Hbu IH]; [done|].
  intros m p q [|c v] [|k] Hu Hv Hlen Hbv Hd Hk; try (cbn in *; lia).
  destruct Hu as [Hp Hu], Hv as [Hq Hv].
  apply Forall_cons in Hbv as [Hc Hbv]. cbn [swap_loop].
  rewrite (load_bind _ _ _ _ Hp), (load_bind _ _ _ _ Hq), store_bind by (done || by rewrite Hp).
  rewrite store_bind; [|rewrite lookup_insert_is_Some'; right; by rewrite Hq|done].
  cbn [length set_bytes] in *. rewrite wrap_small by lia.
  rewrite (insert_set_bytes (<[p := c]> m)) by (unfold disjoint in Hd; lia).
  destruct (Z.ltb_spec 0 (S (length u) - 1)) as [Hpos|Hz].
  - replace (S (length u) - 1) with (Z.of_nat (length u)) by lia.
    assert (∀ x, p + 1 ≤ x < p + 1 + length u → <[q := b]> (<[p := c]> m) !! x = m !! x) as F1.
    { intros x Hx. rewrite !lookup_insert_ne by (unfold disjoint in Hd; lia). done. }
    assert (∀ x, q + 1 ≤ x < q + 1 + length v → <[q := b]> (<[p := c]> m) !! x = m !! x) as F2.
    { intros x Hx. rewrite !lookup_insert_ne by (unfold disjoint in Hd; lia). done. }
    apply IH; try done; [by intros ->|lia|by eapply bytes_at_frame|by eapply bytes_at_frame|lia|
      unfold disjoint in *; lia|lia].
  - destruct u; [|cbn in Hz; lia]. destruct v; [done|cbn in Hlen; lia].
Qed.

Lemma swapfunc_ok m p q u v :
  bytes_at m p u → bytes_at m q v → length u = length v → u ≠ [] →
  Forall byte_ok u → Forall byte_ok v → length u < 2 ^ 64 →
  p = q ∨ disjoint p (length u) q (length v) →
  swapfunc m p q (length u) = Ok (set_bytes (set_bytes m p v) q u).
Proof.
  intros Hu Hv Hlen Hne Hbu Hbv Hw Hd. apply swap_loop_ok; try done.
  apply bytes_at_size in Hu. unfold fuel. lia.
Qed.

(** Overwriting the middle of a range that was just written. *)
Lemma set_bytes_mid m a A B B' C :
  length B' = length B →
  set_bytes (set_bytes m a (A ++ B ++ C)) (a + length A) B' = set_bytes m a (A ++ B' ++ C).
Proof.
  intros Hl. rewrite !set_bytes_app, Hl. apply map_eq. intros x.
  rewrite !lookup_set_bytes, Hl. repeat case_bool_decide; done || lia.
Qed.

(** ** Swapping elements of a list *)

Definition swap {A} (i j : nat) (l : list A) : list A :=
  match l !! i, l !! j with
  | Some x, Some y => <[j := x]> (<[i := y]> l)
  | _, _ => l
  end.

Lemma lookup_swap {A} (l : list A) i j k :
  (i < length l)%nat → (j < length l)%nat →
  swap i j l !! k = if decide (k = i) then l !! j else if decide (k = j) then l !! i else l !! k.
Proof.
  intros [x Hx]%lookup_lt_is_Some_2 [y Hy]%lookup_lt_is_Some_2. unfold swap. rewrite Hx, Hy.
  pose proof (lookup_lt_Some _ _ _ Hx). pose proof (lookup_lt_Some _ _ _ Hy).
  destruct (decide (k = j)) as [->|Hj].
  - rewrite list_lookup_insert_eq by (by rewrite length_insert). case_decide; congruence.
  - rewrite list_lookup_insert_ne by done.
    case_decide; [subst; by rewrite list_lookup_insert_eq|]. by rewrite list_lookup_insert_ne.
Qed.

Lemma swap_perm {A} (l : list A) i j : swap i j l ≡ₚ l.
Proof.
  unfold swap. destruct (l !! i) as [x|] eqn:Hx; [|done]. destruct (l !! j) as [y|] eqn:Hy; [|done].
  destruct (decide (i = j)) as [->|Hne].
  { simplify_eq. by rewrite list_insert_insert_eq, list_insert_id. }
  assert (<[i := y]> l !! j = Some y) as Hy' by by rewrite list_lookup_insert_ne.
  assert (∀ (t : list A) k u v, t !! k = Some u → <[k := v]> t ≡ₚ v :: delete k t) as Hins.
  { intros t k u v Ht. rewrite insert_take_drop by by eapply lookup_lt_Some.
    rewrite delete_take_drop. by rewrite Permutation_middle. }
  etrans; [by apply (Hins _ _ y x)|]. etrans; [|symmetry; exact (delete_Permutation _ _ _ Hx)].
  apply perm_skip, (Permutation_cons_inv (a := y)).
  etrans; [symmetry; exact (delete_Permutation _ _ _ Hy')|]. by eapply Hins.
Qed.

Lemma length_swap {A} (l : list A) i j : length (swap i j l) = length l.
Proof. by rewrite swap_perm. Qed.

Lemma swap_adjacent {A} (s : list A) u y t :
  swap (S (length s)) (length s) (s ++ u :: y :: t) = s ++ y :: u :: t.
Proof.
  apply list_eq. intros k. rewrite lookup_swap by (rewrite length_app; cbn; lia).
  rewrite !lookup_app_r by lia. replace (S (length s) - length s)%nat with 1%nat by lia.
  rewrite Nat.sub_diag. cbn. case_decide; [subst|case_decide; [subst|]].
  - rewrite lookup_app_r by lia. by replace (S (length s) - length s)%nat with 1%nat by lia.
  - rewrite lookup_app_r by lia. by rewrite Nat.sub_diag.
  - destruct (decide (k < length s)%nat); [by rewrite !lookup_app_l|].
    rewrite !lookup_app_r by lia. by destruct (k - length s)%nat as [|[|d]] eqn:E; [lia|lia|].
Qed.

(** ** The array as a list of elements *)

Section array.
Context (cmp : mem → Z → Z → res Z) (w : nat) (c : list Z → list Z → Z).
Hypothesis Hw : (0 < w)%nat.
(** The comparison depends on the bytes of the two elements. *)
Hypothesis Hcmp : ∀ m x y u v,
  bytes_at m x u → bytes_at m y v → length u = w → length v = w → cmp m x y = Ok (c u v).

Definition elem_ok (u : list Z) : Prop := length u = w ∧ Forall byte_ok u.

Lemma length_concat_elems l : Forall elem_ok l → length (concat l) = (length l * w)%nat.
Proof. induction 1 as [|u l [Hu _] _ IH]; cbn; [done|]. rewrite length_app, Hu, IH. lia. Qed.

Lemma concat_bytes l : Forall elem_ok l → Forall byte_ok (concat l).
Proof. induction 1 as [|u l [_ Hu] _ IH]; cbn; [constructor|]. by apply Forall_app. Qed.

(** Memory [m] with the elements [l] at [a], and the address of element [i]. *)
Definition img (m : mem) (a : Z) (l : list (list Z)) : mem := set_bytes m a (concat l).
Abbreviation ptr a i := (a + Z.of_nat i * Z.of_nat w).

Lemma img_sub m a P X X' S :
  Forall elem_ok (P ++ X ++ S) → Forall elem_ok X' → length X' = length X →
  img (img m a (P ++ X ++ S)) (ptr a (length P)) X' = img m a (P ++ X' ++ S).
Proof.
  rewrite !Forall_app. intros (HP & HX & HS) HX' Hl. unfold img. rewrite !concat_app.
  replace (ptr a (length P)) with (a + length (concat P)) by (rewrite length_concat_elems by done; lia).
  apply set_bytes_mid. by rewrite !length_concat_elems, Hl.
Qed.

(** The bytes of element [i]. *)
Lemma img_sub_at m a P X S :
  Forall elem_ok (P ++ X ++ S) → bytes_at (img m a (P ++ X ++ S)) (ptr a (length P)) (concat X).
Proof.
  rewrite !Forall_app. intros (HP & HX & HS). unfold img. rewrite !concat_app.
  replace (ptr a (length P)) with (a + length (concat P)) by (rewrite length_concat_elems by done; lia).
  pose proof (bytes_at_set_eq m a (concat P ++ concat X ++ concat S)) as H.
  rewrite !bytes_at_app in H. tauto.
Qed.

Lemma elem_split {A} (l : list A) i u : l !! i = Some u → ∃ P S, l = P ++ [u] ++ S ∧ length P = i.
Proof.
  intros H. exists (take i l), (drop (S i) l). split; [symmetry; by apply take_drop_middle|].
  apply length_take_le. apply lookup_lt_Some in H. lia.
Qed.

Lemma img_at m a l i u : Forall elem_ok l → l !! i = Some u → bytes_at (img m a l) (ptr a i) u.
Proof.
  intros Hl (P & S & -> & <-)%elem_split. rewrite <- (app_nil_r u) at 2. by apply img_sub_at.
Qed.

Lemma img_insert m a l i u :
  Forall elem_ok l → (i < length l)%nat → elem_ok u → set_bytes (img m a l) (ptr a i) u = img m a (<[i := u]> l).
Proof.
  intros Hl [v Hv]%lookup_lt_is_Some_2 Hu. apply elem_split in Hv as (P & S & -> & <-).
  rewrite <- (app_nil_r u) at 1. change (u ++ []) with (concat [u]).
  rewrite insert_app_r_alt, Nat.sub_diag by lia. cbn [insert list_insert app].
  by apply (img_sub m a P [v] [u] S); [|apply Forall_singleton|].
Qed.

Lemma cmp_img m a l i j u v :
  Forall elem_ok l → l !! i = Some u → l !! j = Some v → cmp (img m a l) (ptr a i) (ptr a j) = Ok (c u v).
Proof.
  intros Hl Hi Hj. apply Hcmp; [by apply img_at..| |]; by eapply Forall_lookup_1 in Hl as [? _].
Qed.

Lemma swapfunc_img m a l i j :
  Forall elem_ok l → (i < length l)%nat → (j < length l)%nat → w < 2 ^ 64 →
  swapfunc (img m a l) (ptr a i) (ptr a j) w = Ok (img m a (swap i j l)).
Proof.
  intros Hl Hi Hj Hw64. destruct (lookup_lt_is_Some_2 _ _ Hi) as [u Hu].
  destruct (lookup_lt_is_Some_2 _ _ Hj) as [v Hv].
  destruct (Forall_lookup_1 _ _ _ _ Hl Hu) as [Hlu Hbu], (Forall_lookup_1 _ _ _ _ Hl Hv) as [Hlv Hbv].
  unfold swap. rewrite Hu, Hv. rewrite <- Hlu at 3.
  rewrite (swapfunc_ok _ _ _ u v); try done; [|by apply img_at..|lia|by intros ->; cbn in Hlu; lia|lia|].
  - rewrite img_insert by done. rewrite img_insert; [done|by apply Forall_insert|by rewrite length_insert|done].
  - destruct (Nat.lt_trichotomy i j) as [?|[->|?]]; [right|by left|right]; unfold disjoint; nia.
Qed.

(** Swapping two ranges of elements of the same length. *)
Lemma vecswap_img m a P U B V S :
  Forall elem_ok (P ++ U ++ B ++ V ++ S) → length U = length V → (length U * w)%nat < 2 ^ 64 →
  vecswap (img m a (P ++ U ++ B ++ V ++ S)) (ptr a (length P)) (ptr a (length P + length U + length B))
    (length U * w) = Ok (img m a (P ++ V ++ B ++ U ++ S)).
Proof.
  intros Hok Hlen Hw64. unfold vecswap. destruct (Z.ltb_spec 0 (length U * w)) as [Hpos|Hz].
  2: { destruct U; [|cbn in Hz; nia]. by destruct V. }
  assert (∀ Q, P ++ Q ++ B ++ V ++ S = (P ++ Q ++ B) ++ V ++ S) as E by (intros; by rewrite <- !(assoc_L (++))).
  assert (length (P ++ U ++ B) = (length P + length U + length B)%nat) as El by (rewrite !length_app; lia).
  pose proof (img_sub_at m a P U (B ++ V ++ S) Hok) as AtU.
  pose proof (img_sub_at m a (P ++ U ++ B) V S) as AtV. rewrite <- E, El in AtV. specialize (AtV Hok).
  pose proof Hok as Hok'. rewrite !Forall_app in Hok'. destruct Hok' as (HP & HU & HB & HV & HS).
  replace (length U * w) with (Z.of_nat (length (concat U))) by (rewrite length_concat_elems by done; lia).
  rewrite (swapfunc_ok _ _ _ (concat U) (concat V)); try done.
  - change (set_bytes (img ?m ?a ?l) ?p (concat ?X)) with (img (img m a l) p X).
    rewrite (img_sub m a P U V (B ++ V ++ S)) by (done || by rewrite Hlen).
    change (set_bytes ?m ?p (concat ?X)) with (img m p X).
    replace (P ++ V ++ B ++ V ++ S) with ((P ++ V ++ B) ++ V ++ S) by by rewrite <- !(assoc_L (++)).
    replace (length P + length U + length B)%nat with (length (P ++ V ++ B)) by (rewrite !length_app; lia).
    rewrite (img_sub m a (P ++ V ++ B) V U S); [|by rewrite !Forall_app|done|done].
    by rewrite <- !(assoc_L (++)).
  - by rewrite !length_concat_elems, Hlen by done.
  - intros E0. pose proof (length_concat_elems U HU) as EU. rewrite E0 in EU. cbn in EU. lia.
  - by apply concat_bytes.
  - by apply concat_bytes.
  - rewrite length_concat_elems by done. lia.
  - right. left. rewrite length_concat_elems by done. nia.
Qed.

(** ** Insertion sort *)

Hypothesis Hw64 : w < 2 ^ 64.

Definition le (u v : list Z) : Prop := c u v ≤ 0.

(** The comparison orders the elements. *)
Definition ordered : Prop :=
  (∀ u v, 0 < c u v ↔ c v u < 0) ∧ (∀ u v x, le u v → le v x → le u x).

Lemma ptr_S a i : ptr a i + w = ptr a (S i).
Proof. lia. Qed.

Lemma ptr_pred a i : ptr a (S i) - w = ptr a i.
Proof. lia. Qed.

Lemma ptr_0 a : ptr a 0 = a.
Proof. lia. Qed.

Lemma ptr_lt a i j : (ptr a i <? ptr a j) = bool_decide (i < j)%nat.
Proof. destruct (Z.ltb_spec (ptr a i) (ptr a j)); case_bool_decide; nia. Qed.

Lemma ptr_le a i j : (ptr a i <=? ptr a j) = bool_decide (i ≤ j)%nat.
Proof. destruct (Z.leb_spec (ptr a i) (ptr a j)); case_bool_decide; nia. Qed.

(** The element moves left past the greater ones. *)
Lemma sink_ok m a s y t k :
  Forall elem_ok (s ++ y :: t) → (length s < k)%nat →
  ∃ s1 s2, s = s1 ++ s2 ∧
    sink cmp w (img m a (s ++ y :: t)) a (ptr a (length s)) k = Ok (img m a (s1 ++ y :: s2 ++ t)) ∧
    Forall (λ u, 0 < c u y) s2 ∧ (∀ u, last s1 = Some u → c u y ≤ 0).
Proof.
  revert t k. induction s as [|u s IH] using rev_ind; intros t k Hok Hk; (destruct k as [|k]; [lia|]); cbn [sink].
  - exists [], []. rewrite (proj2 (Z.ltb_ge a _)) by (cbn; lia). done.
  - rewrite length_app in Hk |- *. cbn [length] in Hk |- *. rewrite Nat.add_1_r.
    rewrite (proj2 (Z.ltb_lt a _)) by nia. rewrite ptr_pred.
    rewrite <- (assoc_L (++)) in Hok |- *. cbn [app] in Hok |- *.
    rewrite (cmp_img m a _ (length s) (S (length s)) u y); [|done|by apply list_lookup_middle|].
    2: { rewrite lookup_app_r by lia. by replace (S (length s) - length s)%nat with 1%nat by lia. }
    cbn [mbind res_bind]. destruct (Z.ltb_spec 0 (c u y)) as [Hgt|Hle].
    + rewrite swapfunc_img by (done || (rewrite length_app; cbn; lia)). cbn [mbind res_bind].
      rewrite swap_adjacent.
      destruct (IH (u :: t) k) as (s1 & s2 & -> & -> & HF & Hl); [|lia|].
      { rewrite Forall_app, !Forall_cons in Hok |- *. tauto. }
      exists s1, (s2 ++ [u]). rewrite <- !(assoc_L (++)). split; [done|]. split; [done|].
      split; [|done]. apply Forall_app. split; [done|by apply Forall_singleton].
    + exists (s ++ [u]), []. split; [by rewrite app_nil_r|]. split; [by rewrite <- (assoc_L (++))|].
      split; [constructor|].
      intros v. rewrite last_snoc. by intros [= <-].
Qed.

Lemma sorted_insert s1 s2 y :
  ordered → StronglySorted le (s1 ++ s2) → Forall (λ u, 0 < c u y) s2 →
  (∀ u, last s1 = Some u → c u y ≤ 0) → StronglySorted le (s1 ++ y :: s2).
Proof.
  intros [Hanti Htrans] (Hx & H1 & H2)%StronglySorted_app Hgt Hlast.
  assert (Forall (λ u, le u y) s1) as Hle.
  { destruct s1 as [|v s1 _] using rev_ind; [constructor|].
    assert (le v y) by (apply Hlast; apply last_snoc). apply Forall_app. split; [|by constructor].
    apply StronglySorted_app in H1 as (Hv & _ & _). apply Forall_forall. intros u Hu.
    apply (Htrans u v y); [|done]. apply Hv; set_solver. }
  apply StronglySorted_app. rewrite Forall_forall in Hle. split_and!; [|done|].
  - intros u v Hu [->|Hv]%elem_of_cons; auto.
  - constructor; [done|]. eapply Forall_impl; [exact Hgt|]. intros u Hu. apply Hanti in Hu. unfold le. lia.
Qed.

Lemma insertion_ok m a n s t k :
  Forall elem_ok (s ++ t) → length (s ++ t) = n → (length t < k)%nat →
  ∃ l, insertion cmp w (img m a (s ++ t)) a n (ptr a (length s)) k = Ok (img m a l) ∧
    l ≡ₚ s ++ t ∧ (ordered → StronglySorted le s → StronglySorted le l).
Proof.
  revert s k. induction t as [|y t IH]; intros s k Hok Hn Hk; (destruct k as [|k]; [lia|]); cbn [insertion];
    rewrite length_app in Hn; cbn [length] in *; rewrite ptr_lt.
  - rewrite bool_decide_false by lia. exists s. by rewrite app_nil_r.
  - rewrite bool_decide_true by lia.
    destruct (sink_ok m a s y t (S (Z.to_nat n))) as (s1 & s2 & -> & -> & Hgt & Hlast); [done|lia|].
    cbn [mbind res_bind]. rewrite ptr_S.
    assert (s1 ++ y :: s2 ++ t = (s1 ++ y :: s2) ++ t) as E by by rewrite <- (assoc_L (++)).
    assert (s1 ++ y :: s2 ++ t ≡ₚ (s1 ++ s2) ++ y :: t) as Hperm.
    { rewrite <- (assoc_L (++)). apply Permutation_app_head. apply Permutation_middle. }
    rewrite E in Hperm |- *.
    replace (S (length (s1 ++ s2))) with (length (s1 ++ y :: s2)) by (rewrite !length_app; cbn; lia).
    destruct (IH (s1 ++ y :: s2) k) as (l & -> & Hl & Hs); [by rewrite Hperm| |lia|].
    { rewrite Hperm, !length_app in *. cbn. lia. }
    exists l. split; [done|]. split; [by rewrite Hl|]. intros Ho Hss. apply Hs; [done|].
    by apply sorted_insert.
Qed.

(** ** The partition

    Element 0 is the pivot; from both ends inwards there are elements equal to
    the pivot, then the smaller and the greater ones, then the unseen ones. *)
Definition region (l : list (list Z)) (x : list Z) (lo hi : nat) (P : Z → Prop) : Prop :=
  ∀ i, (lo ≤ i < hi)%nat → ∃ u, l !! i = Some u ∧ P (c u x).

Record part (l : list (list Z)) (x : list Z) (pa pb pc pd : nat) : Prop := {
  part_ok : Forall elem_ok l;
  part_pivot : l !! 0%nat = Some x;
  part_range : (1 ≤ pa ≤ pb)%nat ∧ (pb ≤ S pc)%nat ∧ (pc ≤ pd < length l)%nat;
  part_eq1 : region l x 1 pa (λ r, r = 0);
  part_lt : region l x pa pb (λ r, r < 0);
  part_gt : region l x (S pc) (S pd) (λ r, 0 < r);
  part_eq2 : region l x (S pd) (length l) (λ r, r = 0);
}.

(** A region of a list after a swap: the elements that moved are named. *)
Lemma region_swap l x lo hi i j P :
  (i < length l)%nat → (j < length l)%nat →
  (∀ k, (lo ≤ k < hi)%nat →
    ∃ u, l !! (if decide (k = i) then j else if decide (k = j) then i else k) = Some u ∧ P (c u x)) →
  region (swap i j l) x lo hi P.
Proof.
  intros Hi Hj H k Hk. rewrite lookup_swap by done. specialize (H k Hk).
  case_decide; [done|]. by case_decide.
Qed.

Lemma region_snoc l x lo hi u P :
  region l x lo hi P → l !! hi = Some u → P (c u x) → region l x lo (S hi) P.
Proof. intros H Hu HP i Hi. destruct (decide (i = hi)) as [->|]; [eauto|]. apply H. lia. Qed.

Lemma region_cons l x lo hi u P :
  region l x (S lo) hi P → l !! lo = Some u → P (c u x) → region l x lo hi P.
Proof. intros H Hu HP i Hi. destruct (decide (i = lo)) as [->|]; [eauto|]. apply H. lia. Qed.

Lemma part_swap_ok l i j : Forall elem_ok l → Forall elem_ok (swap i j l).
Proof. by rewrite swap_perm. Qed.

Ltac part_case :=
  repeat case_decide; subst; try lia; eauto;
  match goal with H : region _ _ _ _ _ |- _ => solve [apply H; lia] end.

(** The element at [pb] is equal to the pivot. *)
Lemma part_up_eq l x pa pb pc pd u :
  part l x pa pb pc pd → (pb ≤ pc)%nat → l !! pb = Some u → c u x = 0 →
  part (swap pa pb l) x (S pa) (S pb) pc pd.
Proof.
  intros [Hok Hx Hr H1 H2 H3 H4] Hle Hu Hc. split; rewrite ?length_swap; [by apply part_swap_ok| |lia|..].
  - rewrite lookup_swap by lia. part_case.
  - apply region_swap; [lia..|]. intros k Hk. part_case.
  - apply region_swap; [lia..|]. intros k Hk. part_case.
  - apply region_swap; [lia..|]. intros k Hk. part_case.
  - apply region_swap; [lia..|]. intros k Hk. part_case.
Qed.

Lemma part_up_lt l x pa pb pc pd u :
  part l x pa pb pc pd → (pb ≤ pc)%nat → l !! pb = Some u → c u x < 0 → part l x pa (S pb) pc pd.
Proof.
  intros [Hok Hx Hr H1 H2 H3 H4] Hle Hu Hc. split; try done; [lia|]. by eapply region_snoc.
Qed.

Lemma part_down_eq l x pa pb pc pd u :
  part l x pa pb (S pc) (S pd) → (pb ≤ S pc)%nat → l !! S pc = Some u → c u x = 0 →
  part (swap (S pc) (S pd) l) x pa pb pc pd.
Proof.
  intros [Hok Hx Hr H1 H2 H3 H4] Hle Hu Hc. split; rewrite ?length_swap; [by apply part_swap_ok| |lia|..].
  - rewrite lookup_swap by lia. part_case.
  - apply region_swap; [lia..|]. intros k Hk. part_case.
  - apply region_swap; [lia..|]. intros k Hk. part_case.
  - apply region_swap; [lia..|]. intros k Hk. part_case.
  - apply region_swap; [lia..|]. intros k Hk. destruct (decide (pc = pd)) as [->|]; part_case.
Qed.

Lemma part_down_gt l x pa pb pc pd u :
  part l x pa pb (S pc) pd → (pb ≤ S pc)%nat → l !! S pc = Some u → 0 < c u x → part l x pa pb pc pd.
Proof.
  intros [Hok Hx Hr H1 H2 H3 H4] Hle Hu Hc. split; try done; [lia|]. by eapply region_cons.
Qed.

(** The two elements that stopped the scans change places. *)
Lemma part_exchange l x pa pb pc pd u v :
  part l x pa pb (S pc) pd → (pb ≤ S pc)%nat → l !! pb = Some u → 0 < c u x → l !! S pc = Some v → c v x < 0 →
  part (swap pb (S pc) l) x pa (S pb) pc pd.
Proof.
  intros [Hok Hx Hr H1 H2 H3 H4] Hle Hu Hcu Hv Hcv.
  assert (pb ≠ S pc) by (intros ->; simplify_eq; lia).
  split; rewrite ?length_swap; [by apply part_swap_ok| |lia|..].
  - rewrite lookup_swap by lia. part_case.
  - apply region_swap; [lia..|]. intros k Hk. part_case.
  - apply region_swap; [lia..|]. intros k Hk. part_case.
  - apply region_swap; [lia..|]. intros k Hk. part_case.
  - apply region_swap; [lia..|]. intros k Hk. part_case.
Qed.

(** Comparing an element with the pivot. *)
Lemma cmp_pivot m a l x pa pb pc pd i u :
  part l x pa pb pc pd → l !! i = Some u → cmp (img m a l) (ptr a i) a = Ok (c u x).
Proof. intros [Hok Hx _ _ _ _ _] Hi. rewrite <- (ptr_0 a) at 3. by apply cmp_img. Qed.

(** The scan from the left stops at an element greater than the pivot. *)
Lemma scan_up_ok m a l x pa pb pc pd sc k :
  part l x pa pb pc pd → (S pc - pb < k)%nat →
  ∃ l' pa' pb' sc', scan_up cmp w (img m a l) a (ptr a pa) (ptr a pb) (ptr a pc) sc k =
      Ok (img m a l', ptr a pa', ptr a pb', sc') ∧
    part l' x pa' pb' pc pd ∧ l' ≡ₚ l ∧ (pb ≤ pb')%nat ∧
    ((pb' ≤ pc)%nat → region l' x pb' (S pb') (λ r, 0 < r)).
Proof.
  revert l pa pb sc. induction k as [|k IH]; intros l pa pb sc Hp Hk; [lia|]. cbn [scan_up].
  rewrite ptr_le. case_bool_decide as Hle; [|exists l, pa, pb, sc; split_and!; done || lia].
  pose proof (part_range _ _ _ _ _ _ Hp) as Hr.
  destruct (lookup_lt_is_Some_2 l pb) as [u Hu]; [lia|].
  rewrite (cmp_pivot m a l x pa pb pc pd pb u) by done. cbn [mbind res_bind].
  destruct (Z.leb_spec (c u x) 0) as [Hc|Hc].
  - destruct (Z.eqb_spec (c u x) 0) as [Hz|Hz]; rewrite ?ptr_S.
    + rewrite swapfunc_img; [|apply Hp|lia|lia|done]. cbn [mbind res_bind]. rewrite ?ptr_S.
      destruct (IH (swap pa pb l) (S pa) (S pb) 1) as (l' & pa' & pb' & sc' & E & Hp' & Hl & ? & ?);
        [by eapply part_up_eq|lia|]. exists l', pa', pb', sc'. rewrite swap_perm in Hl. split_and!; done || lia.
    + destruct (IH l pa (S pb) sc) as (l' & pa' & pb' & sc' & E & Hp' & Hl & ? & ?);
        [eapply part_up_lt; [done..|]; lia|lia|]. exists l', pa', pb', sc'. split_and!; done || lia.
  - exists l, pa, pb, sc. split_and!; try done. intros _ i Hi.
    replace i with pb by lia. eauto.
Qed.

(** The scan from the right stops at an element smaller than the pivot. *)
Lemma scan_down_ok m a l x pa pb pc pd sc k :
  part l x pa pb pc pd → (S pc - pb < k)%nat →
  ((pb ≤ pc)%nat → region l x pb (S pb) (λ r, 0 < r)) →
  ∃ l' pc' pd' sc', scan_down cmp w (img m a l) a (ptr a pb) (ptr a pc) (ptr a pd) sc k =
      Ok (img m a l', ptr a pc', ptr a pd', sc') ∧
    part l' x pa pb pc' pd' ∧ l' ≡ₚ l ∧ (pc' ≤ pc)%nat ∧
    ((pb ≤ pc')%nat → region l' x pb (S pb) (λ r, 0 < r) ∧ region l' x pc' (S pc') (λ r, r < 0)).
Proof.
  revert l pc pd sc. induction k as [|k IH]; intros l pc pd sc Hp Hk Hpb; [lia|]. cbn [scan_down].
  rewrite ptr_le. case_bool_decide as Hle; [|exists l, pc, pd, sc; split_and!; done || lia].
  pose proof (part_range _ _ _ _ _ _ Hp) as Hr. specialize (Hpb Hle).
  destruct pc as [|pc]; [lia|]. destruct pd as [|pd]; [lia|].
  destruct (lookup_lt_is_Some_2 l (S pc)) as [u Hu]; [lia|].
  rewrite (cmp_pivot m a l x pa pb (S pc) (S pd) (S pc) u) by done. cbn [mbind res_bind].
  destruct (Z.leb_spec 0 (c u x)) as [Hc|Hc].
  - destruct (Z.eqb_spec (c u x) 0) as [Hz|Hz]; rewrite ?ptr_pred.
    + rewrite swapfunc_img; [|apply Hp|lia|lia|done]. cbn [mbind res_bind]. rewrite ?ptr_pred.
      destruct (IH (swap (S pc) (S pd) l) pc pd 1) as (l' & pc' & pd' & sc' & E & Hp' & Hl & ? & ?);
        [by eapply part_down_eq|lia| |].
      { intros Hle'. apply region_swap; [lia..|]. intros i Hi. part_case. }
      exists l', pc', pd', sc'. rewrite swap_perm in Hl. split_and!; done || lia.
    + destruct (IH l pc (S pd) sc) as (l' & pc' & pd' & sc' & E & Hp' & Hl & ? & ?);
        [eapply part_down_gt; [done..|]; lia|lia|done|]. exists l', pc', pd', sc'. split_and!; done || lia.
  - exists l, (S pc), (S pd), sc. split_and!; try done. intros _. split; [done|]. intros i Hi.
    replace i with (S pc) by lia. eauto.
Qed.

(** The partition ends with no unseen element. *)
Lemma partition_ok m a l x pa pb pc pd sc k :
  part l x pa pb pc pd → (S pc - pb < k)%nat →
  ∃ l' pa' pb' pc' pd' sc',
    partition cmp w (img m a l) a (length l) (ptr a pa) (ptr a pb) (ptr a pc) (ptr a pd) sc k =
      Ok (img m a l', ptr a pa', ptr a pb', ptr a pc', ptr a pd', sc') ∧
    part l' x pa' pb' pc' pd' ∧ l' ≡ₚ l ∧ pb' = S pc'.
Proof.
  revert l pa pb pc pd sc. induction k as [|k IH]; intros l pa pb pc pd sc Hp Hk; [lia|]. cbn [partition].
  pose proof (part_range _ _ _ _ _ _ Hp) as Hr.
  destruct (scan_up_ok m a l x pa pb pc pd sc (S (Z.to_nat (length l)))) as
    (l1 & pa1 & pb1 & sc1 & -> & Hp1 & Hl1 & Hb1 & Hu); [done|lia|]. cbn [mbind res_bind].
  pose proof (part_range _ _ _ _ _ _ Hp1) as Hr1.
  destruct (scan_down_ok m a l1 x pa1 pb1 pc pd sc1 (S (Z.to_nat (length l)))) as
    (l2 & pc2 & pd2 & sc2 & -> & Hp2 & Hl2 & Hb2 & Hd); [done|lia|done|]. cbn [mbind res_bind].
  pose proof (part_range _ _ _ _ _ _ Hp2) as Hr2. rewrite ptr_lt.
  case_bool_decide as Hlt.
  { exists l2, pa1, pb1, pc2, pd2, sc2. split_and!; [done..|by rewrite Hl2|lia]. }
  destruct Hd as [Hgt Hlow]; [lia|].
  destruct (Hgt pb1) as (u & Hu1 & Hcu); [lia|]. destruct (Hlow pc2) as (v & Hv & Hcv); [lia|].
  destruct pc2 as [|pc2]; [lia|].
  assert (length l2 = length l) as Elen by by rewrite Hl2, Hl1.
  rewrite swapfunc_img; [|apply Hp2|lia|lia|done]. cbn [mbind res_bind]. rewrite ptr_S, ptr_pred.
  destruct (IH (swap pb1 (S pc2) l2) pa1 (S pb1) pc2 pd2 1) as
    (l' & pa' & pb' & pc' & pd' & sc' & E & Hp' & Hl & ?);
    [eapply part_exchange; [done|lia|done..]|lia|]. rewrite length_swap, Elen in E.
  exists l', pa', pb', pc', pd', sc'. split_and!; [done..| |done].
  by rewrite Hl, swap_perm, Hl2, Hl1.
Qed.

(** ** The pivot is an element of the array *)

Lemma med3_ok m a l i j k :
  Forall elem_ok l → (i < length l)%nat → (j < length l)%nat → (k < length l)%nat →
  ∃ r, (r < length l)%nat ∧ med3 cmp (img m a l) (ptr a i) (ptr a j) (ptr a k) = Ok (ptr a r).
Proof.
  intros Hok Hi Hj Hk. destruct (lookup_lt_is_Some_2 _ _ Hi) as [u Hu].
  destruct (lookup_lt_is_Some_2 _ _ Hj) as [v Hv]. destruct (lookup_lt_is_Some_2 _ _ Hk) as [x Hx].
  unfold med3. rewrite (cmp_img m a l i j u v), (cmp_img m a l j k v x), (cmp_img m a l i k u x) by done.
  cbn [mbind res_bind]. repeat case_match; eauto.
Qed.

Lemma pivot_ok m a l :
  Forall elem_ok l → (7 ≤ length l)%nat →
  ∃ i, (i < length l)%nat ∧ pivot cmp w (img m a l) a (length l) = Ok (ptr a i).
Proof.
  intros Hok Hn. unfold pivot. set (n := length l) in *.
  set (h := Z.to_nat (n / 2)). set (e := Z.to_nat (n / 8)).
  assert (∀ d, 0 < d → d * Z.to_nat (n / d) ≤ n < d * Z.to_nat (n / d) + d ∧ Z.of_nat (Z.to_nat (n / d)) = n / d) as Hdiv.
  { intros d Hd. rewrite Z2Nat.id by (apply Z.div_pos; lia).
    pose proof (Z.div_mod n d). pose proof (Z.mod_pos_bound n d). lia. }
  destruct (Hdiv 2) as [Hh Eh]; [lia|]. destruct (Hdiv 8) as [He Ee]; [lia|]. fold h in Hh, Eh. fold e in He, Ee.
  rewrite <- Eh.
  assert (h < n)%nat by lia.
  destruct (Z.ltb_spec 7 n) as [H7|H7]; [|eauto].
  replace (a + (n - 1) * w) with (ptr a (n - 1)) by lia.
  assert (∃ i j k, (i < n)%nat ∧ (j < n)%nat ∧ (k < n)%nat ∧
    (if 40 <? n then
        pl ← med3 cmp (img m a l) a (a + n / 8 * w) (a + 2 * (n / 8 * w));
        pm ← med3 cmp (img m a l) (ptr a h - n / 8 * w) (ptr a h) (ptr a h + n / 8 * w);
        pn ← med3 cmp (img m a l) (ptr a (n - 1) - 2 * (n / 8 * w)) (ptr a (n - 1) - n / 8 * w) (ptr a (n - 1));
        Ok (pl, pm, pn)
      else Ok (a, ptr a h, ptr a (n - 1))) = Ok (ptr a i, ptr a j, ptr a k)) as (i & j & k & ? & ? & ? & ->).
  { destruct (Z.ltb_spec 40 n) as [H40|H40].
    2: { exists 0%nat, h, (n - 1)%nat. split_and!; [lia..|]. by rewrite ptr_0. }
    rewrite <- Ee.
    assert (8 * e ≤ n)%nat by lia. assert (4 * e ≤ h)%nat by lia. assert (h + 2 * e < n)%nat by lia.
    replace (a + e * w) with (ptr a e) by lia. replace (a + 2 * (e * w)) with (ptr a (2 * e)) by lia.
    replace (ptr a h - e * w) with (ptr a (h - e)) by lia. replace (ptr a h + e * w) with (ptr a (h + e)) by lia.
    replace (ptr a (n - 1) - 2 * (e * w)) with (ptr a (n - 1 - 2 * e)) by lia.
    replace (ptr a (n - 1) - e * w) with (ptr a (n - 1 - e)) by lia.
    destruct (med3_ok m a l 0 e (2 * e)) as (i & ? & E1); [done|fold n; lia..|].
    destruct (med3_ok m a l (h - e) h (h + e)) as (j & ? & ->); [done|fold n; lia..|].
    destruct (med3_ok m a l (n - 1 - 2 * e) (n - 1 - e) (n - 1)) as (k & ? & ->); [done|fold n; lia..|].
    rewrite ptr_0 in E1. rewrite E1. cbn [mbind res_bind]. by exists i, j, k. }
  cbn [mbind res_bind]. by apply med3_ok.
Qed.

(** ** The pieces of a partition *)

Lemma part_split l x pa pc pd :
  part l x pa (S pc) pc pd →
  ∃ E L G E', l = E ++ L ++ G ++ E' ∧ length E = pa ∧ length L = (S pc - pa)%nat ∧
    length G = (pd - pc)%nat ∧ Forall (λ u, u = x ∨ c u x = 0) (E ++ E') ∧
    Forall (λ u, c u x < 0) L ∧ Forall (λ u, 0 < c u x) G.
Proof.
  intros [Hok Hx Hr H1 H2 H3 H4].
  assert (∀ lo d P, region l x lo (lo + d) P → Forall (λ u, P (c u x)) (take d (drop lo l))) as Hreg.
  { intros lo d P H. apply Forall_lookup. intros i u (Hu & Hi)%lookup_take_Some. rewrite lookup_drop in Hu.
    destruct (H (lo + i)%nat) as (v & Hv & HP); [lia|]. by simplify_eq. }
  exists (take pa l), (take (S pc - pa) (drop pa l)), (take (pd - pc) (drop (S pc) l)),
    (take (length l - S pd) (drop (S pd) l)).
  rewrite !length_take, !length_drop. split_and!; [|lia..| | |].
  - rewrite (take_ge (drop (S pd) l)) by (rewrite length_drop; lia).
    replace (drop (S pd) l) with (drop (pd - pc) (drop (S pc) l)) by (rewrite drop_drop; f_equal; lia).
    rewrite (take_drop (pd - pc)).
    replace (drop (S pc) l) with (drop (S pc - pa) (drop pa l)) by (rewrite drop_drop; f_equal; lia).
    by rewrite (take_drop (S pc - pa)), take_drop.
  - apply Forall_app. split.
    + apply Forall_lookup. intros i u (Hu & Hi)%lookup_take_Some.
      destruct i as [|i]; [left; congruence|]. right. destruct (H1 (S i)) as (v & ? & ?); [lia|congruence].
    + eapply Forall_impl; [apply (Hreg (S pd) (length l - S pd)%nat (λ r, r = 0))|by right].
      by replace (S pd + (length l - S pd))%nat with (length l) by lia.
  - apply (Hreg pa _ (λ r, r < 0)). by replace (pa + (S pc - pa))%nat with (S pc) by lia.
  - apply (Hreg (S pc) _ (λ r, 0 < r)). by replace (S pc + (pd - pc))%nat with (S pd) by lia.
Qed.

(** Swapping the outer ends of two adjacent runs exchanges the runs. *)
Lemma exchange_runs {A} (E L : list A) :
  ∃ U B V L' E', E ++ L = U ++ B ++ V ∧ length U = Nat.min (length E) (length L) ∧
    length V = length U ∧ V ++ B ++ U = L' ++ E' ∧ L' ≡ₚ L ∧ E' ≡ₚ E.
Proof.
  destruct (decide (length E ≤ length L)%nat) as [Hle|Hgt].
  - exists E, (take (length L - length E) L), (drop (length L - length E) L),
      (drop (length L - length E) L ++ take (length L - length E) L), E.
    rewrite take_drop, length_drop, <- (assoc_L (++)). split_and!; [done|lia..|done| |done].
    etrans; [apply Permutation_app_comm|]. by rewrite take_drop.
  - exists (take (length L) E), (drop (length L) E), L, L, (drop (length L) E ++ take (length L) E).
    rewrite length_take, (assoc_L (++) (take _ _)), take_drop. split_and!; [done|lia..|done|done|].
    etrans; [apply Permutation_app_comm|]. by rewrite take_drop.
Qed.

(** ** The recursion *)

Definition sorts (k : nat) : Prop := ∀ m a l,
  Forall elem_ok l → (0 < length l < k)%nat → (length l * w)%nat < 2 ^ 64 →
  ∃ l', qsort_loop cmp w (img m a l) a (length l) k = Ok (img m a l') ∧
    l' ≡ₚ l ∧ (ordered → StronglySorted le l').

Lemma short_sorted l : (length l ≤ 1)%nat → StronglySorted le l.
Proof. destruct l as [|u [|v l]]; cbn; intros; [constructor|repeat constructor|lia]. Qed.

(** Sorting a part of the array leaves the rest as it is. *)
Lemma sort_part k m a P X S :
  sorts k → Forall elem_ok (P ++ X ++ S) → (length X < k)%nat → (length X * w)%nat < 2 ^ 64 →
  ∃ X', (if w <? length X * w then
           qsort_loop cmp w (img m a (P ++ X ++ S)) (ptr a (length P)) (length X * w / w) k
         else Ok (img m a (P ++ X ++ S))) = Ok (img m a (P ++ X' ++ S)) ∧
    X' ≡ₚ X ∧ (ordered → StronglySorted le X').
Proof.
  intros Hs Hok Hk Hf. destruct (Z.ltb_spec w (length X * w)) as [Hlt|Hge].
  - rewrite Z.div_mul by lia. pose proof Hok as Hok'. rewrite !Forall_app in Hok'. destruct Hok' as (_ & HX & _).
    destruct (Hs (img m a (P ++ X ++ S)) (ptr a (length P)) X) as (X' & E & HX' & Hsort); [done|nia|done|].
    rewrite (img_sub m a P X X S) in E by done. exists X'. split; [|done].
    rewrite E, img_sub; [done|done|by rewrite HX'|by rewrite HX'].
  - exists X. split; [done|]. split; [done|]. intros _. apply short_sorted. nia.
Qed.

(** A recursive call is not made for fewer than two elements. *)
Lemma rec_guard {A} (d : nat) (r r' : A) :
  (if w <? d * w then if d * w / w <? 2 then r else r' else r) = if w <? d * w then r' else r.
Proof.
  destruct (Z.ltb_spec w (d * w)); [|done]. rewrite Z.div_mul by lia.
  by rewrite (proj2 (Z.ltb_ge _ 2)) by nia.
Qed.

Lemma sorted_parts x L E G :
  ordered → Forall (λ u, c u x < 0) L → Forall (λ u, u = x ∨ c u x = 0) E → Forall (λ u, 0 < c u x) G →
  StronglySorted le L → StronglySorted le G → StronglySorted le (L ++ E ++ G).
Proof.
  intros [Hanti Htrans] HL HE HG SL SG. rewrite Forall_forall in HL, HE, HG.
  assert (c x x = 0) as Hxx by (pose proof (Hanti x x); lia).
  assert (∀ u, u ∈ E → le u x ∧ le x u) as HE'.
  { intros u Hu. destruct (HE u Hu) as [->|Hz]; unfold le; [lia|].
    pose proof (Hanti u x). pose proof (Hanti x u). lia. }
  assert (∀ u, u ∈ L → le u x) as HL' by (intros u Hu; specialize (HL u Hu); unfold le; lia).
  assert (∀ u, u ∈ G → le x u) as HG' by (intros u Hu; specialize (HG u Hu); apply Hanti in HG; unfold le; lia).
  assert (StronglySorted le E) as SE.
  { clear -HE' Htrans. induction E as [|u E IH]; constructor; [apply IH; set_solver|].
    apply Forall_forall. intros v Hv. apply (Htrans u x v); apply HE'; set_solver. }
  apply StronglySorted_app. split_and!; [|done|apply StronglySorted_app; split_and!; [|done..]].
  - intros u v Hu [Hv|Hv]%elem_of_app; apply (Htrans u x v); auto; by apply HE'.
  - intros u v Hu Hv. apply (Htrans u x v); [by apply HE'|auto].
Qed.

(** The two block swaps bring the elements equal to the pivot to the middle. *)
Lemma gather_ok m a l x pa pc pd :
  part l x pa (S pc) pc pd → (length l * w)%nat < 2 ^ 64 →
  let d1 := Z.min (ptr a pa - a) (ptr a (S pc) - ptr a pa) in
  let pn := a + length l * w in
  let d2 := Z.min (ptr a pd - ptr a pc) (pn - ptr a pd - w) in
  ∃ l1 L E G, vecswap (img m a l) a (ptr a (S pc) - d1) d1 = Ok (img m a l1) ∧
    vecswap (img m a l1) (ptr a (S pc)) (pn - d2) d2 = Ok (img m a (L ++ E ++ G)) ∧
    L ++ E ++ G ≡ₚ l ∧ length L = (S pc - pa)%nat ∧ length G = (pd - pc)%nat ∧
    Forall (λ u, c u x < 0) L ∧ Forall (λ u, u = x ∨ c u x = 0) E ∧ Forall (λ u, 0 < c u x) G.
Proof.
  intros Hp Hf d1 pn d2. pose proof (part_ok _ _ _ _ _ _ Hp) as Hok.
  pose proof (part_range _ _ _ _ _ _ Hp) as Hr.
  destruct (part_split l x pa pc pd Hp) as (E & L & G & E2 & El & HlE & HlL & HlG & HE & HL & HG).
  assert (length l = (S pd + length E2)%nat) as Hn by (rewrite El, !length_app; lia).
  destruct (exchange_runs E L) as (U & B & V & L' & E' & EL & HU & HV & EL' & PL & PE).
  destruct (exchange_runs G E2) as (U2 & B2 & V2 & E2' & G' & EG & HU2 & HV2 & EG' & PE2 & PG).
  pose proof (f_equal length EL) as EL_len. rewrite !length_app in EL_len.
  pose proof (f_equal length EG) as EG_len. rewrite !length_app in EG_len.
  assert (l = [] ++ U ++ B ++ V ++ G ++ E2) as El1.
  { rewrite El, (assoc_L (++) E), EL. by rewrite <- !(assoc_L (++)). }
  assert (V ++ B ++ U ++ G ++ E2 = (L' ++ E') ++ U2 ++ B2 ++ V2 ++ []) as El2.
  { rewrite <- EL', app_nil_r, <- EG. by rewrite <- !(assoc_L (++)). }
  assert (Hok1 : Forall elem_ok (V ++ B ++ U ++ G ++ E2)).
  { rewrite El1 in Hok. rewrite !Forall_app in *. tauto. }
  exists (V ++ B ++ U ++ G ++ E2), L', (E' ++ E2'), G'. split_and!.
  - replace d1 with (length U * w) by (unfold d1; rewrite HU; nia).
    replace a with (ptr a (length (@nil (list Z)))) at 2 by (cbn; lia).
    replace (ptr a (S pc) - length U * w) with (ptr a (length (@nil (list Z)) + length U + length B)) by (cbn [length]; nia).
    rewrite El1 at 1. apply (vecswap_img m a [] U B V (G ++ E2)); [by rewrite <- El1|done|nia].
  - replace d2 with (length U2 * w) by (unfold d2, pn; rewrite HU2; nia).
    assert (length (L' ++ E') = S pc) as HP by (rewrite length_app, PL, PE; lia).
    rewrite <- HP.
    replace (pn - length U2 * w) with (ptr a (length (L' ++ E') + length U2 + length B2)) by (unfold pn; rewrite HP; nia).
    rewrite El2 in Hok1 |- *. rewrite vecswap_img; [|done|done|nia].
    rewrite app_nil_r, EG'. by rewrite <- !(assoc_L (++)).
  - rewrite El, PL, PE, PE2, PG. rewrite !(assoc_L (++)), (Permutation_app_comm L E).
    rewrite <- !(assoc_L (++)). do 2 apply Permutation_app_head. apply Permutation_app_comm.
  - by rewrite PL.
  - by rewrite PG.
  - by rewrite PL.
  - by rewrite PE, PE2.
  - by rewrite PG.
Qed.

(** The two outer parts are sorted, the shorter one first. *)
Lemma sort_both k m a L E G :
  sorts k → Forall elem_ok (L ++ E ++ G) → (length L < k)%nat → (length G < k)%nat →
  ((length L + length E + length G) * w)%nat < 2 ^ 64 →
  let d1 := length L * w in
  let d2 := length G * w in
  let pn := ptr a (length L + length E + length G) in
  let rec m a d := if d / w <? 2 then Ok m else qsort_loop cmp w m a (d / w) k in
  ∃ L' G',
    (if d1 <=? d2 then
       m ← (if w <? d1 then rec (img m a (L ++ E ++ G)) a d1 else Ok (img m a (L ++ E ++ G)));
       if w <? d2 then qsort_loop cmp w m (pn - d2) (d2 / w) k else Ok m
     else
       m ← (if w <? d2 then rec (img m a (L ++ E ++ G)) (pn - d2) d2 else Ok (img m a (L ++ E ++ G)));
       if w <? d1 then qsort_loop cmp w m a (d1 / w) k else Ok m) = Ok (img m a (L' ++ E ++ G')) ∧
    L' ≡ₚ L ∧ G' ≡ₚ G ∧ (ordered → StronglySorted le L') ∧ (ordered → StronglySorted le G').
Proof.
  intros Hs Hok HkL HkG Hf d1 d2 pn rec. unfold rec, d1, d2. rewrite !rec_guard.
  assert (HsL : ∀ G', G' ≡ₚ G → ∃ L', (if w <? length L * w then
      qsort_loop cmp w (img m a (L ++ E ++ G')) a (length L * w / w) k else Ok (img m a (L ++ E ++ G'))) =
      Ok (img m a (L' ++ E ++ G')) ∧ L' ≡ₚ L ∧ (ordered → StronglySorted le L')).
  { intros G' HG'. pose proof (sort_part k m a [] L (E ++ G')) as Hsp. cbn [length app] in Hsp.
    rewrite ptr_0 in Hsp. apply Hsp; [done|by rewrite HG'|done|nia]. }
  assert (HsG : ∀ L', L' ≡ₚ L → ∃ G', (if w <? length G * w then
      qsort_loop cmp w (img m a (L' ++ E ++ G)) (pn - length G * w) (length G * w / w) k
      else Ok (img m a (L' ++ E ++ G))) =
      Ok (img m a (L' ++ E ++ G')) ∧ G' ≡ₚ G ∧ (ordered → StronglySorted le G')).
  { intros L' HL'. destruct (sort_part k m a (L' ++ E) G []) as (G' & Eq & PG & SG);
      [done|by rewrite app_nil_r, <- (assoc_L (++)), HL'|done|nia|].
    rewrite !app_nil_r, <- !(assoc_L (++)) in Eq. exists G'. split; [|done].
    replace (pn - length G * w) with (ptr a (length (L' ++ E))); [done|].
    rewrite length_app, HL'. unfold pn. lia. }
  destruct (Z.leb_spec (length L * w) (length G * w)).
  - destruct (HsL G) as (L' & -> & PL & SL); [done|]. cbn [mbind res_bind].
    destruct (HsG L') as (G' & -> & PG & SG); [done|]. by exists L', G'.
  - destruct (HsG L) as (G' & -> & PG & SG); [done|]. cbn [mbind res_bind].
    destruct (HsL G') as (L' & -> & PL & SL); [done|]. by exists L', G'.
Qed.

(** Every call sorts, with one unit of fuel per element and one to spare. *)
Lemma qsort_loop_ok k : sorts k.
Proof.
  induction k as [|k IH]; intros m a l Hok Hk Hf; [lia|]. cbn [qsort_loop].
  assert (Hins : ∀ l', l' ≡ₚ l → ∃ l'', insertion cmp w (img m a l') a (length l) (a + w) (S (Z.to_nat (length l))) =
    Ok (img m a l'') ∧ l'' ≡ₚ l ∧ (ordered → StronglySorted le l'')).
  { intros l' Hl. destruct l' as [|u t]; [rewrite <- Hl in Hk; cbn in Hk; lia|].
    destruct (insertion_ok m a (length l) [u] t (S (Z.to_nat (length l)))) as (l'' & E & Hl'' & Hs);
      [by rewrite Hl|by rewrite <- Hl|rewrite <- Hl; cbn; lia|].
    exists l''. replace (a + w) with (ptr a (length [u])) by (cbn; lia).
    split_and!; [done|by rewrite Hl''|]. intros Ho. apply Hs; [done|by apply short_sorted]. }
  destruct (Z.ltb_spec (length l) 7) as [H7|H7]; [by apply Hins|].
  destruct (pivot_ok m a l) as (i & Hi & ->); [done|lia|]. cbn [mbind res_bind].
  pose proof (swapfunc_img m a l 0 i Hok ltac:(lia) Hi Hw64) as Esw. rewrite ptr_0 in Esw.
  rewrite Esw. cbn [mbind res_bind].
  set (l1 := swap 0 i l). assert (Hl1 : l1 ≡ₚ l) by apply swap_perm.
  assert (length l1 = length l) as Hn1 by apply length_swap.
  destruct (lookup_lt_is_Some_2 l1 0) as [x Hx]; [lia|].
  assert (part l1 x 1 1 (length l - 1) (length l - 1)) as Hp.
  { split; [by rewrite Hl1|done|lia|..]; intros j Hj; lia. }
  destruct (partition_ok m a l1 x 1 1 (length l - 1) (length l - 1) 0 (S (Z.to_nat (length l)))) as
    (l2 & pa & pb & pc & pd & sc & E & Hp2 & Hl2 & ->); [done|lia|].
  rewrite Hn1 in E.
  replace (a + (length l - 1) * w) with (ptr a (length l - 1)) by lia.
  replace (a + w) with (ptr a 1) by lia. rewrite E. cbn [mbind res_bind].
  assert (l2 ≡ₚ l) as Hl2' by by rewrite Hl2. assert (length l2 = length l) as Hn2 by by rewrite Hl2'.
  destruct (Z.eqb_spec sc 0) as [_|_].
  { replace (ptr a 1) with (a + w) by lia. by apply Hins. }
  destruct (gather_ok m a l2 x pa pc pd Hp2) as (l3 & L & Em & G & E1 & E2 & Hperm & HlL & HlG & HL & HE & HG).
  { by rewrite Hn2. }
  cbn zeta in E1, E2. rewrite Hn2 in E2. rewrite E1. cbn [mbind res_bind]. rewrite E2. cbn [mbind res_bind].
  pose proof (part_range _ _ _ _ _ _ Hp2) as Hr.
  assert (length l = length L + length Em + length G)%nat as Hsum.
  { rewrite <- Hn2, <- Hperm, !length_app. lia. }
  replace (ptr a (S pc) - ptr a pa) with (length L * w) by nia.
  replace (ptr a pd - ptr a pc) with (length G * w) by nia.
  destruct (sort_both k m a L Em G) as (L' & G' & E3 & PL & PG & SL & SG);
    [done|by rewrite Hperm, Hl2'|lia|lia|nia|].
  rewrite <- Hsum in E3. rewrite E3. exists (L' ++ Em ++ G'). split; [done|].
  split; [by rewrite PL, PG, Hperm|]. intros Ho. apply (sorted_parts x); auto; by rewrite ?PL, ?PG.
Qed.

End array.

(** C35. [qsort] on an array of [n] elements of [es] bytes returns (its loops
    and its recursion end, for every comparison function that is a function of
    the bytes of its two elements, even one that is not an order), touches no
    byte outside of the array, and leaves a permutation of the elements there;
    when the comparison is a total preorder the result is sorted. *)
Theorem qsort_correct cmp (es : nat) (c : list Z → list Z → Z) m a l :
  (0 < es)%nat →
  (∀ m x y u v, bytes_at m x u → bytes_at m y v → length u = es → length v = es → cmp m x y = Ok (c u v)) →
  bytes_at m a (concat l) → Forall (elem_ok es) l → (length l * es)%nat < 2 ^ 64 →
  ∃ l', qsort cmp m a (length l) es = Ok (set_bytes m a (concat l')) ∧
    l' ≡ₚ l ∧ (ordered c → StronglySorted (le c) l').
Proof.
  intros Hes Hcmp Hat Hok Hf. unfold qsort, local_qsort.
  destruct (Z.ltb_spec (length l) 2) as [Hn|Hn].
  { exists l. rewrite set_bytes_self by done. split_and!; [done..|]. intros _.
    destruct l as [|u [|]]; cbn in Hn; [constructor|repeat constructor|lia]. }
  destruct (qsort_loop_ok cmp es c Hes Hcmp ltac:(nia) (S (Z.to_nat (length l))) m a l) as (l' & E & Hl);
    [done|lia|done|].
  exists l'. split; [|done]. unfold img in E. by rewrite set_bytes_self in E.
Qed.

(** Bytes compared as unsigned numbers. *)
Definition cmp_byte (m : mem) (x y : Z) : res Z := u ← load m x; v ← load m y; Ok (u - v).
Definition c_byte (u v : list Z) : Z := default 0 (head u) - default 0 (head v).

Lemma qsort_correct_witness :
  ordered c_byte ∧
  qsort cmp_byte (set_bytes ∅ 64 [3; 9; 1; 7; 3; 8; 2; 0; 200; 5; 3]) 64 11 1 =
    Ok (set_bytes ∅ 64 [0; 1; 2; 3; 3; 3; 5; 7; 8; 9; 200]) ∧
  ∃ l', qsort cmp_byte (set_bytes ∅ 64 [3; 9; 1; 7; 3; 8; 2; 0; 200; 5; 3]) 64 11 1 =
      Ok (set_bytes (set_bytes ∅ 64 [3; 9; 1; 7; 3; 8; 2; 0; 200; 5; 3]) 64 (concat l')) ∧
    l' ≡ₚ [[3]; [9]; [1]; [7]; [3]; [8]; [2]; [0]; [200]; [5]; [3]] ∧
    (ordered c_byte → StronglySorted (le c_byte) l').
Proof.
  split; [unfold ordered, le, c_byte; split; intros; lia|].
  split; [vm_compute; reflexivity|].
  apply (qsort_correct cmp_byte 1 c_byte (set_bytes ∅ 64 [3; 9; 1; 7; 3; 8; 2; 0; 200; 5; 3]) 64
    [[3]; [9]; [1]; [7]; [3]; [8]; [2]; [0]; [200]; [5]; [3]]).
  - lia.
  - intros m x y [|u [|]] [|v [|]] Hu Hv; try done. intros _ _. unfold cmp_byte, load.
    cbn in Hu, Hv. destruct Hu as [-> _], Hv as [-> _]. reflexivity.
  - apply (bytes_at_set_eq ∅ 64 [3; 9; 1; 7; 3; 8; 2; 0; 200; 5; 3]).
  - unfold elem_ok. repeat constructor; cbn; lia.
  - cbn. lia.
Defined.

End Qsort.
