(* ===== verification/Queue.v ===== *)
(** * Linked queues (lib/queue.c)

    [QUEUE_T(T)] for any element type.  The heap has the nodes and the queue
    headers; the allocator and the deallocator are arguments, as they are in C,
    and [Alloc] says what the functions passed for them do. *)

From S2P Require Import Prelude Mem.

Module Queue.

Definition QUEUE_UNINITIALIZED : Z := -1.
Definition QUEUE_SUCCESS : Z := 0.
Definition QUEUE_EMPTY : Z := 1.
Definition QUEUE_OOM : Z := 2.
Definition QUEUE_FULL : Z := 3.

Section queue.
Context {T : Type}.

Record queue_node := mknode { data : T; next : Z }.
Record queue := mkqueue { front : Z; rear : Z; qsize : Z }.
Record heap := mkheap { nodes : gmap Z queue_node; queues : gmap Z queue }.

Definition set_nodes v (h : heap) : heap := mkheap v (queues h).
Definition set_queues v (h : heap) : heap := mkheap (nodes h) v.

Abbreviation Q := (M heap).

Definition the_queue (q : Z) : Q queue := λ h, from_option (queues h !! q) h.
Definition the_node (p : Z) : Q queue_node := λ h, from_option (nodes h !! p) h.
Definition put_queue (q : Z) (v : queue) : Q unit :=
  _ ← the_queue q; modify (λ h, set_queues (<[q := v]> (queues h)) h).
Definition put_next (p v : Z) : Q unit :=
  n ← the_node p; modify (λ h, set_nodes (<[p := mknode (data n) v]> (nodes h)) h).

(** The memory an allocator returns becomes an object on the first store. *)
Definition new_queue (q : Z) (v : queue) : Q unit := modify (λ h, set_queues (<[q := v]> (queues h)) h).
Definition new_node (p : Z) (v : queue_node) : Q unit := modify (λ h, set_nodes (<[p := v]> (nodes h)) h).

Section ops.
Context (allocator : Q Z) (deallocator : Z → Q unit).

Definition create_queue : Q Z :=
  q ← allocator;
  if q =? NULL then mret NULL
  else
    _ ← new_queue q (mkqueue NULL NULL 0);
    mret q.

Definition is_initialized (q : Z) : bool := negb (q =? NULL).

Definition is_empty (q : Z) : Q bool :=
  v ← the_queue q;
  mret (qsize v =? 0).

Definition enqueue (q : Z) (value : T) (limit : Z) : Q Z :=
  if negb (is_initialized q) then mret QUEUE_UNINITIALIZED
  else
    v ← the_queue q;
    if limit <=? qsize v then mret QUEUE_FULL
    else
      p ← allocator;
      if p =? NULL then mret QUEUE_OOM
      else
        _ ← new_node p (mknode value NULL);
        e ← is_empty q;
        _ ← (if (e : bool) then put_queue q (mkqueue p (rear v) (qsize v)) else put_next (rear v) p);
        v ← the_queue q;
        _ ← put_queue q (mkqueue (front v) p (u64 (qsize v + 1)));
        mret QUEUE_SUCCESS.

(** The element goes where [data] points, if it is not [NULL]: [want]. *)
Definition dequeue (q : Z) (want : bool) : Q (Z * option T) :=
  if negb (is_initialized q) then mret (QUEUE_UNINITIALIZED, None)
  else
    e ← is_empty q;
    if (e : bool) then mret (QUEUE_EMPTY, None)
    else
      v ← the_queue q;
      let temp := front v in
      n ← the_node temp;
      _ ← put_queue q (mkqueue (next n) (if next n =? NULL then NULL else rear v) (qsize v));
      _ ← (if temp =? NULL then mret tt else deallocator temp);
      v ← the_queue q;
      _ ← put_queue q (mkqueue (front v) (rear v) (u64 (qsize v - 1)));
      mret (QUEUE_SUCCESS, if want then Some (data n) else None).

Fixpoint clean_loop (q : Z) (k : nat) : Q unit :=
  match k with
  | O => fail EFuel
  | S k =>
      e ← is_empty q;
      if (e : bool) then mret tt else _ ← dequeue q false; clean_loop q k
  end.

(** One turn per element, and one to leave. *)
Definition clean_queue (q : Z) : Q unit :=
  if negb (is_initialized q) then mret tt
  else
    v ← the_queue q;
    clean_loop q (S (Z.to_nat (qsize v))).

Definition free_queue (q : Z) : Q unit :=
  _ ← clean_queue q;
  if is_initialized q then deallocator q else mret tt.

(** ** What the allocator and the deallocator do

    The allocator returns [NULL] or an address no object has; the deallocator
    takes away the object at its argument. *)
Class Alloc := {
  alloc_law h : wp allocator (λ p h', h' = h ∧
    (p = NULL ∨ p ≠ NULL ∧ nodes h !! p = None ∧ queues h !! p = None)) h;
  dealloc_law h p :
    wp (deallocator p) (λ _ h', h' = mkheap (delete p (nodes h)) (delete p (queues h))) h;
}.

End ops.

(** ** The queue as a list

    The nodes [ps] from [p] on are linked in order, hold the elements [l] and
    end in [NULL]. *)
Fixpoint chain (h : heap) (p : Z) (ps : list Z) (l : list T) : Prop :=
  match ps, l with
  | [], [] => p = NULL
  | x :: ps, v :: l => p = x ∧ p ≠ NULL ∧ ∃ nx, nodes h !! p = Some (mknode v nx) ∧ chain h nx ps l
  | _, _ => False
  end.

Record rep (h : heap) (q : Z) (ps : list Z) (l : list T) : Prop := {
  rep_init : q ≠ NULL;
  rep_head : ∃ f, queues h !! q = Some (mkqueue f (default NULL (last ps)) (length l)) ∧ chain h f ps l;
  rep_nodup : NoDup ps;
  rep_apart : Forall (λ p, queues h !! p = None) ps;
  rep_self : nodes h !! q = None;
  rep_size : length l < 2 ^ 64;
}.

Lemma chain_length h p ps l : chain h p ps l → length ps = length l.
Proof.
  revert p l. induction ps as [|x ps IH]; intros p [|v l]; try done.
  intros (? & ? & nx & ? & ?). cbn. f_equal. by eapply IH.
Qed.

Lemma chain_frame h h' p ps l :
  Forall (λ x, nodes h' !! x = nodes h !! x) ps → chain h p ps l → chain h' p ps l.
Proof.
  revert p l. induction ps as [|x ps IH]; intros p [|v l] HF; try done.
  apply Forall_cons in HF as [Hx HF]. intros (-> & ? & nx & E & Hc).
  split; [done|]. split; [done|]. exists nx. split; [by rewrite Hx|]. by apply IH.
Qed.

Lemma chain_node h p ps l x : chain h p ps l → x ∈ ps → is_Some (nodes h !! x) ∧ x ≠ NULL.
Proof.
  revert p l. induction ps as [|y ps IH]; intros p [|v l] Hc Hx; [set_solver|done..|].
  destruct Hc as (-> & ? & nx & E & Hc). apply elem_of_cons in Hx as [->|Hx].
  - by rewrite E.
  - by eapply IH.
Qed.

(** Linking a fresh node behind the last one appends an element. *)
Lemma chain_snoc h p ps l x v n :
  chain h p (ps ++ [x]) l → nodes h !! x = Some n → NoDup (ps ++ [x]) →
  ∀ y, y ≠ NULL → y ∉ ps ++ [x] →
  chain (set_nodes (<[x := mknode (data n) y]> (<[y := mknode v NULL]> (nodes h))) h) p
    ((ps ++ [x]) ++ [y]) (l ++ [v]).
Proof.
  intros Hc Hn Hnd y Hy Hny. revert p l Hc Hnd Hny.
  induction ps as [|z ps IH]; intros p [|w l] Hc Hnd Hny; try done.
  - destruct Hc as (-> & ? & nx & E & Hc). destruct l; [|done]. simplify_eq/=.
    split_and!; [done..|]. eexists. rewrite lookup_insert_eq. split; [done|].
    split_and!; [done..|]. eexists. rewrite lookup_insert_ne, lookup_insert_eq by set_solver. done.
  - destruct Hc as (-> & ? & nx & E & Hc). cbn [app] in *.
    apply NoDup_cons in Hnd as [Hz Hnd].
    split_and!; [done..|]. exists nx. split.
    + cbn. rewrite !lookup_insert_ne by set_solver. done.
    + apply IH; [done|done|set_solver].
Qed.

End queue.

Arguments queue_node : clear implicits.
Arguments heap : clear implicits.

Section correct.
Context {T : Type} (allocator : M (heap T) Z) (deallocator : Z → M (heap T) unit).
Context `{!Alloc allocator deallocator}.
Implicit Types (h : heap T) (l : list T) (ps : list Z).

Lemma wp_the_queue h q v Q : queues h !! q = Some v → Q v h → wp (the_queue q) Q h.
Proof. unfold wp, the_queue. by intros ->. Qed.

Lemma wp_the_node h p v Q : nodes h !! p = Some v → Q v h → wp (the_node p) Q h.
Proof. unfold wp, the_node. by intros ->. Qed.

Lemma wp_put_queue h q v Q :
  is_Some (queues h !! q) → Q tt (set_queues (<[q := v]> (queues h)) h) → wp (put_queue q v) Q h.
Proof. intros [w Hw] HQ. apply wp_bind. by eapply wp_the_queue; [done|]. Qed.

Lemma wp_put_next h p n v Q :
  nodes h !! p = Some n → Q tt (set_nodes (<[p := mknode (data n) v]> (nodes h)) h) →
  wp (put_next p v) Q h.
Proof. intros Hn HQ. apply wp_bind. by eapply wp_the_node; [done|]. Qed.

Lemma wp_is_empty h q v Q : queues h !! q = Some v → Q (qsize v =? 0) h → wp (is_empty q) Q h.
Proof. intros Hn HQ. apply wp_bind. by eapply wp_the_queue; [done|]. Qed.

Lemma initialized q : q ≠ NULL → is_initialized q = true.
Proof. unfold is_initialized. by intros ->%Z.eqb_neq. Qed.

(** Only the header [q] and the nodes [ps] changed. *)
Definition framed h h' (q : Z) (ps : list Z) : Prop :=
  (∀ x, x ∉ ps → nodes h' !! x = nodes h !! x) ∧ (∀ x, x ≠ q → queues h' !! x = queues h !! x).

(** What happens to one queue is not seen by another. *)
Lemma rep_frame h h' q ps q2 ps2 l2 :
  framed h h' q ps → rep h q2 ps2 l2 → q2 ≠ q → q2 ∉ ps → ps2 ## ps → q ∉ ps2 → rep h' q2 ps2 l2.
Proof.
  intros [Hn Hq] [Hi (f & Hf & Hc) Hnd Ha Hs Hz] Hne Hq2 Hdisj Hqn. split; try done.
  - exists f. rewrite Hq by done. split; [done|]. revert Hc. apply chain_frame.
    apply Forall_forall. intros x Hx. apply Hn. set_solver.
  - apply Forall_forall. intros x Hx. rewrite Hq by set_solver. by eapply Forall_forall in Ha.
  - by rewrite Hn.
Qed.

Lemma last_snoc_nodes h f ps l : chain h f ps l → l ≠ [] → ∃ ps' x n,
  ps = ps' ++ [x] ∧ nodes h !! x = Some n ∧ x ≠ NULL.
Proof.
  intros Hc Hl. assert (length ps = length l) by by eapply chain_length.
  destruct ps as [|x ps' _] using rev_ind; [by destruct l|].
  destruct (chain_node h f (ps' ++ [x]) l x Hc) as [[n Hn] ?]; [set_solver|].
  by exists ps', x, n.
Qed.

(** The heap after a node has been linked in. *)
Lemma chain_link h f ps l p v :
  chain h f ps l → NoDup ps → l ≠ [] → p ≠ NULL → p ∉ ps →
  ∃ n, default NULL (last ps) ∈ ps ∧ nodes h !! default NULL (last ps) = Some n ∧
    chain (set_nodes (<[default NULL (last ps) := mknode (data n) p]> (<[p := mknode v NULL]> (nodes h))) h)
      f (ps ++ [p]) (l ++ [v]).
Proof.
  intros Hc Hnd Hl Hp Hin. destruct (last_snoc_nodes _ _ _ _ Hc Hl) as (ps' & x & n & -> & Hx & ?).
  rewrite last_snoc. cbn [default]. exists n. split; [set_solver|]. split; [done|].
  by apply (chain_snoc h f ps' l x v n).
Qed.

(** A heap that differs in the header and the linked nodes has the longer queue. *)
Lemma enqueue_rep h h' q ps l f p v :
  rep h q ps l → length l + 1 < 2 ^ 64 → p ∉ ps → nodes h !! p = None → queues h !! p = None →
  queues h' = <[q := mkqueue f p (u64 (length l + 1))]> (queues h) →
  (∀ x, x ∉ ps ++ [p] → nodes h' !! x = nodes h !! x) →
  chain h' f (ps ++ [p]) (l ++ [v]) →
  rep h' q (ps ++ [p]) (l ++ [v]) ∧ framed h h' q (ps ++ [p]).
Proof.
  intros [Hi (f0 & Hf & _) Hnd Ha Hs Hz] Hlen Hpin Hpn Hpq Hq Hn Hc.
  assert (p ≠ q) by (intros ->; simplify_eq).
  assert (q ∉ ps) by (intros Hin; eapply Forall_forall in Ha; [|exact Hin]; simplify_eq).
  split; [split|split].
  - done.
  - exists f. split; [|done]. rewrite Hq, lookup_insert_eq, last_snoc, wrap_small by lia.
    rewrite length_app. cbn. do 2 f_equal. lia.
  - apply NoDup_app. split_and!; [done|set_solver|apply NoDup_singleton].
  - apply Forall_app. rewrite Forall_singleton, Hq. split; [|by rewrite lookup_insert_ne by done].
    apply Forall_forall. intros x Hx. rewrite lookup_insert_ne by set_solver. by eapply Forall_forall in Ha.
  - rewrite Hn; [done|set_solver].
  - rewrite length_app. cbn. lia.
  - done.
  - intros x Hx. by rewrite Hq, lookup_insert_ne by done.
Qed.

Lemma enqueue_law h q ps l v limit :
  rep h q ps l → limit < 2 ^ 64 →
  wp (enqueue allocator q v limit) (λ r h',
    (limit ≤ length l ∧ r = QUEUE_FULL ∧ h' = h) ∨
    (length l < limit ∧ r = QUEUE_OOM ∧ h' = h) ∨
    (length l < limit ∧ r = QUEUE_SUCCESS ∧ ∃ p, nodes h !! p = None ∧ queues h !! p = None ∧
       rep h' q (ps ++ [p]) (l ++ [v]) ∧ framed h h' q (ps ++ [p]))) h.
Proof.
  intros Hrep Hlim. pose proof Hrep as [Hi (f & Hf & Hc) Hnd _ _ _].
  unfold enqueue. rewrite initialized by done. cbn [negb].
  apply wp_bind. eapply wp_the_queue; [done|]. cbn [qsize rear front].
  destruct (Z.leb_spec limit (length l)) as [Hle|Hlt]; [left; auto|].
  apply wp_bind. eapply wp_mono; [apply (alloc_law allocator deallocator)|].
  intros p h' [-> [->|(Hp & Hpn & Hpq)]]; [right; left; auto|].
  assert (p ∉ ps) as Hpin.
  { intros Hin. eapply chain_node in Hin as [[? ?] _]; [|done]. simplify_eq. }
  rewrite (proj2 (Z.eqb_neq p NULL)) by done.
  apply wp_bind, wp_modify. apply wp_bind. eapply wp_is_empty; [done|]. cbn [qsize].
  destruct (Z.eqb_spec (length l) 0) as [E|E].
  - apply wp_bind, wp_put_queue; [done|].
    apply wp_bind. eapply wp_the_queue; [cbn; by rewrite lookup_insert_eq|].
    apply wp_bind, wp_put_queue; [cbn; by rewrite lookup_insert_eq|]. apply wp_ret.
    right; right. split; [done|]. split; [done|]. exists p. split; [done|]. split; [done|].
    eapply (enqueue_rep h _ q ps l p); [done|lia|done..| | |].
    + cbn. by rewrite insert_insert_eq.
    + intros x Hx. cbn. rewrite lookup_insert_ne; [done|set_solver].
    + destruct l; [|cbn in E; lia]. destruct ps; [|done]. cbn. split_and!; [done..|].
      exists NULL. by rewrite lookup_insert_eq.
  - destruct (chain_link h f ps l p v) as (n & Hin & Hn & Hc'); [done|done|by intros ->|done|done|].
    assert (p ≠ default NULL (last ps)) by set_solver.
    apply wp_bind. eapply wp_put_next; [cbn; by rewrite lookup_insert_ne by done|].
    apply wp_bind. eapply wp_the_queue; [done|].
    apply wp_bind, wp_put_queue; [done|]. apply wp_ret.
    right; right. split; [done|]. split; [done|]. exists p. split; [done|]. split; [done|].
    eapply (enqueue_rep h _ q ps l f); [done|lia|done..| |].
    + intros x Hx. cbn. rewrite !lookup_insert_ne; [done|set_solver..].
    + revert Hc'. by apply chain_frame, Forall_forall.
Qed.

Lemma dequeue_empty_law h q ps want :
  rep h q ps [] → wp (dequeue deallocator q want) (λ r h', r = (QUEUE_EMPTY, None) ∧ h' = h) h.
Proof.
  intros [Hi (f & Hf & Hc) _ _ _ _]. unfold dequeue. rewrite initialized by done. cbn [negb].
  apply wp_bind. by eapply wp_is_empty.
Qed.

Lemma dequeue_law h q p ps v l want :
  rep h q (p :: ps) (v :: l) →
  wp (dequeue deallocator q want) (λ r h',
    r = (QUEUE_SUCCESS, if want then Some v else None) ∧
    rep h' q ps l ∧ framed h h' q [p] ∧ nodes h' !! p = None) h.
Proof.
  intros [Hi (f & Hf & Hc) Hnd Ha Hs Hz]. destruct Hc as (-> & Hp & nx & Hn & Hc).
  apply NoDup_cons in Hnd as [Hpin Hnd]. apply Forall_cons in Ha as [Hpq Ha].
  assert (p ≠ q) by (intros ->; simplify_eq).
  assert (q ∉ ps) by (intros Hin; eapply Forall_forall in Ha; [|exact Hin]; simplify_eq).
  unfold dequeue. rewrite initialized by done. cbn [negb].
  apply wp_bind. eapply wp_is_empty; [done|]. cbn [qsize length].
  rewrite (proj2 (Z.eqb_neq _ 0)) by lia.
  apply wp_bind. eapply wp_the_queue; [done|]. cbn [front rear qsize].
  apply wp_bind. eapply wp_the_node; [done|]. cbn [next data].
  apply wp_bind, wp_put_queue; [done|]. rewrite (proj2 (Z.eqb_neq p NULL)) by done.
  apply wp_bind. eapply wp_mono; [apply (dealloc_law allocator deallocator)|]. intros _ h' ->. cbn [nodes queues set_queues].
  apply wp_bind. eapply wp_the_queue.
  { cbn. by rewrite lookup_delete_ne, lookup_insert_eq by done. }
  apply wp_bind, wp_put_queue; [cbn; by rewrite lookup_delete_ne, lookup_insert_eq by done|].
  apply wp_ret. split; [done|]. cbn [front rear qsize]. split; [split|split; [split|]]; cbn; try done.
  - exists nx. rewrite lookup_insert_eq. rewrite wrap_small by (cbn in Hz; lia). split.
    + do 2 f_equal; [|cbn; lia]. destruct ps as [|x ps]; [destruct l; [by rewrite Hc|done]|].
      destruct l as [|w l]; [done|]. destruct Hc as (-> & Hx & _).
      by rewrite (proj2 (Z.eqb_neq x NULL)).
    + revert Hc. apply chain_frame, Forall_forall. intros x Hx. cbn.
      by rewrite lookup_delete_ne by set_solver.
  - apply Forall_forall. intros x Hx. rewrite lookup_insert_ne, lookup_delete_ne, lookup_insert_ne by set_solver.
    by eapply Forall_forall in Ha.
  - by rewrite lookup_delete_ne.
  - cbn in Hz. lia.
  - intros x Hx. rewrite lookup_delete_ne; [done|set_solver].
  - intros x Hx. destruct (decide (x = p)) as [->|].
    + by rewrite lookup_insert_ne, lookup_delete_eq.
    + by rewrite lookup_insert_ne, lookup_delete_ne, lookup_insert_ne.
  - by rewrite lookup_delete_eq.
Qed.

Lemma framed_trans h1 h2 h3 q ps1 ps2 :
  framed h1 h2 q ps1 → framed h2 h3 q ps2 → framed h1 h3 q (ps1 ++ ps2).
Proof. intros [H1 G1] [H2 G2]. split; intros; rewrite ?H2, ?H1, ?G2, ?G1 by set_solver; done. Qed.

(** Cleaning returns after one turn per element and frees every node. *)
Lemma clean_law h q ps l :
  rep h q ps l →
  wp (clean_queue deallocator q) (λ _ h',
    rep h' q [] [] ∧ framed h h' q ps ∧ Forall (λ p, nodes h' !! p = None) ps) h.
Proof.
  intros Hrep. pose proof Hrep as [Hi (f & Hf & _) _ _ _ _].
  unfold clean_queue. rewrite initialized by done. cbn [negb].
  apply wp_bind. eapply wp_the_queue; [done|]. cbn [qsize]. rewrite Nat2Z.id. clear Hf Hi f.
  revert h ps Hrep. induction l as [|v l IH]; intros h ps Hrep;
    pose proof Hrep as [Hi (f & Hf & Hc) Hnd _ _ _];
    (apply wp_bind; eapply wp_is_empty; [exact Hf|]; cbn [qsize length]).
  - destruct ps; [|done]. split; [done|]. split; [done|constructor].
  - destruct ps as [|p ps]; [done|]. apply NoDup_cons in Hnd as [Hp _].
    rewrite (proj2 (Z.eqb_neq _ 0)) by lia. apply wp_bind.
    eapply wp_mono; [by apply dequeue_law|]. intros _ h1 (_ & Hrep1 & Hfr & Hpn).
    eapply wp_mono; [by apply IH|]. intros [] h2 (Hrep2 & Hfr2 & HF).
    split; [done|]. split; [by apply (framed_trans h h1 h2 q [p] ps)|].
    constructor; [|done]. destruct Hfr2 as [Hn _]. by rewrite Hn.
Qed.

(** ** Sequences of operations *)

Inductive op :=
| Enqueue (value : T) (limit : Z)
| Dequeue (want : bool)
| Clean.

Definition run_op (q : Z) (o : op) : M (heap T) (Z * option T) :=
  match o with
  | Enqueue v limit => r ← enqueue allocator q v limit; mret (r, None)
  | Dequeue want => dequeue deallocator q want
  | Clean => _ ← clean_queue deallocator q; mret (QUEUE_SUCCESS, None)
  end.

Fixpoint run (q : Z) (os : list op) : M (heap T) (list (Z * option T)) :=
  match os with
  | [] => mret []
  | o :: os => r ← run_op q o; rs ← run q os; mret (r :: rs)
  end.

(** The queue as a list, oldest element first.  Memory may run out whenever an
    element is to be added. *)
Inductive spec_step : list T → op → Z * option T → list T → Prop :=
| spec_full l v limit : limit ≤ length l → spec_step l (Enqueue v limit) (QUEUE_FULL, None) l
| spec_oom l v limit : length l < limit → spec_step l (Enqueue v limit) (QUEUE_OOM, None) l
| spec_enqueue l v limit :
    length l < limit → spec_step l (Enqueue v limit) (QUEUE_SUCCESS, None) (l ++ [v])
| spec_empty want : spec_step [] (Dequeue want) (QUEUE_EMPTY, None) []
| spec_dequeue v l want :
    spec_step (v :: l) (Dequeue want) (QUEUE_SUCCESS, if want then Some v else None) l
| spec_clean l : spec_step l Clean (QUEUE_SUCCESS, None) [].

Inductive spec_run : list T → list op → list (Z * option T) → list T → Prop :=
| spec_done l : spec_run l [] [] l
| spec_more l o r l1 os rs l2 :
    spec_step l o r l1 → spec_run l1 os rs l2 → spec_run l (o :: os) (r :: rs) l2.

Definition limit_ok (o : op) : Prop :=
  match o with Enqueue _ limit => limit < 2 ^ 64 | _ => True end.

(** [h] is [h0] and the queue [q] with its nodes, which [h0] does not have. *)
Definition extends (h0 h : heap T) (q : Z) (l : list T) : Prop :=
  ∃ ps, rep h q ps l ∧ (∀ x, x ∉ ps → nodes h !! x = nodes h0 !! x) ∧
    Forall (λ x, nodes h0 !! x = None) ps ∧ (∀ x, x ≠ q → queues h !! x = queues h0 !! x).

Lemma clean_extends h0 h q l :
  extends h0 h q l → wp (clean_queue deallocator q) (λ _ h', extends h0 h' q []) h.
Proof.
  intros (ps & Hrep & Hn & Hps & Hq). eapply wp_mono; [by eapply clean_law|].
  intros _ h' (Hrep' & (Hn' & Hq') & HF).
  exists []. split; [done|]. split_and!; [|done|].
  - intros x _. destruct (decide (x ∈ ps)) as [Hx|Hx].
    + eapply Forall_forall in HF; [|done]. eapply Forall_forall in Hps; [|done]. cbn in *. congruence.
    + by rewrite Hn', Hn.
  - intros x Hx. by rewrite Hq', Hq.
Qed.

Lemma run_op_law h0 h q l o :
  extends h0 h q l → limit_ok o →
  wp (run_op q o) (λ r h', ∃ l', spec_step l o r l' ∧ extends h0 h' q l') h.
Proof.
  intros Hext Ho. pose proof Hext as (ps & Hrep & Hn & Hps & Hq). destruct o as [v limit|want|]; cbn [run_op].
  - apply wp_bind. eapply wp_mono; [by apply enqueue_law|].
    intros r h' [(? & -> & ->)|[(? & -> & ->)|(? & -> & p & Hp & Hpq & Hrep' & Hn' & Hq')]].
    + exists l. split; [by constructor|]. by exists ps.
    + exists l. split; [by constructor|]. by exists ps.
    + exists (l ++ [v]). split; [by constructor|]. exists (ps ++ [p]). split; [done|]. split_and!.
      * intros x Hx. rewrite Hn' by done. apply Hn. set_solver.
      * apply Forall_app. split; [done|]. apply Forall_singleton.
        destruct (decide (p ∈ ps)); [by eapply Forall_forall in Hps|]. by rewrite <- Hn.
      * intros x Hx. by rewrite Hq', Hq.
  - destruct l as [|v l].
    + eapply wp_mono; [by eapply dequeue_empty_law|]. intros r h' [-> ->].
      exists []. split; [constructor|]. by exists ps.
    + destruct ps as [|p ps]; [by destruct Hrep as [_ (? & ? & ?) _ _ _ _]|].
      eapply wp_mono; [by eapply dequeue_law|]. intros r h' (-> & Hrep' & (Hn' & Hq') & Hp).
      apply Forall_cons in Hps as [Hp0 Hps].
      exists l. split; [constructor|]. exists ps. split; [done|]. split_and!; [|done|].
      * intros x Hx. destruct (decide (x = p)) as [->|]; [by rewrite Hp|].
        rewrite Hn' by set_solver. apply Hn. set_solver.
      * intros x Hx. by rewrite Hq', Hq.
  - apply wp_bind. eapply wp_mono; [by apply (clean_extends h0 h q l)|].
    intros [] h' Hx. exists []. split; [constructor|done].
Qed.

Lemma run_law h0 h q l os :
  extends h0 h q l → Forall limit_ok os →
  wp (run q os) (λ rs h', ∃ l', spec_run l os rs l' ∧ extends h0 h' q l') h.
Proof.
  intros Hx Hos. revert h l Hx. induction Hos as [|o os Ho _ IH]; intros h l Hx; cbn [run].
  - exists l. split; [constructor|done].
  - apply wp_bind. eapply wp_mono; [by eapply run_op_law|]. intros r h1 (l1 & ? & Hx1).
    apply wp_bind. eapply wp_mono; [by eapply IH|]. intros rs h2 (l2 & ? & ?).
    exists l2. split; [by econstructor|done].
Qed.

Lemma create_law h :
  wp (create_queue allocator) (λ q h', q = NULL ∧ h' = h ∨
    q ≠ NULL ∧ queues h !! q = None ∧ nodes h !! q = None ∧ extends h h' q []) h.
Proof.
  unfold create_queue. apply wp_bind. eapply wp_mono; [apply (alloc_law allocator deallocator)|].
  intros q h' [-> [->|(Hq & Hqn & Hqq)]]; [by left|].
  rewrite (proj2 (Z.eqb_neq q NULL)) by done. apply wp_bind, wp_modify, wp_ret. cbn beta. right.
  split_and!; [done..|]. exists []. split.
  - split; cbn; [done| |constructor|constructor|done|done].
    exists NULL. by rewrite lookup_insert_eq.
  - split_and!; [done|constructor|]. intros x Hx. cbn. by rewrite lookup_insert_ne.
Qed.

Lemma free_law h0 h q l :
  extends h0 h q l → queues h0 !! q = None →
  wp (free_queue deallocator q) (λ _ h', h' = h0) h.
Proof.
  intros Hx Hq0. unfold free_queue. apply wp_bind. eapply wp_mono; [by eapply clean_extends|].
  intros _ h1 (ps & [Hi (f & Hf & Hc) _ _ Hs _] & Hn & _ & Hq). destruct ps; [|done].
  rewrite initialized by done. eapply wp_mono; [apply (dealloc_law allocator deallocator)|].
  intros _ h2 ->. destruct h0 as [n0 q0]. cbn in *. f_equal; apply map_eq; intros x.
  - rewrite delete_id by done. apply Hn. set_solver.
  - destruct (decide (x = q)) as [->|]; [by rewrite lookup_delete_eq|].
    by rewrite lookup_delete_ne, Hq.
Qed.

(** A queue behaves as a first-in first-out list over its whole life:
    [create_queue] either returns [NULL] and changes nothing or returns an
    empty queue; then any sequence of [enqueue], [dequeue] and [clean_queue]
    returns (no turn of a loop dereferences [NULL] or runs out of turns) with
    the status codes and elements of the list specification, a full queue and
    exhausted memory included; and [free_queue] at the end gives the heap back
    exactly as it was, so that no node is leaked and none is freed twice. *)
Theorem queue_fifo (h : heap T) (os : list op) :
  Forall limit_ok os →
  wp (create_queue allocator) (λ q h0,
    q = NULL ∧ h0 = h ∨
    q ≠ NULL ∧ wp (run q os) (λ rs h1,
      (∃ l, spec_run [] os rs l) ∧ wp (free_queue deallocator q) (λ _ h2, h2 = h) h1) h0) h.
Proof using Type*.
  intros Hos. eapply wp_mono; [apply create_law|].
  intros q h0 [?|(Hq & Hqq & _ & Hx)]; [by left|]. right. split; [done|].
  eapply wp_mono; [by apply (run_law h h0 q [])|]. intros rs h1 (l & Hl & Hx1).
  split; [by exists l|]. by eapply free_law.
Qed.

End correct.

(** An allocator that returns the next address, and none past 104. *)
Definition next_addr (h : heap Z) : Z := Z.of_nat (size (nodes h) + size (queues h)) + 100.
Definition sample_alloc : M (heap Z) Z := λ h,
  let p := fresh (dom (nodes h) ∪ dom (queues h) ∪ {[NULL]}) in
  Ok (if 104 <? next_addr h then NULL else p, h).
Definition sample_free (p : Z) : M (heap Z) unit :=
  modify (λ h, mkheap (delete p (nodes h)) (delete p (queues h))).

#[local] Instance sample_laws : Alloc sample_alloc sample_free.
Proof.
  split.
  - intros h. split; [done|]. destruct (104 <? next_addr h); [by left|]. right.
    pose proof (is_fresh (dom (nodes h) ∪ dom (queues h) ∪ {[NULL]})) as Hf.
    rewrite !not_elem_of_union, !not_elem_of_dom in Hf. set_solver.
  - done.
Qed.

Lemma queue_fifo_witness :
  wp (create_queue sample_alloc) (λ q h0,
    q = NULL ∧ h0 = mkheap ∅ ∅ ∨
    q ≠ NULL ∧ wp (run sample_alloc sample_free q [Enqueue 5 2; Enqueue 7 2; Enqueue 9 2; Dequeue true]) (λ rs h1,
      (∃ l, spec_run [] [Enqueue 5 2; Enqueue 7 2; Enqueue 9 2; Dequeue true] rs l) ∧
      wp (free_queue sample_free q) (λ _ h2, h2 = mkheap ∅ ∅) h1) h0) (mkheap ∅ ∅) ∧
  (q ← create_queue sample_alloc;
   run sample_alloc sample_free q [Enqueue 5 2; Enqueue 7 2; Enqueue 9 2; Dequeue true]) (mkheap ∅ ∅) ≫=
    (λ '(rs, _), mret rs) =
  Ok [(QUEUE_SUCCESS, None); (QUEUE_SUCCESS, None); (QUEUE_FULL, None); (QUEUE_SUCCESS, Some 5)].
Proof.
  split; [|vm_compute; reflexivity].
  apply (queue_fifo sample_alloc sample_free). repeat constructor.
Defined.

End Queue.
